(* ===== verification/_CoqProject ===== *)
-Q . S2P
Prelude.v
Cursor.v
FilterTypes.v
Instances.v
BitStream.v
Validate.v
Matching.v
Envelope.v
FilterClient.v
FilterStore.v
FilterService.v
Extract.v
FilterIngest.v
EnhanceTypes.v
RecordJournal.v
Wire.v
Ipir.v
Worker.v
Fleet.v
Coordinator.v
Publish.v
Ingest.v
SpendTypes.v
Retrieval.v
Zakura.v
SpendTable.v
Spend.v
CommitmentTree.v
Witness.v
ChainFollow.v
WitnessServer.v
NullifierTable.v
Float64.v
ApmSchema.v
ApmMetrics.v
ApmAlerts.v
SnapshotDir.v
TreeSnapshot.v
TableSnapshot.v
NullifierServer.v
CombinedServer.v
ServerMetrics.v
Observe.v
PirEngines.v
LoadTest.v
FilterCli.v
Html.v
Dashboard.v
LegacyTables.v
FilterMetrics.v
Sidecar.v
