(* ===== verification/Prelude.v ===== *)
(** * Enhance PIR: a verification library

    The repository is a private-information-retrieval (PIR) service for Zcash
    wallets.  Its parts, under [src/], and how they fit together:

    - [pir/transparent-filter] and [server/transparent-filter-server]: compact
      block filters (BIP 158).  The server follows a node, builds one filter per
      block, stores it, and serves ranges in a binary envelope; a wallet checks
      what it gets against its own chain and matches its scripts locally.
    - [pir/enhance] and [server/enhance-pir-server]: a wallet privately retrieves
      the record of a note commitment.  The server appends the records of each
      block to a journal, cuts the journal into shards, and publishes a generation
      over groups of workers; a coordinator hands out sessions and assembles the
      answer to an encrypted query from the workers' partial products.
    - [pir/transparent-spend] with [spend.rs] of the server: the same retrieval
      for "which transaction spends this outpoint", over hashed buckets.
    - [demos/legacy-spendability]: two earlier demonstrations, a nullifier table
      ("is this note spent") and a commitment tree ("give me a Merkle witness"),
      each with ingestion, snapshots, a server and a client.
    - [server/pir-apm]: a sidecar that scrapes a server's metrics, shows them on a
      page and sends alerts.
    - [pir/load-test]: a load generator for the Enhance service.

    ** Files

    Shared: this file (results, machine integers, bytes, lists, maps and the
    tactics and hint databases of the library); [Cursor] (readers of binary
    formats); [Instances] (small instances of the external functions, used only
    by witnesses).

    Filters: [FilterTypes] ([error], [profile], [script], [hash], [digest]);
    [BitStream] (BIP 158 as specified: reference definitions, no code);
    [Validate] ([validate.rs]); [Matching] ([matching.rs], [build_filter.rs]);
    [Envelope] ([envelope.rs]); [FilterClient] ([client.rs], [transport.rs]);
    [FilterStore] ([store.rs]); [FilterService] ([service.rs], [wire.rs],
    [http.rs]); [Extract] ([extract.rs], [prevout.rs]); [FilterIngest]
    ([ingest.rs]); [Zakura] (the two [zakura.rs]); [FilterCli] ([bin/cli.rs]);
    [FilterMetrics] ([metrics.rs]).

    Enhance: [EnhanceTypes] ([pir/enhance/src/types.rs], [client.rs], the layouts
    of [types.rs]); [RecordJournal] ([store.rs], [ingest.rs], reconciliation of
    [bin/server.rs]); [Wire] ([wire.rs]); [Ipir] ([ipir.rs]); [Worker]
    ([worker.rs]); [Fleet] and [Coordinator] ([coordinator.rs], worker
    configuration of [bin/server.rs]); [Publish] (theorems on them); [Ingest] (the
    loop of [bin/server.rs]); [Retrieval] (the client, and the end-to-end theorem);
    [ServerMetrics] ([metrics.rs]) and [Observe] (worker health, probes, the scrape
    and the other views of [coordinator.rs]); [LoadTest] ([load.rs] and the timed
    query of the client).

    Transparent spend: [SpendTypes] ([types.rs], [client.rs]); [SpendTable]
    ([spend.rs]); [Spend] (theorems).

    Demonstrations: [CommitmentTree], [Witness], [ChainFollow], [WitnessServer],
    [TreeSnapshot] (witness); [NullifierTable], [TableSnapshot], [NullifierServer]
    (nullifiers); [SnapshotDir] (the snapshot files of both); [CombinedServer]
    (the process that serves both); [PirEngines] ([pir_ipir.rs], [pir_stub.rs],
    [pir_ypir.rs]); [LegacyTables] ([tables.rs] and the decryption leaves).

    Sidecar: [Float64] ([f64]); [ApmSchema] ([schema.rs], [thresholds.rs], the
    schema part of [config.rs]); [ApmMetrics] ([metrics.rs]); [ApmAlerts]
    ([alerts.rs], one tick of [main.rs]); [Html] (escaping, trees, their text and
    how it is read); [Dashboard] ([dashboard.rs], [host.rs]); [Sidecar]
    ([slack.rs], the loop of [main.rs]).

    ** How the code is modelled

    A Rust function is a Rocq function of the same name where possible; a method
    takes and returns its receiver.  [Result] is [result] with the error type of
    the module, and [let?] is the question mark; a panic that the code can reach
    is [None] of an option or an error value of its own.  Integers are [Z] with
    the wrap-around of release builds written out ([wrap64], [wrap32],
    saturating and checked operations), bytes are [Z] in [0, 256), and text is a
    [string] or its UTF-8 bytes.  A [HashMap] or [BTreeMap] is a [gmap], iterated
    in key order where the code depends on it ([sorted_entries]).  Error messages
    are the literal text of the source with its placeholders left in.  Code that
    writes files returns the sequence of file operations it performs, and a crash
    cuts the sequence anywhere.  A node or network that may change between two
    calls is a threaded state of a class.  An endless loop is modelled by one
    pass.  Concurrent tasks that touch disjoint state finish in the order of the
    class [Schedule]; tasks that share counters or a channel are a step relation
    ([ServerMetrics], [LoadTest]).

    Recursion that is not structural takes fuel, and each definition says how
    much: the number of bytes, batches, heights or blocks left.  The theorems on
    such loops say what the loop returns, so they also show the fuel is enough.

    ** Parameters

    Code outside the repository is the operation of a class; what is assumed of it
    is a second class of laws, each with an instance in [Instances] or beside the
    witnesses.  Hashes: [Sha256] (length of a digest), [SipHash24], [XxHash64]
    (ranges), [MerkleHash] (round trip of encodings, empty roots).  Codecs: [Hex]
    and [Base64] (round trips), [TxCodec], [BlockCodec], [UrlParser].  [GcsWriter]:
    the writer of the [bitcoin] crate produces the BIP 158 serialization.  The PIR
    scheme: [Ipir], [IpirServer] (its product is the matrix product), [IpirPack],
    [IpirRetrieval] (a fresh query on a prepared database, answered and decoded with
    the matching public parameters, gives the row), [IpirOnline] (the library's
    one-call answer is its public steps in order), [Ypir].  The promise
    [EngineRetrieval] that the demonstration clients rely on is discharged by the
    iPIR engine in [PirEngines].  [StdRng], [HdrHistogram] and [MapOrder] of the load
    test; [JsonApi] and [JsonText]; [Rfc3339] (the characters of a time).
    Networks and nodes, of which nothing is assumed except where a theorem names
    an honest one: [Http], [HttpServer], [WitnessHttp], [SpendHttp], [TxSource],
    [Zakura], [EnhanceNode], [Lwd], [LwdStart], [SlackHook].

    ** What the theorems show

    Filters: [validate_filter] accepts exactly the BIP 158 encodings within the
    limits, and a wallet never misses a script of a block; an envelope decodes
    exactly its encodings; synchronization ends against any transport and covers
    only checked blocks, and completes against the server, also from the command
    line; the store refines a map under appends and recovers the last commit after a
    crash; the counters of the service are the sums of what was recorded.

    Enhance: a wallet that asks for a position gets the record appended for it,
    through journal, shards, publication, session, query and answer; the answer
    assembled from replicas is the answer of one server, whichever replicas fail;
    a remote worker computes what an embedded one does; the journal and the shard
    artifacts survive a crash; one pass of ingestion brings the journal to the tip
    and publishes only the tip; the metrics count the tasks whatever their
    interleaving, no label comes from a request's path, and a scrape shows what the
    workers and the newest generation say.  A phase of the load test ends, and its
    report counts every query of every worker once, whatever the interleaving.

    Transparent spend: a lookup returns the spending entry of the log; the journal
    reopens at its last sync.

    Demonstrations: the tree refines the list of its blocks, with every cache; a
    client's witness is the authentication path of the whole tree; start and
    follow of the witness server give the tree of the chain; the nullifier table
    refines a map of blocks; filling it ends with enough nullifiers or the whole
    chain, a restart resumes from the snapshot, and a client's check is told what
    the served table holds; snapshots restore what was saved and are never read
    in part; a pass of the combined server keeps both databases on the node's
    chain, unless a bucket is full; the iPIR engine of the servers keeps the promise
    its clients rely on, and the stub engine returns the row asked for.

    Sidecar: an accepted schema is well-formed; the windows of counters are exact
    across restarts; alerts alternate between fired and recovered, and those of
    the two probes are active exactly when the probes have failed long enough; Slack
    is sent one message per transition and the page lists the alerts still open;
    nothing that is scraped can add markup to the page.

    Some theorems are about behaviour that is probably not intended, and are
    named for it ([..._sticks], [..._unopenable], [reorg_keeps_orphaned],
    [stale_broadcast_mixes_trees], [returned_rows_get_other_hint],
    [replaced_tip_is_lost], [failed_write_corrupts],
    [full_bucket_drops_nullifier]).

    ** Not modelled

    The text of the Prometheus exposition and histogram values of the servers;
    the system calls behind host statistics; argument parsers, process start,
    sockets and sleeping; the benchmarks and the throughput tests, which only
    measure; JSON text (messages are the records they parse to) and the
    gRPC and HTTP transports; the [ypir] variant of the legacy clients. *)

From Stdlib Require Import ZArith Lia.
From stdpp Require Import base numbers list strings gmap sorting.

Open Scope Z_scope.

(** ** Results

    A Rust [Result<A, E>].  The [let?] notation is the [?] operator: it
    returns early with the error. *)

Inductive result (E A : Type) : Type :=
| Ok (a : A)
| Err (e : E).
Arguments Ok {E A} a.
Arguments Err {E A} e.

Declare Scope rust_scope.
Delimit Scope rust_scope with rust.
Open Scope rust_scope.

Notation "'let?' p ':=' c 'in' k" :=
  (match c with Ok p => k | Err e => Err e end)
  (at level 10, p pattern, c at level 200, k at level 200,
   format "'[v' 'let?'  p  ':='  c  'in' '/' k ']'") : rust_scope.

Definition ok_or {E A} (o : option A) (e : E) : result E A :=
  match o with Some a => Ok a | None => Err e end.

Definition map_err {E F A} (f : E -> F) (r : result E A) : result F A :=
  match r with Ok a => Ok a | Err e => Err (f e) end.

Definition is_ok {E A} (r : result E A) : bool :=
  match r with Ok _ => true | Err _ => false end.

(** ** Machine integers

    A [w]-bit unsigned integer is a [Z] in [[0, 2^w)].  [usize] is 64 bits.
    The release profile does not check overflow, so a plain [+] wraps. *)

Notation "'u8_max'" := 255 (only parsing).
Definition u64_bound : Z := 2 ^ 64.
Definition wrap64 (z : Z) : Z := z mod u64_bound.
Definition wrap32 (z : Z) : Z := z mod 2 ^ 32.
Definition wrap16 (z : Z) : Z := z mod 2 ^ 16.

Definition checked_add64 (a b : Z) : option Z :=
  if a + b <? u64_bound then Some (a + b) else None.
Definition checked_mul64 (a b : Z) : option Z :=
  if a * b <? u64_bound then Some (a * b) else None.
Definition checked_sub64 (a b : Z) : option Z :=
  if b <=? a then Some (a - b) else None.
Definition saturating_sub (a b : Z) : Z := Z.max 0 (a - b).
Definition saturating_add64 (a b : Z) : Z := Z.min (a + b) (u64_bound - 1).
Definition saturating_mul64 (a b : Z) : Z := Z.min (a * b) (u64_bound - 1).
Definition div_ceil (a b : Z) : Z := (a + b - 1) / b.

Definition u64 (z : Z) : Prop := 0 <= z < u64_bound.
Definition u32 (z : Z) : Prop := 0 <= z < 2 ^ 32.
Definition u16 (z : Z) : Prop := 0 <= z < 2 ^ 16.

(** ** Bytes *)

Definition byte_ok (b : Z) : Prop := 0 <= b < 256.
Definition bytes_ok (bs : list Z) : Prop := Forall byte_ok bs.

(** The length of a slice as the [u64]/[usize] the code computes with. *)
Definition zlen {A} (l : list A) : Z := Z.of_nat (length l).

(** [to_le_bytes] of an [n]-byte integer, and [from_le_bytes]. *)
Fixpoint le_bytes (n : nat) (z : Z) : list Z :=
  match n with
  | O => []
  | S n => z mod 256 :: le_bytes n (z / 256)
  end.

Fixpoint le_val (bs : list Z) : Z :=
  match bs with
  | [] => 0
  | b :: bs => b + 256 * le_val bs
  end.

(** Strings are their UTF-8 bytes. *)
Definition string_bytes (s : string) : list Z :=
  (fun a => Z.of_N (Ascii.N_of_ascii a)) <$> String.list_ascii_of_string s.
Definition bytes_string (bs : list Z) : string :=
  String.string_of_list_ascii ((fun b => Ascii.ascii_of_N (Z.to_N b)) <$> bs).

Fixpoint strip_bytes (prefix l : list Z) : option (list Z) :=
  match prefix, l with
  | [], _ => Some l
  | a :: prefix, b :: l => if a =? b then strip_bytes prefix l else None
  | _ :: _, [] => None
  end.
(** [str::strip_prefix]. *)
Definition strip_prefix (prefix s : string) : option string :=
  bytes_string <$> strip_bytes (string_bytes prefix) (string_bytes s).

(** [str::split_once(separator)] on the bytes; [current] is what has been passed, reversed. *)
Fixpoint split_once (separator : Z) (l : list Z) (current : list Z) : option (list Z * list Z) :=
  match l with
  | [] => None
  | b :: l => if b =? separator then Some (reverse current, l) else split_once separator l (b :: current)
  end.

(** [slice.get(a..b)]. *)
Definition get_range {A} (l : list A) (a b : Z) : option (list A) :=
  if (a <=? b) && (b <=? zlen l)
  then Some (take (Z.to_nat (b - a)) (drop (Z.to_nat a) l))
  else None.

(** [slice.chunks_exact(n)]; the slice's length bounds the number of chunks. *)
Fixpoint chunks_exact {A} (fuel n : nat) (l : list A) : list (list A) :=
  match fuel with
  | O => []
  | S fuel =>
      if (n <=? length l)%nat then take n l :: chunks_exact fuel n (drop n l) else []
  end.

(** [u64::trailing_zeros]. *)
Definition trailing_zeros (n : Z) : Z :=
  if n =? 0 then 64 else Z.log2 (Z.land n (wrap64 (- n))).

(** A [for] loop that updates a state and may panic ([None]). *)
Fixpoint for_each {A S} (f : S -> A -> option S) (s : S) (l : list A) : option S :=
  match l with
  | [] => Some s
  | a :: l => s ← f s a; for_each f s l
  end.

(** ** Proof automation *)

Create HintDb rust.

(** [inv_res H]: [H] says what a computation written with [let?], matches and
    guards returned; recover every intermediate result and guard, and drop the
    branches that cannot have returned that. *)
Ltac inv_res_step :=
  lazymatch goal with
  | |- (?lhs = _) -> _ =>
      match lhs with
      | context [match ?x with _ => _ end] =>
          lazymatch x with
          | context [match _ with _ => _ end] => fail
          | _ => let E := fresh "E" in
                 destruct x eqn:E; cbv beta iota; try (intro; discriminate)
          end
      end
  end.
Ltac inv_res H :=
  revert H; cbv beta iota; repeat inv_res_step; intros H;
  try (injection H; clear H; intros; subst).

(** Boolean guards as propositions. *)
Ltac bool_prop :=
  repeat match goal with
  | H : andb _ _ = true |- _ => apply andb_true_iff in H; destruct H
  | H : andb _ _ = false |- _ => apply andb_false_iff in H
  | H : orb _ _ = false |- _ => apply orb_false_iff in H; destruct H
  | H : orb _ _ = true |- _ => apply orb_true_iff in H
  | H : negb _ = true |- _ => apply negb_true_iff in H
  | H : negb _ = false |- _ => apply negb_false_iff in H
  | H : (_ <=? _) = true |- _ => apply Z.leb_le in H
  | H : (_ <=? _) = false |- _ => apply Z.leb_gt in H
  | H : (_ <? _) = true |- _ => apply Z.ltb_lt in H
  | H : (_ <? _) = false |- _ => apply Z.ltb_ge in H
  | H : (_ =? _) = true |- _ => apply Z.eqb_eq in H
  | H : (_ =? _) = false |- _ => apply Z.eqb_neq in H
  | H : bool_decide _ = true |- _ => apply bool_decide_eq_true in H
  | H : bool_decide _ = false |- _ => apply bool_decide_eq_false in H
  end.

(** Decide the boolean guards of the goal by linear arithmetic. *)
Ltac guards :=
  repeat match goal with
  | |- context [?a <=? ?b] =>
      first [ rewrite (proj2 (Z.leb_le a b)) by lia
            | rewrite (proj2 (Z.leb_gt a b)) by lia ]
  | |- context [?a <? ?b] =>
      first [ rewrite (proj2 (Z.ltb_lt a b)) by lia
            | rewrite (proj2 (Z.ltb_ge a b)) by lia ]
  | |- context [?a =? ?b] =>
      first [ rewrite (proj2 (Z.eqb_eq a b)) by lia
            | rewrite (proj2 (Z.eqb_neq a b)) by lia ]
  end.

(** ** Generic lemmas *)

Lemma wrap64_small z : 0 <= z < u64_bound -> wrap64 z = z.
Proof. apply Z.mod_small. Qed.

Lemma zlen_nonneg {A} (l : list A) : 0 <= zlen l.
Proof. unfold zlen; lia. Qed.

Lemma zlen_nil {A} : zlen (@nil A) = 0.
Proof. reflexivity. Qed.

Lemma zlen_cons {A} (x : A) l : zlen (x :: l) = 1 + zlen l.
Proof. unfold zlen; simpl; lia. Qed.

Lemma zlen_app {A} (l k : list A) : zlen (l ++ k) = zlen l + zlen k.
Proof. unfold zlen; rewrite length_app; lia. Qed.

Create Rewrite HintDb zlen.
#[export] Hint Rewrite @zlen_nil @zlen_cons @zlen_app : zlen.
#[export] Hint Resolve zlen_nonneg : rust.

Lemma length_le_bytes n z : length (le_bytes n z) = n.
Proof. revert z; induction n; intros; simpl; auto. Qed.

Lemma zlen_le_bytes n z : zlen (le_bytes n z) = Z.of_nat n.
Proof. unfold zlen; by rewrite length_le_bytes. Qed.
#[export] Hint Rewrite zlen_le_bytes : zlen.

Lemma bytes_ok_le_bytes n z : bytes_ok (le_bytes n z).
Proof.
  revert z; induction n; intros; simpl; constructor; [|apply IHn].
  unfold byte_ok. pose proof (Z.mod_pos_bound z 256). lia.
Qed.

Lemma bytes_ok_app a b : bytes_ok (a ++ b) <-> bytes_ok a /\ bytes_ok b.
Proof. apply Forall_app. Qed.

Lemma bytes_ok_take n a : bytes_ok a -> bytes_ok (take n a).
Proof. apply Forall_take. Qed.

Lemma bytes_ok_drop n a : bytes_ok a -> bytes_ok (drop n a).
Proof. apply Forall_drop. Qed.
#[export] Hint Resolve bytes_ok_le_bytes bytes_ok_take bytes_ok_drop : rust.

Lemma le_val_le_bytes n z :
  0 <= z < 256 ^ Z.of_nat n -> le_val (le_bytes n z) = z.
Proof.
  revert z; induction n; intros z Hz; cbn [le_bytes le_val].
  - change (256 ^ Z.of_nat 0) with 1 in Hz. lia.
  - rewrite IHn.
    + pose proof (Z.div_mod z 256). lia.
    + rewrite Nat2Z.inj_succ, Z.pow_succ_r in Hz by lia.
      split; [apply Z.div_pos; lia|apply Z.div_lt_upper_bound; lia].
Qed.

Lemma le_val_range bs : bytes_ok bs -> 0 <= le_val bs < 256 ^ zlen bs.
Proof.
  induction 1 as [|b bs Hb _ IH]; cbn [le_val]; [unfold zlen; simpl; lia|].
  rewrite zlen_cons, Z.pow_add_r by (unfold zlen; lia).
  unfold byte_ok in *. lia.
Qed.

Lemma le_bytes_le_val bs : bytes_ok bs -> le_bytes (length bs) (le_val bs) = bs.
Proof.
  induction 1 as [|b bs Hb _ IH]; cbn [le_bytes le_val length]; [done|].
  unfold byte_ok in Hb.
  replace ((b + 256 * le_val bs) mod 256) with b.
  2:{ rewrite Z.mul_comm, Z.mod_add, Z.mod_small by lia. done. }
  replace ((b + 256 * le_val bs) / 256) with (le_val bs).
  2:{ rewrite Z.mul_comm, Z.div_add, Z.div_small by lia. lia. }
  by rewrite IH.
Qed.

Lemma le_bytes_le_val_len n bs :
  bytes_ok bs -> length bs = n -> le_bytes n (le_val bs) = bs.
Proof. intros ? <-. by apply le_bytes_le_val. Qed.

Lemma le_bytes_inj n a b :
  0 <= a < 256 ^ Z.of_nat n -> 0 <= b < 256 ^ Z.of_nat n ->
  le_bytes n a = le_bytes n b -> a = b.
Proof.
  intros Ha Hb H. apply (f_equal le_val) in H.
  by rewrite !le_val_le_bytes in H.
Qed.

Lemma u64_pow z : u64 z <-> 0 <= z < 256 ^ Z.of_nat 8.
Proof. unfold u64, u64_bound. change (256 ^ Z.of_nat 8) with (2 ^ 64). done. Qed.

Lemma bytes_ok_string s : bytes_ok (string_bytes s).
Proof.
  unfold string_bytes. apply Forall_fmap, Forall_true. intros a.
  unfold compose, byte_ok. pose proof (Ascii.N_ascii_bounded a). lia.
Qed.
#[export] Hint Resolve bytes_ok_string : rust.

Lemma string_of_bytes s : bytes_string (string_bytes s) = s.
Proof.
  unfold bytes_string, string_bytes. rewrite <- list_fmap_compose.
  rewrite (list_fmap_ext _ id).
  - rewrite list_fmap_id. apply String.string_of_list_ascii_of_string.
  - intros i a _. unfold compose. by rewrite N2Z.id, Ascii.ascii_N_embedding.
Qed.

Lemma bytes_of_string bs : bytes_ok bs -> string_bytes (bytes_string bs) = bs.
Proof.
  intros H. unfold bytes_string, string_bytes.
  rewrite String.list_ascii_of_string_of_list_ascii, <- list_fmap_compose.
  rewrite <- (list_fmap_id bs) at 2.
  apply Forall_fmap_ext_1. eapply Forall_impl; [exact H|].
  intros b Hb. unfold compose, byte_ok in *.
  rewrite Ascii.N_ascii_embedding by lia. unfold id. lia.
Qed.

Lemma strip_bytes_Some prefix : forall l rest, strip_bytes prefix l = Some rest -> l = prefix ++ rest.
Proof.
  induction prefix as [|a prefix IH]; intros l rest E; cbn in *; [congruence|]. destruct l as [|b l]; [done|].
  destruct (a =? b) eqn:Eab; [|done]. apply Z.eqb_eq in Eab as ->. f_equal. by apply IH.
Qed.

Lemma split_once_Some separator l : forall current a b,
  split_once separator l current = Some (a, b) -> reverse current ++ l = a ++ separator :: b.
Proof.
  induction l as [|x l IH]; intros current a b E; [done|]. cbn in E. destruct (x =? separator) eqn:Ex.
  - apply Z.eqb_eq in Ex as ->. by injection E as <- <-.
  - apply IH in E. rewrite <- E, reverse_cons, <- (assoc_L (++)). done.
Qed.

Lemma get_range_app {A} (pre xs post : list A) :
  get_range (pre ++ xs ++ post) (zlen pre) (zlen pre + zlen xs) = Some xs.
Proof.
  unfold get_range. rewrite !zlen_app.
  pose proof (zlen_nonneg post). pose proof (zlen_nonneg xs). guards. simpl.
  f_equal. unfold zlen.
  rewrite Nat2Z.id, drop_app_length.
  replace (Z.to_nat _) with (length xs) by lia.
  apply take_app_length.
Qed.

Lemma get_range_Some {A} (l xs : list A) a b :
  0 <= a -> get_range l a b = Some xs ->
  a <= b <= zlen l /\ zlen xs = b - a /\
  l = take (Z.to_nat a) l ++ xs ++ drop (Z.to_nat b) l.
Proof.
  unfold get_range. intros Ha H. inv_res H. bool_prop.
  split_and!; [lia..| |].
  - unfold zlen in *. rewrite length_take, length_drop. lia.
  - rewrite <- (take_drop (Z.to_nat a) l) at 1. f_equal.
    rewrite <- (take_drop (Z.to_nat (b - a)) (drop (Z.to_nat a) l)) at 1.
    f_equal. rewrite drop_drop. f_equal. lia.
Qed.

Lemma get_range_None {A} (l : list A) a b :
  get_range l a b = None <-> b < a \/ zlen l < b.
Proof.
  unfold get_range. destruct ((a <=? b) && (b <=? zlen l)) eqn:E.
  - split; [done|]. bool_prop. lia.
  - split; [intros _|done]. apply andb_false_iff in E as [E|E]; bool_prop; lia.
Qed.

Lemma chunks_exact_concat {A} fuel n (l : list (list A)) :
  (0 < n)%nat -> Forall (fun c => length c = n) l -> (length (concat l) <= fuel)%nat ->
  chunks_exact fuel n (concat l) = l.
Proof.
  intros Hn Hl. revert fuel. induction Hl as [|c l Hc _ IH]; intros fuel Hf.
  - destruct fuel; simpl; [done|]. by destruct n; [lia|].
  - simpl in Hf. rewrite length_app in Hf. destruct fuel as [|fuel]; [lia|].
    cbn [chunks_exact concat]. rewrite length_app.
    destruct (n <=? _)%nat eqn:E; [|apply Nat.leb_gt in E; lia].
    rewrite take_app_length', drop_app_length' by done. f_equal. apply IH. lia.
Qed.

Lemma zlen_concat {A} (l : list (list A)) n :
  Forall (fun c => zlen c = n) l -> zlen (concat l) = n * zlen l.
Proof.
  induction 1 as [|c l Hc _ IH]; [by rewrite Z.mul_0_r|].
  cbn [concat]. rewrite zlen_app, zlen_cons, IH, Hc. lia.
Qed.

Lemma mapM_Some_fmap {A B} (f : A -> option B) (g : A -> B) l :
  (forall a, a ∈ l -> f a = Some (g a)) -> mapM f l = Some (g <$> l).
Proof.
  induction l as [|a l IH]; intros Hf; cbn [mapM fmap list_fmap]; [done|].
  rewrite Hf by apply list_elem_of_here. cbn.
  rewrite IH; [done|]. intros x Hx. apply Hf. by apply list_elem_of_further.
Qed.

(** The invariant rule of a [for] loop over a range. *)
Lemma for_each_range {S} (f : S -> Z -> option S) (P : Z -> S -> Prop) s n :
  0 <= n -> P 0 s ->
  (forall k s, 0 <= k < n -> P k s -> exists s', f s k = Some s' /\ P (k + 1) s') ->
  exists s', for_each f s (seqZ 0 n) = Some s' /\ P n s'.
Proof.
  intros Hn H0 Hstep.
  assert (forall (m : nat) k s, 0 <= k -> k + Z.of_nat m = n -> P k s ->
    exists s', for_each f s (seqZ k (Z.of_nat m)) = Some s' /\ P n s') as Hall.
  { induction m as [|m IH]; intros k s' Hk Hm HP.
    - replace n with k in * by lia. by exists s'.
    - rewrite seqZ_cons by lia. destruct (Hstep k s' ltac:(lia) HP) as (s1 & E & HP1).
      cbn [for_each]. rewrite E. cbn [mbind option_bind].
      replace (Z.pred (Z.of_nat (Datatypes.S m))) with (Z.of_nat m) by lia.
      apply IH; [lia|lia|]. by replace (Z.succ k) with (k + 1) by lia. }
  destruct (Hall (Z.to_nat n) 0 s) as (s' & E & HP); [lia|lia|done|].
  exists s'. by rewrite Z2Nat.id in E.
Qed.

Lemma filter_split {A} (P : A -> Prop) `{!forall x, Decision (P x)} l k :
  Forall P l -> Forall (fun x => ~ P x) k -> filter P (l ++ k) = l.
Proof.
  intros Hl Hk. induction Hl as [|x l Hx _ IH]; cbn [app].
  - induction Hk as [|x k Hx _ IH]; [done|]. by rewrite filter_cons_False.
  - rewrite filter_cons_True by done. by rewrite IH.
Qed.

(** ** [BTreeMap<String, _>] iteration: entries in the order of their keys *)

Definition entry_le {A} (a b : string * A) : Prop := String.leb (fst a) (fst b) = true.
#[export] Instance entry_le_dec {A} : RelDecision (@entry_le A).
Proof. intros a b. unfold entry_le. apply _. Defined.

Definition sorted_entries {A} (m : gmap string A) : list (string * A) :=
  merge_sort entry_le (map_to_list m).

Lemma sorted_entries_perm {A} (m : gmap string A) : Permutation (sorted_entries m) (map_to_list m).
Proof. apply merge_sort_Permutation. Qed.

Lemma elem_of_sorted_entries {A} (m : gmap string A) k a :
  (k, a) ∈ sorted_entries m <-> m !! k = Some a.
Proof. by rewrite sorted_entries_perm, elem_of_map_to_list. Qed.

Lemma NoDup_sorted_entries {A} (m : gmap string A) : NoDup (sorted_entries m).*1.
Proof. rewrite sorted_entries_perm. apply NoDup_fst_map_to_list. Qed.
