(* ===== verification/Cursor.v ===== *)
(** * Byte cursors

    The reader that the binary formats of the program use: [Reader] of
    [pir/transparent-filter/src/envelope.rs], [Input] of
    [server/enhance-pir-server/src/wire.rs] and the position the two snapshot
    readers of the legacy demonstrations advance are the same structure with
    different error values, so the operations here take the errors as
    arguments.  A parser is a function that threads the cursor and may fail;
    the lemmas at the end give, for each operation, what it reads from a given
    suffix ([..._at]) and what a successful read says about the suffix
    ([..._yields]), and compose along [pbind] and [prepeat]; [reads] says that a
    parser reads exactly a given encoding, wherever it stands. *)

From Stdlib Require Import ZArith Lia.
From stdpp Require Import base numbers list strings.
From S2P Require Import Prelude.

Open Scope Z_scope.

Record cursor := Cursor { cur_bytes : list Z; cur_offset : Z }.

Definition parser (E A : Type) : Type := cursor -> result E (A * cursor).

Definition pret {E A} (a : A) : parser E A := fun c => Ok (a, c).
Definition pfail {E A} (e : E) : parser E A := fun _ => Err e.
Definition pbind {E A B} (p : parser E A) (k : A -> parser E B) : parser E B :=
  fun c => let? (a, c1) := p c in k a c1.

Notation "'let!' x ':=' p 'in' k" := (pbind p (fun x => k))
  (at level 10, x pattern, p at level 200, k at level 200,
   format "'[v' 'let!'  x  ':='  p  'in' '/' k ']'") : rust_scope.

(** A [for _ in 0..n] loop that pushes one parsed value per iteration. *)
Fixpoint prepeat {E A} (n : nat) (p : parser E A) : parser E (list A) :=
  match n with
  | O => pret []
  | S n => let! a := p in let! l := prepeat n p in pret (a :: l)
  end.

Section operations.
Context {E : Type} (overflow truncated : E).

Definition cursor_take (count : Z) : parser E (list Z) := fun c =>
  let? stop := ok_or (checked_add64 (cur_offset c) count) overflow in
  let? s := ok_or (get_range (cur_bytes c) (cur_offset c) stop) truncated in
  Ok (s, Cursor (cur_bytes c) stop).

(** [u16()], [u32()], [u64()]: little-endian integers of [n] bytes. *)
Definition cursor_le (n : nat) : parser E Z :=
  let! s := cursor_take (Z.of_nat n) in pret (le_val s).

Definition cursor_remaining : parser E Z := fun c =>
  Ok (zlen (cur_bytes c) - cur_offset c, c).
End operations.

(** The cursor that has consumed [pre] and has [rest] left. *)
Definition at_ (pre rest : list Z) : cursor := Cursor (pre ++ rest) (zlen pre).

Definition fits (pre rest : list Z) : Prop := zlen pre + zlen rest < u64_bound.

(** [yields p P]: whatever [p] accepts is a prefix [bs] of what was left, and
    [P bs v] relates it to the value. *)
Definition yields {E A} (p : parser E A) (P : list Z -> A -> Prop) : Prop :=
  forall pre rest v c', bytes_ok rest -> p (at_ pre rest) = Ok (v, c') ->
  exists bs rest', rest = bs ++ rest' /\ c' = at_ (pre ++ bs) rest' /\ P bs v.

Section laws.
Context {E : Type} (overflow truncated : E).
Local Abbreviation take_ := (cursor_take overflow truncated).

Lemma fits_app pre xs rest : fits pre (xs ++ rest) -> fits (pre ++ xs) rest.
Proof. unfold fits. autorewrite with zlen. lia. Qed.

Lemma cursor_take_at pre xs rest :
  fits pre (xs ++ rest) ->
  take_ (zlen xs) (at_ pre (xs ++ rest)) = Ok (xs, at_ (pre ++ xs) rest).
Proof.
  unfold fits, cursor_take, at_, checked_add64. autorewrite with zlen.
  intros H. pose proof (zlen_nonneg rest). simpl. guards. simpl.
  rewrite get_range_app. simpl. by rewrite <- app_assoc.
Qed.

Lemma cursor_take_at_len n pre xs rest :
  zlen xs = n -> fits pre (xs ++ rest) ->
  take_ n (at_ pre (xs ++ rest)) = Ok (xs, at_ (pre ++ xs) rest).
Proof. intros <-. apply cursor_take_at. Qed.

Lemma cursor_le_at n z pre rest :
  0 <= z < 256 ^ Z.of_nat n -> fits pre (le_bytes n z ++ rest) ->
  cursor_le overflow truncated n (at_ pre (le_bytes n z ++ rest)) =
  Ok (z, at_ (pre ++ le_bytes n z) rest).
Proof.
  intros Hz Hf. unfold cursor_le, pbind.
  rewrite cursor_take_at_len by (done || apply zlen_le_bytes).
  unfold pret. by rewrite le_val_le_bytes.
Qed.

Lemma cursor_remaining_at pre rest :
  cursor_remaining (E:=E) (at_ pre rest) = Ok (zlen rest, at_ pre rest).
Proof.
  unfold cursor_remaining, at_. simpl. autorewrite with zlen.
  do 2 f_equal. lia.
Qed.

(** A short suffix is reported as truncated, never over-read. *)
Lemma cursor_take_short n pre rest :
  zlen rest < n -> zlen pre + n < u64_bound ->
  take_ n (at_ pre rest) = Err truncated.
Proof.
  intros Hn Hf. unfold cursor_take, at_, checked_add64. simpl. guards. simpl.
  rewrite (proj2 (get_range_None _ _ _)); [done|].
  autorewrite with zlen. lia.
Qed.

Lemma cursor_take_yields n :
  yields (take_ n) (fun bs v => bs = v /\ zlen v = n /\ bytes_ok v).
Proof.
  intros pre rest v c' Hok H. unfold cursor_take, at_ in H. simpl in H.
  inv_res H. unfold ok_or, checked_add64 in *.
  destruct (zlen pre + n <? u64_bound); simplify_eq.
  destruct (get_range _ _ _) as [s|] eqn:Hg; simplify_eq.
  pose proof (zlen_nonneg pre) as Hp.
  apply get_range_Some in Hg as (Hr & Hl & He); [|done].
  assert (Hpre : take (Z.to_nat (zlen pre)) (pre ++ rest) = pre)
    by (unfold zlen; rewrite Nat2Z.id; apply take_app_length).
  rewrite Hpre in He. apply app_inv_head in He.
  exists v, (drop (Z.to_nat (zlen pre + n)) (pre ++ rest)).
  split; [done|]. split.
  - unfold at_. autorewrite with zlen. f_equal; [|lia].
    rewrite <- app_assoc. f_equal. exact He.
  - split_and!; [done|lia|]. rewrite He in Hok. by apply bytes_ok_app in Hok as [? _].
Qed.

Lemma yields_weaken {A} (p : parser E A) P Q :
  yields p P -> (forall bs v, bytes_ok bs -> P bs v -> Q bs v) -> yields p Q.
Proof.
  intros Hp HPQ pre rest v c' Hok H.
  destruct (Hp _ _ _ _ Hok H) as (bs & rest' & -> & -> & HP).
  apply bytes_ok_app in Hok as [Hb _]. eauto 10.
Qed.

Lemma yields_pret {A} (a : A) : yields (E:=E) (pret a) (fun bs v => bs = [] /\ v = a).
Proof.
  intros pre rest v c' _ H. unfold pret in H. simplify_eq.
  exists [], rest. rewrite app_nil_r. by split_and!.
Qed.

Lemma yields_pfail {A} (e : E) P : yields (A:=A) (pfail e) P.
Proof. intros pre rest v c' _ H. unfold pfail in H. done. Qed.

Lemma yields_bind {A B} (p : parser E A) (k : A -> parser E B) P Q R :
  yields p P -> (forall a bs, P bs a -> yields (k a) (Q a)) ->
  (forall b1 b2 a b, P b1 a -> Q a b2 b -> R (b1 ++ b2) b) ->
  yields (pbind p k) R.
Proof.
  intros Hp Hk HR pre rest v c' Hok H. unfold pbind in H.
  destruct (p (at_ pre rest)) as [[a c1]|] eqn:Ep; [|done].
  destruct (Hp _ _ _ _ Hok Ep) as (b1 & r1 & -> & -> & HP).
  apply bytes_ok_app in Hok as [_ Hok].
  destruct (Hk _ _ HP _ _ _ _ Hok H) as (b2 & r2 & -> & -> & HQ).
  exists (b1 ++ b2), r2. rewrite <- !app_assoc. eauto.
Qed.

Lemma yields_remaining :
  yields (cursor_remaining (E:=E)) (fun bs v => bs = []).
Proof.
  intros pre rest v c' _ H. rewrite cursor_remaining_at in H. simplify_eq.
  exists [], rest. by rewrite app_nil_r.
Qed.

Lemma cursor_le_yields n :
  yields (cursor_le overflow truncated n)
    (fun bs z => bs = le_bytes n z /\ 0 <= z < 256 ^ Z.of_nat n).
Proof.
  eapply yields_bind; [apply cursor_take_yields|intros; apply yields_pret|].
  simpl. intros b1 b2 a b (-> & Hl & Hok) [-> ->]. rewrite app_nil_r.
  assert (length a = n) as Hn by (unfold zlen in Hl; lia). split.
  - symmetry. by apply le_bytes_le_val_len.
  - pose proof (le_val_range a Hok). by rewrite Hl in *.
Qed.

(** [yields] for a chain of encoded fields: [seen] is what the fields so far
    encode to, [R] what the whole input is in the end. *)
Definition completes {A} (p : parser E A) (seen : list Z) (R : list Z -> A -> Prop) : Prop :=
  yields p (fun bs v => R (seen ++ bs) v).

Lemma completes_start {A} (p : parser E A) R : completes p [] R -> yields p R.
Proof. done. Qed.

Lemma completes_field {A B} enc (wf : A -> Prop) (p : parser E A) (k : A -> parser E B) seen R :
  yields p (fun bs a => bs = enc a /\ wf a) ->
  (forall a, wf a -> completes (k a) (seen ++ enc a) R) ->
  completes (pbind p k) seen R.
Proof.
  intros Hp Hk. eapply yields_bind with (Q := fun a bs v => R ((seen ++ enc a) ++ bs) v);
    [exact Hp|intros a bs [_ Hwf]; by apply Hk|].
  intros b1 b2 a b [-> _]. by rewrite <- app_assoc.
Qed.

Lemma completes_guard {A} (c : bool) e (p : parser E A) seen R :
  (c = false -> completes p seen R) -> completes (if c then pfail e else p) seen R.
Proof. destruct c; [intros _; apply yields_pfail|auto]. Qed.

Lemma completes_peek {B} (k : Z -> parser E B) seen R :
  (forall n, completes (k n) seen R) -> completes (pbind cursor_remaining k) seen R.
Proof.
  intros Hk. eapply yields_bind with (Q := fun _ bs v => R (seen ++ bs) v);
    [apply yields_remaining|intros; apply Hk|]. by intros b1 b2 a b ->.
Qed.

Lemma completes_done {A} (a : A) seen R : R seen a -> completes (pret a) seen R.
Proof.
  intros HR. eapply yields_weaken; [apply yields_pret|].
  intros bs v _ [-> ->]. by rewrite app_nil_r.
Qed.

Lemma prepeat_yields {A} (p : parser E A) enc (wf : A -> Prop) n :
  yields p (fun bs v => bs = enc v /\ wf v) ->
  yields (prepeat n p)
    (fun bs l => bs = concat (enc <$> l) /\ length l = n /\ Forall wf l).
Proof.
  intros Hp. induction n as [|n IH]; simpl.
  - eapply yields_weaken; [apply yields_pret|]. intros bs v _ [-> ->]. done.
  - eapply yields_bind with (Q := fun a bs v => exists l, v = a :: l /\
      bs = concat (enc <$> l) /\ length l = n /\ Forall wf l); [exact Hp| |].
    + intros a bs _. eapply yields_bind; [exact IH|intros; apply yields_pret|].
      intros b1 b2 l v (-> & Hn & Hall) [-> ->]. rewrite app_nil_r. eauto.
    + simpl. intros b1 b2 a b [-> Hwf] (l & -> & -> & <- & Hall). simpl. auto.
Qed.

Lemma prepeat_at {A} (p : parser E A) enc (wf : A -> Prop) :
  (forall v pre rest, wf v -> fits pre (enc v ++ rest) ->
     p (at_ pre (enc v ++ rest)) = Ok (v, at_ (pre ++ enc v) rest)) ->
  forall l pre rest, Forall wf l -> fits pre (concat (enc <$> l) ++ rest) ->
  prepeat (length l) p (at_ pre (concat (enc <$> l) ++ rest)) =
  Ok (l, at_ (pre ++ concat (enc <$> l)) rest).
Proof.
  intros Hp l. induction l as [|v l IH]; intros pre rest Hall Hf; simpl.
  - by rewrite app_nil_r.
  - apply Forall_cons in Hall as [Hv Hall]. simpl in Hf.
    rewrite <- app_assoc in Hf |- *. unfold pbind.
    rewrite Hp by done. rewrite IH by (done || by apply fits_app).
    unfold pret. by rewrite <- app_assoc.
Qed.
End laws.

(** [reads p bs v]: on input that starts with [bs], [p] takes exactly [bs] and
    returns [v].  Readers of encoded fields compose along [pbind] and [prepeat]. *)
Definition reads {E A} (p : parser E A) (bs : list Z) (v : A) : Prop :=
  forall pre rest, fits pre (bs ++ rest) -> p (at_ pre (bs ++ rest)) = Ok (v, at_ (pre ++ bs) rest).

Section reads.
Context {E : Type} (overflow truncated : E).

Lemma reads_bind {A B} (p : parser E A) (k : A -> parser E B) b1 b2 a b :
  reads p b1 a -> reads (k a) b2 b -> reads (pbind p k) (b1 ++ b2) b.
Proof.
  intros Hp Hk pre rest Hf. rewrite <- app_assoc in *. unfold pbind. rewrite Hp by done.
  rewrite Hk by (by apply fits_app). by rewrite <- app_assoc.
Qed.

Lemma reads_bind_nil {A B} (p : parser E A) (k : A -> parser E B) bs a b :
  reads p bs a -> reads (k a) [] b -> reads (pbind p k) bs b.
Proof. intros Hp Hk. rewrite <- (app_nil_r bs). by eapply reads_bind. Qed.

Lemma reads_ret {A} (a : A) : reads (E:=E) (pret a) [] a.
Proof. intros pre rest _. by rewrite app_nil_r. Qed.

Lemma reads_guard {A} (c : bool) e (p : parser E A) bs v :
  c = false -> reads p bs v -> reads (if c then pfail e else p) bs v.
Proof. by intros ->. Qed.

Lemma reads_le n z : 0 <= z < 256 ^ Z.of_nat n -> reads (cursor_le overflow truncated n) (le_bytes n z) z.
Proof. intros Hz pre rest Hf. by apply cursor_le_at. Qed.

Lemma reads_take n xs : zlen xs = n -> reads (cursor_take overflow truncated n) xs xs.
Proof. intros Hn pre rest Hf. by apply cursor_take_at_len. Qed.

Lemma reads_repeat {A} (p : parser E A) enc l n :
  length l = n -> Forall (fun v => reads p (enc v) v) l -> reads (prepeat n p) (concat (enc <$> l)) l.
Proof.
  intros <- Hall pre rest Hf. apply (prepeat_at p enc (fun v => reads p (enc v) v)); [|done|done].
  intros v pre' rest' Hv Hf'. by apply Hv.
Qed.
End reads.
