(* ===== verification/FilterTypes.v ===== *)
(** * Vocabulary of the transparent filter crate

    Models [pir/transparent-filter/src/{error,profile,script,hash,digest}.rs]:
    errors, profile constants, raw scripts as filter elements, block hashes in
    internal and display order, and filter digests.  The [hex], [sha2] and
    [bitcoin] crates are not part of the repository: their functions are the
    operations of the classes [Hex], [Sha256] and [SipHash24], and what the
    code relies on is in the companion classes [HexLaws], [Sha256Laws],
    [SipHash24Laws]. *)

From Stdlib Require Import ZArith Lia.
From stdpp Require Import base numbers list strings.
From S2P Require Import Prelude.

Open Scope Z_scope.

(** ** External crates *)

(** [hex::encode] and [hex::decode]; a failed decode is [None]. *)
Class Hex := {
  hex_encode : list Z -> string;
  hex_decode : string -> option (list Z) }.

Class HexLaws (H : Hex) : Prop := {
  hex_decode_encode bs : bytes_ok bs -> hex_decode (hex_encode bs) = Some bs;
  hex_decode_ok s bs : hex_decode s = Some bs -> bytes_ok bs }.

(** [Sha256::digest]. *)
Class Sha256 := sha256 : list Z -> list Z.

Class Sha256Laws (S : Sha256) : Prop := {
  sha256_length bs : length (sha256 bs) = 32%nat;
  sha256_ok bs : bytes_ok (sha256 bs) }.

(** [siphash24::Hash::hash_to_u64_with_keys]. *)
Class SipHash24 := siphash24 : Z -> Z -> list Z -> Z.

Class SipHash24Laws (S : SipHash24) : Prop := {
  siphash24_u64 k0 k1 bs : u64 (siphash24 k0 k1 bs) }.

(** ** error.rs

    Message payloads are the source's string or format literals, with their
    arguments left unexpanded. *)
Inductive FilterError :=
| FE_BlockHash (m : string)
| FE_Encoding (m : string)
| FE_Truncated (m : string)
| FE_NotCanonical (m : string)
| FE_LimitExceeded (m : string)
| FE_TrailingBytes (n : Z)
| FE_NonZeroPadding
| FE_MissingPreviousOutput (m : string)
| FE_Envelope (m : string)
| FE_Response (m : string).

(** ** profile.rs *)
Definition PROFILE : string := "zcash-transparent-basic-v1".
Definition P : Z := 19.
Definition M : Z := 784931.
Definition NETWORK : string := "main".
Definition MAINNET_GENESIS_DISPLAY : string :=
  "00040fe8ec8471911baa1db1266ea15dd06b4a8a5c453883c000b031973dce08".
Definition START_HEIGHT : Z := 3428143.

(** ** script.rs *)
Definition ScriptBytes : Type := list Z.
Definition OP_RETURN : Z := 0x6a.

Definition ScriptBytes_is_empty (s : ScriptBytes) : bool :=
  match s with [] => true | _ => false end.

Definition ScriptBytes_is_op_return (s : ScriptBytes) : bool :=
  bool_decide (head s = Some OP_RETURN).

Definition ScriptBytes_is_filter_element (s : ScriptBytes) : bool :=
  negb (ScriptBytes_is_empty s) && negb (ScriptBytes_is_op_return s).

(** ** hash.rs *)
Definition BlockHash : Type := list Z.

(** The type invariant of [[u8; 32]]. *)
Definition hash_ok (h : BlockHash) : Prop := length h = 32%nat /\ bytes_ok h.

Section hash.
Context `{Hex}.

Definition BlockHash_from_display_hex (text : string) : result FilterError BlockHash :=
  let? bytes := ok_or (hex_decode text)
                  (FE_BlockHash "block hash is not hexadecimal") in
  if bool_decide (length bytes = 32%nat) then Ok (reverse bytes)
  else Err (FE_BlockHash "block hash is not 32 bytes").

Definition BlockHash_to_display_hex (h : BlockHash) : string :=
  hex_encode (reverse h).
End hash.

Definition BlockHash_filter_keys (h : BlockHash) : Z * Z :=
  (le_val (take 8 h), le_val (take 8 (drop 8 h))).

(** ** digest.rs *)
Section digest.
Context `{Sha256}.

Definition double_sha256 (parts : list (list Z)) : list Z :=
  sha256 (sha256 (concat parts)).

Definition filter_hash (bytes : list Z) : list Z := double_sha256 [bytes].

Definition filter_header (filter previous : list Z) : list Z :=
  double_sha256 [filter; previous].
End digest.

Definition GENESIS_PREDECESSOR : list Z := replicate 32 0.

(** ** Lemmas *)

Lemma zlen_hash h : hash_ok h -> zlen h = 32.
Proof. intros [Hl _]. unfold zlen. lia. Qed.

Lemma filter_keys_u64 h :
  hash_ok h ->
  u64 (fst (BlockHash_filter_keys h)) /\ u64 (snd (BlockHash_filter_keys h)).
Proof.
  intros [Hl Hb]. unfold BlockHash_filter_keys. simpl. rewrite !u64_pow. split.
  - pose proof (le_val_range (take 8 h) ltac:(auto with rust)) as Hr.
    unfold zlen in Hr. rewrite length_take, Hl in Hr. done.
  - pose proof (le_val_range (take 8 (drop 8 h)) ltac:(auto with rust)) as Hr.
    unfold zlen in Hr. rewrite length_take, length_drop, Hl in Hr. done.
Qed.

Lemma from_display_hex_ok `{HexLaws} text h :
  BlockHash_from_display_hex text = Ok h -> hash_ok h.
Proof.
  unfold BlockHash_from_display_hex. intros Hd. inv_res Hd. bool_prop.
  unfold ok_or in *. case_match; simplify_eq.
  split; [by rewrite length_reverse|].
  apply Forall_reverse. by eapply hex_decode_ok.
Qed.

Lemma from_to_display_hex `{HexLaws} h :
  hash_ok h -> BlockHash_from_display_hex (BlockHash_to_display_hex h) = Ok h.
Proof.
  intros [Hl Hb]. unfold BlockHash_from_display_hex, BlockHash_to_display_hex.
  rewrite hex_decode_encode by (by apply Forall_reverse). simpl.
  rewrite bool_decide_true by (by rewrite length_reverse).
  by rewrite reverse_involutive.
Qed.

Lemma filter_hash_ok `{Sha256Laws} bytes : hash_ok (filter_hash bytes).
Proof. split; [apply sha256_length|apply sha256_ok]. Qed.
