(* ===== verification/Instances.v ===== *)
(** * Concrete instances of the external functions

    Small executable functions that satisfy the laws the development assumes
    of the crates outside the repository.  They are used only to instantiate
    the theorems at concrete inputs; no theorem depends on them. *)

From Stdlib Require Import ZArith Lia.
From stdpp Require Import base numbers list strings.
From S2P Require Import Prelude FilterTypes.

Open Scope Z_scope.

(** ** Hexadecimal *)

Definition hex_digit (n : Z) : Z := if n <? 10 then 48 + n else 87 + n.

Definition unhex_digit (c : Z) : option Z :=
  if (48 <=? c) && (c <=? 57) then Some (c - 48)
  else if (97 <=? c) && (c <=? 102) then Some (c - 87)
  else if (65 <=? c) && (c <=? 70) then Some (c - 55)
  else None.

Fixpoint unhex (cs : list Z) : option (list Z) :=
  match cs with
  | [] => Some []
  | [_] => None
  | a :: b :: cs =>
      match unhex_digit a, unhex_digit b, unhex cs with
      | Some x, Some y, Some bs => Some (16 * x + y :: bs)
      | _, _, _ => None
      end
  end.

Definition hex_chars (bs : list Z) : list Z :=
  concat ((fun b => [hex_digit (b / 16); hex_digit (b mod 16)]) <$> bs).

Definition ascii_hex : Hex := {|
  hex_encode bs := bytes_string (hex_chars bs);
  hex_decode s := unhex (string_bytes s) |}.

Lemma hex_digit_ok n : 0 <= n < 16 -> byte_ok (hex_digit n) /\ unhex_digit (hex_digit n) = Some n.
Proof.
  intros Hn. unfold hex_digit, unhex_digit, byte_ok.
  destruct (n <? 10) eqn:E; bool_prop; guards; simpl; (split; [lia|f_equal; lia]).
Qed.

Lemma byte_nibbles b : byte_ok b -> 0 <= b / 16 < 16 /\ 0 <= b mod 16 < 16.
Proof.
  unfold byte_ok. intros Hb. pose proof (Z.mod_pos_bound b 16). pose proof (Z.div_mod b 16).
  lia.
Qed.

Lemma hex_chars_ok bs : bytes_ok bs -> bytes_ok (hex_chars bs).
Proof.
  induction 1 as [|b bs Hb _ IH]; [constructor|].
  destruct (byte_nibbles b Hb). unfold hex_chars. cbn [fmap list_fmap concat app].
  do 2 (apply Forall_cons; split; [by apply hex_digit_ok|]). exact IH.
Qed.

Lemma unhex_chars bs : bytes_ok bs -> unhex (hex_chars bs) = Some bs.
Proof.
  induction 1 as [|b bs Hb _ IH]; [done|].
  destruct (byte_nibbles b Hb) as [H1 H2].
  change (hex_chars (b :: bs)) with
    (hex_digit (b / 16) :: hex_digit (b mod 16) :: hex_chars bs).
  cbn [unhex]. rewrite (proj2 (hex_digit_ok _ H1)), (proj2 (hex_digit_ok _ H2)), IH.
  rewrite <- Z.div_mod by lia. done.
Qed.

Lemma unhex_ok bs cs : unhex cs = Some bs -> bytes_ok bs.
Proof.
  revert bs. induction cs as [cs IH] using (induction_ltof1 _ (@length Z)).
  intros bs H. destruct cs as [|a [|b cs]]; simpl in H; [injection H as <-; constructor|done|].
  destruct (unhex_digit a) as [x|] eqn:Ea; [|done].
  destruct (unhex_digit b) as [y|] eqn:Eb; [|done].
  destruct (unhex cs) as [bs'|] eqn:Ec; [|done]. simplify_eq.
  apply Forall_cons. split.
  - unfold unhex_digit in *. unfold byte_ok.
    repeat case_match; simplify_eq; bool_prop; lia.
  - apply (IH cs); [unfold ltof; simpl; lia|done].
Qed.

#[export] Instance ascii_hex_laws : HexLaws ascii_hex.
Proof.
  split.
  - intros bs H. simpl. rewrite bytes_of_string by (by apply hex_chars_ok).
    by apply unhex_chars.
  - intros s bs. simpl. apply unhex_ok.
Qed.

(** ** A 32-byte checksum in the place of SHA-256 *)

Definition checksum32 : Sha256 := fun bs => le_bytes 32 (le_val bs + zlen bs).

#[export] Instance checksum32_laws : Sha256Laws checksum32.
Proof. split; intros; [apply length_le_bytes|apply bytes_ok_le_bytes]. Qed.

(** ** A keyed 64-bit multiplicative hash in the place of SipHash-2-4 *)

Definition mulhash64 : SipHash24 :=
  fun k0 k1 bs => wrap64 ((le_val bs + 1) * 11400714819323198485 + k0 + 3 * k1).

#[export] Instance mulhash64_laws : SipHash24Laws mulhash64.
Proof.
  split. intros. unfold siphash24, mulhash64, wrap64, u64.
  apply Z.mod_pos_bound. done.
Qed.
