(* ===== verification/BitStream.v ===== *)
(** * Bit streams and the BIP 158 coding, as specified

    The reference definitions the optimised reader of [validate.rs] is
    compared with: the big-endian bit stream of a byte string, zero-padded
    packing, Golomb-Rice codes with parameter [P], and the serialized filter of
    a list of mapped values as BIP 158 defines it ([CompactSize] of the count,
    then the Golomb-Rice codes of the successive differences, padded with zero
    bits to a byte).  No definition here comes from the repository; [Matching]
    uses [gcs_encode] to state what the external [GcsFilterWriter] produces. *)

From Stdlib Require Import ZArith Lia.
From stdpp Require Import base numbers list strings sorting.
From S2P Require Import Prelude FilterTypes.

Open Scope Z_scope.

(** ** Bits of bytes *)

Definition byte_bits (b : Z) : list bool :=
  (fun k => Z.testbit b (7 - k)) <$> [0; 1; 2; 3; 4; 5; 6; 7].

Definition stream (bs : list Z) : list bool := concat (byte_bits <$> bs).

Fixpoint bits_val (acc : Z) (l : list bool) : Z :=
  match l with
  | [] => acc
  | b :: l => bits_val (2 * acc + Z.b2z b) l
  end.

(** Eight bits per byte, the last byte padded with zeros. *)
Fixpoint pack (l : list bool) : list Z :=
  match l with
  | [] => []
  | b0 :: b1 :: b2 :: b3 :: b4 :: b5 :: b6 :: b7 :: l' =>
      bits_val 0 [b0; b1; b2; b3; b4; b5; b6; b7] :: pack l'
  | _ => [bits_val 0 (l ++ replicate (8 - length l) false)]
  end.

(** ** Golomb-Rice codes *)

Definition low_bits (n : nat) (v : Z) : list bool :=
  (fun i => Z.testbit v (Z.of_nat i)) <$> reverse (seq 0 n).

Definition golomb (d : Z) : list bool :=
  replicate (Z.to_nat (Z.shiftr d P)) true ++ [false] ++ low_bits (Z.to_nat P) d.

Fixpoint golomb_list (last : Z) (vs : list Z) : list bool :=
  match vs with
  | [] => []
  | v :: vs => golomb (v - last) ++ golomb_list v vs
  end.

(** CompactSize, as BIP 158 and the Bitcoin serialization define it. *)
Definition compact_size (v : Z) : list Z :=
  if v <? 0xfd then [v]
  else if v <=? 0xffff then 0xfd :: le_bytes 2 v
  else if v <=? 0xffffffff then 0xfe :: le_bytes 4 v
  else 0xff :: le_bytes 8 v.

(** The serialized filter of the sorted mapped values [vs]. *)
Definition gcs_encode (vs : list Z) : list Z :=
  compact_size (zlen vs) ++ pack (golomb_list 0 vs).

(** ** Lemmas *)

Lemma length_byte_bits b : length (byte_bits b) = 8%nat.
Proof. done. Qed.

Lemma length_stream bs : length (stream bs) = (8 * length bs)%nat.
Proof.
  unfold stream. induction bs as [|b bs IH]; [done|].
  cbn [fmap list_fmap concat]. rewrite length_app, IH, length_byte_bits.
  simpl. lia.
Qed.

Lemma stream_app a b : stream (a ++ b) = stream a ++ stream b.
Proof. unfold stream. by rewrite fmap_app, concat_app. Qed.

Lemma stream_cons b bs : stream (b :: bs) = byte_bits b ++ stream bs.
Proof. done. Qed.

Lemma stream_single b : stream [b] = byte_bits b.
Proof. done. Qed.

(** The bit the reader extracts at index [i] is the [i]-th bit of the stream. *)
Lemma stream_lookup bs i :
  stream bs !! i =
  (fun b => Z.testbit b (7 - Z.of_nat (i mod 8))) <$> bs !! (i / 8)%nat.
Proof.
  revert i. induction bs as [|b bs IH]; intros i; [done|].
  rewrite stream_cons. destruct (decide (i < 8)%nat) as [Hi|Hi].
  - rewrite lookup_app_l by (by rewrite length_byte_bits).
    rewrite Nat.div_small, Nat.mod_small by done. simpl.
    do 8 (destruct i as [|i]; [done|]). lia.
  - rewrite lookup_app_r by (rewrite length_byte_bits; lia).
    rewrite length_byte_bits, IH.
    assert (exists j, i = j + 1 * 8)%nat as [j ->] by (exists (i - 8)%nat; lia).
    rewrite Nat.div_add, Nat.Div0.mod_add, Nat.add_1_r by lia.
    by replace (j + 1 * 8 - 8)%nat with j by lia.
Qed.

Definition byte_bits_check : bool :=
  forallb (fun b => bits_val 0 (byte_bits (Z.of_nat b)) =? Z.of_nat b) (seq 0 256).

Lemma byte_bits_val b : byte_ok b -> bits_val 0 (byte_bits b) = b.
Proof.
  intros Hb. assert (byte_bits_check = true) as Hc by (vm_compute; reflexivity).
  unfold byte_bits_check in Hc. rewrite forallb_forall in Hc.
  specialize (Hc (Z.to_nat b)). unfold byte_ok in Hb.
  rewrite Z2Nat.id in Hc by lia. apply Z.eqb_eq, Hc, in_seq. lia.
Qed.

Lemma bits_val_byte (l : list bool) :
  length l = 8%nat -> byte_bits (bits_val 0 l) = l /\ byte_ok (bits_val 0 l).
Proof.
  intros Hl. do 9 (destruct l as [|? l]; [try done|]); try done.
  unfold byte_ok. repeat match goal with b : bool |- _ => destruct b end;
    vm_compute; split; (reflexivity || (split; (reflexivity || discriminate))).
Qed.

(** Packing, seen through its stream. *)
Lemma pack_step (l : list bool) :
  (8 <= length l)%nat -> pack l = bits_val 0 (take 8 l) :: pack (drop 8 l).
Proof. intros Hl. do 8 (destruct l as [|? l]; [simpl in Hl; lia|]). done. Qed.

Lemma pack_last (l : list bool) :
  (0 < length l < 8)%nat -> pack l = [bits_val 0 (l ++ replicate (8 - length l) false)].
Proof.
  intros Hl. do 8 (destruct l as [|? l]; [simpl in Hl; try lia; done|]).
  simpl in Hl. lia.
Qed.

Lemma bits_ind (Q : list bool -> Prop) :
  Q [] -> (forall l, (0 < length l < 8)%nat -> Q l) ->
  (forall l, (8 <= length l)%nat -> Q (drop 8 l) -> Q l) -> forall l, Q l.
Proof.
  intros H0 H1 H2 l. remember (length l) as n eqn:Hn. revert l Hn.
  induction n as [n IH] using lt_wf_ind. intros l ->.
  destruct (decide (length l = 0)%nat) as [Hz|Hz];
    [by apply length_zero_iff_nil in Hz as ->|].
  destruct (decide (length l < 8)%nat); [apply H1; lia|].
  apply H2; [lia|]. eapply IH; [|done]. rewrite length_drop. lia.
Qed.

Lemma pack_stream l :
  exists k, (k < 8)%nat /\ stream (pack l) = l ++ replicate k false.
Proof.
  induction l as [|l Hl|l Hl (k & Hk & IH)] using bits_ind.
  - exists 0%nat. split; [lia|done].
  - exists (8 - length l)%nat. split; [lia|].
    rewrite pack_last, stream_single by done.
    apply bits_val_byte. rewrite length_app, length_replicate. lia.
  - exists k. split; [done|]. rewrite pack_step, stream_cons, IH by done.
    rewrite (proj1 (bits_val_byte (take 8 l) ltac:(rewrite length_take; lia))).
    by rewrite app_assoc, take_drop.
Qed.

Lemma pack_ok l : bytes_ok (pack l).
Proof.
  induction l as [|l Hl|l Hl IH] using bits_ind.
  - constructor.
  - rewrite pack_last by done. constructor; [|constructor].
    apply bits_val_byte. rewrite length_app, length_replicate. lia.
  - rewrite pack_step by done. constructor; [|exact IH].
    apply bits_val_byte. rewrite length_take. lia.
Qed.

Lemma length_pack l :
  (8 * length (pack l) < length l + 8 /\ length l <= 8 * length (pack l))%nat.
Proof.
  destruct (pack_stream l) as (k & Hk & Hs). apply (f_equal length) in Hs.
  rewrite length_stream, length_app, length_replicate in Hs. lia.
Qed.

(** Packing is the only byte string whose stream is the bits and a short zero
    padding. *)
Lemma pack_unique bs l k :
  bytes_ok bs -> (k < 8)%nat -> stream bs = l ++ replicate k false -> bs = pack l.
Proof.
  intros Hok Hk. revert bs Hok.
  induction l as [|l Hl|l Hl IH] using bits_ind; intros bs Hok Hs.
  - apply (f_equal length) in Hs as Hlen.
    rewrite length_stream in Hlen. simpl in Hlen. rewrite length_replicate in Hlen.
    destruct bs; [done|simpl in Hlen; lia].
  - apply (f_equal length) in Hs as Hlen.
    rewrite length_stream, length_app, length_replicate in Hlen.
    destruct bs as [|b [|]]; [simpl in Hlen; lia| |simpl in Hlen; lia].
    rewrite pack_last by done. simpl in Hlen.
    replace (8 - length l)%nat with k by lia. rewrite <- Hs, stream_single.
    apply Forall_cons in Hok as [Hb _].
    by rewrite byte_bits_val.
  - destruct bs as [|b bs].
    { apply (f_equal length) in Hs. rewrite length_app in Hs. simpl in Hs. lia. }
    apply Forall_cons in Hok as [Hb Hok].
    rewrite pack_step by done. rewrite stream_cons in Hs.
    rewrite <- (take_drop 8 l) in Hs. rewrite <- app_assoc in Hs.
    apply app_inj_1 in Hs as [Ht Hs];
      [|rewrite length_byte_bits, length_take; lia].
    rewrite <- Ht, byte_bits_val by done. f_equal. by apply IH.
Qed.

(** ** Values of bit strings *)

Lemma bits_val_app acc l k : bits_val acc (l ++ k) = bits_val (bits_val acc l) k.
Proof. revert acc. induction l as [|b l IH]; intros acc; simpl; auto. Qed.

Lemma low_bits_S n v : low_bits (S n) v = Z.testbit v (Z.of_nat n) :: low_bits n v.
Proof.
  unfold low_bits. rewrite seq_S, reverse_app. by rewrite fmap_app.
Qed.

Lemma length_low_bits n v : length (low_bits n v) = n.
Proof. unfold low_bits. by rewrite length_fmap, length_reverse, length_seq. Qed.

Lemma bits_val_low_bits n acc v :
  bits_val acc (low_bits n v) = acc * 2 ^ Z.of_nat n + v mod 2 ^ Z.of_nat n.
Proof.
  revert acc. induction n as [|n IH]; intros acc.
  - simpl. rewrite Z.mod_1_r. lia.
  - rewrite low_bits_S. cbn [bits_val]. rewrite IH, Nat2Z.inj_succ.
    rewrite Z.pow_succ_r by lia.
    rewrite (Z.mul_comm 2 (2 ^ Z.of_nat n)), Z.rem_mul_r by lia.
    rewrite <- Z.bit0_mod.
    rewrite <- (Z.shiftr_div_pow2 v) by lia. rewrite Z.shiftr_spec by lia.
    rewrite Z.add_0_l. lia.
Qed.

Lemma bits_val_bound acc (l : list bool) :
  0 <= acc ->
  acc * 2 ^ zlen l <= bits_val acc l < (acc + 1) * 2 ^ zlen l.
Proof.
  revert acc. induction l as [|b l IH]; intros acc Hacc; cbn [bits_val].
  - change (2 ^ zlen []) with 1. lia.
  - rewrite zlen_cons, Z.pow_add_r by (unfold zlen; lia).
    specialize (IH (2 * acc + Z.b2z b)). destruct b; simpl in IH |- *; lia.
Qed.

Lemma low_bits_bits_val acc (l : list bool) :
  0 <= acc -> low_bits (length l) (bits_val acc l) = l.
Proof.
  revert acc. induction l as [|b l IH]; intros acc Hacc; [done|].
  cbn [length bits_val]. rewrite low_bits_S.
  rewrite IH by (destruct b; simpl; lia). f_equal.
  pose proof (bits_val_bound (2 * acc + Z.b2z b) l) as Hb.
  specialize (Hb ltac:(destruct b; simpl; lia)). unfold zlen in Hb.
  assert (bits_val (2 * acc + Z.b2z b) l / 2 ^ Z.of_nat (length l)
          = 2 * acc + Z.b2z b) as Hd.
  { symmetry. apply Z.div_unique with
      (bits_val (2 * acc + Z.b2z b) l - (2 * acc + Z.b2z b) * 2 ^ Z.of_nat (length l));
      [left; split; lia|lia]. }
  rewrite <- (Z.add_0_l (Z.of_nat (length l))), <- Z.shiftr_spec by lia.
  rewrite Z.shiftr_div_pow2, Hd, Z.add_comm by lia. apply Z.add_b2z_double_bit0.
Qed.
