(* ===== verification/Validate.v ===== *)
(** * Strict filter validation

    Models [pir/transparent-filter/src/validate.rs]: the limits, the bit
    reader, the CompactSize reader and [validate_filter], which decodes the
    whole Golomb-Rice stream before any result is usable.  The theorems show
    that [validate_filter] accepts exactly the serialized filters of BIP 158
    (as [BitStream.gcs_encode] states them) that are within the limits, that
    it recovers their values, and that a filter has one accepted encoding. *)

From Stdlib Require Import ZArith Lia.
From stdpp Require Import base numbers list strings sorting.
From S2P Require Import Prelude FilterTypes BitStream.

Open Scope Z_scope.

Record FilterLimits := { max_bytes : Z; max_elements : Z }.

Definition ZCASH_MAINNET : FilterLimits :=
  {| max_bytes := 2 * 1024 * 1024; max_elements := 1000000 |}.

Record ValidatedFilter := { vf_bytes : list Z; vf_values : list Z }.

Definition ValidatedFilter_range (f : ValidatedFilter) : Z :=
  wrap64 (zlen (vf_values f) * M).

(** ** BitReader *)

Record BitReader := { br_bytes : list Z; br_bit : nat }.

Definition BitReader_new (bytes : list Z) : BitReader :=
  {| br_bytes := bytes; br_bit := 0 |}.

Definition read_bit (r : BitReader) : result FilterError (Z * BitReader) :=
  let? byte := ok_or (br_bytes r !! (br_bit r / 8)%nat)
                 (FE_Truncated "bit stream ended mid-value") in
  let value := Z.land (Z.shiftr byte (7 - Z.of_nat (br_bit r mod 8))) 1 in
  Ok (value, {| br_bytes := br_bytes r; br_bit := S (br_bit r) |}).

Fixpoint read_bits (count : nat) (value : Z) (r : BitReader) :
    result FilterError (Z * BitReader) :=
  match count with
  | O => Ok (value, r)
  | S count =>
      let? (b, r1) := read_bit r in
      read_bits count (Z.lor (wrap64 (Z.shiftl value 1)) b) r1
  end.

Definition consumed_bytes (r : BitReader) : nat := ((br_bit r + 7) / 8)%nat.

Definition padding_is_zero (r : BitReader) : result FilterError unit :=
  let remainder := (br_bit r mod 8)%nat in
  if bool_decide (remainder = 0%nat) then Ok tt
  else
    let byte := br_bytes r !!! (br_bit r / 8)%nat in
    let mask := Z.shiftr 0xff (Z.of_nat remainder) in
    if negb (Z.land byte mask =? 0) then Err FE_NonZeroPadding else Ok tt.

(** ** CompactSize *)

Definition read_compact_size (bytes : list Z) : result FilterError (Z * nat) :=
  let? first := ok_or (head bytes) (FE_Truncated "filter is empty") in
  let need (width : Z) :=
    ok_or (get_range bytes 1 (1 + width)) (FE_Truncated "CompactSize is truncated") in
  if first =? 0xfd then
    let? s := need 2 in
    let value := le_val s in
    if value <? 0xfd
    then Err (FE_NotCanonical "CompactSize used a 3-byte encoding for a 1-byte value")
    else Ok (value, 3%nat)
  else if first =? 0xfe then
    let? s := need 4 in
    let value := le_val s in
    if value <=? 0xffff
    then Err (FE_NotCanonical "CompactSize used a 5-byte encoding for a shorter value")
    else Ok (value, 5%nat)
  else if first =? 0xff then
    let? s := need 8 in
    let value := le_val s in
    if value <=? 0xffffffff
    then Err (FE_NotCanonical "CompactSize used a 9-byte encoding for a shorter value")
    else Ok (value, 9%nat)
  else Ok (first, 1%nat).

(** ** validate_filter *)

(** The [while reader.read_bit()? == 1] loop.  Every iteration consumes a bit,
    so [S (bits left)] iterations always reach an exit ([read_unary_fuel]). *)
Fixpoint read_unary (fuel : nat) (max_quotient quotient : Z) (r : BitReader) :
    result FilterError (Z * BitReader) :=
  match fuel with
  | O => Err (FE_Truncated "bit stream ended mid-value")
  | S fuel =>
      let? (b, r1) := read_bit r in
      if b =? 1 then
        let quotient := quotient + 1 in
        if max_quotient <? quotient
        then Err (FE_LimitExceeded "unary run at element {index} exceeds the encodable range")
        else read_unary fuel max_quotient quotient r1
      else Ok (quotient, r1)
  end.

Definition unary_fuel (r : BitReader) : nat := S (8 * length (br_bytes r) - br_bit r).

(** One iteration of the element loop: the next cumulative value. *)
Definition read_value (range max_quotient last : Z) (r : BitReader) :
    result FilterError (Z * BitReader) :=
  let? (quotient, r) := read_unary (unary_fuel r) max_quotient 0 r in
  let? (remainder, r) := read_bits (Z.to_nat P) 0 r in
  let? delta := ok_or (checked_add64 (wrap64 (Z.shiftl quotient P)) remainder)
                  (FE_Encoding "delta overflows") in
  let? last := ok_or (checked_add64 last delta)
                 (FE_Encoding "cumulative value overflows") in
  if range <=? last
  then Err (FE_Encoding "element {index} maps to {last}, outside the encoded range {range}")
  else Ok (last, r).

Fixpoint read_values (count : nat) (range max_quotient last : Z) (r : BitReader) :
    result FilterError (list Z * BitReader) :=
  match count with
  | O => Ok ([], r)
  | S count =>
      let? (v, r) := read_value range max_quotient last r in
      let? (vs, r) := read_values count range max_quotient v r in
      Ok (v :: vs, r)
  end.

Definition validate_filter (bytes : list Z) (limits : FilterLimits) :
    result FilterError ValidatedFilter :=
  if max_bytes limits <? zlen bytes
  then Err (FE_LimitExceeded "filter is {} bytes, limit is {}") else
  let? (count, header_len) := read_compact_size bytes in
  if max_elements limits <? count
  then Err (FE_LimitExceeded "filter claims {count} elements, limit is {}") else
  let body := drop header_len bytes in
  let? minimum_bits := ok_or (checked_mul64 count (P + 1))
                         (FE_LimitExceeded "element count overflows") in
  if saturating_mul64 (zlen body) 8 <? minimum_bits
  then Err (FE_Truncated "filter claims {count} elements but has only {} body bytes") else
  if count =? 0 then
    if negb (bool_decide (body = [])) then Err (FE_TrailingBytes (zlen body))
    else Ok {| vf_bytes := bytes; vf_values := [] |}
  else
  let? range := ok_or (checked_mul64 count M)
                  (FE_LimitExceeded "mapped range overflows") in
  let max_quotient := Z.shiftr range P in
  let? (values, reader) :=
    read_values (Z.to_nat count) range max_quotient 0 (BitReader_new body) in
  let? _ := padding_is_zero reader in
  let consumed := consumed_bytes reader in
  if bool_decide (consumed < length body)%nat
  then Err (FE_TrailingBytes (zlen body - Z.of_nat consumed))
  else Ok {| vf_bytes := bytes; vf_values := values |}.

(** ** The reader as a list of bits *)

Definition bits (r : BitReader) : list bool := drop (br_bit r) (stream (br_bytes r)).

Definition adv (n : nat) (r : BitReader) : BitReader :=
  {| br_bytes := br_bytes r; br_bit := (br_bit r + n)%nat |}.

Lemma bits_adv n r : bits (adv n r) = drop n (bits r).
Proof. unfold bits, adv. simpl. by rewrite drop_drop. Qed.

Lemma adv_adv n m r : adv m (adv n r) = adv (n + m) r.
Proof. unfold adv. simpl. f_equal. lia. Qed.

Lemma adv_0 r : adv 0 r = r.
Proof. destruct r. unfold adv. simpl. f_equal. lia. Qed.

Lemma read_bit_nil r :
  bits r = [] -> read_bit r = Err (FE_Truncated "bit stream ended mid-value").
Proof.
  intros H. unfold read_bit, bits in *.
  assert (stream (br_bytes r) !! br_bit r = None) as Hn.
  { apply lookup_ge_None. apply (f_equal length) in H.
    rewrite length_drop in H. simpl in H. lia. }
  rewrite stream_lookup in Hn. by apply fmap_None in Hn as ->.
Qed.

Lemma read_bit_cons r b l :
  bits r = b :: l -> read_bit r = Ok (Z.b2z b, adv 1 r) /\ bits (adv 1 r) = l.
Proof.
  intros H. rewrite bits_adv, H. split; [|done].
  assert (stream (br_bytes r) !! br_bit r = Some b) as Hn.
  { unfold bits in H. rewrite <- (Nat.add_0_r (br_bit r)), <- lookup_drop.
    by rewrite H. }
  rewrite stream_lookup in Hn. apply fmap_Some in Hn as (byte & Hb & ->).
  unfold read_bit. rewrite Hb. simpl. unfold adv. rewrite Nat.add_1_r.
  do 2 f_equal. change 1 with (Z.ones 1). rewrite Z.land_ones by lia.
  rewrite <- Z.bit0_mod, Z.shiftr_spec by lia. by rewrite Z.add_0_l.
Qed.

Lemma lor_b2z_double v (b : bool) :
  0 <= v -> Z.lor (2 * v) (Z.b2z b) = 2 * v + Z.b2z b.
Proof.
  intros. destruct b; simpl (Z.b2z _); [|by rewrite Z.lor_0_r, Z.add_0_r].
  destruct v; [done|done|lia].
Qed.

Lemma read_bits_ok n value r l :
  0 <= value -> (value + 1) * 2 ^ Z.of_nat n <= u64_bound ->
  (n <= length (bits r))%nat -> take n (bits r) = l ->
  read_bits n value r = Ok (bits_val value l, adv n r).
Proof.
  revert value r l. induction n as [|n IH]; intros value r l Hv Hu Hn Hl.
  - simpl in Hl. subst. by rewrite adv_0.
  - destruct (bits r) as [|b l'] eqn:Hb; [simpl in Hn; lia|].
    apply read_bit_cons in Hb as [Hr Hb]. simpl in Hl. subst l.
    cbn [read_bits]. rewrite Hr. cbn [bits_val].
    rewrite Nat2Z.inj_succ, Z.pow_succ_r in Hu by lia.
    assert (2 * (value + 1) <= u64_bound) by nia.
    unfold wrap64. rewrite Z.shiftl_mul_pow2 by lia. change (2 ^ 1) with 2.
    rewrite Z.mod_small, (Z.mul_comm value 2), lor_b2z_double by lia.
    rewrite (IH _ _ (take n l')); [by rewrite adv_adv|..].
    + destruct b; simpl; lia.
    + destruct b; simpl; nia.
    + rewrite Hb. simpl in Hn. lia.
    + by rewrite Hb.
Qed.

Lemma read_bits_short n value r :
  (length (bits r) < n)%nat ->
  read_bits n value r = Err (FE_Truncated "bit stream ended mid-value").
Proof.
  revert value r. induction n as [|n IH]; intros value r Hn; [lia|].
  cbn [read_bits]. destruct (bits r) as [|b l] eqn:Hb.
  - by rewrite read_bit_nil.
  - apply read_bit_cons in Hb as [-> Hb]. apply IH. rewrite Hb.
    simpl in Hn. lia.
Qed.

(** ** The unary run *)

Lemma length_bits r : length (bits r) = (8 * length (br_bytes r) - br_bit r)%nat.
Proof. unfold bits. by rewrite length_drop, length_stream. Qed.

(** More fuel than there are bits left changes nothing: the loop always exits
    by itself. *)
Lemma read_unary_fuel fuel mq q r :
  (length (bits r) < fuel)%nat ->
  read_unary (S fuel) mq q r = read_unary fuel mq q r.
Proof.
  revert q r. induction fuel as [|fuel IH]; intros q r Hf; [lia|].
  change (read_unary (S (S fuel)) mq q r) with
    (let? (b, r1) := read_bit r in
     if b =? 1 then
       if mq <? q + 1
       then Err (FE_LimitExceeded "unary run at element {index} exceeds the encodable range")
       else read_unary (S fuel) mq (q + 1) r1
     else Ok (q, r1)).
  cbn [read_unary]. destruct (bits r) as [|b l] eqn:Hb.
  - by rewrite read_bit_nil.
  - apply read_bit_cons in Hb as [-> Hb]. destruct (_ =? 1); [|done].
    destruct (mq <? q + 1); [done|]. apply IH. rewrite Hb. simpl in Hf. lia.
Qed.

Lemma read_unary_ok k fuel mq q r l :
  bits r = replicate k true ++ false :: l -> (k < fuel)%nat ->
  q + Z.of_nat k <= mq ->
  read_unary fuel mq q r = Ok (q + Z.of_nat k, adv (S k) r).
Proof.
  revert fuel q r. induction k as [|k IH]; intros fuel q r Hb Hf Hq;
    (destruct fuel as [|fuel]; [lia|]); cbn [read_unary].
  - apply read_bit_cons in Hb as [-> Hb]. simpl. do 2 f_equal. lia.
  - apply read_bit_cons in Hb as [-> Hb]. simpl (Z.b2z true =? 1). cbv iota.
    guards. rewrite (IH fuel (q + 1) (adv 1 r)) by (done || lia).
    rewrite adv_adv. do 2 f_equal. lia.
Qed.

Lemma read_unary_inv fuel mq q r q' r' :
  q <= mq -> read_unary fuel mq q r = Ok (q', r') ->
  exists k l, bits r = replicate k true ++ false :: l /\
    q' = q + Z.of_nat k /\ q' <= mq /\ r' = adv (S k) r.
Proof.
  revert q r. induction fuel as [|fuel IH]; intros q r Hq H; [done|].
  cbn [read_unary] in H. destruct (bits r) as [|b l] eqn:Hb.
  - by rewrite read_bit_nil in H.
  - apply read_bit_cons in Hb as Hb'. destruct Hb' as [Hr Hb'].
    rewrite Hr in H. destruct b; simpl in H.
    + destruct (mq <? q + 1) eqn:Hm; [done|]. bool_prop.
      apply IH in H as (k & l' & Hl & -> & Hle & ->); [|lia].
      exists (S k), l'. rewrite adv_adv. split_and!; [|lia..|done].
      simpl. by rewrite <- Hb', Hl.
    + simplify_eq. exists 0%nat, (bits (adv 1 r)). split_and!; [done|lia|lia|done].
Qed.

(** ** One Golomb-Rice value *)

Lemma bits_val_acc acc (l : list bool) :
  bits_val acc l = acc * 2 ^ zlen l + bits_val 0 l.
Proof.
  revert acc. induction l as [|b l IH]; intros acc; cbn [bits_val].
  - change (2 ^ zlen []) with 1. lia.
  - rewrite (IH (2 * acc + _)), (IH (2 * 0 + _)), zlen_cons.
    rewrite Z.pow_add_r by (unfold zlen; lia). lia.
Qed.

(** The code of [q * 2^P + r] is [q] ones, a zero and the bits of [r]. *)
Lemma golomb_parts q (l : list bool) :
  length l = Z.to_nat P ->
  golomb (Z.of_nat q * 2 ^ P + bits_val 0 l) = replicate q true ++ false :: l.
Proof.
  intros Hl. assert (zlen l = P) as Hz by (unfold zlen; rewrite Hl; done).
  pose proof (bits_val_acc (Z.of_nat q) l) as Ha. rewrite Hz in Ha. rewrite <- Ha.
  unfold golomb. f_equal.
  - f_equal. rewrite Z.shiftr_div_pow2 by (unfold P; lia).
    pose proof (bits_val_bound (Z.of_nat q) l ltac:(lia)) as Hb. rewrite Hz in Hb.
    assert (bits_val (Z.of_nat q) l / 2 ^ P = Z.of_nat q) as ->; [|lia].
    symmetry. apply Z.div_unique with (bits_val (Z.of_nat q) l - Z.of_nat q * 2 ^ P);
      [left; lia|lia].
  - simpl. f_equal. rewrite <- Hl. apply low_bits_bits_val. lia.
Qed.

Lemma golomb_split d :
  0 <= d -> exists q l, length l = Z.to_nat P /\
    d = Z.of_nat q * 2 ^ P + bits_val 0 l /\ golomb d = replicate q true ++ false :: l /\
    Z.of_nat q = Z.shiftr d P.
Proof.
  intros Hd. pose proof (Z.shiftr_nonneg d P) as Hs.
  exists (Z.to_nat (Z.shiftr d P)), (low_bits (Z.to_nat P) d).
  split; [apply length_low_bits|]. split.
  - rewrite bits_val_low_bits, Z2Nat.id by lia. change (Z.of_nat (Z.to_nat P)) with P.
    rewrite Z.shiftr_div_pow2 by (unfold P; lia).
    pose proof (Z.div_mod d (2 ^ P)). unfold P in *. lia.
  - split; [done|lia].
Qed.

Lemma P_pos : 0 < P. Proof. done. Qed.

Lemma read_value_ok range last v r l :
  0 <= last <= v -> v < range -> range < u64_bound ->
  bits r = golomb (v - last) ++ l ->
  read_value range (Z.shiftr range P) last r =
    Ok (v, adv (length (golomb (v - last))) r).
Proof.
  intros Hl Hv Hr Hb.
  destruct (golomb_split (v - last)) as (q & k & Hk & Hd & Hg & Hq); [lia|].
  rewrite Hg in Hb |- *. rewrite <- app_assoc in Hb. simpl in Hb.
  assert (Z.of_nat q <= Z.shiftr range P) as Hmq.
  { rewrite Hq, !Z.shiftr_div_pow2 by (unfold P; lia).
    apply Z.div_le_mono; unfold P; lia. }
  assert (0 <= bits_val 0 k < 2 ^ P) as Hbk.
  { pose proof (bits_val_bound 0 k ltac:(lia)) as Hbb. unfold zlen in Hbb.
    rewrite Hk in Hbb. change (Z.of_nat (Z.to_nat P)) with P in Hbb. lia. }
  unfold read_value.
  rewrite (read_unary_ok q _ _ 0 r (k ++ l)); [|exact Hb| |lia].
  2:{ unfold unary_fuel. rewrite <- length_bits, Hb, !length_app, length_replicate.
      simpl. lia. }
  rewrite Z.add_0_l.
  assert (bits (adv (S q) r) = k ++ l) as Hb2.
  { rewrite bits_adv, Hb, drop_app_ge by (rewrite length_replicate; lia).
    rewrite length_replicate. by replace (S q - q)%nat with 1%nat by lia. }
  rewrite (read_bits_ok _ 0 _ k); [|lia|done| |].
  2:{ rewrite Hb2, length_app. lia. }
  2:{ rewrite Hb2, <- Hk. apply take_app_length. }
  rewrite Z.shiftl_mul_pow2 by (unfold P; lia).
  unfold wrap64. rewrite Z.mod_small by lia. unfold checked_add64. guards. simpl.
  guards. simpl. guards. rewrite adv_adv, length_app, length_replicate.
  simpl. rewrite Hk. do 2 f_equal; [lia|f_equal; lia].
Qed.

Lemma read_value_inv range last v r r' :
  0 <= last -> 0 <= range < u64_bound ->
  read_value range (Z.shiftr range P) last r = Ok (v, r') ->
  exists l, last <= v < range /\ bits r = golomb (v - last) ++ l /\
    r' = adv (length (golomb (v - last))) r.
Proof.
  intros Hl Hr H. unfold read_value in H.
  destruct (read_unary _ _ _ _) as [[q r1]|] eqn:Eu; [|done].
  apply read_unary_inv in Eu as (k & l & Hb & -> & Hq & ->);
    [|apply Z.shiftr_nonneg; lia].
  rewrite Z.add_0_l in *.
  assert (bits (adv (S k) r) = l) as Hb2.
  { rewrite bits_adv, Hb, drop_app_ge by (rewrite length_replicate; lia).
    rewrite length_replicate. by replace (S k - k)%nat with 1%nat by lia. }
  destruct (decide (length l < Z.to_nat P)%nat) as [Hs|Hs].
  { rewrite read_bits_short in H by (by rewrite Hb2). done. }
  rewrite (read_bits_ok _ 0 _ (take (Z.to_nat P) l)) in H;
    [|lia|done|rewrite Hb2; lia|by rewrite Hb2].
  assert (length (take (Z.to_nat P) l) = Z.to_nat P) as Ht
    by (rewrite length_take; lia).
  assert (0 <= bits_val 0 (take (Z.to_nat P) l) < 2 ^ P) as Hbk.
  { pose proof (bits_val_bound 0 (take (Z.to_nat P) l) ltac:(lia)) as Hbb.
    unfold zlen in Hbb. rewrite Ht in Hbb.
    change (Z.of_nat (Z.to_nat P)) with P in Hbb. lia. }
  rewrite Z.shiftr_div_pow2 in Hq by (unfold P; lia).
  pose proof (Z.mul_div_le range (2 ^ P) ltac:(unfold P; lia)).
  rewrite Z.shiftl_mul_pow2 in H by (unfold P; lia).
  unfold wrap64 in H. rewrite Z.mod_small in H by (unfold P in *; nia).
  unfold checked_add64, ok_or in H.
  pose proof (golomb_parts k _ Ht) as Hg.
  set (d := Z.of_nat k * 2 ^ P + bits_val 0 (take (Z.to_nat P) l)) in *.
  clear Hb2. inv_res H. bool_prop.
  exists (drop (Z.to_nat P) l). bool_prop.
  replace (last + d - last) with d by lia. rewrite Hg.
  split_and!; [unfold d; lia|lia| |].
  - rewrite <- app_assoc. simpl. by rewrite take_drop.
  - rewrite adv_adv, length_app, length_replicate. simpl. rewrite Ht.
    f_equal. lia.
Qed.

(** ** The element loop *)

Fixpoint ascending (last range : Z) (vs : list Z) : Prop :=
  match vs with
  | [] => True
  | v :: vs => last <= v < range /\ ascending v range vs
  end.

Lemma ascending_sorted last range vs :
  ascending last range vs <->
  Sorted Z.le vs /\ Forall (fun v => last <= v < range) vs.
Proof.
  revert last. induction vs as [|v vs IH]; intros last; simpl.
  { split; [intros _; split; constructor|done]. }
  rewrite IH. split.
  - intros (Hv & Hs & Hf). split.
    + constructor; [done|]. destruct Hf; constructor. lia.
    + constructor; [lia|]. eapply Forall_impl; [exact Hf|]. simpl. lia.
  - intros [Hs Hf]. apply Forall_cons in Hf as [Hv Hf].
    apply Sorted_StronglySorted in Hs; [|intros ???; lia].
    apply StronglySorted_inv in Hs as [Hs Hle].
    split; [lia|]. split; [by apply StronglySorted_Sorted|].
    rewrite Forall_forall in *. intros x Hx. specialize (Hf x Hx).
    specialize (Hle x Hx). lia.
Qed.

Lemma read_values_ok range vs last r l :
  0 <= last -> ascending last range vs -> range < u64_bound ->
  bits r = golomb_list last vs ++ l ->
  read_values (length vs) range (Z.shiftr range P) last r =
    Ok (vs, adv (length (golomb_list last vs)) r).
Proof.
  revert last r. induction vs as [|v vs IH]; intros last r Hl Ha Hr Hb.
  - simpl. by rewrite adv_0.
  - destruct Ha as [Hv Ha]. cbn [length read_values golomb_list] in *.
    rewrite <- app_assoc in Hb. rewrite (read_value_ok range last v r (golomb_list v vs ++ l)) by (exact Hb || lia).
    rewrite (IH v) by (done || lia || by rewrite bits_adv, Hb, drop_app_length).
    by rewrite adv_adv, length_app.
Qed.

Lemma read_values_inv range n last r vs r' :
  0 <= last -> 0 <= range < u64_bound ->
  read_values n range (Z.shiftr range P) last r = Ok (vs, r') ->
  exists l, length vs = n /\ ascending last range vs /\
    bits r = golomb_list last vs ++ l /\ r' = adv (length (golomb_list last vs)) r.
Proof.
  revert last r vs r'.
  induction n as [|n IH]; intros last r vs r' Hl Hr H; cbn [read_values] in H.
  - simplify_eq. exists (bits r'). by rewrite adv_0.
  - destruct (read_value _ _ _ _) as [[v r1]|] eqn:Ev; [|done].
    apply read_value_inv in Ev as (l & Hv & Hb & ->); [|done..].
    destruct (read_values _ _ _ _ _) as [[vs' r2]|] eqn:Es; [|done].
    injection H as <- <-.
    apply IH in Es as (l' & <- & Ha & Hb' & ->); [|lia|done].
    rewrite bits_adv, Hb, drop_app_length in Hb'. exists l'.
    cbn [golomb_list ascending length].
    rewrite adv_adv, length_app, <- app_assoc, <- Hb'.
    split; [reflexivity|]. split; [split; [exact Hv|exact Ha]|]. split; [exact Hb|reflexivity].
Qed.

(** ** Padding *)

Definition padding_check : bool :=
  forallb (fun b => forallb (fun k =>
    Bool.eqb (Z.land (Z.of_nat b) (Z.shiftr 0xff (Z.of_nat k)) =? 0)
             (bool_decide (drop k (byte_bits (Z.of_nat b)) = replicate (8 - k) false)))
    (seq 0 8)) (seq 0 256).

Lemma padding_bits b k :
  byte_ok b -> (k < 8)%nat ->
  (Z.land b (Z.shiftr 0xff (Z.of_nat k)) =? 0) =
  bool_decide (drop k (byte_bits b) = replicate (8 - k) false).
Proof.
  intros Hb Hk. assert (padding_check = true) as Hc by (vm_compute; reflexivity).
  unfold padding_check in Hc. rewrite forallb_forall in Hc.
  specialize (Hc (Z.to_nat b) ltac:(apply in_seq; unfold byte_ok in Hb; lia)).
  rewrite forallb_forall in Hc. specialize (Hc k ltac:(apply in_seq; lia)).
  rewrite Z2Nat.id in Hc by (unfold byte_ok in Hb; lia). by apply eqb_prop.
Qed.

(** The bits left in the byte the reader stopped inside. *)
Lemma bits_last_byte bs n :
  (n mod 8 <> 0)%nat -> length bs = S (n / 8)%nat ->
  bits {| br_bytes := bs; br_bit := n |} =
  drop (n mod 8)%nat (byte_bits (bs !!! (n / 8)%nat)).
Proof.
  intros Hn Hl. unfold bits. simpl.
  destruct (lookup_lt_is_Some_2 bs (n / 8)%nat) as [b Hb]; [lia|].
  rewrite (list_lookup_total_correct _ _ _ Hb).
  rewrite <- (take_drop_middle bs (n / 8) b Hb) at 1.
  assert (drop (S (n / 8)) bs = []) as -> by (apply drop_ge; lia).
  rewrite stream_app, stream_single.
  pose proof (Nat.div_mod_eq n 8) as Hd.
  rewrite drop_app_ge.
  2:{ rewrite length_stream, length_take. lia. }
  rewrite length_stream, length_take.
  by replace (n - _)%nat with (n mod 8)%nat by lia.
Qed.

Lemma padding_ok r k :
  bytes_ok (br_bytes r) -> (k < 8)%nat -> bits r = replicate k false ->
  (br_bit r + k = 8 * length (br_bytes r))%nat ->
  padding_is_zero r = Ok tt /\ consumed_bytes r = length (br_bytes r).
Proof.
  destruct r as [bs n]. cbn [br_bytes br_bit]. intros Hok Hk Hb Hn.
  pose proof (Nat.div_mod_eq n 8) as Hd. pose proof (Nat.mod_upper_bound n 8 ltac:(lia)).
  assert (consumed_bytes {| br_bytes := bs; br_bit := n |} = length bs) as Hc.
  { unfold consumed_bytes. cbn [br_bit]. symmetry.
    apply Nat.div_unique with (7 - k)%nat; lia. }
  split; [|done]. unfold padding_is_zero. cbn [br_bit br_bytes].
  case_bool_decide as Hz; [done|].
  assert (length bs = S (n / 8)%nat) as Hl by lia.
  rewrite bits_last_byte in Hb by done.
  rewrite padding_bits.
  - rewrite Hb, bool_decide_true; [done|f_equal; lia].
  - destruct (lookup_lt_is_Some_2 bs (n / 8)%nat) as [b Hlk]; [lia|].
    rewrite (list_lookup_total_correct _ _ _ Hlk).
    eapply Forall_lookup_1; eauto.
  - lia.
Qed.

Lemma padding_inv r :
  bytes_ok (br_bytes r) -> (br_bit r <= 8 * length (br_bytes r))%nat ->
  padding_is_zero r = Ok tt -> ~ (consumed_bytes r < length (br_bytes r))%nat ->
  exists k, (k < 8)%nat /\ bits r = replicate k false.
Proof.
  destruct r as [bs n]. cbn [br_bytes br_bit]. intros Hok Hn Hp Hc.
  unfold consumed_bytes in Hc. cbn [br_bit] in Hc.
  pose proof (Nat.div_mod_eq n 8) as Hd. pose proof (Nat.mod_upper_bound n 8 ltac:(lia)).
  pose proof (Nat.div_mod_eq (n + 7) 8). pose proof (Nat.mod_upper_bound (n + 7) 8 ltac:(lia)).
  unfold padding_is_zero in Hp. cbn [br_bit br_bytes] in Hp.
  case_bool_decide as Hz.
  - exists 0%nat. split; [lia|]. apply nil_length_inv. rewrite length_bits. cbn [br_bit br_bytes]. lia.
  - assert (length bs = S (n / 8)%nat) as Hl by lia.
    exists (8 - n mod 8)%nat. split; [lia|].
    rewrite bits_last_byte by done.
    rewrite padding_bits in Hp.
    + case_bool_decide; done.
    + destruct (lookup_lt_is_Some_2 bs (n / 8)%nat) as [b Hlk]; [lia|].
      rewrite (list_lookup_total_correct _ _ _ Hlk). eapply Forall_lookup_1; eauto.
    + lia.
Qed.

(** ** CompactSize *)

Lemma compact_size_len v : (1 <= length (compact_size v) <= 9)%nat.
Proof.
  unfold compact_size. repeat case_match; cbn [length]; rewrite ?length_le_bytes; lia.
Qed.

Lemma compact_size_ok v : 0 <= v -> bytes_ok (compact_size v).
Proof.
  intros. unfold compact_size, bytes_ok, byte_ok.
  repeat case_match; bool_prop; (apply Forall_cons; split; [lia|]);
    (apply Forall_nil || apply bytes_ok_le_bytes); done.
Qed.

Lemma get_range_tail {A} (x : A) xs rest k :
  zlen xs = k -> get_range (x :: xs ++ rest) 1 (1 + k) = Some xs.
Proof. intros <-. apply (get_range_app [x]). Qed.

Lemma read_compact_size_ok v rest :
  u64 v -> read_compact_size (compact_size v ++ rest) = Ok (v, length (compact_size v)).
Proof.
  unfold u64, u64_bound. intros Hv. unfold compact_size.
  destruct (v <? 0xfd) eqn:E1; bool_prop.
  { unfold read_compact_size. simpl. by guards. }
  destruct (v <=? 0xffff) eqn:E2; bool_prop;
    [|destruct (v <=? 0xffffffff) eqn:E3; bool_prop];
    cbn [app length]; unfold read_compact_size; simpl (head _); unfold ok_or at 1;
    cbv beta iota; simpl (_ =? _); cbv iota;
    rewrite get_range_tail by apply zlen_le_bytes; unfold ok_or;
    rewrite le_val_le_bytes by lia; guards; by rewrite length_le_bytes.
Qed.

Lemma read_compact_size_inv bs v n :
  bytes_ok bs -> read_compact_size bs = Ok (v, n) ->
  u64 v /\ n = length (compact_size v) /\ bs = compact_size v ++ drop n bs.
Proof.
  intros Hok H. unfold read_compact_size in H.
  destruct bs as [|b bs]; [done|]. simpl in H. apply Forall_cons in Hok as [Hb Hok].
  assert (Hneed : forall k s, 0 <= k -> get_range (b :: bs) 1 (1 + k) = Some s ->
            bs = s ++ drop (Z.to_nat k) bs /\ zlen s = k /\ bytes_ok s).
  { intros k s Hk Hg. apply get_range_Some in Hg as (Hr & Hl & He); [|lia].
    rewrite Z2Nat.inj_add in He by lia. simpl in He. apply (inj (cons b)) in He.
    rewrite ?drop_0 in He. split_and!; [done|lia|].
    rewrite He in Hok. by apply bytes_ok_app in Hok as [? _]. }
  unfold u64, u64_bound, compact_size.
  destruct (b =? 0xfd) eqn:E1; [|destruct (b =? 0xfe) eqn:E2;
    [|destruct (b =? 0xff) eqn:E3]]; bool_prop; unfold ok_or in H;
    try (destruct (get_range (b :: bs) _ _) as [s|] eqn:Hg; [|done];
      apply Hneed in Hg as (He & Hl & Hs); [|lia];
      pose proof (le_val_range s Hs) as Hr; rewrite Hl in Hr;
      inv_res H; bool_prop; guards; cbn [length]; rewrite length_le_bytes;
      split; [lia|]; split; [done|]; cbn [app drop]; f_equal;
      rewrite le_bytes_le_val_len by (done || unfold zlen in Hl; lia); exact He).
  simplify_eq. unfold byte_ok in Hb. guards. simpl. rewrite drop_0. split_and!; [lia|lia|done|done].
Qed.

(** ** The whole filter *)

Lemma length_golomb d : 0 <= d -> (Z.to_nat P + 1 <= length (golomb d))%nat.
Proof.
  intros. unfold golomb. rewrite !length_app, length_low_bits. cbn [length]. lia.
Qed.

Lemma length_golomb_list last range vs :
  0 <= last -> ascending last range vs ->
  zlen vs * (P + 1) <= zlen (golomb_list last vs).
Proof.
  revert last. induction vs as [|v vs IH]; intros last Hl Ha; cbn [golomb_list].
  - unfold zlen. simpl. lia.
  - destruct Ha as [Hv Ha]. rewrite zlen_cons, zlen_app.
    pose proof (length_golomb (v - last) ltac:(lia)) as Hg.
    specialize (IH v ltac:(lia) Ha). unfold zlen in *. unfold P in *. lia.
Qed.

(** The filters within the limits, in terms of the reference coding. *)
Definition filter_ok (limits : FilterLimits) (bs vs : list Z) : Prop :=
  bs = gcs_encode vs /\ ascending 0 (zlen vs * M) vs /\
  zlen bs <= max_bytes limits /\ zlen vs <= max_elements limits /\
  zlen vs * M < u64_bound.

Lemma validate_filter_complete bs limits vs :
  filter_ok limits bs vs ->
  validate_filter bs limits = Ok {| vf_bytes := bs; vf_values := vs |}.
Proof.
  intros (-> & Ha & Hb & He & Hr). unfold validate_filter.
  assert (M = 784931) as HM by done. pose proof (zlen_nonneg vs) as Hn.
  rewrite (proj2 (Z.ltb_ge _ _) Hb).
  unfold gcs_encode at 1. rewrite read_compact_size_ok by (unfold u64; lia).
  cbv beta iota. rewrite (proj2 (Z.ltb_ge _ _) He). cbv zeta.
  assert (drop (length (compact_size (zlen vs))) (gcs_encode vs)
          = pack (golomb_list 0 vs)) as ->
    by (unfold gcs_encode; apply drop_app_length).
  set (g := golomb_list 0 vs) in *.
  pose proof (length_golomb_list 0 _ vs ltac:(lia) Ha) as Hlen. fold g in Hlen.
  pose proof (length_pack g) as [_ Hp].
  unfold checked_mul64. assert (P = 19) as HP by done.
  rewrite (proj2 (Z.ltb_lt (zlen vs * (P + 1)) _)) by lia. unfold ok_or at 1. cbv beta iota.
  rewrite (proj2 (Z.ltb_ge (saturating_mul64 _ _) _))
    by (unfold saturating_mul64, zlen in *; lia).
  destruct (zlen vs =? 0) eqn:E0; bool_prop.
  { assert (vs = []) as -> by (apply length_zero_iff_nil; unfold zlen in E0; lia).
    done. }
  rewrite (proj2 (Z.ltb_lt _ _) Hr). unfold ok_or. cbv beta iota.
  destruct (pack_stream g) as (k & Hk & Hs).
  replace (Z.to_nat (zlen vs)) with (length vs) by (unfold zlen; lia).
  rewrite (read_values_ok _ vs 0 _ (replicate k false)) by (done || lia). fold g.
  destruct (padding_ok (adv (length g) (BitReader_new (pack g))) k) as [-> ->];
    [apply pack_ok|done| | |].
  - rewrite bits_adv. unfold bits, BitReader_new. cbn [br_bit br_bytes].
    by rewrite drop_0, Hs, drop_app_length.
  - cbn [adv BitReader_new br_bit br_bytes]. apply (f_equal length) in Hs.
    rewrite length_stream, length_app, length_replicate in Hs. lia.
  - cbn [adv BitReader_new br_bytes]. case_bool_decide; [lia|done].
Qed.

Lemma validate_filter_sound bs limits vf :
  bytes_ok bs -> validate_filter bs limits = Ok vf ->
  vf_bytes vf = bs /\ filter_ok limits bs (vf_values vf).
Proof.
  intros Hok H. unfold validate_filter in H.
  destruct (max_bytes limits <? zlen bs) eqn:Emb; [done|].
  destruct (read_compact_size bs) as [[count hl]|] eqn:Ec; [|done].
  apply read_compact_size_inv in Ec as (Hc & -> & Hbs); [|done].
  destruct (max_elements limits <? count) eqn:Eme; [done|]. cbv zeta in H.
  unfold checked_mul64 in H.
  destruct (count * (P + 1) <? u64_bound) eqn:Eo; [|done]. unfold ok_or at 1 in H.
  destruct (_ <? count * (P + 1)) eqn:Emin; [done|]. clear Emin.
  set (body := drop (length (compact_size count)) bs) in *.
  assert (bytes_ok body) as Hbody by (unfold body; auto with rust).
  clearbody body. unfold u64 in Hc.
  destruct (count =? 0) eqn:E0; bool_prop.
  { case_bool_decide as Eb; [|done]. simpl in H. injection H as <-. cbn [vf_bytes vf_values].
    split; [done|]. subst body count. unfold filter_ok.
    rewrite app_nil_r in Hbs. split_and!; done. }
  destruct (count * M <? u64_bound) eqn:Er; [|done]. unfold ok_or in H. bool_prop.
  assert (M = 784931) as HM by done.
  destruct (read_values _ _ _ _ _) as [[vs r]|] eqn:Ev; [|done].
  apply read_values_inv in Ev as (l & Hlen & Ha & Hb & ->); [|lia|lia].
  assert (zlen vs = count) as Hz by (unfold zlen; lia). clear Hlen.
  destruct (padding_is_zero _) as [[]|] eqn:Ep; [|done].
  case_bool_decide as Ecb; [done|]. injection H as <-. cbn [vf_bytes vf_values].
  split; [done|]. unfold bits in Hb. cbn [BitReader_new br_bit br_bytes] in Hb.
  rewrite drop_0 in Hb.
  apply padding_inv in Ep as (k & Hk & Hp); [|done| |done].
  2:{ cbn [adv BitReader_new br_bit br_bytes]. rewrite <- length_stream, Hb, length_app. lia. }
  rewrite bits_adv in Hp. unfold bits in Hp. cbn [BitReader_new br_bit br_bytes] in Hp.
  rewrite drop_0, Hb, drop_app_length in Hp. subst l.
  apply pack_unique in Hb; [|done..].
  unfold filter_ok. subst count. split_and!; [|done|done|done|done].
  unfold gcs_encode. by rewrite <- Hb.
Qed.

(** ** Properties *)

(** C2: [validate_filter] accepts exactly the canonical BIP 158 serializations
    within the limits.  A byte string is accepted iff it is the reference
    encoding of the returned values, these ascend inside [[0, n * M)], the
    length and the count are within the limits and the range fits in 64 bits;
    the returned filter carries the input bytes.  Everything else (a truncated
    or overlong body, non-zero padding, a non-minimal CompactSize, a value
    outside the range) is an error. *)
Theorem validate_filter_exact bs limits vf :
  bytes_ok bs ->
  validate_filter bs limits = Ok vf <->
  vf_bytes vf = bs /\ filter_ok limits bs (vf_values vf).
Proof.
  intros Hok. split; [by apply validate_filter_sound|].
  intros [Hb Hf]. rewrite (validate_filter_complete _ _ _ Hf).
  by destruct vf; simpl in *; subst.
Qed.

Lemma validate_filter_exact_witness :
  validate_filter (gcs_encode [5; 700000; 1500000]) ZCASH_MAINNET =
    Ok {| vf_bytes := gcs_encode [5; 700000; 1500000];
          vf_values := [5; 700000; 1500000] |} /\
  filter_ok ZCASH_MAINNET (gcs_encode [5; 700000; 1500000]) [5; 700000; 1500000].
Proof.
  split; [vm_compute; reflexivity|].
  apply (validate_filter_exact (gcs_encode [5; 700000; 1500000]) ZCASH_MAINNET
    {| vf_bytes := gcs_encode [5; 700000; 1500000];
       vf_values := [5; 700000; 1500000] |}).
  - unfold bytes_ok, byte_ok. vm_compute. repeat constructor; discriminate.
  - vm_compute; reflexivity.
Defined.

(** The decoded values are weakly, not strictly, ascending: a filter whose
    second difference is zero is canonical and accepted, and [range] is
    computed from the count with the duplicate included. *)
Theorem validate_filter_accepts_duplicates :
  exists vf, validate_filter (gcs_encode [7; 7]) ZCASH_MAINNET = Ok vf /\
    vf_values vf = [7; 7] /\ ~ StronglySorted Z.lt (vf_values vf) /\
    ValidatedFilter_range vf = 2 * M.
Proof.
  eexists. split; [vm_compute; reflexivity|]. split; [done|]. split; [|done].
  intros H. apply StronglySorted_inv in H as [_ H]. inversion H. lia.
Qed.
