(* ===== verification/Matching.v ===== *)
(** * Building filters and matching wallet scripts

    Models [pir/transparent-filter/src/matching.rs] and
    [pir/transparent-filter/src/build_filter.rs].  [GcsFilterWriter] belongs to
    the [bitcoin] crate: it is the operation of the class [GcsWriter], and
    [GcsWriterLaws] states its documented output, the BIP 158 serialization of
    the sorted mapped hashes of distinct elements.  The theorems show that the
    merge of [match_mapped] is exact set membership and that a script of the
    block is never missed by a wallet that holds it. *)

From Stdlib Require Import ZArith Lia.
From stdpp Require Import base numbers list strings sorting.
From S2P Require Import Prelude FilterTypes Instances BitStream Validate.

Open Scope Z_scope.

(** ** Orders the standard library sorts by *)

(** [Ord] of [(u64, usize)]. *)
Definition pair_le (a b : Z * nat) : Prop :=
  fst a < fst b \/ (fst a = fst b /\ (snd a <= snd b)%nat).

#[export] Instance pair_le_dec : RelDecision pair_le.
Proof. intros a b. unfold pair_le. apply _. Defined.
#[export] Instance pair_le_total : Total pair_le.
Proof. intros a b. unfold pair_le. lia. Qed.
#[export] Instance pair_le_trans : Transitive pair_le.
Proof. intros a b c. unfold pair_le. lia. Qed.
#[export] Instance Z_le_total : Total Z.le.
Proof. intros a b. lia. Qed.
#[export] Instance nat_le_total : Total Nat.le.
Proof. intros a b. lia. Qed.

(** [Ord] of [&[u8]]. *)
Fixpoint bytes_leb (a b : list Z) : bool :=
  match a, b with
  | [], _ => true
  | _ :: _, [] => false
  | x :: a, y :: b => (x <? y) || ((x =? y) && bytes_leb a b)
  end.

Definition bytes_le (a b : list Z) : Prop := bytes_leb a b = true.
#[export] Instance bytes_le_dec : RelDecision bytes_le.
Proof. intros a b. unfold bytes_le. apply _. Defined.

(** The elements of a [BTreeSet<&[u8]>] collected from [l], in iteration order. *)
Definition btree_set (l : list (list Z)) : list (list Z) :=
  merge_sort bytes_le (remove_dups l).

(** ** matching.rs *)

Definition map_to_range (hash nm : Z) : Z := wrap64 (Z.shiftr (hash * nm) 64).

Definition map_wallet_scripts `{SipHash24} (filter : ValidatedFilter)
    (block_hash : BlockHash) (wallet_scripts : list ScriptBytes) : list (Z * nat) :=
  let '(k0, k1) := BlockHash_filter_keys block_hash in
  let range := ValidatedFilter_range filter in
  let mapped :=
    (fun '(index, script) => (map_to_range (siphash24 k0 k1 script) range, index)) <$>
    base.filter (fun '(_, script) => ScriptBytes_is_empty script = false)
      (imap pair wallet_scripts) in
  merge_sort pair_le mapped.

(** The [while cursor < values.len() && values[cursor] < *value] loop; every
    iteration advances the cursor, so [length values] iterations are enough. *)
Fixpoint advance (fuel : nat) (values : list Z) (value : Z) (cursor : nat) : nat :=
  match fuel with
  | O => cursor
  | S fuel =>
      match values !! cursor with
      | Some v => if v <? value then advance fuel values value (S cursor) else cursor
      | None => cursor
      end
  end.

Fixpoint match_loop (values : list Z) (mapped : list (Z * nat)) (cursor : nat)
    (matches : list nat) : list nat :=
  match mapped with
  | [] => matches
  | (value, index) :: mapped =>
      let cursor := advance (length values) values value cursor in
      let matches :=
        if bool_decide (values !! cursor = Some value)
        then matches ++ [index] else matches in
      match_loop values mapped cursor matches
  end.

Definition match_mapped (filter : ValidatedFilter) (mapped : list (Z * nat)) :
    result FilterError (list nat) :=
  Ok (merge_sort Nat.le (match_loop (vf_values filter) mapped 0 [])).

Definition match_scripts `{SipHash24} (filter : ValidatedFilter)
    (block_hash : BlockHash) (wallet_scripts : list ScriptBytes) :
    result FilterError (list nat) :=
  match_mapped filter (map_wallet_scripts filter block_hash wallet_scripts).

(** ** build_filter.rs *)

(** [GcsFilterWriter::new(out, k0, k1, m, p)], one [add_element] per element,
    then [finish]. *)
Class GcsWriter := gcs_write : Z -> Z -> Z -> Z -> list (list Z) -> result string (list Z).

Definition gcs_values `{SipHash24} (k0 k1 : Z) (elements : list (list Z)) : list Z :=
  merge_sort Z.le
    ((fun e => Z.shiftr (siphash24 k0 k1 e * (zlen elements * M)) 64) <$> elements).

Class GcsWriterLaws `{SipHash24} (W : GcsWriter) : Prop := {
  gcs_write_spec k0 k1 elements :
    NoDup elements -> zlen elements * M < u64_bound ->
    gcs_write k0 k1 M P elements = Ok (gcs_encode (gcs_values k0 k1 elements)) }.

Definition filter_elements (elements : list ScriptBytes) : list (list Z) :=
  btree_set (base.filter (fun s => ScriptBytes_is_filter_element s = true) elements).

Definition build_filter `{GcsWriter} (block_hash : BlockHash)
    (elements : list ScriptBytes) : result FilterError (list Z) :=
  let '(k0, k1) := BlockHash_filter_keys block_hash in
  let deduplicated := filter_elements elements in
  map_err FE_Encoding (gcs_write k0 k1 M P deduplicated).

Definition element_count (elements : list ScriptBytes) : Z :=
  zlen (filter_elements elements).

(** ** The cursor *)

Lemma advance_spec fuel values value c :
  (forall j v, (j < c)%nat -> values !! j = Some v -> v < value) ->
  (length values <= c + fuel)%nat ->
  let c' := advance fuel values value c in
  (c <= c')%nat /\
  (forall j v, (j < c')%nat -> values !! j = Some v -> v < value) /\
  (forall v, values !! c' = Some v -> value <= v).
Proof.
  revert c. induction fuel as [|fuel IH]; intros c Hlt Hf; simpl.
  - split_and!; [done|done|]. intros v Hv. apply lookup_lt_Some in Hv. lia.
  - destruct (values !! c) as [v|] eqn:Hv.
    + destruct (v <? value) eqn:E; bool_prop.
      * destruct (IH (S c)) as (Hc & H1 & H2); [|lia|].
        { intros j w Hj Hw. destruct (decide (j = c)) as [->|]; [congruence|].
          eapply Hlt; [|done]. lia. }
        split_and!; [lia|done|done].
      * split_and!; [done|done|]. intros w Hw. simplify_eq. lia.
    + split_and!; [done|done|]. congruence.
Qed.

Lemma sorted_lookup (values : list Z) i j a b :
  Sorted Z.le values -> (i <= j)%nat ->
  values !! i = Some a -> values !! j = Some b -> a <= b.
Proof.
  intros Hs Hij Hi Hj. destruct (decide (i = j)) as [->|]; [simplify_eq; lia|].
  apply Sorted_StronglySorted in Hs; [|intros ???; lia].
  rewrite <- (take_drop j values) in Hs, Hi.
  rewrite lookup_app_l in Hi by (apply lookup_lt_Some in Hj; rewrite length_take; lia).
  eapply StronglySorted_app_1_elem_of; [exact Hs|by eapply list_elem_of_lookup_2|].
  apply (list_elem_of_lookup_2 _ 0%nat). by rewrite lookup_drop, Nat.add_0_r.
Qed.

(** At the position the loop stops, equality is membership. *)
Lemma advance_member values value c :
  Sorted Z.le values ->
  (forall j v, (j < c)%nat -> values !! j = Some v -> v < value) ->
  values !! advance (length values) values value c = Some value <-> value ∈ values.
Proof.
  intros Hs Hlt.
  destruct (advance_spec (length values) values value c) as (_ & H1 & H2);
    [done|lia|]. split; [apply list_elem_of_lookup_2|].
  intros [k Hk]%list_elem_of_lookup.
  set (c' := advance _ _ _ _) in *.
  assert (c' <= k)%nat as Hle.
  { destruct (decide (k < c')%nat) as [Hkc|]; [|lia]. specialize (H1 k value Hkc Hk). lia. }
  destruct (lookup_lt_is_Some_2 values c') as [v Hv].
  { apply lookup_lt_Some in Hk. lia. }
  specialize (H2 v Hv). pose proof (sorted_lookup values c' k v value Hs Hle Hv Hk).
  rewrite Hv. f_equal. lia.
Qed.

Lemma match_loop_spec values mapped c acc :
  Sorted Z.le values -> StronglySorted pair_le mapped ->
  (forall j v p, (j < c)%nat -> values !! j = Some v -> p ∈ mapped -> v < fst p) ->
  match_loop values mapped c acc =
  acc ++ (snd <$> base.filter (fun p => fst p ∈ values) mapped).
Proof.
  intros Hs. revert c acc. induction mapped as [|[value index] mapped IH]; intros c acc Hm Hlt.
  - simpl. by rewrite app_nil_r.
  - apply StronglySorted_inv in Hm as [Hm Hle]. cbn [match_loop].
    assert (forall j v, (j < c)%nat -> values !! j = Some v -> v < value) as Hlt'.
    { intros j v Hj Hv. apply (Hlt j v (value, index)); [done|done|apply list_elem_of_here]. }
    pose proof (advance_member values value c Hs Hlt') as Hmem.
    destruct (advance_spec (length values) values value c Hlt') as (_ & H1 & _); [lia|].
    rewrite IH; [|done|].
    + rewrite filter_cons. cbn [fst]. destruct (decide (value ∈ values)) as [Hin|Hin].
      * rewrite bool_decide_true by (by apply Hmem). cbn [fmap list_fmap snd].
        by rewrite <- app_assoc.
      * rewrite bool_decide_false by (by rewrite Hmem). done.
    + intros j v p Hj Hv Hp. specialize (H1 j v Hj Hv).
      rewrite Forall_forall in Hle. specialize (Hle p Hp). unfold pair_le in Hle.
      cbn [fst] in Hle. lia.
Qed.

(** Which indices [match_scripts] returns. *)
Definition mapped_value `{SipHash24} (f : ValidatedFilter) (h : BlockHash)
    (s : ScriptBytes) : Z :=
  map_to_range (siphash24 (fst (BlockHash_filter_keys h)) (snd (BlockHash_filter_keys h)) s)
    (ValidatedFilter_range f).

Lemma elem_of_mapped `{SipHash24} f h ws v i :
  (v, i) ∈ map_wallet_scripts f h ws <->
  exists s, ws !! i = Some s /\ s <> [] /\ v = mapped_value f h s.
Proof.
  unfold map_wallet_scripts, mapped_value.
  destruct (BlockHash_filter_keys h) as [k0 k1]. cbn [fst snd].
  rewrite merge_sort_Permutation, list_elem_of_fmap. split.
  - intros ([j s] & Heq & Hin). simplify_eq.
    apply list_elem_of_filter in Hin as [He Hin].
    apply elem_of_lookup_imap in Hin as (k & s' & Heq & Hk). simplify_eq.
    exists s'. split_and!; [done| |done]. by destruct s'.
  - intros (s & Hs & Hne & ->). exists (i, s). split; [done|].
    apply list_elem_of_filter. split; [by destruct s|].
    apply elem_of_lookup_imap. eauto.
Qed.

Lemma NoDup_mapped `{SipHash24} f h ws : NoDup (snd <$> map_wallet_scripts f h ws).
Proof.
  unfold map_wallet_scripts. destruct (BlockHash_filter_keys h) as [k0 k1].
  rewrite merge_sort_Permutation, <- list_fmap_compose.
  apply NoDup_fmap_2_strong.
  - intros [i s] [j t] Hi Hj Heq. simpl in Heq. subst.
    apply list_elem_of_filter in Hi as [_ Hi]. apply list_elem_of_filter in Hj as [_ Hj].
    apply elem_of_lookup_imap in Hi as (? & ? & ? & ?).
    apply elem_of_lookup_imap in Hj as (? & ? & ? & ?). by simplify_eq.
  - apply NoDup_filter. apply (NoDup_fmap_1 fst).
    rewrite fmap_imap. apply NoDup_alt. intros i j x Hi Hj.
    rewrite list_lookup_imap in Hi, Hj.
    destruct (ws !! i); [|done]. destruct (ws !! j); [|done].
    cbn in Hi, Hj. congruence.
Qed.

Lemma NoDup_fmap_filter {A B} (f : A -> B) (Q : A -> Prop) `{!forall x, Decision (Q x)} l :
  NoDup (f <$> l) -> NoDup (f <$> base.filter Q l).
Proof.
  induction l as [|x l IH]; intros Hn; [done|]. apply NoDup_cons in Hn as [Hx Hn].
  rewrite filter_cons. destruct (decide (Q x)); [|by apply IH].
  apply NoDup_cons. split; [|by apply IH]. intros Hin. apply Hx.
  apply list_elem_of_fmap in Hin as (y & Hy & Hin).
  apply list_elem_of_filter in Hin as [_ Hin]. rewrite Hy. by apply list_elem_of_fmap_2.
Qed.

Lemma match_scripts_eq `{SipHash24} f h ws :
  Sorted Z.le (vf_values f) ->
  exists idx, match_scripts f h ws = Ok idx /\
    Sorted Nat.le idx /\
    idx ≡ₚ (snd <$> base.filter (fun p => fst p ∈ vf_values f) (map_wallet_scripts f h ws)).
Proof.
  intros Hs. eexists. split; [done|]. split; [apply Sorted_merge_sort, _|].
  rewrite merge_sort_Permutation, match_loop_spec; [done|done| |].
  - unfold map_wallet_scripts. destruct (BlockHash_filter_keys h).
    apply StronglySorted_merge_sort; apply _.
  - intros j v p Hj. lia.
Qed.

Lemma match_scripts_spec `{SipHash24} f h ws :
  Sorted Z.le (vf_values f) ->
  exists idx, match_scripts f h ws = Ok idx /\ NoDup idx /\ Sorted Nat.le idx /\
    forall i, i ∈ idx <->
      exists s, ws !! i = Some s /\ s <> [] /\ mapped_value f h s ∈ vf_values f.
Proof.
  intros Hs. destruct (match_scripts_eq f h ws Hs) as (idx & Hm & Hsort & Hp).
  exists idx. split_and!; [done| |done|].
  - rewrite Hp. apply NoDup_fmap_filter, NoDup_mapped.
  - intros i. rewrite Hp, list_elem_of_fmap. split.
    + intros ([v j] & -> & Hin). apply list_elem_of_filter in Hin as [Hv Hin].
      apply elem_of_mapped in Hin as (s & ? & ? & ->). eauto.
    + intros (s & Hi & Hne & Hv). exists (mapped_value f h s, i). split; [done|].
      apply list_elem_of_filter. split; [done|]. apply elem_of_mapped. eauto.
Qed.

(** ** What the writer's values are *)

Lemma map_to_range_lt hash nm :
  u64 hash -> 0 < nm < u64_bound ->
  0 <= map_to_range hash nm < nm /\
  map_to_range hash nm = Z.shiftr (hash * nm) 64.
Proof.
  unfold u64. intros Hh Hn. unfold map_to_range, wrap64.
  rewrite Z.shiftr_div_pow2 by lia. change (2 ^ 64) with u64_bound.
  assert (0 <= hash * nm / u64_bound < nm) as Hd.
  { split; [apply Z.div_pos; nia|apply Z.div_lt_upper_bound; nia]. }
  rewrite Z.mod_small; lia.
Qed.

Lemma filter_elements_spec elements :
  NoDup (filter_elements elements) /\
  forall s, s ∈ filter_elements elements <->
    s ∈ elements /\ ScriptBytes_is_filter_element s = true.
Proof.
  unfold filter_elements, btree_set. split.
  - rewrite merge_sort_Permutation. apply NoDup_remove_dups.
  - intros s. rewrite merge_sort_Permutation, elem_of_remove_dups, list_elem_of_filter.
    tauto.
Qed.

Lemma zlen_gcs_values `{SipHash24} k0 k1 es : zlen (gcs_values k0 k1 es) = zlen es.
Proof.
  unfold gcs_values, zlen.
  by rewrite (Permutation_length (merge_sort_Permutation _ _)), length_fmap.
Qed.

Lemma ascending_gcs_values `{SipHash24Laws} k0 k1 es :
  zlen es * M < u64_bound -> ascending 0 (zlen es * M) (gcs_values k0 k1 es).
Proof.
  intros Hr. apply ascending_sorted. unfold gcs_values. split.
  - apply Sorted_merge_sort, _.
  - rewrite merge_sort_Permutation. apply Forall_fmap. rewrite Forall_forall.
    intros e He. unfold compose.
    assert (0 < zlen es) by (destruct es; [by apply not_elem_of_nil in He|unfold zlen; simpl; lia]).
    assert (M = 784931) by done.
    destruct (map_to_range_lt (siphash24 k0 k1 e) (zlen es * M)) as [Hl He'];
      [apply siphash24_u64|lia|lia].
Qed.

(** A filter built from [elements] and accepted by [validate_filter]. *)
Lemma build_validate `{SipHash24Laws} `{!GcsWriter, !GcsWriterLaws gcs_write} h elements limits :
  zlen (gcs_encode (gcs_values (fst (BlockHash_filter_keys h))
    (snd (BlockHash_filter_keys h)) (filter_elements elements))) <= max_bytes limits ->
  element_count elements <= max_elements limits ->
  element_count elements * M < u64_bound ->
  exists bytes vf, build_filter h elements = Ok bytes /\
    validate_filter bytes limits = Ok vf /\
    vf_values vf = gcs_values (fst (BlockHash_filter_keys h))
                     (snd (BlockHash_filter_keys h)) (filter_elements elements).
Proof.
  unfold element_count, build_filter.
  destruct (BlockHash_filter_keys h) as [k0 k1]. cbn [fst snd]. intros Hb He Hr.
  rewrite gcs_write_spec by (done || apply filter_elements_spec). simpl.
  eexists _, {| vf_bytes := _; vf_values := gcs_values k0 k1 (filter_elements elements) |}.
  split; [done|]. split; [|done]. apply validate_filter_complete.
  unfold filter_ok. rewrite zlen_gcs_values.
  split_and!; [done|by apply ascending_gcs_values|done|done|done].
Qed.

(** The values of a built filter are sorted and contain those of its elements. *)
Lemma built_values `{SipHash24Laws} vf h elements :
  element_count elements * M < u64_bound ->
  vf_values vf = gcs_values (fst (BlockHash_filter_keys h)) (snd (BlockHash_filter_keys h))
    (filter_elements elements) ->
  Sorted Z.le (vf_values vf) /\
  forall s, s ∈ elements -> ScriptBytes_is_filter_element s = true -> mapped_value vf h s ∈ vf_values vf.
Proof.
  intros Hr Hvs. split.
  - pose proof (ascending_gcs_values (fst (BlockHash_filter_keys h))
      (snd (BlockHash_filter_keys h)) (filter_elements elements) Hr) as Ha.
    rewrite <- Hvs in Ha. by apply ascending_sorted in Ha as [Hs _].
  - intros s Hin Hel. assert (s ∈ filter_elements elements) as Hf by (by apply filter_elements_spec).
    assert (0 < zlen (filter_elements elements)).
    { destruct (filter_elements elements); [by apply not_elem_of_nil in Hf|unfold zlen; simpl; lia]. }
    unfold mapped_value, ValidatedFilter_range. rewrite Hvs, zlen_gcs_values.
    unfold element_count in Hr. assert (M = 784931) by done.
    unfold wrap64. rewrite Z.mod_small by lia.
    rewrite (proj2 (map_to_range_lt _ (zlen (filter_elements elements) * M)
      (siphash24_u64 _ _ _) ltac:(lia))).
    unfold gcs_values. rewrite merge_sort_Permutation.
    apply (list_elem_of_fmap_2 (fun e => Z.shiftr (siphash24 _ _ e * _) 64)). done.
Qed.

(** ** Properties *)

(** Against a validated filter, [match_scripts] always returns, and its
    result is exactly the ascending list, without repetition, of the indices of
    the non-empty wallet scripts whose mapped hash is one of the filter's
    values: the single-pass merge loses no index, whatever the order,
    duplicates or collisions of the wallet's scripts. *)
Theorem match_scripts_exact `{SipHash24} bs limits f h ws :
  bytes_ok bs -> validate_filter bs limits = Ok f ->
  exists idx, match_scripts f h ws = Ok idx /\ NoDup idx /\ Sorted Nat.le idx /\
    forall i, i ∈ idx <->
      exists s, ws !! i = Some s /\ s <> [] /\ mapped_value f h s ∈ vf_values f.
Proof.
  intros Hok Hv. apply match_scripts_spec.
  apply validate_filter_sound in Hv as (_ & _ & Ha & _); [|done].
  by apply ascending_sorted in Ha as [? _].
Qed.

Lemma match_scripts_exact_witness :
  exists f idx, validate_filter (gcs_encode [5; 700000]) ZCASH_MAINNET = Ok f /\
    @match_scripts mulhash64 f (replicate 32 1) [[1; 2]; []; [3]] = Ok idx /\ NoDup idx.
Proof.
  eexists.
  destruct (@match_scripts_exact mulhash64 (gcs_encode [5; 700000]) ZCASH_MAINNET
    {| vf_bytes := gcs_encode [5; 700000]; vf_values := [5; 700000] |}
    (replicate 32 1) [[1; 2]; []; [3]]) as (idx & Hm & Hn & _).
  - unfold bytes_ok, byte_ok. vm_compute. repeat constructor; discriminate.
  - vm_compute; reflexivity.
  - exists idx. split; [vm_compute; reflexivity|]. split; [exact Hm|exact Hn].
Defined.

(** C3: no false negative, end to end.  A filter built from a block's scripts
    and within the wallet's limits validates, and matching reports the index of
    every wallet script that is an element of the block (non-empty and not
    OP_RETURN), for any block hash and any wallet list. *)
Theorem no_false_negative `{SipHash24Laws} `{!GcsWriter, !GcsWriterLaws gcs_write}
    h elements limits ws i s :
  zlen (gcs_encode (gcs_values (fst (BlockHash_filter_keys h))
    (snd (BlockHash_filter_keys h)) (filter_elements elements))) <= max_bytes limits ->
  element_count elements <= max_elements limits ->
  element_count elements * M < u64_bound ->
  ws !! i = Some s -> s ∈ elements -> ScriptBytes_is_filter_element s = true ->
  exists bytes vf idx, build_filter h elements = Ok bytes /\
    validate_filter bytes limits = Ok vf /\
    match_scripts vf h ws = Ok idx /\ i ∈ idx.
Proof.
  intros Hb He Hr Hi Hin Hel.
  destruct (build_validate h elements limits Hb He Hr) as (bytes & vf & Hbuild & Hval & Hvs).
  destruct (built_values vf h elements Hr Hvs) as [Hs Hmap].
  destruct (match_scripts_spec vf h ws Hs) as (idx & Hm & _ & _ & Hidx).
  exists bytes, vf, idx. split_and!; [done..|]. apply Hidx. exists s.
  split_and!; [done|by destruct s|by apply Hmap].
Qed.

(** A writer with the documented output. *)
Definition gcs_reference `{SipHash24} : GcsWriter :=
  fun k0 k1 _ _ elements => Ok (gcs_encode (gcs_values k0 k1 elements)).

#[export] Instance gcs_reference_laws `{SipHash24} : GcsWriterLaws gcs_reference.
Proof. by split. Qed.

Lemma no_false_negative_witness :
  exists bytes vf idx,
    @build_filter (@gcs_reference mulhash64) (replicate 32 9) [[81]; [106; 1]; [82; 83]; [81]]
      = Ok bytes /\
    validate_filter bytes ZCASH_MAINNET = Ok vf /\
    @match_scripts mulhash64 vf (replicate 32 9) [[]; [82; 83]; [7]] = Ok idx /\ 1%nat ∈ idx.
Proof.
  apply (@no_false_negative mulhash64 mulhash64_laws (@gcs_reference mulhash64)
    (@gcs_reference_laws mulhash64) (replicate 32 9) [[81]; [106; 1]; [82; 83]; [81]]
    ZCASH_MAINNET [[]; [82; 83]; [7]] 1%nat [82; 83]).
  - vm_compute; discriminate.
  - vm_compute; discriminate.
  - vm_compute; reflexivity.
  - reflexivity.
  - do 2 apply list_elem_of_further. apply list_elem_of_here.
  - reflexivity.
Defined.
