(* ===== verification/Envelope.v ===== *)
(** * The range-delivery envelope

    Models [pir/transparent-filter/src/envelope.rs]: the CompactSize writer and
    reader, [FilterRecord], [FilterBatch], [encode] and [decode].  The theorems
    show that [decode] accepts exactly the encodings of well-formed batches
    (so filter bytes are never reframed and each batch has one encoding), and
    that no proper prefix and no extension of an accepted envelope is
    accepted. *)

From Stdlib Require Import ZArith Lia.
From stdpp Require Import base numbers list strings.
From S2P Require Import Prelude Cursor FilterTypes BitStream Validate.

Open Scope Z_scope.

(** ** UTF-8, as [std::str::from_utf8] validates it *)

Definition in_range (lo hi b : Z) : bool := (lo <=? b) && (b <=? hi).
Definition cont (b : Z) : bool := in_range 0x80 0xbf b.

Fixpoint utf8_valid (bs : list Z) : bool :=
  match bs with
  | [] => true
  | b0 :: bs1 =>
      if in_range 0 0x7f b0 then utf8_valid bs1 else
      match bs1 with
      | [] => false
      | b1 :: bs2 =>
          if in_range 0xc2 0xdf b0 then cont b1 && utf8_valid bs2 else
          match bs2 with
          | [] => false
          | b2 :: bs3 =>
              if b0 =? 0xe0 then in_range 0xa0 0xbf b1 && cont b2 && utf8_valid bs3
              else if in_range 0xe1 0xec b0 then cont b1 && cont b2 && utf8_valid bs3
              else if b0 =? 0xed then in_range 0x80 0x9f b1 && cont b2 && utf8_valid bs3
              else if in_range 0xee 0xef b0 then cont b1 && cont b2 && utf8_valid bs3
              else
              match bs3 with
              | [] => false
              | b3 :: bs4 =>
                  if b0 =? 0xf0
                  then in_range 0x90 0xbf b1 && cont b2 && cont b3 && utf8_valid bs4
                  else if in_range 0xf1 0xf3 b0
                  then cont b1 && cont b2 && cont b3 && utf8_valid bs4
                  else if b0 =? 0xf4
                  then in_range 0x80 0x8f b1 && cont b2 && cont b3 && utf8_valid bs4
                  else false
              end
          end
      end
  end.

(** ** Data *)

Definition ENVELOPE_VERSION : Z := 1.
Definition MAGIC : list Z := string_bytes "ZTFB".
Definition MAX_RECORDS_PER_BATCH : Z := 1000.
Definition MAX_BATCH_BYTES : Z := 64 * 1024 * 1024.

Record FilterRecord := { rec_height : Z; rec_block_hash : BlockHash; rec_filter : list Z }.

Record FilterBatch := {
  fb_version : Z;
  fb_genesis : BlockHash;
  fb_profile : string;
  fb_start_height : Z;
  fb_stop_block_hash : BlockHash;
  fb_records : list FilterRecord }.

(** ** CompactSize *)

Definition write_compact_size (out : list Z) (value : Z) : list Z :=
  if value <=? 0xfc then out ++ [value]
  else if value <=? 0xffff then out ++ [0xfd] ++ le_bytes 2 (wrap16 value)
  else if value <=? 0xffffffff then out ++ [0xfe] ++ le_bytes 4 (wrap32 value)
  else out ++ [0xff] ++ le_bytes 8 value.

(** ** Reader *)

Definition Reader_take : Z -> parser FilterError (list Z) :=
  cursor_take (FE_Envelope "length overflow") (FE_Envelope "envelope is truncated").
Definition Reader_u16 : parser FilterError Z :=
  cursor_le (FE_Envelope "length overflow") (FE_Envelope "envelope is truncated") 2.
Definition Reader_u64 : parser FilterError Z :=
  cursor_le (FE_Envelope "length overflow") (FE_Envelope "envelope is truncated") 8.
Definition Reader_hash : parser FilterError BlockHash := Reader_take 32.

Definition Reader_compact_size : parser FilterError Z :=
  let! byte := Reader_take 1 in
  let first := byte !!! 0%nat in
  let wide (n : nat) (minimum : Z) :=
    let! s := Reader_take (Z.of_nat n) in pret (le_val s, minimum) in
  let! (value, minimum) :=
    (if first =? 0xfd then wide 2%nat 0xfd
     else if first =? 0xfe then wide 4%nat 0x10000
     else if first =? 0xff then wide 8%nat 0x100000000
     else pret (first, 0)) in
  if value <? minimum
  then pfail (FE_Envelope "CompactSize is not canonically encoded")
  else pret value.

Definition Reader_remaining : parser FilterError Z := cursor_remaining.

(** ** FilterBatch *)

Definition encode_record (out : list Z) (record : FilterRecord) : list Z :=
  let out := out ++ le_bytes 8 (rec_height record) in
  let out := out ++ rec_block_hash record in
  let out := write_compact_size out (zlen (rec_filter record)) in
  out ++ rec_filter record.

Definition FilterBatch_encode (self : FilterBatch) : list Z :=
  let out := MAGIC in
  let out := out ++ le_bytes 2 (fb_version self) in
  let out := out ++ fb_genesis self in
  let out := write_compact_size out (zlen (string_bytes (fb_profile self))) in
  let out := out ++ string_bytes (fb_profile self) in
  let out := out ++ le_bytes 8 (fb_start_height self) in
  let out := out ++ fb_stop_block_hash self in
  let out := write_compact_size out (zlen (fb_records self)) in
  foldl encode_record out (fb_records self).

Definition decode_record : parser FilterError FilterRecord :=
  let! height := Reader_u64 in
  let! block_hash := Reader_hash in
  let! length := Reader_compact_size in
  let! remaining := Reader_remaining in
  if remaining <? length then pfail (FE_Envelope "record length exceeds batch") else
  let! filter := Reader_take length in
  pret {| rec_height := height; rec_block_hash := block_hash; rec_filter := filter |}.

Definition decode_batch : parser FilterError FilterBatch :=
  let! magic := Reader_take 4 in
  if negb (bool_decide (magic = MAGIC)) then pfail (FE_Envelope "bad magic") else
  let! version := Reader_u16 in
  if negb (version =? ENVELOPE_VERSION)
  then pfail (FE_Envelope "unsupported envelope version {version}") else
  let! genesis := Reader_hash in
  let! profile_len := Reader_compact_size in
  if 64 <? profile_len then pfail (FE_Envelope "profile name is too long") else
  let! name := Reader_take profile_len in
  if negb (utf8_valid name) then pfail (FE_Envelope "profile name is not UTF-8") else
  let! start_height := Reader_u64 in
  let! stop_block_hash := Reader_hash in
  let! count := Reader_compact_size in
  if MAX_RECORDS_PER_BATCH <? count
  then pfail (FE_Envelope "batch claims {count} records, limit is {MAX_RECORDS_PER_BATCH}") else
  let! remaining := Reader_remaining in
  if remaining <? saturating_mul64 count 41
  then pfail (FE_Envelope "batch claims {count} records but has {} bytes left") else
  let! records := prepeat (Z.to_nat count) decode_record in
  let! remaining := Reader_remaining in
  if negb (remaining =? 0)
  then pfail (FE_Envelope "{} trailing bytes after the batch") else
  pret {| fb_version := version; fb_genesis := genesis; fb_profile := bytes_string name;
          fb_start_height := start_height; fb_stop_block_hash := stop_block_hash;
          fb_records := records |}.

Definition FilterBatch_decode (bytes : list Z) : result FilterError FilterBatch :=
  if MAX_BATCH_BYTES <? zlen bytes
  then Err (FE_Envelope "batch is {} bytes, limit is {MAX_BATCH_BYTES}") else
  let? (batch, _) := decode_batch (Cursor bytes 0) in
  Ok batch.

(** ** Well-formed batches *)

Definition record_wf (r : FilterRecord) : Prop :=
  u64 (rec_height r) /\ hash_ok (rec_block_hash r) /\
  bytes_ok (rec_filter r) /\ u64 (zlen (rec_filter r)).

Record batch_wf (b : FilterBatch) : Prop := {
  wf_version : fb_version b = ENVELOPE_VERSION;
  wf_genesis : hash_ok (fb_genesis b);
  wf_profile : zlen (string_bytes (fb_profile b)) <= 64 /\
    utf8_valid (string_bytes (fb_profile b)) = true;
  wf_start : u64 (fb_start_height b);
  wf_stop : hash_ok (fb_stop_block_hash b);
  wf_count : zlen (fb_records b) <= MAX_RECORDS_PER_BATCH;
  wf_records : Forall record_wf (fb_records b);
  wf_size : zlen (FilterBatch_encode b) <= MAX_BATCH_BYTES }.

(** ** The encoding as a concatenation *)

Lemma write_compact_size_eq out v : u64 v -> write_compact_size out v = out ++ compact_size v.
Proof.
  unfold u64, u64_bound. intros Hv. unfold write_compact_size, compact_size, wrap16, wrap32.
  replace (v <=? 0xfc) with (v <? 0xfd) by (destruct (v <? 0xfd) eqn:E; bool_prop; by guards).
  repeat case_match; bool_prop; rewrite ?Z.mod_small by lia; done.
Qed.

Definition enc_record (r : FilterRecord) : list Z :=
  le_bytes 8 (rec_height r) ++ rec_block_hash r ++
  compact_size (zlen (rec_filter r)) ++ rec_filter r.

Definition enc_header (b : FilterBatch) : list Z :=
  MAGIC ++ le_bytes 2 (fb_version b) ++ fb_genesis b ++
  compact_size (zlen (string_bytes (fb_profile b))) ++ string_bytes (fb_profile b) ++
  le_bytes 8 (fb_start_height b) ++ fb_stop_block_hash b ++
  compact_size (zlen (fb_records b)).

Lemma encode_records_eq out rs :
  Forall (fun r => u64 (zlen (rec_filter r))) rs ->
  foldl encode_record out rs = out ++ concat (enc_record <$> rs).
Proof.
  intros H. revert out. induction H as [|r rs Hr _ IH]; intros out; simpl;
    [by rewrite app_nil_r|].
  rewrite IH. unfold encode_record, enc_record.
  rewrite write_compact_size_eq by done. by rewrite <- !app_assoc.
Qed.

Lemma encode_eq b :
  u64 (zlen (string_bytes (fb_profile b))) -> u64 (zlen (fb_records b)) ->
  Forall (fun r => u64 (zlen (rec_filter r))) (fb_records b) ->
  FilterBatch_encode b = enc_header b ++ concat (enc_record <$> fb_records b).
Proof.
  intros Hp Hn Hr. unfold FilterBatch_encode, enc_header.
  rewrite encode_records_eq, !write_compact_size_eq by done.
  by rewrite <- !app_assoc.
Qed.

Lemma zlen_compact_size v : 1 <= zlen (compact_size v).
Proof. pose proof (compact_size_len v). unfold zlen. lia. Qed.

Lemma zlen_enc_records rs :
  Forall record_wf rs -> 41 * zlen rs <= zlen (concat (enc_record <$> rs)).
Proof.
  induction 1 as [|r rs (_ & Hh & _) _ IH]; [done|].
  rewrite fmap_cons. cbn [concat]. rewrite zlen_cons, zlen_app. unfold enc_record at 1.
  autorewrite with zlen. rewrite zlen_hash by done.
  pose proof (zlen_compact_size (zlen (rec_filter r))). pose proof (zlen_nonneg (rec_filter r)).
  lia.
Qed.

(** ** Reading what was written *)

Lemma compact_size_at v pre rest :
  u64 v -> fits pre (compact_size v ++ rest) ->
  Reader_compact_size (at_ pre (compact_size v ++ rest)) =
  Ok (v, at_ (pre ++ compact_size v) rest).
Proof.
  unfold u64, u64_bound. intros Hv. unfold compact_size.
  destruct (v <? 0xfd) eqn:E1; bool_prop.
  - intros Hf. unfold Reader_compact_size, Reader_take, pbind.
    rewrite cursor_take_at_len by done.
    cbn [lookup_total list_lookup_total]. guards. unfold pret. by guards.
  - destruct (v <=? 0xffff) eqn:E2; bool_prop;
    [|destruct (v <=? 0xffffffff) eqn:E3; bool_prop]; intros Hf;
    change (?x :: ?l) with ([x] ++ l) in *; rewrite <- app_assoc in Hf |- *;
    unfold Reader_compact_size, Reader_take, pbind;
    rewrite cursor_take_at_len by done; apply fits_app in Hf;
    cbn [lookup_total list_lookup_total]; simpl (_ =? _); cbv iota;
    cbv beta; (rewrite cursor_take_at_len by (done || apply zlen_le_bytes)); unfold pret;
    rewrite le_val_le_bytes by lia; guards; by rewrite <- app_assoc.
Qed.

Lemma compact_size_yields :
  yields Reader_compact_size (fun bs v => bs = compact_size v /\ u64 v).
Proof.
  unfold Reader_compact_size.
  eapply yields_bind with (Q := fun s bs v => s ++ bs = compact_size v /\ u64 v);
    [apply cursor_take_yields| |by intros b1 b2 a b (-> & _) H].
  intros a bs (-> & Hl & Hok).
  destruct a as [|first [|]]; [by unfold zlen in Hl| |unfold zlen in Hl; simpl in Hl; lia].
  apply Forall_cons in Hok as [Hb _]. unfold byte_ok in Hb.
  cbn [lookup_total list_lookup_total].
  assert (Hwide : forall n m, (0 < n <= 8)%nat ->
    (forall v, m <= v < 256 ^ Z.of_nat n -> compact_size v = first :: le_bytes n v) ->
    yields (pbind (let! s := Reader_take (Z.of_nat n) in pret (le_val s, m))
      (fun '(value, minimum) =>
        if value <? minimum
        then pfail (FE_Envelope "CompactSize is not canonically encoded")
        else pret value))
      (fun bs v => [first] ++ bs = compact_size v /\ u64 v)).
  { intros n m Hn Hc.
    eapply yields_bind with
      (P := fun bs '(v, m') => bs = le_bytes n v /\ m' = m /\ 0 <= v < 256 ^ Z.of_nat n)
      (Q := fun '(v, m') bs v' => bs = [] /\ v' = v /\ m <= v).
    - eapply yields_bind; [apply cursor_take_yields|intros; apply yields_pret|].
      simpl. intros b1 b2 s v (-> & Hs & Hok) [-> ->]. rewrite app_nil_r.
      pose proof (le_val_range s Hok) as Hr. rewrite Hs in Hr. split_and!; [|done|lia|lia].
      symmetry. apply le_bytes_le_val_len; [done|unfold zlen in Hs; lia].
    - intros [v m'] bs' (-> & -> & Hr). destruct (v <? m) eqn:E; [apply yields_pfail|].
      bool_prop. eapply yields_weaken; [apply yields_pret|]. by intros bs'' v' _ [-> ->].
    - intros b1 b2 [v m'] b (-> & -> & Hr) (-> & -> & Hm). rewrite app_nil_r.
      rewrite Hc by lia. split; [done|]. rewrite u64_pow.
      pose proof (Z.pow_le_mono_r 256 (Z.of_nat n) (Z.of_nat 8)). lia. }
  destruct (first =? 0xfd) eqn:E1; [|destruct (first =? 0xfe) eqn:E2;
    [|destruct (first =? 0xff) eqn:E3]]; bool_prop; subst;
    try (apply Hwide; [lia|]; intros v Hv; unfold compact_size;
         first [change (256 ^ Z.of_nat 2) with 65536 in Hv
               |change (256 ^ Z.of_nat 4) with 4294967296 in Hv
               |idtac]; guards; done).
  eapply yields_bind with (Q := fun p bs v => bs = [] /\ v = fst p);
    [apply yields_pret|intros [v m] bs' [-> Heq]|].
  - injection Heq as -> ->. guards. apply yields_pret.
  - intros b1 b2 [v m] b [-> Heq] [-> ->]. injection Heq as -> ->.
    unfold compact_size, u64, u64_bound. cbn [fst app]. guards. split; [done|lia].
Qed.

(** ** One record *)

Lemma decode_record_at r pre rest :
  record_wf r -> fits pre (enc_record r ++ rest) ->
  decode_record (at_ pre (enc_record r ++ rest)) = Ok (r, at_ (pre ++ enc_record r) rest).
Proof.
  intros (Hh & Hb & Hok & Hl) Hf. unfold enc_record in *.
  rewrite <- !app_assoc in Hf |- *.
  unfold decode_record, pbind, Reader_u64, Reader_hash, Reader_take, Reader_remaining.
  rewrite cursor_le_at by (done || by apply u64_pow). apply fits_app in Hf.
  rewrite cursor_take_at_len by (done || by apply zlen_hash). apply fits_app in Hf.
  rewrite compact_size_at by done. apply fits_app in Hf.
  rewrite cursor_remaining_at. rewrite zlen_app. pose proof (zlen_nonneg rest). guards.
  rewrite cursor_take_at by done. unfold pret. rewrite <- !app_assoc. by destruct r.
Qed.

Lemma hash_yields : yields Reader_hash (fun bs v => bs = v /\ hash_ok v).
Proof.
  eapply yields_weaken; [apply cursor_take_yields|].
  intros bs v _ (-> & Hl & Hok). split; [done|]. split; [unfold zlen in Hl; lia|done].
Qed.

Lemma decode_record_yields :
  yields decode_record (fun bs r => bs = enc_record r /\ record_wf r).
Proof.
  apply completes_start.
  eapply completes_field; [apply cursor_le_yields|]. intros h Hh. apply u64_pow in Hh.
  eapply (completes_field id); [apply hash_yields|]. intros bh Hbh.
  eapply completes_field; [apply compact_size_yields|]. intros n Hn.
  apply completes_peek. intros rem. apply completes_guard. intros _.
  eapply (completes_field id); [apply cursor_take_yields|]. intros f [Hf Hok].
  apply completes_done. unfold id, enc_record, record_wf. simpl rec_height.
  simpl rec_block_hash. simpl rec_filter. rewrite Hf, <- !app_assoc. by split_and!.
Qed.

(** ** The whole batch *)

Definition trailing (rest : list Z) (b : FilterBatch) : result FilterError FilterBatch :=
  if negb (zlen rest =? 0) then Err (FE_Envelope "{} trailing bytes after the batch")
  else Ok b.

Lemma wf_encode_eq b :
  batch_wf b ->
  FilterBatch_encode b = enc_header b ++ concat (enc_record <$> fb_records b).
Proof.
  intros [? ? [Hp _] ? ? Hn Hr _]. apply encode_eq.
  - unfold u64, u64_bound. pose proof (zlen_nonneg (string_bytes (fb_profile b))). lia.
  - unfold u64, u64_bound, MAX_RECORDS_PER_BATCH in *. pose proof (zlen_nonneg (fb_records b)). lia.
  - eapply Forall_impl; [exact Hr|]. by intros r (_ & _ & _ & ?).
Qed.

(** Decoding an encoding followed by [rest]: the batch, or the trailing-bytes
    error. *)
Lemma decode_batch_at b rest :
  batch_wf b -> fits [] (FilterBatch_encode b ++ rest) ->
  (let? (v, _) := decode_batch (Cursor (FilterBatch_encode b ++ rest) 0) in Ok v) =
  trailing rest b.
Proof.
  intros Hwf Hf. rewrite (wf_encode_eq b Hwf) in Hf |- *.
  destruct Hwf as [Hv Hg [Hp Hu] Hs Hst Hn Hr _].
  assert (u64 (zlen (string_bytes (fb_profile b)))) as Hpu.
  { unfold u64, u64_bound. pose proof (zlen_nonneg (string_bytes (fb_profile b))). lia. }
  assert (u64 (zlen (fb_records b))) as Hnu.
  { unfold u64, u64_bound, MAX_RECORDS_PER_BATCH in *.
    pose proof (zlen_nonneg (fb_records b)). lia. }
  unfold enc_header in *. rewrite <- !app_assoc in Hf |- *.
  change (Cursor ?l 0) with (at_ [] l).
  unfold decode_batch, pbind, Reader_u16, Reader_u64, Reader_hash, Reader_take, Reader_remaining.
  rewrite cursor_take_at_len by done. apply fits_app in Hf.
  rewrite bool_decide_true by done. cbv [negb].
  rewrite cursor_le_at by (rewrite ?Hv; done). apply fits_app in Hf.
  rewrite (proj2 (Z.eqb_eq _ _) Hv). cbv iota.
  rewrite cursor_take_at_len by (done || by apply zlen_hash). apply fits_app in Hf.
  rewrite compact_size_at by done. apply fits_app in Hf.
  rewrite (proj2 (Z.ltb_ge _ _) Hp).
  rewrite cursor_take_at by done. apply fits_app in Hf. rewrite Hu. cbv iota.
  rewrite cursor_le_at by (done || by apply u64_pow). apply fits_app in Hf.
  rewrite cursor_take_at_len by (done || by apply zlen_hash). apply fits_app in Hf.
  rewrite compact_size_at by done. apply fits_app in Hf.
  rewrite (proj2 (Z.ltb_ge _ _) Hn). rewrite cursor_remaining_at.
  rewrite (proj2 (Z.ltb_ge _ _)).
  2:{ pose proof (zlen_enc_records _ Hr). rewrite zlen_app. pose proof (zlen_nonneg rest).
      unfold saturating_mul64. lia. }
  replace (Z.to_nat (zlen (fb_records b))) with (length (fb_records b)) by (unfold zlen; lia).
  rewrite (prepeat_at decode_record enc_record record_wf)
    by (done || intros; by apply decode_record_at).
  rewrite cursor_remaining_at. unfold trailing, pret, pfail.
  destruct (zlen rest =? 0); simpl; [|done]. rewrite string_of_bytes. by destruct b.
Qed.

Lemma decode_batch_yields :
  yields decode_batch (fun bs b =>
    bs = enc_header b ++ concat (enc_record <$> fb_records b) /\
    fb_version b = ENVELOPE_VERSION /\ hash_ok (fb_genesis b) /\
    zlen (string_bytes (fb_profile b)) <= 64 /\
    utf8_valid (string_bytes (fb_profile b)) = true /\
    u64 (fb_start_height b) /\ hash_ok (fb_stop_block_hash b) /\
    zlen (fb_records b) <= MAX_RECORDS_PER_BATCH /\ Forall record_wf (fb_records b)).
Proof.
  apply completes_start.
  eapply (completes_field id); [apply cursor_take_yields|]. intros magic _.
  apply completes_guard. intros Hm.
  eapply completes_field; [apply cursor_le_yields|]. intros version _.
  apply completes_guard. intros Hv.
  eapply (completes_field id); [apply hash_yields|]. intros genesis Hg.
  eapply completes_field; [apply compact_size_yields|]. intros plen Hp.
  apply completes_guard. intros Hp64.
  eapply (completes_field id); [apply cursor_take_yields|]. intros name [Hn Hok].
  apply completes_guard. intros Hu.
  eapply completes_field; [apply cursor_le_yields|]. intros start Hs. apply u64_pow in Hs.
  eapply (completes_field id); [apply hash_yields|]. intros stop Hst.
  eapply completes_field; [apply compact_size_yields|]. intros count Hc.
  apply completes_guard. intros Hcm. apply completes_peek. intros rem.
  apply completes_guard. intros _.
  eapply completes_field;
    [apply (prepeat_yields decode_record enc_record record_wf), decode_record_yields|].
  intros records [Hl Hr]. apply completes_peek. intros rem'. apply completes_guard. intros _.
  apply completes_done. bool_prop. unfold u64 in Hc.
  assert (zlen records = count) as Hcount by (unfold zlen; lia).
  unfold id, enc_header.
  cbn [fb_records fb_version fb_genesis fb_profile fb_start_height fb_stop_block_hash].
  rewrite bytes_of_string, Hn, Hcount, <- !app_assoc by done. subst magic. by split_and!.
Qed.

(** Every byte is consumed: the last check of [decode_batch]. *)
Lemma decode_batch_all bs b c :
  decode_batch (Cursor bs 0) = Ok (b, c) -> zlen (cur_bytes c) = cur_offset c.
Proof.
  unfold decode_batch, pbind, pfail, pret, Reader_remaining, cursor_remaining.
  intros H. inv_res H. bool_prop. simpl in *. lia.
Qed.

Lemma decode_encode b rest :
  batch_wf b -> zlen (FilterBatch_encode b ++ rest) <= MAX_BATCH_BYTES ->
  FilterBatch_decode (FilterBatch_encode b ++ rest) = trailing rest b.
Proof.
  intros Hwf Hs. unfold FilterBatch_decode. rewrite (proj2 (Z.ltb_ge _ _) Hs).
  apply decode_batch_at; [done|].
  unfold fits, u64_bound, MAX_BATCH_BYTES in *. rewrite zlen_nil. lia.
Qed.

Lemma encode_decode bs b :
  bytes_ok bs -> FilterBatch_decode bs = Ok b -> batch_wf b /\ bs = FilterBatch_encode b.
Proof.
  intros Hok H. unfold FilterBatch_decode in H.
  destruct (MAX_BATCH_BYTES <? zlen bs) eqn:Es; [done|].
  destruct (decode_batch _) as [[b' c]|] eqn:Ed; [|done]. injection H as ->.
  apply decode_batch_all in Ed as Hall.
  change (Cursor bs 0) with (at_ [] bs) in Ed.
  destruct (decode_batch_yields [] bs b c Hok Ed)
    as (pre & rest & Hbs & -> & Hpre & Hv & Hg & Hp & Hu & Hs & Hst & Hn & Hr).
  unfold at_ in Hall. cbn [cur_bytes cur_offset] in Hall. rewrite zlen_app in Hall.
  assert (rest = []) as -> by (apply length_zero_iff_nil; unfold zlen in Hall; lia).
  rewrite app_nil_r in Hbs. subst bs.
  assert (FilterBatch_encode b = pre) as Henc.
  { rewrite Hpre. apply encode_eq.
    - unfold u64, u64_bound. pose proof (zlen_nonneg (string_bytes (fb_profile b))). lia.
    - unfold u64, u64_bound, MAX_RECORDS_PER_BATCH in *.
      pose proof (zlen_nonneg (fb_records b)). lia.
    - eapply Forall_impl; [exact Hr|]. by intros r (_ & _ & _ & ?). }
  bool_prop. split; [|done]. constructor; try done. by rewrite Henc.
Qed.

(** ** Properties *)

(** C6: [decode] is the exact inverse of [encode].  A byte string decodes to a
    batch iff the batch is well formed (version 1, 32-byte hashes, a UTF-8
    profile name of at most 64 bytes, at most 1000 records, at most 64 MiB) and
    the string is its encoding: every well-formed batch round-trips and no
    other byte string, canonical or not, decodes to it. *)
Theorem envelope_decode_exact bs b :
  bytes_ok bs ->
  FilterBatch_decode bs = Ok b <-> batch_wf b /\ bs = FilterBatch_encode b.
Proof.
  intros Hok. split; [by apply encode_decode|]. intros [Hwf ->].
  rewrite <- (app_nil_r (FilterBatch_encode b)), decode_encode; [done|done|].
  rewrite app_nil_r. apply wf_size, Hwf.
Qed.

Definition sample_batch : FilterBatch := {|
  fb_version := 1; fb_genesis := replicate 32 8; fb_profile := PROFILE;
  fb_start_height := START_HEIGHT; fb_stop_block_hash := replicate 32 171;
  fb_records := [{| rec_height := START_HEIGHT; rec_block_hash := replicate 32 171;
                    rec_filter := [2; 0xaa; 0xbb] |}] |}.

Lemma envelope_decode_exact_witness :
  batch_wf sample_batch /\
  FilterBatch_decode (FilterBatch_encode sample_batch) = Ok sample_batch.
Proof.
  assert (FilterBatch_decode (FilterBatch_encode sample_batch) = Ok sample_batch) as H
    by (vm_compute; reflexivity).
  split; [|exact H].
  apply (envelope_decode_exact (FilterBatch_encode sample_batch) sample_batch); [|exact H].
  unfold bytes_ok, byte_ok. vm_compute. repeat constructor; discriminate.
Defined.

Lemma decode_prefix_free bs ext b b' :
  bytes_ok (bs ++ ext) ->
  FilterBatch_decode bs = Ok b -> FilterBatch_decode (bs ++ ext) = Ok b' -> ext = [].
Proof.
  intros Hok Hd Hd'. apply bytes_ok_app in Hok as Hok'. destruct Hok' as [Hb _].
  apply encode_decode in Hd as [Hwf ->]; [|done].
  apply encode_decode in Hd' as Hd''; [|done]. destruct Hd'' as [Hwf' Heq].
  rewrite decode_encode in Hd'; [|done|].
  - unfold trailing in Hd'. destruct (zlen ext =? 0) eqn:E; [|done]. bool_prop.
    apply length_zero_iff_nil. unfold zlen in E. lia.
  - rewrite Heq. apply wf_size, Hwf'.
Qed.

(** Framing is unambiguous: every extension of an accepted envelope and
    every proper prefix of one is an error, so a truncated or padded response
    is never mistaken for a shorter or longer range. *)
Theorem envelope_prefix_free bs ext :
  bytes_ok (bs ++ ext) -> ext <> [] ->
  (forall b, FilterBatch_decode bs = Ok b -> exists e, FilterBatch_decode (bs ++ ext) = Err e) /\
  (forall b, FilterBatch_decode (bs ++ ext) = Ok b -> exists e, FilterBatch_decode bs = Err e).
Proof.
  intros Hok Hne. split; intros b Hd.
  - destruct (FilterBatch_decode (bs ++ ext)) as [b'|e] eqn:Hd'; [|eauto].
    destruct Hne. by eapply decode_prefix_free.
  - destruct (FilterBatch_decode bs) as [b'|e] eqn:Hd'; [|eauto].
    destruct Hne. by eapply decode_prefix_free.
Qed.

Lemma envelope_prefix_free_witness :
  FilterBatch_decode (FilterBatch_encode sample_batch) = Ok sample_batch /\
  exists e, FilterBatch_decode (FilterBatch_encode sample_batch ++ [0]) = Err e.
Proof.
  assert (FilterBatch_decode (FilterBatch_encode sample_batch) = Ok sample_batch) as H
    by (vm_compute; reflexivity).
  split; [exact H|].
  apply (proj1 (envelope_prefix_free (FilterBatch_encode sample_batch) [0]
    ltac:(unfold bytes_ok, byte_ok; vm_compute; repeat constructor; discriminate)
    ltac:(discriminate)) sample_batch). exact H.
Defined.
