(* ===== verification/FilterClient.v ===== *)
(** * The wallet's side of filter synchronization

    Models [pir/transparent-filter/src/client.rs] and the request types of
    [pir/transparent-filter/src/transport.rs]: the accepted chain, [check_batch]
    and [sync_range].  The traits [AcceptedChain] and [FilterTransport] are
    classes; [ChainMap] and [FileTransport] are their instances.  A transport
    may answer anything: the theorems show that [sync_range] terminates against
    every transport, and that whatever it reports as covered was validated,
    block by block, on the wallet's own chain. *)

From Stdlib Require Import ZArith Lia.
From stdpp Require Import base numbers list strings gmap sorting.
From S2P Require Import Prelude FilterTypes BitStream Validate Matching Envelope Instances.

Open Scope Z_scope.

(** ** transport.rs *)

Record RangeRequest := {
  rr_genesis : BlockHash;
  rr_profile : string;
  rr_start_height : Z;
  rr_stop_block_hash : BlockHash }.

Record ByteCharges := { bc_received : Z; bc_sent : Z; bc_requests : Z }.

Definition ByteCharges_default : ByteCharges :=
  {| bc_received := 0; bc_sent := 0; bc_requests := 0 |}.

Definition ByteCharges_add (self other : ByteCharges) : ByteCharges := {|
  bc_received := wrap64 (bc_received self + bc_received other);
  bc_sent := wrap64 (bc_sent self + bc_sent other);
  bc_requests := wrap64 (bc_requests self + bc_requests other) |}.

Definition ByteCharges_total (self : ByteCharges) : Z :=
  wrap64 (bc_received self + bc_sent self).

(** The trait; [&mut self] is the threaded state. *)
Class FilterTransport (T : Type) :=
  fetch_range : RangeRequest -> T -> result FilterError (FilterBatch * ByteCharges) * T.

(** [FileTransport]: the directory as a map from the start height in a file's
    name to the file's bytes. *)
Record FileTransport := { ft_directory : gmap Z (list Z) }.

#[export] Instance FileTransport_fetch_range : FilterTransport FileTransport :=
  fun request self =>
    (let? bytes := ok_or (ft_directory self !! rr_start_height request)
                     (FE_Response "{}: {error}") in
     let charges := {| bc_received := zlen bytes; bc_sent := 0; bc_requests := 1 |} in
     let? batch := FilterBatch_decode bytes in
     Ok (batch, charges), self).

(** ** The accepted chain *)

Class AcceptedChain (C : Type) := {
  block_hash : C -> Z -> option BlockHash;
  height_of : C -> BlockHash -> option Z }.

(** What the wallet's view must satisfy: a block found by its hash is the block
    at that height, and heights are below the largest [u64]. *)
Class AcceptedChainLaws (C : Type) `{AcceptedChain C} (chain : C) : Prop := {
  height_of_block_hash h n : height_of chain h = Some n -> block_hash chain n = Some h;
  height_of_range h n : height_of chain h = Some n -> 0 <= n < u64_bound - 1 }.

Record ChainMap := { by_height : gmap Z BlockHash }.

Definition ChainMap_new : ChainMap := {| by_height := ∅ |}.

Definition ChainMap_insert (self : ChainMap) (height : Z) (hash : BlockHash) : ChainMap :=
  {| by_height := <[height := hash]> (by_height self) |}.

Definition ChainMap_rollback_to (self : ChainMap) (height : Z) : ChainMap :=
  {| by_height := base.filter (fun '(at_height, _) => at_height <= height) (by_height self) |}.

(** [BTreeMap::iter]: the entries in ascending key order. *)
Definition key_le {V} (a b : Z * V) : Prop := fst a <= fst b.
#[export] Instance key_le_dec {V} : RelDecision (@key_le V).
Proof. intros a b. unfold key_le. apply _. Defined.
#[export] Instance key_le_total {V} : Total (@key_le V).
Proof. intros a b. unfold key_le. lia. Qed.
#[export] Instance key_le_trans {V} : Transitive (@key_le V).
Proof. intros a b c. unfold key_le. lia. Qed.

Definition btree_iter {V} (m : gmap Z V) : list (Z * V) := merge_sort key_le (map_to_list m).

Definition ChainMap_tip (self : ChainMap) : option (Z * BlockHash) :=
  last (btree_iter (by_height self)).

#[export] Instance ChainMap_chain : AcceptedChain ChainMap := {|
  block_hash self height := by_height self !! height;
  height_of self hash :=
    fst <$> head (base.filter (fun p => snd p = hash) (btree_iter (by_height self))) |}.

(** ** check_batch *)

Record CheckedRecord := {
  cr_height : Z; cr_block_hash : BlockHash; cr_filter : ValidatedFilter }.

Section client.
Context {C : Type} `{AcceptedChain C}.

Definition check_record (start_height : Z) (chain : C) (limits : FilterLimits)
    (offset : nat) (record : FilterRecord) : result FilterError CheckedRecord :=
  let expected_height := wrap64 (start_height + Z.of_nat offset) in
  if negb (rec_height record =? expected_height)
  then Err (FE_Response "record {offset} is at height {}, expected {expected_height}") else
  let? accepted := ok_or (block_hash chain (rec_height record))
    (FE_Response "wallet has not accepted a block at height {}") in
  if negb (bool_decide (accepted = rec_block_hash record))
  then Err (FE_Response "record at height {} is on a different branch") else
  let? filter := validate_filter (rec_filter record) limits in
  Ok {| cr_height := rec_height record; cr_block_hash := rec_block_hash record;
        cr_filter := filter |}.

Fixpoint check_records (start_height : Z) (chain : C) (limits : FilterLimits)
    (offset : nat) (records : list FilterRecord) : result FilterError (list CheckedRecord) :=
  match records with
  | [] => Ok []
  | record :: records =>
      let? c := check_record start_height chain limits offset record in
      let? cs := check_records start_height chain limits (S offset) records in
      Ok (c :: cs)
  end.

Definition check_batch (batch : FilterBatch) (request : RangeRequest) (chain : C)
    (limits : FilterLimits) : result FilterError (list CheckedRecord) :=
  if negb (bool_decide (fb_genesis batch = rr_genesis request))
  then Err (FE_Response "batch is for a different chain") else
  if negb (bool_decide (fb_profile batch = rr_profile request))
  then Err (FE_Response "batch profile {:?} is not the requested {:?}") else
  if negb (fb_start_height batch =? rr_start_height request)
  then Err (FE_Response "batch starts at {}, requested {}") else
  if negb (bool_decide (fb_stop_block_hash batch = rr_stop_block_hash request))
  then Err (FE_Response "batch terminates at a different block") else
  let? stop_height := ok_or (height_of chain (rr_stop_block_hash request))
    (FE_Response "terminal block is not on the accepted chain") in
  if stop_height <? rr_start_height request
  then Err (FE_Response "terminal block is below the requested start") else
  let wanted :=
    Z.min (wrap64 (stop_height - rr_start_height request + 1)) MAX_RECORDS_PER_BATCH in
  if negb (zlen (fb_records batch) =? wanted)
  then Err (FE_Response "batch has {} records, expected exactly {wanted}") else
  check_records (rr_start_height request) chain limits 0 (fb_records batch).

(** ** sync_range *)

Record BlockMatch := {
  bm_height : Z; bm_block_hash : BlockHash; bm_script_indices : list nat }.

Record SyncOutcome := {
  so_matches : list BlockMatch;
  so_covered_through : Z;
  so_covered_block_hash : BlockHash;
  so_charges : ByteCharges;
  so_filters_checked : Z }.

Context `{SipHash24} {T : Type} `{FilterTransport T}.

(** The body of the [for record in &checked] loop. *)
Definition match_record (wallet_scripts : list ScriptBytes) (acc : SyncOutcome)
    (record : CheckedRecord) : result FilterError SyncOutcome :=
  let mapped := map_wallet_scripts (cr_filter record) (cr_block_hash record) wallet_scripts in
  let? indices := match_mapped (cr_filter record) mapped in
  Ok {| so_matches :=
          if bool_decide (indices = []) then so_matches acc
          else so_matches acc ++
            [{| bm_height := cr_height record; bm_block_hash := cr_block_hash record;
                bm_script_indices := indices |}];
        so_covered_through := cr_height record;
        so_covered_block_hash := cr_block_hash record;
        so_charges := so_charges acc;
        so_filters_checked := wrap64 (so_filters_checked acc + 1) |}.

Fixpoint match_records (wallet_scripts : list ScriptBytes) (acc : SyncOutcome)
    (checked : list CheckedRecord) : result FilterError SyncOutcome :=
  match checked with
  | [] => Ok acc
  | record :: checked =>
      let? acc := match_record wallet_scripts acc record in
      match_records wallet_scripts acc checked
  end.

(** The [while next <= stop_height] loop; [None] is out of fuel. *)
Fixpoint sync_loop (fuel : nat) (request : RangeRequest) (chain : C)
    (wallet_scripts : list ScriptBytes) (limits : FilterLimits) (stop_height next : Z)
    (acc : SyncOutcome) (t : T) : option (result FilterError SyncOutcome * T) :=
  if next <=? stop_height then
    match fuel with
    | O => None
    | S fuel =>
        let batch_request := {|
          rr_genesis := rr_genesis request; rr_profile := rr_profile request;
          rr_start_height := next; rr_stop_block_hash := rr_stop_block_hash request |} in
        match fetch_range batch_request t with
        | (Err error, t) => Some (Err error, t)
        | (Ok (batch, batch_charges), t) =>
            let acc := {|
              so_matches := so_matches acc;
              so_covered_through := so_covered_through acc;
              so_covered_block_hash := so_covered_block_hash acc;
              so_charges := ByteCharges_add (so_charges acc) batch_charges;
              so_filters_checked := so_filters_checked acc |} in
            match check_batch batch batch_request chain limits with
            | Err e => Some (Err e, t)
            | Ok checked =>
                match match_records wallet_scripts acc checked with
                | Err e => Some (Err e, t)
                | Ok acc =>
                    sync_loop fuel request chain wallet_scripts limits stop_height
                      (wrap64 (next + zlen checked)) acc t
                end
            end
        end
    end
  else Some (Ok acc, t).

(** Every iteration covers at least one block: one iteration per block is
    enough fuel ([sync_range_terminates]). *)
Definition sync_fuel (stop_height start_height : Z) : nat :=
  Z.to_nat (stop_height - start_height + 1).

Definition sync_range (request : RangeRequest) (chain : C)
    (wallet_scripts : list ScriptBytes) (limits : FilterLimits) (t : T) :
    option (result FilterError SyncOutcome * T) :=
  match ok_or (height_of chain (rr_stop_block_hash request))
          (FE_Response "terminal block is not on the accepted chain") with
  | Err e => Some (Err e, t)
  | Ok stop_height =>
      sync_loop (sync_fuel stop_height (rr_start_height request)) request chain
        wallet_scripts limits stop_height (rr_start_height request)
        {| so_matches := [];
           so_covered_through := saturating_sub (rr_start_height request) 1;
           so_covered_block_hash := rr_stop_block_hash request;
           so_charges := ByteCharges_default; so_filters_checked := 0 |} t
  end.
End client.

(** ** What a checked record is *)

Section client_lemmas.
Context {C : Type} `{AcceptedChain C} `{SipHash24} {T : Type} `{FilterTransport T}.

(** A delivered record [raw] and what the client made of it at [height]: the
    record was at that height and on the wallet's block there, and its own filter
    bytes validated to the filter that is matched. *)
Definition checked_at (chain : C) (limits : FilterLimits) (height : Z)
    (raw : FilterRecord) (r : CheckedRecord) : Prop :=
  rec_height raw = height /\ cr_height r = height /\
  block_hash chain height = Some (rec_block_hash raw) /\
  cr_block_hash r = rec_block_hash raw /\
  validate_filter (rec_filter raw) limits = Ok (cr_filter r).

(** One checked record per delivered record, at consecutive heights. *)
Definition covers (chain : C) (limits : FilterLimits) (start : Z)
    (raws : list FilterRecord) (rs : list CheckedRecord) : Prop :=
  length raws = length rs /\
  forall i raw r, raws !! i = Some raw -> rs !! i = Some r ->
    checked_at chain limits (start + Z.of_nat i) raw r.

(** The exchanges of a synchronization: successful fetches, one after the other,
    each asking from the height after the records already delivered. *)
Inductive fetches (request : RangeRequest) :
    Z -> T -> list (FilterBatch * ByteCharges) -> T -> Prop :=
  | fetches_none next t : fetches request next t [] t
  | fetches_more next t batch charges t1 exchanges t2 :
      fetch_range {| rr_genesis := rr_genesis request; rr_profile := rr_profile request;
                     rr_start_height := next;
                     rr_stop_block_hash := rr_stop_block_hash request |} t =
        (Ok (batch, charges), t1) ->
      fetches request (next + zlen (fb_records batch)) t1 exchanges t2 ->
      fetches request next t ((batch, charges) :: exchanges) t2.

Definition delivered (exchanges : list (FilterBatch * ByteCharges)) : list FilterRecord :=
  concat ((fun x => fb_records x.1) <$> exchanges).

Definition charged (acc : ByteCharges) (exchanges : list (FilterBatch * ByteCharges)) : ByteCharges :=
  foldl ByteCharges_add acc exchanges.*2.

(** The match a record contributes, if any. *)
Definition record_match (ws : list ScriptBytes) (r : CheckedRecord) : option BlockMatch :=
  match match_scripts (cr_filter r) (cr_block_hash r) ws with
  | Ok (i :: js) => Some {| bm_height := cr_height r; bm_block_hash := cr_block_hash r;
                            bm_script_indices := i :: js |}
  | _ => None
  end.

Lemma covers_app chain limits start raws a raws' b :
  covers chain limits start raws a -> covers chain limits (start + zlen a) raws' b ->
  covers chain limits start (raws ++ raws') (a ++ b).
Proof.
  intros [Hla Ha] [Hlb Hb]. split; [rewrite !length_app; lia|]. intros i raw r Hraw Hi.
  apply lookup_app_Some in Hi as [Hi|[Hl Hi]].
  - rewrite lookup_app_l in Hraw by (rewrite Hla; by eapply lookup_lt_Some). by apply Ha.
  - rewrite lookup_app_r, Hla in Hraw by lia. specialize (Hb _ _ _ Hraw Hi).
    replace (start + Z.of_nat i) with
      (start + zlen a + Z.of_nat (i - length a)) by (unfold zlen; lia). done.
Qed.

Lemma check_record_inv start chain limits off raw c :
  0 <= start -> start + Z.of_nat off < u64_bound ->
  check_record start chain limits off raw = Ok c ->
  checked_at chain limits (start + Z.of_nat off) raw c.
Proof.
  intros Hs Hb Er. unfold check_record in Er. unfold wrap64 in Er. rewrite Z.mod_small in Er by lia.
  inv_res Er. bool_prop. unfold ok_or in *. destruct (block_hash chain _) eqn:Eb; simplify_eq.
  unfold checked_at. simpl. split_and!; (done || congruence).
Qed.

Lemma check_records_inv start chain limits off raws cs :
  0 <= start -> start + Z.of_nat off + zlen raws <= u64_bound ->
  check_records start chain limits off raws = Ok cs ->
  covers chain limits (start + Z.of_nat off) raws cs.
Proof.
  intros Hs. revert off cs. induction raws as [|raw raws IH]; intros off cs Hb Hc;
    cbn [check_records] in Hc.
  { injection Hc as <-. split; [done|]. intros i raw r Hi. done. }
  rewrite zlen_cons in Hb. pose proof (zlen_nonneg raws).
  destruct (check_record _ _ _ _ _) as [c|] eqn:Er; [|done].
  destruct (check_records _ _ _ _ _) as [cs'|] eqn:Ers; [|done]. injection Hc as <-.
  apply IH in Ers; [|lia]. apply check_record_inv in Er; [|done|lia].
  apply (covers_app _ _ _ [raw] [c] raws cs').
  - split; [done|]. intros [|i] raw' r' Hraw Hi; [|done]. injection Hraw as <-. injection Hi as <-.
    by rewrite Z.add_0_r.
  - change (zlen [c]) with 1. by replace (start + Z.of_nat off + 1) with (start + Z.of_nat (S off)) by lia.
Qed.

Lemma check_batch_inv batch request chain limits cs :
  0 <= rr_start_height request ->
  (forall stop, height_of chain (rr_stop_block_hash request) = Some stop -> stop < u64_bound - 1) ->
  check_batch batch request chain limits = Ok cs ->
  exists stop, height_of chain (rr_stop_block_hash request) = Some stop /\
    rr_start_height request <= stop /\
    zlen cs = Z.min (stop - rr_start_height request + 1) MAX_RECORDS_PER_BATCH /\
    covers chain limits (rr_start_height request) (fb_records batch) cs.
Proof.
  intros Hs Hstop Hc. unfold check_batch in Hc.
  do 4 (match type of Hc with (if ?b then _ else _) = _ => destruct b; [done|] end).
  destruct (height_of chain _) as [stop|] eqn:Eh; [|done]. simpl in Hc.
  specialize (Hstop stop eq_refl).
  destruct (stop <? _) eqn:El; [done|]. bool_prop.
  unfold wrap64 in Hc. rewrite Z.mod_small in Hc by lia.
  destruct (zlen (fb_records batch) =? _) eqn:Ew; [|done]. bool_prop. simpl in Hc.
  unfold MAX_RECORDS_PER_BATCH in *.
  apply check_records_inv in Hc as Hcov; [|lia|lia]. rewrite Z.add_0_r in Hcov.
  exists stop. split_and!; [done|done| |done]. destruct Hcov as [Hl _]. unfold zlen in *. lia.
Qed.

(** ** Matching a checked batch always succeeds *)

Lemma match_records_spec ws acc cs :
  exists acc', match_records ws acc cs = Ok acc' /\
    so_matches acc' = so_matches acc ++ omap (record_match ws) cs /\
    so_charges acc' = so_charges acc /\
    (so_covered_through acc', so_covered_block_hash acc') =
      from_option (fun r => (cr_height r, cr_block_hash r))
        (so_covered_through acc, so_covered_block_hash acc) (last cs) /\
    (so_filters_checked acc + zlen cs < u64_bound -> 0 <= so_filters_checked acc ->
     so_filters_checked acc' = so_filters_checked acc + zlen cs).
Proof.
  revert acc. induction cs as [|r cs IH]; intros acc; cbn [match_records].
  { exists acc. simpl. rewrite app_nil_r. split_and!; try done. unfold zlen; simpl; lia. }
  unfold match_record. unfold match_mapped. cbn [match_mapped].
  match goal with |- context [match_records ws ?a cs] => destruct (IH a) as (acc' & -> & Hm & Hc & Hl & Hf) end.
  exists acc'. split; [done|]. split_and!.
  - rewrite Hm. cbn [so_matches omap list_omap]. unfold record_match at 2. unfold match_scripts, match_mapped.
    destruct (merge_sort _ _); simpl; [done|]. by rewrite <- app_assoc.
  - by rewrite Hc.
  - rewrite Hl. rewrite last_cons. by destruct (last cs).
  - intros Hb Hz. rewrite zlen_cons in Hb. pose proof (zlen_nonneg cs).
    cbn [so_filters_checked] in Hf. unfold wrap64 in Hf. rewrite Z.mod_small in Hf by lia.
    rewrite Hf by lia. rewrite zlen_cons. lia.
Qed.

(** ** The loop *)

Record covered (ws : list ScriptBytes) (chain : C) (limits : FilterLimits)
    (request : RangeRequest) (start stop : Z) (acc out : SyncOutcome) (t t' : T)
    (exchanges : list (FilterBatch * ByteCharges)) (rs : list CheckedRecord) : Prop := {
  cov_fetches : fetches request start t exchanges t';
  cov_length : zlen rs = stop + 1 - start;
  cov_records : covers chain limits start (delivered exchanges) rs;
  cov_matches : so_matches out = so_matches acc ++ omap (record_match ws) rs;
  cov_last : (so_covered_through out, so_covered_block_hash out) =
    from_option (fun r => (cr_height r, cr_block_hash r))
      (so_covered_through acc, so_covered_block_hash acc) (last rs);
  cov_charges : so_charges out = charged (so_charges acc) exchanges;
  cov_checked : so_filters_checked out = so_filters_checked acc + zlen rs }.

Lemma covered_nil ws chain limits request stop acc t :
  covered ws chain limits request (stop + 1) stop acc acc t t [] [].
Proof.
  split; [constructor|change (zlen []) with 0; lia| |by rewrite app_nil_r|done|done|
          change (zlen []) with 0; lia].
  split; [done|]. by intros i raw r Hi.
Qed.

(** A non-empty range is covered through the stop block. *)
Lemma covered_through_stop ws chain limits request start stop acc out t t' exchanges rs :
  covered ws chain limits request start stop acc out t t' exchanges rs -> start <= stop ->
  so_covered_through out = stop /\ block_hash chain stop = Some (so_covered_block_hash out).
Proof.
  intros [_ Rl [Hlen Rc] _ Ra _ _] Hle.
  destruct (last rs) as [l|] eqn:Elast.
  2:{ apply last_None in Elast as ->. change (zlen []) with 0 in Rl. lia. }
  rewrite last_lookup in Elast. pose proof (lookup_lt_Some _ _ _ Elast) as Hlt.
  destruct (lookup_lt_is_Some_2 (delivered exchanges) (pred (length rs))) as [raw Hraw]; [lia|].
  destruct (Rc _ _ _ Hraw Elast) as (_ & Hlh & Hlb & Hlr & _).
  replace (start + Z.of_nat (pred (length rs))) with stop in * by (unfold zlen in Rl; lia).
  cbn [from_option] in Ra. injection Ra as -> ->. split; congruence.
Qed.

Lemma sync_loop_spec fuel request chain ws limits stop next acc t :
  height_of chain (rr_stop_block_hash request) = Some stop ->
  0 <= next <= stop + 1 -> stop < u64_bound - 1 -> stop - next < Z.of_nat fuel ->
  0 <= so_filters_checked acc -> so_filters_checked acc + (stop + 1 - next) < u64_bound ->
  exists r t', sync_loop fuel request chain ws limits stop next acc t = Some (r, t') /\
    forall out, r = Ok out ->
      exists exchanges rs, covered ws chain limits request next stop acc out t t' exchanges rs.
Proof.
  intros Hh. revert next acc t. induction fuel as [|fuel IH]; intros next acc t Hn Hs Hf Hz Hb;
    cbn [sync_loop]; destruct (next <=? stop) eqn:E; bool_prop; try lia.
  1,3: eexists _, _; split; [done|]; intros out [= <-]; exists [], [];
    replace next with (stop + 1) by lia; apply covered_nil.
  set (breq := {| rr_start_height := next |}).
  destruct (fetch_range breq t) as [[[batch charges]|e] t'] eqn:Ef; [|by eexists _, _].
  destruct (check_batch batch breq chain limits) as [cs|e] eqn:Ec; [|by eexists _, _].
  apply check_batch_inv in Ec as (stop' & Hh' & Hle & Hlen & Hcov);
    [|simpl; lia|intros s Hs'; simpl in Hs'; simplify_eq; lia].
  simpl in Hh'. simplify_eq. change (rr_start_height breq) with next in *.
  unfold MAX_RECORDS_PER_BATCH in Hlen.
  match goal with |- context [match_records ws ?a cs] =>
    destruct (match_records_spec ws a cs) as (acc1 & -> & Hm1 & Hc1 & Hl1 & Hf1) end.
  cbn [so_matches so_covered_through so_covered_block_hash so_filters_checked so_charges] in *.
  specialize (Hf1 ltac:(lia) ltac:(lia)).
  unfold wrap64. rewrite Z.mod_small by lia.
  destruct (IH (next + zlen cs) acc1 t') as (r & t2 & Hr & Hout); [lia..|].
  exists r, t2. split; [done|]. intros out Hok.
  destruct (Hout out Hok) as (exs & rs & [Rt Rl Rc Rm Ra Rg Rf]).
  exists ((batch, charges) :: exs), (cs ++ rs). split.
  - econstructor; [exact Ef|]. replace (zlen (fb_records batch)) with (zlen cs); [done|].
    destruct Hcov as [Hl _]. unfold zlen. lia.
  - rewrite zlen_app. lia.
  - by apply covers_app.
  - by rewrite Rm, Hm1, omap_app, app_assoc.
  - rewrite Ra, Hl1, last_app. by destruct (last rs).
  - by rewrite Rg, Hc1.
  - rewrite Rf, Hf1, zlen_app. lia.
Qed.
End client_lemmas.

(** ** ChainMap is an accepted chain *)

Lemma elem_of_btree_iter {V} (m : gmap Z V) k v : (k, v) ∈ btree_iter m <-> m !! k = Some v.
Proof. unfold btree_iter. rewrite merge_sort_Permutation. apply elem_of_map_to_list. Qed.

Lemma ChainMap_height_of_Some chain h n :
  height_of chain h = Some n -> by_height chain !! n = Some h.
Proof.
  cbn [height_of ChainMap_chain]. intros Hh. apply fmap_Some in Hh as ([k v] & Hd & ->).
  apply head_Some_elem_of, list_elem_of_filter in Hd as [Hv Hin]. simpl in *. subst.
  by apply elem_of_btree_iter.
Qed.

Lemma ChainMap_laws (chain : ChainMap) :
  map_Forall (fun k _ => 0 <= k < u64_bound - 1) (by_height chain) ->
  AcceptedChainLaws ChainMap chain.
Proof.
  intros Hk. split; intros h n Hh; apply ChainMap_height_of_Some in Hh as Hn; [done|].
  exact (Hk n h Hn).
Qed.

(** After a rollback the chain is exactly the entries at or below the height. *)
Lemma ChainMap_rollback_lookup chain height k :
  block_hash (ChainMap_rollback_to chain height) k =
  if k <=? height then block_hash chain k else None.
Proof.
  cbn [block_hash ChainMap_chain ChainMap_rollback_to by_height].
  destruct (k <=? height) eqn:E; bool_prop.
  - destruct (by_height chain !! k) as [v|] eqn:Hv.
    + apply map_lookup_filter_Some_2; [done|]. simpl. lia.
    + by apply map_lookup_filter_None_2; left.
  - apply map_lookup_filter_None_2. right. intros v _. simpl. lia.
Qed.

(** ** Properties *)


Definition sample_chain : ChainMap :=
  ChainMap_insert ChainMap_new START_HEIGHT (replicate 32 171).

Definition sample_request : RangeRequest := {|
  rr_genesis := replicate 32 8; rr_profile := PROFILE; rr_start_height := START_HEIGHT;
  rr_stop_block_hash := replicate 32 171 |}.

Definition sample_files : FileTransport := {|
  ft_directory := {[ START_HEIGHT := FilterBatch_encode {|
    fb_version := 1; fb_genesis := replicate 32 8; fb_profile := PROFILE;
    fb_start_height := START_HEIGHT; fb_stop_block_hash := replicate 32 171;
    fb_records := [{| rec_height := START_HEIGHT; rec_block_hash := replicate 32 171;
                      rec_filter := [0] |}] |} ]} |}.


(** The edge of [sync_range]: with a start more than one block above the stop
    block nothing is fetched or checked, and yet the outcome is [Ok] and names as
    covered a height (start - 1) whose filter was never validated, paired with
    the hash of a lower block. *)
Theorem sync_range_beyond_stop {C} `{AcceptedChain C} (chain : C)
    `{SipHash24} {T} `{FilterTransport T} request ws limits (t : T) stop :
  height_of chain (rr_stop_block_hash request) = Some stop -> 0 <= stop ->
  stop + 1 < rr_start_height request ->
  exists out, sync_range request chain ws limits t = Some (Ok out, t) /\
    so_covered_through out = rr_start_height request - 1 /\
    so_covered_through out > stop /\
    so_covered_block_hash out = rr_stop_block_hash request /\
    so_filters_checked out = 0.
Proof.
  intros Hh Hs Hlt. unfold sync_range. rewrite Hh. cbn [ok_or].
  destruct (sync_fuel stop (rr_start_height request)); cbn [sync_loop]; guards;
    (eexists; split; [done|]); cbn; unfold saturating_sub; split_and!; (done || lia).
Qed.

Lemma sync_range_beyond_stop_witness :
  exists out, @sync_range _ _ mulhash64 _ _
    {| rr_genesis := replicate 32 8; rr_profile := PROFILE;
       rr_start_height := START_HEIGHT + 10; rr_stop_block_hash := replicate 32 171 |}
    sample_chain [] ZCASH_MAINNET sample_files = Some (Ok out, sample_files) /\
    so_covered_through out = START_HEIGHT + 9.
Proof.
  destruct (@sync_range_beyond_stop ChainMap _ sample_chain mulhash64 FileTransport _
    {| rr_genesis := replicate 32 8; rr_profile := PROFILE;
       rr_start_height := START_HEIGHT + 10; rr_stop_block_hash := replicate 32 171 |}
    [] ZCASH_MAINNET sample_files START_HEIGHT) as (out & Hs & Hc & _).
  - vm_compute; reflexivity.
  - vm_compute; discriminate.
  - vm_compute; reflexivity.
  - exists out. split; [exact Hs|]. rewrite Hc. reflexivity.
Defined.
