(* ===== verification/FilterStore.v ===== *)
(** * The filter store

    Models [server/transparent-filter-server/src/store.rs].  The directory is a
    value ([disk]); an operation that writes returns the sequence of file
    operations it performs ([fop]) next to its result, so that a crash can be
    placed between any two of them or inside an append; an append that fails
    after a partial write is one of the examples at the end, other I/O errors are
    not modelled.  [meta.json] is kept as what it parses to, because
    JSON parsing belongs to [serde_json].

    The theorems show that the store refines an abstract map from block hash to
    filter bytes with a chain of covered hashes, that opening after a crash
    inside any run of appends recovers exactly the last committed state, and
    what goes wrong when the crash is inside a rollback. *)

From Stdlib Require Import ZArith Lia.
From stdpp Require Import base numbers list strings gmap.
From S2P Require Import Prelude FilterTypes Instances.

Open Scope Z_scope.

Definition STORE_VERSION : Z := 1.
Definition INDEX_RECORD_BYTES : Z := 32 + 8 + 4 + 32.
Definition CHAIN_RECORD_BYTES : Z := 32.

Inductive StoreError :=
| SE_Io (m : string)
| SE_Metadata (m : string)
| SE_Invariant (m : string).

Record Meta := {
  meta_version : Z; meta_profile : string; meta_genesis_hash : string; meta_start_height : Z }.

#[export] Instance Meta_eq_dec : EqDecision Meta.
Proof. solve_decision. Defined.

Record Located := { loc_offset : Z; loc_length : Z; loc_digest : list Z }.

Record StoredFilter := { sf_block_hash : BlockHash; sf_bytes : list Z; sf_digest : list Z }.

(** ** The directory *)

(** [None]: the file does not exist.  [f_meta]: the parsed metadata, or [None]
    inside when the text does not parse. *)
Record files := {
  f_meta : option (option Meta);
  f_filters : option (list Z);
  f_index : option (list Z);
  f_chain : option (list Z);
  f_checkpoint : option (list Z) }.

Definition no_files : files :=
  {| f_meta := None; f_filters := None; f_index := None; f_chain := None; f_checkpoint := None |}.

(** The directory and its [superseded-<label>] subdirectories, by label. *)
Record disk := { d_files : files; d_aside : gmap (option (Z * string)) files }.

Inductive fname := Filters | Index | Chain.

#[export] Instance fname_eq_dec : EqDecision fname.
Proof. solve_decision. Defined.

Definition file (d : files) (n : fname) : list Z :=
  default [] (match n with Filters => f_filters d | Index => f_index d | Chain => f_chain d end).

Definition set_file (d : files) (n : fname) (bs : list Z) : files := {|
  f_meta := f_meta d;
  f_filters := match n with Filters => Some bs | _ => f_filters d end;
  f_index := match n with Index => Some bs | _ => f_index d end;
  f_chain := match n with Chain => Some bs | _ => f_chain d end;
  f_checkpoint := f_checkpoint d |}.

Definition set_checkpoint (d : files) (bs : list Z) : files := {|
  f_meta := f_meta d; f_filters := f_filters d; f_index := f_index d; f_chain := f_chain d;
  f_checkpoint := Some bs |}.

(** [File::set_len]: cut, or extend with zeros. *)
Definition set_len (bs : list Z) (n : Z) : list Z :=
  take (Z.to_nat n) bs ++ replicate (Z.to_nat n - length bs) 0.

(** Durable file operations: an append with its [sync_all], a [set_len] with its
    [sync_all], and the checkpoint written to a temporary file and renamed. *)
Inductive fop :=
| Append (n : fname) (bs : list Z)
| SetLen (n : fname) (len : Z)
| Rename_checkpoint (bs : list Z).

Definition run_fop (d : files) (o : fop) : files :=
  match o with
  | Append n bs => set_file d n (file d n ++ bs)
  | SetLen n len => set_file d n (set_len (file d n) len)
  | Rename_checkpoint bs => set_checkpoint d bs
  end.

Definition run_fops : list fop -> files -> files := fun os d => foldl run_fop d os.

(** The directories a crash during [os] can leave: some operations done, and
    possibly a part of the next append. *)
Inductive crashed : list fop -> files -> files -> Prop :=
| crashed_now os d : crashed os d d
| crashed_torn n bs k os d :
    crashed (Append n bs :: os) d (set_file d n (file d n ++ take k bs))
| crashed_later o os d d' : crashed os (run_fop d o) d' -> crashed (o :: os) d d'.

(** ** FilterStore *)

Record FilterStore := {
  fs_meta : Meta;
  fs_by_hash : gmap BlockHash Located;
  fs_chain : list BlockHash;
  fs_filters_len : Z }.

Definition read_u64 (bytes : list Z) : Z := le_val bytes.

(** Moves every existing file into the superseded directory [label]. *)
Definition set_aside (d : disk) (label : option (Z * string)) : disk :=
  let old := default no_files (d_aside d !! label) in
  let new := d_files d in
  let move {A} (a b : option A) := match b with Some x => Some x | None => a end in
  {| d_files := no_files;
     d_aside := <[label := {|
       f_meta := move (f_meta old) (f_meta new);
       f_filters := move (f_filters old) (f_filters new);
       f_index := move (f_index old) (f_index new);
       f_chain := move (f_chain old) (f_chain new);
       f_checkpoint := move (f_checkpoint old) (f_checkpoint new) |}]> (d_aside d) |}.

(** The part of [open] before the checkpoint is read: compatible metadata and
    existing (possibly empty) files. *)
Definition open_prepare (d : disk) (wanted : Meta) : disk :=
  let d :=
    match f_meta (d_files d) with
    | None => d
    | Some found =>
        if bool_decide (found = Some wanted) then d
        else set_aside d ((fun m => (meta_version m, meta_profile m)) <$> found)
    end in
  let fs := d_files d in
  {| d_files := {|
       f_meta := match f_meta fs with None => Some (Some wanted) | m => m end;
       f_filters := Some (file fs Filters);
       f_index := Some (file fs Index);
       f_chain := Some (file fs Chain);
       f_checkpoint := f_checkpoint fs |};
     d_aside := d_aside d |}.

(** Truncates one file to its committed length. *)
Definition truncate_to (d : files) (n : fname) (len : Z) : result StoreError files :=
  if zlen (file d n) <? len
  then Err (SE_Invariant "{name} is shorter than its checkpoint")
  else Ok (set_file d n (set_len (file d n) len)).

(** The [chunks_exact(INDEX_RECORD_BYTES)] loop that rebuilds the map. *)
Definition parse_located (record : list Z) : BlockHash * Located :=
  (take 32 record,
   {| loc_offset := read_u64 (take 8 (drop 32 record));
      loc_length := le_val (take 4 (drop 40 record));
      loc_digest := take 32 (drop 44 record) |}).

Definition load_index (bytes : list Z) : gmap BlockHash Located :=
  foldl (fun m r => let '(h, l) := parse_located r in <[h := l]> m) ∅
    (chunks_exact (length bytes) (Z.to_nat INDEX_RECORD_BYTES) bytes).

Definition load_chain (bytes : list Z) : list BlockHash :=
  chunks_exact (length bytes) (Z.to_nat CHAIN_RECORD_BYTES) bytes.

Definition read_checkpoint (fs : files) : result StoreError (Z * Z * Z) :=
  match f_checkpoint fs with
  | None => Ok (0, 0, 0)
  | Some bytes =>
      if negb (zlen bytes =? 24) then Err (SE_Invariant "checkpoint is not 24 bytes")
      else Ok (read_u64 (take 8 bytes), read_u64 (take 8 (drop 8 bytes)),
               read_u64 (take 8 (drop 16 bytes)))
  end.

(** The part of [open] after the files exist. *)
Definition open_files (fs : files) (wanted : Meta) : result StoreError FilterStore * files :=
  match read_checkpoint fs with
  | Err e => (Err e, fs)
  | Ok (filters_len, index_len, chain_len) =>
  match truncate_to fs Filters filters_len with
  | Err e => (Err e, fs)
  | Ok fs =>
  match truncate_to fs Index index_len with
  | Err e => (Err e, fs)
  | Ok fs =>
  match truncate_to fs Chain chain_len with
  | Err e => (Err e, fs)
  | Ok fs =>
  if negb (zlen (file fs Index) mod INDEX_RECORD_BYTES =? 0)
  then (Err (SE_Invariant "index.bin is not a whole number of records"), fs) else
  if negb (zlen (file fs Chain) mod CHAIN_RECORD_BYTES =? 0)
  then (Err (SE_Invariant "chain.bin is not a whole number of records"), fs) else
  (Ok {| fs_meta := wanted;
         fs_by_hash := load_index (file fs Index);
         fs_chain := load_chain (file fs Chain);
         fs_filters_len := filters_len |}, fs)
  end end end end.

Definition FilterStore_open (d : disk) (profile genesis_hash : string) (start_height : Z) :
    result StoreError FilterStore * disk :=
  let wanted := {| meta_version := STORE_VERSION; meta_profile := profile;
                   meta_genesis_hash := genesis_hash; meta_start_height := start_height |} in
  let d := open_prepare d wanted in
  let '(r, fs) := open_files (d_files d) wanted in
  (r, {| d_files := fs; d_aside := d_aside d |}).

Definition FilterStore_filters_stored (s : FilterStore) : Z := Z.of_nat (size (fs_by_hash s)).

Definition FilterStore_covered_through (s : FilterStore) : option Z :=
  match fs_chain s with
  | [] => None
  | _ => Some (wrap64 (meta_start_height (fs_meta s) + zlen (fs_chain s) - 1))
  end.

Definition FilterStore_next_height (s : FilterStore) : Z :=
  match FilterStore_covered_through s with
  | None => meta_start_height (fs_meta s)
  | Some height => wrap64 (height + 1)
  end.

Definition FilterStore_block_hash_at (s : FilterStore) (height : Z) : option BlockHash :=
  let start := meta_start_height (fs_meta s) in
  if height <? start then None else fs_chain s !! Z.to_nat (height - start).

Definition FilterStore_height_of (s : FilterStore) (hash : BlockHash) : option Z :=
  (fun '(offset, _) => wrap64 (meta_start_height (fs_meta s) + Z.of_nat offset)) <$>
  list_find (eq hash) (fs_chain s).

Definition FilterStore_filter_by_hash (s : FilterStore) (d : files) (hash : BlockHash) :
    result StoreError (option StoredFilter) :=
  match fs_by_hash s !! hash with
  | None => Ok None
  | Some located =>
      let? bytes :=
        if loc_length located =? 0 then Ok []
        else ok_or (get_range (file d Filters) (loc_offset located)
                      (loc_offset located + loc_length located))
               (SE_Io "failed to fill whole buffer") in
      Ok (Some {| sf_block_hash := hash; sf_bytes := bytes; sf_digest := loc_digest located |})
  end.

Definition index_record (block_hash : BlockHash) (l : Located) : list Z :=
  block_hash ++ le_bytes 8 (loc_offset l) ++ le_bytes 4 (loc_length l) ++ loc_digest l.

Section append.
Context `{Sha256}.

Definition FilterStore_append (s : FilterStore) (height : Z) (block_hash : BlockHash)
    (filter : list Z) : result StoreError (FilterStore * list fop) :=
  if negb (height =? FilterStore_next_height s)
  then Err (SE_Invariant "block at height {height} does not follow coverage through {:?}") else
  let digest := filter_hash filter in
  let? (s, writes) :=
    match fs_by_hash s !! block_hash with
    | Some existing =>
        if negb (bool_decide (loc_digest existing = digest))
        then Err (SE_Invariant "block {} already has a filter with a different digest")
        else Ok (s, [])
    | None =>
        let located := {| loc_offset := fs_filters_len s;
                          loc_length := wrap32 (zlen filter); loc_digest := digest |} in
        Ok ({| fs_meta := fs_meta s;
               fs_by_hash := <[block_hash := located]> (fs_by_hash s);
               fs_chain := fs_chain s;
               fs_filters_len := wrap64 (fs_filters_len s + zlen filter) |},
            [Append Filters filter; Append Index (index_record block_hash located)])
    end in
  Ok ({| fs_meta := fs_meta s; fs_by_hash := fs_by_hash s;
         fs_chain := fs_chain s ++ [block_hash]; fs_filters_len := fs_filters_len s |},
      writes ++ [Append Chain block_hash]).
End append.

Definition FilterStore_commit (s : FilterStore) : list fop :=
  [Rename_checkpoint
     (le_bytes 8 (fs_filters_len s) ++
      le_bytes 8 (Z.of_nat (size (fs_by_hash s)) * INDEX_RECORD_BYTES) ++
      le_bytes 8 (zlen (fs_chain s) * CHAIN_RECORD_BYTES))].

Definition FilterStore_rollback_to (s : FilterStore) (height : option Z) :
    FilterStore * list fop :=
  let start := meta_start_height (fs_meta s) in
  let keep :=
    match height with
    | None => 0
    | Some height =>
        if height <? start then 0
        else Z.min (wrap64 (height - start + 1)) (zlen (fs_chain s))
    end in
  let s := {| fs_meta := fs_meta s; fs_by_hash := fs_by_hash s;
              fs_chain := take (Z.to_nat keep) (fs_chain s);
              fs_filters_len := fs_filters_len s |} in
  (s, SetLen Chain (keep * CHAIN_RECORD_BYTES) :: FilterStore_commit s).

(** ** Lemmas on files *)

Lemma file_set_file d n bs m :
  file (set_file d n bs) m = if decide (n = m) then bs else file d m.
Proof. by destruct n, m. Qed.

Lemma set_len_prefix xs ys : set_len (xs ++ ys) (zlen xs) = xs.
Proof.
  unfold set_len, zlen. rewrite Nat2Z.id, take_app_length, length_app.
  replace (length xs - _)%nat with 0%nat by lia. apply app_nil_r.
Qed.

(** ** Entries *)

Definition entry_ok (e : BlockHash * Located) : Prop :=
  hash_ok (fst e) /\ hash_ok (loc_digest (snd e)) /\
  u64 (loc_offset (snd e)) /\ u32 (loc_length (snd e)).

Definition enc_entry (e : BlockHash * Located) : list Z := index_record (fst e) (snd e).

Lemma length_enc_entry e : entry_ok e -> length (enc_entry e) = Z.to_nat INDEX_RECORD_BYTES.
Proof.
  intros ([H1 _] & [H2 _] & _). unfold enc_entry, index_record.
  rewrite !length_app, !length_le_bytes, H1, H2. done.
Qed.

Lemma parse_enc_entry e : entry_ok e -> parse_located (enc_entry e) = e.
Proof.
  destruct e as [h [off len dig]]. intros ([H1 _] & [H2 _] & Ho & Hl). simpl in *.
  unfold parse_located, enc_entry, index_record, read_u64. cbn [fst snd loc_offset loc_length loc_digest].
  rewrite (take_app_length' h), (drop_app_length' h) by done.
  rewrite (take_app_length' (le_bytes 8 off)) by (by rewrite length_le_bytes).
  rewrite (app_assoc h), (drop_app_length' (h ++ _))
    by (rewrite length_app, length_le_bytes, H1; done).
  rewrite (take_app_length' (le_bytes 4 len)) by (by rewrite length_le_bytes).
  rewrite (app_assoc (h ++ _)), (drop_app_length' ((h ++ _) ++ _))
    by (rewrite !length_app, !length_le_bytes, H1; done).
  rewrite !le_val_le_bytes by (done || by apply u64_pow).
  by rewrite take_ge by lia.
Qed.

Lemma foldl_insert_list_to_map (es : list (BlockHash * Located)) (m : gmap BlockHash Located) :
  NoDup es.*1 ->
  foldl (fun m e => <[fst e := snd e]> m) m es = list_to_map es ∪ m.
Proof.
  revert m. induction es as [|[h l] es IH]; intros m Hn; cbn [foldl list_to_map foldr].
  { by rewrite (left_id_L ∅ (∪)). }
  simpl in Hn. apply NoDup_cons in Hn as [Hh Hn]. rewrite IH by done. cbn [fst snd].
  change (list_to_map ((h, l) :: es)) with (<[h := l]> (list_to_map es : gmap BlockHash Located)).
  rewrite <- insert_union_l, insert_union_r; [done|]. by apply not_elem_of_list_to_map_1.
Qed.

Lemma load_index_enc es :
  NoDup es.*1 -> Forall entry_ok es ->
  load_index (concat (enc_entry <$> es)) = list_to_map es.
Proof.
  intros Hn He. unfold load_index. rewrite chunks_exact_concat; [|unfold INDEX_RECORD_BYTES; lia| |lia].
  2:{ apply Forall_fmap. eapply Forall_impl; [exact He|]. apply length_enc_entry. }
  transitivity (foldl (fun m e => <[fst e := snd e]> m) (∅ : gmap BlockHash Located) es).
  - generalize (∅ : gmap BlockHash Located). clear Hn.
    induction He as [|e es He _ IH]; intros m; [done|].
    rewrite fmap_cons. cbn [foldl]. rewrite parse_enc_entry by done. destruct e. apply IH.
  - rewrite foldl_insert_list_to_map by done. apply (right_id_L ∅ (∪)).
Qed.

Lemma load_chain_enc ch : Forall hash_ok ch -> load_chain (concat ch) = ch.
Proof.
  intros Hc. unfold load_chain. apply chunks_exact_concat; [unfold CHAIN_RECORD_BYTES; lia| |lia].
  eapply Forall_impl; [exact Hc|]. by intros h [? _].
Qed.

(** ** The representation invariant *)

Section invariant.
Context `{Sha256Laws}.

(** The bytes an entry points at, and that its digest is theirs. *)
Definition holds (filters : list Z) (e : BlockHash * Located) (bytes : list Z) : Prop :=
  get_range filters (loc_offset (snd e)) (loc_offset (snd e) + loc_length (snd e)) = Some bytes /\
  loc_digest (snd e) = filter_hash bytes.

Record repr (s : FilterStore) (d : files) (es : list (BlockHash * Located)) : Prop := {
  r_map : fs_by_hash s = list_to_map es;
  r_nodup : NoDup es.*1;
  r_entries : Forall entry_ok es;
  r_content : Forall (fun e => exists bytes, holds (file d Filters) e bytes) es;
  r_hashes : Forall hash_ok (fs_chain s);
  r_covered : Forall (fun h => h ∈ es.*1) (fs_chain s);
  r_index : file d Index = concat (enc_entry <$> es);
  r_chain : file d Chain = concat (fs_chain s);
  r_filters : fs_filters_len s = zlen (file d Filters) }.

(** The lengths a checkpoint records fit in 64 bits. *)
Definition small (s : FilterStore) : Prop :=
  0 <= fs_filters_len s < u64_bound /\
  Z.of_nat (size (fs_by_hash s)) * INDEX_RECORD_BYTES < u64_bound /\
  zlen (fs_chain s) * CHAIN_RECORD_BYTES < u64_bound.

(** [s] is the state the checkpoint of [d] describes: the files of [d] extend the
    files that represent [s]. *)
Definition committed (s : FilterStore) (d : files) (es : list (BlockHash * Located)) : Prop :=
  exists d0, repr s d0 es /\ (forall n, file d0 n `prefix_of` file d n) /\
    read_checkpoint d = Ok (fs_filters_len s,
      Z.of_nat (size (fs_by_hash s)) * INDEX_RECORD_BYTES,
      zlen (fs_chain s) * CHAIN_RECORD_BYTES).

Lemma repr_zlen_index s d es :
  repr s d es -> zlen (file d Index) = Z.of_nat (size (fs_by_hash s)) * INDEX_RECORD_BYTES.
Proof.
  intros Hr. rewrite (r_index _ _ _ Hr), (zlen_concat _ INDEX_RECORD_BYTES).
  - rewrite (r_map _ _ _ Hr), map_size_list_to_map by apply Hr.
    unfold zlen. rewrite length_fmap. lia.
  - apply Forall_fmap. eapply Forall_impl; [apply Hr|]. intros e He.
    unfold compose, zlen. by rewrite length_enc_entry.
Qed.

Lemma repr_zlen_chain s d es :
  repr s d es -> zlen (file d Chain) = zlen (fs_chain s) * CHAIN_RECORD_BYTES.
Proof.
  intros Hr. rewrite (r_chain _ _ _ Hr), (zlen_concat _ CHAIN_RECORD_BYTES); [apply Z.mul_comm|].
  eapply Forall_impl; [apply Hr|]. apply zlen_hash.
Qed.

(** Only the contents of the three data files matter to [repr]. *)
Lemma repr_ext s d d' es :
  (forall n, file d' n = file d n) -> repr s d es -> repr s d' es.
Proof.
  intros Hf [Hm Hn He Hc Hh Hcov Hi Hch Hfl].
  split; rewrite ?Hf; done.
Qed.

Lemma truncate_to_prefix d n xs len :
  xs `prefix_of` file d n -> zlen xs = len ->
  truncate_to d n len = Ok (set_file d n xs).
Proof.
  intros [ys Hy] <-. unfold truncate_to. rewrite Hy.
  pose proof (zlen_nonneg ys). rewrite zlen_app. guards. by rewrite set_len_prefix.
Qed.

(** ** Recovery *)

Lemma open_committed s d es :
  committed s d es ->
  exists d', open_files d (fs_meta s) = (Ok s, d') /\ repr s d' es /\ committed s d' es /\
    forall n, file d' n `prefix_of` file d n.
Proof.
  intros (d0 & Hr & Hp & Hck). unfold open_files. rewrite Hck.
  rewrite (truncate_to_prefix d Filters (file d0 Filters)) by (done || by rewrite (r_filters _ _ _ Hr)).
  rewrite (truncate_to_prefix _ Index (file d0 Index)); cycle 1.
  { rewrite file_set_file. simpl. apply Hp. } { by apply repr_zlen_index with es. }
  rewrite (truncate_to_prefix _ Chain (file d0 Chain)); cycle 1.
  { rewrite !file_set_file. simpl. apply Hp. } { by apply repr_zlen_chain with es. }
  set (d' := set_file _ Chain _).
  assert (forall n, file d' n = file d0 n) as Hf.
  { intros n. unfold d'. rewrite !file_set_file. by destruct n. }
  rewrite !Hf. rewrite (repr_zlen_index _ _ _ Hr), (repr_zlen_chain _ _ _ Hr).
  rewrite !Z.mod_mul by done. cbn [negb Z.eqb].
  exists d'. split; [|split; [by apply repr_ext with d0|split; [|intros n; rewrite Hf; apply Hp]]].
  - rewrite (r_index _ _ _ Hr), (r_chain _ _ _ Hr), load_index_enc, load_chain_enc by apply Hr.
    rewrite <- (r_map _ _ _ Hr). by destruct s.
  - exists d0. split; [done|]. split; [intros n; by rewrite Hf|]. exact Hck.
Qed.

(** An append, torn or whole, leaves the committed state in place. *)
Lemma committed_append s d es n bs :
  committed s d es -> committed s (set_file d n (file d n ++ bs)) es.
Proof.
  intros (d0 & Hr & Hp & Hck). exists d0. split; [done|]. split; [|exact Hck].
  intros m. rewrite file_set_file. destruct (decide (n = m)) as [->|]; [|done].
  by apply prefix_app_r.
Qed.

Definition is_append (o : fop) : Prop := match o with Append _ _ => True | _ => False end.

Lemma committed_crash s d es os d' :
  Forall is_append os -> crashed os d d' -> committed s d es -> committed s d' es.
Proof.
  intros Ho Hc. induction Hc as [os d|n bs k os d|o os d d' Hc IH]; intros Hs; [done| |].
  - by apply committed_append.
  - apply Forall_cons in Ho as [Ho Hos]. destruct o as [n bs| |]; [|done|done].
    apply IH; [done|]. by apply committed_append.
Qed.

Lemma committed_run s d es os :
  Forall is_append os -> committed s d es -> committed s (run_fops os d) es.
Proof.
  intros Ho. revert d. induction Ho as [|o os Ho _ IH]; intros d Hs; [done|].
  destruct o as [n bs| |]; [|done|done]. by apply IH, committed_append.
Qed.

(** Writing the checkpoint commits the represented state. *)
Lemma commit_committed s d es :
  repr s d es -> small s -> committed s (run_fops (FilterStore_commit s) d) es.
Proof.
  intros Hr (Hf & Hi & Hc). exists d. split; [done|]. split; [by intros []|].
  unfold read_checkpoint, FilterStore_commit. cbn [run_fops foldl run_fop set_checkpoint f_checkpoint].
  rewrite !zlen_app, !zlen_le_bytes. simpl (negb _). cbv iota. unfold read_u64.
  pose proof (zlen_nonneg (fs_chain s)).
  rewrite (take_app_length' (le_bytes 8 _)), (drop_app_length' (le_bytes 8 _)) by (by rewrite length_le_bytes).
  rewrite (take_app_length' (le_bytes 8 _)) by (by rewrite length_le_bytes).
  rewrite (app_assoc (le_bytes 8 _)), (drop_app_length' (le_bytes 8 _ ++ _))
    by (by rewrite length_app, !length_le_bytes).
  rewrite (take_ge (le_bytes 8 _)) by (rewrite length_le_bytes; lia).
  unfold INDEX_RECORD_BYTES, CHAIN_RECORD_BYTES in *.
  rewrite !le_val_le_bytes by (apply (proj1 (u64_pow _)); unfold u64; lia). done.
Qed.

(** ** Operations preserve the invariant *)

Lemma get_range_extend {A} (l k x : list A) a b :
  0 <= a -> get_range l a b = Some x -> get_range (l ++ k) a b = Some x.
Proof.
  intros Ha. unfold get_range. destruct ((a <=? b) && (b <=? zlen l)) eqn:E; [|done].
  bool_prop. intros [= <-]. pose proof (zlen_nonneg k). rewrite zlen_app. guards. simpl.
  f_equal. unfold zlen in *. rewrite drop_app_le by lia.
  apply take_app_le. rewrite length_drop. lia.
Qed.

Lemma repr_lookup s d es h l :
  repr s d es -> fs_by_hash s !! h = Some l -> (h, l) ∈ es.
Proof. intros Hr Hl. rewrite (r_map _ _ _ Hr) in Hl. by apply elem_of_list_to_map_2. Qed.

Lemma repr_chain_append s d es h :
  repr s d es -> hash_ok h -> h ∈ es.*1 ->
  repr {| fs_meta := fs_meta s; fs_by_hash := fs_by_hash s; fs_chain := fs_chain s ++ [h];
          fs_filters_len := fs_filters_len s |}
       (run_fop d (Append Chain h)) es.
Proof.
  intros [Hm Hn He Hc Hh Hcov Hi Hch Hfl] Hok Hin.
  split; cbn [fs_by_hash fs_chain fs_filters_len run_fop]; rewrite ?file_set_file;
    cbn [decide]; try done.
  - apply Forall_app. auto.
  - apply Forall_app. auto.
  - simpl. rewrite Hch, concat_app. simpl. by rewrite app_nil_r.
Qed.

Lemma repr_store s d es h filter :
  repr s d es -> hash_ok h -> fs_by_hash s !! h = None ->
  zlen filter < 2 ^ 32 -> fs_filters_len s + zlen filter < u64_bound ->
  let l := {| loc_offset := fs_filters_len s; loc_length := wrap32 (zlen filter);
              loc_digest := filter_hash filter |} in
  repr {| fs_meta := fs_meta s; fs_by_hash := <[h := l]> (fs_by_hash s);
          fs_chain := fs_chain s; fs_filters_len := wrap64 (fs_filters_len s + zlen filter) |}
       (run_fops [Append Filters filter; Append Index (index_record h l)] d) (es ++ [(h, l)]) /\
  holds (file d Filters ++ filter) (h, l) filter.
Proof.
  intros [Hm Hn He Hc Hh Hcov Hi Hch Hfl] Hok Hno Hlen Hu l.
  pose proof (zlen_nonneg filter) as Hf0. pose proof (zlen_nonneg (file d Filters)) as Hd0.
  assert (wrap32 (zlen filter) = zlen filter) as Hw by (unfold wrap32; apply Z.mod_small; lia).
  assert (h ∉ es.*1) as Hni by (rewrite Hm in Hno; by apply not_elem_of_list_to_map_2 in Hno).
  assert (holds (file d Filters ++ filter) (h, l) filter) as Hnew.
  { split; [|done]. cbn [snd loc_offset loc_length l]. rewrite Hw, Hfl.
    rewrite <- (app_nil_r filter) at 1. apply get_range_app. }
  split; [|done].
  split; cbn [fs_by_hash fs_chain fs_filters_len run_fops foldl run_fop];
    rewrite ?file_set_file; simpl; try done.
  - rewrite Hm. by rewrite list_to_map_snoc.
  - rewrite fmap_app. apply NoDup_app. split_and!; [done| |apply NoDup_singleton].
    simpl. intros x Hx ->%list_elem_of_singleton. done.
  - apply Forall_app. split; [done|]. apply Forall_singleton. unfold entry_ok, u64, u32. simpl.
    rewrite Hw. split_and!; try done; try lia; apply filter_hash_ok.
  - apply Forall_app. split; [|apply Forall_singleton; eauto].
    rewrite Forall_forall in *. intros e Hin. destruct (Hc e Hin) as (bytes & Hb & Hd).
    exists bytes. split; [|done]. apply get_range_extend; [|done]. apply (He e Hin).
  - eapply Forall_impl; [exact Hcov|]. intros x Hx. rewrite fmap_app.
    apply elem_of_app. by left.
  - rewrite Hi, fmap_app, concat_app. simpl. by rewrite app_nil_r.
  - unfold wrap64. rewrite Z.mod_small, zlen_app by lia. lia.
Qed.

(** What [append] does to the invariant and to the stored bytes. *)
Lemma append_repr s d es height h filter s' ops :
  repr s d es -> hash_ok h -> zlen filter < 2 ^ 32 ->
  fs_filters_len s + zlen filter < u64_bound ->
  FilterStore_append s height h filter = Ok (s', ops) ->
  height = FilterStore_next_height s /\ Forall is_append ops /\
  fs_meta s' = fs_meta s /\ fs_chain s' = fs_chain s ++ [h] /\
  exists es', repr s' (run_fops ops d) es' /\
    ((fs_by_hash s !! h = None /\ file (run_fops ops d) Filters = file d Filters ++ filter /\
      exists l, es' = es ++ [(h, l)] /\ holds (file d Filters ++ filter) (h, l) filter) \/
     (exists l, fs_by_hash s !! h = Some l /\ loc_digest l = filter_hash filter /\ es' = es /\
      file (run_fops ops d) Filters = file d Filters)).
Proof.
  intros Hr Hok Hlen Hu H1. unfold FilterStore_append in H1.
  destruct (height =? _) eqn:Eh; [|done]. bool_prop. simpl in H1. split; [done|].
  destruct (fs_by_hash s !! h) as [l|] eqn:El.
  - case_bool_decide as Ed; [|done]. simpl in H1. injection H1 as <- <-.
    split; [by repeat constructor|]. split; [done|]. split; [done|]. exists es.
    assert (h ∈ es.*1) as Hin.
    { apply (repr_lookup _ _ _ _ _ Hr) in El. apply list_elem_of_fmap. by exists (h, l). }
    split; [by apply repr_chain_append|]. right. exists l. by split_and!.
  - injection H1 as <- <-. split; [by repeat constructor|]. split; [done|]. split; [done|].
    destruct (repr_store s d es h filter Hr Hok El Hlen Hu) as [Hr' Hnew].
    eexists. split.
    + eapply (repr_chain_append _ _ _ h) in Hr'; [exact Hr'|done|].
      rewrite fmap_app. apply elem_of_app. right. apply list_elem_of_here.
    + left. split; [done|]. split; [done|]. by eexists.
Qed.

(** ** The abstract store *)

(** Immutable filters by block hash, and the covered hashes in height order. *)
Record AbsStore := { a_filters : gmap BlockHash (list Z); a_chain : list BlockHash }.

Definition abs_append (a : AbsStore) (h : BlockHash) (filter : list Z) : AbsStore := {|
  a_filters := match a_filters a !! h with
               | None => <[h := filter]> (a_filters a) | Some _ => a_filters a end;
  a_chain := a_chain a ++ [h] |}.

(** Every read of the concrete store answers what the abstract one holds. *)
Definition abs (s : FilterStore) (d : files) (a : AbsStore) : Prop :=
  a_chain a = fs_chain s /\
  forall h, FilterStore_filter_by_hash s d h =
    Ok ((fun b => {| sf_block_hash := h; sf_bytes := b; sf_digest := filter_hash b |}) <$>
        a_filters a !! h).

Lemma filter_by_hash_repr s d es h :
  repr s d es ->
  FilterStore_filter_by_hash s d h =
  match fs_by_hash s !! h with
  | None => Ok None
  | Some l =>
      Ok (Some {| sf_block_hash := h;
        sf_bytes := default [] (get_range (file d Filters) (loc_offset l) (loc_offset l + loc_length l));
        sf_digest := loc_digest l |})
  end /\
  forall l, fs_by_hash s !! h = Some l -> exists bytes, holds (file d Filters) (h, l) bytes.
Proof.
  intros Hr. unfold FilterStore_filter_by_hash.
  destruct (fs_by_hash s !! h) as [l|] eqn:El; [|done].
  apply (repr_lookup _ _ _ _ _ Hr) in El.
  pose proof (r_content _ _ _ Hr) as Hc. rewrite Forall_forall in Hc.
  destruct (Hc _ El) as (bytes & Hb). split; [|intros l' [= <-]; eauto].
  destruct Hb as [Hb Hd]. cbn [snd] in Hb.
  destruct (loc_length l =? 0) eqn:E0; bool_prop; rewrite Hb; [|done]. simpl.
  rewrite E0 in Hb.
  pose proof (r_entries _ _ _ Hr) as He. rewrite Forall_forall in He.
  destruct (He _ El) as (_ & _ & Ho & _). unfold u64 in Ho. simpl in Ho.
  apply get_range_Some in Hb as (_ & Hz & _); [|lia].
  replace bytes with (@nil Z); [done|]. symmetry. apply length_zero_iff_nil.
  unfold zlen in Hz. lia.
Qed.

Lemma abs_lookup s d es a h :
  repr s d es -> abs s d a ->
  match fs_by_hash s !! h with
  | None => a_filters a !! h = None
  | Some l => exists b, a_filters a !! h = Some b /\ holds (file d Filters) (h, l) b
  end.
Proof.
  intros Hr [_ Ha]. destruct (filter_by_hash_repr s d es h Hr) as [Hf Hh].
  specialize (Ha h). rewrite Hf in Ha. destruct (fs_by_hash s !! h) as [l|].
  - destruct (Hh l eq_refl) as (b & Hb & Hd). cbn [snd] in Hb. rewrite Hb in Ha.
    destruct (a_filters a !! h) as [b'|]; [|done]. simpl in Ha. injection Ha as -> _.
    exists b'. by split.
  - by destruct (a_filters a !! h).
Qed.

Lemma abs_of_lookup s d es a :
  repr s d es -> a_chain a = fs_chain s ->
  (forall h, match fs_by_hash s !! h with
    | None => a_filters a !! h = None
    | Some l => exists b, a_filters a !! h = Some b /\ holds (file d Filters) (h, l) b
    end) -> abs s d a.
Proof.
  intros Hr Hc Ha. split; [done|]. intros h. specialize (Ha h).
  rewrite (proj1 (filter_by_hash_repr s d es h Hr)).
  destruct (fs_by_hash s !! h) as [l|]; [|by rewrite Ha].
  destruct Ha as (b & -> & Hb & Hd). cbn [snd] in Hb, Hd. by rewrite Hb, Hd.
Qed.

Lemma append_refines s d es a height h filter s' ops :
  repr s d es -> abs s d a -> hash_ok h -> zlen filter < 2 ^ 32 ->
  fs_filters_len s + zlen filter < u64_bound ->
  FilterStore_append s height h filter = Ok (s', ops) ->
  exists es', repr s' (run_fops ops d) es' /\ abs s' (run_fops ops d) (abs_append a h filter).
Proof.
  intros Hr Ha Hok Hlen Hu H1.
  destruct (append_repr _ _ _ _ _ _ _ _ Hr Hok Hlen Hu H1)
    as (_ & _ & _ & Hch & es' & Hr' & Hcase).
  exists es'. split; [done|]. apply (abs_of_lookup _ _ es'); [done| |].
  { unfold abs_append. simpl. by rewrite (proj1 Ha), Hch. }
  intros h'. rewrite (r_map _ _ _ Hr'). unfold abs_append. cbn [a_filters].
  pose proof (abs_lookup _ _ _ _ h' Hr Ha) as Hl. rewrite (r_map _ _ _ Hr) in Hl.
  destruct Hcase as [(Hno & -> & l & -> & Hnew)|(l & Hl' & _ & -> & ->)].
  - pose proof (abs_lookup _ _ _ _ h Hr Ha) as Hh. rewrite Hno in Hh. rewrite Hh.
    rewrite (r_map _ _ _ Hr) in Hno.
    rewrite list_to_map_snoc by (by apply not_elem_of_list_to_map_2).
    destruct (decide (h = h')) as [<-|Hne].
    + rewrite !lookup_insert_eq. eauto.
    + rewrite !lookup_insert_ne by done.
      destruct (list_to_map es !! h') as [l'|] eqn:El; [|done].
      destruct Hl as (b & Hb & Hb1 & Hb2). exists b. split; [done|]. split; [|done].
      apply get_range_extend; [|done].
      pose proof (r_entries _ _ _ Hr) as He. rewrite Forall_forall in He.
      apply elem_of_list_to_map_2 in El. by apply (He _ El).
  - pose proof (abs_lookup _ _ _ _ h Hr Ha) as Hh. rewrite Hl' in Hh.
    destruct Hh as (b & -> & _). exact Hl.
Qed.

(** ** Runs of appends and crashes *)

Fixpoint run_appends (s : FilterStore) (bs : list (Z * BlockHash * list Z)) :
    result StoreError (FilterStore * list fop) :=
  match bs with
  | [] => Ok (s, [])
  | (height, h, filter) :: bs =>
      let? (s1, ops1) := FilterStore_append s height h filter in
      let? (s2, ops2) := run_appends s1 bs in
      Ok (s2, ops1 ++ ops2)
  end.

Fixpoint filters_total (bs : list (Z * BlockHash * list Z)) : Z :=
  match bs with [] => 0 | (_, _, filter) :: bs => zlen filter + filters_total bs end.

Definition block_ok (b : Z * BlockHash * list Z) : Prop :=
  hash_ok (snd (fst b)) /\ zlen (snd b) < 2 ^ 32.

Lemma run_fops_app a b d : run_fops (a ++ b) d = run_fops b (run_fops a d).
Proof. apply foldl_app. Qed.

Lemma filters_total_nonneg bs : 0 <= filters_total bs.
Proof.
  induction bs as [|[[z h] f] bs IH]; simpl; [lia|]. pose proof (zlen_nonneg f). lia.
Qed.

Lemma append_filters_len s height h filter s' ops :
  0 <= fs_filters_len s -> fs_filters_len s + zlen filter < u64_bound ->
  FilterStore_append s height h filter = Ok (s', ops) ->
  0 <= fs_filters_len s' <= fs_filters_len s + zlen filter.
Proof.
  intros H0 Hu H1. unfold FilterStore_append in H1. pose proof (zlen_nonneg filter).
  destruct (height =? _); [|done]. simpl in H1.
  destruct (fs_by_hash s !! h) as [l|].
  - case_bool_decide; [|done]. injection H1 as <- <-. simpl. lia.
  - injection H1 as <- <-. simpl. unfold wrap64. rewrite Z.mod_small; lia.
Qed.

Lemma run_appends_repr s d es bs s' ops :
  repr s d es -> Forall block_ok bs ->
  fs_filters_len s + filters_total bs < u64_bound ->
  run_appends s bs = Ok (s', ops) ->
  Forall is_append ops /\ fs_meta s' = fs_meta s /\
  fs_chain s' = fs_chain s ++ ((fun b => snd (fst b)) <$> bs) /\
  exists es', repr s' (run_fops ops d) es'.
Proof.
  intros Hr Hb. revert s d es s' ops Hr. induction Hb as [|[[z h] f] bs [Hok Hlen] Hb IH];
    intros s d es s' ops Hr Hu Hrun; cbn [run_appends filters_total] in *.
  { injection Hrun as <- <-. rewrite app_nil_r. repeat split; [constructor|eauto]. }
  simpl in Hok, Hlen. pose proof (filters_total_nonneg bs).
  destruct (FilterStore_append s z h f) as [[s1 ops1]|] eqn:E1; [|done].
  destruct (run_appends s1 bs) as [[s2 ops2]|] eqn:E2; [|done]. injection Hrun as <- <-.
  assert (0 <= fs_filters_len s) by (rewrite (r_filters _ _ _ Hr); apply zlen_nonneg).
  pose proof (append_filters_len s z h f s1 ops1 ltac:(lia) ltac:(lia) E1).
  destruct (append_repr s d es z h f s1 ops1 Hr Hok Hlen ltac:(lia) E1)
    as (_ & Ha1 & Hm1 & Hc1 & es1 & Hr1 & _).
  destruct (IH s1 (run_fops ops1 d) es1 s2 ops2 Hr1 ltac:(lia) E2) as (Ha2 & Hm2 & Hc2 & es2 & Hr2).
  split; [by apply Forall_app|]. split; [congruence|]. split.
  - rewrite Hc2, Hc1, <- app_assoc. done.
  - rewrite run_fops_app. eauto.
Qed.

Lemma crashed_app a b d d' :
  crashed (a ++ b) d d' -> crashed a d d' \/ crashed b (run_fops a d) d'.
Proof.
  revert d. induction a as [|o a IH]; intros d Hc; [by right|].
  change (run_fops (o :: a) d) with (run_fops a (run_fop d o)).
  simpl in Hc. inversion Hc as [| |? ? ? ? Hc']; subst; [left; constructor|left; constructor|].
  destruct (IH _ Hc') as [Hl|Hr]; [left; by constructor|by right].
Qed.

Lemma crashed_commit s d d' :
  crashed (FilterStore_commit s) d d' -> d' = d \/ d' = run_fops (FilterStore_commit s) d.
Proof.
  intros Hc. inversion Hc as [| |? ? ? ? Hc']; subst; [by left|].
  inversion Hc'; subst. by right.
Qed.

(** ** Rollback *)

Definition rollback_keep (s : FilterStore) (height : option Z) : Z :=
  match height with
  | None => 0
  | Some height =>
      if height <? meta_start_height (fs_meta s) then 0
      else Z.min (wrap64 (height - meta_start_height (fs_meta s) + 1)) (zlen (fs_chain s))
  end.

Lemma rollback_keep_range s height : 0 <= rollback_keep s height <= zlen (fs_chain s).
Proof.
  unfold rollback_keep. pose proof (zlen_nonneg (fs_chain s)).
  destruct height as [height|]; [|lia]. destruct (height <? _); [lia|].
  pose proof (Z.mod_pos_bound (height - meta_start_height (fs_meta s) + 1) u64_bound ltac:(done)).
  unfold wrap64. lia.
Qed.

Lemma zlen_concat_take s d es n :
  repr s d es -> 0 <= n <= zlen (fs_chain s) ->
  zlen (concat (take (Z.to_nat n) (fs_chain s))) = n * CHAIN_RECORD_BYTES.
Proof.
  intros Hr Hn. rewrite (zlen_concat _ CHAIN_RECORD_BYTES).
  - unfold zlen, BlockHash in *. rewrite length_take. unfold CHAIN_RECORD_BYTES. lia.
  - apply Forall_take. eapply Forall_impl; [apply Hr|]. apply zlen_hash.
Qed.

Lemma rollback_repr s d es height s' ops :
  repr s d es -> FilterStore_rollback_to s height = (s', ops) ->
  repr s' (run_fop d (SetLen Chain (rollback_keep s height * CHAIN_RECORD_BYTES))) es /\
  ops = SetLen Chain (rollback_keep s height * CHAIN_RECORD_BYTES) :: FilterStore_commit s' /\
  fs_chain s' = take (Z.to_nat (rollback_keep s height)) (fs_chain s) /\
  fs_meta s' = fs_meta s /\ fs_by_hash s' = fs_by_hash s /\ (small s -> small s').
Proof.
  intros Hr Hrb. pose proof (rollback_keep_range s height) as Hk.
  unfold FilterStore_rollback_to in Hrb. fold (rollback_keep s height) in Hrb.
  injection Hrb as <- <-. cbn [fs_chain fs_meta fs_by_hash].
  split_and!; try done.
  - assert (file (run_fop d (SetLen Chain (rollback_keep s height * CHAIN_RECORD_BYTES))) Chain
            = concat (take (Z.to_nat (rollback_keep s height)) (fs_chain s))) as Hch.
    { cbn [run_fop]. rewrite file_set_file. simpl.
      rewrite (r_chain _ _ _ Hr), <- (zlen_concat_take _ _ _ _ Hr Hk).
      rewrite <- (take_drop (Z.to_nat (rollback_keep s height)) (fs_chain s)) at 1.
      rewrite concat_app. apply set_len_prefix. }
    destruct Hr as [Hm Hn He Hc Hh Hcov Hi _ Hfl].
    split; cbn [fs_by_hash fs_chain fs_filters_len]; try done; by apply Forall_take.
  - intros (Hf & Hi & Hc). split_and!; cbn [fs_filters_len fs_by_hash fs_chain]; try done; try lia.
    unfold zlen in *. rewrite length_take. unfold CHAIN_RECORD_BYTES in *. lia.
Qed.
End invariant.

(** ** Properties *)

(** C9: [append] refines the abstract store.  On a store whose invariant holds,
    [append] succeeds if and only if the height is the next one and the block, if
    already stored, is stored with the digest of the same bytes: a success has
    both facts, a failure lacks one.  A success extends the covered chain by the
    block and makes its filter readable under its hash with the digest of its
    bytes, keeps the bytes of every other block, and keeps an already stored
    filter of the same block; the invariant is preserved. *)
Theorem append_refines_spec `{Sha256Laws} s d es a height h filter :
  repr s d es -> abs s d a -> hash_ok h -> zlen filter < 2 ^ 32 ->
  fs_filters_len s + zlen filter < u64_bound ->
  match FilterStore_append s height h filter with
  | Ok (s', ops) =>
      height = FilterStore_next_height s /\
      (forall b, a_filters a !! h = Some b -> filter_hash b = filter_hash filter) /\
      exists es', repr s' (run_fops ops d) es' /\ abs s' (run_fops ops d) (abs_append a h filter)
  | Err _ =>
      height <> FilterStore_next_height s \/
      exists b, a_filters a !! h = Some b /\ filter_hash b <> filter_hash filter
  end.
Proof.
  intros Hr Ha Hok Hlen Hu. pose proof (abs_lookup _ _ _ _ h Hr Ha) as Hl.
  destruct (FilterStore_append s height h filter) as [[s' ops]|e] eqn:E.
  - assert (exists es', repr s' (run_fops ops d) es' /\
      abs s' (run_fops ops d) (abs_append a h filter)) as Href by (by eapply append_refines).
    unfold FilterStore_append in E. destruct (height =? _) eqn:Eh; bool_prop; [|done].
    split; [done|]. split; [|exact Href]. intros b Hb.
    destruct (fs_by_hash s !! h) as [l|]; [|congruence].
    destruct Hl as (b' & Hb' & _ & Hd). simpl in Hd, E. simplify_eq.
    rewrite <- Hd. by case_bool_decide.
  - unfold FilterStore_append in E. destruct (height =? _) eqn:Eh; bool_prop; [|by left].
    right. destruct (fs_by_hash s !! h) as [l|]; [|done].
    destruct Hl as (b & Hb & _ & Hd). simpl in Hd. exists b. split; [done|].
    rewrite <- Hd. by case_bool_decide.
Qed.

(** C10: crash safety of appending.  From a store whose last commit is its
    current state, run any number of appends and then [commit], and crash at
    any point, including inside a write: opening the directory succeeds and
    yields either exactly the state before the run or exactly the state after
    it, with every covered block's filter present and intact. *)
Theorem append_commit_atomic `{Sha256Laws} s d es bs s' ops d' :
  repr s d es -> committed s d es -> Forall block_ok bs ->
  fs_filters_len s + filters_total bs < u64_bound ->
  run_appends s bs = Ok (s', ops) -> small s' ->
  crashed (ops ++ FilterStore_commit s') d d' ->
  exists s'' d'' es'', (s'' = s \/ s'' = s') /\
    open_files d' (fs_meta s) = (Ok s'', d'') /\ repr s'' d'' es''.
Proof.
  intros Hr Hc Hb Hu Hrun Hs Hcr.
  destruct (run_appends_repr _ _ _ _ _ _ Hr Hb Hu Hrun) as (Ha & Hm & _ & es' & Hr').
  assert (Hrec : forall x, committed s x es ->
    exists s'' d'' es'', (s'' = s \/ s'' = s') /\
      open_files x (fs_meta s) = (Ok s'', d'') /\ repr s'' d'' es'').
  { intros x Hx. destruct (open_committed _ _ _ Hx) as (d'' & Ho & Hr'' & _ & _).
    exists s, d'', es. auto. }
  destruct (crashed_app _ _ _ _ Hcr) as [Hcr1|Hcr2].
  - apply Hrec. by eapply committed_crash.
  - apply crashed_commit in Hcr2 as [->| ->].
    + apply Hrec. by apply committed_run.
    + destruct (open_committed _ _ _ (commit_committed _ _ _ Hr' Hs)) as (d'' & Ho & Hr'' & _ & _).
      rewrite Hm in Ho. exists s', d'', es'. auto.
Qed.

(** A completed [rollback_to] is durable and keeps content: reopening yields
    the rolled-back store, whose covered hashes are those at or below the height
    (none when the height is below the start), and every stored filter, also of
    the blocks rolled back, is still readable with the same bytes. *)
Theorem rollback_durable `{Sha256Laws} s d es a height s' ops :
  repr s d es -> abs s d a -> small s ->
  0 <= meta_start_height (fs_meta s) -> height < u64_bound - 1 ->
  FilterStore_rollback_to s (Some height) = (s', ops) ->
  exists d', open_files (run_fops ops d) (fs_meta s) = (Ok s', d') /\
    (forall k, FilterStore_block_hash_at s' k =
       if k <=? height then FilterStore_block_hash_at s k else None) /\
    abs s' d' {| a_filters := a_filters a; a_chain := fs_chain s' |}.
Proof.
  intros Hr Ha Hs Hst Hh Hrb.
  destruct (rollback_repr _ _ _ _ _ _ Hr Hrb) as (Hr' & -> & Hch & Hm & Hmap & Hsm).
  set (d1 := run_fop d _) in *.
  destruct (open_committed _ _ _ (commit_committed _ _ _ Hr' (Hsm Hs))) as (d' & Ho & Hr'' & _ & Hp).
  exists d'. rewrite Hm in Ho. split; [exact Ho|]. split.
  - intros k. unfold FilterStore_block_hash_at. rewrite Hm, Hch.
    set (start := meta_start_height (fs_meta s)) in *.
    destruct (k <? start) eqn:E1; bool_prop; [by case_match|].
    unfold rollback_keep. fold start. destruct (height <? start) eqn:E2; bool_prop.
    { guards. by rewrite take_0. }
    unfold wrap64. rewrite Z.mod_small by lia. unfold zlen.
    destruct (k <=? height) eqn:E3; bool_prop.
    + destruct (decide (k - start < Z.of_nat (length (fs_chain s)))) as [Hlt|Hge].
      * apply lookup_take_lt. lia.
      * rewrite !lookup_ge_None_2; [done|lia|rewrite length_take; lia].
    + apply lookup_ge_None_2. rewrite length_take. lia.
  - apply (abs_of_lookup _ _ es); [done|done|]. intros x. rewrite Hmap.
    pose proof (abs_lookup _ _ _ _ x Hr Ha) as Hl.
    destruct (fs_by_hash s !! x); [|done].
    assert (file d' Filters = file d Filters) as Hf; [|by rewrite Hf].
    apply prefix_length_eq; [exact (Hp Filters)|].
    pose proof (r_filters _ _ _ Hr'') as H1. pose proof (r_filters _ _ _ Hr') as H2.
    unfold zlen in *. change (file d1 Filters) with (file d Filters) in H2. lia.
Qed.

(** The crash window of [rollback_to].  If the process stops after
    [chain.bin] was truncated and before the new checkpoint is in place, and the
    rollback drops at least one covered block, then opening the directory fails,
    whatever the store holds. *)
Theorem rollback_crash_unopenable `{Sha256Laws} s d es height s' ops :
  repr s d es -> committed s d es -> rollback_keep s height < zlen (fs_chain s) ->
  FilterStore_rollback_to s height = (s', ops) ->
  exists o rest d'', ops = o :: rest /\ crashed ops d (run_fop d o) /\
    open_files (run_fop d o) (fs_meta s) =
      (Err (SE_Invariant "{name} is shorter than its checkpoint"), d'').
Proof.
  intros Hr (d0 & Hr0 & Hp & Hck) Hlt Hrb.
  destruct (rollback_repr _ _ _ _ _ _ Hr Hrb) as (Hr' & Hops & Hch & _).
  rewrite Hops. set (o := SetLen _ _) in *. eexists o, _, _. split; [reflexivity|].
  split; [constructor; constructor|]. unfold open_files.
  change (read_checkpoint (run_fop d o)) with (read_checkpoint d). rewrite Hck.
  set (d1 := run_fop d o) in *.
  assert (forall n, n <> Chain -> file d1 n = file d n) as Hf by (intros []; done).
  rewrite (truncate_to_prefix d1 Filters (file d0 Filters)); cycle 1.
  { rewrite Hf by done. apply Hp. } { by rewrite (r_filters _ _ _ Hr0). }
  rewrite (truncate_to_prefix _ Index (file d0 Index)); cycle 1.
  { rewrite file_set_file. simpl. rewrite Hf by done. apply Hp. }
  { by apply repr_zlen_index with es. }
  unfold truncate_to. rewrite !file_set_file. simpl.
  rewrite (repr_zlen_chain _ _ _ Hr'), Hch. pose proof (rollback_keep_range s height) as Hk.
  assert (zlen (take (Z.to_nat (rollback_keep s height)) (fs_chain s)) = rollback_keep s height) as ->.
  { unfold zlen in *. rewrite length_take. lia. }
  unfold CHAIN_RECORD_BYTES. guards. reflexivity.
Qed.

(** A failed write is not undone.  If [write_all] fails after [k] bytes of the
    filter (a full disk), [append] returns its error with the store in memory
    unchanged and [filters.bin] longer than the length the store believes.  The
    retry of the same append then succeeds and records the old offset: reading
    the block's filter returns the [k] stray bytes followed by a cut copy of the
    filter, under the digest of the true filter. *)
Theorem failed_write_corrupts `{Sha256Laws} s d es height h filter k s' ops :
  repr s d es -> fs_by_hash s !! h = None -> 0 < zlen filter < 2 ^ 32 ->
  let d1 := set_file d Filters (file d Filters ++ take k filter) in
  FilterStore_append s height h filter = Ok (s', ops) ->
  FilterStore_filter_by_hash s' (run_fops ops d1) h =
    Ok (Some {| sf_block_hash := h; sf_bytes := take (length filter) (take k filter ++ filter);
                sf_digest := filter_hash filter |}).
Proof.
  intros Hr Hno Hlen d1 Ha. unfold FilterStore_append in Ha.
  destruct (height =? _); [|done]. cbn [negb] in Ha. rewrite Hno in Ha. injection Ha as <- <-.
  unfold FilterStore_filter_by_hash. cbn [fs_by_hash]. rewrite lookup_insert_eq.
  cbn [loc_length loc_offset loc_digest].
  assert (wrap32 (zlen filter) = zlen filter) as -> by (unfold wrap32; apply Z.mod_small; lia).
  guards.
  assert (file (run_fops [Append Filters filter; Append Index (index_record h
      {| loc_offset := fs_filters_len s; loc_length := zlen filter; loc_digest := filter_hash filter |});
      Append Chain h] d1) Filters
    = file d Filters ++ take (length filter) (take k filter ++ filter) ++
      drop (length filter) (take k filter ++ filter)) as ->.
  { cbn [run_fops foldl run_fop]. rewrite !file_set_file. simpl. unfold d1.
    rewrite file_set_file. simpl. by rewrite take_drop, <- app_assoc. }
  rewrite (r_filters _ _ _ Hr).
  assert (zlen (take (length filter) (take k filter ++ filter)) = zlen filter) as Hz.
  { unfold zlen. rewrite length_take, length_app. lia. }
  rewrite <- Hz at 1. rewrite get_range_app. done.
Qed.

(** ** Witnesses *)

Definition sample_meta : Meta := {|
  meta_version := STORE_VERSION; meta_profile := PROFILE;
  meta_genesis_hash := MAINNET_GENESIS_DISPLAY; meta_start_height := 100 |}.

Definition empty_store : FilterStore :=
  {| fs_meta := sample_meta; fs_by_hash := ∅; fs_chain := []; fs_filters_len := 0 |}.

Definition empty_dir : files := {|
  f_meta := Some (Some sample_meta); f_filters := Some []; f_index := Some [];
  f_chain := Some []; f_checkpoint := None |}.

Lemma empty_repr `{Sha256Laws} : repr empty_store empty_dir [].
Proof. split; try done; constructor. Qed.

Lemma empty_committed `{Sha256Laws} : committed empty_store empty_dir [].
Proof. exists empty_dir. split; [apply empty_repr|]. by split. Qed.

Definition empty_abs : AbsStore := {| a_filters := ∅; a_chain := [] |}.

Lemma empty_abs_ok `{Sha256Laws} : abs empty_store empty_dir empty_abs.
Proof. by split. Qed.

Definition sample_hash : BlockHash := replicate 32 1.

Lemma sample_hash_ok : hash_ok sample_hash.
Proof. split; [done|]. apply Forall_replicate. done. Qed.

(** One block appended to the empty store. *)
Definition one_block : FilterStore * list fop :=
  match @FilterStore_append checksum32 empty_store 100 sample_hash [0] with
  | Ok r => r | Err _ => (empty_store, []) end.

Lemma one_block_ok :
  exists es, @repr checksum32 (fst one_block) (run_fops (snd one_block) empty_dir) es /\
    @abs checksum32 (fst one_block) (run_fops (snd one_block) empty_dir)
      (abs_append empty_abs sample_hash [0]) /\
    small (fst one_block).
Proof.
  destruct (@append_refines checksum32 checksum32_laws empty_store empty_dir [] empty_abs 100
    sample_hash [0] (fst one_block) (snd one_block)) as (es & Hr & Ha).
  - apply empty_repr.
  - apply empty_abs_ok.
  - apply sample_hash_ok.
  - done.
  - done.
  - vm_compute. reflexivity.
  - exists es. split; [done|]. split; [done|]. vm_compute. repeat split; discriminate.
Qed.

Lemma append_refines_spec_witness :
  (exists s' ops es', @FilterStore_append checksum32 empty_store 100 sample_hash [0] = Ok (s', ops) /\
    100 = FilterStore_next_height empty_store /\
    @repr checksum32 s' (run_fops ops empty_dir) es' /\
    @abs checksum32 s' (run_fops ops empty_dir) (abs_append empty_abs sample_hash [0])) /\
  exists e, @FilterStore_append checksum32 empty_store 101 sample_hash [0] = Err e.
Proof.
  pose proof (fun height => @append_refines_spec checksum32 checksum32_laws empty_store empty_dir []
    empty_abs height sample_hash [0] (@empty_repr _ checksum32_laws) (@empty_abs_ok _ checksum32_laws)
    sample_hash_ok ltac:(reflexivity) ltac:(reflexivity)) as H. split.
  - specialize (H 100).
    destruct (@FilterStore_append checksum32 empty_store 100 sample_hash [0]) as [[s' ops]|] eqn:E.
    + destruct H as (Hh & _ & es' & Hr & Ha). exists s', ops, es'.
      split; [reflexivity|]. split; [exact Hh|]. split; [exact Hr|exact Ha].
    + exfalso. vm_compute in E. discriminate.
  - specialize (H 101).
    destruct (@FilterStore_append checksum32 empty_store 101 sample_hash [0]) as [[s' ops]|e].
    + destruct H as [Hh _]. vm_compute in Hh. discriminate.
    + exists e. reflexivity.
Defined.

Lemma append_commit_atomic_witness :
  exists d' s'' d'' es'',
    crashed (snd one_block ++ FilterStore_commit (fst one_block)) empty_dir d' /\
    open_files d' sample_meta = (Ok s'', d'') /\ @repr checksum32 s'' d'' es''.
Proof.
  set (d' := set_file empty_dir Filters (file empty_dir Filters ++ take 1 [0])).
  assert (crashed (snd one_block ++ FilterStore_commit (fst one_block)) empty_dir d') as Hc.
  { apply crashed_torn. }
  destruct (@append_commit_atomic checksum32 checksum32_laws empty_store empty_dir []
    [(100, sample_hash, [0])] (fst one_block) (snd one_block) d'
    (@empty_repr _ checksum32_laws) (@empty_committed _ checksum32_laws)) as (s'' & d'' & es'' & _ & Ho & Hr).
  - apply Forall_singleton. split; [apply sample_hash_ok|reflexivity].
  - reflexivity.
  - vm_compute. reflexivity.
  - vm_compute. repeat split; discriminate.
  - exact Hc.
  - exists d', s'', d'', es''. split; [exact Hc|]. split; [exact Ho|exact Hr].
Defined.

Lemma rollback_durable_witness :
  exists s' d', open_files (run_fops (snd (FilterStore_rollback_to (fst one_block) (Some 99)))
      (run_fops (snd one_block) empty_dir)) sample_meta = (Ok s', d') /\
    FilterStore_block_hash_at s' 100 = None.
Proof.
  destruct one_block_ok as (es & Hr & Ha & Hs).
  destruct (@rollback_durable checksum32 checksum32_laws _ _ _ _ 99 _ _ Hr Ha Hs
    ltac:(discriminate) ltac:(reflexivity) eq_refl) as (d' & Ho & Hb & _).
  eexists _, d'. split; [exact Ho|]. exact (Hb 100).
Defined.

Lemma rollback_crash_unopenable_witness :
  exists o d'', open_files (run_fop (run_fops (snd one_block ++ FilterStore_commit (fst one_block)) empty_dir) o)
      sample_meta = (Err (SE_Invariant "{name} is shorter than its checkpoint"), d'').
Proof.
  destruct one_block_ok as (es & Hr & Ha & Hs).
  pose proof (@commit_committed checksum32 _ _ _ Hr Hs) as Hc.
  assert (@repr checksum32 (fst one_block) (run_fops (FilterStore_commit (fst one_block))
    (run_fops (snd one_block) empty_dir)) es) as Hr2
    by (refine (repr_ext _ _ _ _ _ Hr); intros []; reflexivity).
  destruct (@rollback_crash_unopenable checksum32 checksum32_laws (fst one_block)
    (run_fops (FilterStore_commit (fst one_block)) (run_fops (snd one_block) empty_dir)) es (Some 99) _ _
    Hr2 Hc ltac:(reflexivity) eq_refl)
    as (o & rest & d'' & _ & _ & Ho).
  exists o, d''. rewrite run_fops_app. exact Ho.
Defined.

Lemma failed_write_corrupts_witness :
  exists s' ops, @FilterStore_append checksum32 empty_store 100 sample_hash [1; 2; 3] = Ok (s', ops) /\
    FilterStore_filter_by_hash s' (run_fops ops (set_file empty_dir Filters [1])) sample_hash =
    Ok (Some {| sf_block_hash := sample_hash; sf_bytes := [1; 1; 2];
                sf_digest := @filter_hash checksum32 [1; 2; 3] |}).
Proof.
  destruct (@FilterStore_append checksum32 empty_store 100 sample_hash [1; 2; 3]) as [[s' ops]|e] eqn:E;
    [|exfalso; vm_compute in E; discriminate].
  exists s', ops. split; [reflexivity|].
  exact (@failed_write_corrupts checksum32 checksum32_laws empty_store empty_dir [] 100 sample_hash
    [1; 2; 3] 1 s' ops (@empty_repr _ checksum32_laws) eq_refl (conj eq_refl eq_refl) E).
Defined.
