(* ===== verification/FilterService.v ===== *)
(** * The filter service

    Models the handlers of [server/transparent-filter-server/src/service.rs]
    ([health], [info], [chain], [range], [ready]), the JSON shapes of
    [pir/transparent-filter/src/wire.rs] and the client's end of the wire,
    [HttpTransport] of [pir/transparent-filter/src/http.rs].  A handler reads the
    store under the read lock, so it is a function of one state.  HTTP itself is
    the class [HttpServer].  The theorems connect the two ends: what [range]
    returns is what the wallet's [check_batch] accepts, and a wallet that
    synchronizes against the service completes. *)

From Stdlib Require Import ZArith Lia.
From stdpp Require Import base numbers list strings gmap sorting.
From S2P Require Import Prelude Cursor FilterTypes Instances BitStream Validate Matching Envelope FilterClient FilterStore.

Open Scope Z_scope.

(** ** State *)

Inductive Phase :=
| Syncing (current_height : option Z) (target_height : Z)
| Serving
| Failed (reason : string).

Definition Phase_name (p : Phase) : string :=
  match p with Syncing _ _ => "syncing" | Serving => "serving" | Failed _ => "failed" end.

Record Inner := { in_store : FilterStore; in_phase : Phase; in_tip_height : option Z }.

Definition ServiceState_new (store : FilterStore) : Inner :=
  {| in_store := store; in_phase := Syncing None 0; in_tip_height := None |}.

Definition set_phase (i : Inner) (p : Phase) : Inner :=
  {| in_store := in_store i; in_phase := p; in_tip_height := in_tip_height i |}.

Definition set_tip (i : Inner) (tip : Z) : Inner :=
  {| in_store := in_store i; in_phase := in_phase i; in_tip_height := Some tip |}.

(** ** Responses *)

Record FilterServiceInfo := {
  si_genesis_hash : string; si_network : string; si_profile : string;
  si_envelope_version : Z; si_start_height : Z; si_covered_through : option Z;
  si_covered_block_hash : option string; si_max_records_per_batch : Z;
  si_max_filter_bytes : Z }.

Record FilterServiceHealth := {
  sh_phase : string; sh_detail : option string; sh_covered_through : option Z;
  sh_tip_height : option Z; sh_filters_stored : Z }.

Record ChainEntry := { ce_height : Z; ce_block_hash : string }.

Inductive Body :=
| BError (m : string)
| BInfo (i : FilterServiceInfo)
| BHealth (h : FilterServiceHealth)
| BChain (l : list ChainEntry)
| BReady (ready : bool) (reason : option string) (covered_through : option Z).

Inductive Response :=
| RJson (status : Z) (b : Body)
| RBytes (status : Z) (bytes : list Z).

Definition bad_request (m : string) : Response := RJson 400 (BError m).
Definition server_error (m : string) : Response := RJson 500 (BError m).

Definition FilterError_string (e : FilterError) : string :=
  match e with
  | FE_BlockHash m | FE_Encoding m | FE_Truncated m | FE_NotCanonical m | FE_LimitExceeded m
  | FE_MissingPreviousOutput m | FE_Envelope m | FE_Response m => m
  | FE_TrailingBytes _ => "filter has {0} trailing bytes after the coded stream"
  | FE_NonZeroPadding => "filter padding is not zero"
  end.

Section handlers.
Context `{Hex}.

Definition health (i : Inner) : Response :=
  RJson 200 (BHealth {|
    sh_phase := Phase_name (in_phase i);
    sh_detail := match in_phase i with
                 | Failed reason => Some reason
                 | Syncing _ _ => Some "at {} of {target_height}"%string
                 | Serving => None
                 end;
    sh_covered_through := FilterStore_covered_through (in_store i);
    sh_tip_height := in_tip_height i;
    sh_filters_stored := FilterStore_filters_stored (in_store i) |}).

Definition info (i : Inner) : Response :=
  let store := in_store i in
  RJson 200 (BInfo {|
    si_genesis_hash := meta_genesis_hash (fs_meta store);
    si_network := NETWORK;
    si_profile := meta_profile (fs_meta store);
    si_envelope_version := ENVELOPE_VERSION;
    si_start_height := meta_start_height (fs_meta store);
    si_covered_through := FilterStore_covered_through store;
    si_covered_block_hash :=
      BlockHash_to_display_hex <$>
        (FilterStore_covered_through store ≫= FilterStore_block_hash_at store);
    si_max_records_per_batch := MAX_RECORDS_PER_BATCH;
    si_max_filter_bytes := max_bytes ZCASH_MAINNET |}).

(** The [for height in start..start.saturating_add(count)] loop of [chain]. *)
Fixpoint chain_entries (store : FilterStore) (height : Z) (n : nat) : list ChainEntry :=
  match n with
  | O => []
  | S n =>
      match FilterStore_block_hash_at store height with
      | Some hash =>
          {| ce_height := height; ce_block_hash := BlockHash_to_display_hex hash |} ::
          chain_entries store (height + 1) n
      | None => []
      end
  end.

Definition chain_handler (i : Inner) (start_height count : Z) : Response :=
  if (count =? 0) || (10000 <? count)
  then bad_request "count must be between 1 and 10000"
  else
    RJson 200 (BChain (chain_entries (in_store i) start_height
      (Z.to_nat (saturating_add64 start_height count - start_height)))).

(** The loop of [range]: an early response, or the records. *)
Fixpoint range_records (store : FilterStore) (d : files) (height : Z) (n : nat) :
    Response + list FilterRecord :=
  match n with
  | O => inr []
  | S n =>
      match FilterStore_block_hash_at store height with
      | None => inl (bad_request "coverage changed while the batch was being assembled")
      | Some hash =>
          match FilterStore_filter_by_hash store d hash with
          | Ok (Some stored) =>
              match range_records store d (height + 1) n with
              | inl r => inl r
              | inr records =>
                  inr ({| rec_height := height; rec_block_hash := hash;
                          rec_filter := sf_bytes stored |} :: records)
              end
          | Ok None => inl (server_error "no stored filter at height {height}")
          | Err _ => inl (server_error "{error}")
          end
      end
  end.

Definition range (i : Inner) (d : files) (start_height : Z) (stop_block_hash : string) : Response :=
  let store := in_store i in
  match BlockHash_from_display_hex stop_block_hash with
  | Err error => bad_request (FilterError_string error)
  | Ok stop_block_hash =>
  match FilterStore_height_of store stop_block_hash with
  | None => bad_request "stop_block_hash is not a covered block on the current branch"
  | Some stop_height =>
  if start_height <? meta_start_height (fs_meta store)
  then bad_request "start_height is below the service's start height {}" else
  if stop_height <? start_height
  then bad_request "start_height is above the stop block's height" else
  let count := Z.min (wrap64 (stop_height - start_height + 1)) MAX_RECORDS_PER_BATCH in
  match range_records store d start_height (Z.to_nat count) with
  | inl r => r
  | inr records =>
  match BlockHash_from_display_hex (meta_genesis_hash (fs_meta store)) with
  | Err error => server_error (FilterError_string error)
  | Ok genesis =>
      let batch := {| fb_version := ENVELOPE_VERSION; fb_genesis := genesis;
                      fb_profile := meta_profile (fs_meta store);
                      fb_start_height := start_height;
                      fb_stop_block_hash := stop_block_hash; fb_records := records |} in
      let bytes := FilterBatch_encode batch in
      if MAX_BATCH_BYTES <? zlen bytes
      then server_error "assembled batch is {} bytes, over the {MAX_BATCH_BYTES}-byte envelope limit"
      else RBytes 200 bytes
  end end end end.

Definition ready (i : Inner) : Response :=
  match in_phase i, FilterStore_covered_through (in_store i) with
  | Failed reason, _ => RJson 503 (BReady false (Some reason) None)
  | _, None => RJson 503 (BReady false (Some "no coverage yet"%string) None)
  | _, Some height => RJson 200 (BReady true None (Some height))
  end.

(** ** HttpTransport *)

(** One GET of the range route: status and body. *)
Class HttpServer (S : Type) := http_range : S -> Z -> string -> result string (Z * list Z).

Record HttpTransport (S : Type) := { ht_base_url : string; ht_client : S }.

(** The number of decimal digits of the start height in the URL is part of what
    is charged as sent. *)
Context (path_bytes : Z -> string -> Z).

#[export] Instance HttpTransport_fetch_range {S} `{HttpServer S} : FilterTransport (HttpTransport S) :=
  fun request self =>
    let hex := BlockHash_to_display_hex (rr_stop_block_hash request) in
    let url_bytes :=
      wrap64 (zlen (string_bytes (ht_base_url S self)) +
              path_bytes (rr_start_height request) hex) in
    (let? (status, bytes) :=
       map_err (fun _ => FE_Response "{url}: {error}")
         (http_range (ht_client S self) (rr_start_height request) hex) in
     if negb ((200 <=? status) && (status <? 300))
     then Err (FE_Response "{url}: HTTP {status}: {}") else
     let charges := {| bc_received := zlen bytes; bc_sent := url_bytes; bc_requests := 1 |} in
     let? batch := FilterBatch_decode bytes in
     Ok (batch, charges), self).
End handlers.

(** The service behind HTTP: a JSON error carries its status and a body that is
    not an envelope. *)
Record Served := { sv_inner : Inner; sv_files : files }.

#[export] Instance Served_http `{Hex} : HttpServer Served := fun s start hex =>
  match range (sv_inner s) (sv_files s) start hex with
  | RBytes status bytes => Ok (status, bytes)
  | RJson status _ => Ok (status, [])
  end.

(** ** The honest service *)

Lemma block_hash_at_Some s k h :
  FilterStore_block_hash_at s k = Some h <->
  meta_start_height (fs_meta s) <= k /\
  fs_chain s !! Z.to_nat (k - meta_start_height (fs_meta s)) = Some h.
Proof.
  unfold FilterStore_block_hash_at. destruct (k <? _) eqn:E; bool_prop; [split; [done|lia]|].
  split; [done|tauto].
Qed.

Section honest.
Context `{HexLaws} `{Sha256Laws} `{SipHash24} (path_bytes : Z -> string -> Z).
Context (i : Inner) (d : files) (es : list (BlockHash * Located)) (a : AbsStore).
Context (genesis : BlockHash) (limits : FilterLimits).
Local Abbreviation store := (in_store i).
Local Abbreviation start0 := (meta_start_height (fs_meta store)).

(** A store that holds its invariant, with distinct covered blocks, a parsable
    identity, and filters a wallet accepts.  The bound on a filter keeps a full
    batch of 1000 within the envelope limit. *)
Record serving : Prop := {
  sg_repr : repr store d es;
  sg_abs : abs store d a;
  sg_nodup : NoDup (fs_chain store);
  sg_range : 0 <= start0 /\ start0 + zlen (fs_chain store) < u64_bound;
  sg_genesis : BlockHash_from_display_hex (meta_genesis_hash (fs_meta store)) = Ok genesis;
  sg_profile : zlen (string_bytes (meta_profile (fs_meta store))) <= 64 /\
    utf8_valid (string_bytes (meta_profile (fs_meta store))) = true;
  sg_filters : forall h b, h ∈ fs_chain store -> a_filters a !! h = Some b ->
    bytes_ok b /\ zlen b <= 67000 /\ is_ok (validate_filter b limits) = true }.

Hypothesis Hs : serving.

Lemma height_of_at k h :
  FilterStore_block_hash_at store k = Some h -> FilterStore_height_of store h = Some k.
Proof.
  intros (Hk & Hl)%block_hash_at_Some. unfold FilterStore_height_of.
  destruct (sg_range Hs) as [Hs0 Hlen]. apply lookup_lt_Some in Hl as Hlt.
  assert (list_find (eq h) (fs_chain store) = Some (Z.to_nat (k - start0), h)) as ->.
  { apply list_find_Some. split_and!; [done|done|]. intros j y Hj Hjl <-.
    pose proof (NoDup_lookup _ _ _ _ (sg_nodup Hs) Hj Hl). lia. }
  simpl. f_equal. unfold wrap64, zlen in *. rewrite Z.mod_small; lia.
Qed.

(** The filter stored for a covered block. *)
Lemma covered_filter h :
  h ∈ fs_chain store ->
  exists b, FilterStore_filter_by_hash store d h =
      Ok (Some {| sf_block_hash := h; sf_bytes := b; sf_digest := filter_hash b |}) /\
    bytes_ok b /\ zlen b <= 67000 /\ is_ok (validate_filter b limits) = true /\ hash_ok h.
Proof.
  intros Hin. pose proof (sg_repr Hs) as Hr.
  pose proof (r_covered _ _ _ Hr) as Hcov. rewrite Forall_forall in Hcov.
  pose proof (r_hashes _ _ _ Hr) as Hh. rewrite Forall_forall in Hh.
  specialize (Hcov h Hin). apply list_elem_of_fmap in Hcov as ([h' l] & -> & Hel). simpl in *.
  pose proof (abs_lookup _ _ _ _ h' Hr (sg_abs Hs)) as Hl.
  rewrite (r_map _ _ _ Hr), (elem_of_list_to_map_1 es h' l) in Hl by (done || apply Hr).
  destruct Hl as (b & Hb & _). exists b.
  destruct (sg_filters Hs h' b Hin Hb) as (? & ? & ?). split_and!; try done; [|by apply Hh].
  by rewrite (proj2 (sg_abs Hs)), Hb.
Qed.

(** The records [range] assembles. *)
Definition served_record (height : Z) (r : FilterRecord) : Prop :=
  rec_height r = height /\ FilterStore_block_hash_at store height = Some (rec_block_hash r) /\
  bytes_ok (rec_filter r) /\ zlen (rec_filter r) <= 67000 /\
  is_ok (validate_filter (rec_filter r) limits) = true /\ hash_ok (rec_block_hash r).

Lemma range_records_ok n height :
  start0 <= height -> height - start0 + Z.of_nat n <= zlen (fs_chain store) ->
  exists rs, range_records store d height n = inr rs /\ length rs = n /\
    forall j r, rs !! j = Some r -> served_record (height + Z.of_nat j) r.
Proof.
  revert height. induction n as [|n IH]; intros height Hh Hn; cbn [range_records].
  { exists []. split_and!; [done|done|]. intros j r Hj. done. }
  destruct (lookup_lt_is_Some_2 (fs_chain store) (Z.to_nat (height - start0))) as [h Hl];
    [unfold zlen in Hn; lia|].
  assert (FilterStore_block_hash_at store height = Some h) as Hb by (by apply block_hash_at_Some).
  rewrite Hb. destruct (covered_filter h ltac:(by eapply list_elem_of_lookup_2))
    as (b & -> & Hok & Hlen & Hv & Hhash).
  destruct (IH (height + 1)) as (rs & -> & Hrl & Hrs); [lia|lia|].
  eexists. split; [done|]. split; [simpl; lia|]. intros [|j] r Hj.
  - injection Hj as <-. rewrite Z.add_0_r. unfold served_record. by split_and!.
  - specialize (Hrs j r Hj). by replace (height + Z.of_nat (S j)) with (height + 1 + Z.of_nat j) by lia.
Qed.

Definition served_batch (start : Z) (stop : BlockHash) (rs : list FilterRecord) : FilterBatch := {|
  fb_version := ENVELOPE_VERSION; fb_genesis := genesis;
  fb_profile := meta_profile (fs_meta store); fb_start_height := start;
  fb_stop_block_hash := stop; fb_records := rs |}.

Lemma zlen_compact_size_le v : zlen (compact_size v) <= 9.
Proof. pose proof (compact_size_len v). unfold zlen. lia. Qed.

Lemma zlen_records_le rs :
  (forall r, r ∈ rs -> exists h, served_record h r) ->
  zlen (concat (enc_record <$> rs)) <= 67049 * zlen rs.
Proof.
  induction rs as [|r rs IH]; intros Hr; [done|].
  rewrite fmap_cons. cbn [concat]. rewrite zlen_app, zlen_cons.
  destruct (Hr r ltac:(apply list_elem_of_here)) as (h & _ & _ & _ & Hl & _ & Hh).
  specialize (IH ltac:(intros r' Hin; apply Hr, elem_of_cons; by right)).
  unfold enc_record at 1. autorewrite with zlen. rewrite (zlen_hash _ Hh).
  pose proof (zlen_compact_size_le (zlen (rec_filter r))). lia.
Qed.

Lemma served_batch_wf start stop rs :
  u64 start -> hash_ok stop -> zlen rs <= MAX_RECORDS_PER_BATCH ->
  (forall j r, rs !! j = Some r -> served_record (start + Z.of_nat j) r) ->
  start + zlen rs <= u64_bound -> batch_wf (served_batch start stop rs).
Proof.
  intros Hst Hstop Hn Hrs Hu. destruct (sg_profile Hs) as [Hp Hu8].
  assert (Forall record_wf rs) as Hwf.
  { apply Forall_lookup. intros j r Hj. destruct (Hrs j r Hj) as (Hh & _ & Hb & Hl & _ & Hk).
    apply lookup_lt_Some in Hj. unfold record_wf, u64, u64_bound, zlen in *.
    pose proof (zlen_nonneg (rec_filter r)). unfold zlen in *. split_and!; try done; lia. }
  pose proof (from_display_hex_ok _ _ (sg_genesis Hs)) as Hg.
  assert (FilterBatch_encode (served_batch start stop rs) =
    enc_header (served_batch start stop rs) ++ concat (enc_record <$> rs)) as Henc.
  { apply encode_eq; cbn [served_batch fb_profile fb_records].
    - unfold u64, u64_bound. pose proof (zlen_nonneg (string_bytes (meta_profile (fs_meta store)))). lia.
    - unfold u64, u64_bound, MAX_RECORDS_PER_BATCH in *. pose proof (zlen_nonneg rs). lia.
    - eapply Forall_impl; [exact Hwf|]. by intros r (_ & _ & _ & ?). }
  split; try done. rewrite Henc. rewrite zlen_app. unfold enc_header. autorewrite with zlen.
  cbn [served_batch fb_genesis fb_stop_block_hash fb_profile fb_records].
  rewrite (zlen_hash genesis), (zlen_hash stop) by done.
  pose proof (zlen_compact_size_le (zlen rs)).
  pose proof (zlen_compact_size_le (zlen (string_bytes (meta_profile (fs_meta store))))).
  pose proof (zlen_records_le rs ltac:(intros r [j Hj]%list_elem_of_lookup; eauto)).
  change (zlen MAGIC) with 4. unfold MAX_BATCH_BYTES, MAX_RECORDS_PER_BATCH in *. lia.
Qed.

Lemma range_served start stop stop_hash :
  start0 <= start <= stop -> FilterStore_block_hash_at store stop = Some stop_hash ->
  exists rs, range i d start (BlockHash_to_display_hex stop_hash) =
      RBytes 200 (FilterBatch_encode (served_batch start stop_hash rs)) /\
    batch_wf (served_batch start stop_hash rs) /\
    zlen rs = Z.min (stop - start + 1) MAX_RECORDS_PER_BATCH /\
    forall j r, rs !! j = Some r -> served_record (start + Z.of_nat j) r.
Proof.
  intros Hst Hstop. apply block_hash_at_Some in Hstop as Hlk. destruct Hlk as [_ Hlk].
  assert (hash_ok stop_hash) as Hh.
  { pose proof (r_hashes _ _ _ (sg_repr Hs)) as Hh. by apply (Forall_lookup_1 _ _ _ _ Hh Hlk). }
  apply lookup_lt_Some in Hlk. destruct (sg_range Hs) as [Hs0 Hlen].
  unfold range. rewrite from_to_display_hex by done. rewrite (height_of_at _ _ Hstop). guards.
  assert (wrap64 (stop - start + 1) = stop - start + 1) as ->
    by (unfold wrap64, zlen in *; rewrite Z.mod_small; lia).
  set (n := Z.min _ _).
  assert (1 <= n <= 1000 /\ n <= stop - start + 1) as Hn by (unfold n, MAX_RECORDS_PER_BATCH; lia).
  destruct (range_records_ok (Z.to_nat n) start) as (rs & -> & Hl & Hrs);
    [lia|unfold zlen; lia|].
  assert (zlen rs = n) as Hz by (unfold zlen; lia).
  assert (batch_wf (served_batch start stop_hash rs)) as Hwf.
  { apply served_batch_wf; unfold u64, MAX_RECORDS_PER_BATCH, zlen in *; try done; lia. }
  exists rs. rewrite (sg_genesis Hs).
  fold (served_batch start stop_hash rs).
  rewrite (proj2 (Z.ltb_ge _ _) (wf_size _ Hwf)). by split_and!.
Qed.

(** ** The wallet against the honest service *)

Context {C : Type} `{AcceptedChain C} (chain : C) `{!AcceptedChainLaws C chain}.

(** The wallet has accepted every block the service covers, where it asks. *)
Definition agrees : Prop :=
  forall k h, FilterStore_block_hash_at store k = Some h -> block_hash chain k = Some h.

(** The same for the blocks of one range. *)
Definition agrees_on (lo hi : Z) : Prop :=
  forall k h, lo <= k <= hi -> FilterStore_block_hash_at store k = Some h -> block_hash chain k = Some h.

Lemma check_records_served lo hi start off rs :
  agrees_on lo hi -> lo <= start -> start + Z.of_nat off + zlen rs <= hi + 1 ->
  0 <= start -> start + Z.of_nat off + zlen rs <= u64_bound ->
  (forall j r, rs !! j = Some r -> served_record (start + Z.of_nat off + Z.of_nat j) r) ->
  exists cs, check_records start chain limits off rs = Ok cs /\ length cs = length rs.
Proof.
  intros Hagree Hlo Hhi Hst. revert off Hhi. induction rs as [|r rs IH]; intros off Hhi Hu Hrs; cbn [check_records].
  { by exists []. }
  rewrite zlen_cons in Hu, Hhi. pose proof (zlen_nonneg rs).
  destruct (Hrs 0%nat r eq_refl) as (Hh & Hb & _ & _ & Hv & _). rewrite Z.add_0_r in Hh, Hb.
  destruct (IH (S off)) as (cs & Hcs & Hl); [lia|lia| |].
  { intros j r' Hj. replace (start + Z.of_nat (S off) + Z.of_nat j) with
      (start + Z.of_nat off + Z.of_nat (S j)) by lia. by apply Hrs. }
  unfold check_record, wrap64. rewrite Z.mod_small by lia. rewrite Hh, Z.eqb_refl.
  cbn [negb]. rewrite (Hagree (start + Z.of_nat off) _ ltac:(lia) Hb). cbn [ok_or]. rewrite bool_decide_true by done. cbn [negb].
  destruct (validate_filter (rec_filter r) limits) as [f|]; [|done]. rewrite Hcs.
  eexists. split; [done|]. simpl. lia.
Qed.

Local Abbreviation server := ({| sv_inner := i; sv_files := d |}).
#[local] Instance wire : FilterTransport (HttpTransport Served) := HttpTransport_fetch_range path_bytes.

Lemma sync_loop_honest base fuel request lo stop next ws acc :
  agrees_on lo stop -> lo <= next ->
  rr_genesis request = genesis -> rr_profile request = meta_profile (fs_meta store) ->
  FilterStore_block_hash_at store stop = Some (rr_stop_block_hash request) ->
  height_of chain (rr_stop_block_hash request) = Some stop ->
  start0 <= next ->
  let t := {| ht_base_url := base; ht_client := server |} in
  forall e t',
  sync_loop fuel request chain ws limits stop next acc t <> Some (Err e, t').
Proof.
  intros Hagree Hlo Hg Hp Hb Hh Hnext t e t'. revert next acc Hlo Hnext.
  induction fuel as [|fuel IH]; intros next acc Hlo Hnext; cbn [sync_loop];
    (destruct (next <=? stop) eqn:E; bool_prop; [|done]); [done|].
  set (breq := {| rr_start_height := next |}).
  destruct (range_served next stop (rr_stop_block_hash request)) as (rs & Hrange & Hwf & Hlen & Hrs);
    [lia|done|].
  assert (exists ch, fetch_range breq t =
    (Ok (served_batch next (rr_stop_block_hash request) rs, ch), t)) as (ch & ->).
  { eexists. unfold fetch_range, wire, HttpTransport_fetch_range, http_range, Served_http.
    cbn [rr_start_height rr_stop_block_hash breq t ht_client sv_inner sv_files].
    rewrite Hrange. cbn [map_err]. simpl (negb _). cbv iota.
    rewrite <- (app_nil_r (FilterBatch_encode _)), decode_encode;
      [done|done|rewrite app_nil_r; apply wf_size, Hwf]. }
  destruct (sg_range Hs) as [Hs0 Hlen0].
  apply block_hash_at_Some in Hb as Hlk. destruct Hlk as [_ Hlk]. apply lookup_lt_Some in Hlk.
  assert (exists cs, check_batch (served_batch next (rr_stop_block_hash request) rs) breq chain limits
    = Ok cs /\ length cs = length rs) as (cs & -> & Hcs).
  { unfold check_batch. cbn [served_batch breq fb_genesis fb_profile fb_start_height fb_stop_block_hash
      fb_records rr_genesis rr_profile rr_start_height rr_stop_block_hash].
    rewrite Hg, Hp, !bool_decide_true, Z.eqb_refl, Hh by done. cbn [negb ok_or]. guards.
    assert (wrap64 (stop - next + 1) = stop - next + 1) as ->
      by (unfold wrap64, zlen in *; rewrite Z.mod_small; lia).
    rewrite <- Hlen, Z.eqb_refl. cbn [negb]. apply (check_records_served lo stop).
    - done.
    - done.
    - unfold zlen in *. lia.
    - lia.
    - unfold MAX_RECORDS_PER_BATCH, zlen in *. lia.
    - intros j r Hj. rewrite Z.add_0_r. by apply Hrs. }
  match goal with |- context [match_records ws ?x cs] =>
    destruct (match_records_spec ws x cs) as (acc1 & -> & _) end.
  apply IH; unfold wrap64, zlen in *; unfold MAX_RECORDS_PER_BATCH in *; rewrite Z.mod_small; lia.
Qed.
End honest.

(** ** Properties *)

(** C11: client and service agree.  A wallet whose accepted chain contains the
    blocks the service covers, asking for any range that starts at or above the
    service's start height and ends at a covered block, synchronizes to
    completion over HTTP: every batch the service assembles is decoded and
    passes every check of the wallet, and the outcome covers the stop block.
    The store needs only its invariant, distinct covered blocks and filters that
    validate and are at most 67000 bytes. *)
Theorem honest_sync_completes `{HexLaws} `{Sha256Laws} `{SipHash24} path_bytes
    i d es a genesis limits {C} `{AcceptedChain C} (chain : C) `{!AcceptedChainLaws C chain}
    base request ws stop :
  serving i d es a genesis limits -> agrees i chain ->
  rr_genesis request = genesis ->
  rr_profile request = meta_profile (fs_meta (in_store i)) ->
  FilterStore_block_hash_at (in_store i) stop = Some (rr_stop_block_hash request) ->
  height_of chain (rr_stop_block_hash request) = Some stop ->
  meta_start_height (fs_meta (in_store i)) <= rr_start_height request <= stop ->
  exists out t',
    @sync_range C _ _ _ (HttpTransport_fetch_range path_bytes) request chain ws limits
      {| ht_base_url := base; ht_client := {| sv_inner := i; sv_files := d |} |} = Some (Ok out, t') /\
    so_covered_through out = stop.
Proof.
  intros Hs Ha Hg Hp Hb Hh Hst. destruct (sg_range _ _ _ _ _ _ Hs) as [Hs0 _].
  pose proof (height_of_range _ _ Hh) as Hr. unfold sync_range. rewrite Hh. cbn [ok_or].
  match goal with |- context [sync_loop ?f _ _ _ _ _ ?n ?acc ?t] =>
    destruct (sync_loop_spec (H1 := HttpTransport_fetch_range path_bytes)
      f request chain ws limits stop n acc t Hh) as (r & t' & Hl & Hout);
    [lia|lia|unfold sync_fuel; lia|cbn [so_filters_checked]; lia|cbn [so_filters_checked]; lia|];
    pose proof (sync_loop_honest path_bytes i d es a genesis limits Hs chain base f request (rr_start_height request) stop n
      ws acc (fun k h _ => Ha k h) (Z.le_refl _) Hg Hp Hb Hh (proj1 Hst)) as Hno
  end.
  destruct r as [out|e]; [|by destruct (Hno e t')].
  exists out, t'. split; [exact Hl|].
  destruct (Hout out eq_refl) as (exs & rs & Hcov).
  by destruct (covered_through_stop _ _ _ _ _ _ _ _ _ _ _ _ Hcov (proj2 Hst)).
Qed.

Definition sample_inner : Inner :=
  {| in_store := fst one_block; in_phase := Serving; in_tip_height := Some 100 |}.

Definition wallet_chain : ChainMap := ChainMap_insert ChainMap_new 100 sample_hash.

Definition sample_genesis : BlockHash :=
  match @BlockHash_from_display_hex ascii_hex MAINNET_GENESIS_DISPLAY with
  | Ok g => g | Err _ => [] end.

Lemma sample_serving :
  exists es, @serving ascii_hex checksum32 sample_inner (run_fops (snd one_block) empty_dir) es
    (abs_append empty_abs sample_hash [0]) sample_genesis ZCASH_MAINNET.
Proof.
  destruct one_block_ok as (es & Hr & Ha & _). exists es. split; [exact Hr|exact Ha| | | | |].
  - apply NoDup_singleton.
  - split; [discriminate|reflexivity].
  - vm_compute; reflexivity.
  - split; [discriminate|vm_compute; reflexivity].
  - intros h b Hin Hb. apply list_elem_of_singleton in Hin as ->.
    change (a_filters (abs_append empty_abs sample_hash [0])) with
      (<[sample_hash := [0]]> ∅ : gmap BlockHash (list Z)) in Hb.
    rewrite lookup_insert_eq in Hb. injection Hb as <-.
    split; [by repeat constructor|]. split; [done|]. vm_compute. reflexivity.
Qed.

Lemma wallet_agrees : agrees sample_inner wallet_chain.
Proof.
  intros k h Hk. apply block_hash_at_Some in Hk as [Hle Hk].
  change (fs_chain (in_store sample_inner)) with [sample_hash] in Hk.
  apply lookup_lt_Some in Hk as Hlt. simpl in Hlt.
  change (meta_start_height _) with 100 in *. assert (k = 100) as -> by lia.
  simpl in Hk. injection Hk as <-. vm_compute. reflexivity.
Qed.

Lemma honest_sync_completes_witness :
  exists out t',
    @sync_range ChainMap _ mulhash64 _ (@HttpTransport_fetch_range ascii_hex (fun _ _ => 0) Served (@Served_http ascii_hex))
      {| rr_genesis := sample_genesis; rr_profile := PROFILE; rr_start_height := 100;
         rr_stop_block_hash := sample_hash |} wallet_chain [[81]] ZCASH_MAINNET
      {| ht_base_url := "http://localhost"%string; ht_client :=
           {| sv_inner := sample_inner; sv_files := run_fops (snd one_block) empty_dir |} |}
    = Some (Ok out, t') /\ so_covered_through out = 100.
Proof.
  destruct sample_serving as (es & Hs).
  assert (AcceptedChainLaws ChainMap wallet_chain) as Hlaws.
  { apply ChainMap_laws. unfold wallet_chain, ChainMap_insert, ChainMap_new. cbn [by_height].
    rewrite insert_empty. apply map_Forall_singleton. split; [done|reflexivity]. }
  apply (@honest_sync_completes ascii_hex ascii_hex_laws checksum32 checksum32_laws mulhash64
    (fun _ _ => 0) sample_inner (run_fops (snd one_block) empty_dir) es
    (abs_append empty_abs sample_hash [0]) sample_genesis ZCASH_MAINNET ChainMap _ wallet_chain Hlaws
    "http://localhost"%string
    {| rr_genesis := sample_genesis; rr_profile := PROFILE; rr_start_height := 100;
       rr_stop_block_hash := sample_hash |} [[81]] 100 Hs wallet_agrees).
  - reflexivity.
  - reflexivity.
  - vm_compute; reflexivity.
  - vm_compute; reflexivity.
  - split; discriminate.
Defined.
