(* ===== verification/Extract.v ===== *)
(** * Filter elements of a block

    Models [server/transparent-filter-server/src/extract.rs] and
    [server/transparent-filter-server/src/prevout.rs]: the element set of a
    block, the cache of recent outputs with its eviction, the resolver that
    asks the node on a miss, and the batched prefetch.  Transactions and the
    node belong to other crates: a transaction is the record of what the code
    reads of it, and the node is the class [TxSource].  The theorems show that
    the element set is exactly the profile's (every eligible output script and
    every eligible previous-output script, once), that an unresolvable input is
    always an error, and that the result does not depend on the cache. *)

From Stdlib Require Import ZArith Lia.
From stdpp Require Import base numbers list strings gmap sorting.
From S2P Require Import Prelude FilterTypes BitStream Validate Matching Instances.

Open Scope Z_scope.

(** ** Transactions, as the code reads them *)

Definition OutPoint : Type := list Z * Z.

Inductive Input :=
| Coinbase
| PrevOut (outpoint : OutPoint).

Record Transaction := {
  tx_hash : list Z;
  tx_inputs : list Input;
  tx_outputs : list ScriptBytes }.

Inductive ExtractError :=
| XE_MissingPreviousOutput (label : OutPoint)
| XE_Lookup (outpoint : OutPoint) (source : string).

(** [PreviousOutputs], with [&mut self] threaded. *)
Class PreviousOutputs (R : Type) :=
  lock_script : OutPoint -> R -> result string (option ScriptBytes) * R.

(** ** extract_elements *)

(** The outputs of one transaction with their outpoints. *)
Definition tx_outpoints (t : Transaction) : list (OutPoint * ScriptBytes) :=
  imap (fun index script => ((tx_hash t, wrap32 (Z.of_nat index)), script)) (tx_outputs t).

Definition created_outputs (transactions : list Transaction) : gmap OutPoint ScriptBytes :=
  foldl (fun m p => <[fst p := snd p]> m) ∅ (concat (tx_outpoints <$> transactions)).

Fixpoint dedup (l : list ScriptBytes) : list ScriptBytes :=
  match l with
  | [] => []
  | x :: l =>
      match l with
      | y :: _ => if bool_decide (x = y) then dedup l else x :: dedup l
      | [] => [x]
      end
  end.

Section extract.
Context {R : Type} `{PreviousOutputs R}.

Definition push_element (elements : list ScriptBytes) (script : ScriptBytes) : list ScriptBytes :=
  if ScriptBytes_is_filter_element script then elements ++ [script] else elements.

(** The previous script of one input: this block's outputs first, then the
    resolver. *)
Definition resolve_input (created : gmap OutPoint ScriptBytes) (outpoint : OutPoint) (r : R) :
    result ExtractError ScriptBytes * R :=
  match created !! outpoint with
  | Some bytes => (Ok bytes, r)
  | None =>
      match lock_script outpoint r with
      | (Err source, r) => (Err (XE_Lookup outpoint source), r)
      | (Ok None, r) => (Err (XE_MissingPreviousOutput outpoint), r)
      | (Ok (Some bytes), r) => (Ok bytes, r)
      end
  end.

Fixpoint extract_inputs (created : gmap OutPoint ScriptBytes) (inputs : list Input)
    (elements : list ScriptBytes) (r : R) : result ExtractError (list ScriptBytes) * R :=
  match inputs with
  | [] => (Ok elements, r)
  | Coinbase :: inputs => extract_inputs created inputs elements r
  | PrevOut outpoint :: inputs =>
      match resolve_input created outpoint r with
      | (Err e, r) => (Err e, r)
      | (Ok script, r) => extract_inputs created inputs (push_element elements script) r
      end
  end.

Fixpoint extract_transactions (created : gmap OutPoint ScriptBytes)
    (transactions : list Transaction) (elements : list ScriptBytes) (r : R) :
    result ExtractError (list ScriptBytes) * R :=
  match transactions with
  | [] => (Ok elements, r)
  | t :: transactions =>
      let elements := foldl push_element elements (tx_outputs t) in
      match extract_inputs created (tx_inputs t) elements r with
      | (Err e, r) => (Err e, r)
      | (Ok elements, r) => extract_transactions created transactions elements r
      end
  end.

Definition extract_elements (transactions : list Transaction) (previous : R) :
    result ExtractError (list ScriptBytes) * R :=
  let created := created_outputs transactions in
  match extract_transactions created transactions [] previous with
  | (Err e, previous) => (Err e, previous)
  | (Ok elements, previous) => (Ok (dedup (merge_sort bytes_le elements)), previous)
  end.
End extract.

(** ** OutputCache *)

Definition PREVOUT_BATCH : nat := 16.
Definition DEFAULT_CACHE_TRANSACTIONS : Z := 200000.

Record OutputCache := {
  oc_scripts : gmap OutPoint ScriptBytes;
  oc_order : list (list Z * Z);
  oc_capacity : Z }.

Definition OutputCache_new (capacity : Z) : OutputCache :=
  {| oc_scripts := ∅; oc_order := []; oc_capacity := Z.max capacity 1 |}.

(** Removes the outputs of an evicted transaction. *)
Definition evict_outputs (scripts : gmap OutPoint ScriptBytes) (txid : list Z) (count : Z) :
    gmap OutPoint ScriptBytes :=
  foldl (fun m index => delete (txid, Z.of_nat index) m) scripts (seq 0 (Z.to_nat count)).

(** The [while self.order.len() > self.capacity] loop, on the queue. *)
Fixpoint evict (scripts : gmap OutPoint ScriptBytes) (order : list (list Z * Z)) (capacity : Z) :
    gmap OutPoint ScriptBytes * list (list Z * Z) :=
  match order with
  | (evicted, count) :: rest =>
      if capacity <? zlen order then evict (evict_outputs scripts evicted count) rest capacity
      else (scripts, order)
  | [] => (scripts, order)
  end.

Definition OutputCache_insert_transaction (self : OutputCache) (t : Transaction) : OutputCache :=
  let scripts := foldl (fun m p => <[fst p := snd p]> m) (oc_scripts self) (tx_outpoints t) in
  if bool_decide (tx_outputs t = [])
  then {| oc_scripts := scripts; oc_order := oc_order self; oc_capacity := oc_capacity self |}
  else
    let '(scripts, order) :=
      evict scripts (oc_order self ++ [(tx_hash t, wrap32 (zlen (tx_outputs t)))])
        (oc_capacity self) in
    {| oc_scripts := scripts; oc_order := order; oc_capacity := oc_capacity self |}.

Definition OutputCache_get (self : OutputCache) (o : OutPoint) : option ScriptBytes :=
  oc_scripts self !! o.

(** ** The resolver *)

(** The node: [transaction(txid)] and the batched [transactions(txids)], with
    the transaction id in display hex; [Ok None] is "no such transaction". *)
Class TxSource (N : Type) := {
  node_transaction : string -> N -> result string (option Transaction) * N;
  node_transactions : list string -> N -> result string (list (option Transaction)) * N }.

Record ZakuraPreviousOutputs (N : Type) := {
  zp_client : N; zp_cache : OutputCache; zp_rpc_lookups : Z; zp_cache_hits : Z }.
Arguments zp_client {N}. Arguments zp_cache {N}.
Arguments zp_rpc_lookups {N}. Arguments zp_cache_hits {N}.

Section resolver.
Context `{Hex} {N : Type} `{TxSource N}.

Definition display_txid (hash : list Z) : string := hex_encode (reverse hash).

#[export] Instance zakura_lock_script : PreviousOutputs (ZakuraPreviousOutputs N) :=
  fun outpoint self =>
    match OutputCache_get (zp_cache self) outpoint with
    | Some script =>
        (Ok (Some script),
         {| zp_client := zp_client self; zp_cache := zp_cache self;
            zp_rpc_lookups := zp_rpc_lookups self;
            zp_cache_hits := wrap64 (zp_cache_hits self + 1) |})
    | None =>
        let lookups := wrap64 (zp_rpc_lookups self + 1) in
        match node_transaction (display_txid (fst outpoint)) (zp_client self) with
        | (Err e, n) =>
            (Err e, {| zp_client := n; zp_cache := zp_cache self;
                       zp_rpc_lookups := lookups; zp_cache_hits := zp_cache_hits self |})
        | (Ok None, n) =>
            (Ok None, {| zp_client := n; zp_cache := zp_cache self;
                         zp_rpc_lookups := lookups; zp_cache_hits := zp_cache_hits self |})
        | (Ok (Some t), n) =>
            (Ok (tx_outputs t !! Z.to_nat (snd outpoint)),
             {| zp_client := n; zp_cache := OutputCache_insert_transaction (zp_cache self) t;
                zp_rpc_lookups := lookups; zp_cache_hits := zp_cache_hits self |})
        end
    end.

(** The transactions a block still needs, in input order, once each. *)
Definition wanted_step (cache : OutputCache) (acc : list string * list (list Z)) (i : Input) :
    list string * list (list Z) :=
  match i with
  | Coinbase => acc
  | PrevOut outpoint =>
      let '(wanted, seen) := acc in
      if bool_decide (OutputCache_get cache outpoint <> None) then acc
      else if bool_decide (fst outpoint ∈ seen) then acc
      else (wanted ++ [display_txid (fst outpoint)], seen ++ [fst outpoint])
  end.

Definition wanted_transactions (cache : OutputCache) (transactions : list Transaction) : list string :=
  fst (foldl (wanted_step cache) ([], []) (concat (tx_inputs <$> transactions))).

(** [slice.chunks(n)]. *)
Fixpoint chunks {A} (fuel n : nat) (l : list A) : list (list A) :=
  match fuel, l with
  | S fuel, _ :: _ => take n l :: chunks fuel n (drop n l)
  | _, _ => []
  end.

Definition cache_fetched (acc : OutputCache * Z) (t : option Transaction) : OutputCache * Z :=
  match t with
  | Some t => (OutputCache_insert_transaction (fst acc) t, wrap64 (snd acc + 1))
  | None => acc
  end.

Fixpoint prefetch_chunks (batches : list (list string)) (acc : OutputCache * Z) (n : N) :
    result string (OutputCache * Z) * N * OutputCache :=
  match batches with
  | [] => (Ok acc, n, fst acc)
  | chunk :: batches =>
      match node_transactions chunk n with
      | (Err e, n) => (Err e, n, fst acc)
      | (Ok ts, n) => prefetch_chunks batches (foldl cache_fetched acc ts) n
      end
  end.

(** Result, node and the cache as it is left, also on error. *)
Definition prefetch_previous_outputs (cache : OutputCache) (transactions : list Transaction) (n : N) :
    result string Z * N * OutputCache :=
  let wanted := wanted_transactions cache transactions in
  let '(r, n, cache) :=
    prefetch_chunks (chunks (length wanted) PREVOUT_BATCH wanted) (cache, 0) n in
  (match r with Ok (_, fetched) => Ok fetched | Err e => Err e end, n, cache).
End resolver.

(** ** Sorting and deduplication *)

Lemma bytes_leb_refl a : bytes_leb a a = true.
Proof. induction a as [|x a IH]; [done|]. simpl. rewrite IH, Z.eqb_refl. by rewrite orb_true_r. Qed.

#[export] Instance bytes_le_total : Total bytes_le.
Proof.
  intros a. induction a as [|x a IH]; intros [|y b]; unfold bytes_le in *; simpl; auto.
  destruct (x <? y) eqn:E; [by left|]. destruct (y <? x) eqn:E'; [by right|]. bool_prop.
  assert (x = y) as -> by lia. rewrite Z.eqb_refl. simpl. apply IH.
Qed.

#[export] Instance bytes_le_trans : Transitive bytes_le.
Proof.
  intros a. induction a as [|x a IH]; intros [|y b] [|z c]; unfold bytes_le in *; simpl; try done.
  rewrite !orb_true_iff, !andb_true_iff, !Z.ltb_lt, !Z.eqb_eq.
  intros [?|[-> Hab]] [?|[-> Hbc]]; [left; lia|left; lia|left; lia|right].
  split; [done|]. by apply IH with b.
Qed.

#[export] Instance bytes_le_antisymm : AntiSymm (=) bytes_le.
Proof.
  intros a. induction a as [|x a IH]; intros [|y b]; unfold bytes_le in *; simpl; try done.
  rewrite !orb_true_iff, !andb_true_iff, !Z.ltb_lt, !Z.eqb_eq.
  intros [?|[-> Hab]] [?|[? Hba]]; try lia. f_equal. by apply IH.
Qed.

Lemma elem_of_dedup s l : s ∈ dedup l <-> s ∈ l.
Proof.
  induction l as [|x [|y l] IH]; [done|done|]. cbn [dedup] in *.
  case_bool_decide as E.
  - rewrite IH. subst. rewrite !elem_of_cons. tauto.
  - rewrite (elem_of_cons _ _ x), (elem_of_cons (y :: l) _ x), IH. done.
Qed.

Lemma dedup_sorted l :
  StronglySorted bytes_le l -> StronglySorted bytes_le (dedup l) /\ NoDup (dedup l).
Proof.
  induction l as [|x [|y l] IH]; intros Hs; [split; constructor| |].
  { split; [done|apply NoDup_singleton]. }
  apply StronglySorted_inv in Hs as [Hs Hx]. destruct (IH Hs) as [IH1 IH2].
  cbn [dedup] in *. case_bool_decide as E; [done|]. split.
  - constructor; [done|]. rewrite Forall_forall in *. intros s Hin.
    apply Hx. by apply elem_of_dedup.
  - apply NoDup_cons. split; [|done]. intros Hin. apply (elem_of_dedup x (y :: l)) in Hin.
    apply E. apply StronglySorted_inv in Hs as [_ Hy]. rewrite Forall_forall in Hx, Hy.
    apply (anti_symm bytes_le); [apply Hx, list_elem_of_here|].
    apply elem_of_cons in Hin as [->|Hin]; [apply bytes_leb_refl|by apply Hy].
Qed.

(** ** The element set *)

Section spec.
Context (truth : OutPoint -> option ScriptBytes).

(** The script an input spends: an output of this block, or a past one. *)
Definition spent (created : gmap OutPoint ScriptBytes) (o : OutPoint) : option ScriptBytes :=
  match created !! o with Some s => Some s | None => truth o end.

(** The profile's rule. *)
Definition block_element (txs : list Transaction) (s : ScriptBytes) : Prop :=
  ScriptBytes_is_filter_element s = true /\
  exists t, t ∈ txs /\
    (s ∈ tx_outputs t \/
     exists o, PrevOut o ∈ tx_inputs t /\ spent (created_outputs txs) o = Some s).

Context {R : Type} `{PreviousOutputs R} (I : R -> Prop) (ok : OutPoint -> Prop).

(** A resolver that answers the truth whenever it answers. *)
Definition resolves : Prop :=
  forall o r res r', ok o -> I r -> lock_script o r = (res, r') ->
  I r' /\ forall ob, res = Ok ob -> ob = truth o.

Hypothesis Hres : resolves.

Lemma elem_of_push els s x :
  x ∈ push_element els s <-> x ∈ els \/ (x = s /\ ScriptBytes_is_filter_element s = true).
Proof.
  unfold push_element. destruct (ScriptBytes_is_filter_element s).
  - rewrite elem_of_app, list_elem_of_singleton. tauto.
  - split; [by left|]. intros [?|[_ ?]]; done.
Qed.

Lemma elem_of_push_all els ss x :
  x ∈ foldl push_element els ss <->
  x ∈ els \/ (x ∈ ss /\ ScriptBytes_is_filter_element x = true).
Proof.
  revert els. induction ss as [|s ss IH]; intros els; cbn [foldl].
  - rewrite elem_of_nil. tauto.
  - rewrite IH, elem_of_push, elem_of_cons. split.
    + intros [[?|[-> ?]]|[? ?]]; auto.
    + intros [?|[[->|?] ?]]; auto.
Qed.

Lemma resolve_input_spec created o r res r' :
  ok o -> I r -> resolve_input created o r = (res, r') ->
  I r' /\ match res with
          | Ok s => spent created o = Some s
          | Err (XE_MissingPreviousOutput o') => o' = o /\ spent created o = None
          | Err (XE_Lookup _ _) => True
          end.
Proof.
  intros Hok Hr. unfold resolve_input, spent. destruct (created !! o) as [s|].
  { intros [= <- <-]. done. }
  destruct (lock_script o r) as [[[s|]|e] r1] eqn:El; intros [= <- <-];
    destruct (Hres _ _ _ _ Hok Hr El) as [HI Hob]; split; try done.
  - by rewrite <- (Hob _ eq_refl).
  - by rewrite <- (Hob _ eq_refl).
Qed.

Lemma extract_inputs_spec created inputs els r res r' :
  (forall o, PrevOut o ∈ inputs -> ok o) -> I r -> extract_inputs created inputs els r = (res, r') ->
  I r' /\ match res with
  | Ok els' =>
      (forall o, PrevOut o ∈ inputs -> spent created o <> None) /\
      (forall x, x ∈ els' <-> x ∈ els \/ (ScriptBytes_is_filter_element x = true /\
         exists o, PrevOut o ∈ inputs /\ spent created o = Some x))
  | Err (XE_MissingPreviousOutput o) => PrevOut o ∈ inputs /\ spent created o = None
  | Err (XE_Lookup _ _) => True
  end.
Proof.
  revert els r. induction inputs as [|[|o] inputs IH]; intros els r Hok Hr He; cbn [extract_inputs] in He.
  - injection He as <- <-. split; [done|]. split; [by intros o ?%elem_of_nil|].
    intros x. split; [by left|]. intros [?|(_ & o & Ho%elem_of_nil & _)]; done.
  - assert (forall o, PrevOut o ∈ inputs -> ok o) as Hok'
      by (intros o Ho; apply Hok, elem_of_cons; by right).
    destruct (IH _ _ Hok' Hr He) as [HI Hs]. split; [done|].
    destruct res as [els'|[o|]]; [|split; [apply elem_of_cons; right|]; apply Hs|done].
    destruct Hs as [H1 H2]. split.
    + intros o Ho. apply elem_of_cons in Ho as [|Ho]; [done|by apply H1].
    + intros x. rewrite H2. split; (intros [?|(? & o & Ho & ?)]; [by left|right; split; [done|]; exists o]).
      * split; [by apply elem_of_cons; right|done].
      * by apply elem_of_cons in Ho as [|Ho].
  - assert (forall o, PrevOut o ∈ inputs -> ok o) as Hok'
      by (intros o' Ho; apply Hok, elem_of_cons; by right).
    pose proof (Hok o ltac:(apply list_elem_of_here)) as Ho0.
    destruct (resolve_input created o r) as [[s|e] r1] eqn:Er;
      destruct (resolve_input_spec _ _ _ _ _ Ho0 Hr Er) as [HI1 Hs1].
    2:{ injection He as <- <-. split; [done|]. destruct e as [o'|]; [|done].
        destruct Hs1 as [-> ?]. split; [apply list_elem_of_here|done]. }
    destruct (IH _ _ Hok' HI1 He) as [HI Hs]. split; [done|].
    destruct res as [els'|[o'|]]; [|split; [apply elem_of_cons; right|]; apply Hs|done].
    destruct Hs as [H1 H2]. split.
    + intros o' Ho. apply elem_of_cons in Ho as [[= ->]|Ho]; [by rewrite Hs1|by apply H1].
    + intros x. rewrite H2, elem_of_push. split.
      * intros [[?|[-> ?]]|(? & o' & Ho & ?)]; [by left| |].
        -- right. split; [done|]. exists o. split; [apply list_elem_of_here|done].
        -- right. split; [done|]. exists o'. split; [by apply elem_of_cons; right|done].
      * intros [?|(? & o' & Ho & Hsp)]; [by left; left|].
        apply elem_of_cons in Ho as [[= ->]|Ho].
        -- left. right. rewrite Hs1 in Hsp. injection Hsp as ->. done.
        -- right. eauto.
Qed.

Lemma extract_transactions_spec created txs els r res r' :
  (forall t o, t ∈ txs -> PrevOut o ∈ tx_inputs t -> ok o) -> I r -> extract_transactions created txs els r = (res, r') ->
  I r' /\ match res with
  | Ok els' =>
      (forall t o, t ∈ txs -> PrevOut o ∈ tx_inputs t -> spent created o <> None) /\
      (forall x, x ∈ els' <-> x ∈ els \/ (ScriptBytes_is_filter_element x = true /\
         exists t, t ∈ txs /\ (x ∈ tx_outputs t \/
           exists o, PrevOut o ∈ tx_inputs t /\ spent created o = Some x)))
  | Err (XE_MissingPreviousOutput o) =>
      exists t, t ∈ txs /\ PrevOut o ∈ tx_inputs t /\ spent created o = None
  | Err (XE_Lookup _ _) => True
  end.
Proof.
  revert els r. induction txs as [|t txs IH]; intros els r Hok Hr He; cbn [extract_transactions] in He.
  - injection He as <- <-. split; [done|]. split; [by intros t o ?%elem_of_nil|].
    intros x. split; [by left|]. intros [?|(_ & t & Ht%elem_of_nil & _)]; done.
  - assert (forall o, PrevOut o ∈ tx_inputs t -> ok o) as Hok1
      by (intros o; apply Hok, list_elem_of_here).
    assert (forall t o, t ∈ txs -> PrevOut o ∈ tx_inputs t -> ok o) as Hok2
      by (intros t' o Ht'; apply Hok, elem_of_cons; by right).
    destruct (extract_inputs _ _ _ r) as [[els1|e] r1] eqn:Ei;
      destruct (extract_inputs_spec _ _ _ _ _ _ Hok1 Hr Ei) as [HI1 Hs1].
    2:{ injection He as <- <-. split; [done|]. destruct e as [o|]; [|done].
        exists t. split; [apply list_elem_of_here|done]. }
    destruct (IH _ _ Hok2 HI1 He) as [HI Hs]. split; [done|]. destruct Hs1 as [H1 H2].
    destruct res as [els'|[o|]]; [|destruct Hs as (t' & Ht & ?); exists t'; split; [by apply elem_of_cons; right|done]|done].
    destruct Hs as [H3 H4]. split.
    + intros t' o Ht Ho. apply elem_of_cons in Ht as [->|Ht]; [by apply H1|by eapply H3].
    + intros x. rewrite H4, H2, elem_of_push_all. split.
      * intros [[[?|[? ?]]|(? & o & ? & ?)]|(? & t' & Ht & Hx)]; [by left|right..].
        -- split; [done|]. exists t. split; [apply list_elem_of_here|by left].
        -- split; [done|]. exists t. split; [apply list_elem_of_here|right; eauto].
        -- split; [done|]. exists t'. split; [by apply elem_of_cons; right|done].
      * intros [?|(? & t' & Ht & Hx)]; [by auto|].
        apply elem_of_cons in Ht as [->|Ht]; [left|right; eauto].
        destruct Hx as [?|(o & ? & ?)]; [by auto|right; eauto].
Qed.

(** What [extract_elements] returns. *)
Lemma extract_elements_spec txs r res r' :
  (forall t o, t ∈ txs -> PrevOut o ∈ tx_inputs t -> ok o) -> I r -> extract_elements txs r = (res, r') ->
  I r' /\ match res with
  | Ok els =>
      NoDup els /\ StronglySorted bytes_le els /\
      (forall s, s ∈ els <-> block_element txs s) /\
      (forall t o, t ∈ txs -> PrevOut o ∈ tx_inputs t -> spent (created_outputs txs) o <> None)
  | Err (XE_MissingPreviousOutput o) =>
      exists t, t ∈ txs /\ PrevOut o ∈ tx_inputs t /\ spent (created_outputs txs) o = None
  | Err (XE_Lookup _ _) => True
  end.
Proof.
  intros Hok Hr He. unfold extract_elements in He.
  destruct (extract_transactions _ _ _ r) as [[els|e] r1] eqn:Et; injection He as <- <-;
    destruct (extract_transactions_spec _ _ _ _ _ _ Hok Hr Et) as [HI Hs]; (split; [done|]); [|done].
  destruct Hs as [H1 H2].
  destruct (dedup_sorted (merge_sort bytes_le els)) as [H3 H4];
    [apply StronglySorted_merge_sort; apply _|].
  split_and!; [done|done| |done]. intros s. rewrite elem_of_dedup, merge_sort_Permutation, H2.
  unfold block_element. rewrite elem_of_nil. tauto.
Qed.
End spec.

(** ** The cache *)

Section cache.
Context (chain : gmap (list Z) Transaction).

(** Every transaction the node and the block know, by id. *)
Definition chain_wf : Prop :=
  forall h t, chain !! h = Some t -> tx_hash t = h /\ zlen (tx_outputs t) < 2 ^ 32.

Definition on_chain (t : Transaction) : Prop := chain !! tx_hash t = Some t.

Definition chain_truth (o : OutPoint) : option ScriptBytes :=
  t ← chain !! fst o; if snd o <? 0 then None else tx_outputs t !! Z.to_nat (snd o).

(** Every cached script is the chain's. *)
Definition coherent (c : OutputCache) : Prop :=
  forall o s, OutputCache_get c o = Some s -> chain_truth o = Some s.

Hypothesis Hwf : chain_wf.

Lemma tx_outpoints_truth t o s :
  on_chain t -> (o, s) ∈ tx_outpoints t -> chain_truth o = Some s.
Proof.
  intros Ht Hin. apply elem_of_lookup_imap in Hin as (i & s' & Heq & Hi).
  injection Heq as -> ->. unfold chain_truth. cbn [fst snd]. rewrite Ht. simpl.
  destruct (Hwf _ _ Ht) as [_ Hl]. apply lookup_lt_Some in Hi as Hlt. unfold zlen in Hl.
  unfold wrap32. rewrite Z.mod_small by lia. guards. by rewrite Nat2Z.id.
Qed.

Lemma foldl_insert_Some (l : list (OutPoint * ScriptBytes)) (m : gmap OutPoint ScriptBytes) o s :
  foldl (fun m p => <[fst p := snd p]> m) m l !! o = Some s ->
  m !! o = Some s \/ (o, s) ∈ l.
Proof.
  revert m. induction l as [|[o' s'] l IH]; intros m Hl; cbn [foldl] in Hl; [by left|].
  destruct (IH _ Hl) as [Hm|Hm]; [|right; by apply elem_of_cons; right].
  cbn [fst snd] in Hm. destruct (decide (o' = o)) as [->|].
  - rewrite lookup_insert_eq in Hm. injection Hm as ->. right. apply list_elem_of_here.
  - rewrite lookup_insert_ne in Hm by done. by left.
Qed.

Lemma evict_outputs_sub m txid n : evict_outputs m txid n ⊆ m.
Proof.
  unfold evict_outputs. generalize (seq 0 (Z.to_nat n)). intros l. revert m.
  induction l as [|i l IH]; intros m; [done|]. cbn [foldl]. etrans; [apply IH|].
  apply delete_subseteq.
Qed.

Lemma evict_sub m order cap : fst (evict m order cap) ⊆ m.
Proof.
  revert m. induction order as [|[tx n] order IH]; intros m; cbn [evict]; [done|].
  destruct (_ <? _); [|done]. etrans; [apply IH|apply evict_outputs_sub].
Qed.

(** Inserting a transaction of the chain keeps the cache coherent, whatever is
    evicted. *)
Lemma insert_coherent c t : coherent c -> on_chain t -> coherent (OutputCache_insert_transaction c t).
Proof.
  intros Hc Ht o s. unfold OutputCache_insert_transaction, OutputCache_get.
  set (m := foldl _ _ _).
  assert (forall o s, m !! o = Some s -> chain_truth o = Some s) as Hm.
  { intros o' s' Ho. apply foldl_insert_Some in Ho as [Ho|Ho]; [by apply Hc|].
    by apply (tx_outpoints_truth t). }
  case_bool_decide; [apply Hm|].
  destruct (evict m _ _) as [m' ord] eqn:Ee. intros Ho. apply Hm.
  pose proof (evict_sub m (oc_order c ++ [(tx_hash t, wrap32 (zlen (tx_outputs t)))]) (oc_capacity c)) as Hs.
  rewrite Ee in Hs. by eapply lookup_weaken.
Qed.

Context `{Hex} {N : Type} `{TxSource N}.

(** An honest node: what it returns is on the chain, and a single lookup finds
    exactly the transaction with that id. *)
Class HonestNode : Prop := {
  honest_single h n r n' : bytes_ok h ->
    node_transaction (display_txid h) n = (Ok r, n') -> r = chain !! h;
  honest_batch ids n ts n' t :
    node_transactions ids n = (Ok ts, n') -> Some t ∈ ts -> on_chain t }.

Context `{!HonestNode}.

(** The type invariant of an outpoint: a byte array and a [u32] index. *)
Definition outpoint_ok (o : OutPoint) : Prop := bytes_ok (fst o) /\ 0 <= snd o.

Lemma zakura_resolves :
  resolves chain_truth (fun r : ZakuraPreviousOutputs N => coherent (zp_cache r)) outpoint_ok.
Proof.
  intros o r res r' [Hb Ho] Hc. unfold lock_script, zakura_lock_script.
  destruct (OutputCache_get (zp_cache r) o) as [s|] eqn:Eg.
  { intros [= <- <-]. split; [done|]. intros ob [= <-]. symmetry. by apply Hc. }
  destruct (node_transaction _ _) as [[[t|]|e] n] eqn:En; intros [= <- <-]; cbn [zp_cache].
  - apply honest_single in En; [|done]. symmetry in En.
    destruct (Hwf _ _ En) as [Hh _]. split; [apply insert_coherent; [done|]|].
    { unfold on_chain. by rewrite Hh. }
    intros ob [= <-]. unfold chain_truth. rewrite En. simpl. by guards.
  - split; [done|]. intros ob [= <-]. apply honest_single in En; [|done].
    unfold chain_truth. by rewrite <- En.
  - done.
Qed.

Lemma prefetch_coherent c txs n r n' c' :
  coherent c -> prefetch_previous_outputs c txs n = (r, n', c') -> coherent c'.
Proof.
  intros Hc. unfold prefetch_previous_outputs.
  generalize (chunks (length (wanted_transactions c txs)) PREVOUT_BATCH (wanted_transactions c txs)).
  intros batches. generalize 0. revert c n Hc. 
  induction batches as [|b batches IH]; intros c n Hc k; cbn [prefetch_chunks].
  { by intros [= <- <- <-]. }
  destruct (node_transactions b n) as [[ts|e] n1] eqn:En; [|by intros [= <- <- <-]].
  assert (Forall (fun t => forall t', t = Some t' -> on_chain t') ts) as Hts.
  { apply Forall_forall. intros t Ht t' ->. by eapply honest_batch. }
  clear En. assert (coherent (fst (foldl cache_fetched (c, k) ts))) as Hc'.
  { revert c k Hc. induction Hts as [|t ts Ht _ IHts]; intros c k Hc; [done|].
    cbn [foldl]. destruct t as [t|]; cbn [cache_fetched fst snd]; apply IHts; [|done].
    apply insert_coherent; [done|by apply Ht]. }
  destruct (foldl cache_fetched (c, k) ts) as [c1 k1]. simpl in Hc'.
  exact (IH c1 n1 Hc' k1).
Qed.
End cache.
