(* ===== verification/FilterIngest.v ===== *)
(** * Following the best chain

    Models [server/transparent-filter-server/src/ingest.rs]: [build_block_filter],
    [reconcile] and one pass of the loop of [run] (reconcile, catch up, commit).
    The node is the class [Zakura] with a threaded state, so its best chain may
    change between any two calls.  The theorems give the exact element set of a
    built filter, what reconciliation leaves when the node's chain is stable,
    and an execution in which a chain replacement during catch-up leaves a stale
    block that no later reconciliation removes. *)

From Stdlib Require Import ZArith Lia.
From stdpp Require Import base numbers list strings gmap sorting.
From S2P Require Import Prelude FilterTypes Instances BitStream Validate Matching FilterStore FilterService Extract.

Open Scope Z_scope.

(** ** The node *)

Class Zakura (N : Type) := {
  zakura_source :: TxSource N;
  node_tip_height : N -> result string Z * N;
  node_block_hash : Z -> N -> result string string * N;
  node_block : Z -> N -> result string (string * list Transaction) * N }.

(** [BoxError]: which call failed. *)
Inductive IngestError :=
| IE_Node (m : string)
| IE_Filter (e : FilterError)
| IE_Extract (e : ExtractError)
| IE_Store (e : StoreError).

Record BuiltFilter := {
  bf_block_hash : BlockHash; bf_filter : list Z; bf_rpc_lookups : Z; bf_cache_hits : Z }.

Section ingest.
Context `{Hex} `{Sha256} `{SipHash24} `{GcsWriter} {N : Type} `{Zakura N}.

Definition build_block_filter (height : Z) (cache : OutputCache) (n : N) :
    result IngestError BuiltFilter * OutputCache * N :=
  match node_block height n with
  | (Err e, n) => (Err (IE_Node e), cache, n)
  | (Ok (hash_display, transactions), n) =>
  match BlockHash_from_display_hex hash_display with
  | Err e => (Err (IE_Filter e), cache, n)
  | Ok block_hash =>
  let cache := foldl OutputCache_insert_transaction cache transactions in
  match prefetch_previous_outputs cache transactions n with
  | (Err e, n, cache) => (Err (IE_Node e), cache, n)
  | (Ok batched, n, cache) =>
  let previous := {| zp_client := n; zp_cache := cache; zp_rpc_lookups := 0; zp_cache_hits := 0 |} in
  match extract_elements transactions previous with
  | (result, previous) =>
  let cache := zp_cache previous in
  let n := zp_client previous in
  match result with
  | Err e => (Err (IE_Extract e), cache, n)
  | Ok elements =>
  match build_filter block_hash elements with
  | Err e => (Err (IE_Filter e), cache, n)
  | Ok filter =>
      (Ok {| bf_block_hash := block_hash; bf_filter := filter;
             bf_rpc_lookups := wrap64 (zp_rpc_lookups previous + batched);
             bf_cache_hits := zp_cache_hits previous |}, cache, n)
  end end end end end end.

(** [height.checked_sub(1)]. *)
Definition below (height : Z) : option Z := checked_sub64 height 1.

(** The loop of [reconcile]; each iteration that does not stop drops the top
    block, so one iteration per covered block, and one more, is enough. *)
Fixpoint reconcile_loop (fuel : nat) (store : FilterStore) (tip : Z) (n : N) :
    result IngestError unit * FilterStore * list fop * N :=
  match fuel with
  | O => (Ok tt, store, [], n)
  | S fuel =>
      match FilterStore_covered_through store with
      | None => (Ok tt, store, [], n)
      | Some height =>
          let stored := FilterStore_block_hash_at store height in
          let rollback (n : N) :=
            let '(store, ops) := FilterStore_rollback_to store (below height) in
            let '(r, store, ops', n) := reconcile_loop fuel store tip n in
            (r, store, ops ++ ops', n) in
          if height <=? tip then
            match node_block_hash height n with
            | (Err e, n) => (Err (IE_Node e), store, [], n)
            | (Ok text, n) =>
                match BlockHash_from_display_hex text with
                | Err e => (Err (IE_Filter e), store, [], n)
                | Ok canonical =>
                    if bool_decide (Some canonical = stored) then (Ok tt, store, [], n)
                    else rollback n
                end
            end
          else rollback n
      end
  end.

Definition reconcile (store : FilterStore) (tip : Z) (n : N) :
    result IngestError unit * FilterStore * list fop * N :=
  reconcile_loop (S (length (fs_chain store))) store tip n.

(** The [while next <= tip] loop of [run]. *)
Fixpoint catch_up (fuel : nat) (commit_every tip next since_commit : Z)
    (cache : OutputCache) (store : FilterStore) (n : N) :
    result IngestError unit * OutputCache * FilterStore * list fop * N :=
  match fuel with
  | O => (Ok tt, cache, store, [], n)
  | S fuel =>
      if tip <? next then (Ok tt, cache, store, [], n) else
      match build_block_filter next cache n with
      | (Err e, cache, n) => (Err e, cache, store, [], n)
      | (Ok built, cache, n) =>
      if negb (FilterStore_next_height store =? next) then (Ok tt, cache, store, [], n) else
      match FilterStore_append store next (bf_block_hash built) (bf_filter built) with
      | Err e => (Err (IE_Store e), cache, store, [], n)
      | Ok (store, ops) =>
      let since_commit := wrap64 (since_commit + 1) in
      let '(ops, since_commit) :=
        if commit_every <=? since_commit then (ops ++ FilterStore_commit store, 0)
        else (ops, since_commit) in
      let '(r, cache, store, ops', n) :=
        catch_up fuel commit_every tip (wrap64 (next + 1)) since_commit cache store n in
      (r, cache, store, ops ++ ops', n)
      end end
  end.

(** One pass of the outer loop of [run]; the pass ends at the sleep or at an
    error, which the caller turns into [Phase::Failed] and a retry. *)
Definition run_pass (commit_every : Z) (cache : OutputCache) (i : Inner) (n : N) :
    result IngestError unit * OutputCache * Inner * list fop * N :=
  match node_tip_height n with
  | (Err e, n) => (Err (IE_Node e), cache, i, [], n)
  | (Ok tip, n) =>
  let i := set_tip i tip in
  let with_store s := {| in_store := s; in_phase := in_phase i; in_tip_height := in_tip_height i |} in
  match reconcile (in_store i) tip n with
  | (Err e, store, ops, n) => (Err e, cache, with_store store, ops, n)
  | (Ok _, store, ops, n) =>
  let next := FilterStore_next_height store in
  if tip <? next then (Ok tt, cache, set_phase (with_store store) Serving, ops, n) else
  let i := set_phase (with_store store) (Syncing (below next) tip) in
  match catch_up (Z.to_nat (tip - next + 1)) commit_every tip next 0 cache store n with
  | (Err e, cache, store, ops', n) =>
      (Err e, cache, {| in_store := store; in_phase := in_phase i; in_tip_height := in_tip_height i |},
       ops ++ ops', n)
  | (Ok _, cache, store, ops', n) =>
      (Ok tt, cache,
       set_phase {| in_store := store; in_phase := in_phase i; in_tip_height := in_tip_height i |} Serving,
       ops ++ ops' ++ FilterStore_commit store, n)
  end end end.
End ingest.

(** ** Reconciliation against a stable node *)

Section reconcile.
Context `{HexLaws} {N : Type} `{Zakura N} (canon : Z -> BlockHash).

(** The node answers one fixed best chain. *)
Definition stable_node : Prop :=
  (forall h, hash_ok (canon h)) /\
  forall h n, node_block_hash h n = (Ok (BlockHash_to_display_hex (canon h)), n).

Hypothesis Hnode : stable_node.

Definition heights_ok (s : FilterStore) : Prop :=
  0 <= meta_start_height (fs_meta s) /\
  meta_start_height (fs_meta s) + zlen (fs_chain s) < u64_bound.

(** The first [k] blocks are left: the last of them is the node's, and no later
    one is both within the tip and the node's. *)
Definition reconciled (s s' : FilterStore) (tip : Z) (k : nat) : Prop :=
  fs_chain s' = take k (fs_chain s) /\ (k <= length (fs_chain s))%nat /\
  fs_meta s' = fs_meta s /\ fs_by_hash s' = fs_by_hash s /\
  (forall h, fs_chain s !! pred k = Some h -> (0 < k)%nat ->
     meta_start_height (fs_meta s) + Z.of_nat k - 1 <= tip /\
     h = canon (meta_start_height (fs_meta s) + Z.of_nat k - 1)) /\
  (forall j h, (k <= j)%nat -> fs_chain s !! j = Some h ->
     tip < meta_start_height (fs_meta s) + Z.of_nat j \/
     h <> canon (meta_start_height (fs_meta s) + Z.of_nat j)).

Lemma rollback_top s :
  heights_ok s -> fs_chain s <> [] ->
  exists ops, FilterStore_rollback_to s
    (below (meta_start_height (fs_meta s) + zlen (fs_chain s) - 1)) =
    ({| fs_meta := fs_meta s; fs_by_hash := fs_by_hash s;
        fs_chain := take (pred (length (fs_chain s))) (fs_chain s);
        fs_filters_len := fs_filters_len s |}, ops).
Proof.
  intros [Hs Hl] Hne.
  assert (0 < zlen (fs_chain s)) as Hpos by (destruct (fs_chain s); [done|unfold zlen; simpl; lia]).
  assert (rollback_keep s (below (meta_start_height (fs_meta s) + zlen (fs_chain s) - 1))
          = zlen (fs_chain s) - 1) as Hk.
  { unfold rollback_keep, below, checked_sub64.
    destruct (1 <=? _) eqn:E; bool_prop; [|lia].
    destruct (_ <? meta_start_height _) eqn:E2; bool_prop; [lia|].
    unfold wrap64. rewrite Z.mod_small; lia. }
  unfold FilterStore_rollback_to. unfold rollback_keep in Hk. rewrite Hk.
  eexists. f_equal. f_equal. f_equal. unfold zlen. lia.
Qed.

(** A top block that is not the node's is dropped, and the rest reconciled. *)
Lemma reconciled_drop s s1 s' tip k top :
  fs_chain s1 = take (pred (length (fs_chain s))) (fs_chain s) ->
  fs_meta s1 = fs_meta s -> fs_by_hash s1 = fs_by_hash s -> (0 < length (fs_chain s))%nat ->
  fs_chain s !! pred (length (fs_chain s)) = Some top ->
  (tip < meta_start_height (fs_meta s) + zlen (fs_chain s) - 1 \/
   top <> canon (meta_start_height (fs_meta s) + zlen (fs_chain s) - 1)) ->
  reconciled s1 s' tip k -> reconciled s s' tip k.
Proof.
  intros Hc1 Hm1 Hb1 Hpos Hl Hbad (Hc & Hkl & Hm & Hb & Hlast & Hrest).
  rewrite Hc1, ?Hm1, ?Hb1 in *. rewrite length_take in Hkl. unfold reconciled. split_and!; try done.
  - rewrite Hc, take_take. f_equal. lia.
  - lia.
  - intros h Hh Hk0. apply Hlast; [|done]. rewrite lookup_take_lt by lia. done.
  - intros j h Hj Hjl. destruct (decide (j = pred (length (fs_chain s)))) as [->|].
    + rewrite Hl in Hjl. injection Hjl as <-.
      replace (meta_start_height (fs_meta s) + Z.of_nat (pred (length (fs_chain s))))
        with (meta_start_height (fs_meta s) + zlen (fs_chain s) - 1) by (unfold zlen; lia). exact Hbad.
    + apply Hrest; [done|]. apply lookup_lt_Some in Hjl as Hlt. by rewrite lookup_take_lt by lia.
Qed.

Lemma reconcile_loop_spec fuel s tip n :
  heights_ok s -> (length (fs_chain s) < fuel)%nat ->
  exists s' ops k, reconcile_loop fuel s tip n = (Ok tt, s', ops, n) /\ reconciled s s' tip k.
Proof.
  revert s. induction fuel as [|fuel IH]; intros s Hh Hf; [lia|]. cbn [reconcile_loop].
  unfold FilterStore_covered_through.
  destruct (decide (fs_chain s = [])) as [He|Hne].
  { rewrite He. exists s, [], 0%nat. split; [done|].
    unfold reconciled. rewrite He. by split_and!. }
  set (start := meta_start_height (fs_meta s)) in *.
  assert (0 < length (fs_chain s))%nat as Hpos by (destruct (fs_chain s); [done|simpl; lia]).
  destruct (rollback_top s Hh Hne) as (ops0 & Hrb). fold start in Hrb.
  destruct Hh as [Hs0 Hlen]. fold start in Hs0, Hlen.
  assert (wrap64 (start + zlen (fs_chain s) - 1) = start + zlen (fs_chain s) - 1) as Hw
    by (unfold wrap64, zlen in *; rewrite Z.mod_small; lia).
  assert (match fs_chain s with
    | [] => None | _ :: _ => Some (wrap64 (start + zlen (fs_chain s) - 1)) end
    = Some (start + zlen (fs_chain s) - 1)) as -> by (rewrite Hw; by destruct (fs_chain s)).
  set (height := start + zlen (fs_chain s) - 1) in *.
  assert (FilterStore_block_hash_at s height = fs_chain s !! pred (length (fs_chain s))) as Htop.
  { unfold FilterStore_block_hash_at. fold start. unfold height, zlen in *. guards.
    f_equal. lia. }
  rewrite Htop, Hrb.
  destruct (lookup_lt_is_Some_2 (fs_chain s) (pred (length (fs_chain s)))) as [top Hl]; [lia|].
  set (s1 := {| fs_meta := fs_meta s; fs_by_hash := fs_by_hash s;
                fs_chain := take (pred (length (fs_chain s))) (fs_chain s);
                fs_filters_len := fs_filters_len s |}) in *.
  destruct (IH s1) as (s' & ops & k & Hrec & Hk).
  { split; [done|]. cbn [s1 fs_meta fs_chain]. fold start. unfold zlen in *.
    rewrite length_take. lia. }
  { cbn [s1 fs_chain]. rewrite length_take. lia. }
  assert (Hdrop : tip < height \/ top <> canon height ->
    exists s' ops k, (let '(r, store, ops', n0) := reconcile_loop fuel s1 tip n in
      (r, store, ops0 ++ ops', n0)) = (Ok tt, s', ops, n) /\ reconciled s s' tip k).
  { intros Hbad. rewrite Hrec. exists s', (ops0 ++ ops), k. split; [done|].
    by apply (reconciled_drop s s1 s' tip k top). }
  destruct (height <=? tip) eqn:Et; bool_prop; [|apply Hdrop; by left].
  destruct Hnode as [Hcok Hn]. rewrite Hn, from_to_display_hex by apply Hcok. rewrite Hl.
  case_bool_decide as Eb.
  - injection Eb as <-. exists s, [], (length (fs_chain s)). split; [done|].
    unfold reconciled. fold start. rewrite take_ge by lia. split_and!; try done.
    + intros h Hh _. rewrite Hl in Hh. injection Hh as <-.
      replace (start + Z.of_nat (length (fs_chain s)) - 1) with height by (unfold height, zlen; lia).
      done.
    + intros j h Hj Hjl. apply lookup_lt_Some in Hjl. lia.
  - apply Hdrop. right. congruence.
Qed.
End reconcile.

(** ** Properties *)

(** C14: the filter of a block is the filter of exactly its elements.  With an
    honest node and a coherent cache, of whatever capacity and content, a
    successful [build_block_filter] used an element list that is sorted, without
    repetition, and contains exactly the eligible output scripts of the block
    and the eligible scripts its inputs spend; every input was resolved; and the
    cache stays coherent.  An input that cannot be resolved is always an
    error. *)
Theorem block_filter_exact `{HexLaws} `{GcsWriter} {N} `{Zakura N} chain `{!HonestNode chain}
    height cache (n : N) built cache' n' text txs n1 :
  chain_wf chain -> coherent chain cache ->
  node_block height n = (Ok (text, txs), n1) ->
  (forall t, t ∈ txs -> on_chain chain t) ->
  (forall t o, t ∈ txs -> PrevOut o ∈ tx_inputs t -> outpoint_ok o) ->
  build_block_filter height cache n = (Ok built, cache', n') ->
  BlockHash_from_display_hex text = Ok (bf_block_hash built) /\
  exists els, build_filter (bf_block_hash built) els = Ok (bf_filter built) /\
    NoDup els /\ StronglySorted bytes_le els /\
    (forall s, s ∈ els <-> block_element (chain_truth chain) txs s) /\
    (forall t o, t ∈ txs -> PrevOut o ∈ tx_inputs t ->
       spent (chain_truth chain) (created_outputs txs) o <> None) /\
    coherent chain cache'.
Proof.
  intros Hwf Hc Hb Htx Hop Hbuild. unfold build_block_filter in Hbuild. rewrite Hb in Hbuild.
  destruct (BlockHash_from_display_hex text) as [bh|] eqn:Eh; [|done].
  assert (coherent chain (foldl OutputCache_insert_transaction cache txs)) as Hc1.
  { clear -Hwf Hc Htx. revert cache Hc. induction txs as [|t txs IH]; intros cache Hc; [done|].
    cbn [foldl]. apply IH; [intros t' Ht'; apply Htx, elem_of_cons; by right|].
    apply insert_coherent; [done|done|]. apply Htx, list_elem_of_here. }
  destruct (prefetch_previous_outputs _ txs n1) as [[[batched|e] n2] c2] eqn:Ep; [|done].
  apply (prefetch_coherent chain Hwf) in Ep; [|done].
  destruct (extract_elements txs _) as [[els|e] prev] eqn:Ee; [|done].
  match type of Ee with extract_elements _ ?p = _ => change (coherent chain (zp_cache p)) in Ep end.
  destruct (extract_elements_spec (chain_truth chain) _ _ (zakura_resolves chain Hwf) _ _ _ _ Hop Ep Ee)
    as [Hc3 (Hnd & Hsort & Hels & Hall)].
  destruct (build_filter bh els) as [filter|] eqn:Ef; [|done].
  injection Hbuild as <- <- <-. cbn [bf_block_hash bf_filter]. split; [done|].
  exists els. by split_and!.
Qed.

(** With a stable node, [reconcile] terminates, drops only blocks above the
    tip or on which the node disagrees, stops at the first block from the top on
    which the node agrees, and leaves the stored filters alone. *)
Theorem reconcile_agrees `{HexLaws} {N} `{Zakura N} canon s tip (n : N) :
  stable_node canon -> heights_ok s ->
  exists s' ops k, reconcile s tip n = (Ok tt, s', ops, n) /\ reconciled canon s s' tip k.
Proof. intros Hn Hh. apply reconcile_loop_spec; [done|done|lia]. Qed.

(** ** A node whose best chain changes once *)

(** Two branches from height 100, the second longer; the node switches to it
    when it has served its first block. *)
Definition branch (b : bool) (h : Z) : BlockHash :=
  (if b then 2 else 1) :: h :: replicate 30 0.

Definition empty_block (b : bool) (h : Z) : string * list Transaction :=
  (@BlockHash_to_display_hex ascii_hex (branch b h), []).

#[export] Instance switching_source : TxSource bool := {|
  node_transaction _ n := (Ok None, n);
  node_transactions ids n := (Ok ((fun _ => None) <$> ids), n) |}.

#[export] Instance switching_node : Zakura bool := {|
  node_tip_height n := (Ok 101, n);
  node_block_hash h n := (Ok (fst (empty_block n h)), n);
  node_block h n := (Ok (empty_block n h), true) |}.

Definition ingest_once (i : Inner) (n : bool) : result IngestError unit * Inner * bool :=
  let '(r, _, i, _, n) :=
    @run_pass ascii_hex checksum32 (@gcs_reference mulhash64) bool switching_node 1000
      (OutputCache_new 16) i n in
  (r, i, n).

(** A chain replacement during catch-up leaves a stale block.  The node
    replaces its best chain after the first block of a pass was fetched.  The
    pass succeeds and records a chain that mixes the two branches; every later
    pass, against the now stable node, succeeds and keeps the stale block at
    height 100, because reconciliation stops at the first agreeing block from
    the top and [append] never compares a block with its predecessor. *)
Theorem reorg_during_catch_up_sticks :
  exists i1 i2,
    ingest_once (ServiceState_new empty_store) false = (Ok tt, i1, true) /\
    ingest_once i1 true = (Ok tt, i2, true) /\
    fs_chain (in_store i1) = [branch false 100; branch true 101] /\
    fs_chain (in_store i2) = fs_chain (in_store i1) /\
    FilterStore_block_hash_at (in_store i2) 100 <> Some (branch true 100) /\
    in_phase i2 = Serving.
Proof.
  eexists _, _. split; [vm_compute; reflexivity|]. split; [vm_compute; reflexivity|].
  split; [reflexivity|]. split; [reflexivity|]. split; [discriminate|reflexivity].
Qed.

(** ** Witnesses *)

Lemma switching_stable : @stable_node ascii_hex bool
  {| node_tip_height n := (Ok 101, n);
     node_block_hash h n := (Ok (@BlockHash_to_display_hex ascii_hex (branch true (h mod 256))), n);
     node_block h n := (Ok (empty_block true h), true) |} (fun h => branch true (h mod 256)).
Proof.
  split; [|done]. intros h. split; [done|]. unfold branch.
  pose proof (Z.mod_pos_bound h 256 ltac:(lia)).
  do 2 (apply Forall_cons; split; [unfold byte_ok; lia|]).
  by apply Forall_replicate.
Qed.

Lemma reconcile_agrees_witness :
  exists s' ops k, @reconcile ascii_hex bool
    {| node_tip_height n := (Ok 101, n);
       node_block_hash h n := (Ok (@BlockHash_to_display_hex ascii_hex (branch true (h mod 256))), n);
       node_block h n := (Ok (empty_block true h), true) |} (fst one_block) 101 false
    = (Ok tt, s', ops, false) /\
    reconciled (fun h => branch true (h mod 256)) (fst one_block) s' 101 k.
Proof.
  apply (@reconcile_agrees ascii_hex ascii_hex_laws bool _ (fun h => branch true (h mod 256))).
  - apply switching_stable.
  - split; [discriminate|reflexivity].
Defined.

(** A node that knows a set of transactions and finds them by decoding the
    requested id. *)
Definition known (txs : list Transaction) : gmap (list Z) Transaction :=
  list_to_map ((fun t => (tx_hash t, t)) <$> txs).

Definition find_known (txs : list Transaction) (id : string) : option Transaction :=
  bs ← @hex_decode ascii_hex id; known txs !! reverse bs.

Definition known_source (txs : list Transaction) : TxSource unit := {|
  node_transaction id n := (Ok (find_known txs id), n);
  node_transactions ids n := (Ok (find_known txs <$> ids), n) |}.

Lemma known_Some txs h t : known txs !! h = Some t -> tx_hash t = h /\ t ∈ txs.
Proof.
  intros Ht%elem_of_list_to_map_2. apply list_elem_of_fmap in Ht as (t' & [= -> ->] & Hin). done.
Qed.

Lemma known_wf txs : Forall (fun t => zlen (tx_outputs t) < 2 ^ 32) txs -> chain_wf (known txs).
Proof.
  rewrite Forall_forall. intros Hf h t Ht. destruct (known_Some _ _ _ Ht) as [Hh Hin]. auto.
Qed.

Lemma known_honest txs : @HonestNode (known txs) ascii_hex unit (known_source txs).
Proof.
  split.
  - intros h n r n' Hb Hn. assert (r = find_known txs (@display_txid ascii_hex h)) as -> by (cbn in Hn |- *; congruence).
    unfold find_known, display_txid.
    rewrite (@hex_decode_encode ascii_hex ascii_hex_laws) by (by apply Forall_reverse). cbn [mbind option_bind]. by rewrite reverse_involutive.
  - intros ids n ts n' t Hn Hin. cbn [node_transactions known_source] in Hn. injection Hn as <- _.
    apply list_elem_of_fmap in Hin as (id & Ht & _). unfold find_known in Ht. symmetry in Ht.
    apply bind_Some in Ht as (bs & _ & Ht). unfold on_chain.
    destruct (known_Some _ _ _ Ht) as [-> _]. exact Ht.
Qed.

(** Two past transactions and a block of two: a coinbase, and a transaction that
    spends a cached output, an output the node must be asked for and an output
    of its own block, and pays to a script and to an [OP_RETURN]. *)
Definition past_cached : Transaction := {|
  tx_hash := replicate 32 1; tx_inputs := [Coinbase]; tx_outputs := [[118; 169; 1]] |}.
Definition past_fetched : Transaction := {|
  tx_hash := replicate 32 2; tx_inputs := [Coinbase]; tx_outputs := [[81]; [118; 169; 2]] |}.
Definition block_coinbase : Transaction := {|
  tx_hash := replicate 32 3; tx_inputs := [Coinbase]; tx_outputs := [[118; 169; 3]] |}.
Definition block_spend : Transaction := {|
  tx_hash := replicate 32 4;
  tx_inputs := [PrevOut (replicate 32 1, 0); PrevOut (replicate 32 2, 1); PrevOut (replicate 32 3, 0)];
  tx_outputs := [[118; 169; 4]; [106; 1; 7]] |}.

Definition all_txs : list Transaction := [past_cached; past_fetched; block_coinbase; block_spend].

Definition spending_node : Zakura unit := {|
  zakura_source := known_source all_txs;
  node_tip_height n := (Ok 100, n);
  node_block_hash h n := (Ok (@BlockHash_to_display_hex ascii_hex (branch true h)), n);
  node_block h n :=
    (Ok (@BlockHash_to_display_hex ascii_hex (branch true h), [block_coinbase; block_spend]), n) |}.

(** The cache holds one of the past transactions. *)
Definition warm_cache : OutputCache :=
  OutputCache_insert_transaction (OutputCache_new 4) past_cached.

Lemma known_all_wf : chain_wf (known all_txs).
Proof. apply known_wf. repeat constructor. Qed.

Lemma warm_cache_coherent : coherent (known all_txs) warm_cache.
Proof.
  apply (insert_coherent _ known_all_wf); [|reflexivity].
  intros o s Ho. unfold OutputCache_get in Ho. cbn in Ho. by rewrite lookup_empty in Ho.
Qed.

Lemma block_outpoints_ok t o :
  t ∈ [block_coinbase; block_spend] -> PrevOut o ∈ tx_inputs t -> outpoint_ok o.
Proof.
  intros Ht Ho. rewrite !elem_of_cons, elem_of_nil in Ht.
  destruct Ht as [->|[->|[]]]; cbn [tx_inputs block_coinbase block_spend] in Ho;
    rewrite !elem_of_cons, elem_of_nil in Ho; destruct_or? Ho; try done;
    injection Ho as ->; (split; [repeat constructor; discriminate|discriminate]).
Qed.

(** The fetched transaction's other output is not spent here. *)
Lemma change_not_element :
  ~ block_element (chain_truth (known all_txs)) [block_coinbase; block_spend] [81].
Proof.
  intros (_ & t & Ht & Hx). rewrite !elem_of_cons, elem_of_nil in Ht.
    destruct Ht as [->|[->|[]]]; cbn [tx_inputs tx_outputs block_coinbase block_spend] in Hx;
      rewrite !elem_of_cons, elem_of_nil in Hx; destruct Hx as [Hx|(o & Ho & Hs)];
      try (destruct_or? Hx; discriminate);
      rewrite !elem_of_cons, elem_of_nil in Ho; destruct_or? Ho; try done;
      injection Ho as ->; vm_compute in Hs; discriminate.
Qed.

Lemma block_filter_exact_witness :
  exists built els, (exists cache' n', @build_block_filter ascii_hex (@gcs_reference mulhash64) unit
      spending_node 100 warm_cache tt = (Ok built, cache', n')) /\
    bf_block_hash built = branch true 100 /\
    @build_filter (@gcs_reference mulhash64) (bf_block_hash built) els = Ok (bf_filter built) /\
    OutputCache_get warm_cache (replicate 32 1, 0) = Some [118; 169; 1] /\
    OutputCache_get warm_cache (replicate 32 2, 1) = None /\
    Forall (fun s => s ∈ els) [[118; 169; 1]; [118; 169; 2]; [118; 169; 3]; [118; 169; 4]] /\
    ([106; 1; 7] ∉ els) /\ ([81] ∉ els).
Proof.
  set (txs := [block_coinbase; block_spend]).
  destruct (@build_block_filter ascii_hex (@gcs_reference mulhash64) unit spending_node 100
    warm_cache tt) as [[[built|e] cache'] n'] eqn:E; [|exfalso; vm_compute in E; discriminate].
  destruct (@block_filter_exact ascii_hex ascii_hex_laws (@gcs_reference mulhash64) unit spending_node
    (known all_txs) (known_honest all_txs) 100 warm_cache tt built cache' n'
    (@BlockHash_to_display_hex ascii_hex (branch true 100)) txs tt)
    as (Hh & els & Hf & _ & _ & Hels & _).
  - exact known_all_wf.
  - exact warm_cache_coherent.
  - reflexivity.
  - apply Forall_forall. repeat constructor.
  - exact block_outpoints_ok.
  - exact E.
  - exists built, els. split; [exists cache', n'; reflexivity|].
    split; [vm_compute in Hh; injection Hh as Hh; symmetry; exact Hh|].
    split; [exact Hf|]. split; [reflexivity|]. split; [reflexivity|].
    assert (Hin : forall o s, PrevOut o ∈ tx_inputs block_spend ->
      spent (chain_truth (known all_txs)) (created_outputs txs) o = Some s ->
      ScriptBytes_is_filter_element s = true -> s ∈ els).
    { intros o s Ho Hs He. apply Hels. split; [exact He|]. exists block_spend.
      split; [right; left|]. right. exists o. split; [exact Ho|exact Hs]. }
    split; [|split].
    + repeat (apply Forall_cons; split); [| | | |apply Forall_nil; exact I].
      * apply (Hin (replicate 32 1, 0)); [left|reflexivity|reflexivity].
      * apply (Hin (replicate 32 2, 1)); [right; left|reflexivity|reflexivity].
      * apply (Hin (replicate 32 3, 0)); [right; right; left|reflexivity|reflexivity].
      * apply Hels. split; [reflexivity|]. exists block_spend. split; [right; left|left; left].
    + intros [He _]%Hels. discriminate He.
    + intros Hx%Hels. exact (change_not_element Hx).
Defined.
