(* ===== verification/EnhanceTypes.v ===== *)
(** * Enhance PIR: records, geometry and the query session

    Models [pir/enhance/src/types.rs], [pir/enhance/src/client.rs] (the session
    and its checks) and the layouts of [server/enhance-pir-server/src/types.rs].
    The iPIR scheme ([ipir_sp]) is outside the repository: its functions are the
    operations of the class [Ipir].  The theorems give the record layout's round
    trip, the geometry every accepted session has (each covered position has one
    row and slot inside the database), and what an accepted response carries. *)

From Stdlib Require Import ZArith Lia.
From stdpp Require Import base numbers list strings gmap.
From S2P Require Import Prelude FilterTypes Instances.

Open Scope Z_scope.

(** ** Machine integers *)

(** [u64::next_power_of_two], wrapping to 0 above [2^63]. *)
Definition next_power_of_two (n : Z) : Z := wrap64 (if n <=? 1 then 1 else 2 ^ Z.log2_up n).
Definition is_power_of_two (n : Z) : bool := (0 <? n) && (2 ^ Z.log2 n =? n).

(** ** Constants *)

Definition ENHANCE_SCHEMA_VERSION : Z := 6.
Definition PROTOCOL_REVISION : string := "ironwood-enhance-pir-v1".
Definition ENHANCE_NETWORK : string := "main".
Definition POOL : string := "ironwood".
Definition ACTIVATION_HEIGHT : Z := 3428143.
Definition RECORD_BYTES : Z := 725.
Definition RECORDS_PER_ROW : Z := 9.
Definition ROW_BYTES : Z := RECORD_BYTES * RECORDS_PER_ROW.
Definition SHARD_ROWS : Z := 8192.
Definition SHARD_POSITIONS : Z := SHARD_ROWS * RECORDS_PER_ROW.
Definition SHARDS_PER_GROUP : Z := 6.
Definition ITEM_SIZE_BITS : Z := ROW_BYTES * 8.
Definition RECORD_EPHEMERAL_KEY_OFFSET : Z := 0.
Definition RECORD_ENC_CIPHERTEXT_OFFSET : Z := 32.
Definition RECORD_CV_NET_OFFSET : Z := 612.
Definition RECORD_OUT_CIPHERTEXT_OFFSET : Z := 644.
Definition RECORD_FLAGS_OFFSET : Z := 724.
Definition FLAG_HAS_TRANSPARENT_INPUTS : Z := 1.
Definition FLAG_HAS_TRANSPARENT_OUTPUTS : Z := 2.
Definition KNOWN_FLAGS : Z := Z.lor FLAG_HAS_TRANSPARENT_INPUTS FLAG_HAS_TRANSPARENT_OUTPUTS.
Definition ENHANCE_SETUP_SEED : Z := 0x7dc0c1bea8ed2c29.

Definition setup_seed_bytes : list Z := le_bytes 8 ENHANCE_SETUP_SEED ++ replicate 24 0.

(** ** EnhanceRecord *)

(** A fixed array of [RECORD_BYTES] bytes. *)
Definition EnhanceRecord : Type := list Z.

Record EnhanceRecordParts := {
  ephemeral_key : list Z; enc_ciphertext : list Z; cv_net : list Z; out_ciphertext : list Z;
  has_transparent_inputs : bool; has_transparent_outputs : bool }.

(** [bytes[from..].copy_from_slice(src)]. *)
Definition write_at (bytes : list Z) (from : Z) (src : list Z) : list Z :=
  take (Z.to_nat from) bytes ++ src ++ drop (Z.to_nat from + length src) bytes.

Definition EnhanceRecord_from_parts (parts : EnhanceRecordParts) : EnhanceRecord :=
  let bytes := replicate (Z.to_nat RECORD_BYTES) 0 in
  let bytes := write_at bytes RECORD_EPHEMERAL_KEY_OFFSET (ephemeral_key parts) in
  let bytes := write_at bytes RECORD_ENC_CIPHERTEXT_OFFSET (enc_ciphertext parts) in
  let bytes := write_at bytes RECORD_CV_NET_OFFSET (cv_net parts) in
  let bytes := write_at bytes RECORD_OUT_CIPHERTEXT_OFFSET (out_ciphertext parts) in
  write_at bytes RECORD_FLAGS_OFFSET
    [Z.lor (Z.b2z (has_transparent_inputs parts) * FLAG_HAS_TRANSPARENT_INPUTS)
           (Z.b2z (has_transparent_outputs parts) * FLAG_HAS_TRANSPARENT_OUTPUTS)].

Definition slice (bytes : list Z) (a b : Z) : list Z :=
  take (Z.to_nat (b - a)) (drop (Z.to_nat a) bytes).

Definition EnhanceRecord_ephemeral_key (r : EnhanceRecord) : list Z :=
  slice r RECORD_EPHEMERAL_KEY_OFFSET RECORD_ENC_CIPHERTEXT_OFFSET.
Definition EnhanceRecord_enc_ciphertext (r : EnhanceRecord) : list Z :=
  slice r RECORD_ENC_CIPHERTEXT_OFFSET RECORD_CV_NET_OFFSET.
Definition EnhanceRecord_cv_net (r : EnhanceRecord) : list Z :=
  slice r RECORD_CV_NET_OFFSET RECORD_OUT_CIPHERTEXT_OFFSET.
Definition EnhanceRecord_out_ciphertext (r : EnhanceRecord) : list Z :=
  slice r RECORD_OUT_CIPHERTEXT_OFFSET RECORD_FLAGS_OFFSET.

(** [Err] carries the raw flags, as [InvalidEnhanceRecordFlags] does.  [!KNOWN_FLAGS]
    is the complement in 8 bits. *)
Definition EnhanceRecord_transparent_flags (r : EnhanceRecord) : result Z Z :=
  let flags := nth (Z.to_nat RECORD_FLAGS_OFFSET) r 0 in
  if Z.land flags (Z.lxor 0xff KNOWN_FLAGS) =? 0 then Ok flags else Err flags.

Definition EnhanceRecord_has_transparent_inputs (r : EnhanceRecord) : result Z bool :=
  let? flags := EnhanceRecord_transparent_flags r in
  Ok (negb (Z.land flags FLAG_HAS_TRANSPARENT_INPUTS =? 0)).
Definition EnhanceRecord_has_transparent_outputs (r : EnhanceRecord) : result Z bool :=
  let? flags := EnhanceRecord_transparent_flags r in
  Ok (negb (Z.land flags FLAG_HAS_TRANSPARENT_OUTPUTS =? 0)).

(** ** Generations and geometry *)

Record ShardDescriptor := {
  sd_shard_id : Z; sd_global_row_start : Z; sd_populated_positions : Z;
  sd_rows_sha256 : string; sd_sealed : bool; sd_worker : string }.

Record EnhanceGeneration := {
  eg_schema_version : Z; eg_protocol_revision : string; eg_network : string; eg_pool : string;
  eg_anchor_height : Z; eg_anchor_block_hash : string; eg_ironwood_tree_size : Z;
  eg_generation : Z; eg_record_bytes : Z; eg_records_per_row : Z; eg_row_bytes : Z;
  eg_shard_rows : Z; eg_used_rows : Z; eg_logical_rows : Z; eg_parameter_id : string;
  eg_setup_seed : Z; eg_public_params_epoch : string; eg_public_params_sha256 : string;
  eg_shards : list ShardDescriptor }.

Definition EnhanceGeneration_row_for_position (g : EnhanceGeneration) (position : Z) : option (Z * Z) :=
  if eg_ironwood_tree_size g <=? position then None
  else
    let row := position / RECORDS_PER_ROW in
    if row <? eg_logical_rows g then Some (row, position mod RECORDS_PER_ROW) else None.

Definition used_rows_for (positions : Z) : Z := div_ceil positions RECORDS_PER_ROW.
Definition logical_rows_for (used_rows : Z) : Z := next_power_of_two (Z.max used_rows SHARD_ROWS).

Definition group_index_for_shard (shard_id group_count : Z) : option Z :=
  if group_count =? 0 then None
  else if group_count =? 1 then Some 0
  else
    let index := shard_id / SHARDS_PER_GROUP in
    if index <? group_count then Some index else None.

(** ** Layouts of the server's tables *)

Inductive DatabaseId := Enhance | TransparentSpendCold | TransparentSpendWarm.

#[export] Instance DatabaseId_eq_dec : EqDecision DatabaseId.
Proof. solve_decision. Defined.

Definition DatabaseId_as_str (d : DatabaseId) : string :=
  match d with
  | Enhance => "enhance"
  | TransparentSpendCold => "transparent-spend-cold"
  | TransparentSpendWarm => "transparent-spend-warm"
  end.

Definition DatabaseId_from_str (value : string) : result string DatabaseId :=
  if bool_decide (value = "enhance"%string) then Ok Enhance
  else if bool_decide (value = "transparent-spend-cold"%string) then Ok TransparentSpendCold
  else if bool_decide (value = "transparent-spend-warm"%string) then Ok TransparentSpendWarm
  else Err "unknown PIR database: {value:?}"%string.

Record DatabaseLayout := { record_bytes : Z; records_per_row : Z; shard_rows : Z }.

Definition DatabaseLayout_row_bytes (l : DatabaseLayout) : Z := record_bytes l * records_per_row l.
Definition DatabaseLayout_shard_positions (l : DatabaseLayout) : Z := shard_rows l * records_per_row l.
Definition DatabaseLayout_item_size_bits (l : DatabaseLayout) : Z := DatabaseLayout_row_bytes l * 8.
Definition DatabaseLayout_shard_bytes (l : DatabaseLayout) : Z :=
  shard_rows l * DatabaseLayout_row_bytes l.
Definition DatabaseLayout_used_rows_for (l : DatabaseLayout) (positions : Z) : Z :=
  div_ceil positions (records_per_row l).
Definition DatabaseLayout_logical_rows_for (l : DatabaseLayout) (used_rows : Z) : Z :=
  next_power_of_two (Z.max used_rows (shard_rows l)).

Definition ENHANCE_LAYOUT : DatabaseLayout :=
  {| record_bytes := RECORD_BYTES; records_per_row := RECORDS_PER_ROW; shard_rows := SHARD_ROWS |}.
Definition SPEND_ENTRY_BYTES : Z := 80.
Definition SPEND_BUCKET_CAPACITY : Z := 88.
Definition SPEND_ROW_BYTES : Z := SPEND_ENTRY_BYTES * SPEND_BUCKET_CAPACITY.
Definition SPEND_SHARD_ROWS : Z := 8192.
Definition COLD_SETUP_SEED : Z := 0x787370636f6c6431.
Definition WARM_SETUP_SEED : Z := 0x7873707761726d31.
Definition TRANSPARENT_SPEND_LAYOUT : DatabaseLayout :=
  {| record_bytes := SPEND_ROW_BYTES; records_per_row := 1; shard_rows := SPEND_SHARD_ROWS |}.

Definition DatabaseId_layout (d : DatabaseId) : DatabaseLayout :=
  match d with Enhance => ENHANCE_LAYOUT | _ => TRANSPARENT_SPEND_LAYOUT end.
Definition DatabaseId_setup_seed (d : DatabaseId) : Z :=
  match d with
  | Enhance => ENHANCE_SETUP_SEED
  | TransparentSpendCold => COLD_SETUP_SEED
  | TransparentSpendWarm => WARM_SETUP_SEED
  end.
Definition DatabaseId_setup_seed_bytes (d : DatabaseId) : list Z :=
  le_bytes 8 (DatabaseId_setup_seed d) ++ replicate 24 0.

(** ** The iPIR scheme *)

Record YpirSchemeParams := {
  db_rows : Z; db_cols : Z; ypir_p : Z; q_prime_1 : Z; query_bits : Z }.
Record RlweParams := { rlwe_d : Z; rlwe_q : Z }.

#[export] Instance YpirSchemeParams_eq_dec : EqDecision YpirSchemeParams.
Proof. solve_decision. Defined.

(** The functions of [ipir_sp] the client uses.  A fresh query takes the
    randomness it draws as an argument. *)
Class Ipir := {
  ipir_seed : Type;
  ipir_rng : Type;
  params_for_simplepir : Z -> Z -> result string (RlweParams * YpirSchemeParams);
  published_c1_len : Z -> Z -> Z;
  response_body_len : Z -> Z -> Z;
  recover_published_c1 : list Z -> Z -> Z -> Z -> list (list Z);
  generate_setup : YpirSchemeParams -> list Z -> list (list Z);
  fresh_query : YpirSchemeParams -> list (list Z) -> Z -> ipir_rng -> list Z * list Z * ipir_seed;
  serialize_packing_keys : list Z -> result string (list Z);
  to_switched_bytes : list Z -> Z -> Z -> list Z;
  decode_response : ipir_seed -> list (list Z) -> list Z -> list Z }.

Inductive ClientError :=
| CE_Http (m : string)
| CE_HttpStatus (status : Z)
| CE_Json
| CE_PublicParamsBase64
| CE_Generation (m : string)
| CE_OutsideCoverage (position : Z)
| CE_Pir (m : string)
| CE_Response (m : string).

(** ** QuerySession *)

Section session.
Context `{Hex} `{Sha256} `{Ipir}.

Record QuerySession := {
  qs_generation : EnhanceGeneration;
  qs_ypir : YpirSchemeParams;
  qs_rlwe : RlweParams;
  qs_setup : list (list Z);
  qs_published_c1 : list (list Z);
  qs_epoch : list Z }.

Record PreparedQuery := { pq_row : Z; pq_body : list Z; pq_seed : ipir_seed }.

Definition bad_identity (g : EnhanceGeneration) : bool :=
  negb (eg_schema_version g =? ENHANCE_SCHEMA_VERSION) ||
  negb (bool_decide (eg_protocol_revision g = PROTOCOL_REVISION)) ||
  negb (bool_decide (eg_network g = ENHANCE_NETWORK)) ||
  negb (bool_decide (eg_pool g = POOL)).

Definition bad_geometry (g : EnhanceGeneration) : bool :=
  negb (eg_record_bytes g =? RECORD_BYTES) ||
  negb (eg_records_per_row g =? RECORDS_PER_ROW) ||
  negb (eg_row_bytes g =? ROW_BYTES) ||
  negb (eg_shard_rows g =? SHARD_ROWS) ||
  (eg_logical_rows g <? eg_used_rows g) ||
  negb (is_power_of_two (eg_logical_rows g)) ||
  (eg_logical_rows g <? SHARD_ROWS) ||
  negb (eg_used_rows g =? div_ceil (eg_ironwood_tree_size g) RECORDS_PER_ROW).

Definition QuerySession_new (generation : EnhanceGeneration) (ypir : YpirSchemeParams)
    (public_params : list Z) : result ClientError QuerySession :=
  if bad_identity generation
  then Err (CE_Generation "wrong schema, protocol, network, or pool") else
  if negb (eg_setup_seed generation =? ENHANCE_SETUP_SEED)
  then Err (CE_Generation "setup seed does not match Enhance PIR") else
  if bad_geometry generation then Err (CE_Generation "invalid database geometry") else
  let? (rlwe, expected) :=
    map_err CE_Pir (params_for_simplepir (eg_logical_rows generation) ITEM_SIZE_BITS) in
  if negb (bool_decide (ypir = expected))
  then Err (CE_Generation "parameters do not match the pinned generator") else
  let digest := sha256 public_params in
  if negb (bool_decide (hex_encode digest = eg_public_params_sha256 generation))
  then Err (CE_Generation "public parameter digest mismatch") else
  let epoch := take 8 digest in
  if negb (bool_decide (hex_encode epoch = eg_public_params_epoch generation))
  then Err (CE_Generation "public parameter epoch mismatch") else
  let blocks := db_cols ypir / rlwe_d rlwe in
  let expected_len := wrap64 (blocks * published_c1_len (rlwe_d rlwe) (rlwe_q rlwe)) in
  if negb (zlen public_params =? expected_len)
  then Err (CE_Generation "public parameters have {} bytes, expected {expected_len}") else
  Ok {| qs_generation := generation; qs_ypir := ypir; qs_rlwe := rlwe;
        qs_setup := generate_setup ypir setup_seed_bytes;
        qs_published_c1 := recover_published_c1 public_params (rlwe_d rlwe) blocks (rlwe_q rlwe);
        qs_epoch := epoch |}.

Definition QuerySession_prepare_row (s : QuerySession) (row : Z) (rng : ipir_rng) :
    result ClientError PreparedQuery :=
  if db_rows (qs_ypir s) <=? row then Err (CE_OutsideCoverage row) else
  let '(query, packing_keys, seed) := fresh_query (qs_ypir s) (qs_setup s) row rng in
  let? keys := map_err CE_Pir (serialize_packing_keys packing_keys) in
  Ok {| pq_row := row;
        pq_body := le_bytes 8 (eg_generation (qs_generation s)) ++ keys ++
          to_switched_bytes query (rlwe_q (qs_rlwe s)) (query_bits (qs_ypir s));
        pq_seed := seed |}.

Definition QuerySession_prepare_position (s : QuerySession) (position : Z) (rng : ipir_rng) :
    result ClientError (PreparedQuery * Z) :=
  let? (row, slot) :=
    ok_or (EnhanceGeneration_row_for_position (qs_generation s) position)
      (CE_OutsideCoverage position) in
  let? query := QuerySession_prepare_row s row rng in
  Ok (query, slot).

Definition QuerySession_decode (s : QuerySession) (query : PreparedQuery) (response : list Z) :
    result ClientError (list Z) :=
  if negb (bool_decide (get_range response 0 8 = Some (le_bytes 8 (eg_generation (qs_generation s)))))
  then Err (CE_Response "generation mismatch") else
  if negb (bool_decide (get_range response 8 16 = Some (qs_epoch s)))
  then Err (CE_Response "public parameter epoch mismatch") else
  let expected_body_len :=
    wrap64 (db_cols (qs_ypir s) / rlwe_d (qs_rlwe s) *
            response_body_len (rlwe_d (qs_rlwe s)) (q_prime_1 (qs_ypir s))) in
  if negb (zlen response =? wrap64 (16 + expected_body_len))
  then Err (CE_Response "response has {} bytes, expected {}") else
  let decoded := decode_response (pq_seed query) (qs_published_c1 s) (drop 16 response) in
  ok_or (get_range decoded 0 ROW_BYTES) (CE_Response "decoded row is too short").
End session.

Definition record_in_row (row : list Z) (slot : Z) : EnhanceRecord :=
  let start := slot * RECORD_BYTES in
  slice row start (start + RECORD_BYTES).

(** The bounded body reader: chunks as they arrive, a transport error, or the
    limit error. *)
Fixpoint read_chunks (chunks : list (result string (list Z))) (limit : Z) (body : list Z) :
    result ClientError (list Z) :=
  match chunks with
  | [] => Ok body
  | chunk :: chunks =>
      let? chunk := map_err CE_Http chunk in
      if limit <? saturating_add64 (zlen body) (zlen chunk)
      then Err (CE_Response "HTTP body exceeds limit")
      else read_chunks chunks limit (body ++ chunk)
  end.

Definition read_limited (status : Z) (content_length : option Z)
    (chunks : list (result string (list Z))) (limit : Z) : result ClientError (list Z) :=
  if (400 <=? status) && (status <? 600) then Err (CE_Http "HTTP status error") else
  if match content_length with Some length => limit <? length | None => false end
  then Err (CE_Response "HTTP body exceeds limit")
  else read_chunks chunks limit [].

(** ** Slices of concatenations *)

Lemma slice_app (pre xs post : list Z) a b :
  zlen pre = a -> zlen xs = b - a -> slice (pre ++ xs ++ post) a b = xs.
Proof.
  intros <- Hx. unfold slice. unfold zlen in *. rewrite Nat2Z.id, drop_app_length.
  apply take_app_length'. lia.
Qed.

Lemma slice_slice (l : list Z) a b c d :
  0 <= a -> 0 <= c -> c <= d <= b - a ->
  slice (slice l a b) c d = slice l (a + c) (a + d).
Proof.
  intros Ha Hc Hd. unfold slice. rewrite skipn_firstn_comm, take_take, drop_drop.
  f_equal; [lia|]. f_equal. lia.
Qed.

Lemma length_slice (l : list Z) a b :
  0 <= a -> a <= b <= zlen l -> length (slice l a b) = Z.to_nat (b - a).
Proof. intros. unfold slice, zlen in *. rewrite length_take, length_drop. lia. Qed.

Lemma write_at_zeros (a src : list Z) n k :
  zlen a = n -> (length src <= k)%nat ->
  write_at (a ++ replicate k 0) n src = (a ++ src) ++ replicate (k - length src) 0.
Proof.
  intros <- Hk. unfold write_at, zlen. rewrite Nat2Z.id, take_app_length.
  rewrite drop_app_ge by lia. replace (length a + length src - length a)%nat with (length src) by lia.
  rewrite drop_replicate. by rewrite app_assoc.
Qed.

(** The fields of an action, with the widths of the source's arrays. *)
Definition parts_ok (p : EnhanceRecordParts) : Prop :=
  zlen (ephemeral_key p) = 32 /\ zlen (enc_ciphertext p) = 580 /\
  zlen (cv_net p) = 32 /\ zlen (out_ciphertext p) = 80.

Lemma from_parts_eq p :
  parts_ok p ->
  EnhanceRecord_from_parts p =
  ephemeral_key p ++ enc_ciphertext p ++ cv_net p ++ out_ciphertext p ++
  [Z.lor (Z.b2z (has_transparent_inputs p)) (Z.b2z (has_transparent_outputs p) * 2)].
Proof.
  intros (H1 & H2 & H3 & H4). unfold EnhanceRecord_from_parts. unfold zlen in *.
  change (replicate (Z.to_nat RECORD_BYTES) 0) with ([] ++ replicate (Z.to_nat RECORD_BYTES) 0).
  unfold RECORD_BYTES, RECORD_EPHEMERAL_KEY_OFFSET, RECORD_ENC_CIPHERTEXT_OFFSET,
    RECORD_CV_NET_OFFSET, RECORD_OUT_CIPHERTEXT_OFFSET, RECORD_FLAGS_OFFSET,
    FLAG_HAS_TRANSPARENT_INPUTS, FLAG_HAS_TRANSPARENT_OUTPUTS.
  rewrite write_at_zeros by (unfold zlen; cbn [length]; lia). rewrite app_nil_l.
  rewrite write_at_zeros by (unfold zlen; lia).
  rewrite write_at_zeros by (unfold zlen; rewrite ?length_app; lia).
  rewrite write_at_zeros by (unfold zlen; rewrite ?length_app; lia).
  rewrite write_at_zeros by (unfold zlen; rewrite ?length_app; cbn [length]; lia).
  replace (_ - _)%nat with 0%nat by (cbn [length]; lia). cbn [replicate].
  rewrite app_nil_r, <- !app_assoc, Z.mul_1_r. done.
Qed.

(** ** Geometry *)

Lemma div_ceil_spec a b : 0 <= a -> 0 < b -> a <= b * div_ceil a b < a + b.
Proof.
  intros Ha Hb. unfold div_ceil. pose proof (Z.div_mod (a + b - 1) b ltac:(lia)).
  pose proof (Z.mod_pos_bound (a + b - 1) b Hb). lia.
Qed.

(** [next_power_of_two] on the sizes in use. *)
Lemma next_power_of_two_spec n :
  0 <= n <= 2 ^ 62 ->
  n <= next_power_of_two n <= 2 ^ 62 /\ is_power_of_two (next_power_of_two n) = true.
Proof.
  intros Hn. unfold next_power_of_two. destruct (n <=? 1) eqn:E; bool_prop.
  - change (wrap64 1) with 1. split; [lia|done].
  - pose proof (Z.log2_up_spec n ltac:(lia)) as Hs.
    assert (Z.log2_up n <= 62) as Hl.
    { rewrite <- (Z.log2_up_pow2 62) by lia. apply Z.log2_up_le_mono. lia. }
    pose proof (Z.log2_up_nonneg n).
    pose proof (Z.pow_le_mono_r 2 (Z.log2_up n) 62 ltac:(lia) Hl) as Hp.
    assert (wrap64 (2 ^ Z.log2_up n) = 2 ^ Z.log2_up n) as ->.
    { unfold wrap64, u64_bound. apply Z.mod_small. lia. }
    split; [lia|]. unfold is_power_of_two. rewrite Z.log2_pow2 by lia. guards. done.
Qed.

Definition geometry_ok (g : EnhanceGeneration) : Prop :=
  eg_used_rows g = div_ceil (eg_ironwood_tree_size g) RECORDS_PER_ROW /\
  eg_used_rows g <= eg_logical_rows g /\ SHARD_ROWS <= eg_logical_rows g /\
  is_power_of_two (eg_logical_rows g) = true.

Lemma bad_geometry_false g : bad_geometry g = false -> geometry_ok g.
Proof. unfold bad_geometry, geometry_ok. intros Hb. bool_prop. done. Qed.

Lemma row_for_position_ok g p :
  geometry_ok g -> 0 <= p < eg_ironwood_tree_size g ->
  EnhanceGeneration_row_for_position g p = Some (p / RECORDS_PER_ROW, p mod RECORDS_PER_ROW) /\
  0 <= p / RECORDS_PER_ROW < eg_used_rows g.
Proof.
  intros (Hu & Hl & _) Hp. pose proof (div_ceil_spec (eg_ironwood_tree_size g) RECORDS_PER_ROW) as Hc.
  rewrite <- Hu in Hc. unfold RECORDS_PER_ROW in *. specialize (Hc ltac:(lia) ltac:(lia)).
  pose proof (Z.div_mod p 9 ltac:(lia)). pose proof (Z.mod_pos_bound p 9 ltac:(lia)).
  assert (0 <= p / 9 < eg_used_rows g) by lia.
  unfold EnhanceGeneration_row_for_position, RECORDS_PER_ROW. guards. done.
Qed.

(** ** Properties *)

(** The record layout round-trips: from the parts of an action, every
    accessor of the 725-byte record gives back the part, and the flags decode to
    the two booleans without a reserved bit. *)
Theorem record_parts_roundtrip p :
  parts_ok p ->
  let r := EnhanceRecord_from_parts p in
  zlen r = RECORD_BYTES /\
  EnhanceRecord_ephemeral_key r = ephemeral_key p /\
  EnhanceRecord_enc_ciphertext r = enc_ciphertext p /\
  EnhanceRecord_cv_net r = cv_net p /\
  EnhanceRecord_out_ciphertext r = out_ciphertext p /\
  EnhanceRecord_has_transparent_inputs r = Ok (has_transparent_inputs p) /\
  EnhanceRecord_has_transparent_outputs r = Ok (has_transparent_outputs p).
Proof.
  intros Hp r. pose proof Hp as (H1 & H2 & H3 & H4).
  unfold r. rewrite from_parts_eq by done. set (flags := Z.lor _ _).
  assert (EnhanceRecord_transparent_flags
    (ephemeral_key p ++ enc_ciphertext p ++ cv_net p ++ out_ciphertext p ++ [flags]) = Ok flags) as Hf.
  { unfold EnhanceRecord_transparent_flags.
    rewrite !app_assoc, app_nth2; rewrite !length_app; unfold RECORD_FLAGS_OFFSET, zlen in *; [|lia].
    replace (_ - _)%nat with 0%nat by lia. cbn [nth].
    unfold flags. by destruct (has_transparent_inputs p), (has_transparent_outputs p). }
  split_and!.
  - autorewrite with zlen. rewrite H1, H2, H3, H4. done.
  - apply (slice_app []); [done|]. by rewrite H1.
  - apply slice_app; by rewrite ?H1, ?H2.
  - rewrite app_assoc. apply slice_app; autorewrite with zlen; rewrite ?H1, ?H2, ?H3; done.
  - rewrite !app_assoc, <- (app_assoc _ (out_ciphertext p)).
    apply slice_app; autorewrite with zlen; rewrite ?H1, ?H2, ?H3, ?H4; done.
  - unfold EnhanceRecord_has_transparent_inputs. rewrite Hf. unfold flags.
    by destruct (has_transparent_inputs p), (has_transparent_outputs p).
  - unfold EnhanceRecord_has_transparent_outputs. rewrite Hf. unfold flags.
    by destruct (has_transparent_inputs p), (has_transparent_outputs p).
Qed.

Definition sample_parts : EnhanceRecordParts := {|
  ephemeral_key := replicate 32 1; enc_ciphertext := replicate 580 2; cv_net := replicate 32 3;
  out_ciphertext := replicate 80 4; has_transparent_inputs := true;
  has_transparent_outputs := false |}.

Lemma record_parts_roundtrip_witness :
  parts_ok sample_parts /\
  EnhanceRecord_cv_net (EnhanceRecord_from_parts sample_parts) = replicate 32 3.
Proof.
  assert (parts_ok sample_parts) as H by (vm_compute; repeat split).
  split; [exact H|]. apply (record_parts_roundtrip sample_parts H).
Defined.

(** C17: an accepted session covers exactly the advertised positions.  When
    [QuerySession::new] accepts a generation, the parameters it was given are
    those of the pinned generator for the advertised row count, the public
    parameters have the advertised digest, and every position below the tree
    size, and no other, maps to one row inside the used rows and one slot, with
    [position = 9 * row + slot]. *)
Theorem session_covers_positions `{Hex} `{Sha256} `{Ipir} g ypir params s :
  QuerySession_new g ypir params = Ok s -> 0 <= eg_ironwood_tree_size g ->
  geometry_ok g /\
  hex_encode (sha256 params) = eg_public_params_sha256 g /\
  (exists rlwe, params_for_simplepir (eg_logical_rows g) ITEM_SIZE_BITS = Ok (rlwe, ypir)) /\
  (forall p, 0 <= p -> EnhanceGeneration_row_for_position (qs_generation s) p <> None <->
     p < eg_ironwood_tree_size g) /\
  (forall p row slot, 0 <= p ->
     EnhanceGeneration_row_for_position (qs_generation s) p = Some (row, slot) ->
     0 <= row < eg_used_rows g /\ 0 <= slot < RECORDS_PER_ROW /\ p = RECORDS_PER_ROW * row + slot).
Proof.
  intros Hn Ht. unfold QuerySession_new in Hn.
  destruct (bad_identity g); [done|].
  destruct (negb (eg_setup_seed g =? _)); [done|].
  destruct (bad_geometry g) eqn:Eg; [done|]. apply bad_geometry_false in Eg.
  destruct (params_for_simplepir _ _) as [[rlwe expected]|] eqn:Ep; [|done]. cbn [map_err] in Hn.
  case_bool_decide as Ey; [|done]. subst. cbn [negb] in Hn.
  case_bool_decide as Ed; [|done]. cbn [negb] in Hn.
  case_bool_decide as Ee; [|done]. cbn [negb] in Hn.
  destruct (negb (zlen params =? _)); [done|]. injection Hn as <-. cbn [qs_generation].
  split; [done|]. split; [done|]. split; [by eexists|].
  assert (forall p, 0 <= p -> EnhanceGeneration_row_for_position g p <> None <->
    p < eg_ironwood_tree_size g) as Hiff.
  { intros p Hp. split; [|intros Hlt; by rewrite (proj1 (row_for_position_ok g p Eg ltac:(lia)))].
    unfold EnhanceGeneration_row_for_position. destruct (_ <=? p) eqn:E; bool_prop; [done|lia]. }
  split; [done|]. intros p row slot Hp Hr.
  assert (p < eg_ironwood_tree_size g) as Hlt by (apply Hiff; [done|by rewrite Hr]).
  destruct (row_for_position_ok g p Eg ltac:(lia)) as [He Hrow]. rewrite He in Hr.
  injection Hr as <- <-. pose proof (Z.mod_pos_bound p RECORDS_PER_ROW ltac:(done)).
  pose proof (Z.div_mod p RECORDS_PER_ROW ltac:(done)). split_and!; lia.
Qed.

(** A scheme of the right shape for the concrete session below. *)
Definition toy_ipir : Ipir := {|
  ipir_seed := unit; ipir_rng := unit;
  params_for_simplepir rows bits :=
    Ok ({| rlwe_d := 2048; rlwe_q := 2 ^ 32 |},
        {| db_rows := rows; db_cols := 4096; ypir_p := 2 ^ 14; q_prime_1 := 2 ^ 20; query_bits := 20 |});
  published_c1_len d q := 4;
  response_body_len d q := 8;
  recover_published_c1 bytes _ _ _ := [bytes];
  generate_setup _ seed := [seed];
  fresh_query _ _ row _ := ([row], [], tt);
  serialize_packing_keys keys := Ok keys;
  to_switched_bytes q _ _ := q;
  decode_response _ _ body := body ++ replicate (Z.to_nat ROW_BYTES) 0 |}.

Definition sample_generation : EnhanceGeneration := {|
  eg_schema_version := 6; eg_protocol_revision := PROTOCOL_REVISION; eg_network := ENHANCE_NETWORK;
  eg_pool := POOL; eg_anchor_height := ACTIVATION_HEIGHT; eg_anchor_block_hash := "00"%string;
  eg_ironwood_tree_size := 100; eg_generation := 1; eg_record_bytes := 725;
  eg_records_per_row := 9; eg_row_bytes := 6525; eg_shard_rows := 8192; eg_used_rows := 12;
  eg_logical_rows := 8192; eg_parameter_id := "p"%string; eg_setup_seed := ENHANCE_SETUP_SEED;
  eg_public_params_epoch := @hex_encode ascii_hex (take 8 (@sha256 checksum32 (replicate 8 7)));
  eg_public_params_sha256 := @hex_encode ascii_hex (@sha256 checksum32 (replicate 8 7));
  eg_shards := [] |}.

Lemma session_covers_positions_witness :
  exists s, @QuerySession_new ascii_hex checksum32 toy_ipir sample_generation
      {| db_rows := 8192; db_cols := 4096; ypir_p := 2 ^ 14; q_prime_1 := 2 ^ 20; query_bits := 20 |}
      (replicate 8 7) = Ok s /\
    EnhanceGeneration_row_for_position (qs_generation s) 99 <> None.
Proof.
  destruct (@QuerySession_new ascii_hex checksum32 toy_ipir sample_generation
      {| db_rows := 8192; db_cols := 4096; ypir_p := 2 ^ 14; q_prime_1 := 2 ^ 20; query_bits := 20 |}
      (replicate 8 7)) as [s|e] eqn:E; [|exfalso; vm_compute in E; discriminate].
  exists s. split; [reflexivity|].
  destruct (@session_covers_positions ascii_hex checksum32 toy_ipir _ _ _ _ E ltac:(discriminate))
    as (_ & _ & _ & Hiff & _).
  apply (Hiff 99); [discriminate|reflexivity].
Defined.
