(* ===== verification/RecordJournal.v ===== *)
(** * The record journal of the Enhance server

    Models [server/enhance-pir-server/src/store.rs] (the append-only journal of
    fixed-size records), [server/enhance-pir-server/src/ingest.rs] (the Enhance
    journal on top of it) and the reconciliation and catch-up of
    [server/enhance-pir-server/src/bin/server.rs].  As in [FilterStore], writes
    are sequences of file operations with crash points, and the JSON manifest is
    kept as what it parses to.  The theorems show that positions address the
    appended records, also through the padded shards and rows that the PIR
    database is built from, that an append is atomic under a crash, and what a
    crash inside a rewind does. *)

From Stdlib Require Import ZArith Lia.
From stdpp Require Import base numbers list strings gmap.
From S2P Require Import Prelude FilterTypes Instances EnhanceTypes.

Open Scope Z_scope.

Definition JOURNAL_STORE_VERSION : Z := 5.

Inductive JournalError :=
| JE_Io (m : string)
| JE_Manifest
| JE_Invariant (m : string).

Record BlockEntry := {
  be_height : Z; be_hash : string; be_first_position : Z; be_action_count : Z }.

Record StoreManifest := {
  sm_version : Z; sm_table : string; sm_tree_size : Z; sm_blocks : list BlockEntry }.

(** ** The directory *)

Record jfiles := { jf_records : option (list Z); jf_manifest : option (option StoreManifest) }.

Record jdisk := { jd_files : jfiles; jd_aside : gmap (Z * string) jfiles }.

Inductive jop :=
| JAppend (bs : list Z)
| JSetLen (len : Z)
| JRename (m : StoreManifest).

Definition jset_len (bs : list Z) (n : Z) : list Z :=
  take (Z.to_nat n) bs ++ replicate (Z.to_nat n - length bs) 0.

Definition run_jop (d : jfiles) (o : jop) : jfiles :=
  match o with
  | JAppend bs =>
      {| jf_records := Some (default [] (jf_records d) ++ bs); jf_manifest := jf_manifest d |}
  | JSetLen len =>
      {| jf_records := Some (jset_len (default [] (jf_records d)) len);
         jf_manifest := jf_manifest d |}
  | JRename m => {| jf_records := jf_records d; jf_manifest := Some (Some m) |}
  end.

Definition run_jops (os : list jop) (d : jfiles) : jfiles := foldl run_jop d os.

(** The directories a crash during [os] can leave. *)
Inductive jcrashed : list jop -> jfiles -> jfiles -> Prop :=
| jcrashed_now os d : jcrashed os d d
| jcrashed_torn bs k os d : jcrashed (JAppend bs :: os) d (run_jop d (JAppend (take k bs)))
| jcrashed_later o os d d' : jcrashed os (run_jop d o) d' -> jcrashed (o :: os) d d'.

(** ** RecordJournal *)

Record RecordJournal := {
  rj_name : string; rj_table : option DatabaseId; rj_layout : DatabaseLayout;
  rj_manifest : StoreManifest }.

Definition fresh_manifest (name : string) : StoreManifest :=
  {| sm_version := JOURNAL_STORE_VERSION; sm_table := name; sm_tree_size := 0; sm_blocks := [] |}.

(** Which manifest [open_inner] goes on with, and the directory after setting an
    incompatible journal aside. *)
Definition open_manifest (d : jdisk) (name : string) : result JournalError StoreManifest * jdisk :=
  match jf_manifest (jd_files d) with
  | None => (Ok (fresh_manifest name), d)
  | Some None => (Err JE_Manifest, d)
  | Some (Some parsed) =>
      if negb (sm_version parsed =? JOURNAL_STORE_VERSION) ||
         negb (bool_decide (sm_table parsed = name))
      then
        match jf_records (jd_files d) with
        | None => (Err (JE_Io "rename records.bin"), d)
        | Some records =>
            (Ok (fresh_manifest name),
             {| jd_files := {| jf_records := None; jf_manifest := None |};
                jd_aside := <[(sm_version parsed, sm_table parsed) := jd_files d]> (jd_aside d) |})
        end
      else (Ok parsed, d)
  end.

Definition open_inner (d : jdisk) (name : string) (table : option DatabaseId)
    (layout : DatabaseLayout) : result JournalError RecordJournal * jdisk :=
  match open_manifest d name with
  | (Err e, d) => (Err e, d)
  | (Ok manifest, d) =>
  match checked_mul64 (sm_tree_size manifest) (record_bytes layout) with
  | None => (Err (JE_Invariant "record length overflow"), d)
  | Some expected_len =>
  let records := default [] (jf_records (jd_files d)) in
  let with_records rs :=
    {| jd_files := {| jf_records := Some rs; jf_manifest := jf_manifest (jd_files d) |};
       jd_aside := jd_aside d |} in
  if zlen records <? expected_len
  then (Err (JE_Invariant "records file is shorter than committed manifest"), with_records records)
  else
  let records := jset_len records expected_len in
  (Ok {| rj_name := name; rj_table := table; rj_layout := layout; rj_manifest := manifest |},
   {| jd_files := {| jf_records := Some records;
                     jf_manifest := match jf_manifest (jd_files d) with
                                    | None => Some (Some manifest) | m => m end |};
      jd_aside := jd_aside d |})
  end end.

Definition RecordJournal_open (d : jdisk) (table : DatabaseId) (layout : DatabaseLayout) :
    result JournalError RecordJournal * jdisk :=
  open_inner d (DatabaseId_as_str table) (Some table) layout.

Definition RecordJournal_open_log (d : jdisk) (name : string) (layout : DatabaseLayout) :
    result JournalError RecordJournal * jdisk :=
  open_inner d name None layout.

Definition RecordJournal_tree_size (j : RecordJournal) : Z := sm_tree_size (rj_manifest j).
Definition RecordJournal_last_block (j : RecordJournal) : option BlockEntry :=
  last (sm_blocks (rj_manifest j)).

Definition with_manifest (j : RecordJournal) (tree_size : Z) (blocks : list BlockEntry) : RecordJournal :=
  {| rj_name := rj_name j; rj_table := rj_table j; rj_layout := rj_layout j;
     rj_manifest := {| sm_version := sm_version (rj_manifest j);
                       sm_table := sm_table (rj_manifest j);
                       sm_tree_size := tree_size; sm_blocks := blocks |} |}.

(** [partition_point] on a partitioned slice. *)
Fixpoint partition_point {A} (p : A -> bool) (l : list A) : nat :=
  match l with
  | [] => 0
  | x :: l => if p x then S (partition_point p l) else 0
  end.

Definition rewind_target (j : RecordJournal) (height : option Z) : nat * Z :=
  let blocks := sm_blocks (rj_manifest j) in
  let keep :=
    match height with
    | None => 0%nat
    | Some height => partition_point (fun b => be_height b <=? height) blocks
    end in
  let tree_size :=
    match blocks !! keep with
    | Some block => be_first_position block
    | None =>
        match last blocks with
        | Some block =>
            if bool_decide (keep = length blocks)
            then wrap64 (be_first_position block + be_action_count block) else 0
        | None => 0
        end
    end in
  (keep, tree_size).

Definition RecordJournal_rewind_to_height (j : RecordJournal) (height : option Z) :
    RecordJournal * list jop :=
  let '(keep, tree_size) := rewind_target j height in
  let j' := with_manifest j tree_size (take keep (sm_blocks (rj_manifest j))) in
  (j', [JSetLen (wrap64 (tree_size * record_bytes (rj_layout j))); JRename (rj_manifest j')]).

(** The result, the journal and what was written, also on the late error. *)
Definition RecordJournal_append_block (j : RecordJournal) (height : Z) (hash : string)
    (records : list (list Z)) : result JournalError unit * RecordJournal * list jop :=
  let gap :=
    match RecordJournal_last_block j with
    | Some previous => negb (height =? wrap64 (be_height previous + 1))
    | None => false
    end in
  if gap then (Err (JE_Invariant "block height {height} does not follow {}"), j, []) else
  if existsb (fun r => negb (zlen r =? record_bytes (rj_layout j))) records
  then (Err (JE_Invariant "record has {} bytes, layout needs {}"), j, []) else
  let first_position := sm_tree_size (rj_manifest j) in
  let written := JAppend (concat records) in
  match checked_add64 (sm_tree_size (rj_manifest j)) (zlen records) with
  | None => (Err (JE_Invariant "tree size overflow"), j, [written])
  | Some tree_size =>
      let j' := with_manifest j tree_size
        (sm_blocks (rj_manifest j) ++
         [{| be_height := height; be_hash := hash; be_first_position := first_position;
             be_action_count := zlen records |}]) in
      (Ok tt, j', [written; JRename (rj_manifest j')])
  end.

(** First and last shard id. *)
Definition RecordJournal_shard_ids (j : RecordJournal) : Z * Z :=
  (0, saturating_sub (RecordJournal_tree_size j) 1 / DatabaseLayout_shard_positions (rj_layout j)).

(** [read_exact] of [n] bytes at an offset. *)
Definition read_at (d : jfiles) (from n : Z) : result JournalError (list Z) :=
  if n =? 0 then Ok []
  else ok_or (get_range (default [] (jf_records d)) from (from + n))
         (JE_Io "failed to fill whole buffer").

Definition RecordJournal_read_shard_rows (j : RecordJournal) (d : jfiles) (shard_id : Z) :
    result JournalError (list Z) :=
  let shard_positions := DatabaseLayout_shard_positions (rj_layout j) in
  let? shard_start := ok_or (checked_mul64 shard_id shard_positions)
                        (JE_Invariant "shard position overflow") in
  if RecordJournal_tree_size j <=? shard_start
  then Err (JE_Invariant "shard {shard_id} is outside stored coverage") else
  let available_positions :=
    Z.min (saturating_sub (RecordJournal_tree_size j) shard_start) shard_positions in
  let bytes := record_bytes (rj_layout j) in
  let? populated := read_at d (wrap64 (shard_start * bytes)) (available_positions * bytes) in
  Ok (populated ++
      replicate (Z.to_nat (DatabaseLayout_shard_bytes (rj_layout j) - available_positions * bytes)) 0).

Definition RecordJournal_read_records (j : RecordJournal) (d : jfiles) (start count : Z) :
    result JournalError (list Z) :=
  let? stop := ok_or (checked_add64 start count) (JE_Invariant "record range overflow") in
  if RecordJournal_tree_size j <? stop
  then Err (JE_Invariant "records {start}..{end} exceed the journal's {} positions") else
  let bytes := record_bytes (rj_layout j) in
  read_at d (wrap64 (start * bytes)) (count * bytes).

Definition RecordJournal_populated_positions_in_shard (j : RecordJournal) (shard_id : Z) : Z :=
  let shard_positions := DatabaseLayout_shard_positions (rj_layout j) in
  let start := saturating_mul64 shard_id shard_positions in
  Z.min (saturating_sub (RecordJournal_tree_size j) start) shard_positions.

Definition RecordJournal_rows_digest `{Hex} `{Sha256} (rows : list Z) : string :=
  hex_encode (sha256 rows).

(** ** EnhanceJournal *)

Record CanonicalBlock := {
  cb_height : Z; cb_hash : string; cb_records : list EnhanceRecord; cb_tree_size : Z }.

Inductive EnhanceIngestError :=
| EI_Store (e : JournalError)
| EI_Invariant (m : string)
| EI_Node (m : string).

Definition EnhanceJournal_open (d : jdisk) : result JournalError RecordJournal * jdisk :=
  RecordJournal_open d Enhance ENHANCE_LAYOUT.

Definition EnhanceJournal_append_block (j : RecordJournal) (block : CanonicalBlock) :
    result EnhanceIngestError unit * RecordJournal * list jop :=
  if match RecordJournal_last_block j with
     | Some last => cb_height block <=? be_height last
     | None => false
     end
  then (Ok tt, j, []) else
  match checked_sub64 (cb_tree_size block) (zlen (cb_records block)) with
  | None => (Err (EI_Invariant "block exceeds tree size"), j, [])
  | Some first_position =>
  if (RecordJournal_tree_size j <? first_position) ||
     (cb_tree_size block <? RecordJournal_tree_size j)
  then (Err (EI_Invariant "journal continuity mismatch at height {}: journal {}, block {}..{}"), j, [])
  else
  let skip := RecordJournal_tree_size j - first_position in
  match RecordJournal_append_block j (cb_height block) (cb_hash block)
          (drop (Z.to_nat skip) (cb_records block)) with
  | (Err e, j, ops) => (Err (EI_Store e), j, ops)
  | (Ok _, j, ops) =>
      if negb (RecordJournal_tree_size j =? cb_tree_size block)
      then (Err (EI_Invariant "Ironwood tree size mismatch at height {}: journal {}, Zakura {}"), j, ops)
      else (Ok tt, j, ops)
  end end.

(** ** Reconciliation and catch-up, from [bin/server.rs] *)

Class EnhanceNode (N : Type) := {
  en_tip_height : N -> result string Z * N;
  en_block_hash : Z -> N -> result string string * N;
  en_block : Z -> N -> result string CanonicalBlock * N }.

Section ingest.
Context {N : Type} `{EnhanceNode N}.

(** Each iteration that does not stop drops the last block, so one per block, and
    one more, is enough. *)
Fixpoint enhance_reconcile_loop (fuel : nat) (j : RecordJournal) (tip : Z) (n : N) :
    result EnhanceIngestError unit * RecordJournal * list jop * N :=
  match fuel with
  | O => (Ok tt, j, [], n)
  | S fuel =>
      match RecordJournal_last_block j with
      | None => (Ok tt, j, [], n)
      | Some last_block =>
          let rewind (n : N) :=
            let previous := be_height <$> (reverse (sm_blocks (rj_manifest j)) !! 1%nat) in
            let '(j, ops) := RecordJournal_rewind_to_height j previous in
            let '(r, j, ops', n) := enhance_reconcile_loop fuel j tip n in
            (r, j, ops ++ ops', n) in
          if be_height last_block <=? tip then
            match en_block_hash (be_height last_block) n with
            | (Err e, n) => (Err (EI_Node e), j, [], n)
            | (Ok hash, n) =>
                if bool_decide (hash = be_hash last_block) then (Ok tt, j, [], n) else rewind n
            end
          else rewind n
      end
  end.

Definition enhance_reconcile (j : RecordJournal) (tip : Z) (n : N) :=
  enhance_reconcile_loop (S (length (sm_blocks (rj_manifest j)))) j tip n.

(** The [while next <= target] loop of [ingest]. *)
Fixpoint enhance_catch_up (fuel : nat) (target next : Z) (j : RecordJournal) (n : N) :
    result EnhanceIngestError unit * RecordJournal * list jop * N :=
  match fuel with
  | O => (Ok tt, j, [], n)
  | S fuel =>
      if target <? next then (Ok tt, j, [], n) else
      match en_block next n with
      | (Err e, n) => (Err (EI_Node e), j, [], n)
      | (Ok block, n) =>
          match EnhanceJournal_append_block j block with
          | (Err e, j, ops) => (Err e, j, ops, n)
          | (Ok _, j, ops) =>
              let '(r, j, ops', n) := enhance_catch_up fuel target (wrap64 (next + 1)) j n in
              (r, j, ops ++ ops', n)
          end
      end
  end.
End ingest.

(** ** The invariant *)

(** Blocks partition the positions from [p] to [q], at consecutive heights. *)
Fixpoint blocks_span (p q : Z) (bs : list BlockEntry) : Prop :=
  match bs with
  | [] => p = q
  | b :: bs =>
      be_first_position b = p /\ 0 <= be_action_count b /\
      blocks_span (p + be_action_count b) q bs
  end.

Fixpoint heights_consecutive (bs : list BlockEntry) : Prop :=
  match bs with
  | a :: ((b :: _) as rest) => be_height b = be_height a + 1 /\ heights_consecutive rest
  | _ => True
  end.

(** [recs] are the records by position. *)
Record jwf (j : RecordJournal) (recs : list (list Z)) : Prop := {
  jw_bytes : 0 < record_bytes (rj_layout j);
  jw_widths : Forall (fun r => zlen r = record_bytes (rj_layout j)) recs;
  jw_size : RecordJournal_tree_size j = zlen recs;
  jw_total : zlen recs * record_bytes (rj_layout j) < u64_bound;
  jw_span : blocks_span 0 (zlen recs) (sm_blocks (rj_manifest j));
  jw_heights : heights_consecutive (sm_blocks (rj_manifest j));
  jw_version : sm_version (rj_manifest j) = JOURNAL_STORE_VERSION;
  jw_name : sm_table (rj_manifest j) = rj_name j }.

(** The manifest on disk is the journal's, and the records file starts with its
    records; [tail] is whatever was written after the last manifest. *)
Definition jstored (j : RecordJournal) (d : jfiles) (recs : list (list Z)) (tail : list Z) : Prop :=
  jwf j recs /\ jf_manifest d = Some (Some (rj_manifest j)) /\
  jf_records d = Some (concat recs ++ tail).

Lemma zlen_concat_records (recs : list (list Z)) n :
  Forall (fun r => zlen r = n) recs -> zlen (concat recs) = zlen recs * n.
Proof.
  induction 1 as [|r recs Hr _ IH]; [done|].
  cbn [concat]. rewrite zlen_app, zlen_cons, IH, Hr. lia.
Qed.

Lemma jset_len_prefix xs ys : jset_len (xs ++ ys) (zlen xs) = xs.
Proof.
  unfold jset_len, zlen. rewrite Nat2Z.id, take_app_length, length_app.
  replace (length xs - _)%nat with 0%nat by lia. apply app_nil_r.
Qed.

(** ** Opening *)

Lemma open_stored j d recs tail aside :
  jstored j d recs tail ->
  exists d', open_inner {| jd_files := d; jd_aside := aside |} (rj_name j) (rj_table j) (rj_layout j)
      = (Ok j, {| jd_files := d'; jd_aside := aside |}) /\ jstored j d' recs [].
Proof.
  intros (Hwf & Hm & Hr). pose proof Hwf as [Hb Hw Hs Ht _ _ Hv Hn].
  unfold open_inner, open_manifest. cbn [jd_files jd_aside]. rewrite Hm, Hv, Hn.
  rewrite Z.eqb_refl, bool_decide_true by done. cbn [negb orb].
  unfold RecordJournal_tree_size in Hs. rewrite Hs. unfold checked_mul64.
  rewrite (proj2 (Z.ltb_lt _ _) Ht). cbn [jd_files jd_aside]. rewrite Hr. cbn [from_option id].
  rewrite <- (zlen_concat_records recs _ Hw).
  pose proof (zlen_nonneg tail). rewrite zlen_app. guards.
  assert ({| rj_name := rj_name j; rj_table := rj_table j; rj_layout := rj_layout j;
             rj_manifest := rj_manifest j |} = j) as -> by (by destruct j).
  eexists. split; [reflexivity|].
  split; [done|]. rewrite Hm. split; [done|]. cbn [jf_records].
  by rewrite jset_len_prefix, app_nil_r.
Qed.

(** ** Appending *)

Lemma blocks_span_app p q r a b :
  blocks_span p q a -> blocks_span q r b -> blocks_span p r (a ++ b).
Proof.
  revert p. induction a as [|x a IH]; intros p Ha Hb; simpl in *; [by subst|].
  destruct Ha as (? & ? & Ha). split_and!; [done|done|]. by apply IH.
Qed.

Lemma heights_consecutive_snoc bs b :
  heights_consecutive bs -> (forall l, last bs = Some l -> be_height b = be_height l + 1) ->
  heights_consecutive (bs ++ [b]).
Proof.
  induction bs as [|x bs IH]; intros Hh Hl; [done|]. destruct bs as [|y bs].
  - simpl. split; [by apply Hl|done].
  - destruct Hh as [Hxy Hh]. simpl. split; [done|]. apply IH; [done|].
    intros l Hlast. apply Hl. done.
Qed.

Lemma existsb_width (records : list (list Z)) n :
  existsb (fun r => negb (zlen r =? n)) records = false -> Forall (fun r => zlen r = n) records.
Proof.
  induction records as [|r records IH]; simpl; [constructor|].
  intros [Hr Hrs]%orb_false_iff. bool_prop. constructor; auto.
Qed.

Lemma append_stored j d recs height hash records j' ops :
  jstored j d recs [] ->
  (zlen recs + zlen records) * record_bytes (rj_layout j) < u64_bound ->
  (forall l, RecordJournal_last_block j = Some l -> 0 <= be_height l < u64_bound - 1) ->
  RecordJournal_append_block j height hash records = (Ok tt, j', ops) ->
  ops = [JAppend (concat records); JRename (rj_manifest j')] /\
  rj_name j' = rj_name j /\ rj_table j' = rj_table j /\ rj_layout j' = rj_layout j /\
  jstored j' (run_jops ops d) (recs ++ records) [].
Proof.
  intros (Hwf & Hm & Hr) Hu Hlast Ha. pose proof Hwf as [Hb Hw Hs Ht Hsp Hh Hv Hn].
  unfold RecordJournal_append_block in Ha.
  destruct (match RecordJournal_last_block j with Some _ => _ | None => _ end) eqn:Eg; [done|].
  destruct (existsb _ records) eqn:Ew; [done|]. apply existsb_width in Ew.
  destruct (checked_add64 _ _) as [ts|] eqn:Ec; [|done]. injection Ha as <- <-.
  unfold checked_add64 in Ec. destruct (_ <? u64_bound); [|done]. injection Ec as <-.
  unfold RecordJournal_tree_size in Hs. split; [done|]. split; [done|]. split; [done|].
  split; [done|]. split.
  - split; cbn [with_manifest rj_layout rj_manifest sm_blocks sm_version sm_table rj_name]; try done.
    + by apply Forall_app.
    + unfold RecordJournal_tree_size. cbn [with_manifest rj_manifest sm_tree_size].
      rewrite zlen_app. lia.
    + by rewrite zlen_app.
    + eapply blocks_span_app; [exact Hsp|]. cbn [blocks_span be_first_position be_action_count].
      rewrite zlen_app. split_and!; [lia|apply zlen_nonneg|lia].
    + apply heights_consecutive_snoc; [done|]. intros l Hl. cbn [be_height].
      unfold RecordJournal_last_block in *. rewrite Hl in Eg. bool_prop.
      specialize (Hlast l Hl). unfold wrap64 in Eg. rewrite Z.mod_small in Eg by lia. done.
  - split; [done|]. cbn [run_jops foldl run_jop jf_records]. rewrite Hr.
    cbn [from_option id]. by rewrite concat_app, !app_nil_r.
Qed.

(** A crash while appending, and opening afterwards. *)
Lemma append_crash j d recs bs m d' :
  jstored j d recs [] -> jcrashed [JAppend bs; JRename m] d d' ->
  (exists tail, jstored j d' recs tail) \/ d' = run_jops [JAppend bs; JRename m] d.
Proof.
  intros (Hwf & Hm & Hr) Hc.
  inversion Hc as [|bs0 k os d0|o os d0 d1 Hc1]; subst.
  - left. exists []. done.
  - left. exists (take k bs). split; [done|]. cbn [run_jop jf_manifest jf_records].
    rewrite Hr. cbn [from_option id]. by rewrite app_nil_r.
  - inversion Hc1 as [| |o os d0 d1 Hc2]; subst.
    + left. exists bs. split; [done|]. cbn [run_jop jf_manifest jf_records].
      rewrite Hr. cbn [from_option id]. by rewrite app_nil_r.
    + right. by inversion Hc2; subst.
Qed.

(** ** Reading *)

Lemma concat_drop (recs : list (list Z)) n k :
  Forall (fun r => zlen r = n) recs -> 0 <= n ->
  drop (Z.to_nat (Z.of_nat k * n)) (concat recs) = concat (drop k recs).
Proof.
  intros Hw Hn. destruct (decide (k <= length recs)%nat) as [Hk|Hk].
  - rewrite <- (take_drop k recs) at 1. rewrite concat_app. apply drop_app_length'.
    assert (zlen (concat (take k recs)) = Z.of_nat k * n) as Hl.
    { rewrite (zlen_concat_records _ n) by (by apply Forall_take). unfold zlen.
      rewrite length_take. f_equal. lia. }
    unfold zlen in Hl. lia.
  - rewrite (drop_ge recs) by lia. apply drop_ge.
    pose proof (zlen_concat_records recs n Hw). unfold zlen in *. nia.
Qed.

Lemma concat_take (recs : list (list Z)) n k :
  Forall (fun r => zlen r = n) recs -> 0 <= n ->
  take (Z.to_nat (Z.of_nat k * n)) (concat recs) = concat (take k recs).
Proof.
  intros Hw Hn. destruct (decide (k <= length recs)%nat) as [Hk|Hk].
  - rewrite <- (take_drop k recs) at 1. rewrite concat_app. apply take_app_length'.
    assert (zlen (concat (take k recs)) = Z.of_nat k * n) as Hl.
    { rewrite (zlen_concat_records _ n) by (by apply Forall_take). unfold zlen.
      rewrite length_take. f_equal. lia. }
    unfold zlen in Hl. lia.
  - rewrite (take_ge recs) by lia. apply take_ge.
    pose proof (zlen_concat_records recs n Hw). unfold zlen in *. nia.
Qed.

(** [count] records from [start]. *)
Lemma read_at_records j d recs tail start count :
  jstored j d recs tail -> 0 <= start -> 0 <= count -> start + count <= zlen recs ->
  read_at d (start * record_bytes (rj_layout j)) (count * record_bytes (rj_layout j)) =
  Ok (concat (take (Z.to_nat count) (drop (Z.to_nat start) recs))).
Proof.
  intros (Hwf & _ & Hr) Hs Hc Hle. pose proof Hwf as [Hb Hw _ _ _ _ _ _].
  set (n := record_bytes (rj_layout j)) in *. unfold read_at. rewrite Hr. cbn [from_option id].
  destruct (count * n =? 0) eqn:E; bool_prop.
  { assert (count = 0) as -> by nia. done. }
  unfold get_range. pose proof (zlen_concat_records recs n Hw) as Hz.
  pose proof (zlen_nonneg tail). rewrite zlen_app, Hz.
  assert (0 < count) by nia. assert (start * n + count * n <= zlen recs * n) by nia.
  assert (0 <= start * n) by nia. guards. cbn [andb ok_or]. f_equal.
  replace (start * n + count * n - start * n) with (Z.of_nat (Z.to_nat count) * n) by lia.
  replace (start * n) with (Z.of_nat (Z.to_nat start) * n) by lia.
  rewrite drop_app_le by (unfold zlen in *; lia).
  rewrite concat_drop by (done || lia).
  rewrite take_app_le; [apply concat_take; [by apply Forall_drop|lia]|].
  pose proof (zlen_concat_records (drop (Z.to_nat start) recs) n (Forall_drop _ _ _ Hw)) as Hzd.
  unfold zlen in *. rewrite length_drop in Hzd. nia.
Qed.

Lemma slice_concat_record (recs : list (list Z)) n i r rest :
  Forall (fun r => zlen r = n) recs -> 0 < n -> recs !! i = Some r ->
  slice (concat recs ++ rest) (Z.of_nat i * n) (Z.of_nat i * n + n) = r.
Proof.
  intros Hw Hn Hi. rewrite <- (take_drop_middle recs i r Hi), concat_app. cbn [concat].
  rewrite <- !app_assoc. apply slice_app.
  - rewrite (zlen_concat_records _ n) by (by apply Forall_take). unfold zlen.
    rewrite length_take. apply lookup_lt_Some in Hi. f_equal. lia.
  - replace (Z.of_nat i * n + n - Z.of_nat i * n) with n by lia.
    rewrite Forall_lookup in Hw. by apply (Hw i).
Qed.

(** The shard that holds a position, and the record in it. *)
Lemma read_shard_position j d recs tail p r :
  jstored j d recs tail ->
  0 < records_per_row (rj_layout j) -> 0 < shard_rows (rj_layout j) ->
  0 <= p -> recs !! Z.to_nat p = Some r ->
  exists rows,
    RecordJournal_read_shard_rows j d (p / DatabaseLayout_shard_positions (rj_layout j)) = Ok rows /\
    zlen rows = DatabaseLayout_shard_bytes (rj_layout j) /\
    slice rows (p mod DatabaseLayout_shard_positions (rj_layout j) * record_bytes (rj_layout j))
      (p mod DatabaseLayout_shard_positions (rj_layout j) * record_bytes (rj_layout j) +
       record_bytes (rj_layout j)) = r.
Proof.
  intros Hst Hrpr Hsr Hp Hl. pose proof Hst as (Hwf & _ & _).
  pose proof Hwf as [Hb Hw Hs Ht _ _ _ _].
  set (SP := DatabaseLayout_shard_positions (rj_layout j)).
  assert (0 < SP) as HSP by (unfold SP, DatabaseLayout_shard_positions; nia).
  apply lookup_lt_Some in Hl as Hlt.
  assert (p < zlen recs) as Hpz by (unfold zlen; lia).
  set (n := record_bytes (rj_layout j)) in *.
  pose proof (Z.div_mod p SP ltac:(lia)) as Hdm. pose proof (Z.mod_pos_bound p SP HSP) as Hmod.
  assert (0 <= p / SP) as Hq by (apply Z.div_pos; lia).
  set (start := p / SP * SP). assert (0 <= start <= p) as Hstart by (unfold start; nia).
  assert (p / SP * SP < u64_bound) as Hsu by nia.
  unfold RecordJournal_read_shard_rows. fold SP n. unfold checked_mul64.
  rewrite (proj2 (Z.ltb_lt _ _) Hsu). cbn [ok_or]. fold start. rewrite Hs.
  guards. unfold saturating_sub.
  set (avail := Z.min (Z.max 0 (zlen recs - start)) SP).
  assert (0 < avail <= SP /\ start + avail <= zlen recs /\ p mod SP < avail) as (Hav & Hle & Hin)
    by (unfold avail, start in *; lia).
  assert (wrap64 (start * n) = start * n) as ->.
  { unfold wrap64. apply Z.mod_small. nia. }
  pose proof (read_at_records j d recs tail start avail Hst ltac:(lia) ltac:(lia) Hle) as Hra.
  fold n in Hra. rewrite Hra.
  assert (DatabaseLayout_shard_bytes (rj_layout j) = SP * n) as Hsb.
  { unfold DatabaseLayout_shard_bytes, DatabaseLayout_row_bytes, SP, DatabaseLayout_shard_positions, n. lia. }
  set (sub := take (Z.to_nat avail) (drop (Z.to_nat start) recs)).
  assert (Forall (fun r => zlen r = n) sub) as Hws by (by apply Forall_take, Forall_drop).
  assert (zlen sub = avail) as Hzs.
  { unfold sub, zlen in *. rewrite length_take, length_drop. lia. }
  eexists. split; [reflexivity|]. split.
  - rewrite zlen_app, (zlen_concat_records _ n Hws), Hzs, Hsb. unfold zlen.
    rewrite length_replicate. nia.
  - replace (p mod SP) with (Z.of_nat (Z.to_nat (p mod SP))) by lia.
    apply slice_concat_record; [done|done|]. unfold sub.
    rewrite lookup_take_lt, lookup_drop by lia. rewrite <- Hl. f_equal. unfold start in *. lia.
Qed.

Lemma read_records_ok j d recs tail start count :
  jstored j d recs tail -> 0 <= start -> 0 <= count -> start + count <= zlen recs ->
  RecordJournal_read_records j d start count =
  Ok (concat (take (Z.to_nat count) (drop (Z.to_nat start) recs))).
Proof.
  intros Hst Hs Hc Hle. pose proof Hst as (Hwf & _ & _). pose proof Hwf as [Hb _ Hsz Ht _ _ _ _].
  unfold RecordJournal_read_records, checked_add64. guards.
  rewrite (proj2 (Z.ltb_lt (start + count) u64_bound)) by nia. cbn [ok_or]. rewrite Hsz. guards.
  assert (wrap64 (start * record_bytes (rj_layout j)) = start * record_bytes (rj_layout j)) as ->.
  { unfold wrap64. apply Z.mod_small. nia. }
  by apply read_at_records with tail.
Qed.

(** ** Rewinding *)

(** Dropping the last block: the records it added. *)
Lemma heights_lower bs b l :
  heights_consecutive (b :: bs) -> last (b :: bs) = Some l ->
  be_height l = be_height b + zlen bs.
Proof.
  revert b. induction bs as [|c bs IH]; intros b Hh Hl.
  - simpl in Hl. injection Hl as <-. unfold zlen. simpl. lia.
  - destruct Hh as [Hc Hh]. rewrite last_cons_cons in Hl. rewrite (IH c Hh Hl), Hc.
    rewrite zlen_cons. lia.
Qed.

Lemma blocks_span_snoc p q bs b :
  blocks_span p q (bs ++ [b]) ->
  blocks_span p (be_first_position b) bs /\ be_first_position b + be_action_count b = q /\
  0 <= be_action_count b /\ p <= be_first_position b.
Proof.
  revert p. induction bs as [|x bs IH]; intros p H; simpl in *.
  - destruct H as (-> & ? & ->). split_and!; (done || lia).
  - destruct H as (? & ? & H). destruct (IH _ H) as (? & ? & ? & ?). split_and!; (done || lia).
Qed.

Lemma blocks_span_take p q bs k b :
  blocks_span p q bs -> bs !! k = Some b ->
  blocks_span p (be_first_position b) (take k bs) /\ p <= be_first_position b <= q.
Proof.
  revert p k. induction bs as [|x bs IH]; intros p k Hs Hk; [done|].
  destruct Hs as (Hf & Hc & Hs). destruct k as [|k].
  - injection Hk as <-. simpl. split; [done|]. subst.
    assert (forall p bs, blocks_span p q bs -> p <= q) as Hm; [|specialize (Hm _ _ Hs); lia].
    clear. intros p bs. revert p. induction bs as [|y bs IH]; intros p Hs; simpl in Hs; [lia|].
    destruct Hs as (_ & ? & Hs). specialize (IH _ Hs). lia.
  - simpl in Hk. destruct (IH _ _ Hs Hk) as [H1 H2]. simpl. split_and!; (done || lia).
Qed.

Lemma heights_consecutive_take bs k : heights_consecutive bs -> heights_consecutive (take k bs).
Proof.
  revert k. induction bs as [|x bs IH]; intros [|k] Hh; try done.
  destruct bs as [|y bs]; [by destruct k|]. destruct Hh as [Hxy Hh].
  destruct k as [|k]; [done|]. specialize (IH (S k) Hh). simpl in *. done.
Qed.

Lemma partition_point_le {A} (f : A -> bool) l : (partition_point f l <= length l)%nat.
Proof. induction l as [|x l IH]; simpl; [lia|]. destruct (f x); simpl; lia. Qed.

Lemma partition_point_heights bs h b :
  heights_consecutive bs ->
  b ∈ take (partition_point (fun b => be_height b <=? h) bs) bs <-> b ∈ bs /\ be_height b <= h.
Proof.
  induction bs as [|x bs IH]; intros Hh; [simpl; rewrite elem_of_nil; tauto|].
  assert (heights_consecutive bs) as Hh' by (destruct bs; [done|apply Hh]).
  assert (forall y, y ∈ bs -> be_height x < be_height y) as Hlt.
  { clear IH Hh'. revert x Hh. induction bs as [|y bs IH]; intros x Hh z Hz;
      [by apply elem_of_nil in Hz|].
    destruct Hh as [Hxy Hh]. apply elem_of_cons in Hz as [->|Hz]; [lia|].
    specialize (IH y Hh z Hz). lia. }
  cbn [partition_point]. destruct (be_height x <=? h) eqn:E; bool_prop.
  - cbn [take]. rewrite !elem_of_cons, IH by done. split.
    + intros [->|[? ?]]; auto.
    + intros [[->|?] ?]; auto.
  - cbn [take]. rewrite elem_of_nil, elem_of_cons. split; [done|].
    intros [[->|Hin] ?]; [lia|]. specialize (Hlt b Hin). lia.
Qed.

Lemma rewind_target_span j recs h :
  jwf j recs ->
  blocks_span 0 (snd (rewind_target j h)) (take (fst (rewind_target j h)) (sm_blocks (rj_manifest j))) /\
  0 <= snd (rewind_target j h) <= zlen recs.
Proof.
  intros [Hb _ Hs Ht Hsp Hh _ _]. unfold rewind_target.
  set (bs := sm_blocks (rj_manifest j)) in *.
  set (keep := match h with None => 0%nat | Some _ => _ end). cbn [fst snd].
  assert (keep <= length bs)%nat as Hk.
  { unfold keep. destruct h; [apply partition_point_le|lia]. }
  destruct (bs !! keep) as [b|] eqn:Ek; [by eapply blocks_span_take|].
  apply lookup_ge_None in Ek. rewrite take_ge by lia.
  destruct (last bs) as [b|] eqn:El.
  - rewrite bool_decide_true by lia. apply last_Some in El as (bs' & Hbs).
    rewrite Hbs in Hsp |- *. apply blocks_span_snoc in Hsp as Hsp'.
    destruct Hsp' as (_ & Heq & ? & ?). rewrite Heq. pose proof (zlen_nonneg recs).
    assert (wrap64 (zlen recs) = zlen recs) as -> by (unfold wrap64; apply Z.mod_small; nia).
    split; [done|lia].
  - apply last_None in El. rewrite El in *. simpl in Hsp. split; [done|lia].
Qed.

(** Where a position lies in the shard that holds it. *)
Lemma position_in_shard j d recs tail p r :
  jstored j d recs tail -> rj_layout j = ENHANCE_LAYOUT ->
  0 <= p -> recs !! Z.to_nat p = Some r ->
  let row := p / RECORDS_PER_ROW in
  let local := row mod SHARD_ROWS in
  exists rows, RecordJournal_read_shard_rows j d (row / SHARD_ROWS) = Ok rows /\
    zlen rows = SHARD_ROWS * ROW_BYTES /\
    record_in_row (slice rows (local * ROW_BYTES) (local * ROW_BYTES + ROW_BYTES))
      (p mod RECORDS_PER_ROW) = r.
Proof.
  intros Hst Hlay Hp Hl. cbv zeta.
  destruct (read_shard_position j d recs tail p r Hst) as (rows & Hrows & Hz & Hs);
    try (rewrite Hlay; done); try done.
  rewrite Hlay in *. change (DatabaseLayout_shard_positions ENHANCE_LAYOUT) with (9 * 8192) in *.
  change (DatabaseLayout_shard_bytes ENHANCE_LAYOUT) with (SHARD_ROWS * ROW_BYTES) in Hz.
  change (record_bytes ENHANCE_LAYOUT) with 725 in *.
  exists rows. unfold RECORDS_PER_ROW, SHARD_ROWS in *.
  rewrite Z.div_div by lia. split; [done|]. split; [done|].
  assert (p mod (9 * 8192) = p mod 9 + 9 * ((p / 9) mod 8192)) as Hm by (apply Z.rem_mul_r; lia).
  pose proof (Z.mod_pos_bound p 9 ltac:(lia)). pose proof (Z.mod_pos_bound (p / 9) 8192 ltac:(lia)).
  unfold record_in_row, ROW_BYTES, RECORD_BYTES, RECORDS_PER_ROW.
  rewrite <- Hs, Hm, slice_slice by lia. f_equal; lia.
Qed.

(** ** Properties *)

(** A position of the tree is served from the right row.  For every position
    below the tree size, the shard [position / 73728] of the journal reads as a
    full padded shard, and slicing the row [(position / 9) mod 8192] of it and
    taking the slot [position mod 9], as the wallet does with a decoded row,
    gives exactly the record that was appended at that position. *)
Theorem enhance_position_served j d recs tail p r :
  jstored j d recs tail -> rj_layout j = ENHANCE_LAYOUT ->
  0 <= p -> recs !! Z.to_nat p = Some r ->
  let row := p / RECORDS_PER_ROW in
  let local := row mod SHARD_ROWS in
  exists rows, RecordJournal_read_shard_rows j d (row / SHARD_ROWS) = Ok rows /\
    zlen rows = SHARD_ROWS * ROW_BYTES /\
    record_in_row (slice rows (local * ROW_BYTES) (local * ROW_BYTES + ROW_BYTES))
      (p mod RECORDS_PER_ROW) = r.
Proof. apply position_in_shard. Qed.

(** C19: appending a block is atomic under a crash.  From a journal in step with
    its directory, a crash at any point of [append_block], including inside the
    write of the records, leaves a directory that opens: either to the journal
    before the block or to the journal after it; in both cases every position of
    the opened journal reads the record that was appended there. *)
Theorem journal_append_atomic j d recs height hash records j' ops d' aside :
  jstored j d recs [] ->
  (zlen recs + zlen records) * record_bytes (rj_layout j) < u64_bound ->
  (forall l, RecordJournal_last_block j = Some l -> 0 <= be_height l < u64_bound - 1) ->
  RecordJournal_append_block j height hash records = (Ok tt, j', ops) ->
  jcrashed ops d d' ->
  exists j'' d'' recs'', ((j'' = j /\ recs'' = recs) \/ (j'' = j' /\ recs'' = recs ++ records)) /\
    open_inner {| jd_files := d'; jd_aside := aside |} (rj_name j) (rj_table j) (rj_layout j) =
      (Ok j'', {| jd_files := d''; jd_aside := aside |}) /\
    jstored j'' d'' recs'' [].
Proof.
  intros Hst Hu Hl Ha Hc.
  destruct (append_stored _ _ _ _ _ _ _ _ Hst Hu Hl Ha) as (-> & Hn & Ht & Hy & Hst').
  destruct (append_crash _ _ _ _ _ _ Hst Hc) as [(tail & Hs)| ->].
  - destruct (open_stored _ _ _ _ aside Hs) as (d'' & Ho & Hs'').
    exists j, d'', recs. eauto.
  - destruct (open_stored _ _ _ _ aside Hst') as (d'' & Ho & Hs'').
    rewrite Hn, Ht, Hy in Ho. exists j', d'', (recs ++ records). eauto.
Qed.

(** The crash window of [rewind_to_height].  The records file is cut before
    the manifest is replaced, so a crash between the two leaves a directory that
    no longer opens, whenever the rewind drops at least one record. *)
Theorem rewind_crash_unopenable j d recs height j' ops aside :
  jstored j d recs [] -> RecordJournal_rewind_to_height j height = (j', ops) ->
  0 <= snd (rewind_target j height) < zlen recs ->
  exists d', jcrashed ops d d' /\
    fst (open_inner {| jd_files := d'; jd_aside := aside |} (rj_name j) (rj_table j) (rj_layout j)) =
      Err (JE_Invariant "records file is shorter than committed manifest").
Proof.
  intros (Hwf & Hm & Hr) Hrw Hsz. pose proof Hwf as [Hb Hw Hs Ht _ _ Hv Hn].
  unfold RecordJournal_rewind_to_height in Hrw.
  destruct (rewind_target j height) as [keep ts]. cbn [snd] in Hsz. injection Hrw as <- <-.
  eexists. split; [apply jcrashed_later, jcrashed_now|].
  unfold open_inner, open_manifest. cbn [jd_files jd_aside run_jop jf_manifest jf_records].
  rewrite Hm, Hv, Hn. rewrite Z.eqb_refl, bool_decide_true by done. cbn [negb orb].
  unfold RecordJournal_tree_size in Hs. rewrite Hs. unfold checked_mul64.
  rewrite (proj2 (Z.ltb_lt _ _) Ht). cbn [jd_files jd_aside jf_records from_option id].
  rewrite Hr, app_nil_r. cbn [from_option id].
  assert (wrap64 (ts * record_bytes (rj_layout j)) = ts * record_bytes (rj_layout j)) as ->
    by (unfold wrap64; apply Z.mod_small; nia).
  pose proof (zlen_concat_records recs _ Hw) as Hz.
  assert (zlen (jset_len (concat recs) (ts * record_bytes (rj_layout j))) =
          ts * record_bytes (rj_layout j)) as ->.
  { unfold jset_len. rewrite zlen_app. unfold zlen in *. rewrite length_take, length_replicate. nia. }
  rewrite (proj2 (Z.ltb_lt _ _)) by nia. done.
Qed.

(** A completed rewind keeps exactly the blocks at or below the height (none
    for [None]) and exactly their records, and the result is durable: it is in
    step with its directory, so it reopens to itself. *)
Theorem rewind_exact j d recs height j' ops :
  jstored j d recs [] -> RecordJournal_rewind_to_height j height = (j', ops) ->
  (forall b, b ∈ sm_blocks (rj_manifest j') <->
     b ∈ sm_blocks (rj_manifest j) /\ match height with Some h => be_height b <= h | None => False end) /\
  jstored j' (run_jops ops d) (take (Z.to_nat (RecordJournal_tree_size j')) recs) [].
Proof.
  intros (Hwf & Hm & Hr) Hrw. pose proof Hwf as [Hb Hw Hs Ht Hsp Hh Hv Hn].
  destruct (rewind_target_span j recs height Hwf) as [Hspan Hsz].
  unfold RecordJournal_rewind_to_height in Hrw.
  destruct (rewind_target j height) as [keep ts] eqn:Et. cbn [fst snd] in *.
  injection Hrw as <- <-.
  assert (keep = match height with None => 0%nat
    | Some h => partition_point (fun b => be_height b <=? h) (sm_blocks (rj_manifest j)) end) as Hkeep
    by (unfold rewind_target in Et; by injection Et as <- _).
  split.
  - intros b. cbn [with_manifest rj_manifest sm_blocks]. rewrite Hkeep.
    destruct height as [h|]; [by apply partition_point_heights|].
    rewrite take_0, elem_of_nil. tauto.
  - unfold RecordJournal_tree_size. cbn [with_manifest rj_manifest sm_tree_size].
    assert (zlen (take (Z.to_nat ts) recs) = ts) as Hz.
    { unfold zlen in *. rewrite length_take. lia. }
    split.
    + split; cbn [with_manifest rj_layout rj_manifest sm_blocks sm_version sm_table rj_name]; try done.
      * by apply Forall_take.
      * rewrite Hz. nia.
      * by rewrite Hz.
      * by apply heights_consecutive_take.
    + split; [done|]. cbn [run_jops foldl run_jop jf_records]. rewrite Hr, !app_nil_r.
      cbn [from_option id]. f_equal.
      assert (wrap64 (ts * record_bytes (rj_layout j)) = ts * record_bytes (rj_layout j)) as ->
        by (unfold wrap64; apply Z.mod_small; nia).
      replace ts with (Z.of_nat (Z.to_nat ts)) at 1 by lia.
      unfold jset_len. rewrite concat_take by (done || lia).
      pose proof (zlen_concat_records recs _ Hw).
      replace (Z.to_nat _ - _)%nat with 0%nat by (unfold zlen in *; nia).
      cbn [replicate]. by rewrite app_nil_r.
Qed.

(** ** A chain replacement during catch-up *)

Definition stale_record : EnhanceRecord := replicate (Z.to_nat RECORD_BYTES) 1.
Definition best_record : EnhanceRecord := replicate (Z.to_nat RECORD_BYTES) 2.

(** The node replaces its best chain after it served its first block; both
    branches have one action per block. *)
Definition enhance_block (b : bool) (h : Z) : CanonicalBlock := {|
  cb_height := h; cb_hash := if b then "best"%string else "stale"%string;
  cb_records := [if b then best_record else stale_record];
  cb_tree_size := h - ACTIVATION_HEIGHT + 1 |}.

#[export] Instance switching_enhance_node : EnhanceNode bool := {|
  en_tip_height n := (Ok (ACTIVATION_HEIGHT + 1), n);
  en_block_hash h n := (Ok (cb_hash (enhance_block n h)), n);
  en_block h n := (Ok (enhance_block n h), true) |}.

Definition fresh_journal : RecordJournal := {|
  rj_name := "enhance"%string; rj_table := Some Enhance; rj_layout := ENHANCE_LAYOUT;
  rj_manifest := fresh_manifest "enhance" |}.

(** The Enhance journal has the same divergence as the filter chain.  A chain
    replacement between the fetches of two blocks of one catch-up leaves the
    stale block's record at its position; the tree sizes agree, so the continuity
    check passes, and reconciliation against the now stable node accepts the
    journal because its last block agrees. *)
Theorem enhance_reorg_during_catch_up_sticks :
  exists j ops j' ops',
    enhance_catch_up 2 (ACTIVATION_HEIGHT + 1) ACTIVATION_HEIGHT fresh_journal false
      = (Ok tt, j, ops, true) /\
    enhance_reconcile j (ACTIVATION_HEIGHT + 1) true = (Ok tt, j', ops', true) /\ j' = j /\ ops' = [] /\
    RecordJournal_read_records j (run_jops ops {| jf_records := Some []; jf_manifest := None |}) 0 1
      = Ok stale_record /\
    cb_records (enhance_block true ACTIVATION_HEIGHT) = [best_record] /\ stale_record <> best_record.
Proof.
  eexists _, _, _, _. split; [vm_compute; reflexivity|]. split; [vm_compute; reflexivity|].
  split; [reflexivity|]. split; [reflexivity|]. split; [vm_compute; reflexivity|].
  split; [reflexivity|]. vm_compute. discriminate.
Qed.

(** ** Witnesses *)

Definition empty_jfiles : jfiles :=
  {| jf_records := Some []; jf_manifest := Some (Some (fresh_manifest "enhance")) |}.

Lemma fresh_stored : jstored fresh_journal empty_jfiles [] [].
Proof. split; [|done]. split; try done; constructor. Qed.

Definition one_action : result JournalError unit * RecordJournal * list jop :=
  RecordJournal_append_block fresh_journal ACTIVATION_HEIGHT "h" [stale_record].

Lemma one_action_stored :
  jstored (snd (fst one_action)) (run_jops (snd one_action) empty_jfiles) [stale_record] [].
Proof.
  destruct (append_stored fresh_journal empty_jfiles [] ACTIVATION_HEIGHT "h" [stale_record]
    (snd (fst one_action)) (snd one_action)) as (_ & _ & _ & _ & Hs); try done.
Qed.

Lemma enhance_position_served_witness :
  exists rows, RecordJournal_read_shard_rows (snd (fst one_action))
      (run_jops (snd one_action) empty_jfiles) 0 = Ok rows /\
    record_in_row (slice rows 0 ROW_BYTES) 0 = stale_record.
Proof.
  destruct (enhance_position_served (snd (fst one_action)) (run_jops (snd one_action) empty_jfiles)
    [stale_record] [] 0 stale_record one_action_stored eq_refl ltac:(discriminate) eq_refl)
    as (rows & Hr & _ & Hrec).
  exists rows. split; [exact Hr|exact Hrec].
Defined.

Lemma journal_append_atomic_witness :
  exists j'' d'', open_inner {| jd_files := run_jop empty_jfiles (JAppend (take 3 (concat [stale_record])));
      jd_aside := ∅ |} "enhance" (Some Enhance) ENHANCE_LAYOUT
    = (Ok j'', {| jd_files := d''; jd_aside := ∅ |}) /\
    (j'' = fresh_journal \/ j'' = snd (fst one_action)).
Proof.
  destruct (journal_append_atomic fresh_journal empty_jfiles [] ACTIVATION_HEIGHT "h" [stale_record]
    (snd (fst one_action)) (snd one_action) (run_jop empty_jfiles (JAppend (take 3 (concat [stale_record]))))
    ∅) as (j'' & d'' & recs'' & Hj & Ho & _).
  - apply fresh_stored.
  - reflexivity.
  - discriminate.
  - reflexivity.
  - apply jcrashed_torn.
  - exists j'', d''. split; [exact Ho|]. destruct Hj as [[-> _]|[-> _]]; [left|right]; reflexivity.
Defined.

Lemma rewind_crash_unopenable_witness :
  exists d', jcrashed (snd (RecordJournal_rewind_to_height (snd (fst one_action)) None))
      (run_jops (snd one_action) empty_jfiles) d' /\
    fst (open_inner {| jd_files := d'; jd_aside := ∅ |} "enhance" (Some Enhance) ENHANCE_LAYOUT) =
      Err (JE_Invariant "records file is shorter than committed manifest").
Proof.
  apply (rewind_crash_unopenable (snd (fst one_action)) (run_jops (snd one_action) empty_jfiles)
    [stale_record] None _ _ ∅ one_action_stored eq_refl).
  vm_compute. split; [discriminate|reflexivity].
Defined.

Lemma rewind_exact_witness :
  sm_blocks (rj_manifest (fst (RecordJournal_rewind_to_height (snd (fst one_action)) None))) = [] /\
  jstored (fst (RecordJournal_rewind_to_height (snd (fst one_action)) None))
    (run_jops (snd (RecordJournal_rewind_to_height (snd (fst one_action)) None))
      (run_jops (snd one_action) empty_jfiles)) [] [].
Proof.
  split; [reflexivity|].
  exact (proj2 (rewind_exact (snd (fst one_action)) (run_jops (snd one_action) empty_jfiles)
    [stale_record] None _ _ one_action_stored eq_refl)).
Defined.
