(* ===== verification/Wire.v ===== *)
(** * The coordinator/worker wire formats

    Models [server/enhance-pir-server/src/wire.rs]: the messages the
    coordinator and its workers exchange, which are also the format of a
    persisted hint.  [CrsBlock] belongs to the PIR library; the code uses it as
    its vector of rows.  The theorems show that each decoder accepts exactly the
    encodings of well-formed messages, so a partial answer or a hint is never
    cut, padded or reframed on the way. *)

From Stdlib Require Import ZArith Lia.
From stdpp Require Import base numbers list strings.
From S2P Require Import Prelude Cursor.

Open Scope Z_scope.

(** ** Data *)

Definition EVAL_REQUEST_MAGIC : list Z := string_bytes "MPQ1".
Definition EVAL_RESPONSE_MAGIC : list Z := string_bytes "MPR1".
Definition HINT_MAGIC : list Z := string_bytes "MPH1".
Definition MAX_SHARDS_PER_WORKER : Z := 4096.

Inductive WireError := WE_Malformed (what : string).

Record ShardQuery := { sq_shard_id : Z; sq_coefficients : list Z }.
Record EvaluateRequest := { er_generation : Z; er_shards : list ShardQuery }.

Record CrsBlock := { cb_rows : list (list Z) }.

(** ** The reader *)

Definition Input_take : Z -> parser WireError (list Z) :=
  cursor_take (WE_Malformed "offset overflow") (WE_Malformed "truncated message").
Definition Input_u32 : parser WireError Z :=
  cursor_le (WE_Malformed "offset overflow") (WE_Malformed "truncated message") 4.
Definition Input_u64 : parser WireError Z :=
  cursor_le (WE_Malformed "offset overflow") (WE_Malformed "truncated message") 8.

Definition Input_expect_magic (expected : list Z) : parser WireError unit :=
  let! got := Input_take 4 in
  if negb (bool_decide (got = expected))
  then pfail (WE_Malformed "wrong message magic") else pret tt.

Definition Input_finish : parser WireError unit := fun c =>
  if negb (cur_offset c =? zlen (cur_bytes c))
  then Err (WE_Malformed "trailing message bytes") else Ok (tt, c).

Definition parse {A} (p : parser WireError A) (bytes : list Z) : result WireError A :=
  let? (a, _) := p (Cursor bytes 0) in Ok a.

(** The [chunks_exact(8).map(u64::from_le_bytes)] of every decoder. *)
Definition coefficients_of (raw : list Z) : list Z :=
  le_val <$> chunks_exact (length raw) 8 raw.

(** A counted vector of coefficients whose byte length is [count * 8]. *)
Definition take_coefficients (count : Z) (overflow : string) : parser WireError (list Z) :=
  match checked_mul64 count 8 with
  | None => pfail (WE_Malformed overflow)
  | Some byte_count =>
      let! raw := Input_take byte_count in pret (coefficients_of raw)
  end.

(** ** Writers *)

Definition extend_coefficients (output coefficients : list Z) : list Z :=
  foldl (fun output coefficient => output ++ le_bytes 8 coefficient) output coefficients.

Definition encode_evaluate_request (request : EvaluateRequest) : list Z :=
  let output := EVAL_REQUEST_MAGIC in
  let output := output ++ le_bytes 8 (er_generation request) in
  let output := output ++ le_bytes 4 (wrap32 (zlen (er_shards request))) in
  foldl (fun output shard =>
    let output := output ++ le_bytes 8 (sq_shard_id shard) in
    let output := output ++ le_bytes 4 (wrap32 (zlen (sq_coefficients shard))) in
    extend_coefficients output (sq_coefficients shard)) output (er_shards request).

Definition encode_evaluate_response (generation : Z) (coefficients : list Z) : list Z :=
  let output := EVAL_RESPONSE_MAGIC in
  let output := output ++ le_bytes 8 generation in
  let output := output ++ le_bytes 4 (wrap32 (zlen coefficients)) in
  extend_coefficients output coefficients.

Definition encode_crs_blocks (blocks : list CrsBlock) : list Z :=
  let output := HINT_MAGIC in
  let output := output ++ le_bytes 4 (wrap32 (zlen blocks)) in
  foldl (fun output block =>
    let output := output ++ le_bytes 4 (wrap32 (zlen (cb_rows block))) in
    foldl (fun output row =>
      extend_coefficients (output ++ le_bytes 4 (wrap32 (zlen row))) row)
      output (cb_rows block)) output blocks.

(** ** Decoders *)

Definition decode_shard_query : parser WireError ShardQuery :=
  let! shard_id := Input_u64 in
  let! coefficient_count := Input_u32 in
  let! coefficients := take_coefficients coefficient_count "coefficient length overflow" in
  pret {| sq_shard_id := shard_id; sq_coefficients := coefficients |}.

Definition request_parser : parser WireError EvaluateRequest :=
  let! _ := Input_expect_magic EVAL_REQUEST_MAGIC in
  let! generation := Input_u64 in
  let! shard_count := Input_u32 in
  if (shard_count =? 0) || (MAX_SHARDS_PER_WORKER <? shard_count)
  then pfail (WE_Malformed "invalid shard count") else
  let! shards := prepeat (Z.to_nat shard_count) decode_shard_query in
  let! _ := Input_finish in
  pret {| er_generation := generation; er_shards := shards |}.

Definition decode_evaluate_request (bytes : list Z) : result WireError EvaluateRequest :=
  parse request_parser bytes.

Definition response_parser : parser WireError (Z * list Z) :=
  let! _ := Input_expect_magic EVAL_RESPONSE_MAGIC in
  let! generation := Input_u64 in
  let! count := Input_u32 in
  let! values := take_coefficients count "response length overflow" in
  let! _ := Input_finish in
  pret (generation, values).

Definition decode_evaluate_response (bytes : list Z) : result WireError (Z * list Z) :=
  parse response_parser bytes.

Definition decode_crs_row (degree : Z) : parser WireError (list Z) :=
  let! count := Input_u32 in
  if negb (count =? degree)
  then pfail (WE_Malformed "unexpected CRS coefficient count") else
  take_coefficients degree "CRS coefficient length overflow".

Definition decode_crs_block (degree : Z) : parser WireError CrsBlock :=
  let! count := Input_u32 in
  if negb (count =? degree) then pfail (WE_Malformed "unexpected CRS row count") else
  let! rows := prepeat (Z.to_nat degree) (decode_crs_row degree) in
  pret {| cb_rows := rows |}.

Definition crs_parser (expected_blocks degree : Z) : parser WireError (list CrsBlock) :=
  let! _ := Input_expect_magic HINT_MAGIC in
  let! blocks := Input_u32 in
  if negb (blocks =? expected_blocks)
  then pfail (WE_Malformed "unexpected CRS block count") else
  let! output := prepeat (Z.to_nat blocks) (decode_crs_block degree) in
  let! _ := Input_finish in
  pret output.

Definition decode_crs_blocks (bytes : list Z) (expected_blocks degree : Z) :
    result WireError (list CrsBlock) :=
  parse (crs_parser expected_blocks degree) bytes.

(** ** Well-formed messages *)

(** A vector that a counted coefficient field can carry. *)
Definition vector_wf (coefficients : list Z) : Prop :=
  u32 (zlen coefficients) /\ Forall u64 coefficients.

Definition shard_wf (shard : ShardQuery) : Prop :=
  u64 (sq_shard_id shard) /\ vector_wf (sq_coefficients shard).

Definition request_wf (request : EvaluateRequest) : Prop :=
  u64 (er_generation request) /\
  1 <= zlen (er_shards request) <= MAX_SHARDS_PER_WORKER /\
  Forall shard_wf (er_shards request).

Definition row_wf (degree : Z) (row : list Z) : Prop :=
  zlen row = degree /\ Forall u64 row.

Definition block_wf (degree : Z) (block : CrsBlock) : Prop :=
  zlen (cb_rows block) = degree /\ Forall (row_wf degree) (cb_rows block).

Definition crs_wf (expected_blocks degree : Z) (blocks : list CrsBlock) : Prop :=
  zlen blocks = expected_blocks /\ Forall (block_wf degree) blocks.

(** A byte slice is shorter than [isize::MAX]. *)
Definition slice_ok (bytes : list Z) : Prop := bytes_ok bytes /\ zlen bytes < 2 ^ 63.

(** ** The encodings as concatenations *)

Definition enc_vector (coefficients : list Z) : list Z :=
  concat (le_bytes 8 <$> coefficients).
Definition enc_counted (coefficients : list Z) : list Z :=
  le_bytes 4 (wrap32 (zlen coefficients)) ++ enc_vector coefficients.
Definition enc_shard (shard : ShardQuery) : list Z :=
  le_bytes 8 (sq_shard_id shard) ++ enc_counted (sq_coefficients shard).
Definition enc_block (block : CrsBlock) : list Z :=
  le_bytes 4 (wrap32 (zlen (cb_rows block))) ++ concat (enc_counted <$> cb_rows block).

Lemma foldl_append {A} (f : A -> list Z) (g : list Z -> A -> list Z) l out :
  (forall out a, g out a = out ++ f a) -> foldl g out l = out ++ concat (f <$> l).
Proof.
  intros Hg. revert out. induction l as [|a l IH]; intros out; simpl; [by rewrite app_nil_r|].
  by rewrite Hg, IH, <- app_assoc.
Qed.

Lemma extend_eq out cs : extend_coefficients out cs = out ++ enc_vector cs.
Proof. by apply foldl_append. Qed.

Lemma encode_request_eq r :
  encode_evaluate_request r =
  EVAL_REQUEST_MAGIC ++ le_bytes 8 (er_generation r) ++
  le_bytes 4 (wrap32 (zlen (er_shards r))) ++ concat (enc_shard <$> er_shards r).
Proof.
  unfold encode_evaluate_request. rewrite (foldl_append enc_shard); [by rewrite <- !app_assoc|].
  intros out s. unfold enc_shard, enc_counted. by rewrite extend_eq, <- !app_assoc.
Qed.

Lemma encode_response_eq g cs :
  encode_evaluate_response g cs = EVAL_RESPONSE_MAGIC ++ le_bytes 8 g ++ enc_counted cs.
Proof.
  unfold encode_evaluate_response, enc_counted. by rewrite extend_eq, <- !app_assoc.
Qed.

Lemma encode_crs_eq bs :
  encode_crs_blocks bs =
  HINT_MAGIC ++ le_bytes 4 (wrap32 (zlen bs)) ++ concat (enc_block <$> bs).
Proof.
  unfold encode_crs_blocks. rewrite (foldl_append enc_block); [by rewrite <- !app_assoc|].
  intros out b. rewrite (foldl_append enc_counted).
  - unfold enc_block. by rewrite <- !app_assoc.
  - intros out' r. unfold enc_counted. by rewrite extend_eq, <- !app_assoc.
Qed.

(** ** Reading what was written *)

Lemma coefficients_of_enc cs : Forall u64 cs -> coefficients_of (enc_vector cs) = cs.
Proof.
  intros H. unfold coefficients_of, enc_vector. rewrite chunks_exact_concat; [|lia| |done].
  - rewrite <- list_fmap_compose. rewrite <- (list_fmap_id cs) at 2.
    apply Forall_fmap_ext_1. eapply Forall_impl; [exact H|]. intros c Hc.
    unfold compose. rewrite le_val_le_bytes; [done|]. by apply u64_pow.
  - apply Forall_fmap, Forall_true. intros c. apply length_le_bytes.
Qed.

Lemma zlen_enc_vector cs : zlen (enc_vector cs) = 8 * zlen cs.
Proof.
  unfold enc_vector. rewrite (zlen_concat _ 8).
  - unfold zlen. by rewrite length_fmap.
  - apply Forall_fmap, Forall_true. intros c. apply (zlen_le_bytes 8).
Qed.

(** Any whole number of 8-byte groups is the encoding of its values. *)
Lemma enc_vector_of n raw :
  bytes_ok raw -> length raw = (8 * n)%nat ->
  enc_vector (coefficients_of raw) = raw /\ zlen (coefficients_of raw) = Z.of_nat n /\
  Forall u64 (coefficients_of raw).
Proof.
  intros Hok Hl.
  assert (exists cs, raw = enc_vector cs /\ length cs = n /\ Forall u64 cs)
    as (cs & -> & Hn & Hcs).
  { revert raw Hok Hl. induction n as [|n IH]; intros raw Hok Hl.
    - exists []. split_and!; [|done|constructor]. apply length_zero_iff_nil. lia.
    - destruct (IH (drop 8 raw)) as (cs & Hd & Hn & Hcs);
        [by apply bytes_ok_drop|rewrite length_drop; lia|].
      exists (le_val (take 8 raw) :: cs).
      assert (length (take 8 raw) = 8%nat) as H8 by (rewrite length_take; lia).
      assert (bytes_ok (take 8 raw)) as Hb by auto with rust.
      split_and!; [|simpl; lia|constructor; [|done]].
      + unfold enc_vector. rewrite fmap_cons. cbn [concat].
        rewrite le_bytes_le_val_len by done. rewrite <- (take_drop 8 raw) at 1. f_equal. exact Hd.
      + apply u64_pow. pose proof (le_val_range _ Hb) as Hr.
        unfold zlen in Hr. by rewrite H8 in Hr. }
  rewrite coefficients_of_enc by done. unfold zlen. split_and!; [done|lia|done].
Qed.

Lemma take_coefficients_at cs what pre rest :
  Forall u64 cs -> zlen cs < 2 ^ 60 -> fits pre (enc_vector cs ++ rest) ->
  take_coefficients (zlen cs) what (at_ pre (enc_vector cs ++ rest)) =
  Ok (cs, at_ (pre ++ enc_vector cs) rest).
Proof.
  intros Hcs Hl Hf. unfold take_coefficients, checked_mul64, u64_bound. guards.
  unfold pbind, Input_take. rewrite cursor_take_at_len.
  - unfold pret. by rewrite coefficients_of_enc.
  - rewrite zlen_enc_vector. lia.
  - done.
Qed.

Lemma take_coefficients_yields n what :
  0 <= n ->
  yields (take_coefficients n what) (fun bs cs => bs = enc_vector cs /\ row_wf n cs).
Proof.
  intros Hn. unfold take_coefficients, checked_mul64.
  destruct (n * 8 <? u64_bound); [|apply yields_pfail].
  eapply yields_bind; [apply cursor_take_yields|intros; apply yields_pret|].
  intros b1 b2 raw cs (-> & Hl & Hok) [-> ->]. rewrite app_nil_r.
  destruct (enc_vector_of (Z.to_nat n) raw Hok) as (He & Hz & Hu); [unfold zlen in Hl; lia|].
  unfold row_wf. by rewrite He, Hz, Z2Nat.id.
Qed.

Lemma u32_at z pre rest :
  u32 z -> fits pre (le_bytes 4 z ++ rest) ->
  Input_u32 (at_ pre (le_bytes 4 z ++ rest)) = Ok (z, at_ (pre ++ le_bytes 4 z) rest).
Proof. intros Hz. by apply cursor_le_at. Qed.

Lemma u64_at z pre rest :
  u64 z -> fits pre (le_bytes 8 z ++ rest) ->
  Input_u64 (at_ pre (le_bytes 8 z ++ rest)) = Ok (z, at_ (pre ++ le_bytes 8 z) rest).
Proof. intros Hz. apply cursor_le_at. by apply u64_pow. Qed.

Lemma u32_yields : yields Input_u32 (fun bs z => bs = le_bytes 4 z /\ u32 z).
Proof. apply (cursor_le_yields _ _ 4). Qed.

Lemma u64_yields : yields Input_u64 (fun bs z => bs = le_bytes 8 z /\ u64 z).
Proof. apply (cursor_le_yields _ _ 8). Qed.

Lemma wrap32_id z : u32 z -> wrap32 z = z.
Proof. intros H. by apply Z.mod_small. Qed.

Lemma magic_at m pre rest :
  zlen m = 4 -> fits pre (m ++ rest) ->
  Input_expect_magic m (at_ pre (m ++ rest)) = Ok (tt, at_ (pre ++ m) rest).
Proof.
  intros Hm Hf. unfold Input_expect_magic, pbind, Input_take.
  rewrite cursor_take_at_len by done. by rewrite bool_decide_true.
Qed.

Lemma magic_yields m : yields (Input_expect_magic m) (fun bs _ => bs = m /\ True).
Proof.
  eapply yields_bind with (Q := fun got bs _ => bs = [] /\ got = m);
    [apply cursor_take_yields| |].
  - intros got _ _. destruct (bool_decide (got = m)) eqn:E; [|apply yields_pfail].
    bool_prop. eapply yields_weaken; [apply yields_pret|]. by intros ? ? _ [-> _].
  - intros b1 b2 got _ (-> & _) [-> ->]. by rewrite app_nil_r.
Qed.

Lemma finish_yields : yields Input_finish (fun bs _ => bs = [] /\ True).
Proof.
  intros pre rest v c' _ H. unfold Input_finish in H.
  destruct (cur_offset _ =? _); simplify_eq/=. exists [], rest. by rewrite app_nil_r.
Qed.

Lemma finish_at pre : Input_finish (at_ pre []) = Ok (tt, at_ pre []).
Proof.
  unfold Input_finish, at_. cbn [cur_offset cur_bytes]. rewrite app_nil_r, Z.eqb_refl. done.
Qed.

(** A parser that ends with [finish] leaves nothing unread. *)
Definition exhausts {A} (p : parser WireError A) : Prop :=
  forall bs v c, p (Cursor bs 0) = Ok (v, c) -> cur_offset c = zlen (cur_bytes c).

(** The shape of every decoder theorem: a parser that reads back what [enc]
    wrote, yields only encodings, and exhausts its input, decodes exactly the
    encodings of well-formed values. *)
Lemma parse_exact {A} (p : parser WireError A) enc (wf : A -> Prop) bs v :
  (forall a, wf a -> fits [] (enc a) -> p (at_ [] (enc a)) = Ok (a, at_ (enc a) [])) ->
  yields p (fun bs a => bs = enc a /\ wf a) -> exhausts p -> slice_ok bs ->
  parse p bs = Ok v <-> wf v /\ bs = enc v.
Proof.
  intros Hat Hy He [Hok Hl]. unfold parse. change (Cursor bs 0) with (at_ [] bs). split.
  - intros H. destruct (p (at_ [] bs)) as [[a c]|] eqn:Hp; simplify_eq.
    destruct (Hy _ _ _ _ Hok Hp) as (pre & rest & -> & -> & -> & Hwf).
    apply He in Hp. cbn [at_ cur_offset cur_bytes app] in Hp. rewrite zlen_app in Hp.
    assert (rest = []) as -> by (apply length_zero_iff_nil; unfold zlen in Hp; lia).
    by rewrite app_nil_r.
  - intros [Hwf ->]. rewrite Hat; [done|done|]. unfold fits, u64_bound. rewrite zlen_nil. lia.
Qed.

Ltac exhaust :=
  let H := fresh in
  intros ? ? ? H;
  unfold request_parser, response_parser, crs_parser, pbind, pfail, pret, Input_finish in H;
  inv_res H; bool_prop; subst; done.

(** ** Requests *)

Lemma decode_shard_at s pre rest :
  shard_wf s -> fits pre (enc_shard s ++ rest) ->
  decode_shard_query (at_ pre (enc_shard s ++ rest)) = Ok (s, at_ (pre ++ enc_shard s) rest).
Proof.
  intros (Hid & Hl & Hcs) Hf. unfold enc_shard, enc_counted in *.
  rewrite wrap32_id in Hf |- * by done. rewrite <- !app_assoc in Hf |- *.
  unfold decode_shard_query, pbind. rewrite u64_at by done. apply fits_app in Hf.
  rewrite u32_at by done. apply fits_app in Hf.
  rewrite take_coefficients_at by (done || unfold u32 in Hl; lia).
  unfold pret. rewrite <- !app_assoc. by destruct s.
Qed.

Lemma decode_shard_yields :
  yields decode_shard_query (fun bs s => bs = enc_shard s /\ shard_wf s).
Proof.
  apply completes_start.
  eapply completes_field; [apply u64_yields|]. intros id Hid.
  eapply completes_field; [apply u32_yields|]. intros n Hn.
  eapply completes_field; [apply take_coefficients_yields; apply Hn|]. intros cs [Hl Hcs].
  apply completes_done. unfold enc_shard, enc_counted, shard_wf, vector_wf.
  cbn [sq_shard_id sq_coefficients]. rewrite Hl, wrap32_id by done.
  rewrite <- !app_assoc. by split_and!.
Qed.

Lemma request_count_wf r : request_wf r -> u32 (zlen (er_shards r)).
Proof. intros (_ & H & _). unfold MAX_SHARDS_PER_WORKER in H. unfold u32. lia. Qed.

Lemma request_parser_at r :
  request_wf r -> fits [] (encode_evaluate_request r) ->
  request_parser (at_ [] (encode_evaluate_request r)) =
  Ok (r, at_ (encode_evaluate_request r) []).
Proof.
  intros Hwf Hf. pose proof (request_count_wf r Hwf) as Hc.
  destruct Hwf as (Hg & Hn & Hs). rewrite encode_request_eq in *.
  rewrite wrap32_id in Hf |- * by done.
  rewrite <- (app_nil_r (concat _)) in Hf |- * at 1.
  unfold request_parser, pbind. rewrite magic_at by done. apply fits_app in Hf.
  rewrite u64_at by done. apply fits_app in Hf. rewrite u32_at by done. apply fits_app in Hf.
  rewrite (proj2 (Z.eqb_neq _ _)), (proj2 (Z.ltb_ge _ _)) by lia. cbn [orb].
  replace (Z.to_nat (zlen (er_shards r))) with (length (er_shards r)) by (unfold zlen; lia).
  rewrite (prepeat_at decode_shard_query enc_shard shard_wf)
    by (done || intros; by apply decode_shard_at).
  rewrite finish_at. unfold pret. rewrite <- !app_assoc. by destruct r.
Qed.

Lemma request_parser_yields :
  yields request_parser (fun bs r => bs = encode_evaluate_request r /\ request_wf r).
Proof.
  apply completes_start.
  eapply (completes_field (fun _ => EVAL_REQUEST_MAGIC)); [apply magic_yields|]. intros _ _.
  eapply completes_field; [apply u64_yields|]. intros g Hg.
  eapply completes_field; [apply u32_yields|]. intros n Hn.
  apply completes_guard. intros Hc.
  eapply completes_field;
    [apply (prepeat_yields decode_shard_query enc_shard shard_wf), decode_shard_yields|].
  intros shards [Hl Hs].
  eapply (completes_field (fun _ => [])); [apply finish_yields|]. intros _ _.
  apply completes_done. bool_prop. rewrite encode_request_eq. unfold request_wf.
  cbn [er_generation er_shards]. unfold u32 in Hn.
  assert (zlen shards = n) as -> by (unfold zlen; lia).
  rewrite wrap32_id by done. rewrite app_nil_r, <- !app_assoc. split_and!; (done || lia).
Qed.

(** ** Responses *)

Lemma response_parser_at gv :
  (u64 (fst gv) /\ vector_wf (snd gv)) ->
  fits [] (encode_evaluate_response (fst gv) (snd gv)) ->
  response_parser (at_ [] (encode_evaluate_response (fst gv) (snd gv))) =
  Ok (gv, at_ (encode_evaluate_response (fst gv) (snd gv)) []).
Proof.
  destruct gv as [g cs]. cbn [fst snd]. intros (Hg & Hl & Hcs) Hf.
  rewrite encode_response_eq in *. unfold enc_counted in *.
  rewrite wrap32_id in Hf |- * by done.
  rewrite <- (app_nil_r (enc_vector cs)) in Hf |- * at 1.
  unfold response_parser, pbind. rewrite magic_at by done. apply fits_app in Hf.
  rewrite u64_at by done. apply fits_app in Hf. rewrite u32_at by done. apply fits_app in Hf.
  rewrite take_coefficients_at by (done || unfold u32 in Hl; lia).
  rewrite finish_at. unfold pret. by rewrite <- !app_assoc.
Qed.

Lemma response_parser_yields :
  yields response_parser (fun bs gv =>
    bs = encode_evaluate_response (fst gv) (snd gv) /\ u64 (fst gv) /\ vector_wf (snd gv)).
Proof.
  apply completes_start.
  eapply (completes_field (fun _ => EVAL_RESPONSE_MAGIC)); [apply magic_yields|]. intros _ _.
  eapply completes_field; [apply u64_yields|]. intros g Hg.
  eapply completes_field; [apply u32_yields|]. intros n Hn.
  eapply completes_field; [apply take_coefficients_yields; apply Hn|]. intros cs [Hl Hcs].
  eapply (completes_field (fun _ => [])); [apply finish_yields|]. intros _ _.
  apply completes_done. rewrite encode_response_eq. unfold enc_counted, vector_wf.
  cbn [fst snd]. rewrite Hl, wrap32_id by done. rewrite app_nil_r, <- !app_assoc. by split_and!.
Qed.

(** What the coordinator reads back from a worker's answer. *)
Lemma evaluate_response_exact bs g cs :
  slice_ok bs ->
  decode_evaluate_response bs = Ok (g, cs) <->
  (u64 g /\ vector_wf cs) /\ bs = encode_evaluate_response g cs.
Proof.
  intros Hbs.
  apply (parse_exact response_parser (fun gv => encode_evaluate_response (fst gv) (snd gv))
    (fun gv => u64 (fst gv) /\ vector_wf (snd gv)) bs (g, cs)); try done.
  - apply response_parser_at.
  - apply response_parser_yields.
  - exhaust.
Qed.

(** ** Hints *)

Lemma decode_row_at degree row pre rest :
  u32 degree -> row_wf degree row -> fits pre (enc_counted row ++ rest) ->
  decode_crs_row degree (at_ pre (enc_counted row ++ rest)) =
  Ok (row, at_ (pre ++ enc_counted row) rest).
Proof.
  intros Hd [Hl Hr] Hf. unfold enc_counted in *. rewrite Hl, wrap32_id in Hf |- * by done.
  rewrite <- !app_assoc in Hf |- *. unfold decode_crs_row, pbind.
  rewrite u32_at by done. apply fits_app in Hf. rewrite Z.eqb_refl. cbn [negb].
  rewrite <- Hl at 1. rewrite take_coefficients_at by (done || unfold u32 in Hd; lia).
  by rewrite <- !app_assoc.
Qed.

Lemma decode_row_yields degree :
  yields (decode_crs_row degree)
    (fun bs row => bs = enc_counted row /\ row_wf degree row /\ u32 degree).
Proof.
  apply completes_start. eapply completes_field; [apply u32_yields|]. intros n Hn.
  apply completes_guard. intros E. bool_prop. subst n.
  eapply yields_weaken; [apply take_coefficients_yields; apply Hn|].
  intros bs row _ (-> & Hl & Hr). unfold enc_counted, row_wf.
  rewrite Hl, wrap32_id by done. by split_and!.
Qed.

Lemma decode_block_at degree b pre rest :
  u32 degree -> block_wf degree b -> fits pre (enc_block b ++ rest) ->
  decode_crs_block degree (at_ pre (enc_block b ++ rest)) =
  Ok (b, at_ (pre ++ enc_block b) rest).
Proof.
  intros Hd [Hl Hr] Hf. unfold enc_block in *. rewrite Hl, wrap32_id in Hf |- * by done.
  rewrite <- !app_assoc in Hf |- *. unfold decode_crs_block, pbind.
  rewrite u32_at by done. apply fits_app in Hf. rewrite Z.eqb_refl. cbn [negb].
  replace (Z.to_nat degree) with (length (cb_rows b)) by (unfold zlen in Hl; lia).
  rewrite (prepeat_at (decode_crs_row degree) enc_counted (row_wf degree))
    by (done || intros; by apply decode_row_at).
  unfold pret. rewrite <- !app_assoc. by destruct b.
Qed.

Lemma decode_block_yields degree :
  yields (decode_crs_block degree)
    (fun bs b => bs = enc_block b /\ block_wf degree b /\ u32 degree).
Proof.
  apply completes_start. eapply completes_field; [apply u32_yields|]. intros n Hn.
  apply completes_guard. intros E. bool_prop. subst n.
  eapply completes_field; [apply (prepeat_yields _ enc_counted
    (fun row => row_wf degree row /\ u32 degree)), decode_row_yields|].
  intros rows [Hl Hr]. apply completes_done. unfold enc_block, block_wf. cbn [cb_rows].
  unfold u32 in Hn. assert (zlen rows = degree) as -> by (unfold zlen; lia).
  rewrite wrap32_id by done. split_and!; try done.
  eapply Forall_impl; [exact Hr|]. by intros row [? _].
Qed.

Lemma crs_parser_at n degree bs :
  u32 n -> u32 degree -> crs_wf n degree bs -> fits [] (encode_crs_blocks bs) ->
  crs_parser n degree (at_ [] (encode_crs_blocks bs)) = Ok (bs, at_ (encode_crs_blocks bs) []).
Proof.
  intros Hn Hd [Hl Hb] Hf. rewrite encode_crs_eq in *.
  rewrite Hl, wrap32_id in Hf |- * by done.
  rewrite <- (app_nil_r (concat _)) in Hf |- * at 1.
  unfold crs_parser, pbind. rewrite magic_at by done. apply fits_app in Hf.
  rewrite u32_at by done. apply fits_app in Hf. rewrite Z.eqb_refl. cbn [negb].
  replace (Z.to_nat n) with (length bs) by (unfold zlen in Hl; lia).
  rewrite (prepeat_at (decode_crs_block degree) enc_block (block_wf degree))
    by (done || intros; by apply decode_block_at).
  rewrite finish_at. unfold pret. by rewrite <- !app_assoc.
Qed.

Lemma crs_parser_yields n degree :
  yields (crs_parser n degree)
    (fun bytes bs => bytes = encode_crs_blocks bs /\ crs_wf n degree bs).
Proof.
  apply completes_start.
  eapply (completes_field (fun _ => HINT_MAGIC)); [apply magic_yields|]. intros _ _.
  eapply completes_field; [apply u32_yields|]. intros k Hk.
  apply completes_guard. intros E. bool_prop. subst k.
  eapply completes_field; [apply (prepeat_yields _ enc_block
    (fun b => block_wf degree b /\ u32 degree)), decode_block_yields|].
  intros bs [Hl Hb].
  eapply (completes_field (fun _ => [])); [apply finish_yields|]. intros _ _.
  apply completes_done. rewrite encode_crs_eq. unfold crs_wf. unfold u32 in Hk.
  assert (zlen bs = n) as -> by (unfold zlen; lia).
  rewrite wrap32_id, app_nil_r, <- !app_assoc by done. split_and!; try done.
  eapply Forall_impl; [exact Hb|]. by intros b [? _].
Qed.

Lemma crs_parse_exact bytes n degree bs :
  slice_ok bytes -> u32 n -> u32 degree ->
  decode_crs_blocks bytes n degree = Ok bs <-> crs_wf n degree bs /\ bytes = encode_crs_blocks bs.
Proof.
  intros Hbs Hn Hd. apply parse_exact; [|apply crs_parser_yields|exhaust|done].
  intros. by apply crs_parser_at.
Qed.

(** ** Properties *)

(** A worker's view of a request is the coordinator's.  A byte string
    decodes to an evaluate request iff the request is well formed (64-bit ids
    and coefficients, 1 to 4096 shards) and the string is its encoding, so a
    request with a wrong magic, a cut or padded body or an empty or oversized
    shard list is refused and no two encodings decode to the same request. *)
Theorem evaluate_request_exact bytes request :
  slice_ok bytes ->
  decode_evaluate_request bytes = Ok request <->
  request_wf request /\ bytes = encode_evaluate_request request.
Proof.
  intros Hbs. apply parse_exact; [apply request_parser_at|apply request_parser_yields| |done].
  exhaust.
Qed.

Definition sample_request : EvaluateRequest := {|
  er_generation := 9;
  er_shards := [{| sq_shard_id := 3; sq_coefficients := [1; 2; 3] |};
                {| sq_shard_id := 4; sq_coefficients := [] |}] |}.

Lemma evaluate_request_exact_witness :
  request_wf sample_request /\
  decode_evaluate_request (encode_evaluate_request sample_request) = Ok sample_request.
Proof.
  assert (decode_evaluate_request (encode_evaluate_request sample_request) = Ok sample_request)
    as H by (vm_compute; reflexivity).
  split; [|exact H].
  apply (evaluate_request_exact (encode_evaluate_request sample_request) sample_request);
    [|exact H].
  split; [|vm_compute; reflexivity].
  unfold bytes_ok, byte_ok. vm_compute. repeat constructor; discriminate.
Defined.

(** The hint format is shape-strict: bytes decode as a hint of
    [expected_blocks] blocks of degree [degree] iff they are the encoding of
    exactly that many [degree] by [degree] blocks of 64-bit coefficients, so a
    persisted or transmitted hint that decodes has no missing coefficient. *)
Theorem crs_blocks_exact bytes expected_blocks degree blocks :
  slice_ok bytes -> u32 expected_blocks -> u32 degree ->
  decode_crs_blocks bytes expected_blocks degree = Ok blocks <->
  crs_wf expected_blocks degree blocks /\ bytes = encode_crs_blocks blocks.
Proof. apply crs_parse_exact. Qed.

Definition sample_hint : list CrsBlock :=
  [{| cb_rows := [[1; 2]; [3; 4]] |}; {| cb_rows := [[5; 6]; [7; 8]] |}].

Lemma crs_blocks_exact_witness :
  crs_wf 2 2 sample_hint /\
  decode_crs_blocks (encode_crs_blocks sample_hint) 2 2 = Ok sample_hint.
Proof.
  assert (decode_crs_blocks (encode_crs_blocks sample_hint) 2 2 = Ok sample_hint) as H
    by (vm_compute; reflexivity).
  split; [|exact H].
  apply (crs_blocks_exact (encode_crs_blocks sample_hint) 2 2 sample_hint); [|done|done|exact H].
  split; [|vm_compute; reflexivity].
  unfold bytes_ok, byte_ok. vm_compute. repeat constructor; discriminate.
Defined.
