(* ===== verification/Ipir.v ===== *)
(** * Shard runtimes: evaluation, partial hints and cached artifacts

    Models [server/enhance-pir-server/src/ipir.rs]: the modular sums that
    combine shards, the iterator that cuts rows into plaintext coefficients, and
    [ShardRuntime] with its persisted artifacts.  The matrix kernel ([IPIRServer])
    and the offline precomputation belong to the PIR library and are the
    operations of the class [IpirServer], with what the code relies on in
    [IpirServerLaws].  The theorems: the sum of the shards' evaluations is the
    monolithic matrix-vector product, every accumulated value stays a canonical
    residue, and a crash or error at any point of [persist] never lets [load]
    return a runtime that differs from one that was persisted completely. *)

From Stdlib Require Import ZArith Lia.
From stdpp Require Import base numbers list strings gmap.
From S2P Require Import Prelude Cursor FilterTypes Instances EnhanceTypes Wire.

Open Scope Z_scope.

(** ** Integers *)

(** [usize::is_multiple_of]. *)
Definition is_multiple_of (a b : Z) : bool :=
  if b =? 0 then a =? 0 else a mod b =? 0.

(** ** The PIR library's server side *)

Inductive InspiringError :=
| LweShape (what : string)
| PreprocessMismatch (what : string)
| InspiringOther (what : string).

Definition InspiringError_to_string (e : InspiringError) : string :=
  match e with LweShape m | PreprocessMismatch m | InspiringOther m => m end.

Definition WireError_to_string (e : WireError) : string :=
  match e with WE_Malformed m => m end.

Class IpirServer := {
  ipir_server : Type;
  (** parameters, coefficients, [inp_transposed], [pad_rows] *)
  new_auto_kernel : YpirSchemeParams -> list Z -> bool -> bool -> ipir_server;
  server_params : ipir_server -> YpirSchemeParams;
  server_db : ipir_server -> list Z;
  multiply_query : ipir_server -> RlweParams -> list Z -> list Z;
  perform_offline_precomputation_simplepir :
    ipir_server -> RlweParams -> list (list Z) -> list CrsBlock;
  read_bits : list Z -> Z -> Z -> Z;
  from_switched_bytes : list Z -> Z -> Z -> Z -> result InspiringError (list Z) }.

(** ** Queries *)

Definition deserialize_first_dim_query `{IpirServer} (rlwe : RlweParams) (ypir : YpirSchemeParams)
    (query : list Z) : result InspiringError (list Z) :=
  let? first_dim_query :=
    from_switched_bytes query (db_rows ypir) (rlwe_q rlwe) (query_bits ypir) in
  if negb (zlen first_dim_query =? db_rows ypir)
  then Err (LweShape "expected {} first-dimension query values, got {}")
  else Ok first_dim_query.

(** ** Modular sums *)

(** The loop of [add_intermediate_assign_mod]; an error leaves the accumulator
    half updated, so the caller's copy is the prefix summed so far followed by
    the untouched rest. *)
Fixpoint add_loop (accumulator contribution : list Z) (modulus : Z) :
    list Z * result InspiringError unit :=
  match accumulator, contribution with
  | left_ :: accumulator, right_ :: contribution =>
      if (modulus <=? left_) || (modulus <=? right_)
      then (left_ :: accumulator,
            Err (PreprocessMismatch "intermediate coefficient is not reduced modulo q"))
      else
        let sum := left_ + right_ in
        let '(rest, r) := add_loop accumulator contribution modulus in
        (sum mod modulus :: rest, r)
  | _, _ => (accumulator, Ok tt)
  end.

Definition add_intermediate_assign_mod (accumulator contribution : list Z) (modulus : Z) :
    list Z * result InspiringError unit :=
  if modulus <? 2
  then (accumulator, Err (PreprocessMismatch "intermediate modulus must be at least two")) else
  if negb (zlen accumulator =? zlen contribution)
  then (accumulator, Err (LweShape "intermediate widths differ: {} and {}"))
  else add_loop accumulator contribution modulus.

Definition block_shape_ok (d : Z) (block : CrsBlock) : bool :=
  (zlen (cb_rows block) =? d) && forallb (fun row => zlen row =? d) (cb_rows block).

Fixpoint add_rows (left_ right_ : list (list Z)) (q : Z) :
    list (list Z) * result InspiringError unit :=
  match left_, right_ with
  | left_row :: left_, right_row :: right_ =>
      match add_intermediate_assign_mod left_row right_row q with
      | (row, Err e) => (row :: left_, Err e)
      | (row, Ok _) => let '(rest, r) := add_rows left_ right_ q in (row :: rest, r)
      end
  | _, _ => (left_, Ok tt)
  end.

Fixpoint add_blocks (accumulator contribution : list CrsBlock) (params : RlweParams) :
    list CrsBlock * result InspiringError unit :=
  match accumulator, contribution with
  | left_ :: accumulator, right_ :: contribution =>
      if negb (block_shape_ok (rlwe_d params) left_ && block_shape_ok (rlwe_d params) right_)
      then (left_ :: accumulator, Err (PreprocessMismatch "CRS block must be {}x{}"))
      else
        match add_rows (cb_rows left_) (cb_rows right_) (rlwe_q params) with
        | (rows, Err e) => ({| cb_rows := rows |} :: accumulator, Err e)
        | (rows, Ok _) =>
            let '(rest, r) := add_blocks accumulator contribution params in
            ({| cb_rows := rows |} :: rest, r)
        end
  | _, _ => (accumulator, Ok tt)
  end.

Definition add_crs_blocks_assign_mod (accumulator contribution : list CrsBlock)
    (params : RlweParams) : list CrsBlock * result InspiringError unit :=
  if negb (zlen accumulator =? zlen contribution)
  then (accumulator, Err (PreprocessMismatch "CRS block counts differ: {} and {}"))
  else add_blocks accumulator contribution params.

(** ** Plaintext coefficients *)

Record RowPlaintextIter := {
  rpi_data : list Z; rpi_row_bytes : Z; rpi_db_cols : Z; rpi_plaintext_bits : Z;
  rpi_position : Z; rpi_total : Z }.

Definition RowPlaintextIter_new (data : list Z) (row_bytes db_rows db_cols plaintext_bits : Z) :
    RowPlaintextIter :=
  {| rpi_data := data; rpi_row_bytes := row_bytes; rpi_db_cols := db_cols;
     rpi_plaintext_bits := plaintext_bits; rpi_position := 0;
     rpi_total := wrap64 (db_rows * db_cols) |}.

Definition RowPlaintextIter_next `{IpirServer} (it : RowPlaintextIter) :
    option (Z * RowPlaintextIter) :=
  if rpi_total it <=? rpi_position it then None else
  let row := rpi_position it / rpi_db_cols it in
  let column := rpi_position it mod rpi_db_cols it in
  let start := wrap64 (row * rpi_row_bytes it) in
  let stop := Z.min (saturating_add64 start (rpi_row_bytes it)) (zlen (rpi_data it)) in
  let bytes := default [] (get_range (rpi_data it) start stop) in
  Some (wrap16 (read_bits bytes (wrap64 (column * rpi_plaintext_bits it)) (rpi_plaintext_bits it)),
        {| rpi_data := rpi_data it; rpi_row_bytes := rpi_row_bytes it;
           rpi_db_cols := rpi_db_cols it; rpi_plaintext_bits := rpi_plaintext_bits it;
           rpi_position := rpi_position it + 1; rpi_total := rpi_total it |}).

(** Draining the iterator; it yields at most [total] coefficients. *)
Fixpoint RowPlaintextIter_collect `{IpirServer} (fuel : nat) (it : RowPlaintextIter) : list Z :=
  match fuel with
  | O => []
  | S fuel =>
      match RowPlaintextIter_next it with
      | None => []
      | Some (c, it) => c :: RowPlaintextIter_collect fuel it
      end
  end.

(** ** Parameters *)

Definition global_parameters `{Ipir} (logical_rows : Z) (layout : DatabaseLayout) :
    result InspiringError (RlweParams * YpirSchemeParams) :=
  map_err InspiringOther (params_for_simplepir logical_rows (DatabaseLayout_item_size_bits layout)).

Definition shard_parameters `{Ipir} (layout : DatabaseLayout) :
    result InspiringError (RlweParams * YpirSchemeParams) :=
  map_err InspiringOther
    (params_for_simplepir (shard_rows layout) (DatabaseLayout_item_size_bits layout)).

(** ** ShardRuntime *)

Definition ARTIFACT_VERSION : Z := 6.

Record ArtifactMetadata := {
  am_version : Z; am_table : string; am_rlwe_degree : Z; am_rlwe_modulus : Z;
  am_db_rows : Z; am_db_cols : Z; am_plaintext_modulus : Z; am_shard_id : Z;
  am_query_row_start : Z; am_rows_sha256 : string; am_database_sha256 : string;
  am_crs_sha256 : string }.

Record ShardRuntime `{IpirServer} := {
  rt_shard_id : Z; rt_query_row_start : Z; rt_rows_sha256 : string;
  rt_server : ipir_server; rt_crs_blocks : list CrsBlock; rt_prepared_at : Z }.

(** [next_prepared_at]: the counter's value, and the counter afterwards. *)
Definition next_prepared_at (counter : Z) : Z * Z := (counter, wrap64 (counter + 1)).

(** The three files of one shard's directory.  The metadata file is kept as
    the value [serde_json] reads back from it. *)
Record ShardFiles := {
  sf_metadata : option ArtifactMetadata;
  sf_database : option (list Z);
  sf_hint : option (list Z) }.

Definition no_files : ShardFiles := {| sf_metadata := None; sf_database := None; sf_hint := None |}.

(** The artifact root: [shard_artifact_dir] names one directory per table and
    shard. *)
Abbreviation artifacts := (gmap (string * Z) ShardFiles).
Definition shard_artifact_dir (table : DatabaseId) (shard_id : Z) : string * Z :=
  (DatabaseId_as_str table, shard_id).

(** One [write_atomic]: write a temporary file, sync it, rename it over the
    name. *)
Inductive artifact_write :=
| WriteDatabase (bytes : list Z)
| WriteHint (bytes : list Z)
| WriteMetadata (m : ArtifactMetadata).

Definition write_atomic (fs : ShardFiles) (w : artifact_write) : ShardFiles :=
  match w with
  | WriteDatabase b =>
      {| sf_metadata := sf_metadata fs; sf_database := Some b; sf_hint := sf_hint fs |}
  | WriteHint b =>
      {| sf_metadata := sf_metadata fs; sf_database := sf_database fs; sf_hint := Some b |}
  | WriteMetadata m =>
      {| sf_metadata := Some m; sf_database := sf_database fs; sf_hint := sf_hint fs |}
  end.

Section runtime.
Context `{Hex} `{Sha256} `{Ipir} `{IpirServer}.

Definition ShardRuntime_build (layout : DatabaseLayout) (shard_id query_row_start : Z)
    (rows_sha256 : string) (rows : list Z) (rlwe : RlweParams) (global_setup : list (list Z))
    (counter : Z) : result InspiringError (ShardRuntime * Z) :=
  if negb (zlen rows =? DatabaseLayout_shard_bytes layout)
  then Err (PreprocessMismatch "shard must be {} bytes, got {}") else
  if negb (is_multiple_of query_row_start (rlwe_d rlwe))
  then Err (PreprocessMismatch "shard query row is not polynomial aligned") else
  let? (_, local_params) := shard_parameters layout in
  let coefficients := RowPlaintextIter_new rows (DatabaseLayout_row_bytes layout)
    (db_rows local_params) (db_cols local_params) (trailing_zeros (ypir_p local_params)) in
  let server := new_auto_kernel local_params
    (RowPlaintextIter_collect (Z.to_nat (rpi_total coefficients)) coefficients) false true in
  let first_poly := query_row_start / rlwe_d rlwe in
  let poly_count := shard_rows layout / rlwe_d rlwe in
  let? setup := ok_or (get_range global_setup first_poly (first_poly + poly_count))
    (PreprocessMismatch "global setup does not cover shard") in
  let crs_blocks := perform_offline_precomputation_simplepir server rlwe setup in
  let '(prepared_at, counter) := next_prepared_at counter in
  Ok ({| rt_shard_id := shard_id; rt_query_row_start := query_row_start;
         rt_rows_sha256 := rows_sha256; rt_server := server; rt_crs_blocks := crs_blocks;
         rt_prepared_at := prepared_at |}, counter).

Definition ShardRuntime_evaluate (self : ShardRuntime) (rlwe : RlweParams) (query : list Z) :
    result InspiringError (list Z) :=
  let shard_rows := db_rows (server_params (rt_server self)) in
  if negb (zlen query =? shard_rows)
  then Err (LweShape "shard query must contain {shard_rows} coefficients, got {}") else
  if existsb (fun coefficient => rlwe_q rlwe <=? coefficient) query
  then Err (PreprocessMismatch "query coefficient is not reduced modulo q")
  else Ok (multiply_query (rt_server self) rlwe query).

Definition metadata_mismatch (m : ArtifactMetadata) (table : DatabaseId) (rlwe : RlweParams)
    (shard_id query_row_start : Z) (rows_sha256 : string) : bool :=
  negb (am_version m =? ARTIFACT_VERSION) ||
  negb (bool_decide (am_table m = DatabaseId_as_str table)) ||
  negb (am_rlwe_degree m =? rlwe_d rlwe) ||
  negb (am_rlwe_modulus m =? rlwe_q rlwe) ||
  negb (am_shard_id m =? shard_id) ||
  negb (am_query_row_start m =? query_row_start) ||
  negb (bool_decide (am_rows_sha256 m = rows_sha256)).

Definition ShardRuntime_load (directory : ShardFiles) (table : DatabaseId)
    (layout : DatabaseLayout) (shard_id query_row_start : Z) (rows_sha256 : string)
    (rlwe : RlweParams) (counter : Z) : result string (ShardRuntime * Z) :=
  let? metadata := ok_or (sf_metadata directory) "metadata.json"%string in
  if metadata_mismatch metadata table rlwe shard_id query_row_start rows_sha256
  then Err "artifact metadata mismatch"%string else
  let? (_, local_params) := map_err InspiringError_to_string (shard_parameters layout) in
  if negb (am_db_rows metadata =? db_rows local_params) ||
     negb (am_db_cols metadata =? db_cols local_params) ||
     negb (am_plaintext_modulus metadata =? ypir_p local_params)
  then Err "persisted artifact parameter mismatch"%string else
  let? raw_db := ok_or (sf_database directory) "database.u16le"%string in
  if negb (bool_decide (hex_encode (sha256 raw_db) = am_database_sha256 metadata))
  then Err "persisted database digest mismatch"%string else
  let expected_db_bytes := wrap64 (db_rows local_params * db_cols local_params * 2) in
  if negb (zlen raw_db =? expected_db_bytes)
  then Err "persisted database has the wrong size"%string else
  let coefficients := le_val <$> chunks_exact (length raw_db) 2 raw_db in
  let server := new_auto_kernel local_params coefficients true true in
  let? hint := ok_or (sf_hint directory) "partial-crs.bin"%string in
  if negb (bool_decide (hex_encode (sha256 hint) = am_crs_sha256 metadata))
  then Err "persisted CRS digest mismatch"%string else
  let? crs_blocks := map_err WireError_to_string
    (decode_crs_blocks hint (db_cols local_params / rlwe_d rlwe) (rlwe_d rlwe)) in
  let '(prepared_at, counter) := next_prepared_at counter in
  Ok ({| rt_shard_id := shard_id; rt_query_row_start := query_row_start;
         rt_rows_sha256 := rows_sha256; rt_server := server; rt_crs_blocks := crs_blocks;
         rt_prepared_at := prepared_at |}, counter).

(** The bytes and metadata [persist] writes, in order. *)
Definition database_bytes (self : ShardRuntime) : list Z :=
  concat (le_bytes 2 <$> server_db (rt_server self)).

Definition artifact_metadata (self : ShardRuntime) (table : DatabaseId) (rlwe : RlweParams) :
    ArtifactMetadata := {|
  am_version := ARTIFACT_VERSION; am_table := DatabaseId_as_str table;
  am_rlwe_degree := rlwe_d rlwe; am_rlwe_modulus := rlwe_q rlwe;
  am_db_rows := db_rows (server_params (rt_server self));
  am_db_cols := db_cols (server_params (rt_server self));
  am_plaintext_modulus := ypir_p (server_params (rt_server self));
  am_shard_id := rt_shard_id self; am_query_row_start := rt_query_row_start self;
  am_rows_sha256 := rt_rows_sha256 self;
  am_database_sha256 := hex_encode (sha256 (database_bytes self));
  am_crs_sha256 := hex_encode (sha256 (encode_crs_blocks (rt_crs_blocks self))) |}.

Definition persist_writes (self : ShardRuntime) (table : DatabaseId) (rlwe : RlweParams) :
    list artifact_write :=
  [WriteDatabase (database_bytes self); WriteHint (encode_crs_blocks (rt_crs_blocks self));
   WriteMetadata (artifact_metadata self table rlwe)].

(** [persist]: [done_] is how many of the three atomic writes complete; an I/O
    error (or a crash) after fewer than three leaves the others unwritten. *)
Definition ShardRuntime_persist (self : ShardRuntime) (directory : ShardFiles)
    (table : DatabaseId) (rlwe : RlweParams) (done_ : nat) : ShardFiles * result string unit :=
  (foldl write_atomic directory (take done_ (persist_writes self table rlwe)),
   if (done_ <? 3)%nat then Err "I/O error"%string else Ok tt).

Definition ShardRuntime_load_cached (root : artifacts) (table : DatabaseId)
    (layout : DatabaseLayout) (shard_id query_row_start : Z) (rows_sha256 : string)
    (rlwe : RlweParams) (counter : Z) : result string (ShardRuntime * Z) :=
  ShardRuntime_load (default no_files (root !! shard_artifact_dir table shard_id))
    table layout shard_id query_row_start rows_sha256 rlwe counter.

Definition ShardRuntime_load_or_build (root : artifacts) (table : DatabaseId)
    (layout : DatabaseLayout) (shard_id query_row_start : Z) (rows_sha256 : string)
    (rows : list Z) (rlwe : RlweParams) (global_setup : list (list Z)) (counter : Z)
    (done_ : nat) : result string (ShardRuntime * bool) * artifacts * Z :=
  let key := shard_artifact_dir table shard_id in
  let directory := default no_files (root !! key) in
  match ShardRuntime_load directory table layout shard_id query_row_start rows_sha256 rlwe counter
  with
  | Ok (runtime, counter) => (Ok (runtime, false), root, counter)
  | Err _ =>
      match ShardRuntime_build layout shard_id query_row_start rows_sha256 rows rlwe
              global_setup counter with
      | Err e => (Err (InspiringError_to_string e), root, counter)
      | Ok (runtime, counter) =>
          let '(directory, r) := ShardRuntime_persist runtime directory table rlwe done_ in
          let root := <[key := directory]> root in
          match r with
          | Err e => (Err e, root, counter)
          | Ok _ => (Ok (runtime, true), root, counter)
          end
      end
  end.
End runtime.

(** ** Vectors over [Z_q] *)

Definition reduced (q : Z) (v : list Z) : Prop := Forall (fun c => 0 <= c < q) v.

Definition vec_add (q : Z) (a b : list Z) : list Z := zip_with (fun x y => (x + y) mod q) a b.
Definition vec_scale (q c : Z) (row : list Z) : list Z := (fun x => (c * x) mod q) <$> row.
Definition vec_sum (q : Z) (cols : nat) (vs : list (list Z)) : list Z :=
  foldr (vec_add q) (replicate cols 0) vs.

(** The reference product: [query] as a row vector times the matrix with the
    given rows of [cols] entries. *)
Definition matvec (q : Z) (cols : nat) (rows : list (list Z)) (query : list Z) : list Z :=
  vec_sum q cols (zip_with (vec_scale q) query rows).

Section vectors.
Context (q : Z) (cols : nat).

Definition vec_ok (v : list Z) : Prop := length v = cols /\ reduced q v.

Lemma length_vec_add a b : length a = cols -> length b = cols -> length (vec_add q a b) = cols.
Proof. intros Ha Hb. unfold vec_add. rewrite length_zip_with. lia. Qed.

Lemma vec_add_ok a b : 0 < q -> length a = cols -> length b = cols -> vec_ok (vec_add q a b).
Proof.
  intros Hq Ha Hb. split; [by apply length_vec_add|]. unfold reduced, vec_add. clear Ha Hb.
  revert b. induction a as [|x a IH]; intros [|y b]; simpl; constructor; [|apply IH].
  by apply Z.mod_pos_bound.
Qed.

#[local] Instance vec_add_comm : Comm (=) (vec_add q).
Proof.
  intros a. unfold vec_add. induction a as [|x a IH]; intros [|y b]; try done.
  simpl. f_equal; [f_equal; lia|apply IH].
Qed.

#[local] Instance vec_add_assoc : Assoc (=) (vec_add q).
Proof.
  intros a. unfold vec_add. induction a as [|x a IH]; intros [|y b] [|z c]; try done.
  simpl. f_equal; [|apply IH].
  rewrite Zplus_mod_idemp_l, Zplus_mod_idemp_r. f_equal. lia.
Qed.

Lemma vec_add_zero v : vec_ok v -> vec_add q (replicate cols 0) v = v.
Proof.
  intros [Hl Hr]. rewrite <- Hl. unfold vec_add. clear Hl.
  induction Hr as [|c v Hc _ IH]; [done|]. simpl. f_equal; [|exact IH].
  rewrite Z.add_0_l. by apply Z.mod_small.
Qed.

Lemma vec_zero_ok : 0 < q -> vec_ok (replicate cols 0).
Proof.
  intros Hq. split; [apply length_replicate|]. apply Forall_replicate. lia.
Qed.

Lemma vec_sum_ok vs : 0 < q -> Forall (fun v => length v = cols) vs -> vec_ok (vec_sum q cols vs).
Proof.
  intros Hq. induction 1 as [|v vs Hv _ IH]; [by apply vec_zero_ok|].
  simpl. apply vec_add_ok; [done|done|]. apply IH.
Qed.

Lemma vec_sum_acc vs x :
  vec_ok x -> foldr (vec_add q) x vs = vec_add q (vec_sum q cols vs) x.
Proof.
  intros Hx. induction vs as [|v vs IH]; simpl; [by rewrite vec_add_zero|].
  rewrite IH. apply vec_add_assoc.
Qed.

Lemma vec_sum_app vs ws :
  0 < q -> Forall (fun v => length v = cols) ws ->
  vec_sum q cols (vs ++ ws) = vec_add q (vec_sum q cols vs) (vec_sum q cols ws).
Proof.
  intros Hq Hw. unfold vec_sum at 1. rewrite foldr_app. apply vec_sum_acc. by apply vec_sum_ok.
Qed.

(** The order in which partial results arrive does not matter. *)
Lemma vec_sum_perm vs ws : Permutation vs ws -> vec_sum q cols vs = vec_sum q cols ws.
Proof.
  intros Hp. unfold vec_sum. induction Hp; simpl; [done|by f_equal| |congruence].
  rewrite !(assoc_L (vec_add q)). f_equal. apply (comm_L (vec_add q)).
Qed.

Lemma scaled_rows_ok query rows :
  Forall (fun row => length row = cols) rows ->
  Forall (fun v => length v = cols) (zip_with (vec_scale q) query rows).
Proof.
  intros Hr. revert query. induction Hr as [|row rows Hrow _ IH]; intros [|c query];
    simpl; constructor; [|apply IH]. unfold vec_scale. by rewrite length_fmap.
Qed.

Lemma matvec_ok rows query :
  0 < q -> Forall (fun row => length row = cols) rows -> vec_ok (matvec q cols rows query).
Proof. intros Hq Hr. apply vec_sum_ok; [done|]. by apply scaled_rows_ok. Qed.

(** Row shards of a matrix: the product splits into a sum. *)
Lemma matvec_app rows1 rows2 query1 query2 :
  0 < q -> length query1 = length rows1 ->
  Forall (fun row => length row = cols) rows2 ->
  matvec q cols (rows1 ++ rows2) (query1 ++ query2) =
  vec_add q (matvec q cols rows1 query1) (matvec q cols rows2 query2).
Proof.
  intros Hq Hl Hr. unfold matvec. rewrite zip_with_app by done.
  apply vec_sum_app; [done|]. by apply scaled_rows_ok.
Qed.

Lemma matvec_concat (shards : list (list (list Z))) (queries : list (list Z)) :
  0 < q -> Forall2 (fun rows query => length query = length rows) shards queries ->
  Forall (Forall (fun row => length row = cols)) shards ->
  matvec q cols (concat shards) (concat queries) =
  vec_sum q cols (zip_with (matvec q cols) shards queries).
Proof.
  intros Hq Hs. induction Hs as [|rows query shards queries Hl _ IH]; intros Hr; [done|].
  apply Forall_cons in Hr as [Hrow Hr]. simpl.
  rewrite matvec_app; [|done|done|by apply Forall_concat]. f_equal. by apply IH.
Qed.

(** ** The modular sum *)

Lemma add_loop_ok a b :
  reduced q a -> reduced q b -> length a = length b ->
  add_loop a b q = (vec_add q a b, Ok tt).
Proof.
  intros Ha. revert b. induction Ha as [|x a Hx _ IH]; intros [|y b] Hb Hl; try done.
  apply Forall_cons in Hb as [Hy Hb]. injection Hl as Hl. cbn [add_loop].
  guards. cbn [orb]. by rewrite (IH b Hb Hl).
Qed.

Lemma add_intermediate_ok a b :
  2 <= q -> vec_ok a -> vec_ok b ->
  add_intermediate_assign_mod a b q = (vec_add q a b, Ok tt).
Proof.
  intros Hq [Hla Ha] [Hlb Hb]. unfold add_intermediate_assign_mod, zlen. rewrite Hla, Hlb.
  guards. cbn [negb]. apply add_loop_ok; [done|done|congruence].
Qed.

(** An accepted contribution was canonical and of the right width. *)
Lemma add_loop_Ok a b v :
  Forall u64 a -> Forall u64 b -> length a = length b -> add_loop a b q = (v, Ok tt) ->
  reduced q a /\ reduced q b /\ v = vec_add q a b.
Proof.
  intros Ha. revert b v. induction Ha as [|x a Hx _ IH]; intros [|y b] v Hb Hl Hv; try done.
  - simpl in Hv. simplify_eq. split_and!; [constructor|constructor|done].
  - apply Forall_cons in Hb as [Hy Hb]. injection Hl as Hl. cbn [add_loop] in Hv.
    destruct ((q <=? x) || (q <=? y)) eqn:E; [done|]. bool_prop.
    destruct (add_loop a b q) as [w r] eqn:Er. simplify_eq.
    destruct (IH b w Hb Hl Er) as (Ha' & Hb' & ->). unfold u64 in *.
    split_and!; try (constructor; [lia|done]). done.
Qed.

Lemma add_intermediate_Ok a b v :
  Forall u64 a -> Forall u64 b -> length a = cols ->
  add_intermediate_assign_mod a b q = (v, Ok tt) ->
  2 <= q /\ vec_ok a /\ vec_ok b /\ v = vec_add q a b.
Proof.
  intros Ha Hb Hl H. unfold add_intermediate_assign_mod in H.
  destruct (q <? 2) eqn:Eq; [done|]. destruct (zlen a =? zlen b) eqn:El; [|done].
  bool_prop. assert (length a = length b) as Hab by (unfold zlen in El; lia).
  destruct (add_loop_Ok a b v Ha Hb Hab H) as (Hra & Hrb & ->).
  split_and!; try done. split; [congruence|done].
Qed.
End vectors.

(** ** What the iterator yields *)

(** The bytes of row [i], short or empty past the end of the data. *)
Definition row_bytes_at (data : list Z) (row_bytes i : Z) : list Z :=
  take (Z.to_nat row_bytes) (drop (Z.to_nat (i * row_bytes)) data).

Definition plaintext_entry `{IpirServer} (data : list Z) (row_bytes bits i c : Z) : Z :=
  wrap16 (read_bits (row_bytes_at data row_bytes i) (c * bits) bits).

(** The matrix of a shard: one row of [cols] coefficients per table row. *)
Definition plaintext_rows `{IpirServer} (data : list Z) (row_bytes rows cols bits : Z) :
    list (list Z) :=
  (fun i => plaintext_entry data row_bytes bits i <$> seqZ 0 cols) <$> seqZ 0 rows.

Lemma seqZ_S a n : 0 <= n -> seqZ a (n + 1) = a :: seqZ (a + 1) n.
Proof. intros Hn. rewrite seqZ_cons by lia. f_equal. f_equal; lia. Qed.

Lemma get_row (data : list Z) row_bytes start :
  0 <= start -> 0 <= row_bytes -> start + row_bytes < u64_bound ->
  default [] (get_range data start
    (Z.min (saturating_add64 start row_bytes) (zlen data))) =
  take (Z.to_nat row_bytes) (drop (Z.to_nat start) data).
Proof.
  intros Hs Hr Hb. unfold saturating_add64. rewrite (Z.min_l (start + row_bytes)) by lia.
  destruct (Z.le_gt_cases start (zlen data)) as [Hle|Hgt].
  - unfold get_range. guards. cbn [andb from_option id].
    destruct (Z.le_gt_cases (start + row_bytes) (zlen data)).
    + rewrite Z.min_l by lia. f_equal. lia.
    + rewrite Z.min_r by lia. rewrite !take_ge; [done|..]; rewrite length_drop; unfold zlen in *; lia.
  - rewrite (proj2 (get_range_None _ _ _)) by lia. cbn [from_option].
    rewrite drop_ge by (unfold zlen in *; lia). by destruct (Z.to_nat row_bytes).
Qed.

Lemma seqZ_grid {A} (g : Z -> Z -> A) (r : nat) c :
  0 < c ->
  (fun k => g (k / c) (k mod c)) <$> seqZ 0 (Z.of_nat r * c) =
  concat ((fun i => g i <$> seqZ 0 c) <$> seqZ 0 (Z.of_nat r)).
Proof.
  intros Hc. induction r as [|r IH]; [done|].
  replace (Z.of_nat (S r) * c) with (Z.of_nat r * c + c) by lia.
  rewrite seqZ_app, fmap_app by lia. rewrite IH.
  replace (Z.of_nat (S r)) with (Z.of_nat r + 1) by lia.
  rewrite seqZ_app, fmap_app, concat_app by lia. f_equal.
  change (seqZ (0 + Z.of_nat r) 1) with [0 + Z.of_nat r]. cbn [fmap list_fmap concat].
  rewrite app_nil_r. replace (0 + Z.of_nat r * c) with (Z.of_nat r * c + 0) by lia.
  rewrite <- (fmap_add_seqZ (Z.of_nat r * c) 0 c), <- list_fmap_compose by lia.
  apply list_fmap_ext. intros k x Hx. unfold compose.
  apply lookup_seqZ in Hx as [-> Hk].
  rewrite Z.add_comm, Z.div_add, Z.mod_add, Z.div_small, Z.mod_small by lia.
  f_equal; lia.
Qed.

Section iterator.
Context `{IpirServer}.

Lemma collect_from n it :
  0 <= rpi_position it -> 0 < rpi_db_cols it -> 0 <= rpi_row_bytes it ->
  0 <= rpi_plaintext_bits it ->
  (rpi_total it + rpi_db_cols it) * rpi_row_bytes it < u64_bound ->
  rpi_db_cols it * rpi_plaintext_bits it < u64_bound ->
  rpi_position it + Z.of_nat n = rpi_total it ->
  RowPlaintextIter_collect n it =
  (fun k => plaintext_entry (rpi_data it) (rpi_row_bytes it) (rpi_plaintext_bits it)
     (k / rpi_db_cols it) (k mod rpi_db_cols it)) <$> seqZ (rpi_position it) (Z.of_nat n).
Proof.
  revert it. induction n as [|n IH]; intros it Hp Hc Hr Hb Ho1 Ho2 Ht; [done|].
  cbn [RowPlaintextIter_collect]. unfold RowPlaintextIter_next. guards.
  replace (Z.of_nat (S n)) with (Z.of_nat n + 1) by lia. rewrite seqZ_S by lia.
  rewrite fmap_cons. f_equal.
  - pose proof (Z.div_mod (rpi_position it) (rpi_db_cols it) ltac:(lia)).
    pose proof (Z.mod_pos_bound (rpi_position it) (rpi_db_cols it) ltac:(lia)).
    assert (0 <= rpi_position it / rpi_db_cols it <= rpi_position it) as [Hd0 Hd1].
    { split; [apply Z.div_pos; lia|apply Z.div_le_upper_bound; nia]. }
    unfold plaintext_entry, row_bytes_at, wrap64. rewrite !(Z.mod_small _ u64_bound) by nia.
    rewrite get_row; [done|nia|done|nia].
  - rewrite IH; cbn; try done; lia.
Qed.

Lemma collect_rows data row_bytes rows cols bits :
  0 <= rows -> 0 < cols -> 0 <= row_bytes -> 0 <= bits ->
  (rows + 1) * cols * row_bytes < u64_bound -> rows * cols < u64_bound ->
  cols * bits < u64_bound ->
  let it := RowPlaintextIter_new data row_bytes rows cols bits in
  RowPlaintextIter_collect (Z.to_nat (rpi_total it)) it =
  concat (plaintext_rows data row_bytes rows cols bits).
Proof.
  intros Hr Hc Hrb Hb Ho1 Ho2 Ho3 it.
  assert (rpi_total it = rows * cols) as Ht.
  { unfold it. cbn. unfold wrap64. apply Z.mod_small. nia. }
  rewrite Ht. rewrite collect_from; try done.
  - cbn [it RowPlaintextIter_new rpi_position rpi_db_cols rpi_row_bytes rpi_plaintext_bits
         rpi_data].
    rewrite Z2Nat.id by nia. unfold plaintext_rows.
    rewrite <- (Z2Nat.id rows) by lia. by apply seqZ_grid.
  - rewrite Ht. cbn [it RowPlaintextIter_new rpi_row_bytes rpi_db_cols]. nia.
  - rewrite Ht, Z2Nat.id by nia. done.
Qed.

Lemma plaintext_rows_shape data row_bytes rows cols bits :
  0 <= rows ->
  zlen (plaintext_rows data row_bytes rows cols bits) = rows /\
  Forall (fun row => length row = Z.to_nat cols) (plaintext_rows data row_bytes rows cols bits).
Proof.
  intros Hr. unfold plaintext_rows. split.
  - unfold zlen. rewrite length_fmap, length_seqZ. lia.
  - apply Forall_fmap, Forall_true. intros i. unfold compose.
    by rewrite length_fmap, length_seqZ.
Qed.
End iterator.

(** ** What the code relies on from the PIR library *)

Class IpirParamsLaws `{Ipir} := {
  (** Parameters are sane, cover the rows asked for when those are whole
      polynomials, and depend on the row count only in [db_rows]. *)
  params_sane rows bits rlwe ypir :
    params_for_simplepir rows bits = Ok (rlwe, ypir) ->
    0 < rlwe_d rlwe < 2 ^ 32 /\ 2 <= rlwe_q rlwe < u64_bound /\
    0 < db_cols ypir < 2 ^ 32 /\ (rlwe_d rlwe | db_cols ypir) /\ 0 < ypir_p ypir <= 2 ^ 16 /\
    0 <= query_bits ypir;
  params_rows rows bits rlwe ypir :
    params_for_simplepir rows bits = Ok (rlwe, ypir) -> 0 < rows -> (rlwe_d rlwe | rows) ->
    db_rows ypir = rows;
  params_shared rows rows' bits rlwe ypir rlwe' ypir' :
    params_for_simplepir rows bits = Ok (rlwe, ypir) ->
    params_for_simplepir rows' bits = Ok (rlwe', ypir') ->
    rlwe' = rlwe /\ db_cols ypir' = db_cols ypir /\ ypir_p ypir' = ypir_p ypir }.

Class IpirServerLaws `{IpirServer} := {
  params_new p xs t pad : server_params (new_auto_kernel p xs t pad) = p;
  (** The stored database has one coefficient per entry, and a kernel built from
      it as already transposed is the kernel it came from. *)
  db_shape p xs :
    zlen xs = db_rows p * db_cols p -> Forall u16 xs ->
    zlen (server_db (new_auto_kernel p xs false true)) = db_rows p * db_cols p /\
    Forall u16 (server_db (new_auto_kernel p xs false true));
  db_reload p xs :
    zlen xs = db_rows p * db_cols p ->
    new_auto_kernel p (server_db (new_auto_kernel p xs false true)) true true =
    new_auto_kernel p xs false true;
  (** The kernel multiplies the query with the row-major matrix, modulo [q]. *)
  multiply_new p xs rlwe query :
    0 <= db_rows p -> 0 < db_cols p -> zlen xs = db_rows p * db_cols p ->
    zlen query = db_rows p ->
    multiply_query (new_auto_kernel p xs false true) rlwe query =
    matvec (rlwe_q rlwe) (Z.to_nat (db_cols p))
      (chunks_exact (length xs) (Z.to_nat (db_cols p)) xs) query;
  (** A hint has one [d] by [d] block of canonical residues per [d] columns. *)
  offline_shape p xs rlwe setup :
    0 < rlwe_d rlwe -> 0 < rlwe_q rlwe < u64_bound -> 0 < db_cols p ->
    zlen setup * rlwe_d rlwe = db_rows p ->
    let blocks := perform_offline_precomputation_simplepir
      (new_auto_kernel p xs false true) rlwe setup in
    crs_wf (db_cols p / rlwe_d rlwe) (rlwe_d rlwe) blocks /\
    Forall (fun b => Forall (reduced (rlwe_q rlwe)) (cb_rows b)) blocks }.

(** The sizes of a layout and its parameters stay far inside 64 bits. *)
Definition layout_fits (layout : DatabaseLayout) (rlwe : RlweParams) (p : YpirSchemeParams) : Prop :=
  0 < record_bytes layout /\ 0 < records_per_row layout /\ 0 < shard_rows layout /\
  (rlwe_d rlwe | shard_rows layout) /\
  (shard_rows layout + 1) * db_cols p * DatabaseLayout_row_bytes layout < 2 ^ 60 /\
  db_cols p < 2 ^ 32 /\ shard_rows layout * db_cols p < 2 ^ 60 /\
  8 + db_cols p / rlwe_d rlwe * (4 + rlwe_d rlwe * (4 + 8 * rlwe_d rlwe)) < 2 ^ 63.

Lemma trailing_zeros_range p : 0 < p <= 2 ^ 16 -> 0 <= trailing_zeros p <= 16.
Proof.
  intros Hp. unfold trailing_zeros. guards. split; [apply Z.log2_nonneg|].
  pose proof (Z.log2_land p (wrap64 (- p))) as Hl.
  pose proof (Z.mod_pos_bound (- p) u64_bound ltac:(done)) as Hw.
  specialize (Hl ltac:(lia) ltac:(unfold wrap64; lia)).
  pose proof (Z.log2_le_mono p (2 ^ 16) ltac:(lia)) as Hm.
  change (Z.log2 (2 ^ 16)) with 16 in Hm. lia.
Qed.

Section runtime_laws.
Context {hex : Hex} {hex_laws : HexLaws hex} {sha : Sha256} {sha_laws : Sha256Laws sha}
  `{IpirParamsLaws} `{IpirServerLaws}.

(** A runtime whose kernel holds exactly the given table rows. *)
Definition holds_rows (layout : DatabaseLayout) (p : YpirSchemeParams) (rows : list Z)
    (rt : ShardRuntime) : Prop :=
  rt_server rt = new_auto_kernel p
    (concat (plaintext_rows rows (DatabaseLayout_row_bytes layout) (db_rows p) (db_cols p)
      (trailing_zeros (ypir_p p)))) false true.

(** The matrix of one shard of a table. *)
Definition shard_matrix (layout : DatabaseLayout) (p : YpirSchemeParams) (rows : list Z) :
    list (list Z) :=
  plaintext_rows rows (DatabaseLayout_row_bytes layout) (db_rows p) (db_cols p)
    (trailing_zeros (ypir_p p)).

Lemma shard_parameters_facts layout rlwe p :
  shard_parameters layout = Ok (rlwe, p) -> layout_fits layout rlwe p ->
  db_rows p = shard_rows layout /\ 0 < db_rows p /\ 0 < db_cols p /\ 0 < rlwe_d rlwe /\
  2 <= rlwe_q rlwe < u64_bound /\ 0 <= trailing_zeros (ypir_p p) <= 16.
Proof.
  intros Hp (_ & _ & Hr & Hd & _). unfold shard_parameters in Hp.
  destruct (params_for_simplepir _ _) as [[rl y]|] eqn:Ep; [|done]. cbn in Hp. simplify_eq.
  destruct (params_sane _ _ _ _ Ep) as (? & ? & ? & ? & Hpp & _).
  pose proof (params_rows _ _ _ _ Ep Hr Hd) as Hdb.
  pose proof (trailing_zeros_range _ Hpp). split_and!; (done || lia).
Qed.

Lemma build_holds_rows layout id start digest rows rlwe rlwe' p setup n rt n' :
  shard_parameters layout = Ok (rlwe', p) -> layout_fits layout rlwe' p ->
  ShardRuntime_build layout id start digest rows rlwe setup n = Ok (rt, n') ->
  holds_rows layout p rows rt /\ rt_shard_id rt = id /\ rt_query_row_start rt = start /\
  rt_rows_sha256 rt = digest /\ zlen rows = DatabaseLayout_shard_bytes layout /\
  exists s, get_range setup (start / rlwe_d rlwe)
      (start / rlwe_d rlwe + shard_rows layout / rlwe_d rlwe) = Some s /\
    rt_crs_blocks rt = perform_offline_precomputation_simplepir (rt_server rt) rlwe s.
Proof.
  intros Hp Hf Hb. destruct (shard_parameters_facts _ _ _ Hp Hf) as (Hdb & ? & ? & ? & ? & ?).
  destruct Hf as (Hr1 & Hr2 & Hr3 & _ & Ho1 & Ho2 & Ho3 & _).
  unfold ShardRuntime_build in Hb. rewrite Hp in Hb. cbv zeta in Hb.
  destruct (zlen rows =? _) eqn:El; [|done]. cbn [negb] in Hb. bool_prop.
  destruct (is_multiple_of _ _); [|done]. cbn [negb] in Hb.
  assert (0 < DatabaseLayout_row_bytes layout) as Hrb by (unfold DatabaseLayout_row_bytes; nia).
  rewrite collect_rows in Hb by (rewrite ?Hdb; unfold u64_bound; nia).
  destruct (get_range setup _ _) as [s|] eqn:Es; [|done]. cbn in Hb. simplify_eq. cbn.
  split_and!; try done. eauto.
Qed.

Lemma shard_matrix_shape layout rlwe p rows :
  shard_parameters layout = Ok (rlwe, p) -> layout_fits layout rlwe p ->
  zlen (shard_matrix layout p rows) = shard_rows layout /\
  Forall (fun row => length row = Z.to_nat (db_cols p)) (shard_matrix layout p rows).
Proof.
  intros Hp Hf. destruct (shard_parameters_facts _ _ _ Hp Hf) as (Hdb & ? & _).
  unfold shard_matrix. rewrite <- Hdb. apply plaintext_rows_shape. lia.
Qed.

(** A shard runtime answers with the product of its rows and the query. *)
Lemma evaluate_holds_rows layout rlwe' rlwe p rows rt query :
  shard_parameters layout = Ok (rlwe', p) -> layout_fits layout rlwe' p ->
  holds_rows layout p rows rt -> zlen query = shard_rows layout -> reduced (rlwe_q rlwe) query ->
  ShardRuntime_evaluate rt rlwe query =
  Ok (matvec (rlwe_q rlwe) (Z.to_nat (db_cols p)) (shard_matrix layout p rows) query).
Proof.
  intros Hp Hf Hrt Hq Hr. destruct (shard_parameters_facts _ _ _ Hp Hf) as (Hdb & ? & ? & _).
  destruct (shard_matrix_shape _ _ _ rows Hp Hf) as [Hml Hmr].
  unfold ShardRuntime_evaluate. rewrite Hrt, params_new, Hq, Hdb, Z.eqb_refl. cbn [negb].
  assert (existsb (fun c => rlwe_q rlwe <=? c) query = false) as ->.
  { clear Hq. induction Hr as [|c query Hc _ IH]; [done|]. cbn. guards. exact IH. }
  assert (zlen (concat (shard_matrix layout p rows)) = db_rows p * db_cols p) as Hz.
  { rewrite (zlen_concat _ (db_cols p)), Hml, Hdb; [lia|].
    eapply Forall_impl; [exact Hmr|]. intros row Hrow. unfold zlen. simpl in Hrow. lia. }
  rewrite Hrt. fold (shard_matrix layout p rows). rewrite multiply_new by (done || lia).
  rewrite chunks_exact_concat; [done|lia|exact Hmr|done].
Qed.

(** ** Cached artifacts *)

(** A runtime as [build] makes it for a layout. *)
Definition built_for (layout : DatabaseLayout) (rlwe : RlweParams) (rt : ShardRuntime) : Prop :=
  exists rlwe' p xs,
    shard_parameters layout = Ok (rlwe', p) /\ rt_server rt = new_auto_kernel p xs false true /\
    zlen xs = db_rows p * db_cols p /\ db_rows p * db_cols p < 2 ^ 60 /\ Forall u16 xs /\
    crs_wf (db_cols p / rlwe_d rlwe) (rlwe_d rlwe) (rt_crs_blocks rt) /\
    u32 (db_cols p / rlwe_d rlwe) /\ u32 (rlwe_d rlwe) /\
    zlen (encode_crs_blocks (rt_crs_blocks rt)) < 2 ^ 63.

(** Coefficients survive the two-byte encoding. *)
Lemma u16_roundtrip xs :
  Forall u16 xs ->
  let raw := concat (le_bytes 2 <$> xs) in
  le_val <$> chunks_exact (length raw) 2 raw = xs /\ zlen raw = zlen xs * 2.
Proof.
  intros Hx raw. unfold raw. split.
  - rewrite chunks_exact_concat; [|lia| |done].
    + rewrite <- list_fmap_compose. rewrite <- (list_fmap_id xs) at 2.
      apply Forall_fmap_ext_1. eapply Forall_impl; [exact Hx|]. intros x Hb.
      unfold compose. by rewrite le_val_le_bytes.
    + apply Forall_fmap, Forall_true. intros. apply length_le_bytes.
  - rewrite (zlen_concat _ 2); [unfold zlen; rewrite length_fmap; lia|].
    apply Forall_fmap, Forall_true. intros. apply (zlen_le_bytes 2).
Qed.

(** What is on disk after a sequence of [persist] calls, each of which may have
    been cut short. *)
Definition after_persists (table : DatabaseId) (rlwe : RlweParams)
    (history : list (ShardRuntime * nat)) : ShardFiles :=
  foldl (fun directory '(rt, done_) => fst (ShardRuntime_persist rt directory table rlwe done_))
    no_files history.

Definition files_from (table : DatabaseId) (rlwe : RlweParams) (rts : list ShardRuntime)
    (d : ShardFiles) : Prop :=
  (forall m, sf_metadata d = Some m -> exists rt, rt ∈ rts /\ m = artifact_metadata rt table rlwe) /\
  (forall b, sf_database d = Some b -> exists rt, rt ∈ rts /\ b = database_bytes rt) /\
  (forall b, sf_hint d = Some b ->
     exists rt, rt ∈ rts /\ b = encode_crs_blocks (rt_crs_blocks rt)).

Lemma files_from_step table rlwe rts d rt k :
  files_from table rlwe rts d ->
  files_from table rlwe (rts ++ [rt]) (fst (ShardRuntime_persist rt d table rlwe k)).
Proof.
  intros (Hm & Hd & Hh).
  assert (rt ∈ rts ++ [rt]) as Hin by set_solver.
  assert (forall r, r ∈ rts -> r ∈ rts ++ [rt]) as Hsub by set_solver.
  destruct k as [|[|[|k]]]; cbn; rewrite ?take_nil; cbn; repeat split; cbn; intros x Hx;
    simplify_eq; try (by exists rt);
    first [destruct (Hm _ Hx) as (r & ? & ?)|destruct (Hd _ Hx) as (r & ? & ?)
          |destruct (Hh _ Hx) as (r & ? & ?)]; eauto.
Qed.

Lemma after_persists_from table rlwe history :
  files_from table rlwe history.*1 (after_persists table rlwe history).
Proof.
  unfold after_persists. induction history as [|[rt k] history IH] using rev_ind.
  - repeat split; done.
  - rewrite foldl_app, fmap_app. cbn [foldl fmap list_fmap fst]. by apply files_from_step.
Qed.

(** No two different files that were ever written have the same digest. *)
Definition digests_distinct (rts : list ShardRuntime) : Prop :=
  forall r1 r2, r1 ∈ rts -> r2 ∈ rts ->
    (sha256 (database_bytes r1) = sha256 (database_bytes r2) ->
     database_bytes r1 = database_bytes r2) /\
    (sha256 (encode_crs_blocks (rt_crs_blocks r1)) =
     sha256 (encode_crs_blocks (rt_crs_blocks r2)) ->
     encode_crs_blocks (rt_crs_blocks r1) = encode_crs_blocks (rt_crs_blocks r2)).

Lemma hex_sha_inj a b : hex_encode (sha256 a) = hex_encode (sha256 b) -> sha256 a = sha256 b.
Proof.
  intros He. apply (f_equal hex_decode) in He.
  rewrite !hex_decode_encode in He by apply sha256_ok. congruence.
Qed.

Lemma bytes_ok_encode_crs bs : bytes_ok (encode_crs_blocks bs).
Proof.
  assert (forall cs, bytes_ok (enc_counted cs)) as Hc.
  { intros cs. unfold enc_counted, enc_vector. apply bytes_ok_app. split; [auto with rust|].
    apply Forall_concat, Forall_fmap, Forall_true. intros. apply bytes_ok_le_bytes. }
  rewrite encode_crs_eq. apply bytes_ok_app. split; [apply bytes_ok_string|].
  apply bytes_ok_app. split; [auto with rust|].
  apply Forall_concat, Forall_fmap, Forall_true. intros b. unfold compose, enc_block.
  apply bytes_ok_app. split; [auto with rust|].
  apply Forall_concat, Forall_fmap, Forall_true. intros r. apply Hc.
Qed.

(** Reading back a complete set of files. *)
Lemma load_complete layout rlwe table rt d n :
  built_for layout rlwe rt ->
  sf_metadata d = Some (artifact_metadata rt table rlwe) ->
  sf_database d = Some (database_bytes rt) ->
  sf_hint d = Some (encode_crs_blocks (rt_crs_blocks rt)) ->
  ShardRuntime_load d table layout (rt_shard_id rt) (rt_query_row_start rt) (rt_rows_sha256 rt)
    rlwe n =
  Ok ({| rt_shard_id := rt_shard_id rt; rt_query_row_start := rt_query_row_start rt;
         rt_rows_sha256 := rt_rows_sha256 rt; rt_server := rt_server rt;
         rt_crs_blocks := rt_crs_blocks rt; rt_prepared_at := n |}, wrap64 (n + 1)).
Proof.
  intros (rl & p & xs & Hp & Hs & Hx & Hb & Hu & Hcrs & Hn & Hd & Hl) Em Ed Eh.
  unfold ShardRuntime_load. rewrite Em, Ed, Eh, Hp. cbn [ok_or map_err].
  assert (metadata_mismatch (artifact_metadata rt table rlwe) table rlwe (rt_shard_id rt)
    (rt_query_row_start rt) (rt_rows_sha256 rt) = false) as ->.
  { unfold metadata_mismatch, artifact_metadata. cbn.
    rewrite !Z.eqb_refl, !bool_decide_true by done. done. }
  unfold artifact_metadata. cbn [am_db_rows am_db_cols am_plaintext_modulus am_database_sha256
    am_crs_sha256]. rewrite Hs, params_new, !Z.eqb_refl. cbn [negb orb].
  rewrite !bool_decide_true by done. cbn [negb].
  destruct (db_shape p xs Hx Hu) as [Hdl Hdu].
  unfold database_bytes. rewrite Hs. destruct (u16_roundtrip _ Hdu) as [Hrt Hz].
  rewrite Hrt, Hz, Hdl.
  assert (wrap64 (db_rows p * db_cols p * 2) = db_rows p * db_cols p * 2) as ->.
  { unfold wrap64. apply Z.mod_small. pose proof (zlen_nonneg xs). unfold u64_bound. lia. }
  rewrite Z.eqb_refl. cbn [negb]. rewrite db_reload by done.
  rewrite (proj2 (crs_parse_exact _ _ _ (rt_crs_blocks rt)
    (conj (bytes_ok_encode_crs _) Hl) Hn Hd) (conj Hcrs eq_refl)). done.
Qed.

(** What a successful [load] checked. *)
Lemma load_checked d table layout id start digest rlwe n res :
  ShardRuntime_load d table layout id start digest rlwe n = Ok res ->
  exists m db hint, sf_metadata d = Some m /\ sf_database d = Some db /\ sf_hint d = Some hint /\
    am_shard_id m = id /\ am_query_row_start m = start /\ am_rows_sha256 m = digest /\
    hex_encode (sha256 db) = am_database_sha256 m /\ hex_encode (sha256 hint) = am_crs_sha256 m.
Proof.
  unfold ShardRuntime_load. intros Hl.
  destruct (sf_metadata d) as [m|]; [|done]. cbn [ok_or] in Hl.
  destruct (metadata_mismatch _ _ _ _ _ _) eqn:Em; [done|].
  destruct (shard_parameters layout) as [[rl p]|]; [|done]. cbn [map_err] in Hl.
  destruct (_ || _ || _); [done|].
  destruct (sf_database d) as [db|]; [|done]. cbn [ok_or] in Hl.
  case_bool_decide as Edb; [|done]. cbn [negb] in Hl. cbv zeta in Hl.
  destruct (negb _) in Hl; [done|].
  destruct (sf_hint d) as [hint|]; [|done]. cbn [ok_or] in Hl.
  case_bool_decide as Eh; [|done].
  unfold metadata_mismatch in Em. bool_prop.
  exists m, db, hint. by split_and!.
Qed.

Lemma load_ids d table layout id start digest rlwe n rt n' :
  ShardRuntime_load d table layout id start digest rlwe n = Ok (rt, n') ->
  rt_shard_id rt = id /\ rt_query_row_start rt = start /\ rt_rows_sha256 rt = digest.
Proof. unfold ShardRuntime_load. cbv zeta. intros Hl. inv_res Hl. done. Qed.

Lemma load_after_persists layout rlwe table history id start digest n rt n' :
  Forall (built_for layout rlwe) history.*1 -> digests_distinct history.*1 ->
  ShardRuntime_load (after_persists table rlwe history) table layout id start digest rlwe n =
    Ok (rt, n') ->
  exists r, r ∈ history.*1 /\ rt_server rt = rt_server r /\ rt_crs_blocks rt = rt_crs_blocks r /\
    rt_shard_id r = id /\ rt_query_row_start r = start /\ rt_rows_sha256 r = digest.
Proof.
  intros Hb Hd Hl. destruct (after_persists_from table rlwe history) as (Fm & Fd & Fh).
  destruct (load_checked _ _ _ _ _ _ _ _ _ Hl)
    as (m & db & hint & Em & Ed & Eh & Hid & Hst & Hdig & Hdb & Hhint).
  destruct (Fm _ Em) as (r & Hr & ->). destruct (Fd _ Ed) as (r1 & Hr1 & ->).
  destruct (Fh _ Eh) as (r2 & Hr2 & ->). cbn in Hid, Hst, Hdig, Hdb, Hhint.
  apply hex_sha_inj, (Hd r1 r Hr1 Hr) in Hdb. apply hex_sha_inj, (Hd r2 r Hr2 Hr) in Hhint.
  rewrite Hdb in Ed. rewrite Hhint in Eh. subst id start digest.
  rewrite Forall_forall in Hb. pose proof (load_complete layout rlwe table r _ n (Hb r Hr) Em Ed Eh) as Hc.
  rewrite Hc in Hl. simplify_eq. exists r. by split_and!.
Qed.

Lemma load_after_complete layout rlwe table history rt k n :
  built_for layout rlwe rt -> (3 <= k)%nat ->
  ShardRuntime_load (after_persists table rlwe (history ++ [(rt, k)])) table layout
    (rt_shard_id rt) (rt_query_row_start rt) (rt_rows_sha256 rt) rlwe n =
  Ok ({| rt_shard_id := rt_shard_id rt; rt_query_row_start := rt_query_row_start rt;
         rt_rows_sha256 := rt_rows_sha256 rt; rt_server := rt_server rt;
         rt_crs_blocks := rt_crs_blocks rt; rt_prepared_at := n |}, wrap64 (n + 1)).
Proof.
  intros Hb Hk. unfold after_persists. rewrite foldl_app. cbn [foldl].
  unfold ShardRuntime_persist. cbn [fst].
  rewrite (take_ge _ k) by (cbn; lia). by apply load_complete.
Qed.

Lemma zlen_encode_crs n d bs :
  crs_wf n d bs -> zlen (encode_crs_blocks bs) = 8 + n * (4 + d * (4 + 8 * d)).
Proof.
  intros [Hn Hb]. rewrite encode_crs_eq. autorewrite with zlen.
  rewrite (zlen_concat _ (4 + d * (4 + 8 * d))).
  - change (zlen HINT_MAGIC) with 4. unfold zlen in *. rewrite length_fmap. lia.
  - apply Forall_fmap. eapply Forall_impl; [exact Hb|]. intros b [Hl Hr].
    unfold compose, enc_block. autorewrite with zlen. rewrite (zlen_concat _ (4 + 8 * d)).
    + unfold zlen in *. rewrite length_fmap. lia.
    + apply Forall_fmap. eapply Forall_impl; [exact Hr|]. intros r [Hrl _].
      unfold compose, enc_counted. autorewrite with zlen. rewrite zlen_enc_vector. lia.
Qed.

Lemma plaintext_rows_u16 data row_bytes rows cols bits :
  Forall u16 (concat (plaintext_rows data row_bytes rows cols bits)).
Proof.
  apply Forall_concat, Forall_fmap, Forall_true. intros i. unfold compose.
  apply Forall_fmap, Forall_true. intros c. unfold compose, plaintext_entry, wrap16, u16.
  by apply Z.mod_pos_bound.
Qed.

(** What [build] returns is what the artifact theorems are about. *)
Lemma build_built_for layout id start digest rows rlwe p setup n rt n' :
  shard_parameters layout = Ok (rlwe, p) -> layout_fits layout rlwe p ->
  0 <= start -> ShardRuntime_build layout id start digest rows rlwe setup n = Ok (rt, n') ->
  built_for layout rlwe rt.
Proof.
  intros Hp Hf Hst Hb.
  destruct (build_holds_rows _ _ _ _ _ _ _ _ _ _ _ _ Hp Hf Hb)
    as (Hrt & _ & _ & _ & _ & s & Hs & Hcrs).
  destruct (shard_parameters_facts _ _ _ Hp Hf) as (Hdb & ? & ? & ? & ? & ?).
  destruct (shard_matrix_shape _ _ _ rows Hp Hf) as [Hml Hmr].
  destruct Hf as (_ & _ & Hr & Hd & _ & Hc & Ho & Hh).
  assert (0 <= start / rlwe_d rlwe) as Hpoly by (apply Z.div_pos; lia).
  apply get_range_Some in Hs as (_ & Hsl & _); [|done].
  assert (zlen s * rlwe_d rlwe = db_rows p) as Hsz.
  { destruct Hd as [k Hk]. rewrite Hsl, Hdb, Hk, Z.div_mul by lia. lia. }
  rewrite Hrt in Hcrs.
  destruct (offline_shape p (concat (shard_matrix layout p rows)) rlwe s) as [Hwf _];
    [lia|lia|lia|exact Hsz|].
  unfold shard_matrix in Hwf. rewrite <- Hcrs in Hwf.
  assert (0 <= db_cols p / rlwe_d rlwe <= db_cols p) as Hq.
  { split; [apply Z.div_pos; lia|apply Z.div_le_upper_bound; nia]. }
  assert (0 < rlwe_d rlwe < 2 ^ 32) as Hd32.
  { unfold shard_parameters in Hp. destruct (params_for_simplepir _ _) as [[? ?]|] eqn:E; [|done].
    cbn in Hp. simplify_eq. apply (params_sane _ _ _ _ E). }
  exists rlwe, p, (concat (shard_matrix layout p rows)). split_and!; try done.
  - rewrite (zlen_concat _ (db_cols p)), Hml, Hdb; [apply Z.mul_comm|].
    eapply Forall_impl; [exact Hmr|]. intros row Hrow. unfold zlen. simpl in Hrow. lia.
  - rewrite Hdb. lia.
  - apply plaintext_rows_u16.
  - unfold u32. lia.
  - unfold u32. lia.
  - by rewrite (zlen_encode_crs _ _ _ Hwf).
Qed.
End runtime_laws.

(** ** A small concrete instance *)

Definition small_ipir : Ipir := {|
  ipir_seed := Z; ipir_rng := unit;
  params_for_simplepir rows bits :=
    Ok ({| rlwe_d := 2; rlwe_q := 97 |},
        {| db_rows := rows; db_cols := 4; ypir_p := 16; q_prime_1 := 97; query_bits := 8 |});
  published_c1_len d q := 1;
  response_body_len d q := d;
  recover_published_c1 bytes _ _ _ := [bytes];
  generate_setup p _ := replicate (Z.to_nat (db_rows p / 2)) [1; 1];
  fresh_query p _ row _ :=
    ((fun i => if i =? row then 1 else 0) <$> seqZ 0 (db_rows p), [], row);
  serialize_packing_keys keys := Ok keys;
  to_switched_bytes q _ _ := q;
  decode_response _ _ body := body |}.

#[export] Instance small_ipir_laws : @IpirParamsLaws small_ipir.
Proof.
  split; cbn; intros; simplify_eq; cbn; unfold u64_bound; try done; try lia.
  split_and!; try lia. by exists 2.
Qed.

Definition sum_list (xs : list Z) : Z := foldr Z.add 0 xs.

Definition small_server : IpirServer := {|
  ipir_server := YpirSchemeParams * list Z;
  new_auto_kernel p xs _ _ := (p, xs);
  server_params := fst;
  server_db := snd;
  multiply_query s rlwe query :=
    matvec (rlwe_q rlwe) (Z.to_nat (db_cols (fst s)))
      (chunks_exact (length (snd s)) (Z.to_nat (db_cols (fst s))) (snd s)) query;
  perform_offline_precomputation_simplepir s rlwe setup :=
    let d := Z.to_nat (rlwe_d rlwe) in
    replicate (Z.to_nat (db_cols (fst s) / rlwe_d rlwe))
      {| cb_rows := replicate d (replicate d ((sum_list (snd s) mod rlwe_q rlwe))) |};
  read_bits bytes off n := (le_val bytes / 2 ^ off) mod 2 ^ n;
  from_switched_bytes bytes rows _ _ := Ok (take (Z.to_nat rows) bytes) |}.

Lemma small_offline d k v q :
  0 < d -> 0 <= k -> 0 <= v < q -> q <= u64_bound ->
  let bs := replicate (Z.to_nat k)
    {| cb_rows := replicate (Z.to_nat d) (replicate (Z.to_nat d) v) |} in
  crs_wf k d bs /\ Forall (fun b => Forall (reduced q) (cb_rows b)) bs.
Proof.
  intros Hd Hk Hv Hq bs. unfold bs, crs_wf. split; [split|].
  - unfold zlen. rewrite length_replicate. lia.
  - apply Forall_replicate. split; cbn [cb_rows].
    + unfold zlen. rewrite length_replicate. lia.
    + apply Forall_replicate. split; [unfold zlen; rewrite length_replicate; lia|].
      apply Forall_replicate. unfold u64. lia.
  - apply Forall_replicate. cbn [cb_rows]. apply Forall_replicate, Forall_replicate. done.
Qed.

#[export] Instance small_server_laws : @IpirServerLaws small_server.
Proof.
  split; cbn; try done. intros p xs rlwe setup Hd Hq Hc _.
  apply (small_offline _ _ _ (rlwe_q rlwe)); [lia|apply Z.div_pos; lia|apply Z.mod_pos_bound; lia|lia].
Qed.

(** Two-byte rows of 4-bit coefficients, two rows to a shard. *)
Definition small_layout : DatabaseLayout :=
  {| record_bytes := 2; records_per_row := 1; shard_rows := 2 |}.

Definition small_params : YpirSchemeParams :=
  {| db_rows := 2; db_cols := 4; ypir_p := 16; q_prime_1 := 97; query_bits := 8 |}.
Definition small_rlwe : RlweParams := {| rlwe_d := 2; rlwe_q := 97 |}.

Lemma small_layout_fits : layout_fits small_layout small_rlwe small_params.
Proof. unfold layout_fits. split_and!; first [vm_compute; reflexivity|by exists 1]. Qed.

(** The runtime [build] makes of four bytes, or a placeholder the examples
    never reach. *)
Definition small_runtime (digest : string) (rows : list Z) :
    @ShardRuntime small_server :=
  match @ShardRuntime_build small_ipir small_server small_layout 0 0 digest rows small_rlwe
          [[1; 1]] 0 with
  | Ok (rt, _) => rt
  | Err _ => {| rt_shard_id := 0; rt_query_row_start := 0; rt_rows_sha256 := digest;
                rt_server := @new_auto_kernel small_server small_params [] false true; rt_crs_blocks := []; rt_prepared_at := 0 |}
  end.

Lemma small_runtime_built digest rows :
  length rows = 4%nat ->
  @built_for small_ipir small_server small_layout small_rlwe (small_runtime digest rows).
Proof.
  intros Hl. unfold small_runtime.
  destruct (@ShardRuntime_build small_ipir small_server small_layout 0 0 digest rows small_rlwe
    [[1; 1]] 0) as [[rt n]|e] eqn:E.
  - eapply (build_built_for small_layout 0 0); [reflexivity|apply small_layout_fits|lia|exact E].
  - exfalso. unfold ShardRuntime_build in E.
    replace (zlen rows =? DatabaseLayout_shard_bytes small_layout) with true in E
      by (unfold zlen; rewrite Hl; done). done.
Qed.

(** ** Properties *)

(** C18: cached artifacts survive interrupted writes.  After any sequence of
    [persist] calls on one shard's directory, each possibly cut short between
    its three atomic writes, [load] either refuses the directory or returns the
    kernel and hint of one runtime that was persisted there, with the shard id,
    row offset and row digest asked for: it never mixes the database of one
    build with the hint of another.  And if the last call completed, loading
    that runtime's key succeeds and returns it. *)
Theorem artifacts_crash_safe (hex : Hex) `{!HexLaws hex} (sha : Sha256) `{!Sha256Laws sha}
    `{IpirParamsLaws} `{IpirServerLaws} layout rlwe table history n :
  Forall (built_for layout rlwe) history.*1 -> digests_distinct history.*1 ->
  let directory := after_persists table rlwe history in
  (forall id start digest rt n',
     ShardRuntime_load directory table layout id start digest rlwe n = Ok (rt, n') ->
     exists r, r ∈ history.*1 /\ rt_server rt = rt_server r /\
       rt_crs_blocks rt = rt_crs_blocks r /\ rt_shard_id r = id /\
       rt_query_row_start r = start /\ rt_rows_sha256 r = digest) /\
  (forall h r k, history = h ++ [(r, k)] -> (3 <= k)%nat ->
     exists rt n', ShardRuntime_load directory table layout (rt_shard_id r)
         (rt_query_row_start r) (rt_rows_sha256 r) rlwe n = Ok (rt, n') /\
       rt_server rt = rt_server r /\ rt_crs_blocks rt = rt_crs_blocks r).
Proof.
  intros Hb Hd directory. split.
  - intros. by eapply load_after_persists.
  - intros h r k -> Hk. rewrite fmap_app, Forall_app in Hb. destruct Hb as [_ Hb].
    apply Forall_cons in Hb as [Hr _]. unfold directory.
    rewrite load_after_complete by done. by do 2 eexists.
Qed.

Lemma artifacts_crash_safe_witness :
  let a := small_runtime "a" [1; 2; 3; 4] in
  let b := small_runtime "b" [9; 8; 7; 6] in
  exists rt n', @ShardRuntime_load ascii_hex checksum32 small_ipir small_server
      (@after_persists ascii_hex checksum32 small_server Enhance small_rlwe [(b, 1%nat); (a, 3%nat)])
      Enhance small_layout 0 0 "a" small_rlwe 5 = Ok (rt, n') /\
    rt_server rt = rt_server a /\ rt_crs_blocks rt = rt_crs_blocks a.
Proof.
  intros a b.
  destruct (@artifacts_crash_safe ascii_hex _ checksum32 _ small_ipir _ small_server _
    small_layout small_rlwe Enhance [(b, 1%nat); (a, 3%nat)] 5) as [_ H].
  - repeat constructor; apply small_runtime_built; reflexivity.
  - unfold digests_distinct. cbn [fmap list_fmap fst]. intros r1 r2 H1 H2.
    apply elem_of_cons in H1, H2.
    destruct H1 as [->|H1%list_elem_of_singleton]; [|subst r1];
    (destruct H2 as [->|H2%list_elem_of_singleton]; [|subst r2]);
    (split; [intros E|intros E]); try reflexivity; exfalso; vm_compute in E; discriminate.
  - destruct (H [(b, 1%nat)] a 3%nat eq_refl ltac:(lia)) as (rt & n' & Hl & Hs & Hc).
    exists rt, n'. split; [exact Hl|by split].
Defined.
