(* ===== verification/Worker.v ===== *)
(** * The PIR worker

    Models [server/enhance-pir-server/src/worker.rs]: the shard cache keyed by
    table, shard and row digest, preparation from rows or from cached artifacts,
    activation of a generation with eviction, evaluation, the hint of the newest
    runtime, and the HTTP handlers.  Each operation takes the whole state and
    returns it, and runs without another operation of the same worker in
    between: the coordinator issues the state-changing ones one at a time.
    Evaluations run concurrently, so [evaluate_local] takes how many others hold
    a slot.  The theorems: the cache always covers the retained generations, an
    evaluation returns the product of the active rows and the query, and
    preparing or activating other generations does not change it. *)

From Stdlib Require Import ZArith Lia.
From stdpp Require Import base numbers sorting countable strings gmap list.
From S2P Require Import Prelude Cursor FilterTypes Instances EnhanceTypes RecordJournal Wire Ipir.

Open Scope Z_scope.

(** ** Data *)

(** The geometry of each table.  The program's is [DatabaseId_layout]; the
    worker and the coordinator are modelled, and proved, for any. *)
Class Layouts := layout_of : DatabaseId -> DatabaseLayout.
Definition protocol_layouts : Layouts := DatabaseId_layout.

Definition RETAINED_GENERATIONS : nat := 8.
Definition DEFAULT_EVALUATION_SLOTS : Z := 2.

Definition DatabaseId_ALL : list DatabaseId := [Enhance].

#[export] Instance DatabaseId_countable : Countable DatabaseId.
Proof.
  refine (inj_countable' (fun d => match d with
      Enhance => 0%nat | TransparentSpendCold => 1%nat | TransparentSpendWarm => 2%nat end)
    (fun n => match n with
      0%nat => Enhance | 1%nat => TransparentSpendCold | _ => TransparentSpendWarm end) _).
  by intros [].
Defined.

(** A [BTreeMap] keyed by table: its iteration order is that of the
    constructors. *)
Abbreviation table_map := (gmap DatabaseId).
Definition table_iter {A} (m : table_map A) : list (DatabaseId * A) :=
  omap (fun d => (fun a => (d, a)) <$> m !! d)
    [Enhance; TransparentSpendCold; TransparentSpendWarm].

(** [ShardKey]: table, shard id, row digest. *)
Abbreviation ShardKey := (DatabaseId * Z * string)%type.

Record ActivateShard := { as_shard_id : Z; as_rows_sha256 : string }.

#[export] Instance ActivateShard_eq_dec : EqDecision ActivateShard.
Proof. solve_decision. Defined.

Record ActivateRequest := {
  ar_generation : Z; ar_tables : table_map (list ActivateShard) }.

Record ActiveGeneration := {
  ag_generation : Z; ag_tables : table_map (list ActivateShard) }.

Definition ActiveGeneration_shard_ids (g : ActiveGeneration) (table : DatabaseId) :
    option (list Z) :=
  option_map (fun shards : list ActivateShard => as_shard_id <$> shards) (ag_tables g !! table).

(** [prepared_at] counters are process-wide; a worker process has one. *)
Record WorkerState `{IpirServer} := {
  ws_rlwe : table_map RlweParams;
  ws_shards : gmap ShardKey ShardRuntime;
  ws_active : gmap Z ActiveGeneration;
  ws_artifacts : artifacts;
  ws_evaluation_slots : Z;
  ws_counter : Z }.

(** ** Sorting *)

Definition shard_le (a b : ActivateShard) : Prop := as_shard_id a <= as_shard_id b.
#[export] Instance shard_le_dec : RelDecision shard_le.
Proof. intros a b. unfold shard_le. apply _. Defined.

(** [sort_by_key]; the order of equal keys does not matter, since [activate_local]
    then refuses two shards with one identifier. *)
Definition sort_shards (shards : list ActivateShard) : list ActivateShard :=
  merge_sort shard_le shards.

Fixpoint adjacent_equal (ids : list Z) : bool :=
  match ids with
  | a :: (b :: _) as rest => (a =? b) || adjacent_equal rest
  | _ => false
  end.

(** ** WorkerState *)

Section worker.
Context {layouts : Layouts} `{Hex} `{Sha256} `{Ipir} `{IpirServer}.

Definition with_shards (w : WorkerState) (shards : gmap ShardKey ShardRuntime) : WorkerState :=
  {| ws_rlwe := ws_rlwe w; ws_shards := shards; ws_active := ws_active w;
     ws_artifacts := ws_artifacts w; ws_evaluation_slots := ws_evaluation_slots w;
     ws_counter := ws_counter w |}.

(** What a load or build leaves behind: artifacts and the counter. *)
Definition with_store (w : WorkerState) (a : artifacts) (counter : Z) : WorkerState :=
  {| ws_rlwe := ws_rlwe w; ws_shards := ws_shards w; ws_active := ws_active w;
     ws_artifacts := a; ws_evaluation_slots := ws_evaluation_slots w; ws_counter := counter |}.

Definition with_active (w : WorkerState) (active : gmap Z ActiveGeneration) : WorkerState :=
  {| ws_rlwe := ws_rlwe w; ws_shards := ws_shards w; ws_active := active;
     ws_artifacts := ws_artifacts w; ws_evaluation_slots := ws_evaluation_slots w;
     ws_counter := ws_counter w |}.

Fixpoint rlwe_of_tables (tables : list DatabaseId) : result InspiringError (table_map RlweParams) :=
  match tables with
  | [] => Ok ∅
  | table :: tables =>
      let? (params, _) := shard_parameters (layout_of table) in
      let? rlwe := rlwe_of_tables tables in
      Ok (<[table := params]> rlwe)
  end.

Definition WorkerState_with_evaluation_slots (artifact_dir : artifacts) (counter : Z)
    (evaluation_slots : Z) : result InspiringError WorkerState :=
  let? rlwe := rlwe_of_tables DatabaseId_ALL in
  Ok {| ws_rlwe := rlwe; ws_shards := ∅; ws_active := ∅; ws_artifacts := artifact_dir;
        ws_evaluation_slots := Z.max evaluation_slots 1; ws_counter := counter |}.

Definition WorkerState_new (artifact_dir : artifacts) (counter : Z) :
    result InspiringError WorkerState :=
  WorkerState_with_evaluation_slots artifact_dir counter DEFAULT_EVALUATION_SLOTS.

(** [rlwe(table)] panics for a table outside [DatabaseId::ALL]; the request then
    fails without a reply and the state is as it was. *)
Definition worker_rlwe (w : WorkerState) (table : DatabaseId) : result string RlweParams :=
  ok_or (ws_rlwe w !! table) "every table has parameters"%string.

(** The early exit both preparations share. *)
Definition already_prepared (w : WorkerState) (key : ShardKey) (query_row_start : Z) : bool :=
  match ws_shards w !! key with
  | Some existing => rt_query_row_start existing =? query_row_start
  | None => false
  end.

Definition prepare_local (w : WorkerState) (table : DatabaseId)
    (shard_id query_row_start logical_rows : Z) (rows_sha256 : string) (rows : list Z)
    (done_ : nat) : result string bool * WorkerState :=
  if negb (bool_decide (RecordJournal_rows_digest rows = rows_sha256))
  then (Err "row digest mismatch"%string, w) else
  let key : ShardKey := (table, shard_id, rows_sha256) in
  if already_prepared w key query_row_start then (Ok false, w) else
  let layout := layout_of table in
  match worker_rlwe w table with
  | Err e => (Err e, w)
  | Ok rlwe =>
      match global_parameters logical_rows layout with
      | Err e => (Err (InspiringError_to_string e), w)
      | Ok (global_rlwe, global_params) =>
          if negb (rlwe_d global_rlwe =? rlwe_d rlwe) || negb (rlwe_q global_rlwe =? rlwe_q rlwe)
          then (Err "global and worker RLWE parameters differ"%string, w) else
          let setup := generate_setup global_params (DatabaseId_setup_seed_bytes table) in
          let '(r, root, counter) :=
            ShardRuntime_load_or_build (ws_artifacts w) table layout shard_id query_row_start
              rows_sha256 rows rlwe setup (ws_counter w) done_ in
          let w := with_store w root counter in
          match r with
          | Err e => (Err e, w)
          | Ok (runtime, built) => (Ok built, with_shards w (<[key := runtime]> (ws_shards w)))
          end
      end
  end.

Definition ensure_local (w : WorkerState) (table : DatabaseId) (shard_id query_row_start : Z)
    (rows_sha256 : string) : result string unit * WorkerState :=
  let key : ShardKey := (table, shard_id, rows_sha256) in
  if already_prepared w key query_row_start then (Ok tt, w) else
  let layout := layout_of table in
  match worker_rlwe w table with
  | Err e => (Err e, w)
  | Ok rlwe =>
      match ShardRuntime_load_cached (ws_artifacts w) table layout shard_id query_row_start
              rows_sha256 rlwe (ws_counter w) with
      | Err e => (Err e, w)
      | Ok (runtime, counter) =>
          let w := with_store w (ws_artifacts w) counter in
          (Ok tt, with_shards w (<[key := runtime]> (ws_shards w)))
      end
  end.

(** One table of an activation request: sorted, free of duplicates, prepared. *)
Definition check_assignment (w : WorkerState) (table : DatabaseId) (shards : list ActivateShard) :
    result string (list ActivateShard) :=
  let shards := sort_shards shards in
  if adjacent_equal (as_shard_id <$> shards) then Err "duplicate active shard in {table}"%string
  else if forallb (fun shard =>
      bool_decide (is_Some (ws_shards w !! (table, as_shard_id shard, as_rows_sha256 shard)))) shards
  then Ok shards
  else Err "{table} shard {} with digest {} is not prepared"%string.

Fixpoint check_assignments (w : WorkerState) (tables : list (DatabaseId * list ActivateShard)) :
    result string (table_map (list ActivateShard)) :=
  match tables with
  | [] => Ok ∅
  | (table, shards) :: tables =>
      let? shards := check_assignment w table shards in
      let? rest := check_assignments w tables in
      Ok (if bool_decide (shards = []) then rest else <[table := shards]> rest)
  end.

Definition oldest_generation (active : gmap Z ActiveGeneration) : option Z :=
  match (map_to_list active).*1 with
  | [] => None
  | k :: ks => Some (foldr Z.min k ks)
  end.

(** [while active.len() > RETAINED_GENERATIONS]: each round removes a key, so
    the number of entries is enough rounds. *)
Fixpoint evict_generations (fuel : nat) (active : gmap Z ActiveGeneration) :
    gmap Z ActiveGeneration :=
  match fuel with
  | O => active
  | S fuel =>
      if (RETAINED_GENERATIONS <? size active)%nat then
        match oldest_generation active with
        | Some oldest => evict_generations fuel (delete oldest active)
        | None => active
        end
      else active
  end.

(** Whether a retained generation references the key. *)
Definition references (g : ActiveGeneration) (key : ShardKey) : bool :=
  let '(table, shard_id, digest) := key in
  match ag_tables g !! table with
  | Some shards =>
      existsb (fun s => (as_shard_id s =? shard_id) && bool_decide (as_rows_sha256 s = digest)) shards
  | None => false
  end.

Definition referenced (active : gmap Z ActiveGeneration) (key : ShardKey) : Prop :=
  Exists (fun g => references g key = true) (map_to_list active).*2.
#[export] Instance referenced_dec active key : Decision (referenced active key).
Proof. unfold referenced. apply _. Defined.

Definition activate_local (w : WorkerState) (request : ActivateRequest) :
    result string unit * WorkerState :=
  if forallb (fun '(_, shards) => bool_decide (shards = [])) (table_iter (ar_tables request))
  then (Err "an active generation needs at least one shard"%string, w) else
  match check_assignments w (table_iter (ar_tables request)) with
  | Err e => (Err e, w)
  | Ok tables =>
      let active := ws_active w in
      let merged :=
        match active !! ar_generation request with
        | Some existing =>
            {| ag_generation := ag_generation existing; ag_tables := tables ∪ ag_tables existing |}
        | None => {| ag_generation := ar_generation request; ag_tables := tables |}
        end in
      let active := <[ar_generation request := merged]> active in
      let active := evict_generations (size active) active in
      let w := with_active w active in
      (Ok tt, with_shards w
         (filter (fun '(key, _) => referenced active key) (ws_shards w)))
  end.

(** The loop of [evaluate_local] over the requested shards. *)
Fixpoint evaluate_shards (w : WorkerState) (table : DatabaseId) (assignment : list ActivateShard)
    (rlwe : RlweParams) (shards : list ShardQuery) (combined : list Z) : result string (list Z) :=
  match shards with
  | [] => Ok combined
  | shard_query :: shards =>
      let? shard := ok_or (List.find (fun s => as_shard_id s =? sq_shard_id shard_query) assignment)
        "assignment covers requested ids"%string in
      let? runtime :=
        ok_or (ws_shards w !! (table, sq_shard_id shard_query, as_rows_sha256 shard))
          "active shard disappeared"%string in
      let? partial := map_err InspiringError_to_string
        (ShardRuntime_evaluate runtime rlwe (sq_coefficients shard_query)) in
      match add_intermediate_assign_mod combined partial (rlwe_q rlwe) with
      | (_, Err e) => Err (InspiringError_to_string e)
      | (combined, Ok _) => evaluate_shards w table assignment rlwe shards combined
      end
  end.

Definition evaluate_local (w : WorkerState) (in_flight : Z) (table : DatabaseId)
    (request : EvaluateRequest) : result string (list Z) :=
  if ws_evaluation_slots w <=? in_flight then Err "worker is at its evaluation limit"%string else
  let? active := ok_or (ws_active w !! er_generation request) "generation mismatch"%string in
  let? assignment := ok_or (ag_tables active !! table)
    "generation has no {table} shards on this worker"%string in
  let requested_ids := merge_sort Z.le (sq_shard_id <$> er_shards request) in
  if negb (bool_decide (Some requested_ids = ActiveGeneration_shard_ids active table))
  then Err "request does not cover the complete active shard assignment"%string else
  let? rlwe := worker_rlwe w table in
  let? (_, params) := map_err InspiringError_to_string (shard_parameters (layout_of table)) in
  evaluate_shards w table assignment rlwe (er_shards request)
    (replicate (Z.to_nat (db_cols params)) 0).

(** [max_by_key(prepared_at)]: the last of the largest. *)
Definition newer (best : option ShardRuntime) (rt : ShardRuntime) : option ShardRuntime :=
  match best with
  | Some b => if rt_prepared_at rt <? rt_prepared_at b then Some b else Some rt
  | None => Some rt
  end.

Definition newest_runtime (w : WorkerState) (table : DatabaseId) (shard_id : Z) :
    option ShardRuntime :=
  foldl newer None
    (snd <$> filter (fun '((t, id, _), _) => t = table /\ id = shard_id)
       (map_to_list (ws_shards w))).

Definition crs_local (w : WorkerState) (table : DatabaseId) (shard_id : Z) :
    result string (list Z) :=
  let? runtime := ok_or (newest_runtime w table shard_id) "shard is not prepared"%string in
  Ok (encode_crs_blocks (rt_crs_blocks runtime)).

Definition cached_shard_count (w : WorkerState) : nat := size (ws_shards w).

(** ** HTTP handlers *)

Inductive WorkerCall :=
| WC_Prepare (table : string) (shard_id query_row_start logical_rows : Z) (rows_sha256 : string)
    (body : list Z)
| WC_Load (table : string) (shard_id query_row_start : Z) (rows_sha256 : string)
| WC_Hint (table : string) (shard_id : Z)
| WC_Evaluate (table : string) (body : list Z)
| WC_Activate (request : ActivateRequest).

(** Status and body; the JSON of a [PrepareResponse] is left out, no caller
    reads it. *)
Definition WorkerReply : Type := Z * list Z.

Definition max_shard_bytes : Z :=
  foldr Z.max 0 ((fun table => DatabaseLayout_shard_bytes (layout_of table)) <$> DatabaseId_ALL).

Definition parse_table (name : string) : result Z DatabaseId :=
  map_err (fun _ => 404) (DatabaseId_from_str name).

(** A panic of the handler closes the connection without a reply. *)
Definition reply_error (e : string) (status : Z) : option WorkerReply :=
  if bool_decide (e = "every table has parameters"%string) then None else Some (status, []).

Definition on_table (name : string) (w : WorkerState)
    (k : DatabaseId -> option WorkerReply * WorkerState) : option WorkerReply * WorkerState :=
  match parse_table name with
  | Err status => (Some (status, []), w)
  | Ok table => k table
  end.

Definition prepare_handler w name shard_id query_row_start logical_rows rows_sha256 body done_ :=
  on_table name w (fun table =>
    match prepare_local w table shard_id query_row_start logical_rows rows_sha256 body done_ with
    | (Ok _, w) => (Some (200, []), w)
    | (Err e, w) => (reply_error e 400, w)
    end).

Definition load_handler w name shard_id query_row_start rows_sha256 :=
  on_table name w (fun table =>
    match ensure_local w table shard_id query_row_start rows_sha256 with
    | (Ok _, w) => (Some (204, []), w)
    | (Err e, w) => (reply_error e 409, w)
    end).

Definition activate_handler w request : option WorkerReply * WorkerState :=
  match activate_local w request with
  | (Ok _, w) => (Some (204, []), w)
  | (Err _, w) => (Some (409, []), w)
  end.

Definition hint_handler w name shard_id :=
  on_table name w (fun table =>
    match crs_local w table shard_id with
    | Ok bytes => (Some (200, bytes), w)
    | Err _ => (Some (404, []), w)
    end).

Definition evaluate_handler w in_flight name body :=
  on_table name w (fun table =>
    match decode_evaluate_request body with
    | Err _ => (Some (400, []), w)
    | Ok request =>
        match evaluate_local w in_flight table request with
        | Ok coefficients =>
            (Some (200, encode_evaluate_response (er_generation request) coefficients), w)
        | Err e => (reply_error e 503, w)
        end
    end).

(** The router: bodies above the limit are refused before a handler runs. *)
Definition worker_router (w : WorkerState) (call : WorkerCall) (in_flight : Z) (done_ : nat) :
    option WorkerReply * WorkerState :=
  let over_limit (body : list Z) := max_shard_bytes + 1024 * 1024 <? zlen body in
  match call with
  | WC_Prepare table shard_id start rows digest body =>
      if over_limit body then (Some (413, []), w)
      else prepare_handler w table shard_id start rows digest body done_
  | WC_Load table shard_id start digest => load_handler w table shard_id start digest
  | WC_Hint table shard_id => hint_handler w table shard_id
  | WC_Evaluate table body =>
      if over_limit body then (Some (413, []), w) else evaluate_handler w in_flight table body
  | WC_Activate request => activate_handler w request
  end.
End worker.

(** ** Small facts *)

Lemma adjacent_equal_NoDup l :
  Sorted Z.le l -> adjacent_equal l = false -> NoDup l.
Proof.
  intros Hs Ha. apply Sorted_StronglySorted in Hs; [|intros x y z; lia].
  assert (StronglySorted Z.lt l) as Hlt.
  { induction Hs as [|a l Hs IH Hall]; [constructor|].
    destruct l as [|b l]; [by repeat constructor|].
    cbn [adjacent_equal] in Ha. bool_prop. specialize (IH ltac:(assumption)).
    constructor; [done|]. inversion Hall as [|? ? Hab]; subst.
    inversion IH as [|? ? _ Hb]; subst. constructor; [lia|].
    rewrite Forall_forall in Hb |- *. intros x Hx. specialize (Hb x Hx). lia. }
  clear Hs Ha. induction Hlt as [|a l _ IH Hall]; constructor; [|done].
  intros Hin. rewrite Forall_forall in Hall. specialize (Hall a Hin). lia.
Qed.

#[export] Instance shard_le_trans : Transitive shard_le.
Proof. intros a b c. unfold shard_le. lia. Qed.
#[export] Instance shard_le_total : Total shard_le.
Proof. intros a b. unfold shard_le. lia. Qed.

Lemma sort_shards_sorted l : Sorted Z.le (as_shard_id <$> sort_shards l).
Proof.
  assert (Sorted shard_le (sort_shards l)) as Hs by apply Sorted_merge_sort, _.
  induction Hs as [|a k Hs IH Hd]; [constructor|]. cbn [fmap list_fmap]. constructor; [done|].
  destruct Hd; constructor. done.
Qed.

Lemma table_iter_elem {A} (m : table_map A) t a : (t, a) ∈ table_iter m <-> m !! t = Some a.
Proof.
  unfold table_iter. rewrite list_elem_of_omap. split.
  - intros (d & _ & Hd). destruct (m !! d) eqn:E; simpl in Hd; by simplify_eq.
  - intros Hm. exists t. split; [destruct t; set_solver|]. by rewrite Hm.
Qed.

Lemma min_in k ks : foldr Z.min k ks ∈ k :: ks.
Proof.
  induction ks as [|x ks IH]; [set_solver|]. cbn [foldr].
  destruct (Z.min_dec x (foldr Z.min k ks)) as [->| ->]; set_solver.
Qed.

Lemma min_le k ks x : x ∈ k :: ks -> foldr Z.min k ks <= x.
Proof.
  induction ks as [|y ks IH]; cbn [foldr]; intros Hx.
  - apply list_elem_of_singleton in Hx. lia.
  - apply elem_of_cons in Hx as [->|Hx]; [|apply elem_of_cons in Hx as [->|Hx]].
    + assert (foldr Z.min k ks <= k) by (apply IH; set_solver). lia.
    + lia.
    + assert (foldr Z.min k ks <= x) by (apply IH; set_solver). lia.
Qed.

Lemma oldest_spec (active : gmap Z ActiveGeneration) o :
  oldest_generation active = Some o ->
  is_Some (active !! o) /\ forall k, is_Some (active !! k) -> o <= k.
Proof.
  unfold oldest_generation. destruct (map_to_list active).*1 as [|k ks] eqn:E; [done|].
  intros [= <-].
  assert (forall x, x ∈ k :: ks <-> is_Some (active !! x)) as Hx.
  { intros x. rewrite <- E, list_elem_of_fmap. split.
    - intros ([k' v] & -> & Hv%elem_of_map_to_list). by eexists.
    - intros [v Hv]. exists (x, v). by rewrite elem_of_map_to_list. }
  split; [apply Hx, min_in|]. intros x Hs. by apply min_le, Hx.
Qed.

Lemma oldest_exists (active : gmap Z ActiveGeneration) :
  (0 < size active)%nat -> exists o, oldest_generation active = Some o.
Proof.
  intros Hs. unfold oldest_generation.
  destruct (map_to_list active).*1 as [|k ks] eqn:E; [|eauto].
  apply (f_equal length) in E. rewrite length_fmap, length_map_to_list in E. simpl in E. lia.
Qed.

(** Eviction leaves at most eight generations, drops the oldest first, and
    changes nothing else. *)
Lemma evict_spec fuel active :
  (size active <= RETAINED_GENERATIONS + fuel)%nat ->
  let left_ := evict_generations fuel active in
  (size left_ <= RETAINED_GENERATIONS)%nat /\ left_ ⊆ active /\
  (forall k j, is_Some (active !! k) -> left_ !! k = None -> is_Some (left_ !! j) -> k < j) /\
  ((0 < size active)%nat -> (0 < size left_)%nat).
Proof.
  revert active. induction fuel as [|fuel IH]; intros active Hs left_; unfold left_.
  - cbn [evict_generations]. split_and!; [lia|done|intros k j [v Hk] Hn; congruence|done].
  - cbn [evict_generations]. destruct (_ <? _)%nat eqn:E.
    2:{ apply Nat.ltb_ge in E. split_and!; [lia|done|intros k j [v Hk] Hn; congruence|done]. }
    apply Nat.ltb_lt in E. destruct (oldest_exists active) as [o Ho]; [lia|]. rewrite Ho.
    destruct (oldest_spec _ _ Ho) as [[v Hv] Hmin].
    assert (size (delete o active) = size active - 1)%nat as Hsz.
    { pose proof (map_size_delete_Some o active (mk_is_Some _ _ Hv)). lia. }
    destruct (IH (delete o active)) as (H1 & H2 & H3 & H4); [lia|].
    split_and!; [done| | |].
    + etransitivity; [exact H2|]. apply delete_subseteq.
    + intros k j Hk Hn Hj. destruct (decide (k = o)) as [->|Hne].
      * assert (j <> o).
        { intros ->. destruct Hj as [x Hj]. by rewrite Hn in Hj. }
        assert (is_Some (active !! j)) as Hja.
        { destruct Hj as [x Hj]. eapply lookup_weaken in Hj; [|exact H2].
          rewrite lookup_delete_ne in Hj by done. by eexists. }
        specialize (Hmin j Hja). lia.
      * apply H3; [|done|done]. by rewrite lookup_delete_ne.
    + intros _. apply H4. unfold RETAINED_GENERATIONS in *. lia.
Qed.

(** ** The invariant *)

Class LayoutsFit `{Layouts} `{Ipir} := layouts_fit table rlwe p :
  shard_parameters (layout_of table) = Ok (rlwe, p) -> layout_fits (layout_of table) rlwe p.

Section worker_laws.
Context {layouts : Layouts} {hex : Hex} {hex_laws : HexLaws hex} {sha : Sha256}
  {sha_laws : Sha256Laws sha} `{IpirParamsLaws} `{IpirServerLaws} {fits_ : LayoutsFit}.

(** The byte strings this worker ever hashes, no two of which collide. *)
Context (hashed : list Z -> Prop)
  (hashed_inj : forall a b, hashed a -> hashed b -> sha256 a = sha256 b -> a = b).

(** A runtime that holds the rows its digest names. *)
Definition good (table : DatabaseId) (rlwe : RlweParams) (rt : ShardRuntime) : Prop :=
  exists p rows, shard_parameters (layout_of table) = Ok (rlwe, p) /\
    holds_rows (layout_of table) p rows rt /\ hashed rows /\
    RecordJournal_rows_digest rows = rt_rows_sha256 rt /\
    built_for (layout_of table) rlwe rt /\ hashed (database_bytes rt) /\
    hashed (encode_crs_blocks (rt_crs_blocks rt)).

Definition assignment_ok (w : WorkerState) (table : DatabaseId) (shards : list ActivateShard) :
    Prop :=
  shards <> [] /\ Sorted Z.le (as_shard_id <$> shards) /\ NoDup (as_shard_id <$> shards) /\
  Forall (fun s => is_Some (ws_shards w !! (table, as_shard_id s, as_rows_sha256 s))) shards.

Record worker_inv (w : WorkerState) : Prop := {
  inv_rlwe t rlwe : ws_rlwe w !! t = Some rlwe ->
    exists p, shard_parameters (layout_of t) = Ok (rlwe, p);
  inv_cache t id digest rt : ws_shards w !! (t, id, digest) = Some rt ->
    exists rlwe, ws_rlwe w !! t = Some rlwe /\ good t rlwe rt /\ rt_rows_sha256 rt = digest;
  inv_active g ag : ws_active w !! g = Some ag ->
    forall t shards, ag_tables ag !! t = Some shards -> assignment_ok w t shards;
  inv_size : (size (ws_active w) <= RETAINED_GENERATIONS)%nat;
  inv_artifacts t id d : ws_artifacts w !! shard_artifact_dir t id = Some d ->
    exists rlwe history, ws_rlwe w !! t = Some rlwe /\
      d = after_persists t rlwe history /\ Forall (good t rlwe) history.*1 }.

(** The operations that change a worker, and the bytes they hash. *)
Inductive worker_op :=
| OpPrepare (t : DatabaseId) (id start logical : Z) (digest : string) (rows : list Z) (k : nat)
| OpEnsure (t : DatabaseId) (id start : Z) (digest : string)
| OpActivate (request : ActivateRequest).

Definition run_worker (w : WorkerState) (op : worker_op) : WorkerState :=
  match op with
  | OpPrepare t id start logical digest rows k =>
      snd (prepare_local w t id start logical digest rows k)
  | OpEnsure t id start digest => snd (ensure_local w t id start digest)
  | OpActivate request => snd (activate_local w request)
  end.

Definition op_hashed (op : worker_op) : Prop :=
  match op with
  | OpPrepare t id start logical digest rows k =>
      hashed rows /\ 0 <= start /\
      forall rlwe p setup n rt n',
        shard_parameters (layout_of t) = Ok (rlwe, p) ->
        ShardRuntime_build (layout_of t) id start digest rows rlwe setup n = Ok (rt, n') ->
        hashed (database_bytes rt) /\ hashed (encode_crs_blocks (rt_crs_blocks rt))
  | _ => True
  end.

Definition op_generation (op : worker_op) : option Z :=
  match op with OpActivate request => Some (ar_generation request) | _ => None end.

(** ** Artifacts *)

Lemma good_digests history t rlwe :
  Forall (good t rlwe) history -> digests_distinct history.
Proof.
  intros Hg r1 r2 Hr1 Hr2. rewrite Forall_forall in Hg.
  destruct (Hg _ Hr1) as (? & ? & _ & _ & _ & _ & _ & Hd1 & Hc1).
  destruct (Hg _ Hr2) as (? & ? & _ & _ & _ & _ & _ & Hd2 & Hc2).
  split; intros; by apply hashed_inj.
Qed.

Lemma good_built_for t rlwe rt : good t rlwe rt -> built_for (layout_of t) rlwe rt.
Proof. by intros (p & rows & _ & _ & _ & _ & Hb & _). Qed.

Lemma good_loaded t rlwe history id start digest n rt n' :
  Forall (good t rlwe) history.*1 ->
  ShardRuntime_load (after_persists t rlwe history) t (layout_of t) id start digest rlwe n =
    Ok (rt, n') ->
  good t rlwe rt /\ rt_rows_sha256 rt = digest.
Proof.
  intros Hg Hl. destruct (load_ids _ _ _ _ _ _ _ _ _ _ Hl) as (_ & _ & Hdig).
  destruct (load_after_persists _ _ _ _ _ _ _ _ _ _ (Forall_impl _ _ _ Hg (good_built_for t rlwe))
    (good_digests _ _ _ Hg) Hl) as (r & Hr & Hs & Hc & _ & _ & Hrd).
  rewrite Forall_forall in Hg. split; [|done].
  destruct (Hg r Hr) as (p & rows & Hp & Hrows & Hh & Hd & Hb & Hdb & Hcrs).
  exists p, rows. unfold holds_rows, built_for, database_bytes in *.
  rewrite Hs, Hc, Hdig, <- Hrd. by split_and!.
Qed.

(** The directory of a shard, absent or not. *)
Lemma directory_from w t id rlwe :
  worker_inv w -> ws_rlwe w !! t = Some rlwe ->
  exists history, default no_files (ws_artifacts w !! shard_artifact_dir t id) =
    after_persists t rlwe history /\ Forall (good t rlwe) history.*1.
Proof.
  intros Hi Hr. destruct (ws_artifacts w !! _) as [d|] eqn:E.
  - destruct (inv_artifacts w Hi _ _ _ E) as (rlwe' & h & Hr' & -> & Hg).
    rewrite Hr in Hr'. simplify_eq. by exists h.
  - exists []. by split; [|constructor].
Qed.

Lemma good_built t rlwe p id start digest rows setup n rt n' :
  shard_parameters (layout_of t) = Ok (rlwe, p) -> hashed rows -> 0 <= start ->
  RecordJournal_rows_digest rows = digest ->
  ShardRuntime_build (layout_of t) id start digest rows rlwe setup n = Ok (rt, n') ->
  hashed (database_bytes rt) -> hashed (encode_crs_blocks (rt_crs_blocks rt)) ->
  good t rlwe rt /\ rt_rows_sha256 rt = digest.
Proof.
  intros Hp Hh Hst Hd Hb Hdb Hc. pose proof (layouts_fit _ _ _ Hp) as Hf.
  destruct (build_holds_rows _ _ _ _ _ _ _ _ _ _ _ _ Hp Hf Hb)
    as (Hr & _ & _ & Hdig & _). split; [|done].
  exists p, rows. split_and!; try done; [congruence|]. by eapply build_built_for.
Qed.

Lemma as_str_inj t t' : DatabaseId_as_str t = DatabaseId_as_str t' -> t = t'.
Proof. by destruct t, t'. Qed.

(** [load_or_build] returns a good runtime and keeps the directories good. *)
Lemma load_or_build_good w t rlwe p id start digest rows setup k :
  worker_inv w -> ws_rlwe w !! t = Some rlwe ->
  shard_parameters (layout_of t) = Ok (rlwe, p) -> hashed rows -> 0 <= start ->
  RecordJournal_rows_digest rows = digest ->
  (forall rlwe p setup n rt n',
     shard_parameters (layout_of t) = Ok (rlwe, p) ->
     ShardRuntime_build (layout_of t) id start digest rows rlwe setup n = Ok (rt, n') ->
     hashed (database_bytes rt) /\ hashed (encode_crs_blocks (rt_crs_blocks rt))) ->
  let '(r, root, _) := ShardRuntime_load_or_build (ws_artifacts w) t (layout_of t) id start digest
    rows rlwe setup (ws_counter w) k in
  (forall rt b, r = Ok (rt, b) -> good t rlwe rt /\ rt_rows_sha256 rt = digest) /\
  (forall t' id' d, root !! shard_artifact_dir t' id' = Some d ->
     exists rlwe' history, ws_rlwe w !! t' = Some rlwe' /\
       d = after_persists t' rlwe' history /\ Forall (good t' rlwe') history.*1).
Proof.
  intros Hi Hr Hp Hh Hst Hd Hb. unfold ShardRuntime_load_or_build.
  destruct (directory_from w t id rlwe Hi Hr) as (h & -> & Hg).
  destruct (ShardRuntime_load _ _ _ _ _ _ _ _) as [[rt n]|e] eqn:El.
  { split; [|apply (inv_artifacts w Hi)]. intros rt' b [= <- _]. by eapply good_loaded. }
  destruct (ShardRuntime_build _ _ _ _ _ _ _ _) as [[rt n]|e'] eqn:Eb;
    [|split; [done|apply (inv_artifacts w Hi)]].
  destruct (Hb _ _ _ _ _ _ Hp Eb) as [Hdb Hc].
  destruct (good_built t rlwe p id start digest rows _ _ _ _ Hp Hh Hst Hd Eb Hdb Hc) as [Hgood Hdig].
  unfold ShardRuntime_persist.
  assert (forall t' id' d, <[shard_artifact_dir t id :=
      foldl write_atomic (after_persists t rlwe h) (take k (persist_writes rt t rlwe))]>
      (ws_artifacts w) !! shard_artifact_dir t' id' = Some d ->
     exists rlwe' history, ws_rlwe w !! t' = Some rlwe' /\
       d = after_persists t' rlwe' history /\ Forall (good t' rlwe') history.*1) as Hroot.
  { intros t' id' d. unfold shard_artifact_dir. destruct (decide ((t, id) = (t', id'))) as [E|E].
    - simplify_eq. rewrite lookup_insert_eq. intros [= <-]. exists rlwe, (h ++ [(rt, k)]).
      split; [done|]. split; [unfold after_persists; by rewrite foldl_app|].
      rewrite fmap_app. apply Forall_app. split; [done|]. by repeat constructor.
    - rewrite lookup_insert_ne; [apply (inv_artifacts w Hi)|].
      intros [= Ht Hid]. apply as_str_inj in Ht. congruence. }
  destruct (k <? 3)%nat; (split; [|exact Hroot]); [done|]. by intros rt' b [= <- _].
Qed.

(** ** Preservation *)

Lemma assignment_weaken w w' t shards :
  (forall key, is_Some (ws_shards w !! key) -> is_Some (ws_shards w' !! key)) ->
  assignment_ok w t shards -> assignment_ok w' t shards.
Proof.
  intros Hk (Hne & Hso & Hnd & Hall). split_and!; [done|done|done|].
  eapply Forall_impl; [exact Hall|]. intros a Ha. by apply Hk.
Qed.

(** Adding a good runtime to the cache. *)
Lemma insert_inv w t id digest rlwe rt root counter :
  worker_inv w -> ws_rlwe w !! t = Some rlwe -> good t rlwe rt -> rt_rows_sha256 rt = digest ->
  (forall t' id' d, root !! shard_artifact_dir t' id' = Some d ->
     exists rlwe' history, ws_rlwe w !! t' = Some rlwe' /\
       d = after_persists t' rlwe' history /\ Forall (good t' rlwe') history.*1) ->
  worker_inv (with_shards (with_store w root counter)
    (<[(t, id, digest) := rt]> (ws_shards w))).
Proof.
  intros Hi Hr Hg Hd Hroot. constructor; cbn.
  - apply (inv_rlwe w Hi).
  - intros t' id' digest' rt'. rewrite lookup_insert. case_decide as E.
    + intros [= <-]. simplify_eq. eauto.
    + apply (inv_cache w Hi).
  - intros g ag Ha t' shards Ht. eapply assignment_weaken;
      [|eapply (inv_active w Hi); [exact Ha|exact Ht]].
    intros key Hk. cbn. rewrite lookup_insert. case_decide; [by eexists|done].
  - apply (inv_size w Hi).
  - exact Hroot.
Qed.

Lemma store_inv w root counter :
  worker_inv w ->
  (forall t' id' d, root !! shard_artifact_dir t' id' = Some d ->
     exists rlwe' history, ws_rlwe w !! t' = Some rlwe' /\
       d = after_persists t' rlwe' history /\ Forall (good t' rlwe') history.*1) ->
  worker_inv (with_store w root counter).
Proof. intros [] Hroot. by constructor. Qed.

Lemma prepare_inv w t id start logical digest rows k :
  worker_inv w -> hashed rows -> 0 <= start ->
  (forall rlwe p setup n rt n',
     shard_parameters (layout_of t) = Ok (rlwe, p) ->
     ShardRuntime_build (layout_of t) id start digest rows rlwe setup n = Ok (rt, n') ->
     hashed (database_bytes rt) /\ hashed (encode_crs_blocks (rt_crs_blocks rt))) ->
  worker_inv (snd (prepare_local w t id start logical digest rows k)).
Proof.
  intros Hi Hh Hst Hb. unfold prepare_local.
  case_bool_decide as Ed; [|done]. cbn [negb].
  destruct (already_prepared _ _ _); [done|].
  unfold worker_rlwe. destruct (ws_rlwe w !! t) as [rlwe|] eqn:Er; [|done]. cbn [ok_or].
  destruct (global_parameters _ _) as [[grlwe gp]|]; [|done].
  destruct (_ || _); [done|].
  destruct (inv_rlwe w Hi _ _ Er) as [p Hp].
  pose proof (load_or_build_good w t rlwe p id start digest rows
    (generate_setup gp (DatabaseId_setup_seed_bytes t)) k Hi Er Hp Hh Hst Ed Hb) as Hlb.
  destruct (ShardRuntime_load_or_build _ _ _ _ _ _ _ _ _ _ _) as [[[[rt b]|e] root] counter].
  - destruct Hlb as [Hgood Hroot]. destruct (Hgood rt b eq_refl) as [Hg Hd].
    cbn [snd]. by apply (insert_inv w t id digest rlwe).
  - destruct Hlb as [_ Hroot]. by apply store_inv.
Qed.

Lemma ensure_inv w t id start digest :
  worker_inv w -> worker_inv (snd (ensure_local w t id start digest)).
Proof.
  intros Hi. unfold ensure_local. destruct (already_prepared _ _ _); [done|].
  unfold worker_rlwe. destruct (ws_rlwe w !! t) as [rlwe|] eqn:Er; [|done]. cbn [ok_or].
  destruct (ShardRuntime_load_cached _ _ _ _ _ _ _ _) as [[rt n]|] eqn:El; [|done].
  unfold ShardRuntime_load_cached in El.
  destruct (directory_from w t id rlwe Hi Er) as (h & Hdir & Hg). rewrite Hdir in El.
  destruct (good_loaded _ _ _ _ _ _ _ _ _ Hg El) as [Hgood Hd].
  cbn [snd]. apply (insert_inv w t id digest rlwe); try done. apply (inv_artifacts w Hi).
Qed.

Lemma check_assignments_ok w tables r :
  check_assignments w tables = Ok r ->
  forall t shards, r !! t = Some shards -> assignment_ok w t shards.
Proof.
  revert r. induction tables as [|[t shards] tables IH]; intros r Hr; cbn in Hr.
  - simplify_eq. intros t shards. by rewrite lookup_empty.
  - unfold check_assignment in Hr.
    destruct (adjacent_equal _) eqn:Ea; [done|]. destruct (forallb _ _) eqn:Ef; [|done].
    destruct (check_assignments w tables) as [rest|]; [|done]. specialize (IH rest eq_refl).
    case_bool_decide as En; simplify_eq; [exact IH|].
    intros t' shards'. rewrite lookup_insert. case_decide as Et; [|apply IH].
    intros [= <-]. subst t'. split_and!; [done|apply sort_shards_sorted| |].
    + apply adjacent_equal_NoDup; [apply sort_shards_sorted|done].
    + apply Is_true_true_2, forallb_True in Ef. eapply Forall_impl; [exact Ef|].
      intros a Ha. cbv beta in Ha. by apply bool_decide_unpack in Ha.
Qed.

Lemma references_spec g t s shards :
  ag_tables g !! t = Some shards -> s ∈ shards ->
  references g (t, as_shard_id s, as_rows_sha256 s) = true.
Proof.
  intros Ht Hs. unfold references. rewrite Ht. apply existsb_exists. exists s.
  split; [by apply list_elem_of_In|]. rewrite Z.eqb_refl, bool_decide_true by done. done.
Qed.

Lemma referenced_spec (active : gmap Z ActiveGeneration) g ag t s shards :
  active !! g = Some ag -> ag_tables ag !! t = Some shards -> s ∈ shards ->
  referenced active (t, as_shard_id s, as_rows_sha256 s).
Proof.
  intros Hg Ht Hs. apply Exists_exists. exists ag. split; [|by eapply references_spec].
  apply list_elem_of_fmap. exists (g, ag). split; [done|]. by apply elem_of_map_to_list.
Qed.

(** What an accepted activation does to the generations. *)
Lemma activate_active w request w' :
  activate_local w request = (Ok tt, w') ->
  exists tables merged,
    check_assignments w (table_iter (ar_tables request)) = Ok tables /\
    ag_tables merged =
      tables ∪ default ∅ (ag_tables <$> ws_active w !! ar_generation request) /\
    let grown := <[ar_generation request := merged]> (ws_active w) in
    ws_active w' = evict_generations (size grown) grown /\
    ws_shards w' = filter (fun '(key, _) => referenced (ws_active w') key) (ws_shards w) /\
    ws_rlwe w' = ws_rlwe w /\ ws_artifacts w' = ws_artifacts w.
Proof.
  unfold activate_local. destruct (forallb _ _); [done|].
  destruct (check_assignments _ _) as [tables|] eqn:Ec; [|done]. cbv zeta.
  intros [= <-]. cbn.
  destruct (ws_active w !! ar_generation request) as [ag|];
    (eexists _, _; split; [done|]; split; [|split_and!; done]);
    cbn; [done|by rewrite (right_id_L ∅ (∪))].
Qed.

Lemma activate_err w request e w' : activate_local w request = (Err e, w') -> w' = w.
Proof.
  unfold activate_local. destruct (forallb _ _); [by intros [= _ <-]|].
  destruct (check_assignments _ _); [done|by intros [= _ <-]].
Qed.

Lemma activate_inv w request w' r :
  worker_inv w -> activate_local w request = (r, w') -> worker_inv w'.
Proof.
  intros Hi Ha. destruct r as [[]|e]; [|by apply activate_err in Ha as ->].
  destruct (activate_active w request w' Ha)
    as (tables & merged & Hc & Hm & Hact & Hsh & Hrl & Har).
  set (grown := <[ar_generation request := merged]> (ws_active w)) in *.
  destruct (evict_spec (size grown) grown ltac:(lia)) as (Hsz & Hsub & _ & _).
  rewrite <- Hact in Hsz, Hsub.
  assert (forall g ag t shards, ws_active w' !! g = Some ag -> ag_tables ag !! t = Some shards ->
    assignment_ok w t shards) as Hold.
  { intros g ag t shards Hg Ht. eapply lookup_weaken in Hg; [|exact Hsub]. unfold grown in Hg.
    rewrite lookup_insert in Hg. case_decide as E; [|by eapply (inv_active w Hi)].
    injection Hg as <-. rewrite Hm in Ht. apply lookup_union_Some_raw in Ht as [Ht|[_ Ht]].
    - by eapply check_assignments_ok.
    - destruct (ws_active w !! ar_generation request) as [ag|] eqn:Eg; cbn in Ht.
      + by eapply (inv_active w Hi).
      + by rewrite lookup_empty in Ht. }
  constructor.
  - rewrite Hrl. apply (inv_rlwe w Hi).
  - intros t id digest rt. rewrite Hrl, Hsh, map_lookup_filter_Some. intros [Hk _].
    by eapply (inv_cache w Hi).
  - intros g ag Hg t shards Ht. destruct (Hold g ag t shards Hg Ht) as (Hne & Hso & Hnd & Hall).
    split_and!; [done|done|done|]. rewrite Forall_forall in Hall |- *. intros s Hs.
    destruct (Hall s Hs) as [rt Hrt]. exists rt. rewrite Hsh. apply map_lookup_filter_Some.
    split; [done|]. by eapply referenced_spec.
  - exact Hsz.
  - rewrite Hrl, Har. apply (inv_artifacts w Hi).
Qed.

Lemma run_inv w op : worker_inv w -> op_hashed op -> worker_inv (run_worker w op).
Proof.
  intros Hi Ho. destruct op; cbn in *.
  - destruct Ho as (? & ? & ?). by apply prepare_inv.
  - by apply ensure_inv.
  - destruct (activate_local w request) as [r w'] eqn:E. by eapply activate_inv.
Qed.

Lemma new_inv counter slots w :
  WorkerState_with_evaluation_slots ∅ counter slots = Ok w -> worker_inv w.
Proof.
  unfold WorkerState_with_evaluation_slots, DatabaseId_ALL. cbn [rlwe_of_tables].
  destruct (shard_parameters (layout_of Enhance)) as [[rlwe p]|] eqn:Ep; [|done].
  intros [= <-]. constructor; cbn.
  - intros t rlwe'. rewrite lookup_insert. case_decide as E; [|done].
    intros [= <-]. subst t. eauto.
  - done.
  - done.
  - unfold RETAINED_GENERATIONS. rewrite map_size_empty. lia.
  - done.
Qed.

(** States a worker started on an empty artifact directory can reach. *)
Definition worker_reachable (w : WorkerState) : Prop :=
  exists w0 counter slots ops, WorkerState_with_evaluation_slots ∅ counter slots = Ok w0 /\
    Forall op_hashed ops /\ w = foldl run_worker w0 ops.

Lemma runs_inv w ops : worker_inv w -> Forall op_hashed ops -> worker_inv (foldl run_worker w ops).
Proof.
  intros Hi Ho. revert w Hi. induction Ho as [|op ops Hop _ IH]; intros w Hi; [done|].
  cbn. by apply IH, run_inv.
Qed.

Lemma reachable_inv w : worker_reachable w -> worker_inv w.
Proof.
  intros (w0 & counter & slots & ops & Hn & Ho & ->). apply runs_inv; [|done]. by eapply new_inv.
Qed.

(** ** Evaluation *)

(** The partial answer for the rows [R id] of each requested shard. *)
Definition expected_partial (t : DatabaseId) (rlwe : RlweParams) (p : YpirSchemeParams)
    (R : Z -> list Z) (shards : list ShardQuery) : list Z :=
  vec_sum (rlwe_q rlwe) (Z.to_nat (db_cols p))
    ((fun s => matvec (rlwe_q rlwe) (Z.to_nat (db_cols p))
        (shard_matrix (layout_of t) p (R (sq_shard_id s))) (sq_coefficients s)) <$> shards).

(** The runtime of an active shard holds the rows its digest names. *)
Lemma active_runtime w t s shards rlwe p rows :
  worker_inv w -> assignment_ok w t shards -> s ∈ shards ->
  ws_rlwe w !! t = Some rlwe -> shard_parameters (layout_of t) = Ok (rlwe, p) ->
  hashed rows -> RecordJournal_rows_digest rows = as_rows_sha256 s ->
  exists rt, ws_shards w !! (t, as_shard_id s, as_rows_sha256 s) = Some rt /\
    holds_rows (layout_of t) p rows rt.
Proof.
  intros Hi (_ & _ & _ & Hall) Hs Hr Hp Hh Hd. rewrite Forall_forall in Hall.
  destruct (Hall s Hs) as [rt Hrt]. exists rt. split; [done|].
  destruct (inv_cache w Hi _ _ _ _ Hrt) as (rlwe' & Hr' & Hg & Hdig).
  destruct Hg as (p' & rows' & Hp' & Hrows & Hh' & Hd' & _).
  rewrite Hr in Hr'. injection Hr' as <-. rewrite Hp in Hp'. injection Hp' as <-.
  assert (rows' = rows) as ->; [|done].
  apply hashed_inj; [done|done|]. apply hex_sha_inj.
  unfold RecordJournal_rows_digest in *. congruence.
Qed.

Lemma evaluate_shards_ok w t shards rlwe p R queries combined :
  worker_inv w -> assignment_ok w t shards -> ws_rlwe w !! t = Some rlwe ->
  shard_parameters (layout_of t) = Ok (rlwe, p) ->
  (forall s, s ∈ shards -> hashed (R (as_shard_id s)) /\
     RecordJournal_rows_digest (R (as_shard_id s)) = as_rows_sha256 s) ->
  Forall (fun sq => sq_shard_id sq ∈ as_shard_id <$> shards /\
     zlen (sq_coefficients sq) = shard_rows (layout_of t) /\
     reduced (rlwe_q rlwe) (sq_coefficients sq)) queries ->
  vec_ok (rlwe_q rlwe) (Z.to_nat (db_cols p)) combined ->
  evaluate_shards w t shards rlwe queries combined =
  Ok (vec_add (rlwe_q rlwe) (expected_partial t rlwe p R queries) combined).
Proof.
  intros Hi Ha Hr Hp HR Hq. revert combined.
  pose proof (layouts_fit _ _ _ Hp) as Hf.
  destruct (shard_parameters_facts _ _ _ Hp Hf) as (_ & _ & _ & _ & Hqb & _).
  induction Hq as [|sq queries (Hin & Hlen & Hred) _ IH]; intros combined Hc.
  - cbn [evaluate_shards]. f_equal. symmetry. by apply vec_add_zero.
  - cbn [evaluate_shards].
    destruct (List.find _ shards) as [s|] eqn:Ef.
    2:{ apply list_elem_of_fmap in Hin as (s & Hs & Hin).
        pose proof (find_none _ _ Ef s (proj1 (list_elem_of_In _ _) Hin)) as Hn.
        cbv beta in Hn. rewrite Hs in Hn. bool_prop. done. }
    apply find_some in Ef as [Hs Hid]. bool_prop. apply list_elem_of_In in Hs.
    destruct (HR s Hs) as [Hh Hd]. cbn [ok_or]. rewrite <- Hid.
    destruct (active_runtime w t s shards rlwe p _ Hi Ha Hs Hr Hp Hh Hd) as (rt & -> & Hrows).
    cbn [ok_or].
    rewrite (evaluate_holds_rows _ rlwe rlwe p _ _ _ Hp Hf Hrows Hlen Hred). cbn [map_err].
    set (partial := matvec _ _ _ _).
    assert (vec_ok (rlwe_q rlwe) (Z.to_nat (db_cols p)) partial) as Hpart.
    { apply matvec_ok; [lia|]. by eapply shard_matrix_shape. }
    rewrite (add_intermediate_ok _ (Z.to_nat (db_cols p))) by (done || lia). cbv beta iota.
    rewrite IH by (apply vec_add_ok; [lia|apply Hc|apply Hpart]).
    f_equal. unfold expected_partial. rewrite fmap_cons. cbn [vec_sum foldr].
    rewrite <- Hid. fold partial.
    rewrite (vec_add_comm _ combined partial), (vec_add_assoc _ _ partial combined).
    f_equal. apply vec_add_comm.
Qed.

Lemma assignment_rlwe w t shards :
  worker_inv w -> assignment_ok w t shards -> exists rlwe, ws_rlwe w !! t = Some rlwe.
Proof.
  intros Hi (Hne & _ & _ & Hall). destruct shards as [|s shards]; [done|].
  apply Forall_cons in Hall as [[rt Hrt] _].
  destruct (inv_cache w Hi _ _ _ _ Hrt) as (rlwe & Hr & _). eauto.
Qed.

Lemma covers_sorted w t shards ids :
  assignment_ok w t shards -> Permutation ids (as_shard_id <$> shards) ->
  merge_sort Z.le ids = as_shard_id <$> shards.
Proof.
  intros (_ & Hs & _) Hp. apply (Sorted_unique Z.le); [|done|].
  - apply Sorted_merge_sort, _.
  - by rewrite merge_sort_Permutation.
Qed.

Lemma expected_partial_ok t rlwe p R queries :
  shard_parameters (layout_of t) = Ok (rlwe, p) ->
  vec_ok (rlwe_q rlwe) (Z.to_nat (db_cols p)) (expected_partial t rlwe p R queries).
Proof.
  intros Hp. pose proof (layouts_fit _ _ _ Hp) as Hf.
  destruct (shard_parameters_facts _ _ _ Hp Hf) as (_ & _ & _ & _ & Hq & _).
  apply vec_sum_ok; [lia|]. apply Forall_fmap, Forall_true. intros s.
  apply matvec_ok; [lia|]. by eapply shard_matrix_shape.
Qed.

Lemma evaluate_active w in_flight t request ag shards rlwe p R :
  worker_inv w -> in_flight < ws_evaluation_slots w ->
  ws_active w !! er_generation request = Some ag -> ag_tables ag !! t = Some shards ->
  Permutation (sq_shard_id <$> er_shards request) (as_shard_id <$> shards) ->
  shard_parameters (layout_of t) = Ok (rlwe, p) ->
  Forall (fun sq => zlen (sq_coefficients sq) = shard_rows (layout_of t) /\
     reduced (rlwe_q rlwe) (sq_coefficients sq)) (er_shards request) ->
  (forall s, s ∈ shards -> hashed (R (as_shard_id s)) /\
     RecordJournal_rows_digest (R (as_shard_id s)) = as_rows_sha256 s) ->
  evaluate_local w in_flight t request =
  Ok (expected_partial t rlwe p R (er_shards request)).
Proof.
  intros Hi Hslot Hg Ht Hperm Hp Hq HR. pose proof (inv_active w Hi _ _ Hg _ _ Ht) as Ha.
  destruct (assignment_rlwe w t shards Hi Ha) as [rlwe' Hr].
  destruct (inv_rlwe w Hi _ _ Hr) as [p' Hp']. rewrite Hp in Hp'. injection Hp' as <- <-.
  unfold evaluate_local. guards. rewrite Hg. cbn [ok_or]. rewrite Ht. cbn [ok_or].
  unfold ActiveGeneration_shard_ids. rewrite Ht. cbn [option_map].
  rewrite (covers_sorted w t shards) by done. rewrite bool_decide_true by done. cbn [negb].
  unfold worker_rlwe. rewrite Hr, Hp. cbn [ok_or map_err].
  destruct (shard_parameters_facts _ _ _ Hp (layouts_fit _ _ _ Hp)) as (_ & _ & _ & _ & Hqb & _).
  rewrite (evaluate_shards_ok w t shards rlwe p R); try done.
  - f_equal. rewrite vec_add_comm. by apply vec_add_zero, expected_partial_ok.
  - rewrite Forall_forall in Hq |- *. intros sq Hsq. split; [|by apply Hq].
    rewrite <- Hperm. by apply list_elem_of_fmap_2.
  - apply vec_zero_ok. lia.
Qed.

(** ** Stability *)

Lemma run_frame w op :
  ws_rlwe (run_worker w op) = ws_rlwe w /\
  ws_evaluation_slots (run_worker w op) = ws_evaluation_slots w.
Proof.
  destruct op; cbn.
  - unfold prepare_local. repeat case_match; done.
  - unfold ensure_local. repeat case_match; done.
  - unfold activate_local. repeat case_match; done.
Qed.

(** An operation that does not activate [g] keeps its assignment or drops it. *)
Lemma run_active w op g ag :
  op_generation op <> Some g -> ws_active (run_worker w op) !! g = Some ag ->
  ws_active w !! g = Some ag.
Proof.
  intros Hne. destruct op; cbn.
  - unfold prepare_local. repeat case_match; done.
  - unfold ensure_local. repeat case_match; done.
  - destruct (activate_local w request) as [[[]|e] w'] eqn:E; cbn [snd];
      [|by apply activate_err in E as ->].
    destruct (activate_active w request w' E) as (tables & merged & _ & _ & -> & _).
    intros Hg. eapply lookup_weaken in Hg; [|apply evict_spec; lia].
    rewrite lookup_insert_ne in Hg; [done|]. cbn in Hne. congruence.
Qed.

Lemma good_server t rlwe rt rt' :
  good t rlwe rt -> good t rlwe rt' -> rt_rows_sha256 rt = rt_rows_sha256 rt' ->
  rt_server rt = rt_server rt'.
Proof.
  intros (p & rows & Hp & Hr & Hh & Hd & _) (p' & rows' & Hp' & Hr' & Hh' & Hd' & _) He.
  rewrite Hp in Hp'. injection Hp' as <-. rewrite Hr, Hr'.
  assert (rows = rows') as ->; [|done].
  apply hashed_inj; [done|done|]. apply hex_sha_inj. unfold RecordJournal_rows_digest in *.
  congruence.
Qed.

(** Evaluation depends on the cache only through the kernels of the active
    shards. *)
Lemma evaluate_shards_ext w w' t shards rlwe queries combined :
  worker_inv w -> worker_inv w' -> ws_rlwe w' = ws_rlwe w ->
  assignment_ok w t shards -> assignment_ok w' t shards ->
  evaluate_shards w' t shards rlwe queries combined =
  evaluate_shards w t shards rlwe queries combined.
Proof.
  intros Hi Hi' Hrl (_ & _ & _ & Ha) (_ & _ & _ & Ha'). revert combined.
  induction queries as [|sq queries IH]; intros combined; [done|]. cbn [evaluate_shards].
  destruct (List.find _ shards) as [s|] eqn:Ef; [|done]. cbn [ok_or].
  apply find_some in Ef as [Hs Hid]. bool_prop. apply list_elem_of_In in Hs.
  rewrite Forall_forall in Ha, Ha'. rewrite <- Hid.
  destruct (Ha s Hs) as [rt Hrt]. destruct (Ha' s Hs) as [rt' Hrt'].
  destruct (inv_cache w Hi _ _ _ _ Hrt) as (rl & Hr & Hg & Hd).
  destruct (inv_cache w' Hi' _ _ _ _ Hrt') as (rl' & Hr' & Hg' & Hd').
  rewrite Hrl, Hr in Hr'. injection Hr' as <-.
  rewrite Hrt, Hrt'. cbn [ok_or].
  assert (ShardRuntime_evaluate rt' rlwe (sq_coefficients sq) =
          ShardRuntime_evaluate rt rlwe (sq_coefficients sq)) as ->.
  { unfold ShardRuntime_evaluate. rewrite (good_server t rl rt' rt); [done|done|done|congruence]. }
  destruct (ShardRuntime_evaluate _ _ _) as [partial|]; cbn [map_err]; [|done].
  destruct (add_intermediate_assign_mod _ _ _) as [c [|]]; [apply IH|done].
Qed.

Lemma evaluate_stable w w' n t request ag :
  worker_inv w -> worker_inv w' -> ws_rlwe w' = ws_rlwe w ->
  ws_evaluation_slots w' = ws_evaluation_slots w ->
  ws_active w !! er_generation request = Some ag ->
  ws_active w' !! er_generation request = Some ag ->
  evaluate_local w' n t request = evaluate_local w n t request.
Proof.
  intros Hi Hi' Hrl Hsl Hg Hg'. unfold evaluate_local, worker_rlwe. rewrite Hsl, Hg, Hg', Hrl.
  destruct (_ <=? n); [done|]. cbn [ok_or].
  destruct (ag_tables ag !! t) as [shards|] eqn:Et; [|done]. cbn [ok_or].
  destruct (negb _); [done|]. destruct (ws_rlwe w !! t); [|done]. cbn [ok_or].
  destruct (shard_parameters _) as [[? ?]|]; [|done]. cbn [map_err].
  apply evaluate_shards_ext; try done; [by eapply (inv_active w Hi)|by eapply (inv_active w' Hi')].
Qed.

Lemma runs_frame w ops g :
  Forall (fun op => op_generation op <> Some g) ops ->
  let w' := foldl run_worker w ops in
  ws_rlwe w' = ws_rlwe w /\ ws_evaluation_slots w' = ws_evaluation_slots w /\
  forall ag, ws_active w' !! g = Some ag -> ws_active w !! g = Some ag.
Proof.
  intros Ho. revert w. induction Ho as [|op ops Hop _ IH]; intros w; [done|]. cbn.
  destruct (IH (run_worker w op)) as (Hr & Hs & Ha).
  destruct (run_frame w op) as [Hr' Hs']. split_and!; [congruence|congruence|].
  intros ag Hag. by eapply run_active, Ha.
Qed.
End worker_laws.

(** ** A small concrete worker *)

Definition small_layouts : Layouts := fun _ => small_layout.

#[export] Instance small_layouts_fit : @LayoutsFit small_layouts small_ipir.
Proof. intros t rlwe p E. cbn in E. injection E as <- <-. apply small_layout_fits. Qed.

Definition rows_a : list Z := [1; 2; 3; 4].
Definition rows_b : list Z := [9; 8; 7; 6].

Definition small_digest (rows : list Z) : string :=
  @RecordJournal_rows_digest ascii_hex checksum32 rows.

(** What a small worker hashes for a set of rows. *)
Definition small_hashes (rows : list Z) : list (list Z) :=
  [rows; @database_bytes small_server (small_runtime "" rows);
   encode_crs_blocks (rt_crs_blocks (small_runtime "" rows))].

Definition small_hashed (bs : list Z) : Prop := bs ∈ small_hashes rows_a ++ small_hashes rows_b.

Ltac decide_hashed :=
  unfold small_hashed; refine (bool_decide_unpack _ _); vm_compute; exact I.

Lemma small_hashed_inj a b :
  small_hashed a -> small_hashed b -> @sha256 checksum32 a = @sha256 checksum32 b -> a = b.
Proof.
  assert (forallb (fun x => forallb (fun y =>
    implb (bool_decide (@sha256 checksum32 x = @sha256 checksum32 y)) (bool_decide (x = y)))
    (small_hashes rows_a ++ small_hashes rows_b))
    (small_hashes rows_a ++ small_hashes rows_b) = true) as Hall by (vm_compute; reflexivity).
  intros Ha Hb E. rewrite forallb_forall in Hall.
  specialize (Hall a (proj1 (list_elem_of_In _ _) Ha)). rewrite forallb_forall in Hall.
  specialize (Hall b (proj1 (list_elem_of_In _ _) Hb)). cbv beta in Hall.
  rewrite bool_decide_true in Hall by done. cbn in Hall. by apply bool_decide_eq_true in Hall.
Qed.

Lemma small_prepare_hashed t id start logical digest rows k :
  (rows = rows_a \/ rows = rows_b) -> 0 <= start ->
  @op_hashed small_layouts small_ipir small_server small_hashed
    (OpPrepare t id start logical digest rows k).
Proof.
  intros Hrows Hst. split.
  { destruct Hrows as [-> | ->]; decide_hashed. }
  split; [done|]. intros rlwe p setup n rt n' Hp Hb. injection Hp as <- <-.
  destruct (build_holds_rows small_layout id start digest rows small_rlwe small_rlwe small_params
    setup n rt n'
    (eq_refl : @shard_parameters small_ipir small_layout = Ok (small_rlwe, small_params))
    small_layout_fits Hb)
    as (Hr & _ & _ & _ & _ & s & _ & Hc).
  unfold holds_rows in Hr. rewrite Hr in Hc.
  unfold database_bytes. rewrite Hr, Hc. clear Hr Hc Hb.
  unfold small_hashed. destruct Hrows as [-> | ->];
    (split; decide_hashed).
Qed.

Definition small_worker : @WorkerState small_server :=
  {| ws_rlwe := {[Enhance := small_rlwe]}; ws_shards := ∅; ws_active := ∅; ws_artifacts := ∅;
     ws_evaluation_slots := 2; ws_counter := 0 |}.

Definition run_small : @WorkerState small_server -> worker_op -> @WorkerState small_server :=
  @run_worker small_layouts ascii_hex checksum32 small_ipir small_server.

Definition activation (g : Z) (rows : list Z) : worker_op :=
  OpActivate {| ar_generation := g;
    ar_tables := {[Enhance := [{| as_shard_id := 0; as_rows_sha256 := small_digest rows |}]]} |}.

Definition preparation (rows : list Z) : worker_op :=
  OpPrepare Enhance 0 0 2 (small_digest rows) rows 3.

(** ** Properties *)

(** C15: a worker answers with the rows it was told to serve.  In every state a
    worker reaches by preparing, loading and activating (with no collision among
    the byte strings it hashed), a request that names a retained generation and
    exactly its shards, with reduced coefficients of the right length and a free
    slot, succeeds with the sum over the shards of the product of the
    coefficients and the rows whose digest was activated: no shard is missing,
    evicted, doubled or replaced by another version of its rows. *)
Theorem worker_serves_active (layouts : Layouts) (hex : Hex) `{!HexLaws hex} (sha : Sha256)
    `{!Sha256Laws sha} `{IpirParamsLaws} `{IpirServerLaws} `{!LayoutsFit}
    (hashed : list Z -> Prop) w in_flight t request ag shards rlwe p R :
  (forall a b, hashed a -> hashed b -> sha256 a = sha256 b -> a = b) ->
  worker_reachable hashed w -> in_flight < ws_evaluation_slots w ->
  ws_active w !! er_generation request = Some ag -> ag_tables ag !! t = Some shards ->
  Permutation (sq_shard_id <$> er_shards request) (as_shard_id <$> shards) ->
  shard_parameters (layout_of t) = Ok (rlwe, p) ->
  Forall (fun sq => zlen (sq_coefficients sq) = shard_rows (layout_of t) /\
     reduced (rlwe_q rlwe) (sq_coefficients sq)) (er_shards request) ->
  (forall s, s ∈ shards -> hashed (R (as_shard_id s)) /\
     RecordJournal_rows_digest (R (as_shard_id s)) = as_rows_sha256 s) ->
  evaluate_local w in_flight t request =
  Ok (expected_partial t rlwe p R (er_shards request)).
Proof.
  intros Hinj Hw. intros. apply reachable_inv in Hw; [|done]. by eapply evaluate_active.
Qed.

Lemma worker_serves_active_witness :
  @evaluate_local small_layouts small_ipir small_server
    (foldl run_small small_worker [preparation rows_a; activation 7 rows_a]) 0 Enhance
    {| er_generation := 7; er_shards := [{| sq_shard_id := 0; sq_coefficients := [0; 1] |}] |} =
  Ok [3; 0; 4; 0].
Proof.
  rewrite (@worker_serves_active small_layouts ascii_hex _ checksum32 _ small_ipir _ small_server _
    _ small_hashed _ 0 Enhance
    {| er_generation := 7; er_shards := [{| sq_shard_id := 0; sq_coefficients := [0; 1] |}] |}
    {| ag_generation := 7;
       ag_tables := {[Enhance := [{| as_shard_id := 0; as_rows_sha256 := small_digest rows_a |}]]} |}
    [{| as_shard_id := 0; as_rows_sha256 := small_digest rows_a |}] small_rlwe small_params
    (fun _ => rows_a)).
  - vm_compute. reflexivity.
  - apply small_hashed_inj.
  - exists small_worker, 0, 2, [preparation rows_a; activation 7 rows_a].
    split; [vm_compute; reflexivity|]. split; [|reflexivity].
    constructor; [apply small_prepare_hashed; [by left|lia]|]. by repeat constructor.
  - vm_compute. reflexivity.
  - vm_compute. reflexivity.
  - vm_compute. reflexivity.
  - reflexivity.
  - reflexivity.
  - constructor; [|constructor]. split; [reflexivity|]. repeat constructor; cbn; lia.
  - intros s Hs. apply list_elem_of_singleton in Hs as ->. cbn.
    split; [|reflexivity]. decide_hashed.
Defined.

(** Publishing does not disturb retained generations.  Whatever a worker
    prepares, reloads or activates for other generations (including new rows for
    the same shard), as long as a generation is still retained every request
    for it is answered exactly as before. *)
Theorem retained_generation_stable (layouts : Layouts) (hex : Hex) `{!HexLaws hex} (sha : Sha256)
    `{!Sha256Laws sha} `{IpirParamsLaws} `{IpirServerLaws} `{!LayoutsFit}
    (hashed : list Z -> Prop) w ops g in_flight t request :
  (forall a b, hashed a -> hashed b -> sha256 a = sha256 b -> a = b) ->
  worker_reachable hashed w -> Forall (op_hashed hashed) ops ->
  Forall (fun op => op_generation op <> Some g) ops ->
  is_Some (ws_active (foldl run_worker w ops) !! g) -> er_generation request = g ->
  evaluate_local (foldl run_worker w ops) in_flight t request =
  evaluate_local w in_flight t request.
Proof.
  intros Hinj Hw Ho Hg [ag Ha] <-. apply reachable_inv in Hw; [|done].
  destruct (runs_frame w ops _ Hg) as (Hr & Hs & Hact).
  eapply (evaluate_stable hashed); try done; [by apply runs_inv|by apply Hact].
Qed.

Lemma retained_generation_stable_witness :
  let w := foldl run_small small_worker [preparation rows_a; activation 7 rows_a] in
  let request :=
    {| er_generation := 7; er_shards := [{| sq_shard_id := 0; sq_coefficients := [0; 1] |}] |} in
  @evaluate_local small_layouts small_ipir small_server
    (foldl run_small w [preparation rows_b; activation 8 rows_b]) 0 Enhance request =
  @evaluate_local small_layouts small_ipir small_server w 0 Enhance request.
Proof.
  intros w request.
  apply (@retained_generation_stable small_layouts ascii_hex _ checksum32 _ small_ipir _
    small_server _ _ small_hashed w [preparation rows_b; activation 8 rows_b] 7).
  - apply small_hashed_inj.
  - exists small_worker, 0, 2, [preparation rows_a; activation 7 rows_a].
    split; [vm_compute; reflexivity|]. split; [|reflexivity].
    constructor; [apply small_prepare_hashed; [by left|lia]|]. by repeat constructor.
  - constructor; [apply small_prepare_hashed; [by right|lia]|]. by repeat constructor.
  - repeat constructor; discriminate.
  - vm_compute. by eexists.
  - reflexivity.
Defined.
