(* ===== verification/Fleet.v ===== *)
(** * Reaching workers

    Models the part of [server/enhance-pir-server/src/coordinator.rs] that talks
    to workers ([prepare_worker], [ensure_worker], [fetch_hint],
    [activate_worker], [evaluate_worker], [read_worker_body]), and the worker
    configuration of [bin/server.rs].  An embedded worker is a [WorkerState] of
    the same process; a remote one is behind HTTP, which is the class [Http]:
    any reply or failure.  [direct_http] is the network that delivers each call
    to the worker's own router. *)

From Stdlib Require Import ZArith Lia Ascii.
From stdpp Require Import base numbers sorting countable pretty strings gmap list.
From S2P Require Import Prelude Cursor FilterTypes Instances EnhanceTypes RecordJournal Wire Ipir Worker.

Open Scope Z_scope.

(** ** Targets and groups *)

Inductive WorkerTarget :=
| Remote (name base_url : string)
| Embedded (name : string).

Definition WorkerTarget_name (t : WorkerTarget) : string :=
  match t with Remote name _ | Embedded name => name end.

Record WorkerGroup := { wg_name : string; wg_replicas : list WorkerTarget }.
Record TableSetup := { su_table : DatabaseId; su_groups : list WorkerGroup }.

(** ** HTTP *)

(** A response as [reqwest] hands it over: the status, the announced length and
    the body chunks, the last of which may be a transport error. *)
Record HttpReply := {
  hp_status : Z; hp_content_length : option Z; hp_chunks : list (result string (list Z)) }.

Definition is_success (status : Z) : bool := (200 <=? status) && (status <? 300).
Definition is_server_error (status : Z) : bool := (500 <=? status) && (status <? 600).

(** The network: what sending a call to a base URL returns. *)
Class Http (N : Type) `{IpirServer} :=
  http_send : N -> string -> WorkerCall -> result string HttpReply * N.

(** The chunk loop of [read_worker_body]. *)
Fixpoint read_body_chunks (chunks : list (result string (list Z))) (limit : Z) (body : list Z) :
    result string (list Z) :=
  match chunks with
  | [] => Ok body
  | chunk :: chunks =>
      let? chunk := chunk in
      if limit <? saturating_add64 (zlen body) (zlen chunk)
      then Err "worker response exceeds limit"%string
      else read_body_chunks chunks limit (body ++ chunk)
  end.

Definition read_worker_body (response : HttpReply) (limit : Z) : result string (list Z) :=
  if match hp_content_length response with Some length => limit <? length | None => false end
  then Err "worker response exceeds limit"%string
  else read_body_chunks (hp_chunks response) limit [].

(** ** The workers a coordinator reaches *)

(** Embedded workers by name, the network, how many evaluations each embedded
    worker has in flight, and how many of the three artifact writes of a
    preparation complete on it before an I/O error, if any. *)
Record World `{IpirServer} (N : Type) := {
  wd_embedded : gmap string WorkerState; wd_net : N; wd_in_flight : string -> Z;
  wd_writes : string -> nat }.
Arguments wd_embedded {_ _} _.
Arguments wd_net {_ _} _.
Arguments wd_in_flight {_ _} _.
Arguments wd_writes {_ _} _.

Record WorkerEvaluationError := { we_message : string; we_retryable : bool }.

(** [str::contains]. *)
Fixpoint string_contains (haystack needle : string) : bool :=
  String.prefix needle haystack ||
  match haystack with
  | EmptyString => false
  | String _ rest => string_contains rest needle
  end.

Section fleet.
Context {layouts : Layouts} `{Hex} `{Sha256} `{Ipir} `{IpirServer} {N : Type} `{!Http N}.

Definition set_embedded (wd : World N) (name : string) (w : WorkerState) : World N :=
  {| wd_embedded := <[name := w]> (wd_embedded wd); wd_net := wd_net wd;
     wd_in_flight := wd_in_flight wd; wd_writes := wd_writes wd |}.

Definition set_net (wd : World N) (n : N) : World N :=
  {| wd_embedded := wd_embedded wd; wd_net := n; wd_in_flight := wd_in_flight wd;
     wd_writes := wd_writes wd |}.

(** An embedded target carries its state, so it always resolves. *)
Definition on_embedded {A} (wd : World N) (name : string)
    (f : WorkerState -> result string A * WorkerState) : result string A * World N :=
  match wd_embedded wd !! name with
  | None => (Err "no such embedded worker"%string, wd)
  | Some w => let '(r, w) := f w in (r, set_embedded wd name w)
  end.

(** Send, then fail on a non-success status with the given message. *)
Definition call_remote (wd : World N) (base_url : string) (call : WorkerCall) (failed : string) :
    result string HttpReply * World N :=
  let '(r, n) := http_send (wd_net wd) base_url call in
  let wd := set_net wd n in
  match r with
  | Err e => (Err e, wd)
  | Ok response => if is_success (hp_status response) then (Ok response, wd) else (Err failed, wd)
  end.

Definition prepare_worker (wd : World N) (worker : WorkerTarget) (table : DatabaseId)
    (shard_id query_row_start logical_rows : Z) (rows_sha256 : string) (rows : list Z) :
    result string unit * World N :=
  match worker with
  | Embedded name =>
      let '(r, wd) := on_embedded wd name (fun w =>
        prepare_local w table shard_id query_row_start logical_rows rows_sha256 rows
          (wd_writes wd name)) in
      (match r with Ok _ => Ok tt | Err e => Err e end, wd)
  | Remote _ base_url =>
      let '(r, wd) := call_remote wd base_url
        (WC_Prepare (DatabaseId_as_str table) shard_id query_row_start logical_rows rows_sha256 rows)
        "worker shard preparation returned {}" in
      (match r with Ok _ => Ok tt | Err e => Err e end, wd)
  end.

Definition ensure_worker (wd : World N) (worker : WorkerTarget) (table : DatabaseId)
    (shard_id query_row_start : Z) (rows_sha256 : string) : result string unit * World N :=
  match worker with
  | Embedded name =>
      on_embedded wd name (fun w => ensure_local w table shard_id query_row_start rows_sha256)
  | Remote _ base_url =>
      let '(r, wd) := call_remote wd base_url
        (WC_Load (DatabaseId_as_str table) shard_id query_row_start rows_sha256)
        "worker cached shard load returned {}" in
      (match r with Ok _ => Ok tt | Err e => Err e end, wd)
  end.

Definition worker_hint_limit : Z :=
  foldr Z.max 0 ((fun table => DatabaseLayout_shard_bytes (layout_of table)) <$> DatabaseId_ALL) * 4.

Definition fetch_hint (wd : World N) (worker : WorkerTarget) (table : DatabaseId) (shard_id : Z) :
    result string (list Z) * World N :=
  match worker with
  | Embedded name => on_embedded wd name (fun w => (crs_local w table shard_id, w))
  | Remote _ base_url =>
      let '(r, wd) := call_remote wd base_url (WC_Hint (DatabaseId_as_str table) shard_id)
        "worker hint request returned {}" in
      (let? response := r in read_worker_body response worker_hint_limit, wd)
  end.

Definition activate_worker (wd : World N) (worker : WorkerTarget) (request : ActivateRequest) :
    result string unit * World N :=
  match worker with
  | Embedded name => on_embedded wd name (fun w => activate_local w request)
  | Remote _ base_url =>
      let '(r, wd) := call_remote wd base_url (WC_Activate request)
        "worker activation returned {}" in
      (match r with Ok _ => Ok tt | Err e => Err e end, wd)
  end.

Definition embedded_retryable (message : string) : bool :=
  string_contains message "evaluation limit" || string_contains message "generation mismatch" ||
  string_contains message "active shard disappeared".

Definition evaluate_worker (wd : World N) (worker : WorkerTarget) (table : DatabaseId)
    (request : EvaluateRequest) : result WorkerEvaluationError (list Z) * World N :=
  match worker with
  | Embedded name =>
      let '(r, wd) := on_embedded wd name (fun w =>
        (evaluate_local w (wd_in_flight wd name) table request, w)) in
      (map_err (fun message =>
         {| we_message := message; we_retryable := embedded_retryable message |}) r, wd)
  | Remote _ base_url =>
      let generation := er_generation request in
      let '(r, n) := http_send (wd_net wd) base_url
        (WC_Evaluate (DatabaseId_as_str table) (encode_evaluate_request request)) in
      (let? response := map_err (fun e => {| we_message := e; we_retryable := true |}) r in
       let status := hp_status response in
       if negb (is_success status)
       then Err {| we_message := "worker evaluation returned {status}";
                   we_retryable := (status =? 429) || is_server_error status |} else
       let? bytes := map_err (fun e => {| we_message := e; we_retryable := false |})
                       (read_worker_body response (1024 * 1024)) in
       let? (response_generation, coefficients) :=
         map_err (fun e => {| we_message := WireError_to_string e; we_retryable := false |})
           (decode_evaluate_response bytes) in
       if negb (response_generation =? generation)
       then Err {| we_message := "worker response generation mismatch"; we_retryable := true |}
       else Ok coefficients, set_net wd n)
  end.
End fleet.

(** ** The network that delivers *)

(** Workers by base URL; every call reaches the worker's router, and a handler
    that panics closes the connection. *)
Definition direct_http {layouts : Layouts} `{Hex} `{Sha256} `{Ipir} `{IpirServer} :
    Http (gmap string WorkerState) := fun net base_url call =>
  match net !! base_url with
  | None => (Err "connection refused"%string, net)
  | Some w =>
      let '(reply, w) := worker_router w call 0 3 in
      (match reply with
       | None => Err "connection closed before message completed"%string
       | Some (status, body) =>
           Ok {| hp_status := status; hp_content_length := Some (zlen body);
                 hp_chunks := [Ok body] |}
       end, <[base_url := w]> net)
  end.

(** ** Worker configuration *)

Record WorkerConfig := { wc_name : string; wc_url : string }.
Record WorkerGroupConfig := { gc_name : string; gc_replicas : list WorkerConfig }.

#[export] Instance WorkerConfig_eq_dec : EqDecision WorkerConfig.
Proof. solve_decision. Defined.
#[export] Instance WorkerGroupConfig_eq_dec : EqDecision WorkerGroupConfig.
Proof. solve_decision. Defined.

(** The parts of [reqwest::Url] the code looks at. *)
Record Url := {
  url_scheme : string; url_host : option string; url_username : string;
  url_password : option string; url_query : option string; url_fragment : option string }.

Class UrlParser := url_parse : string -> result string Url.

Definition is_ascii_alphanumeric (a : Ascii.ascii) : bool :=
  let n := Z.of_N (Ascii.N_of_ascii a) in
  ((48 <=? n) && (n <=? 57)) || ((65 <=? n) && (n <=? 90)) || ((97 <=? n) && (n <=? 122)).

Definition validate_name (name : string) : result string unit :=
  let chars := String.list_ascii_of_string name in
  if bool_decide (name = ""%string) ||
     negb (forallb (fun c => is_ascii_alphanumeric c || bool_decide (c = "-"%char)) chars)
  then Err "invalid {kind} name: {name:?}"%string else Ok tt.

(** [trim_end_matches('/')]. *)
Fixpoint drop_slashes (cs : list Ascii.ascii) : list Ascii.ascii :=
  match cs with
  | c :: cs' => if bool_decide (c = "/"%char) then drop_slashes cs' else cs
  | [] => []
  end.
Definition trim_end_slashes (s : string) : string :=
  String.string_of_list_ascii (reverse (drop_slashes (reverse (String.list_ascii_of_string s)))).

Definition url_acceptable (parsed : Url) : bool :=
  (bool_decide (url_scheme parsed = "http"%string) ||
   bool_decide (url_scheme parsed = "https"%string)) &&
  negb (bool_decide (url_host parsed = None)) &&
  bool_decide (url_username parsed = ""%string) &&
  bool_decide (url_password parsed = None) &&
  bool_decide (url_query parsed = None) &&
  bool_decide (url_fragment parsed = None).

Section config.
Context `{UrlParser}.

Fixpoint validate_replicas (workers : list WorkerConfig) (names urls : gset string) :
    result string (list WorkerTarget * gset string * gset string) :=
  match workers with
  | [] => Ok ([], names, urls)
  | worker :: workers =>
      let? _ := validate_name (wc_name worker) in
      let? parsed := map_err (fun _ => "invalid URL for {}: {error}"%string) (url_parse (wc_url worker)) in
      if negb (url_acceptable parsed) then Err "invalid URL for {}"%string else
      let url := trim_end_slashes (wc_url worker) in
      if bool_decide (wc_name worker ∈ names) then Err "duplicate worker name: {}"%string else
      if bool_decide (url ∈ urls) then Err "duplicate worker URL: {url}"%string else
      let? (replicas, names, urls) :=
        validate_replicas workers ({[wc_name worker]} ∪ names) ({[url]} ∪ urls) in
      Ok (Remote (wc_name worker) url :: replicas, names, urls)
  end.

Fixpoint validate_groups (configured : list WorkerGroupConfig) (group_names names urls : gset string) :
    result string (list WorkerGroup) :=
  match configured with
  | [] => Ok []
  | group :: configured =>
      let? _ := validate_name (gc_name group) in
      if bool_decide (gc_name group ∈ group_names)
      then Err "duplicate worker group name: {}"%string else
      if bool_decide (gc_replicas group = []) then Err "worker group {} has no replicas"%string else
      let? (replicas, names, urls) := validate_replicas (gc_replicas group) names urls in
      let? groups := validate_groups configured ({[gc_name group]} ∪ group_names) names urls in
      Ok ({| wg_name := gc_name group; wg_replicas := replicas |} :: groups)
  end.

Definition validate_worker_groups (configured : list WorkerGroupConfig) :
    result string (list WorkerGroup) :=
  validate_groups configured ∅ ∅ ∅.

(** [remote_worker_setups]: the configured groups, or one group per
    [--worker-url]. *)
Definition url_groups (worker_urls : list string) : list WorkerGroupConfig :=
  imap (fun index url =>
    {| gc_name := "shard-group-" +:+ pretty (Z.of_nat index + 1);
       gc_replicas := [{| wc_name := "worker-" +:+ pretty (Z.of_nat index + 1);
                          wc_url := url |}] |}) worker_urls.

Definition remote_worker_setups (worker_config : option (list WorkerGroupConfig))
    (worker_urls : list string) : result string (list TableSetup) :=
  let enhance := match worker_config with Some groups => groups | None => url_groups worker_urls end in
  if bool_decide (enhance = [])
  then Err "distributed mode requires at least one worker group"%string else
  let? groups := validate_worker_groups enhance in
  Ok [{| su_table := Enhance; su_groups := groups |}].
End config.

(** ** Remote evaluation *)

Lemma parse_table_as_str t : parse_table (DatabaseId_as_str t) = Ok t.
Proof. by destruct t. Qed.

Lemma zlen_encode_response g v : zlen (encode_evaluate_response g v) = 16 + 8 * zlen v.
Proof.
  rewrite encode_response_eq. unfold enc_counted. autorewrite with zlen.
  rewrite zlen_enc_vector. change (zlen EVAL_RESPONSE_MAGIC) with 4. lia.
Qed.

Lemma bytes_ok_counted cs : bytes_ok (enc_counted cs).
Proof.
  unfold enc_counted, enc_vector. apply bytes_ok_app. split; [auto with rust|].
  apply Forall_concat, Forall_fmap, Forall_true. intros. apply bytes_ok_le_bytes.
Qed.

Lemma bytes_ok_response g v : bytes_ok (encode_evaluate_response g v).
Proof.
  rewrite encode_response_eq. apply bytes_ok_app. split; [apply bytes_ok_string|].
  apply bytes_ok_app. split; [auto with rust|apply bytes_ok_counted].
Qed.

Lemma bytes_ok_request r : bytes_ok (encode_evaluate_request r).
Proof.
  rewrite encode_request_eq. apply bytes_ok_app. split; [apply bytes_ok_string|].
  repeat (apply bytes_ok_app; split; [auto with rust|]).
  apply Forall_concat, Forall_fmap, Forall_true. intros s. unfold compose, enc_shard.
  apply bytes_ok_app. split; [auto with rust|apply bytes_ok_counted].
Qed.

Lemma request_roundtrip r :
  request_wf r -> zlen (encode_evaluate_request r) < 2 ^ 63 ->
  decode_evaluate_request (encode_evaluate_request r) = Ok r.
Proof.
  intros Hwf Hl. unfold decode_evaluate_request, parse.
  change (Cursor ?l 0) with (at_ [] l). rewrite request_parser_at; [done|done|].
  unfold fits, u64_bound. rewrite zlen_nil. lia.
Qed.

(** Over the network that delivers, a remote evaluation is the worker's own:
    its vector when it succeeds, and an error the coordinator retries on a peer
    when it does not. *)
Lemma remote_evaluate {layouts : Layouts} `{Hex} `{Sha256} `{Ipir} `{IpirServer}
    (wd : World (gmap string WorkerState)) name url w table request :
  wd_net wd !! url = Some w -> request_wf request ->
  zlen (encode_evaluate_request request) <= max_shard_bytes + 1024 * 1024 ->
  max_shard_bytes < 2 ^ 60 ->
  let '(r, wd') := evaluate_worker (Http0 := direct_http) wd (Remote name url) table request in
  wd_net wd' !! url = Some w /\
  match evaluate_local w 0 table request with
  | Ok v => vector_wf v -> 16 + 8 * zlen v <= 1024 * 1024 -> r = Ok v
  | Err _ => exists e, r = Err e /\ we_retryable e = true
  end.
Proof.
  intros Hw Hwf Hl Hm. unfold evaluate_worker, http_send, direct_http. rewrite Hw.
  cbn [worker_router]. guards. unfold evaluate_handler, on_table.
  rewrite parse_table_as_str, request_roundtrip by (done || lia).
  destruct (evaluate_local w 0 table request) as [v|e] eqn:E.
  - split; [apply lookup_insert_eq|]. intros Hv Hz. cbn [map_err hp_status]. cbn.
    unfold read_worker_body. cbn [hp_content_length hp_chunks read_body_chunks].
    rewrite zlen_encode_response. guards. unfold saturating_add64.
    rewrite zlen_nil, Z.min_l by (unfold u64_bound; lia). guards. cbn.
    destruct Hwf as [Hg _].
    assert (slice_ok (encode_evaluate_response (er_generation request) v)) as Hs.
    { split; [apply bytes_ok_response|]. rewrite zlen_encode_response. lia. }
    rewrite (proj2 (evaluate_response_exact _ (er_generation request) v Hs)) by done.
    cbn. by rewrite Z.eqb_refl.
  - unfold reply_error. case_bool_decide; (split; [apply lookup_insert_eq|]); cbn; eauto.
Qed.
