(* ===== verification/Coordinator.v ===== *)
(** * The coordinator

    Models [server/enhance-pir-server/src/coordinator.rs]: table sources,
    publication of a generation over groups of replicas, the retained
    generations, the session handed to wallets, and the distributed answer to a
    query; with [GenerationManifest] and [TableManifest] of [types.rs].  The
    packing of a response belongs to the PIR library and is the class
    [IpirPack].  Concurrent tasks finish in an order the class [Schedule]
    chooses; each touches its own worker, so running them in spawn order and
    reordering the results covers every interleaving. *)

From Stdlib Require Import ZArith Lia.
From stdpp Require Import base numbers sorting countable pretty strings gmap list.
From S2P Require Import Prelude Cursor FilterTypes Instances EnhanceTypes RecordJournal Wire Ipir Worker Fleet.

Open Scope Z_scope.

(** ** The PIR library's packing *)

Class IpirPack := {
  preprocessed_blocks : Type;
  top_key_images : Type;
  packing_keys : Type;
  packed_blocks : Type;
  build_pack_preprocessed_blocks : RlweParams -> list CrsBlock -> result string preprocessed_blocks;
  TopKeyImages_build : RlweParams -> top_key_images;
  published_c1_rows : preprocessed_blocks -> Z -> list Z;
  serialized_packing_keys_len : RlweParams -> Z;
  deserialize_packing_keys : RlweParams -> list Z -> result string packing_keys;
  pack_intermediate_blocks :
    list Z -> packing_keys -> top_key_images -> preprocessed_blocks -> result string packed_blocks;
  serialize_rlwe_response_bodies : packed_blocks -> Z -> list Z }.

(** The order in which a [JoinSet] yields its results. *)
Class Schedule := {
  join_order : forall A, list A -> list A;
  join_order_perm A (l : list A) : Permutation (join_order A l) l }.

(** Base64 of the public parameters. *)
Class Base64 := base64_encode : list Z -> string.

(** ** Manifests *)

Record TableManifest := {
  tm_record_bytes : Z; tm_records_per_row : Z; tm_row_bytes : Z; tm_shard_rows : Z;
  tm_positions : Z; tm_used_rows : Z; tm_logical_rows : Z; tm_parameter_id : string;
  tm_setup_seed : Z; tm_public_params_epoch : string; tm_public_params_sha256 : string;
  tm_shards : list ShardDescriptor }.

Record GenerationManifest := {
  gm_anchor_height : Z; gm_anchor_block_hash : string; gm_ironwood_tree_size : Z;
  gm_generation : Z; gm_tables : table_map TableManifest }.

Definition GenerationManifest_public (m : GenerationManifest) : option EnhanceGeneration :=
  match gm_tables m !! Enhance with
  | None => None
  | Some table => Some {|
      eg_schema_version := ENHANCE_SCHEMA_VERSION; eg_protocol_revision := PROTOCOL_REVISION;
      eg_network := ENHANCE_NETWORK; eg_pool := POOL;
      eg_anchor_height := gm_anchor_height m; eg_anchor_block_hash := gm_anchor_block_hash m;
      eg_ironwood_tree_size := gm_ironwood_tree_size m; eg_generation := gm_generation m;
      eg_record_bytes := tm_record_bytes table; eg_records_per_row := tm_records_per_row table;
      eg_row_bytes := tm_row_bytes table; eg_shard_rows := tm_shard_rows table;
      eg_used_rows := tm_used_rows table; eg_logical_rows := tm_logical_rows table;
      eg_parameter_id := tm_parameter_id table; eg_setup_seed := tm_setup_seed table;
      eg_public_params_epoch := tm_public_params_epoch table;
      eg_public_params_sha256 := tm_public_params_sha256 table; eg_shards := tm_shards table |}
  end.

(** ** Table sources *)

Record TableSource := {
  ts_table : DatabaseId;
  ts_layout : DatabaseLayout;
  ts_positions : Z;
  ts_shard_ids : Z * Z;
  ts_read_shard_rows : Z -> result string (list Z);
  ts_populated_positions_in_shard : Z -> Z }.

Definition JournalError_to_string (e : JournalError) : string :=
  match e with JE_Io m | JE_Invariant m => m | JE_Manifest => "manifest" end.

(** [TableJournal]: a journal, with the directory it reads, as a table. *)
Definition TableJournal_new (table : DatabaseId) (journal : RecordJournal) (d : jfiles) :
    result string TableSource :=
  if negb (bool_decide (rj_table journal = Some table))
  then Err "journal {} does not back the {table} table"%string
  else Ok {|
    ts_table := table; ts_layout := rj_layout journal;
    ts_positions := RecordJournal_tree_size journal;
    ts_shard_ids := RecordJournal_shard_ids journal;
    ts_read_shard_rows id :=
      map_err JournalError_to_string (RecordJournal_read_shard_rows journal d id);
    ts_populated_positions_in_shard := RecordJournal_populated_positions_in_shard journal |}.

Record Anchor := { an_height : Z; an_hash : string }.

(** ** State *)

Record ReadyWorkerGroup := { rg_replicas : list WorkerTarget; rg_next : Z }.

Record TableSnapshot `{IpirPack} := {
  sn_manifest : TableManifest; sn_ypir : YpirSchemeParams;
  sn_preprocessed : preprocessed_blocks; sn_top_key_images : top_key_images;
  sn_public_params : list Z; sn_public_params_epoch : list Z;
  sn_ready_groups : gmap string ReadyWorkerGroup }.

Record GenerationSnapshot `{IpirPack} := {
  gs_manifest : GenerationManifest; gs_tables : table_map TableSnapshot }.

Record TableState := {
  tb_setup : TableSetup; tb_rlwe : RlweParams; tb_hint_cache : gmap string (list CrsBlock);
  tb_query_slots : Z }.

Inductive CoordinatorPhase :=
| Syncing (current_height target_height : Z)
| Building (anchor_height : Z)
| Serving
| Failed (reason : string).

(** [non_serving_since] as the instant, when the phase is not [Serving]. *)
Record CoordinatorStatus := { cs_phase : CoordinatorPhase; cs_non_serving_since : option Z }.

Record CoordinatorState `{IpirPack} := {
  co_tables : table_map TableState;
  co_live : list GenerationSnapshot;
  co_status : CoordinatorStatus }.

Record EnhanceSession := {
  es_generation : EnhanceGeneration; es_params : YpirSchemeParams;
  es_public_params_base64 : string }.

Definition DEFAULT_QUERY_SLOTS : Z := 2.
Definition HEALTH_PHASE_GRACE_PERIOD : Z := 30.

(** ** Pure helpers *)

Definition next_generation (previous : option Z) (tip_height : Z) : Z :=
  match previous with
  | None => tip_height
  | Some generation => Z.max tip_height (saturating_add64 generation 1)
  end.

(** The replicas from the rotating start, wrapping around. *)
Definition replicas_for_request (g : ReadyWorkerGroup) : list WorkerTarget * ReadyWorkerGroup :=
  let n := length (rg_replicas g) in
  let start := Z.to_nat (rg_next g mod Z.of_nat n) in
  (omap (fun offset => rg_replicas g !! ((start + offset) mod n)%nat) (seq 0 n),
   {| rg_replicas := rg_replicas g; rg_next := wrap64 (rg_next g + 1) |}).

Definition is_ready (phase : CoordinatorPhase) (has_live_snapshot : bool) : bool :=
  has_live_snapshot && match phase with Serving | Building _ => true | _ => false end.

(** Seconds; the comparison is strict. *)
Definition health_status (phase : CoordinatorPhase) (non_serving_for : Z) : Z :=
  match phase with
  | Serving => 200
  | Failed _ => 503
  | Syncing _ _ | Building _ =>
      if HEALTH_PHASE_GRACE_PERIOD <? non_serving_for then 503 else 200
  end.

Definition set_phase_status (s : CoordinatorStatus) (phase : CoordinatorPhase) (now : Z) :
    CoordinatorStatus :=
  {| cs_phase := phase;
     cs_non_serving_since :=
       match phase with
       | Serving => None
       | _ => match cs_non_serving_since s with None => Some now | since => since end
       end |}.

Section coordinator.
Context {layouts : Layouts} `{Hex} `{Sha256} `{Ipir} `{IpirServer} `{IpirPack} `{Schedule}
  `{Base64} {N : Type} `{!Http N}.

(** ** Construction *)

Fixpoint has_adjacent_duplicates (names : list string) : bool :=
  match names with
  | a :: (b :: _) as rest => bool_decide (a = b) || has_adjacent_duplicates rest
  | _ => false
  end.

Definition name_le (a b : string) : Prop := String.leb a b = true.
#[local] Instance name_le_dec : RelDecision name_le.
Proof. intros a b. unfold name_le. apply _. Defined.

(** Inserting the replica names of one group into the set; [None] on a
    duplicate. *)
Fixpoint insert_names (names : list string) (seen : gset string) : option (gset string) :=
  match names with
  | [] => Some seen
  | name :: names =>
      if bool_decide (name ∈ seen) then None else insert_names names ({[name]} ∪ seen)
  end.

Fixpoint check_groups (groups : list WorkerGroup) (seen : gset string) : result string unit :=
  match groups with
  | [] => Ok tt
  | group :: groups =>
      if bool_decide (wg_name group = ""%string)
      then Err "worker group name in {} must not be empty"%string else
      match wg_replicas group with
      | [] => Err "worker group {} in {} needs at least one replica"%string
      | replicas =>
          match insert_names (WorkerTarget_name <$> replicas) seen with
          | None => Err "worker replica names in the {} pool must be unique"%string
          | Some seen => check_groups groups seen
          end
      end
  end.

Fixpoint build_tables (setups : list TableSetup) (query_slots : Z) (tables : table_map TableState) :
    result string (table_map TableState) :=
  match setups with
  | [] => Ok tables
  | setup :: setups =>
      match su_groups setup with
      | [] => Err "table {} needs at least one worker group"%string
      | _ =>
          let group_names := merge_sort name_le (wg_name <$> su_groups setup) in
          if has_adjacent_duplicates group_names
          then Err "worker group names in the {} pool must be unique"%string else
          let? _ := check_groups (su_groups setup) ∅ in
          match tables !! su_table setup with
          | Some _ => Err "table {} is configured twice"%string
          | None =>
              let? (rlwe, _) :=
                map_err InspiringError_to_string (shard_parameters (layout_of (su_table setup))) in
              build_tables setups query_slots
                (<[su_table setup := {| tb_setup := setup; tb_rlwe := rlwe; tb_hint_cache := ∅;
                                        tb_query_slots := Z.max query_slots 1 |}]> tables)
          end
      end
  end.

Definition CoordinatorState_with_query_slots (setups : list TableSetup) (query_slots now : Z) :
    result string CoordinatorState :=
  match setups with
  | [] => Err "at least one PIR table is required"%string
  | _ =>
      let? tables := build_tables setups query_slots ∅ in
      Ok {| co_tables := tables; co_live := [];
            co_status := {| cs_phase := Syncing 0 0; cs_non_serving_since := Some now |} |}
  end.

Definition set_phase (c : CoordinatorState) (phase : CoordinatorPhase) (now : Z) :
    CoordinatorState :=
  {| co_tables := co_tables c; co_live := co_live c;
     co_status := set_phase_status (co_status c) phase now |}.

Definition coordinator_table (c : CoordinatorState) (table : DatabaseId) :
    result string TableState :=
  ok_or (co_tables c !! table) "table {table} is not served"%string.

Definition newest (c : CoordinatorState) : option GenerationSnapshot := head (co_live c).

Definition generation (c : CoordinatorState) (g : Z) : option GenerationSnapshot :=
  List.find (fun snapshot => gm_generation (gs_manifest snapshot) =? g) (co_live c).

Definition session (c : CoordinatorState) : option EnhanceSession :=
  match newest c with
  | None => None
  | Some snapshot =>
      match gs_tables snapshot !! Enhance, GenerationManifest_public (gs_manifest snapshot) with
      | Some table, Some g => Some {|
          es_generation := g; es_params := sn_ypir table;
          es_public_params_base64 := base64_encode (sn_public_params table) |}
      | _, _ => None
      end
  end.

(** ** Preparing one shard on one replica *)

Definition hint_key (replica : string) (shard_id query_row_start : Z) (rows_sha256 : string) :
    string :=
  replica +:+ ":" +:+ pretty shard_id +:+ ":" +:+ pretty query_row_start +:+ ":" +:+ rows_sha256.

Definition hint_prefix (replica : string) (shard_id : Z) : string :=
  replica +:+ ":" +:+ pretty shard_id +:+ ":".

Definition prepare_replica_shard (cache : gmap string (list CrsBlock)) (wd : World N)
    (replica : WorkerTarget) (table : DatabaseId) (shard_id query_row_start logical_rows : Z)
    (rows_sha256 : string) (rows : list Z) (expected_blocks degree : Z) :
    result string (list CrsBlock) * gmap string (list CrsBlock) * World N :=
  let cache_key := hint_key (WorkerTarget_name replica) shard_id query_row_start rows_sha256 in
  let prepare (wd : World N) :=
    let '(r, wd) := prepare_worker wd replica table shard_id query_row_start logical_rows
                      rows_sha256 rows in
    match r with
    | Err e => (Err e, cache, wd)
    | Ok _ =>
        let '(r, wd) := fetch_hint wd replica table shard_id in
        match r with
        | Err e => (Err e, cache, wd)
        | Ok encoded =>
            match decode_crs_blocks encoded expected_blocks degree with
            | Err e => (Err (WireError_to_string e), cache, wd)
            | Ok hint =>
                let shard_prefix := hint_prefix (WorkerTarget_name replica) shard_id in
                let cache :=
                  filter (fun '(key, _) => String.prefix shard_prefix key = false) cache in
                (Ok hint, <[cache_key := hint]> cache, wd)
            end
        end
    end in
  match cache !! cache_key with
  | Some hint =>
      match ensure_worker wd replica table shard_id query_row_start rows_sha256 with
      | (Ok _, wd) => (Ok hint, cache, wd)
      | (Err _, wd) => prepare wd
      end
  | None => prepare wd
  end.

(** The tasks of one shard, in spawn order. *)
Fixpoint prepare_replicas (cache : gmap string (list CrsBlock)) (wd : World N)
    (replicas : list WorkerTarget) (table : DatabaseId)
    (shard_id query_row_start logical_rows : Z) (digest : string) (rows : list Z)
    (expected_blocks degree : Z) :
    list (string * result string (list CrsBlock)) * gmap string (list CrsBlock) * World N :=
  match replicas with
  | [] => ([], cache, wd)
  | replica :: replicas =>
      let '(r, cache, wd) := prepare_replica_shard cache wd replica table shard_id query_row_start
                               logical_rows digest rows expected_blocks degree in
      let '(rs, cache, wd) := prepare_replicas cache wd replicas table shard_id query_row_start
                                logical_rows digest rows expected_blocks degree in
      ((WorkerTarget_name replica, r) :: rs, cache, wd)
  end.

(** ** Building one table of a generation *)

Definition candidates : Type := gmap string (gmap string (WorkerTarget * list ActivateShard)).

Record BuildState := {
  bs_candidates : candidates; bs_descriptors : list ShardDescriptor;
  bs_crs : option (list CrsBlock); bs_cache : gmap string (list CrsBlock); bs_world : World N }.

Definition initial_candidates (groups : list WorkerGroup) : candidates :=
  list_to_map ((fun group =>
    (wg_name group,
     list_to_map ((fun replica => (WorkerTarget_name replica, (replica, []))) <$>
       wg_replicas group))) <$> groups).

Definition successes (results : list (string * result string (list CrsBlock))) :
    list (string * list CrsBlock) :=
  omap (fun '(name, r) => match r with Ok hint => Some (name, hint) | Err _ => None end) results.

#[local] Instance CrsBlock_eq_dec : EqDecision CrsBlock.
Proof. solve_decision. Defined.

Definition add_crs (crs : option (list CrsBlock)) (hint : list CrsBlock) (rlwe : RlweParams) :
    option (list CrsBlock) * result string unit :=
  match crs with
  | Some accumulator =>
      let '(accumulator, r) := add_crs_blocks_assign_mod accumulator hint rlwe in
      (Some accumulator, map_err InspiringError_to_string r)
  | None => (Some hint, Ok tt)
  end.

(** One iteration of the shard loop of [build_table]. *)
Definition build_shard (source : TableSource) (groups : list WorkerGroup) (rlwe : RlweParams)
    (ypir : YpirSchemeParams) (logical_rows shard_id : Z) (bs : BuildState) :
    BuildState * result string unit :=
  let table := ts_table source in
  let layout := ts_layout source in
  match group_index_for_shard shard_id (Z.of_nat (length groups)) with
  | None => (bs, Err "{table} shard {shard_id} exceeds the capacity of {} worker groups"%string)
  | Some group_index =>
  match groups !! Z.to_nat group_index with
  | None => (bs, Err "index out of bounds"%string)
  | Some group =>
  match ts_read_shard_rows source shard_id with
  | Err e => (bs, Err e)
  | Ok rows =>
  let digest := RecordJournal_rows_digest rows in
  let query_row_start := wrap64 (shard_id * shard_rows layout) in
  let group_candidates := default ∅ (bs_candidates bs !! wg_name group) in
  let replicas := (fun entry => fst (snd entry)) <$> sorted_entries group_candidates in
  match replicas with
  | [] => (bs, Err "worker group {} has no replica with a complete {table} assignment"%string)
  | _ =>
  let '(results, cache, wd) :=
    prepare_replicas (bs_cache bs) (bs_world bs) replicas table shard_id query_row_start
      logical_rows digest rows (db_cols ypir / rlwe_d rlwe) (rlwe_d rlwe) in
  let bs := {| bs_candidates := bs_candidates bs; bs_descriptors := bs_descriptors bs;
               bs_crs := bs_crs bs; bs_cache := cache; bs_world := wd |} in
  let successful := successes (join_order _ results) in
  match successful with
  | [] => (bs, Err "worker group {} has no ready replica for {table} shard {shard_id}"%string)
  | (_, canonical_hint) :: _ =>
  let accepted := fst <$> filter (fun '(_, hint) => hint = canonical_hint) successful in
  let group_candidates :=
    (fun '(replica, assignment) =>
       (replica, assignment ++ [{| as_shard_id := shard_id; as_rows_sha256 := digest |}])) <$>
    filter (fun '(name, _) => name ∈ accepted) group_candidates in
  let bs := {| bs_candidates := <[wg_name group := group_candidates]> (bs_candidates bs);
               bs_descriptors := bs_descriptors bs;
               bs_crs := bs_crs bs; bs_cache := bs_cache bs; bs_world := bs_world bs |} in
  if bool_decide (dom group_candidates = ∅)
  then (bs, Err "worker group {} has no replica with a complete matching {table} assignment"%string)
  else
  let '(crs, r) := add_crs (bs_crs bs) canonical_hint rlwe in
  let populated := ts_populated_positions_in_shard source shard_id in
  let descriptor :=
    {| sd_shard_id := shard_id; sd_global_row_start := wrap64 (shard_id * shard_rows layout);
       sd_populated_positions := populated; sd_rows_sha256 := digest;
       sd_sealed := populated =? DatabaseLayout_shard_positions layout;
       sd_worker := wg_name group |} in
  ({| bs_candidates := bs_candidates bs;
      bs_descriptors := match r with
                        | Ok _ => bs_descriptors bs ++ [descriptor]
                        | Err _ => bs_descriptors bs end;
      bs_crs := crs; bs_cache := bs_cache bs; bs_world := bs_world bs |}, r)
  end end end end end.

Fixpoint build_shards (source : TableSource) (groups : list WorkerGroup) (rlwe : RlweParams)
    (ypir : YpirSchemeParams) (logical_rows : Z) (shard_ids : list Z) (bs : BuildState) :
    BuildState * result string unit :=
  match shard_ids with
  | [] => (bs, Ok tt)
  | shard_id :: shard_ids =>
      match build_shard source groups rlwe ypir logical_rows shard_id bs with
      | (bs, Err e) => (bs, Err e)
      | (bs, Ok _) => build_shards source groups rlwe ypir logical_rows shard_ids bs
      end
  end.

(** Activating the replicas that completed a group's assignment. *)
Fixpoint activate_replicas (wd : World N) (table : DatabaseId) (g : Z)
    (replicas : list (WorkerTarget * list ActivateShard)) : list WorkerTarget * World N :=
  match replicas with
  | [] => ([], wd)
  | (replica, shards) :: replicas =>
      let '(r, wd) := activate_worker wd replica
        {| ar_generation := g; ar_tables := {[table := shards]} |} in
      let '(ready, wd) := activate_replicas wd table g replicas in
      (match r with Ok _ => replica :: ready | Err _ => ready end, wd)
  end.

Fixpoint activate_groups (wd : World N) (table : DatabaseId) (g : Z) (used : list string)
    (groups : list (string * gmap string (WorkerTarget * list ActivateShard))) :
    result string (gmap string ReadyWorkerGroup) * World N :=
  match groups with
  | [] => (Ok ∅, wd)
  | (group_name, replicas) :: groups =>
      if bool_decide (group_name ∈ used) then
        let '(ready, wd) := activate_replicas wd table g (snd <$> sorted_entries replicas) in
        match ready with
        | [] => (Err "worker group {group_name} did not activate any replica for generation"%string, wd)
        | _ =>
            let '(rest, wd) := activate_groups wd table g used groups in
            (let? rest := rest in
             Ok (<[group_name := {| rg_replicas := ready; rg_next := 0 |}]> rest), wd)
        end
      else activate_groups wd table g used groups
  end.

Definition parameter_id (table : DatabaseId) (rlwe : RlweParams) (ypir : YpirSchemeParams) : string :=
  PROTOCOL_REVISION +:+ "-" +:+ DatabaseId_as_str table +:+ "-d" +:+ pretty (rlwe_d rlwe) +:+
  "-p" +:+ pretty (ypir_p ypir) +:+ "-rows" +:+ pretty (db_rows ypir) +:+
  "-cols" +:+ pretty (db_cols ypir).

(** The last part of [build_table]: the snapshot from the summed hint. *)
Definition finish_table (source : TableSource) (rlwe : RlweParams) (ypir : YpirSchemeParams)
    (used_rows logical_rows : Z) (descriptors : list ShardDescriptor)
    (combined_crs : option (list CrsBlock)) (ready_groups : gmap string ReadyWorkerGroup) :
    result string TableSnapshot :=
  let table := ts_table source in
  let layout := ts_layout source in
  let? combined_crs := ok_or combined_crs "no CRS contributions"%string in
  let? preprocessed := build_pack_preprocessed_blocks rlwe combined_crs in
  let public_params := published_c1_rows preprocessed (rlwe_q rlwe) in
  let public_digest := sha256 public_params in
  let epoch := take 8 public_digest in
  Ok {| sn_manifest := {|
          tm_record_bytes := wrap32 (record_bytes layout);
          tm_records_per_row := wrap32 (records_per_row layout);
          tm_row_bytes := wrap32 (DatabaseLayout_row_bytes layout);
          tm_shard_rows := wrap32 (shard_rows layout);
          tm_positions := ts_positions source; tm_used_rows := used_rows;
          tm_logical_rows := logical_rows; tm_parameter_id := parameter_id table rlwe ypir;
          tm_setup_seed := DatabaseId_setup_seed table;
          tm_public_params_epoch := hex_encode epoch;
          tm_public_params_sha256 := hex_encode public_digest; tm_shards := descriptors |};
        sn_ypir := ypir; sn_preprocessed := preprocessed;
        sn_top_key_images := TopKeyImages_build rlwe; sn_public_params := public_params;
        sn_public_params_epoch := epoch; sn_ready_groups := ready_groups |}.

Definition set_hint_cache (c : CoordinatorState) (table : DatabaseId)
    (cache : gmap string (list CrsBlock)) : CoordinatorState :=
  {| co_tables := alter (fun t => {| tb_setup := tb_setup t; tb_rlwe := tb_rlwe t;
       tb_hint_cache := cache; tb_query_slots := tb_query_slots t |}) table (co_tables c);
     co_live := co_live c; co_status := co_status c |}.

#[local] Instance DatabaseLayout_eq_dec : EqDecision DatabaseLayout.
Proof. solve_decision. Defined.

Definition build_table (c : CoordinatorState) (wd : World N) (source : TableSource) (g : Z) :
    result string TableSnapshot * CoordinatorState * World N :=
  let table := ts_table source in
  match coordinator_table c table with
  | Err e => (Err e, c, wd)
  | Ok state =>
  let layout := ts_layout source in
  if negb (bool_decide (layout = layout_of table))
  then (Err "source layout for {table} does not match the protocol"%string, c, wd) else
  if ts_positions source =? 0 then (Err "cannot publish an empty {table} table"%string, c, wd) else
  let used_rows := DatabaseLayout_used_rows_for layout (ts_positions source) in
  let logical_rows := DatabaseLayout_logical_rows_for layout used_rows in
  match global_parameters logical_rows layout with
  | Err e => (Err (InspiringError_to_string e), c, wd)
  | Ok (global_rlwe, ypir) =>
  let rlwe := tb_rlwe state in
  if negb (rlwe_d global_rlwe =? rlwe_d rlwe) || negb (rlwe_q global_rlwe =? rlwe_q rlwe)
  then (Err "{table}: global RLWE parameters changed unexpectedly"%string, c, wd) else
  let groups := su_groups (tb_setup state) in
  let '(lo, hi) := ts_shard_ids source in
  let '(bs, r) := build_shards source groups rlwe ypir logical_rows (seqZ lo (hi - lo + 1))
    {| bs_candidates := initial_candidates groups; bs_descriptors := []; bs_crs := None;
       bs_cache := tb_hint_cache state; bs_world := wd |} in
  let c := set_hint_cache c table (bs_cache bs) in
  let wd := bs_world bs in
  match r with
  | Err e => (Err e, c, wd)
  | Ok _ =>
  let used := sd_worker <$> bs_descriptors bs in
  let '(ready, wd) := activate_groups wd table g used (sorted_entries (bs_candidates bs)) in
  (let? ready_groups := ready in
   finish_table source rlwe ypir used_rows logical_rows (bs_descriptors bs) (bs_crs bs) ready_groups,
   c, wd)
  end end end.

(** ** Publication *)

Fixpoint publish_tables (c : CoordinatorState) (wd : World N) (sources : list TableSource) (g : Z) :
    result string (table_map TableSnapshot) * CoordinatorState * World N :=
  match sources with
  | [] => (Ok ∅, c, wd)
  | source :: sources =>
      match build_table c wd source g with
      | (Err e, c, wd) => (Err e, c, wd)
      | (Ok snapshot, c, wd) =>
          let '(r, c, wd) := publish_tables c wd sources g in
          (let? rest := r in
           (** a later source for the same table wins *)
           Ok (rest ∪ {[ts_table source := snapshot]}), c, wd)
      end
  end.

(** The previous generations kept behind the new one. *)
Definition retain (snapshot : GenerationSnapshot) (live : list GenerationSnapshot) :
    list GenerationSnapshot :=
  let g := gm_generation (gs_manifest snapshot) in
  take RETAINED_GENERATIONS
    (snapshot :: filter (fun previous => gm_generation (gs_manifest previous) <> g) live).

Definition publish (c : CoordinatorState) (wd : World N) (sources : list TableSource)
    (anchor : Anchor) (now : Z) : result string unit * CoordinatorState * World N :=
  let sources := filter (fun source => is_Some (co_tables c !! ts_table source)) sources in
  match sources with
  | [] => (Err "nothing to publish"%string, c, wd)
  | _ =>
  let c := set_phase c (Building (an_height anchor)) now in
  let previous := newest c in
  let g := next_generation ((fun s => gm_generation (gs_manifest s)) <$> previous)
             (an_height anchor) in
  let ironwood_tree_size :=
    match List.find (fun source => bool_decide (ts_table source = Enhance)) sources with
    | Some source => ts_positions source
    | None => match previous with
              | Some snapshot => gm_ironwood_tree_size (gs_manifest snapshot)
              | None => 0
              end
    end in
  match publish_tables c wd sources g with
  | (Err e, c, wd) => (Err e, c, wd)
  | (Ok snapshots, c, wd) =>
      let snapshot := {|
        gs_manifest := {| gm_anchor_height := an_height anchor;
                          gm_anchor_block_hash := an_hash anchor;
                          gm_ironwood_tree_size := ironwood_tree_size; gm_generation := g;
                          gm_tables := sn_manifest <$> snapshots |};
        gs_tables := snapshots |} in
      let c := {| co_tables := co_tables c; co_live := retain snapshot (co_live c);
                  co_status := co_status c |} in
      (Ok tt, set_phase c Serving now, wd)
  end end.

Definition publish_from_store (c : CoordinatorState) (wd : World N) (store : RecordJournal)
    (d : jfiles) (anchor_height : Z) (anchor_hash : string) (now : Z) :
    result string unit * CoordinatorState * World N :=
  match TableJournal_new Enhance store d with
  | Err e => (Err e, c, wd)
  | Ok enhance =>
      publish c wd [enhance] {| an_height := anchor_height; an_hash := anchor_hash |} now
  end.

(** ** Queries *)

(** Slicing the first-dimension query over the published shards, by group. *)
Fixpoint slice_query (global_query : list Z) (rows_per_shard : Z) (shards : list ShardDescriptor) :
    result string (list (string * ShardQuery)) :=
  match shards with
  | [] => Ok []
  | shard :: shards =>
      let start := sd_global_row_start shard in
      let? coefficients :=
        ok_or (get_range global_query start (wrap64 (start + rows_per_shard)))
          "query does not cover a published shard"%string in
      let? rest := slice_query global_query rows_per_shard shards in
      Ok ((sd_worker shard, {| sq_shard_id := sd_shard_id shard; sq_coefficients := coefficients |})
          :: rest)
  end.

(** [by_group.entry(worker).or_default().push(..)] for each shard in turn. *)
Definition group_queries (sliced : list (string * ShardQuery)) : gmap string (list ShardQuery) :=
  foldl (fun m '(worker, query) => <[worker := default [] (m !! worker) ++ [query]]> m) ∅ sliced.

(** One task: the replicas in turn until one answers or fails for good. *)
Fixpoint try_replicas (wd : World N) (replicas : list WorkerTarget) (table : DatabaseId)
    (request : EvaluateRequest) (last_error : option string) :
    result string (list Z) * World N :=
  match replicas with
  | [] => (Err (default "worker group has no ready replica"%string last_error), wd)
  | replica :: replicas =>
      match evaluate_worker wd replica table request with
      | (Ok partial, wd) => (Ok partial, wd)
      | (Err e, wd) =>
          if negb (we_retryable e) then (Err (we_message e), wd)
          else try_replicas wd replicas table request (Some (we_message e))
      end
  end.

(** Spawning a task per ready group that owns a queried shard: the results, the
    advanced rotation of each group asked, and the groups never reached. *)
Fixpoint run_groups (wd : World N) (ready : list (string * ReadyWorkerGroup)) (table : DatabaseId)
    (g : Z) (by_group : gmap string (list ShardQuery)) :
    list (result string (list Z)) * gmap string ReadyWorkerGroup *
    gmap string (list ShardQuery) * World N :=
  match ready with
  | [] => ([], ∅, by_group, wd)
  | (group_name, group) :: ready =>
      match by_group !! group_name with
      | None => run_groups wd ready table g by_group
      | Some shards =>
          let '(replicas, group) := replicas_for_request group in
          let '(r, wd) := try_replicas wd replicas table
            {| er_generation := g; er_shards := shards |} None in
          let '(rs, advanced, by_group, wd) :=
            run_groups wd ready table g (delete group_name by_group) in
          (r :: rs, <[group_name := group]> advanced, by_group, wd)
      end
  end.

(** The [join_next] loop: sum the partial answers, stop at the first error. *)
Fixpoint combine_partials (results : list (result string (list Z))) (q : Z) (combined : list Z) :
    result string (list Z) :=
  match results with
  | [] => Ok combined
  | r :: results =>
      let? partial := r in
      match add_intermediate_assign_mod combined partial q with
      | (_, Err e) => Err (InspiringError_to_string e)
      | (combined, Ok _) => combine_partials results q combined
      end
  end.

(** The rotation counters live in the shared snapshot. *)
Definition advance_groups (c : CoordinatorState) (g : Z) (table : DatabaseId)
    (advanced : gmap string ReadyWorkerGroup) : CoordinatorState :=
  let advance_table t := {|
    sn_manifest := sn_manifest t; sn_ypir := sn_ypir t; sn_preprocessed := sn_preprocessed t;
    sn_top_key_images := sn_top_key_images t; sn_public_params := sn_public_params t;
    sn_public_params_epoch := sn_public_params_epoch t;
    sn_ready_groups := advanced ∪ sn_ready_groups t |} in
  {| co_tables := co_tables c;
     co_live := (fun s =>
       if gm_generation (gs_manifest s) =? g
       then {| gs_manifest := gs_manifest s; gs_tables := alter advance_table table (gs_tables s) |}
       else s) <$> co_live c;
     co_status := co_status c |}.

(** The checks and the slicing before any worker is asked. *)
Definition parse_query (c : CoordinatorState) (table : DatabaseId) (body : list Z) :
    result string (Z * RlweParams * TableSnapshot * packing_keys * gmap string (list ShardQuery)) :=
  let? state := coordinator_table c table in
  let rlwe := tb_rlwe state in
  let? generation_bytes := ok_or (get_range body 0 8) "query is truncated"%string in
  let g := le_val generation_bytes in
  let? snapshot := ok_or (generation c g) "query generation is not retained"%string in
  let? live := ok_or (gs_tables snapshot !! table) "generation has no {table} table"%string in
  let packing_len := serialized_packing_keys_len rlwe in
  let switched_len := div_ceil (wrap64 (db_rows (sn_ypir live) * query_bits (sn_ypir live))) 8 in
  if negb (zlen body =? wrap64 (8 + packing_len + switched_len))
  then Err "query has the wrong fixed length"%string else
  let? keys := deserialize_packing_keys rlwe (slice body 8 (8 + packing_len)) in
  let? global_query := map_err InspiringError_to_string
    (deserialize_first_dim_query rlwe (sn_ypir live) (drop (Z.to_nat (8 + packing_len)) body)) in
  let? sliced := slice_query global_query (shard_rows (layout_of table)) (tm_shards (sn_manifest live)) in
  Ok (g, rlwe, live, keys, group_queries sliced).

Definition answer_query (c : CoordinatorState) (wd : World N) (table : DatabaseId) (body : list Z) :
    result string (list Z) * CoordinatorState * World N :=
  match parse_query c table body with
  | Err e => (Err e, c, wd)
  | Ok (g, rlwe, live, keys, by_group) =>
  let '(results, advanced, unreached, wd) :=
    run_groups wd (sorted_entries (sn_ready_groups live)) table g by_group in
  let c := advance_groups c g table advanced in
  (if negb (bool_decide (unreached = ∅))
   then Err "snapshot references an unavailable worker group"%string else
   let? combined := combine_partials (join_order _ results) (rlwe_q rlwe)
     (replicate (Z.to_nat (db_cols (sn_ypir live))) 0) in
   if (length results =? 0)%nat then Err "no worker evaluated the query"%string else
   let? packed := pack_intermediate_blocks combined keys (sn_top_key_images live)
                    (sn_preprocessed live) in
   let c2 := serialize_rlwe_response_bodies packed (q_prime_1 (sn_ypir live)) in
   Ok (le_bytes 8 g ++ sn_public_params_epoch live ++ c2), c, wd)
  end.

(** ** HTTP handlers *)

(** [answer]: admission, then the query.  [admitted] is whether a slot came free
    within the bounded wait. *)
Definition answer_handler (c : CoordinatorState) (wd : World N) (table : DatabaseId)
    (body : list Z) (admitted : bool) : Z * list Z * CoordinatorState * World N :=
  match coordinator_table c table with
  | Err _ => (404, [], c, wd)
  | Ok _ =>
      if negb admitted then (503, [], c, wd) else
      match answer_query c wd table body with
      | (Ok response, c, wd) => (200, response, c, wd)
      | (Err _, c, wd) => (503, [], c, wd)
      end
  end.

Definition ready_handler (c : CoordinatorState) : Z :=
  if is_ready (cs_phase (co_status c)) (match newest c with Some _ => true | None => false end)
  then 200 else 503.

(** [health]'s status at an instant. *)
Definition health_handler (c : CoordinatorState) (now : Z) : Z :=
  let non_serving_for :=
    match cs_non_serving_since (co_status c) with Some since => now - since | None => 0 end in
  health_status (cs_phase (co_status c)) non_serving_for.

Definition enhance_session_handler (c : CoordinatorState) : result Z EnhanceSession :=
  ok_or (session c) 503.
End coordinator.

(** ** Grouping queries *)

Definition queries_for (name : string) (sliced : list (string * ShardQuery)) : list ShardQuery :=
  snd <$> filter (fun e => fst e = name) sliced.

Lemma group_queries_lookup sliced name :
  group_queries sliced !! name =
  match queries_for name sliced with [] => None | qs => Some qs end.
Proof.
  unfold group_queries, queries_for.
  induction sliced as [|[w q] sliced IH] using rev_ind; [done|].
  rewrite foldl_app, filter_app, fmap_app. cbn [foldl].
  rewrite lookup_insert, filter_cons, filter_nil. cbn [fst].
  case_decide as E; [subst w|].
  - rewrite IH. cbn [fmap list_fmap snd]. by destruct (snd <$> filter _ sliced).
  - cbn [fmap list_fmap]. rewrite app_nil_r. exact IH.
Qed.

Lemma omap_ext_elem {A B} (f f' : A -> option B) (l : list A) :
  (forall x, x ∈ l -> f x = f' x) -> omap f l = omap f' l.
Proof.
  induction l as [|x l IH]; intros Hf; [done|]. cbn. rewrite (Hf x) by set_solver.
  rewrite IH by set_solver. done.
Qed.

Lemma filter_all {A} (P : A -> Prop) `{!forall x, Decision (P x)} (l : list A) :
  (forall x, x ∈ l -> P x) -> filter P l = l.
Proof.
  induction l as [|x l IH]; intros Hall; [done|].
  rewrite filter_cons_True by (apply Hall; set_solver). f_equal. apply IH. set_solver.
Qed.

(** Splitting a list by a set of distinct keys loses and duplicates nothing. *)
Lemma split_by_keys (names : list string) (l : list (string * ShardQuery)) :
  NoDup names ->
  Permutation (concat ((fun name => queries_for name l) <$> names))
    (snd <$> filter (fun e => fst e ∈ names) l).
Proof.
  intros Hnd. induction Hnd as [|name names Hin _ IH]; cbn [fmap list_fmap concat].
  - assert (filter (fun e => fst e ∈ []) l = []) as ->; [|done].
    induction l as [|e l IHl]; [done|]. by rewrite filter_cons_False by apply not_elem_of_nil.
  - rewrite IH. unfold queries_for. rewrite <- fmap_app. apply fmap_Permutation.
    clear IH. induction l as [|e l IH]; [done|].
    rewrite !filter_cons. destruct (decide (fst e = name)) as [E|E].
    + rewrite (decide_False (P := fst e ∈ names)) by congruence.
      rewrite decide_True by (rewrite E; set_solver). cbn. by rewrite IH.
    + destruct (decide (fst e ∈ names)) as [E'|E'].
      * rewrite decide_True by set_solver. by rewrite <- Permutation_middle, IH.
      * rewrite decide_False by set_solver. exact IH.
Qed.

(** ** Rotation *)

Lemma rotation_elem g r : r ∈ fst (replicas_for_request g) <-> r ∈ rg_replicas g.
Proof.
  unfold replicas_for_request. cbn [fst]. rewrite list_elem_of_omap. split.
  - intros (o & _ & Hr). by eapply list_elem_of_lookup_2.
  - intros Hr. apply list_elem_of_lookup in Hr as [i Hi].
    pose proof (lookup_lt_Some _ _ _ Hi) as Hlt.
    set (n := length (rg_replicas g)) in *.
    set (start := Z.to_nat (rg_next g mod Z.of_nat n)).
    assert (start < n)%nat as Hs.
    { unfold start. pose proof (Z.mod_pos_bound (rg_next g) (Z.of_nat n) ltac:(lia)). lia. }
    exists ((i + n - start) mod n)%nat. split.
    + apply elem_of_seq. pose proof (Nat.mod_upper_bound (i + n - start) n). lia.
    + rewrite Nat.Div0.add_mod_idemp_r. replace (start + (i + n - start))%nat with (i + 1 * n)%nat by lia.
      rewrite Nat.Div0.mod_add, Nat.mod_small by done. exact Hi.
Qed.

Section answer_laws.
Context {layouts : Layouts} `{Hex} `{Sha256} `{Ipir} `{IpirServer} `{IpirPack} `{Schedule}
  {N : Type} `{!Http N}.

(** A property of the workers that evaluations keep. *)
Context (I : World N -> Prop).

(** The replica answers the request with [v], or fails in a way the coordinator
    retries; [sure] says it answers. *)
Definition replica_serves (table : DatabaseId) (request : EvaluateRequest) (v : list Z)
    (replica : WorkerTarget) (sure : bool) : Prop :=
  forall wd, I wd ->
    let '(r, wd') := evaluate_worker wd replica table request in
    I wd' /\
    match r with Ok u => u = v | Err e => sure = false /\ we_retryable e = true end.

(** A group that can answer: every replica serves and one surely does. *)
Definition group_serves (table : DatabaseId) (request : EvaluateRequest) (v : list Z)
    (group : ReadyWorkerGroup) : Prop :=
  (forall r, r ∈ rg_replicas group -> replica_serves table request v r false) /\
  exists r, r ∈ rg_replicas group /\ replica_serves table request v r true.

Lemma try_replicas_serves wd replicas table request v last :
  I wd -> (forall r, r ∈ replicas -> replica_serves table request v r false) ->
  (exists r, r ∈ replicas /\ replica_serves table request v r true) ->
  exists wd', try_replicas wd replicas table request last = (Ok v, wd') /\ I wd'.
Proof.
  intros HI Hall Hone. revert wd last HI. induction replicas as [|r replicas IH]; intros wd last HI.
  - destruct Hone as (r & Hr & _). by apply elem_of_nil in Hr.
  - cbn [try_replicas]. pose proof (Hall r ltac:(set_solver) wd HI) as Hr.
    destruct (evaluate_worker wd r table request) as [[u|e] wd'] eqn:E.
    + destruct Hr as [HI' ->]. eauto.
    + destruct Hr as (HI' & _ & Hretry). rewrite Hretry. cbn [negb].
      apply IH; [set_solver| |done].
      destruct Hone as (s & Hs & Hsure). apply elem_of_cons in Hs as [->|Hs]; [|eauto].
      specialize (Hsure wd HI). rewrite E in Hsure. by destruct Hsure as (_ & ? & _).
Qed.

(** Every group that owns a queried shard contributes its partial answer. *)
Lemma run_groups_ok wd ready table g by_group v :
  I wd -> NoDup ready.*1 ->
  (forall name group qs, (name, group) ∈ ready -> by_group !! name = Some qs ->
     group_serves table {| er_generation := g; er_shards := qs |} (v qs) group) ->
  exists advanced unreached wd',
    run_groups wd ready table g by_group =
      (Ok <$> omap (fun name => v <$> by_group !! name) ready.*1, advanced, unreached, wd') /\
    (forall name, unreached !! name = if decide (name ∈ ready.*1) then None else by_group !! name).
Proof.
  intros HI Hnd. revert wd by_group HI.
  induction ready as [|[name group] ready IH]; intros wd by_group HI Hs.
  - cbn. do 3 eexists. split; [done|]. intros n. by rewrite decide_False by apply not_elem_of_nil.
  - rewrite fmap_cons in Hnd. apply NoDup_cons in Hnd as [Hin Hnd]. cbn [fst] in Hin.
    cbn [run_groups]. destruct (by_group !! name) as [qs|] eqn:Eq.
    + destruct (Hs name group qs ltac:(set_solver) Eq) as [Hall Hone].
      destruct (replicas_for_request group) as [replicas group'] eqn:Er.
      assert (forall r, r ∈ replicas <-> r ∈ rg_replicas group) as Hel.
      { intros r. rewrite <- rotation_elem, Er. done. }
      destruct (try_replicas_serves wd replicas table
        {| er_generation := g; er_shards := qs |} (v qs) None HI) as (wd1 & -> & HI1).
      { intros r Hr. by apply Hall, Hel. }
      { destruct Hone as (r & Hr & Hsure). exists r. split; [by apply Hel|done]. }
      destruct (IH Hnd wd1 (delete name by_group) HI1) as (adv & unr & wd' & -> & Hunr).
      { intros n' gr qs' Hn Hq. apply (Hs n' gr); [set_solver|].
        destruct (decide (n' = name)) as [->|Hne]; [by rewrite lookup_delete_eq in Hq|].
        by rewrite lookup_delete_ne in Hq. }
      do 3 eexists. split.
      * rewrite fmap_cons. cbn [omap list_omap fst]. rewrite Eq. cbn [fmap option_fmap option_map list_fmap].
        do 4 f_equal. f_equal. apply omap_ext_elem. intros x Hx.
        destruct (decide (x = name)) as [->|Hne]; [done|by rewrite lookup_delete_ne].
      * intros n. rewrite Hunr, fmap_cons. cbn [fst]. destruct (decide (n = name)) as [->|Hne].
        -- rewrite (decide_True (P := name ∈ name :: _)) by set_solver.
           rewrite lookup_delete_eq. by destruct (decide _).
        -- rewrite lookup_delete_ne by done.
           destruct (decide (n ∈ ready.*1)); [rewrite decide_True by set_solver; done|].
           rewrite decide_False by set_solver. done.
    + destruct (IH Hnd wd by_group HI) as (adv & unr & wd' & -> & Hunr).
      { intros n' gr qs' Hn. apply Hs. set_solver. }
      do 3 eexists. split.
      * rewrite fmap_cons. cbn [omap list_omap fst]. rewrite Eq. done.
      * intros n. rewrite Hunr, fmap_cons. cbn [fst]. destruct (decide (n = name)) as [->|Hne].
        -- rewrite (decide_True (P := name ∈ name :: _)) by set_solver. rewrite Eq.
           by destruct (decide _).
        -- destruct (decide (n ∈ ready.*1)); [rewrite decide_True by set_solver; done|].
           rewrite decide_False by set_solver. done.
Qed.

Lemma combine_ok q cols vs combined :
  2 <= q -> Forall (vec_ok q cols) vs -> vec_ok q cols combined ->
  combine_partials (Ok <$> vs) q combined = Ok (vec_add q (vec_sum q cols vs) combined).
Proof.
  intros Hq Hv. revert combined. induction Hv as [|v vs Hv Hvs IH]; intros combined Hc.
  - cbn [fmap list_fmap combine_partials]. f_equal. symmetry. by apply vec_add_zero.
  - cbn [fmap list_fmap combine_partials].
    rewrite (add_intermediate_ok q cols) by done.
    rewrite IH by (apply vec_add_ok; [lia|apply Hc|apply Hv]). f_equal. cbn [vec_sum foldr].
    rewrite (vec_add_comm _ combined v), (vec_add_assoc _ _ v combined). f_equal. apply vec_add_comm.
Qed.

(** ** Slicing *)

Lemma get_range_sub (l : list Z) a b :
  0 <= a <= b -> b <= zlen l ->
  exists xs, get_range l a b = Some xs /\ zlen xs = b - a /\
    xs = take (Z.to_nat (b - a)) (drop (Z.to_nat a) l).
Proof.
  intros Ha Hb. unfold get_range. guards. cbn [andb]. eexists. split; [done|]. split; [|done].
  unfold zlen in *. rewrite length_take, length_drop. lia.
Qed.

(** Published shards sit one after the other from row 0. *)
Definition contiguous (rows : Z) (k : nat) (shards : list ShardDescriptor) : Prop :=
  forall i d, shards !! i = Some d -> sd_global_row_start d = (Z.of_nat k + Z.of_nat i) * rows.

Lemma slice_query_ok query rows q shards k :
  0 < rows -> contiguous rows k shards -> zlen query < 2 ^ 63 -> reduced q query ->
  (Z.of_nat k + zlen shards) * rows <= zlen query ->
  exists sliced, slice_query query rows shards = Ok sliced /\
    sliced.*1 = sd_worker <$> shards /\
    sq_shard_id <$> sliced.*2 = sd_shard_id <$> shards /\
    Forall (fun sq => zlen (sq_coefficients sq) = rows /\ reduced q (sq_coefficients sq)) sliced.*2 /\
    concat (sq_coefficients <$> sliced.*2) =
      take (Z.to_nat (zlen shards * rows)) (drop (Z.to_nat (Z.of_nat k * rows)) query).
Proof.
  intros Hr Hc Hq Hred. revert k Hc. induction shards as [|d shards IH]; intros k Hc Hl.
  - exists []. by split_and!.
  - rewrite zlen_cons in Hl. pose proof (zlen_nonneg shards) as Hnn.
    assert (sd_global_row_start d = Z.of_nat k * rows) as Hd.
    { rewrite (Hc 0%nat d eq_refl). lia. }
    destruct (get_range_sub query (Z.of_nat k * rows) (Z.of_nat k * rows + rows))
      as (xs & Hg & Hxl & Hxs); [nia|nia|].
    destruct (IH (S k)) as (sliced & Hs & Hw & Hi & Hf & Hcat).
    { intros i d' Hd'. rewrite (Hc (S i) d' Hd'). lia. }
    { lia. }
    eexists. split; [|split_and!].
    + cbn [slice_query]. rewrite Hd. unfold wrap64. rewrite Z.mod_small by (unfold u64_bound; nia).
      rewrite Hg. cbn [ok_or]. rewrite Hs. reflexivity.
    + cbn. by rewrite Hw.
    + cbn. by rewrite Hi.
    + cbn. constructor; [|exact Hf]. cbn. split; [lia|]. rewrite Hxs.
      by apply Forall_take, Forall_drop.
    + cbn [fmap list_fmap snd sq_coefficients concat]. rewrite Hcat, Hxs, zlen_cons.
      replace (Z.to_nat ((1 + zlen shards) * rows)) with
        (Z.to_nat rows + Z.to_nat (zlen shards * rows))%nat by lia.
      replace (Z.to_nat (Z.of_nat (S k) * rows)) with
        (Z.to_nat (Z.of_nat k * rows) + Z.to_nat rows)%nat by lia.
      replace (Z.to_nat (Z.of_nat k * rows + rows - Z.of_nat k * rows)) with (Z.to_nat rows) by lia.
      rewrite <- drop_drop. apply take_take_drop.
Qed.

(** Summing per group is summing per shard. *)
Lemma sum_by_group q cols (f : ShardQuery -> list Z) sliced names :
  0 < q -> (forall sq, length (f sq) = cols) ->
  vec_sum q cols (omap (fun name => (fun qs => vec_sum q cols (f <$> qs)) <$>
    group_queries sliced !! name) names) =
  vec_sum q cols (f <$> concat ((fun name => queries_for name sliced) <$> names)).
Proof.
  intros Hq Hf. induction names as [|name names IH]; [done|].
  rewrite fmap_cons. cbn [concat omap list_omap]. rewrite group_queries_lookup, fmap_app.
  rewrite vec_sum_app by (done || apply Forall_fmap, Forall_true, Hf). rewrite <- IH.
  destruct (queries_for name sliced) as [|s qs]; cbn [fmap option_fmap option_map].
  - cbn [list_fmap vec_sum foldr]. symmetry. apply vec_add_zero, vec_sum_ok; [done|].
    clear IH. induction names as [|n names IHn]; [constructor|].
    cbn [omap list_omap]. destruct (group_queries sliced !! n) as [qs|]; cbn; [|done].
    constructor; [|done]. apply (vec_sum_ok q cols); [done|]. apply Forall_fmap, Forall_true, Hf.
  - done.
Qed.
End answer_laws.

(** Results that are all successes arrive as the same successes, reordered. *)
Lemma join_fmap `{Schedule} {A B} (f : A -> B) (l : list A) :
  exists ws : list A, join_order B (f <$> l) = f <$> ws /\ Permutation l ws.
Proof. apply (Permutation_map_inv f l (join_order_perm B (f <$> l))). Qed.

Section distributed.
Context {layouts : Layouts} `{Hex} `{Sha256} `{IpirParamsLaws} `{IpirServerLaws}
  `{!LayoutsFit} `{IpirPack} `{Schedule} {N : Type} `{!Http N}.

(** The matrix of a whole published table: the rows [R id] of each shard, one
    shard after the other. *)
Definition table_matrix (table : DatabaseId) (p : YpirSchemeParams) (R : Z -> list Z)
    (shards : list ShardDescriptor) : list (list Z) :=
  concat ((fun d => shard_matrix (layout_of table) p (R (sd_shard_id d))) <$> shards).

(** The answer a single server holding the whole table would give. *)
Definition monolithic_answer (g : Z) (table : DatabaseId) (rlwe : RlweParams)
    (p : YpirSchemeParams) (live : TableSnapshot) (R : Z -> list Z) (keys : packing_keys)
    (query : list Z) : result string (list Z) :=
  let shards := tm_shards (sn_manifest live) in
  let combined := matvec (rlwe_q rlwe) (Z.to_nat (db_cols p)) (table_matrix table p R shards)
    (take (Z.to_nat (zlen shards * shard_rows (layout_of table))) query) in
  let? packed := pack_intermediate_blocks combined keys (sn_top_key_images live)
                   (sn_preprocessed live) in
  Ok (le_bytes 8 g ++ sn_public_params_epoch live ++
      serialize_rlwe_response_bodies packed (q_prime_1 (sn_ypir live))).

(** What a published table and its workers must satisfy for a query. *)
Record table_served (I : World N -> Prop) (g : Z) (table : DatabaseId) (rlwe : RlweParams)
    (p : YpirSchemeParams) (live : TableSnapshot) (R : Z -> list Z) (query : list Z) : Prop := {
  tv_params : shard_parameters (layout_of table) = Ok (rlwe, p);
  tv_cols : db_cols (sn_ypir live) = db_cols p;
  tv_shards : tm_shards (sn_manifest live) <> [];
  tv_contiguous : contiguous (shard_rows (layout_of table)) 0 (tm_shards (sn_manifest live));
  tv_covered : zlen (tm_shards (sn_manifest live)) * shard_rows (layout_of table) <= zlen query;
  tv_query : reduced (rlwe_q rlwe) query /\ zlen query < 2 ^ 63;
  tv_ready : Forall (fun d => is_Some (sn_ready_groups live !! sd_worker d))
    (tm_shards (sn_manifest live));
  tv_serves sliced name group qs :
    slice_query query (shard_rows (layout_of table)) (tm_shards (sn_manifest live)) = Ok sliced ->
    sn_ready_groups live !! name = Some group -> group_queries sliced !! name = Some qs ->
    group_serves I table {| er_generation := g; er_shards := qs |}
      (expected_partial table rlwe p R qs) group }.

(** Summing the shards of the whole query is the monolithic product. *)
Lemma shards_sum_product I g table rlwe p live R query sliced :
  table_served I g table rlwe p live R query ->
  slice_query query (shard_rows (layout_of table)) (tm_shards (sn_manifest live)) = Ok sliced ->
  expected_partial table rlwe p R sliced.*2 =
  matvec (rlwe_q rlwe) (Z.to_nat (db_cols p)) (table_matrix table p R (tm_shards (sn_manifest live)))
    (take (Z.to_nat (zlen (tm_shards (sn_manifest live)) * shard_rows (layout_of table))) query).
Proof.
  intros [Hp _ _ Hc Hcov [Hred Hq] _ _] Hs. pose proof (layouts_fit _ _ _ Hp) as Hf.
  destruct (shard_parameters_facts _ _ _ Hp Hf) as (Hdb & Hrows & _ & _ & Hqb & _).
  rewrite Hdb in Hrows.
  destruct (slice_query_ok query _ (rlwe_q rlwe) _ 0%nat Hrows Hc Hq Hred ltac:(lia))
    as (sliced' & Hs' & _ & Hid & Hlen & Hcat). rewrite Hs in Hs'. injection Hs' as <-.
  change (Z.to_nat (Z.of_nat 0 * _)) with 0%nat in Hcat. rewrite drop_0 in Hcat.
  rewrite <- Hcat. unfold table_matrix, expected_partial.
  assert ((fun d => shard_matrix (layout_of table) p (R (sd_shard_id d))) <$>
     tm_shards (sn_manifest live) =
     (fun sq => shard_matrix (layout_of table) p (R (sq_shard_id sq))) <$> sliced.*2) as ->.
  { transitivity ((fun id => shard_matrix (layout_of table) p (R id)) <$>
      (sd_shard_id <$> tm_shards (sn_manifest live))); [by rewrite <- list_fmap_compose|].
    rewrite <- Hid. by rewrite <- list_fmap_compose. }
  rewrite matvec_concat.
  - f_equal. clear. induction sliced.*2 as [|sq l IH]; [done|]. cbn. by rewrite IH.
  - lia.
  - clear Hcat Hid Hs. induction Hlen as [|sq l [Hl _] _ IH]; [constructor|].
    cbn. constructor; [|exact IH].
    destruct (shard_matrix_shape _ _ _ (R (sq_shard_id sq)) Hp Hf) as [Hm _].
    unfold zlen in *. lia.
  - apply Forall_fmap, Forall_true. intros sq. by eapply shard_matrix_shape.
Qed.

(** The groups' partial answers add up to the sum over all shards. *)
Lemma groups_sum I g table rlwe p live R query sliced :
  table_served I g table rlwe p live R query ->
  slice_query query (shard_rows (layout_of table)) (tm_shards (sn_manifest live)) = Ok sliced ->
  let names := (sorted_entries (sn_ready_groups live)).*1 in
  vec_sum (rlwe_q rlwe) (Z.to_nat (db_cols p))
    (omap (fun name => expected_partial table rlwe p R <$> group_queries sliced !! name) names) =
  expected_partial table rlwe p R sliced.*2 /\
  (forall name, is_Some (group_queries sliced !! name) -> name ∈ names).
Proof.
  intros [Hp _ _ Hc Hcov [Hred Hq] Hready _] Hs names. pose proof (layouts_fit _ _ _ Hp) as Hf.
  destruct (shard_parameters_facts _ _ _ Hp Hf) as (Hdb & Hrows & _ & _ & Hqb & _).
  rewrite Hdb in Hrows.
  destruct (slice_query_ok query _ (rlwe_q rlwe) _ 0%nat Hrows Hc Hq Hred ltac:(lia))
    as (sliced' & Hs' & Hw & _). rewrite Hs in Hs'. injection Hs' as <-.
  assert (forall e, e ∈ sliced -> fst e ∈ names) as Hin.
  { intros e He. apply (list_elem_of_fmap_2 fst) in He. rewrite Hw in He.
    apply list_elem_of_fmap in He as (d & -> & Hd). rewrite Forall_forall in Hready.
    destruct (Hready d Hd) as [group Hg]. apply elem_of_sorted_entries in Hg.
    by apply (list_elem_of_fmap_2 fst) in Hg. }
  split.
  - unfold expected_partial at 1. rewrite sum_by_group; [|lia|].
    + unfold expected_partial. apply vec_sum_perm, fmap_Permutation.
      unfold names. rewrite split_by_keys by apply NoDup_sorted_entries.
      apply fmap_Permutation. by rewrite filter_all.
    + intros sq. apply (matvec_ok (rlwe_q rlwe)); [lia|]. by eapply shard_matrix_shape.
  - intros name [qs Hqs]. rewrite group_queries_lookup in Hqs. unfold queries_for in Hqs.
    destruct (filter _ sliced) as [|e l] eqn:E; [done|].
    assert (e ∈ filter (fun e => fst e = name) sliced) as He by (rewrite E; set_solver).
    apply list_elem_of_filter in He as [<- He]. by apply Hin.
Qed.

(** A body that passes every check of [parse_query]. *)
Lemma parse_query_ok c table body g state snapshot live rlwe keys query sliced :
  co_tables c !! table = Some state -> tb_rlwe state = rlwe ->
  generation c g = Some snapshot -> gs_tables snapshot !! table = Some live ->
  8 <= zlen body -> le_val (take 8 body) = g ->
  zlen body = wrap64 (8 + serialized_packing_keys_len rlwe +
    div_ceil (wrap64 (db_rows (sn_ypir live) * query_bits (sn_ypir live))) 8) ->
  deserialize_packing_keys rlwe (slice body 8 (8 + serialized_packing_keys_len rlwe)) = Ok keys ->
  deserialize_first_dim_query rlwe (sn_ypir live)
    (drop (Z.to_nat (8 + serialized_packing_keys_len rlwe)) body) = Ok query ->
  slice_query query (shard_rows (layout_of table)) (tm_shards (sn_manifest live)) = Ok sliced ->
  parse_query c table body = Ok (g, rlwe, live, keys, group_queries sliced).
Proof.
  intros Hst Hrl Hgen Hlive H8 Hg Hlen Hkeys Hquery Hsl.
  unfold parse_query, coordinator_table. rewrite Hst. cbn [ok_or]. rewrite Hrl.
  assert (get_range body 0 8 = Some (take 8 body)) as -> by (unfold get_range; guards; done).
  cbn [ok_or]. rewrite Hg, Hgen. cbn [ok_or]. rewrite Hlive. cbn [ok_or].
  rewrite Hlen, Z.eqb_refl. cbn [negb]. rewrite Hkeys, Hquery. cbn [map_err]. by rewrite Hsl.
Qed.

Lemma distributed_answer I c wd table body g state snapshot live rlwe p R keys query :
  I wd -> co_tables c !! table = Some state -> tb_rlwe state = rlwe ->
  generation c g = Some snapshot -> gs_tables snapshot !! table = Some live ->
  0 <= serialized_packing_keys_len rlwe ->
  8 <= zlen body -> le_val (take 8 body) = g ->
  zlen body = wrap64 (8 + serialized_packing_keys_len rlwe +
    div_ceil (wrap64 (db_rows (sn_ypir live) * query_bits (sn_ypir live))) 8) ->
  deserialize_packing_keys rlwe (slice body 8 (8 + serialized_packing_keys_len rlwe)) = Ok keys ->
  deserialize_first_dim_query rlwe (sn_ypir live)
    (drop (Z.to_nat (8 + serialized_packing_keys_len rlwe)) body) = Ok query ->
  table_served I g table rlwe p live R query ->
  exists c' wd', answer_query c wd table body =
    (monolithic_answer g table rlwe p live R keys query, c', wd').
Proof.
  intros HI Hst Hrl Hgen Hlive Hpl H8 Hg Hlen Hkeys Hquery Hs.
  pose proof Hs as [Hp Hcols Hne Hc Hcov [Hred Hq] Hready Hserve].
  pose proof (layouts_fit _ _ _ Hp) as Hf.
  destruct (shard_parameters_facts _ _ _ Hp Hf) as (Hdb & Hrows & _ & _ & Hqb & _).
  rewrite Hdb in Hrows.
  destruct (slice_query_ok query _ (rlwe_q rlwe) _ 0%nat Hrows Hc Hq Hred ltac:(lia))
    as (sliced & Hsl & Hw & Hid & _).
  destruct (groups_sum I g table rlwe p live R query sliced Hs Hsl) as [Hsum Hcover].
  unfold answer_query.
  rewrite (parse_query_ok c table body g state snapshot live rlwe keys query sliced) by done.
  destruct (run_groups_ok I wd (sorted_entries (sn_ready_groups live)) table g (group_queries sliced)
    (expected_partial table rlwe p R) HI (NoDup_sorted_entries _)) as (adv & unr & wd' & -> & Hunr).
  { intros name group qs Hn. apply elem_of_sorted_entries in Hn. by apply (Hserve sliced). }
  do 2 eexists. f_equal. f_equal.
  assert (unr = ∅) as ->.
  { apply map_empty. intros name. rewrite Hunr. destruct (decide _) as [|Hni]; [done|].
    destruct (group_queries sliced !! name) eqn:E; [|done].
    destruct Hni. apply Hcover. by eexists. }
  rewrite bool_decide_true by done. cbn [negb].
  set (vs := omap _ _).
  assert (vec_sum (rlwe_q rlwe) (Z.to_nat (db_cols p)) vs =
    expected_partial table rlwe p R sliced.*2) as Hvsum by exact Hsum.
  assert (Forall (vec_ok (rlwe_q rlwe) (Z.to_nat (db_cols p))) vs) as Hvs.
  { unfold vs. apply Forall_forall. intros v Hv. apply list_elem_of_omap in Hv as (n & _ & Hn).
    destruct (group_queries sliced !! n); [|done]. injection Hn as <-.
    by apply expected_partial_ok. }
  destruct (join_fmap (@Ok string (list Z)) vs) as (ws & Hws & Hperm).
  assert (Forall (vec_ok (rlwe_q rlwe) (Z.to_nat (db_cols p))) ws) as Hw' by by rewrite <- Hperm.
  rewrite Hws, Hcols, (combine_ok (rlwe_q rlwe) (Z.to_nat (db_cols p))) by
    (done || lia || (apply vec_zero_ok; lia)).
  rewrite vec_add_comm, vec_add_zero by (apply vec_sum_ok; [lia|];
    eapply Forall_impl; [exact Hw'|]; by intros ? []).
  rewrite <- (vec_sum_perm _ _ _ _ Hperm). rewrite Hvsum.
  rewrite (shards_sum_product I g table rlwe p live R query sliced Hs Hsl).
  rewrite length_fmap. destruct vs as [|v vs'] eqn:Evs; [|done].
  exfalso. destruct sliced as [|e sliced].
  { destruct (tm_shards (sn_manifest live)); done. }
  assert (is_Some (group_queries (e :: sliced) !! fst e)) as [qs Hqs].
  { rewrite group_queries_lookup. unfold queries_for. rewrite filter_cons_True by done. by eexists. }
  pose proof (Hcover (fst e) ltac:(by eexists)) as Hn.
  assert (expected_partial table rlwe p R qs ∈ vs) as Hv.
  { unfold vs. apply list_elem_of_omap. exists (fst e). split; [done|]. by rewrite Hqs. }
  rewrite Evs in Hv. by apply elem_of_nil in Hv.
Qed.
End distributed.

(** ** A small concrete coordinator *)

Definition small_pack : IpirPack := {|
  preprocessed_blocks := list CrsBlock;
  top_key_images := unit;
  packing_keys := list Z;
  packed_blocks := list Z * list CrsBlock;
  build_pack_preprocessed_blocks _ crs := Ok crs;
  TopKeyImages_build _ := tt;
  published_c1_rows blocks _ := (fun b => sum_list (concat (cb_rows b)) mod 256) <$> blocks;
  serialized_packing_keys_len _ := 0;
  deserialize_packing_keys _ bytes := Ok bytes;
  pack_intermediate_blocks combined _ _ crs := Ok (combined, crs);
  serialize_rlwe_response_bodies packed _ := fst packed |}.

(** Tasks finish in the order they were spawned. *)
Definition in_order : Schedule :=
  {| join_order A l := l; join_order_perm A l := Permutation_refl l |}.

Definition plain_base64 : Base64 := bytes_string.

Definition small_source (rows : list Z) : TableSource :=
  {| ts_table := Enhance; ts_layout := small_layout; ts_positions := 2; ts_shard_ids := (0, 0);
     ts_read_shard_rows _ := Ok rows; ts_populated_positions_in_shard _ := 2 |}.

Definition no_http : @Http unit small_server := fun n _ _ => (Err "unreachable"%string, n).

Definition small_world : @World small_server unit :=
  {| wd_embedded := {["embedded"%string := small_worker]}; wd_net := tt;
     wd_in_flight _ := 0; wd_writes _ := 3%nat |}.

Definition small_setup : TableSetup :=
  {| su_table := Enhance;
     su_groups := [{| wg_name := "embedded-group"; wg_replicas := [Embedded "embedded"] |}] |}.

Definition small_state : @CoordinatorState small_pack :=
  {| co_tables := {[Enhance := {| tb_setup := small_setup; tb_rlwe := small_rlwe;
                                  tb_hint_cache := ∅; tb_query_slots := 2 |}]};
     co_live := [];
     co_status := {| cs_phase := Syncing 0 0; cs_non_serving_since := Some 0 |} |}.

Definition small_publish (s : @CoordinatorState small_pack * @World small_server unit)
    (rows : list Z) (height : Z) : @CoordinatorState small_pack * @World small_server unit :=
  let '(_, c, wd) :=
    @publish small_layouts ascii_hex checksum32 small_ipir small_server small_pack in_order unit
      no_http (fst s) (snd s) [small_source rows] {| an_height := height; an_hash := "" |} 0 in
  (c, wd).

Definition small_published (s : @CoordinatorState small_pack * @World small_server unit) :
    list (Z * list string * list Z) :=
  (fun g => (gm_generation (gs_manifest g),
     match gs_tables g !! Enhance with
     | Some t => (sd_rows_sha256 <$> tm_shards (sn_manifest t), sn_public_params t)
     | None => ([], [])
     end.1,
     match gs_tables g !! Enhance with Some t => sn_public_params t | None => [] end)) <$>
  co_live (fst s).
