(* ===== verification/Publish.v ===== *)
(** * Publication and distributed answers: the theorems

    The properties of the coordinator modelled in [Coordinator]: the answer
    assembled from groups of replicas is the answer of one server holding the
    whole table, whatever the completion order and whichever replicas fail;
    publication appends a strictly newer generation and keeps the previous
    seven; the session of a published generation passes the wallet's checks; a
    validated worker configuration always constructs a coordinator; and the hint
    of a shard whose rows return to an earlier version is the wrong one. *)

From Stdlib Require Import ZArith Lia.
From stdpp Require Import base numbers sorting countable pretty strings gmap list.
From S2P Require Import Prelude Cursor FilterTypes Instances EnhanceTypes RecordJournal Wire Ipir Worker Fleet Coordinator.

Open Scope Z_scope.

(** ** Replicas that serve *)

Section replicas.
Context {layouts : Layouts} `{Hex} `{Sha256} `{Ipir} `{IpirServer} {N : Type} `{!Http N}.

(** An embedded worker in a given state, with a given load. *)
Definition embedded_at (name : string) (w : WorkerState) (n : Z) (wd : World N) : Prop :=
  wd_embedded wd !! name = Some w /\ wd_in_flight wd name = n.

Lemma embedded_serves name w n table request v :
  evaluate_local w n table request = Ok v ->
  replica_serves (embedded_at name w n) table request v (Embedded name) true.
Proof.
  intros He wd [Hw Hn]. unfold evaluate_worker, on_embedded. rewrite Hw, Hn, He. cbn.
  split; [|done]. split; [apply lookup_insert_eq|done].
Qed.

Lemma serves_weaken (I : World N -> Prop) table request v r :
  replica_serves I table request v r true -> replica_serves I table request v r false.
Proof.
  intros Hs wd HI. specialize (Hs wd HI).
  destruct (evaluate_worker wd r table request) as [[u|e] wd']; [done|].
  by destruct Hs as (_ & ? & _).
Qed.

(** A group of one sure replica. *)
Lemma singleton_serves (I : World N -> Prop) table request v r next :
  replica_serves I table request v r true ->
  group_serves I table request v {| rg_replicas := [r]; rg_next := next |}.
Proof.
  intros Hs. split.
  - intros r' Hr%list_elem_of_singleton. subst r'. by apply serves_weaken.
  - exists r. split; [set_solver|done].
Qed.
End replicas.

(** ** The published generations *)

Section publish_laws.
Context {layouts : Layouts} `{Hex} `{Sha256} `{Ipir} `{IpirServer} `{IpirPack} `{Schedule}
  {N : Type} `{!Http N}.

Lemma build_table_live c wd source g r c' wd' :
  build_table c wd source g = (r, c', wd') -> co_live c' = co_live c.
Proof.
  unfold build_table. destruct (coordinator_table _ _); [|by intros [= _ <- _]].
  destruct (negb _); [by intros [= _ <- _]|]. destruct (_ =? 0); [by intros [= _ <- _]|].
  destruct (global_parameters _ _) as [[? ?]|]; [|by intros [= _ <- _]].
  destruct (_ || _); [by intros [= _ <- _]|]. destruct (ts_shard_ids source).
  destruct (build_shards _ _ _ _ _ _ _) as [bs [|]]; [|by intros [= _ <- _]].
  destruct (activate_groups _ _ _ _ _) as [? ?]. by intros [= _ <- _].
Qed.

Lemma publish_tables_live c wd sources g r c' wd' :
  publish_tables c wd sources g = (r, c', wd') -> co_live c' = co_live c.
Proof.
  revert c wd r c' wd'. induction sources as [|s sources IH]; intros c wd r c' wd'; cbn.
  - by intros [= _ <- _].
  - destruct (build_table c wd s g) as [[[sn|e] c1] wd1] eqn:E; apply build_table_live in E.
    + destruct (publish_tables c1 wd1 sources g) as [[r2 c2] wd2] eqn:E2.
      apply IH in E2. intros [= _ <- _]. congruence.
    + intros [= _ <- _]. done.
Qed.

Definition snapshot_generation (s : GenerationSnapshot) : Z := gm_generation (gs_manifest s).

(** Newest first, without repetition, at most eight. *)
Definition live_ok (live : list GenerationSnapshot) : Prop :=
  StronglySorted (fun a b => snapshot_generation b < snapshot_generation a) live /\
  (length live <= RETAINED_GENERATIONS)%nat.

Lemma next_generation_newer live tip :
  live_ok live -> Forall (fun s => snapshot_generation s < u64_bound - 1) live ->
  Forall (fun s => snapshot_generation s <
    next_generation (snapshot_generation <$> head live) tip) live.
Proof.
  intros [Hs _] Hb. destruct live as [|s live]; [constructor|].
  inversion Hs as [|? ? _ Hall]; subst. apply Forall_cons in Hb as [Hb _].
  cbn [head fmap option_fmap option_map next_generation]. unfold saturating_add64.
  constructor; [lia|]. eapply Forall_impl; [exact Hall|]. intros s' Hs'. cbv beta in Hs'. lia.
Qed.

Lemma retain_ok snapshot live :
  live_ok live -> Forall (fun s => snapshot_generation s < snapshot_generation snapshot) live ->
  retain snapshot live = snapshot :: take 7 live /\ live_ok (retain snapshot live).
Proof.
  intros [Hs Hl] Hn. unfold retain.
  rewrite filter_all.
  2:{ intros s Hin. rewrite Forall_forall in Hn. specialize (Hn s Hin).
      unfold snapshot_generation in Hn. lia. }
  cbn [take RETAINED_GENERATIONS]. split; [done|]. split; [|cbn [length]; rewrite length_take; unfold RETAINED_GENERATIONS; lia].
  constructor.
  - clear Hl Hn. generalize 7%nat as k. induction Hs as [|s live _ IH Hall]; intros [|k];
      try constructor; [apply IH|]. by apply Forall_take.
  - by apply Forall_take.
Qed.

Lemma publish_live c wd sources anchor now r c' wd' :
  live_ok (co_live c) -> Forall (fun s => snapshot_generation s < u64_bound - 1) (co_live c) ->
  publish c wd sources anchor now = (r, c', wd') ->
  match r with
  | Ok _ => exists s, co_live c' = s :: take 7 (co_live c) /\ live_ok (co_live c') /\
      gm_anchor_height (gs_manifest s) = an_height anchor /\
      gm_anchor_block_hash (gs_manifest s) = an_hash anchor /\
      snapshot_generation s =
        next_generation (snapshot_generation <$> head (co_live c)) (an_height anchor) /\
      Forall (fun old => snapshot_generation old < snapshot_generation s) (co_live c) /\
      cs_phase (co_status c') = Serving
  | Err _ => co_live c' = co_live c
  end.
Proof.
  intros Hok Hb. unfold publish. destruct (filter _ sources) as [|s0 ss]; [by intros [= <- <- _]|].
  destruct (publish_tables _ _ _ _) as [[[sns|e] c1] wd1] eqn:E;
    apply publish_tables_live in E; cbn [set_phase co_live] in E; intros [= <- <- _]; [|done].
  cbn [set_phase co_live]. rewrite E.
  match goal with |- context [retain ?s _] => set (snap := s) end.
  pose proof (next_generation_newer (co_live c) (an_height anchor) Hok Hb) as Hnew.
  assert (snapshot_generation snap =
    next_generation (snapshot_generation <$> head (co_live c)) (an_height anchor)) as Hg.
  { unfold snap, snapshot_generation, newest. cbn. by destruct (co_live c). }
  rewrite <- Hg in Hnew. destruct (retain_ok snap (co_live c) Hok Hnew) as [Hr Hrok].
  exists snap. by split_and!.
Qed.
End publish_laws.

(** ** Shapes along the build *)

Class IpirPackLaws `{Ipir} `{IpirPack} := {
  (** The published parameters are one fixed-length row per hint block. *)
  published_len rlwe crs pre :
    build_pack_preprocessed_blocks rlwe crs = Ok pre -> zlen crs < 2 ^ 32 ->
    zlen (published_c1_rows pre (rlwe_q rlwe)) =
      zlen crs * published_c1_len (rlwe_d rlwe) (rlwe_q rlwe) /\
    zlen (published_c1_rows pre (rlwe_q rlwe)) < 2 ^ 63 }.

Lemma prepeat_length {E A} (p : parser E A) n c l c' :
  prepeat n p c = Ok (l, c') -> length l = n.
Proof.
  revert c l c'. induction n as [|n IH]; intros c l c' Hp; cbn in Hp.
  - unfold pret in Hp. by simplify_eq.
  - unfold pbind, pret in Hp. destruct (p c) as [[a c1]|]; [|done].
    destruct (prepeat n p c1) as [[l1 c2]|] eqn:Ep; [|done]. simplify_eq. cbn. f_equal. by eapply IH.
Qed.

(** A decoded hint has the block count asked for. *)
Lemma decode_crs_count bytes n degree bs :
  0 <= n -> decode_crs_blocks bytes n degree = Ok bs -> zlen bs = n.
Proof.
  intros Hn. unfold decode_crs_blocks, parse, crs_parser, pbind, pfail, pret. intros Hd.
  destruct (Input_expect_magic _ _) as [[[] c1]|]; [|done].
  destruct (Input_u32 c1) as [[k c2]|]; [|done].
  destruct (k =? n) eqn:E; [|done]. cbn [negb] in Hd. bool_prop. subst k.
  destruct (prepeat _ _ _) as [[l c3]|] eqn:Ep; [|done]. apply prepeat_length in Ep.
  destruct (Input_finish c3) as [[[] c4]|]; [|done]. simplify_eq. unfold zlen. lia.
Qed.

Lemma add_blocks_length a b rlwe : length (fst (add_blocks a b rlwe)) = length a.
Proof.
  revert b. induction a as [|x a IH]; intros [|y b]; cbn; [done|done|done|].
  destruct (negb _); [done|]. destruct (add_rows _ _ _) as [rows [|]]; [|done].
  specialize (IH b). destruct (add_blocks a b rlwe). cbn in *. by rewrite IH.
Qed.

Section build_laws.
Context {layouts : Layouts} `{Hex} `{Sha256} `{Ipir} `{IpirServer} `{IpirPack} `{Schedule}
  {N : Type} `{!Http N}.

Definition hints_ok (n : Z) (cache : gmap string (list CrsBlock)) : Prop :=
  map_Forall (fun _ hint => zlen hint = n) cache.

Lemma prepare_replica_hint cache wd replica table id start logical digest rows n degree r cache' wd' :
  0 <= n -> hints_ok n cache ->
  prepare_replica_shard cache wd replica table id start logical digest rows n degree =
    (r, cache', wd') ->
  hints_ok n cache' /\ match r with Ok hint => zlen hint = n | Err _ => True end.
Proof.
  intros Hn Hc. unfold prepare_replica_shard. cbv zeta.
  assert (forall wd0, let '(r, cache', _) :=
    (let '(r, wd) := prepare_worker wd0 replica table id start logical digest rows in
     match r with
     | Err e => (Err e, cache, wd)
     | Ok _ =>
         let '(r, wd) := fetch_hint wd replica table id in
         match r with
         | Err e => (Err e, cache, wd)
         | Ok encoded =>
             match decode_crs_blocks encoded n degree with
             | Err e => (Err (WireError_to_string e), cache, wd)
             | Ok hint =>
                 (Ok hint, <[hint_key (WorkerTarget_name replica) id start digest := hint]>
                    (filter (fun '(key, _) =>
                       String.prefix (hint_prefix (WorkerTarget_name replica) id) key = false) cache),
                  wd)
             end
         end
     end) in
    hints_ok n cache' /\ match r with Ok hint => zlen hint = n | Err _ => True end) as Hprep.
  { intros wd0. destruct (prepare_worker _ _ _ _ _ _ _ _) as [[[]|e] wd1]; [|done].
    destruct (fetch_hint _ _ _ _) as [[encoded|e] wd2]; [|done].
    destruct (decode_crs_blocks _ _ _) as [hint|e] eqn:Ed; [|done].
    apply decode_crs_count in Ed; [|done]. split; [|done].
    apply map_Forall_insert_2; [done|]. intros key h Hk.
    apply map_lookup_filter_Some in Hk as [Hk _]. by apply Hc in Hk. }
  destruct (cache !! _) as [hint|] eqn:E.
  - destruct (ensure_worker _ _ _ _ _ _) as [[[]|e] wd1].
    + intros [= <- <- _]. split; [done|]. by apply Hc in E.
    + intros He. specialize (Hprep wd1). rewrite He in Hprep. exact Hprep.
  - intros He. specialize (Hprep wd). rewrite He in Hprep. exact Hprep.
Qed.

Lemma prepare_replicas_hints cache wd replicas table id start logical digest rows n degree rs cache' wd' :
  0 <= n -> hints_ok n cache ->
  prepare_replicas cache wd replicas table id start logical digest rows n degree =
    (rs, cache', wd') ->
  hints_ok n cache' /\ Forall (fun e => match snd e with Ok hint => zlen hint = n | Err _ => True end) rs.
Proof.
  intros Hn. revert cache wd rs cache' wd'.
  induction replicas as [|r replicas IH]; intros cache wd rs cache' wd' Hc; cbn [prepare_replicas].
  - intros [= <- <- _]. split; [done|constructor].
  - destruct (prepare_replica_shard _ _ _ _ _ _ _ _ _ _ _) as [[r1 c1] wd1] eqn:E1.
    apply prepare_replica_hint in E1 as [Hc1 Hr1]; [|done|done].
    destruct (prepare_replicas _ _ _ _ _ _ _ _ _ _ _) as [[rs2 c2] wd2] eqn:E2.
    apply IH in E2 as [Hc2 Hrs]; [|done]. intros [= <- <- _]. split; [done|]. by constructor.
Qed.

(** What a successful iteration keeps: hint shapes and one descriptor more. *)
Definition build_ok (n : Z) (bs : BuildState (N := N)) : Prop :=
  hints_ok n (bs_cache bs) /\ match bs_crs bs with Some crs => zlen crs = n | None => True end.

Lemma successes_elem rs name hint :
  (name, hint) ∈ successes rs -> (name, Ok hint) ∈ rs.
Proof.
  unfold successes. rewrite list_elem_of_omap. intros ([m [h|e]] & Hin & He); by simplify_eq.
Qed.

Lemma build_shard_ok source groups rlwe ypir logical id bs bs' r :
  0 <= db_cols ypir / rlwe_d rlwe -> build_ok (db_cols ypir / rlwe_d rlwe) bs ->
  build_shard source groups rlwe ypir logical id bs = (bs', r) ->
  build_ok (db_cols ypir / rlwe_d rlwe) bs'.
Proof.
  intros Hn [Hc Hcrs]. unfold build_shard. cbv zeta.
  destruct (group_index_for_shard _ _); [|by intros [= <- _]].
  destruct (groups !! _) as [group|]; [|by intros [= <- _]].
  destruct (ts_read_shard_rows _ _) as [rows|]; [|by intros [= <- _]].
  destruct (_ <$> _) as [|rep reps]; [by intros [= <- _]|].
  destruct (prepare_replicas _ _ _ _ _ _ _ _ _ _ _) as [[rs cache] wd] eqn:E.
  apply prepare_replicas_hints in E as [Hc' Hrs]; [|done|done].
  destruct (successes (join_order _ rs)) as [|[name hint] rest] eqn:Es; [by intros [= <- _]|].
  assert (zlen hint = db_cols ypir / rlwe_d rlwe) as Hh.
  { assert ((name, hint) ∈ successes (join_order _ rs)) as Hin by (rewrite Es; set_solver).
    apply successes_elem in Hin. rewrite join_order_perm in Hin.
    rewrite Forall_forall in Hrs. apply (Hrs _ Hin). }
  case_bool_decide; [by intros [= <- _]|]. cbn [bs_crs].
  destruct (add_crs (bs_crs bs) hint rlwe) as [crs r'] eqn:Ea. intros [= <- _].
  split; [done|]. cbn. unfold add_crs in Ea. destruct (bs_crs bs) as [acc|]; simplify_eq; [|done].
  unfold add_crs_blocks_assign_mod in Ea. destruct (negb _); [by simplify_eq|].
  pose proof (add_blocks_length acc hint rlwe) as Hl. destruct (add_blocks acc hint rlwe).
  simplify_eq. cbn in Hl. unfold zlen in *. by rewrite Hl.
Qed.

Lemma build_shards_ok source groups rlwe ypir logical ids bs bs' r :
  0 <= db_cols ypir / rlwe_d rlwe -> build_ok (db_cols ypir / rlwe_d rlwe) bs ->
  build_shards source groups rlwe ypir logical ids bs = (bs', r) ->
  build_ok (db_cols ypir / rlwe_d rlwe) bs'.
Proof.
  intros Hn. revert bs. induction ids as [|id ids IH]; intros bs Hb; cbn [build_shards].
  - by intros [= <- _].
  - destruct (build_shard _ _ _ _ _ _ _) as [bs1 [|]] eqn:E; apply build_shard_ok in E; try done.
    + by apply IH.
    + by intros [= <- _].
Qed.
End build_laws.

(** ** The session of a published table *)

Section session_laws.
Context {layouts : Layouts} `{Hex} `{Sha256} `{IpirParamsLaws} `{IpirServer} `{IpirPack}
  `{!IpirPackLaws} `{Schedule} `{Base64} {N : Type} `{!Http N}.

(** What a successful [build_table] put in the snapshot. *)
Record table_built (source : TableSource) (sn : TableSnapshot) : Prop := {
  tbu_layout : ts_layout source = layout_of (ts_table source);
  tbu_positions : ts_positions source <> 0;
  tbu_geometry :
    tm_record_bytes (sn_manifest sn) = wrap32 (record_bytes (ts_layout source)) /\
    tm_records_per_row (sn_manifest sn) = wrap32 (records_per_row (ts_layout source)) /\
    tm_row_bytes (sn_manifest sn) = wrap32 (DatabaseLayout_row_bytes (ts_layout source)) /\
    tm_shard_rows (sn_manifest sn) = wrap32 (shard_rows (ts_layout source));
  tbu_rows :
    tm_used_rows (sn_manifest sn) =
      DatabaseLayout_used_rows_for (ts_layout source) (ts_positions source) /\
    tm_logical_rows (sn_manifest sn) =
      DatabaseLayout_logical_rows_for (ts_layout source) (tm_used_rows (sn_manifest sn));
  tbu_seed : tm_setup_seed (sn_manifest sn) = DatabaseId_setup_seed (ts_table source);
  tbu_digests :
    tm_public_params_sha256 (sn_manifest sn) = hex_encode (sha256 (sn_public_params sn)) /\
    tm_public_params_epoch (sn_manifest sn) = hex_encode (take 8 (sha256 (sn_public_params sn)));
  tbu_params : exists rlwe,
    global_parameters (tm_logical_rows (sn_manifest sn)) (ts_layout source) = Ok (rlwe, sn_ypir sn) /\
    zlen (sn_public_params sn) =
      db_cols (sn_ypir sn) / rlwe_d rlwe * published_c1_len (rlwe_d rlwe) (rlwe_q rlwe) /\
    zlen (sn_public_params sn) < 2 ^ 63 }.

(** The coordinator holds the table's own parameters, and only hints of its
    shape. *)
Definition table_ready (c : CoordinatorState) (table : DatabaseId) : Prop :=
  forall state, co_tables c !! table = Some state ->
    exists p, shard_parameters (layout_of table) = Ok (tb_rlwe state, p) /\
      hints_ok (db_cols p / rlwe_d (tb_rlwe state)) (tb_hint_cache state).

Lemma build_table_built c wd source g sn c' wd' :
  table_ready c (ts_table source) ->
  build_table c wd source g = (Ok sn, c', wd') -> table_built source sn.
Proof.
  intros Hready. unfold build_table, coordinator_table.
  destruct (co_tables c !! ts_table source) as [state|] eqn:Est; [|done]. cbn [ok_or].
  case_bool_decide as Elay; [|done]. cbn [negb].
  destruct (ts_positions source =? 0) eqn:Ep; [done|]. bool_prop. cbv zeta.
  destruct (global_parameters _ _) as [[grlwe ypir]|] eqn:Eg; [|done].
  destruct (_ || _) eqn:Edq; [done|]. bool_prop. destruct (ts_shard_ids source) as [lo hi].
  destruct (build_shards _ _ _ _ _ _ _) as [bs [|]] eqn:Eb; [|done].
  destruct (activate_groups _ _ _ _ _) as [[ready|] wd2]; [|done].
  intros Hfin. injection Hfin as Hfin _ _.
  destruct (Hready state Est) as (p & Hp & Hh).
  unfold shard_parameters in Hp. unfold global_parameters in Eg.
  destruct (params_for_simplepir (shard_rows _) _) as [[r1 y1]|] eqn:E1; [|done].
  destruct (params_for_simplepir (DatabaseLayout_logical_rows_for _ _) _) as [[r2 y2]|] eqn:E2; [|done].
  cbn in Hp, Eg. simplify_eq. rewrite Elay in E2.
  destruct (params_shared _ _ _ _ _ _ _ E1 E2) as (-> & Hcols & _).
  destruct (params_sane _ _ _ _ E2) as (Hd & Hq & Hc & _).
  assert (0 <= db_cols ypir / rlwe_d (tb_rlwe state)) as Hn by (apply Z.div_pos; lia).
  apply build_shards_ok in Eb as [_ Hcrs]; [|done|split; [by rewrite Hcols|done]].
  unfold finish_table in Hfin. destruct (bs_crs bs) as [crs|]; [|done]. cbn [ok_or] in Hfin.
  destruct (build_pack_preprocessed_blocks _ crs) as [pre|] eqn:Epk; [|done].
  injection Hfin as <-.
  assert (db_cols ypir / rlwe_d (tb_rlwe state) <= db_cols ypir) as Hle
    by (apply Z.div_le_upper_bound; nia).
  destruct (published_len _ _ _ Epk) as [Hlen Hb]; [lia|].
  constructor; cbn; try done.
  exists (tb_rlwe state). rewrite Elay. unfold global_parameters. rewrite E2.
  rewrite Hlen, Hcrs in Hb |- *. done.
Qed.

(** [publish] of one source: the newest generation holds its built table. *)
Lemma publish_single c wd source anchor now c' wd' :
  table_ready c (ts_table source) ->
  publish c wd [source] anchor now = (Ok tt, c', wd') ->
  exists s sn, newest c' = Some s /\ gs_tables s !! ts_table source = Some sn /\
    gm_tables (gs_manifest s) !! ts_table source = Some (sn_manifest sn) /\
    (ts_table source = Enhance -> gm_ironwood_tree_size (gs_manifest s) = ts_positions source) /\
    table_built source sn.
Proof.
  intros Hready. unfold publish. rewrite filter_cons, filter_nil.
  case_decide as Hsome; [|done]. cbn [publish_tables].
  destruct (build_table _ _ source _) as [[[sn|] c1] wd1] eqn:E; [|done].
  apply build_table_built in E as Hb; [|exact Hready]. intros [= <- <-].
  cbn [newest set_phase co_live retain head]. do 2 eexists. split; [reflexivity|].
  cbn [gs_tables gs_manifest gm_tables gm_ironwood_tree_size].
  rewrite (left_id_L ∅ (∪)). rewrite lookup_singleton_eq, lookup_fmap, lookup_singleton_eq.
  split_and!; [done|done| |done]. intros Ht. cbn. by rewrite Ht.
Qed.
End session_laws.

(** The protocol's geometry passes the wallet's checks. *)
Lemma published_geometry positions g :
  0 < positions <= 2 ^ 40 ->
  eg_record_bytes g = wrap32 (record_bytes ENHANCE_LAYOUT) ->
  eg_records_per_row g = wrap32 (records_per_row ENHANCE_LAYOUT) ->
  eg_row_bytes g = wrap32 (DatabaseLayout_row_bytes ENHANCE_LAYOUT) ->
  eg_shard_rows g = wrap32 (shard_rows ENHANCE_LAYOUT) ->
  eg_ironwood_tree_size g = positions ->
  eg_used_rows g = DatabaseLayout_used_rows_for ENHANCE_LAYOUT positions ->
  eg_logical_rows g = DatabaseLayout_logical_rows_for ENHANCE_LAYOUT (eg_used_rows g) ->
  bad_geometry g = false.
Proof.
  intros Hp Hr1 Hr2 Hr3 Hr4 Ht Hu Hl. unfold bad_geometry.
  rewrite Hr1, Hr2, Hr3, Hr4, Ht.
  change (wrap32 (record_bytes ENHANCE_LAYOUT)) with RECORD_BYTES.
  change (wrap32 (records_per_row ENHANCE_LAYOUT)) with RECORDS_PER_ROW.
  change (wrap32 (DatabaseLayout_row_bytes ENHANCE_LAYOUT)) with ROW_BYTES.
  change (wrap32 (shard_rows ENHANCE_LAYOUT)) with SHARD_ROWS.
  rewrite !Z.eqb_refl. cbn [negb orb].
  assert (0 <= eg_used_rows g <= 2 ^ 40) as Hur.
  { rewrite Hu. unfold DatabaseLayout_used_rows_for. cbn [records_per_row ENHANCE_LAYOUT].
    pose proof (div_ceil_spec positions RECORDS_PER_ROW). unfold RECORDS_PER_ROW in *. lia. }
  destruct (next_power_of_two_spec (Z.max (eg_used_rows g) SHARD_ROWS)) as [Hn Hpow].
  { unfold SHARD_ROWS. lia. }
  rewrite Hl. unfold DatabaseLayout_logical_rows_for. cbn [shard_rows ENHANCE_LAYOUT].
  rewrite Hpow. cbn [negb].
  assert (eg_used_rows g = div_ceil positions RECORDS_PER_ROW) as Hu' by exact Hu.
  rewrite (proj2 (Z.eqb_eq _ _) Hu'). cbn [negb]. unfold SHARD_ROWS in *. guards. done.
Qed.

Lemma session_accepted `{Hex} `{Sha256} `{IpirParamsLaws} `{IpirServer} `{IpirPack}
    source s sn :
  ts_table source = Enhance -> 0 < ts_positions source <= 2 ^ 40 ->
  @table_built protocol_layouts _ _ _ _ source sn ->
  gm_tables (gs_manifest s) !! Enhance = Some (sn_manifest sn) ->
  gm_ironwood_tree_size (gs_manifest s) = ts_positions source ->
  exists g qs, GenerationManifest_public (gs_manifest s) = Some g /\
    eg_ironwood_tree_size g = ts_positions source /\
    eg_generation g = gm_generation (gs_manifest s) /\
    QuerySession_new g (sn_ypir sn) (sn_public_params sn) = Ok qs.
Proof.
  intros Ht Hp [Hlay _ (G1 & G2 & G3 & G4) [Hu Hlog] Hseed [Hsha Hep] (rlwe & Hg & Hlen & Hb)]
    Hgm Htree.
  rewrite Ht in Hlay. change (layout_of Enhance) with ENHANCE_LAYOUT in Hlay.
  rewrite Hlay in *. unfold GenerationManifest_public. rewrite Hgm.
  eexists. eexists. split; [reflexivity|]. cbn [eg_ironwood_tree_size eg_generation].
  split; [done|]. split; [done|]. unfold QuerySession_new.
  assert (bad_identity _ = false) as ->.
  { unfold bad_identity. cbn. rewrite !bool_decide_true by done. done. }
  cbn [eg_setup_seed]. rewrite Hseed, Ht. cbn [DatabaseId_setup_seed]. rewrite Z.eqb_refl. cbn [negb].
  rewrite (published_geometry (ts_positions source)) by done.
  cbn [eg_logical_rows eg_public_params_sha256 eg_public_params_epoch].
  unfold global_parameters in Hg. change (DatabaseLayout_item_size_bits ENHANCE_LAYOUT)
    with ITEM_SIZE_BITS in Hg.
  destruct (params_for_simplepir _ ITEM_SIZE_BITS) as [[r y]|]; [|done]. cbn in Hg. simplify_eq.
  cbn [map_err]. rewrite bool_decide_true by done. cbn [negb].
  rewrite Hsha, Hep, !bool_decide_true by done. cbn [negb].
  rewrite Hlen. unfold wrap64. rewrite Z.mod_small, Z.eqb_refl; [reflexivity|].
  rewrite <- Hlen. pose proof (zlen_nonneg (sn_public_params sn)). unfold u64_bound. lia.
Qed.

(** ** Properties *)

(** C5: the distributed answer is the monolithic answer.  Take a query for a
    retained generation whose shards lie one after the other and are owned by
    ready groups.  If in every group each replica either answers its own shards
    with the product over the rows it was told to serve or fails retryably, and
    one replica does answer, then whatever the rotation, the failures and the
    order in which groups finish, [answer_query] returns exactly what one server
    holding the whole table would: the packing of the product of the query with
    the concatenation of all shards' rows, tagged with the generation and the
    epoch of its public parameters. *)
Theorem distributed_answer_exact (layouts : Layouts) `{Hex} `{Sha256} `{IpirParamsLaws}
    `{IpirServerLaws} `{!LayoutsFit} `{IpirPack} `{Schedule} (N : Type) `{!Http N}
    (I : World N -> Prop) c wd table body g state snapshot live rlwe p R keys query :
  I wd -> co_tables c !! table = Some state -> tb_rlwe state = rlwe ->
  generation c g = Some snapshot -> gs_tables snapshot !! table = Some live ->
  0 <= serialized_packing_keys_len rlwe ->
  8 <= zlen body -> le_val (take 8 body) = g ->
  zlen body = wrap64 (8 + serialized_packing_keys_len rlwe +
    div_ceil (wrap64 (db_rows (sn_ypir live) * query_bits (sn_ypir live))) 8) ->
  deserialize_packing_keys rlwe (slice body 8 (8 + serialized_packing_keys_len rlwe)) = Ok keys ->
  deserialize_first_dim_query rlwe (sn_ypir live)
    (drop (Z.to_nat (8 + serialized_packing_keys_len rlwe)) body) = Ok query ->
  table_served I g table rlwe p live R query ->
  exists c' wd', answer_query c wd table body =
    (monolithic_answer g table rlwe p live R keys query, c', wd').
Proof. intros. by eapply distributed_answer. Qed.

Lemma some_default {A} (d : A) (x : option A) :
  match x with Some _ => true | None => false end = true -> x = Some (default d x).
Proof. by destruct x. Qed.

(** One published generation of [rows_a] on one embedded worker. *)
Definition sample_published : @CoordinatorState small_pack * @World small_server unit :=
  small_publish (small_state, small_world) rows_a 10.

Definition sample_snapshot : @GenerationSnapshot small_pack :=
  default {| gs_manifest := {| gm_anchor_height := 0; gm_anchor_block_hash := "";
               gm_ironwood_tree_size := 0; gm_generation := 0; gm_tables := ∅ |};
             gs_tables := ∅ |} (newest (fst sample_published)).

Definition sample_worker : @WorkerState small_server :=
  default small_worker (wd_embedded (snd sample_published) !! "embedded"%string).

Definition sample_descriptor : ShardDescriptor :=
  {| sd_shard_id := 0; sd_global_row_start := 0; sd_populated_positions := 2;
     sd_rows_sha256 := small_digest rows_a; sd_sealed := true; sd_worker := "embedded-group" |}.

Definition sample_group : ReadyWorkerGroup :=
  {| rg_replicas := [Embedded "embedded"]; rg_next := 0 |}.

Definition sample_state : TableState :=
  default {| tb_setup := small_setup; tb_rlwe := small_rlwe; tb_hint_cache := ∅; tb_query_slots := 2 |}
    (co_tables (fst sample_published) !! Enhance).

Definition sample_live : @TableSnapshot small_pack :=
  default
    {| sn_manifest := {| tm_record_bytes := 0; tm_records_per_row := 0; tm_row_bytes := 0;
                 tm_shard_rows := 0; tm_positions := 0; tm_used_rows := 0; tm_logical_rows := 0;
                 tm_parameter_id := ""; tm_setup_seed := 0; tm_public_params_epoch := "";
                 tm_public_params_sha256 := ""; tm_shards := [] |};
               sn_ypir := small_params; sn_preprocessed := ([] : @preprocessed_blocks small_pack);
               sn_top_key_images := (tt : @top_key_images small_pack); sn_public_params := [];
               sn_public_params_epoch := []; sn_ready_groups := ∅ |}
    (gs_tables sample_snapshot !! Enhance).

Definition sample_body : list Z := le_bytes 8 10 ++ [0; 1].

(** The published table and the worker behind it serve the query. *)
Lemma sample_served :
  @table_served small_layouts small_ipir small_server small_pack unit no_http
    (embedded_at "embedded" sample_worker 0) 10 Enhance small_rlwe small_params sample_live
    (fun _ => rows_a) [0; 1].
Proof.
  assert (tm_shards (sn_manifest sample_live) = [sample_descriptor]) as Hs
    by (vm_compute; reflexivity).
  assert (sn_ready_groups sample_live = {["embedded-group"%string := sample_group]}) as Hg
    by (vm_compute; reflexivity).
  constructor; rewrite ?Hs, ?Hg.
  - reflexivity.
  - vm_compute. reflexivity.
  - discriminate.
  - intros [|i] d Hd; [by injection Hd as <-|done].
  - vm_compute. discriminate.
  - split; [|vm_compute; reflexivity]. repeat constructor; cbn; lia.
  - constructor; [|constructor]. by eexists.
  - intros sliced name group qs Hsl Hgr Hq. vm_compute in Hsl. injection Hsl as <-.
    apply lookup_singleton_Some in Hgr as [<- <-].
    rewrite group_queries_lookup in Hq. vm_compute in Hq. injection Hq as <-.
    apply singleton_serves, embedded_serves. vm_compute. reflexivity.
Qed.

Lemma distributed_answer_exact_witness :
  exists c' wd',
    @answer_query small_layouts small_ipir small_server small_pack in_order unit no_http
      (fst sample_published) (snd sample_published) Enhance sample_body =
    (Ok (le_bytes 8 10 ++ [42; 40; 0; 0; 0; 0; 0; 0] ++ [3; 0; 4; 0]), c', wd').
Proof.
  destruct (@distributed_answer_exact small_layouts ascii_hex checksum32 small_ipir _ small_server _
    _ small_pack in_order unit no_http (embedded_at "embedded" sample_worker 0)
    (fst sample_published) (snd sample_published) Enhance sample_body 10
    sample_state
    sample_snapshot sample_live small_rlwe small_params (fun _ => rows_a) [] [0; 1])
    as (c' & wd' & Ha).
  - split; [|reflexivity]. apply some_default. vm_compute. reflexivity.
  - apply some_default. vm_compute. reflexivity.
  - vm_compute. reflexivity.
  - transitivity (newest (fst sample_published)); [vm_compute; reflexivity|].
    apply some_default. vm_compute. reflexivity.
  - apply some_default. vm_compute. reflexivity.
  - vm_compute. discriminate.
  - vm_compute. discriminate.
  - vm_compute. reflexivity.
  - vm_compute. reflexivity.
  - vm_compute. reflexivity.
  - vm_compute. reflexivity.
  - apply sample_served.
  - exists c', wd'. rewrite Ha. reflexivity.
Defined.

(** The hint of a shard whose rows return is the wrong one.  One worker
    publishes rows [a], then rows [b] for the same shard, then rows [a] again
    while both earlier generations are retained, as after a reorganisation.  The
    third generation advertises the digest of [a], but its public parameters are
    those of [b]: the worker finds [a] already prepared and leaves its
    [prepared_at] as it was, the coordinator's hint cache has dropped [a], and
    the hint endpoint answers with the most recently prepared runtime, [b]'s. *)
Theorem returned_rows_get_other_hint :
  exists digest_a digest_b params_a params_b,
    small_published (small_publish (small_publish (small_publish (small_state, small_world)
      rows_a 10) rows_b 11) rows_a 12) =
    [(12, [digest_a], params_b); (11, [digest_b], params_b); (10, [digest_a], params_a)] /\
    digest_a = small_digest rows_a /\ digest_b = small_digest rows_b /\ params_a <> params_b.
Proof. do 4 eexists. split; [vm_compute; reflexivity|]. split_and!; [..|discriminate]; vm_compute; reflexivity. Qed.

(** C16: publication retains.  With the retained generations newest first and
    distinct, a successful [publish] puts a generation in front that is anchored
    as asked and numbered strictly above every retained one (also when the
    height did not grow), keeps the previous seven as they were, and leaves the
    list ordered, distinct and at most eight long; a failed one leaves the list
    as it was, so queries of earlier sessions keep their generation. *)
Theorem publish_retains (layouts : Layouts) `{Hex} `{Sha256} `{Ipir} `{IpirServer} `{IpirPack}
    `{Schedule} (N : Type) `{!Http N} c wd sources anchor now r c' wd' :
  live_ok (co_live c) -> Forall (fun s => snapshot_generation s < u64_bound - 1) (co_live c) ->
  publish c wd sources anchor now = (r, c', wd') ->
  match r with
  | Ok _ => exists s, co_live c' = s :: take 7 (co_live c) /\ live_ok (co_live c') /\
      gm_anchor_height (gs_manifest s) = an_height anchor /\
      gm_anchor_block_hash (gs_manifest s) = an_hash anchor /\
      snapshot_generation s =
        next_generation (snapshot_generation <$> head (co_live c)) (an_height anchor) /\
      Forall (fun old => snapshot_generation old < snapshot_generation s) (co_live c) /\
      cs_phase (co_status c') = Serving
  | Err _ => co_live c' = co_live c
  end.
Proof. apply publish_live. Qed.

Lemma sample_live_ok :
  live_ok (co_live (fst sample_published)) /\
  Forall (fun s => snapshot_generation s < u64_bound - 1) (co_live (fst sample_published)).
Proof.
  assert (snapshot_generation <$> co_live (fst sample_published) = [10]) as Hl
    by (vm_compute; reflexivity).
  destruct (co_live (fst sample_published)) as [|x [|y l]]; [done| |done]. injection Hl as Hx.
  split; [split; [repeat constructor|cbn; unfold RETAINED_GENERATIONS; lia]|].
  constructor; [|constructor]. rewrite Hx. unfold u64_bound. lia.
Qed.

Lemma publish_retains_witness :
  exists s, co_live (fst (small_publish sample_published rows_b 10)) =
    s :: take 7 (co_live (fst sample_published)) /\ snapshot_generation s = 11.
Proof.
  assert (fst (fst (@publish small_layouts ascii_hex checksum32 small_ipir small_server small_pack
    in_order unit no_http (fst sample_published) (snd sample_published) [small_source rows_b]
    {| an_height := 10; an_hash := "" |} 0)) = Ok tt) as Hr by (vm_compute; reflexivity).
  unfold small_publish.
  destruct (@publish small_layouts ascii_hex checksum32 small_ipir small_server small_pack in_order
    unit no_http (fst sample_published) (snd sample_published) [small_source rows_b]
    {| an_height := 10; an_hash := "" |} 0) as [[r c'] wd'] eqn:E.
  cbn [fst] in Hr. subst r.
  destruct (@publish_retains small_layouts ascii_hex checksum32 small_ipir small_server small_pack
    in_order unit no_http (fst sample_published) (snd sample_published) [small_source rows_b]
    {| an_height := 10; an_hash := "" |} 0 (Ok tt) c' wd' (proj1 sample_live_ok)
    (proj2 sample_live_ok) E) as (s & Hl & _ & _ & _ & Hg & _).
  exists s. split; [exact Hl|]. rewrite Hg. vm_compute. reflexivity.
Defined.

(** A published Enhance table can be queried by a wallet.  After publishing
    an Enhance source of the protocol's geometry, the session the coordinator
    hands out carries the published positions, and the wallet's
    [QuerySession::new] accepts it: identity, seed, geometry, parameters, the
    digest, the epoch and the length of the public parameters all agree. *)
Theorem published_session_accepted `{Hex} `{Sha256} `{IpirParamsLaws} `{IpirServer} `{IpirPack}
    `{!IpirPackLaws} `{Schedule} `{Base64} (N : Type) `{!Http N} c wd source anchor now c' wd' :
  ts_table source = Enhance -> 0 < ts_positions source <= 2 ^ 40 ->
  @table_ready protocol_layouts _ _ c Enhance ->
  @publish protocol_layouts _ _ _ _ _ _ N _ c wd [source] anchor now = (Ok tt, c', wd') ->
  exists s public_params qs, session c' = Some s /\
    es_public_params_base64 s = base64_encode public_params /\
    eg_ironwood_tree_size (es_generation s) = ts_positions source /\
    QuerySession_new (es_generation s) (es_params s) public_params = Ok qs.
Proof.
  intros Ht Hp Hready Hpub.
  destruct (publish_single (layouts := protocol_layouts) c wd source anchor now c' wd') as (s & sn & Hn & Hsn & Hgm & Hts & Hb);
    [by rewrite Ht|done|].
  rewrite Ht in Hsn, Hgm.
  destruct (session_accepted source s sn Ht Hp Hb Hgm (Hts Ht)) as (g & qs & Hpu & Hg & _ & Hq).
  unfold session. rewrite Hn, Hsn, Hpu. do 3 eexists. split; [reflexivity|]. by split_and!.
Qed.

#[export] Instance small_pack_laws : @IpirPackLaws small_ipir small_pack.
Proof.
  split. cbn. intros rlwe crs pre [= <-] Hl. unfold zlen in *. rewrite length_fmap. lia.
Qed.

(** A remote worker that accepts everything and has a hint of zeros. *)
Definition zero_hint : list Z :=
  encode_crs_blocks (replicate 2 {| cb_rows := [[0; 0]; [0; 0]] |}).

Definition willing_http : @Http unit small_server := fun n _ call =>
  (Ok {| hp_status := 200; hp_content_length := None;
         hp_chunks := match call with WC_Hint _ _ => [Ok zero_hint] | _ => [] end |}, n).

Definition protocol_source : TableSource :=
  {| ts_table := Enhance; ts_layout := ENHANCE_LAYOUT; ts_positions := 100; ts_shard_ids := (0, 0);
     ts_read_shard_rows _ := Ok []; ts_populated_positions_in_shard _ := 100 |}.

Definition remote_table : TableState :=
  {| tb_setup := {| su_table := Enhance; su_groups :=
       [{| wg_name := "g"; wg_replicas := [Remote "w" "http://w"] |}] |};
     tb_rlwe := small_rlwe; tb_hint_cache := ∅; tb_query_slots := 2 |}.

Definition remote_state : @CoordinatorState small_pack :=
  {| co_tables := {[Enhance := remote_table]}; co_live := [];
     co_status := {| cs_phase := Syncing 0 0; cs_non_serving_since := Some 0 |} |}.

Lemma remote_state_ready : @table_ready protocol_layouts small_ipir small_pack remote_state Enhance.
Proof.
  intros state Hst. unfold remote_state in Hst. cbn [co_tables] in Hst.
  rewrite lookup_singleton_eq in Hst. injection Hst as <-.
  exists {| db_rows := 8192; db_cols := 4; ypir_p := 16; q_prime_1 := 97; query_bits := 8 |}.
  split; [reflexivity|]. apply map_Forall_empty.
Qed.

Definition quiet_world : @World small_server unit :=
  {| wd_embedded := ∅; wd_net := tt; wd_in_flight _ := 0; wd_writes _ := 3%nat |}.

Lemma published_session_accepted_witness :
  exists c' s public_params qs,
    fst (@publish protocol_layouts ascii_hex checksum32 small_ipir small_server small_pack in_order
      unit willing_http remote_state quiet_world [protocol_source]
      {| an_height := 3428200; an_hash := "00" |} 0) = (Ok tt, c') /\
    @session small_pack plain_base64 c' = Some s /\
    @QuerySession_new ascii_hex checksum32 small_ipir (es_generation s) (es_params s) public_params =
    Ok qs.
Proof.
  assert (fst (fst (@publish protocol_layouts ascii_hex checksum32 small_ipir small_server
    small_pack in_order unit willing_http remote_state quiet_world [protocol_source]
    {| an_height := 3428200; an_hash := "00" |} 0)) = Ok tt) as Hr by (vm_compute; reflexivity).
  destruct (@publish protocol_layouts ascii_hex checksum32 small_ipir small_server small_pack
    in_order unit willing_http remote_state quiet_world [protocol_source]
    {| an_height := 3428200; an_hash := "00" |} 0) as [[r c'] wd'] eqn:E.
  cbn [fst] in Hr. subst r.
  destruct (@published_session_accepted ascii_hex checksum32 small_ipir _ small_server small_pack _
    in_order plain_base64 unit willing_http remote_state quiet_world protocol_source
    {| an_height := 3428200; an_hash := "00" |} 0 c' wd') as (s & pp & qs & Hs & _ & _ & Hq).
  - reflexivity.
  - cbn. lia.
  - apply remote_state_ready.
  - exact E.
  - exists c', s, pp, qs. by split_and!.
Defined.

(** ** Configuration *)

Section config_laws.
Context `{UrlParser}.

Lemma validate_replicas_names workers names urls rs names' urls' :
  validate_replicas workers names urls = Ok (rs, names', urls') ->
  insert_names (WorkerTarget_name <$> rs) names = Some names' /\ length rs = length workers.
Proof.
  revert names urls rs names' urls'.
  induction workers as [|w workers IH]; intros names urls rs names' urls' Hv; cbn in Hv.
  - by simplify_eq.
  - destruct (validate_name _); [|done]. destruct (url_parse _) as [u|]; [|done]. cbn [map_err] in Hv.
    destruct (negb _); [done|]. case_bool_decide as Hn; [done|]. case_bool_decide; [done|].
    destruct (validate_replicas workers _ _) as [[[rs1 n1] u1]|] eqn:E; [|done]. simplify_eq.
    apply IH in E as [Hi Hl]. cbn. rewrite bool_decide_false by done. split; [done|]. by f_equal.
Qed.

Lemma validate_name_nonempty name u : validate_name name = Ok u -> name <> ""%string.
Proof. unfold validate_name. intros Hv ->. done. Qed.

Lemma validate_groups_checked configured gnames names urls groups :
  validate_groups configured gnames names urls = Ok groups ->
  check_groups groups names = Ok tt /\ NoDup (wg_name <$> groups) /\
  Forall (fun g => wg_name g ∉ gnames) groups /\ length groups = length configured.
Proof.
  revert gnames names urls groups.
  induction configured as [|g configured IH]; intros gnames names urls groups Hv; cbn in Hv.
  - simplify_eq. repeat split; constructor.
  - destruct (validate_name _) eqn:En; [|done]. apply validate_name_nonempty in En.
    case_bool_decide as Hg; [done|]. case_bool_decide as Hr; [done|].
    destruct (validate_replicas _ _ _) as [[[rs n1] u1]|] eqn:E1; [|done].
    destruct (validate_groups configured _ _ _) as [groups1|] eqn:E2; [|done]. simplify_eq.
    apply validate_replicas_names in E1 as [Hi Hl]. apply IH in E2 as (Hc & Hnd & Hfr & Hlen).
    split_and!.
    + cbn [check_groups wg_name wg_replicas]. rewrite bool_decide_false by done.
      destruct rs as [|r rs]; [by destruct (gc_replicas g)|]. by rewrite Hi.
    + cbn. constructor; [|done]. intros Hin. apply list_elem_of_fmap in Hin as (g' & Hg' & Hin).
      rewrite Forall_forall in Hfr. specialize (Hfr g' Hin). rewrite <- Hg' in Hfr. set_solver.
    + constructor; [done|]. eapply Forall_impl; [exact Hfr|]. intros g' Hg'. cbv beta in Hg'. set_solver.
    + cbn. by f_equal.
Qed.

Lemma NoDup_no_adjacent l : NoDup l -> has_adjacent_duplicates l = false.
Proof.
  induction 1 as [|a l Hin Hnd IH]; [done|]. destruct l as [|b l]; [done|].
  cbn [has_adjacent_duplicates]. rewrite bool_decide_false by set_solver. exact IH.
Qed.
End config_laws.

(** C20: a remote worker is as good as an embedded one.  Over a network that
    delivers, evaluating a well-formed request on a remote worker returns exactly
    the vector the worker's own [evaluate_local] returns, through both codecs and
    the size limits, and when the worker refuses, the error is one the
    coordinator retries on a peer; the worker is left as it was. *)
Theorem remote_evaluation_transparent {layouts : Layouts} `{Hex} `{Sha256} `{Ipir} `{IpirServer}
    (wd : World (gmap string WorkerState)) name url w table request :
  wd_net wd !! url = Some w -> request_wf request ->
  zlen (encode_evaluate_request request) <= max_shard_bytes + 1024 * 1024 ->
  max_shard_bytes < 2 ^ 60 ->
  let '(r, wd') := evaluate_worker (Http0 := direct_http) wd (Remote name url) table request in
  wd_net wd' !! url = Some w /\
  match evaluate_local w 0 table request with
  | Ok v => vector_wf v -> 16 + 8 * zlen v <= 1024 * 1024 -> r = Ok v
  | Err _ => exists e, r = Err e /\ we_retryable e = true
  end.
Proof. apply remote_evaluate. Qed.

Definition sample_evaluation (g : Z) : EvaluateRequest :=
  {| er_generation := g; er_shards := [{| sq_shard_id := 0; sq_coefficients := [0; 1] |}] |}.

Definition networked : @World small_server (gmap string (@WorkerState small_server)) :=
  {| wd_embedded := ∅; wd_net := {["http://w"%string := sample_worker]};
     wd_in_flight _ := 0; wd_writes _ := 3%nat |}.

Lemma remote_evaluation_transparent_witness :
  fst (@evaluate_worker small_layouts small_ipir small_server
    (gmap string (@WorkerState small_server))
    (@direct_http small_layouts ascii_hex checksum32 small_ipir small_server)
    networked (Remote "w" "http://w") Enhance (sample_evaluation 10)) = Ok [3; 0; 4; 0] /\
  exists e, fst (@evaluate_worker small_layouts small_ipir small_server
    (gmap string (@WorkerState small_server))
    (@direct_http small_layouts ascii_hex checksum32 small_ipir small_server)
    networked (Remote "w" "http://w") Enhance (sample_evaluation 9)) = Err e /\
    we_retryable e = true.
Proof.
  assert (forall g, u64 g -> request_wf (sample_evaluation g)) as Hwf.
  { intros g Hg. split; [done|]. split; [vm_compute; split; discriminate|].
    repeat constructor; try discriminate. }
  assert (wd_net networked !! "http://w"%string = Some sample_worker) as Hw
    by apply lookup_singleton_eq.
  pose proof (@remote_evaluation_transparent small_layouts ascii_hex checksum32 small_ipir
    small_server networked "w" "http://w" sample_worker Enhance (sample_evaluation 10) Hw
    (Hwf 10 ltac:(unfold u64, u64_bound; lia)) ltac:(vm_compute; discriminate)
    ltac:(vm_compute; reflexivity)) as H10.
  pose proof (@remote_evaluation_transparent small_layouts ascii_hex checksum32 small_ipir
    small_server networked "w" "http://w" sample_worker Enhance (sample_evaluation 9) Hw
    (Hwf 9 ltac:(unfold u64, u64_bound; lia)) ltac:(vm_compute; discriminate)
    ltac:(vm_compute; reflexivity)) as H9.
  assert (@evaluate_local small_layouts small_ipir small_server sample_worker 0 Enhance
    (sample_evaluation 10) = Ok [3; 0; 4; 0]) as E10 by (vm_compute; reflexivity).
  assert (@evaluate_local small_layouts small_ipir small_server sample_worker 0 Enhance
    (sample_evaluation 9) = Err "generation mismatch"%string) as E9 by (vm_compute; reflexivity).
  rewrite E10 in H10. rewrite E9 in H9. split.
  - destruct (evaluate_worker _ _ _ (sample_evaluation 10)) as [r wd']. destruct H10 as [_ H10].
    apply H10; [|vm_compute; discriminate].
    split; [vm_compute; split; [discriminate|reflexivity]|]. repeat constructor; discriminate.
  - destruct (evaluate_worker _ _ _ (sample_evaluation 9)) as [r wd']. apply (proj2 H9).
Defined.

(** A validated worker configuration always starts a coordinator.  If
    [remote_worker_setups] accepts the configuration (file or URLs), the
    coordinator's own checks (unique non-empty group names, at least one replica
    per group, replica names unique in the pool, one setup per table) all pass:
    construction succeeds, with nothing published and every configured group. *)
Theorem validated_config_constructs {layouts : Layouts} `{UrlParser} `{Ipir} `{IpirPack}
    worker_config worker_urls setups rlwe p query_slots now :
  remote_worker_setups worker_config worker_urls = Ok setups ->
  shard_parameters (layout_of Enhance) = Ok (rlwe, p) ->
  exists c groups, CoordinatorState_with_query_slots setups query_slots now = Ok c /\
    setups = [{| su_table := Enhance; su_groups := groups |}] /\ groups <> [] /\
    co_tables c = {[Enhance := {| tb_setup := {| su_table := Enhance; su_groups := groups |};
      tb_rlwe := rlwe; tb_hint_cache := ∅; tb_query_slots := Z.max query_slots 1 |}]} /\
    co_live c = [].
Proof.
  intros Hs Hp. unfold remote_worker_setups in Hs.
  set (enhance := match worker_config with Some gs => gs | None => url_groups worker_urls end) in Hs.
  case_bool_decide as Hne; [done|].
  destruct (validate_worker_groups enhance) as [groups|] eqn:Ev; [|done]. simplify_eq.
  apply validate_groups_checked in Ev as (Hc & Hnd & _ & Hl).
  destruct groups as [|g0 gs]; [by destruct enhance|].
  exists {| co_tables := {[Enhance := {| tb_setup := {| su_table := Enhance; su_groups := g0 :: gs |};
      tb_rlwe := rlwe; tb_hint_cache := ∅; tb_query_slots := Z.max query_slots 1 |}]};
    co_live := []; co_status := {| cs_phase := Syncing 0 0; cs_non_serving_since := Some now |} |},
    (g0 :: gs). split_and!; [|done|discriminate|done|done].
  unfold CoordinatorState_with_query_slots. cbn [build_tables su_groups su_table].
  rewrite NoDup_no_adjacent by by rewrite merge_sort_Permutation.
  rewrite Hc, lookup_empty, Hp. cbn. reflexivity.
Qed.

(** URLs of the form the examples use. *)
Definition plain_urls : UrlParser := fun _ =>
  Ok {| url_scheme := "http"; url_host := Some "w"%string; url_username := "";
        url_password := None; url_query := None; url_fragment := None |}.

Lemma validated_config_constructs_witness :
  exists c groups,
    @CoordinatorState_with_query_slots small_layouts small_ipir small_pack
      [{| su_table := Enhance; su_groups := groups |}] 2 0 = Ok c /\ length groups = 2%nat.
Proof.
  destruct (@remote_worker_setups plain_urls None ["http://a/"; "http://b"]%string)
    as [setups|] eqn:E; [|exfalso; vm_compute in E; discriminate].
  destruct (@validated_config_constructs small_layouts plain_urls small_ipir small_pack None
    ["http://a/"; "http://b"]%string setups small_rlwe small_params 2 0 E eq_refl)
    as (c & groups & Hc & -> & _ & _).
  exists c, groups. split; [exact Hc|]. vm_compute in E. by injection E as <-.
Defined.
