(* ===== verification/Ingest.v ===== *)
(** * The Enhance ingestion loop

    Models [ingest] of [server/enhance-pir-server/src/bin/server.rs]: one pass of
    its loop reconciles the record journal with the node, catches up, and
    publishes the journal when the node still reports the block it ends in as its
    tip.  The journal, its directory, the coordinator with its workers, and the
    node are explicit state.  The theorems: what is published is anchored at a
    block the node reported as its tip in that pass; against a node whose chain
    does not change, one pass brings the journal to the tip with exactly the
    chain's records, and the next pass changes nothing. *)

From Stdlib Require Import ZArith Lia.
From stdpp Require Import base numbers sorting countable pretty strings gmap list.
From S2P Require Import Prelude FilterTypes Instances EnhanceTypes RecordJournal Wire Ipir Worker Fleet Coordinator.

Open Scope Z_scope.

Definition EnhanceJournal_committed_height (j : RecordJournal) : option Z :=
  be_height <$> RecordJournal_last_block j.

Definition EnhanceJournal_highest_committed (j : RecordJournal) : option (Z * string) :=
  (fun block => (be_height block, be_hash block)) <$> RecordJournal_last_block j.

Definition EnhanceIngestError_to_string (e : EnhanceIngestError) : string :=
  match e with EI_Store e => JournalError_to_string e | EI_Invariant m | EI_Node m => m end.

(** How a pass that does not fail ends: [continue], or the sleep at the end of the
    loop, after a publication or without one. *)
Inductive PassEnd := Continue | Slept | Published.

Section pass.
Context {layouts : Layouts} `{Hex} `{Sha256} `{Ipir} `{IpirServer} `{IpirPack} `{Schedule}
  {N : Type} `{!Http N} {M : Type} `{EnhanceNode M}.

Record PassState := {
  ps_journal : RecordJournal; ps_files : jfiles;
  ps_coordinator : CoordinatorState; ps_world : World N; ps_node : M }.

Definition with_node (s : PassState) (n : M) : PassState :=
  {| ps_journal := ps_journal s; ps_files := ps_files s; ps_coordinator := ps_coordinator s;
     ps_world := ps_world s; ps_node := n |}.

Definition with_journal (s : PassState) (j : RecordJournal) (ops : list jop) (n : M) : PassState :=
  {| ps_journal := j; ps_files := run_jops ops (ps_files s); ps_coordinator := ps_coordinator s;
     ps_world := ps_world s; ps_node := n |}.

Definition with_coordinator (s : PassState) (c : CoordinatorState) (wd : World N) : PassState :=
  {| ps_journal := ps_journal s; ps_files := ps_files s; ps_coordinator := c; ps_world := wd;
     ps_node := ps_node s |}.

(** The manifest already anchored at this height and hash. *)
Definition already_published (c : CoordinatorState) (target : Z) (current_hash : option string) : bool :=
  match gs_manifest <$> newest c with
  | Some manifest =>
      (gm_anchor_height manifest =? target) &&
      bool_decide (current_hash = Some (gm_anchor_block_hash manifest))
  | None => false
  end.

(** The end of the pass: publish, unless the tip moved meanwhile. *)
Definition publish_tip (s : PassState) (target : Z) (now : Z) : result string PassEnd * PassState :=
  let current_hash :=
    match EnhanceJournal_highest_committed (ps_journal s) with
    | Some (height, hash) => if height =? target then Some hash else None
    | None => None
    end in
  if bool_decide (EnhanceJournal_committed_height (ps_journal s) = Some target) &&
     negb (already_published (ps_coordinator s) target current_hash) then
    match en_tip_height (ps_node s) with
    | (Err e, n) => (Err e, with_node s n)
    | (Ok tip, n) =>
    let s := with_node s n in
    if negb (tip =? target) then (Ok Continue, s) else
    match current_hash with
    | None => (Err "committed target has a block hash"%string, s)
    | Some hash =>
    match en_block_hash target (ps_node s) with
    | (Err e, n) => (Err e, with_node s n)
    | (Ok node_hash, n) =>
    let s := with_node s n in
    if negb (bool_decide (node_hash = hash)) then (Ok Continue, s) else
    match TableJournal_new Enhance (ps_journal s) (ps_files s) with
    | Err e => (Err e, s)
    | Ok enhance_table =>
    match publish (ps_coordinator s) (ps_world s) [enhance_table]
            {| an_height := target; an_hash := hash |} now with
    | (Err e, c, wd) => (Err e, with_coordinator s c wd)
    | (Ok _, c, wd) => (Ok Published, with_coordinator s c wd)
    end end end end end
  else (Ok Slept, s).

(** One iteration of the loop of [ingest]. *)
Definition ingest_pass (s : PassState) (now : Z) : result string PassEnd * PassState :=
  match en_tip_height (ps_node s) with
  | (Err e, n) => (Err e, with_node s n)
  | (Ok target, n) =>
  match enhance_reconcile (ps_journal s) target n with
  | (Err e, j, ops, n) => (Err (EnhanceIngestError_to_string e), with_journal s j ops n)
  | (Ok _, j, ops, n) =>
  let s := with_journal s j ops n in
  if target <? ACTIVATION_HEIGHT
  then (Err "Zakura has not reached Ironwood activation"%string, s) else
  let next :=
    match EnhanceJournal_committed_height (ps_journal s) with
    | Some height => wrap64 (height + 1)
    | None => ACTIVATION_HEIGHT
    end in
  let s :=
    if next <=? target
    then with_coordinator s (set_phase (ps_coordinator s) (Syncing (saturating_sub next 1) target) now)
           (ps_world s)
    else s in
  match enhance_catch_up (Z.to_nat (target - next + 1)) target next (ps_journal s) (ps_node s) with
  | (Err e, j, ops, n) => (Err (EnhanceIngestError_to_string e), with_journal s j ops n)
  | (Ok _, j, ops, n) => publish_tip (with_journal s j ops n) target now
  end end end.

(** ** What is published *)

(** [publish] of one Enhance source puts its anchor and size in front. *)
Lemma publish_newest c wd source anchor now c' wd' :
  ts_table source = Enhance -> publish c wd [source] anchor now = (Ok tt, c', wd') ->
  exists s, newest c' = Some s /\ gm_anchor_height (gs_manifest s) = an_height anchor /\
    gm_anchor_block_hash (gs_manifest s) = an_hash anchor /\
    gm_ironwood_tree_size (gs_manifest s) = ts_positions source.
Proof.
  intros Ht. unfold publish. rewrite filter_cons, filter_nil. case_decide; [|done].
  destruct (publish_tables _ _ _ _) as [[[sns|] c1] wd1]; [|done]. intros [= <- <-].
  cbn [newest set_phase co_live retain head]. eexists. split; [reflexivity|]. cbn.
  by rewrite Ht, bool_decide_true.
Qed.

Lemma publish_tip_published s target now s' :
  publish_tip s target now = (Ok Published, s') ->
  exists last snap n, RecordJournal_last_block (ps_journal s') = Some last /\
    newest (ps_coordinator s') = Some snap /\ be_height last = target /\
    gm_anchor_height (gs_manifest snap) = be_height last /\
    gm_anchor_block_hash (gs_manifest snap) = be_hash last /\
    gm_ironwood_tree_size (gs_manifest snap) = RecordJournal_tree_size (ps_journal s') /\
    en_tip_height (ps_node s) = (Ok target, n) /\
    en_block_hash target n = (Ok (be_hash last), ps_node s').
Proof.
  unfold publish_tip, EnhanceJournal_committed_height, EnhanceJournal_highest_committed.
  destruct (RecordJournal_last_block (ps_journal s)) as [last|] eqn:El; cbn [fmap option_fmap option_map];
    [|by rewrite bool_decide_false].
  case_bool_decide as Hh; [|done]. injection Hh as <-. rewrite Z.eqb_refl.
  destruct (negb _); [|done]. cbn [andb].
  destruct (en_tip_height _) as [[tip|] n] eqn:Et; [|done]. cbn [with_node ps_node ps_journal ps_files].
  destruct (tip =? be_height last) eqn:Etip; [|done]. bool_prop. subst tip. cbn [negb].
  destruct (en_block_hash _ n) as [[hash|] n'] eqn:Eh; [|done]. cbn [with_node ps_coordinator ps_world].
  case_bool_decide as Ehash; [|done]. subst hash. cbn [negb ps_journal ps_files].
  destruct (TableJournal_new _ _ _) as [source|] eqn:Es; [|done].
  destruct (publish _ _ _ _ _) as [[[[]|] c] wd] eqn:Ep; [|done]. intros [= <-].
  unfold TableJournal_new in Es. destruct (negb _); [done|]. injection Es as <-.
  apply publish_newest in Ep as (snap & Hn & Ha1 & Ha2 & Ha3); [|done].
  exists last, snap, n. by split_and!.
Qed.

(** ** A node whose chain does not change *)

Section chain.
Context (layout : DatabaseLayout) (tip : Z) (chain : Z -> CanonicalBlock).

(** The records of the blocks from activation through [h]. *)
Definition chain_records (h : Z) : list EnhanceRecord :=
  concat ((fun k => cb_records (chain k)) <$> seqZ ACTIVATION_HEIGHT (h - ACTIVATION_HEIGHT + 1)).

(** The node serves the chain from activation to [tip] and nothing else happens. *)
Record serves_chain : Prop := {
  sc_tip n : en_tip_height n = (Ok tip, n);
  sc_hash h n : ACTIVATION_HEIGHT <= h <= tip -> en_block_hash h n = (Ok (cb_hash (chain h)), n);
  sc_block h n : ACTIVATION_HEIGHT <= h <= tip -> en_block h n = (Ok (chain h), n);
  sc_height h : ACTIVATION_HEIGHT <= h <= tip -> cb_height (chain h) = h;
  sc_widths h : ACTIVATION_HEIGHT <= h <= tip ->
    Forall (fun r => zlen r = record_bytes layout) (cb_records (chain h));
  sc_tree h : ACTIVATION_HEIGHT <= h <= tip -> cb_tree_size (chain h) = zlen (chain_records h);
  sc_range : ACTIVATION_HEIGHT <= tip < 2 ^ 63;
  sc_size : zlen (chain_records tip) * record_bytes layout < 2 ^ 63 }.

(** The journal holds exactly the chain through [h]. *)
Record follows (j : RecordJournal) (d : jfiles) (h : Z) : Prop := {
  fo_stored : jstored j d (chain_records h) [];
  fo_layout : rj_layout j = layout;
  fo_table : rj_table j = Some Enhance;
  fo_last : if h <? ACTIVATION_HEIGHT then RecordJournal_last_block j = None
            else (fun b => (be_height b, be_hash b)) <$> RecordJournal_last_block j =
                 Some (h, cb_hash (chain h)) }.

Lemma chain_records_S h :
  ACTIVATION_HEIGHT <= h -> chain_records h = chain_records (h - 1) ++ cb_records (chain h).
Proof.
  intros Hh. unfold chain_records.
  replace (h - ACTIVATION_HEIGHT + 1) with (h - 1 - ACTIVATION_HEIGHT + 1 + 1) by lia.
  rewrite seqZ_app, fmap_app, concat_app by lia. f_equal.
  match goal with |- context [seqZ ?a 1] => replace a with h by lia end.
  change (seqZ h 1) with [h]. cbn. apply app_nil_r.
Qed.

Lemma chain_records_le h k :
  ACTIVATION_HEIGHT - 1 <= h <= k -> zlen (chain_records h) <= zlen (chain_records k).
Proof.
  intros Hk. unfold chain_records.
  replace (k - ACTIVATION_HEIGHT + 1) with (h - ACTIVATION_HEIGHT + 1 + (k - h)) by lia.
  assert (0 <= h - ACTIVATION_HEIGHT + 1) as Hm by lia.
  generalize dependent (h - ACTIVATION_HEIGHT + 1). intros m Hm.
  rewrite seqZ_app, fmap_app, concat_app, zlen_app by lia.
  match goal with |- _ <= _ + zlen ?l => pose proof (zlen_nonneg l) end. lia.
Qed.

(** A block that follows the last one, of the right record width, is accepted. *)
Lemma append_block_accepts j h hash (records : list (list Z)) :
  (forall l, RecordJournal_last_block j = Some l -> be_height l + 1 = h) -> 0 <= h < u64_bound ->
  Forall (fun r => zlen r = record_bytes (rj_layout j)) records ->
  RecordJournal_tree_size j + zlen records < u64_bound ->
  exists j' ops b, RecordJournal_append_block j h hash records = (Ok tt, j', ops) /\
    RecordJournal_last_block j' = Some b /\ be_height b = h /\ be_hash b = hash.
Proof.
  intros Hl Hh Hw Hsz. unfold RecordJournal_append_block.
  assert (match RecordJournal_last_block j with Some previous => negb (h =? wrap64 (be_height previous + 1))
    | None => false end = false) as ->.
  { destruct (RecordJournal_last_block j) as [l|]; [|done]. rewrite (Hl l eq_refl), wrap64_small by done.
    by rewrite Z.eqb_refl. }
  assert (existsb (fun r => negb (zlen r =? record_bytes (rj_layout j))) records = false) as ->.
  { induction Hw as [|x l Hx _ IH]; [done|]. cbn. rewrite Hx, Z.eqb_refl. apply IH.
    rewrite zlen_cons in Hsz. lia. }
  unfold checked_add64. unfold RecordJournal_tree_size in Hsz. guards.
  eexists _, _, _. split; [reflexivity|]. unfold RecordJournal_last_block.
  cbn [with_manifest rj_manifest sm_blocks]. by rewrite last_snoc.
Qed.

(** Appending the next block of the chain. *)
Lemma follows_append j d h :
  serves_chain -> follows j d h -> ACTIVATION_HEIGHT - 1 <= h < tip ->
  exists j' ops, EnhanceJournal_append_block j (chain (h + 1)) = (Ok tt, j', ops) /\
    follows j' (run_jops ops d) (h + 1).
Proof.
  intros Hc [Hst Hlay Htab Hlast] Hh. pose proof Hst as ([Hbytes _ Hts _ _ _ _ _] & _ & _).
  rewrite Hlay in Hbytes.
  assert (ACTIVATION_HEIGHT <= h + 1 <= tip) as Hn by lia.
  pose proof (sc_height Hc _ Hn) as Hhe. pose proof (sc_tree Hc _ Hn) as Htree.
  pose proof (sc_widths Hc _ Hn) as Hw. pose proof (sc_range Hc) as Hr.
  pose proof (chain_records_S (h + 1) ltac:(lia)) as Hcs. rewrite Z.add_simpl_r in Hcs.
  pose proof (chain_records_le (h + 1) tip ltac:(lia)) as Hle. pose proof (sc_size Hc) as Hsz.
  assert (zlen (chain_records (h + 1)) = zlen (chain_records h) + zlen (cb_records (chain (h + 1)))) as Hz
    by by rewrite Hcs, zlen_app.
  pose proof (zlen_nonneg (chain_records h)). pose proof (zlen_nonneg (cb_records (chain (h + 1)))).
  assert (forall l, RecordJournal_last_block j = Some l -> be_height l = h) as Hl.
  { intros l El. rewrite El in Hlast. destruct (h <? ACTIVATION_HEIGHT); [done|]. by injection Hlast. }
  unfold EnhanceJournal_append_block.
  assert (match RecordJournal_last_block j with Some last => cb_height (chain (h + 1)) <=? be_height last
    | None => false end = false) as ->.
  { destruct (RecordJournal_last_block j) as [l|] eqn:El; [|done]. rewrite (Hl l eq_refl), Hhe. lia. }
  unfold checked_sub64. rewrite Htree, Hz, Hts. unfold EnhanceRecord in *. guards. cbn [orb].
  match goal with |- context [drop (Z.to_nat ?e)] => replace e with 0 by lia end.
  change (Z.to_nat 0) with 0%nat. rewrite drop_0, Hhe.
  destruct (append_block_accepts j (h + 1) (cb_hash (chain (h + 1))) (cb_records (chain (h + 1))))
    as (j' & ops & b & Ea & Hlast' & Hbh & Hbs).
  { intros l El. by rewrite (Hl l El). }
  { unfold ACTIVATION_HEIGHT, u64_bound in *. lia. }
  { rewrite Hlay. exact Hw. }
  { rewrite Hts. unfold u64_bound in *. nia. }
  rewrite Ea. pose proof (fun a b => append_stored j d (chain_records h) (h + 1) _ _ j' ops Hst a b Ea) as Has.
  destruct Has as (_ & _ & Ht' & Hl' & Hst').
  { rewrite Hlay, <- Hz. unfold u64_bound in *. nia. }
  { intros l El. rewrite (Hl l El). rewrite El in Hlast. unfold ACTIVATION_HEIGHT, u64_bound in *.
    destruct (h <? _) eqn:E; [done|]. bool_prop. lia. }
  rewrite <- Hcs in Hst'. pose proof Hst' as ([_ _ Hts' _ _ _ _ _] & _ & _).
  exists j', ops. rewrite Hts', Hz, Z.eqb_refl. cbn [negb]. split; [done|].
  constructor; [done|congruence|congruence|]. guards. rewrite Hlast'. cbn. by rewrite Hbh, Hbs.
Qed.

(** Catching up appends exactly the missing blocks. *)
Lemma catch_up_follows fuel j d h n :
  serves_chain -> follows j d h -> ACTIVATION_HEIGHT - 1 <= h <= tip -> fuel = Z.to_nat (tip - h) ->
  exists j' ops, enhance_catch_up fuel tip (h + 1) j n = (Ok tt, j', ops, n) /\
    follows j' (run_jops ops d) tip.
Proof.
  intros Hc. revert j d h. induction fuel as [|fuel IH]; intros j d h Hf Hh Hfuel; cbn [enhance_catch_up].
  - exists j, []. assert (h = tip) as -> by lia. done.
  - guards. rewrite (sc_block Hc) by lia.
    destruct (follows_append j d h Hc Hf ltac:(lia)) as (j1 & ops1 & -> & Hf1).
    rewrite wrap64_small by (pose proof (sc_range Hc); unfold ACTIVATION_HEIGHT, u64_bound in *; lia).
    destruct (IH j1 _ (h + 1) Hf1 ltac:(lia) ltac:(lia)) as (j2 & ops2 & -> & Hf2).
    exists j2, (ops1 ++ ops2). split; [done|]. unfold run_jops in *. by rewrite foldl_app.
Qed.

(** A journal that follows the chain is left alone by reconciliation. *)
Lemma reconcile_follows j d h n :
  serves_chain -> follows j d h -> ACTIVATION_HEIGHT - 1 <= h <= tip ->
  enhance_reconcile j tip n = (Ok tt, j, [], n).
Proof.
  intros Hc [_ _ _ Hlast] Hh. unfold enhance_reconcile. cbn [enhance_reconcile_loop].
  destruct (h <? ACTIVATION_HEIGHT) eqn:E; [by rewrite Hlast|]. bool_prop.
  destruct (RecordJournal_last_block j) as [l|]; [|done]. injection Hlast as Hl1 Hl2. rewrite Hl1. guards.
  rewrite (sc_hash Hc) by lia. by rewrite bool_decide_true by congruence.
Qed.

(** The next height of a journal that follows the chain. *)
Lemma next_follows j d h :
  serves_chain -> follows j d h -> ACTIVATION_HEIGHT - 1 <= h <= tip ->
  match EnhanceJournal_committed_height j with
  | Some height => wrap64 (height + 1) | None => ACTIVATION_HEIGHT end = h + 1.
Proof.
  intros Hc [_ _ _ Hlast] Hh. unfold EnhanceJournal_committed_height.
  destruct (h <? ACTIVATION_HEIGHT) eqn:E; bool_prop.
  - rewrite Hlast. cbn. lia.
  - destruct (RecordJournal_last_block j) as [l|]; [|done]. injection Hlast as Hl1 _. cbn. rewrite Hl1.
    apply wrap64_small. pose proof (sc_range Hc). unfold ACTIVATION_HEIGHT, u64_bound in *. lia.
Qed.

(** The end of a pass on a journal that reached the tip. *)
Lemma publish_tip_follows s now :
  serves_chain -> follows (ps_journal s) (ps_files s) tip ->
  exists source, TableJournal_new Enhance (ps_journal s) (ps_files s) = Ok source /\
  publish_tip s tip now =
  if already_published (ps_coordinator s) tip (Some (cb_hash (chain tip))) then (Ok Slept, s)
  else match publish (ps_coordinator s) (ps_world s) [source]
               {| an_height := tip; an_hash := cb_hash (chain tip) |} now with
       | (Err e, c, wd) => (Err e, with_coordinator s c wd)
       | (Ok _, c, wd) => (Ok Published, with_coordinator s c wd)
       end.
Proof.
  intros Hc [_ _ Htab Hlast]. pose proof (sc_range Hc) as Hr.
  unfold TableJournal_new. rewrite bool_decide_true by done. cbn [negb]. eexists. split; [reflexivity|].
  unfold publish_tip, EnhanceJournal_committed_height, EnhanceJournal_highest_committed.
  destruct (tip <? ACTIVATION_HEIGHT) eqn:E; [bool_prop; lia|].
  destruct (RecordJournal_last_block (ps_journal s)) as [l|]; [|done].
  injection Hlast as Hl1 Hl2. cbn [fmap option_fmap option_map]. rewrite Hl1, Hl2, Z.eqb_refl.
  rewrite bool_decide_true by done. destruct (already_published _ _ _); [done|]. cbn [negb andb].
  destruct s as [j d c wd n]. cbn [with_node ps_journal ps_files ps_node ps_coordinator ps_world] in *.
  rewrite (sc_tip Hc), Z.eqb_refl. cbn [negb ps_node]. rewrite (sc_hash Hc) by lia.
  rewrite bool_decide_true by done. cbn [negb]. unfold TableJournal_new.
  rewrite bool_decide_true by done. cbn [negb].
  by destruct (publish _ _ _ _ _) as [[[[]|] c'] wd'].
Qed.

(** A pass against the chain, in one equation. *)
Lemma pass_follows s h now :
  serves_chain -> follows (ps_journal s) (ps_files s) h -> ACTIVATION_HEIGHT - 1 <= h <= tip ->
  exists s1, ingest_pass s now = publish_tip s1 tip now /\ follows (ps_journal s1) (ps_files s1) tip /\
    ps_world s1 = ps_world s /\ ps_node s1 = ps_node s /\ (h = tip -> s1 = s).
Proof.
  intros Hc Hf Hh. pose proof (sc_range Hc) as Hr. unfold ingest_pass. rewrite (sc_tip Hc).
  rewrite (reconcile_follows _ _ _ _ Hc Hf Hh). guards.
  destruct s as [j d c wd n]. cbn [with_journal ps_journal ps_files ps_node ps_coordinator ps_world] in *.
  rewrite (next_follows _ _ _ Hc Hf Hh). change (run_jops [] d) with d.
  destruct (catch_up_follows (Z.to_nat (tip - h)) j d h n Hc Hf Hh eq_refl) as (j' & ops & Hcu & Hf').
  replace (tip - (h + 1) + 1) with (tip - h) by lia.
  destruct (h + 1 <=? tip) eqn:E; bool_prop;
    cbn [with_coordinator with_journal ps_journal ps_files ps_node ps_coordinator ps_world];
    rewrite Hcu; eexists; (split; [reflexivity|]); (split; [exact Hf'|]); cbn; (do 2 (split; [done|])); intros ->;
    [lia|]. rewrite Z.sub_diag in Hcu. cbn in Hcu. injection Hcu as <- <-. reflexivity.
Qed.

Definition anchored (c : CoordinatorState) : Prop :=
  exists snap, newest c = Some snap /\ gm_anchor_height (gs_manifest snap) = tip /\
    gm_anchor_block_hash (gs_manifest snap) = cb_hash (chain tip).

Lemma already_published_anchored c :
  already_published c tip (Some (cb_hash (chain tip))) = true <-> anchored c.
Proof.
  unfold already_published, anchored. destruct (newest c) as [snap|]; cbn.
  - rewrite andb_true_iff, Z.eqb_eq, bool_decide_eq_true. split.
    + intros [Ha1 [= Ha2]]. exists snap. done.
    + intros (? & [= <-] & -> & ->). done.
  - split; [done|]. by intros (? & ? & _).
Qed.
End chain.
End pass.

(** ** Properties *)

(** C8: only a tip is published.  Whatever the node does between calls, when a pass
    ends in a publication, the newest generation is anchored at the journal's last
    block and sized by the journal, and the node's last two answers in that pass
    were that block's height as its tip and that block's hash at that height: no
    generation is published for a block the node had already abandoned. *)
Theorem ingest_publishes_tip {layouts : Layouts} `{Hex} `{Sha256} `{Ipir} `{IpirServer} `{IpirPack}
    `{Schedule} (N : Type) `{!Http N} (M : Type) `{EnhanceNode M} (s s' : PassState (N := N) (M := M)) now :
  ingest_pass s now = (Ok Published, s') ->
  exists last snap n0 n, RecordJournal_last_block (ps_journal s') = Some last /\
    newest (ps_coordinator s') = Some snap /\
    gm_anchor_height (gs_manifest snap) = be_height last /\
    gm_anchor_block_hash (gs_manifest snap) = be_hash last /\
    gm_ironwood_tree_size (gs_manifest snap) = RecordJournal_tree_size (ps_journal s') /\
    en_tip_height n0 = (Ok (be_height last), n) /\
    en_block_hash (be_height last) n = (Ok (be_hash last), ps_node s').
Proof.
  unfold ingest_pass. destruct (en_tip_height _) as [[target|] n0]; [|done].
  destruct (enhance_reconcile _ _ _) as [[[[[]|] j] ops] n1]; [|done].
  destruct (target <? ACTIVATION_HEIGHT); [done|]. cbv zeta.
  destruct (enhance_catch_up _ _ _ _ _) as [[[[[]|] j2] ops2] n2]; [|done]. intros Hp.
  apply publish_tip_published in Hp as (last & snap & n & Hl & Hn & <- & Hrest).
  exists last, snap. eexists _, n. split; [done|]. split; [done|]. exact Hrest.
Qed.

(** C7: a pass reaches the tip, and then rests.  Against a node whose chain does not
    change, and from a journal that holds that chain up to any height, one pass
    leaves the journal holding exactly the chain's records through the tip; it
    fails only if the publication itself fails, otherwise the newest generation is
    anchored at the tip; and a pass that follows a successful one changes neither
    journal, files, coordinator nor workers. *)
Theorem ingest_reaches_tip {layouts : Layouts} `{Hex} `{Sha256} `{Ipir} `{IpirServer} `{IpirPack}
    `{Schedule} (N : Type) `{!Http N} (M : Type) `{EnhanceNode M} layout tip chain
    (s : PassState (N := N) (M := M)) h now now' :
  serves_chain (M := M) layout tip chain -> follows layout chain (ps_journal s) (ps_files s) h ->
  ACTIVATION_HEIGHT - 1 <= h <= tip ->
  let '(r, s') := ingest_pass s now in
  follows layout chain (ps_journal s') (ps_files s') tip /\
  match r with
  | Ok e => e <> Continue /\ anchored tip chain (ps_coordinator s') /\ ingest_pass s' now' = (Ok Slept, s')
  | Err e => exists c source, TableJournal_new Enhance (ps_journal s') (ps_files s') = Ok source /\
      publish c (ps_world s) [source] {| an_height := tip; an_hash := cb_hash (chain tip) |} now =
      (Err e, ps_coordinator s', ps_world s')
  end.
Proof.
  intros Hc Hf Hh. pose proof (sc_range layout tip chain Hc) as Hr.
  destruct (pass_follows layout tip chain s h now Hc Hf Hh) as (s1 & -> & Hf1 & Hw1 & _).
  destruct (publish_tip_follows layout tip chain s1 now Hc Hf1) as (source & Hsrc & ->).
  assert (forall s2 : PassState (N := N) (M := M), follows layout chain (ps_journal s2) (ps_files s2) tip ->
    anchored tip chain (ps_coordinator s2) -> ingest_pass s2 now' = (Ok Slept, s2)) as Hrest.
  { intros s2 Hf2 Ha. destruct (pass_follows layout tip chain s2 tip now' Hc Hf2 ltac:(lia))
      as (s3 & -> & _ & _ & _ & Heq). rewrite (Heq eq_refl).
    destruct (publish_tip_follows layout tip chain s2 now' Hc Hf2) as (? & _ & ->).
    by rewrite (proj2 (already_published_anchored tip chain _) Ha). }
  destruct (already_published _ _ _) eqn:Ea.
  { apply already_published_anchored in Ea. split; [done|]. split; [done|]. split; [done|]. by apply Hrest. }
  destruct (publish _ _ _ _ _) as [[[[]|e] c] wd] eqn:Ep;
    (split; [exact Hf1|]).
  - assert (ts_table source = Enhance) as Ht.
    { unfold TableJournal_new in Hsrc. destruct (negb _); [done|]. by injection Hsrc as <-. }
    apply publish_newest in Ep as (snap & Hn & Ha1 & Ha2 & _); [|done].
    assert (anchored tip chain c) as Ha by (exists snap; done).
    split; [done|]. split; [exact Ha|]. by apply Hrest.
  - exists (ps_coordinator s1), source. split; [exact Hsrc|]. rewrite <- Hw1. exact Ep.
Qed.


(** ** Two blocks of small records *)

Definition small_chain (h : Z) : CanonicalBlock := {|
  cb_height := h; cb_hash := "b"%string;
  cb_records := [if h =? ACTIVATION_HEIGHT then [1; 2] else [3; 4]];
  cb_tree_size := h - ACTIVATION_HEIGHT + 1 |}.

#[export] Instance steady_node : EnhanceNode unit := {|
  en_tip_height n := (Ok (ACTIVATION_HEIGHT + 1), n);
  en_block_hash h n := (Ok (cb_hash (small_chain h)), n);
  en_block h n := (Ok (small_chain h), n) |}.

Lemma small_chain_served : serves_chain (M := unit) small_layout (ACTIVATION_HEIGHT + 1) small_chain.
Proof.
  split; try done.
  - intros h _. cbn. constructor; [|constructor]. by destruct (h =? ACTIVATION_HEIGHT).
  - intros h Hh. assert (h = ACTIVATION_HEIGHT \/ h = ACTIVATION_HEIGHT + 1) as [->| ->] by lia;
      vm_compute; reflexivity.
Qed.

Definition empty_journal : RecordJournal := {|
  rj_name := "enhance"%string; rj_table := Some Enhance; rj_layout := small_layout;
  rj_manifest := fresh_manifest "enhance" |}.

Lemma empty_follows : follows small_layout small_chain empty_journal empty_jfiles (ACTIVATION_HEIGHT - 1).
Proof. by split. Qed.

Definition small_pass : @PassState small_server small_pack unit unit :=
  {| ps_journal := empty_journal; ps_files := empty_jfiles; ps_coordinator := small_state;
     ps_world := small_world; ps_node := tt |}.

Definition run_small_pass (s : @PassState small_server small_pack unit unit) :=
  @ingest_pass small_layouts ascii_hex checksum32 small_ipir small_server small_pack in_order unit no_http
    unit steady_node s 0.

Lemma ingest_publishes_tip_witness :
  exists last snap, RecordJournal_last_block (ps_journal (snd (run_small_pass small_pass))) = Some last /\
    be_height last = ACTIVATION_HEIGHT + 1 /\
    newest (ps_coordinator (snd (run_small_pass small_pass))) = Some snap /\
    gm_anchor_height (gs_manifest snap) = ACTIVATION_HEIGHT + 1 /\ gm_ironwood_tree_size (gs_manifest snap) = 2.
Proof.
  assert (fst (run_small_pass small_pass) = Ok Published) as Hp by (vm_compute; reflexivity).
  destruct (@ingest_publishes_tip small_layouts ascii_hex checksum32 small_ipir small_server small_pack
    in_order unit no_http unit steady_node small_pass (snd (run_small_pass small_pass)) 0)
    as (last & snap & n0 & n & Hl & Hn & Hh & _ & Ht & Htip & _).
  - change (run_small_pass small_pass = (Ok Published, snd (run_small_pass small_pass))).
    rewrite <- Hp. apply surjective_pairing.
  - cbn in Htip. injection Htip as Htip. exists last, snap.
    split; [exact Hl|]. split; [symmetry; exact Htip|]. split; [exact Hn|].
    split; [rewrite Hh; symmetry; exact Htip|]. rewrite Ht. vm_compute. reflexivity.
Defined.

Lemma ingest_reaches_tip_witness :
  follows small_layout small_chain (ps_journal (snd (run_small_pass small_pass)))
    (ps_files (snd (run_small_pass small_pass))) (ACTIVATION_HEIGHT + 1) /\
  fst (run_small_pass small_pass) = Ok Published /\
  run_small_pass (snd (run_small_pass small_pass)) = (Ok Slept, snd (run_small_pass small_pass)).
Proof.
  assert (fst (run_small_pass small_pass) = Ok Published) as Hp by (vm_compute; reflexivity).
  pose proof (@ingest_reaches_tip small_layouts ascii_hex checksum32 small_ipir small_server small_pack
    in_order unit no_http unit steady_node small_layout (ACTIVATION_HEIGHT + 1) small_chain small_pass
    (ACTIVATION_HEIGHT - 1) 0 0 small_chain_served empty_follows ltac:(split; discriminate)) as Hr.
  change (@ingest_pass small_layouts ascii_hex checksum32 small_ipir small_server small_pack
    in_order unit no_http unit steady_node small_pass 0) with (run_small_pass small_pass) in Hr.
  destruct (run_small_pass small_pass) as [r s']. cbn [fst snd] in *. subst r.
  destruct Hr as (Hf & _ & _ & Hrest). split; [exact Hf|]. split; [reflexivity|exact Hrest].
Defined.
