(* ===== verification/SpendTypes.v ===== *)
(** * Transparent-spend PIR: entries, buckets and the client

    Models [pir/transparent-spend/src/types.rs] and
    [pir/transparent-spend/src/client.rs]: the 80-byte spend entry, the bucket an
    outpoint hashes to, the scan of a decoded bucket, and the two-table client
    with the checks its session passes.  The HTTP exchange is an argument of the
    client ([request]); randomness is an argument of each query. *)

From Stdlib Require Import ZArith Lia.
From stdpp Require Import base numbers list strings gmap.
From S2P Require Import Prelude FilterTypes Instances EnhanceTypes.

Open Scope Z_scope.

(** ** Constants *)

Definition SPEND_SCHEMA_VERSION : Z := 1.
Definition SPEND_PROTOCOL_REVISION : string := "transparent-spend-pir-v1".
Definition SPEND_NETWORK : string := "main".
Definition WARM_BLOCKS : Z := 100000.
Definition SPEND_ITEM_SIZE_BITS : Z := SPEND_ROW_BYTES * 8.
Definition TARGET_LOAD_NUMERATOR : Z := 55.
Definition TARGET_LOAD_DENOMINATOR : Z := 100.
Definition OCCUPIED : Z := 1.
Definition KEY_OFFSET : Z := 1.
Definition INDEX_OFFSET : Z := 33.
Definition SPENDER_OFFSET : Z := 37.
Definition HEIGHT_OFFSET : Z := 69.
Definition TX_INDEX_OFFSET : Z := 73.
Definition RESERVED_OFFSET : Z := 75.

(** ** TransparentSpendEntry *)

Record TransparentSpendEntry := {
  outpoint_txid : list Z; outpoint_index : Z; spending_txid : list Z;
  spend_height : Z; transaction_index : Z }.

#[export] Instance TransparentSpendEntry_eq_dec : EqDecision TransparentSpendEntry.
Proof. solve_decision. Defined.

Definition TransparentSpendEntry_to_bytes (e : TransparentSpendEntry) : list Z :=
  let bytes := replicate (Z.to_nat SPEND_ENTRY_BYTES) 0 in
  let bytes := write_at bytes 0 [OCCUPIED] in
  let bytes := write_at bytes KEY_OFFSET (outpoint_txid e) in
  let bytes := write_at bytes INDEX_OFFSET (le_bytes 4 (outpoint_index e)) in
  let bytes := write_at bytes SPENDER_OFFSET (spending_txid e) in
  let bytes := write_at bytes HEIGHT_OFFSET (le_bytes 4 (spend_height e)) in
  write_at bytes TX_INDEX_OFFSET (le_bytes 2 (transaction_index e)).

Definition TransparentSpendEntry_from_bytes (bytes : list Z) : option TransparentSpendEntry :=
  if negb (zlen bytes =? SPEND_ENTRY_BYTES) || negb (nth 0 bytes 0 =? OCCUPIED) ||
     existsb (fun byte => negb (byte =? 0)) (drop (Z.to_nat RESERVED_OFFSET) bytes)
  then None
  else Some {|
    outpoint_txid := slice bytes KEY_OFFSET INDEX_OFFSET;
    outpoint_index := le_val (slice bytes INDEX_OFFSET SPENDER_OFFSET);
    spending_txid := slice bytes SPENDER_OFFSET HEIGHT_OFFSET;
    spend_height := le_val (slice bytes HEIGHT_OFFSET TX_INDEX_OFFSET);
    transaction_index := le_val (slice bytes TX_INDEX_OFFSET RESERVED_OFFSET) |}.

(** ** Buckets *)

Section buckets.
Context `{Sha256}.

Definition bucket_for_outpoint (txid : list Z) (index buckets : Z) : option Z :=
  if (buckets =? 0) || negb (is_power_of_two buckets) then None
  else
    let digest := sha256 (string_bytes "transparent-spend-pir-v1/bucket" ++ txid ++ le_bytes 4 index) in
    let prefix := le_val (take 8 digest) in
    Some (Z.land prefix (buckets - 1)).
End buckets.

(** [usize::try_from] of a [u64] succeeds: [usize] is 64 bits. *)
Definition bucket_count (entries : Z) : Z :=
  let denominator := SPEND_BUCKET_CAPACITY * TARGET_LOAD_NUMERATOR in
  let needed := div_ceil (saturating_mul64 entries TARGET_LOAD_DENOMINATOR) denominator in
  next_power_of_two (Z.max needed SPEND_SHARD_ROWS).

(** The loop of [scan_bucket] over the entries of the row. *)
Fixpoint scan_entries (txid : list Z) (index : Z) (found : option TransparentSpendEntry)
    (chunks : list (list Z)) : result string (option TransparentSpendEntry) :=
  match chunks with
  | [] => Ok found
  | bytes :: chunks =>
      if forallb (fun byte => byte =? 0) bytes then scan_entries txid index found chunks else
      match TransparentSpendEntry_from_bytes bytes with
      | None => Err "malformed spend entry"%string
      | Some entry =>
          if bool_decide (outpoint_txid entry = txid) && (outpoint_index entry =? index)
          then match found with
               | Some _ => Err "duplicate spend entry"%string
               | None => scan_entries txid index (Some entry) chunks
               end
          else scan_entries txid index found chunks
      end
  end.

Definition scan_bucket (row txid : list Z) (index : Z) : result string (option TransparentSpendEntry) :=
  let? row := ok_or (get_range row 0 SPEND_ROW_BYTES) "decoded bucket is too short"%string in
  scan_entries txid index None (chunks_exact (length row) (Z.to_nat SPEND_ENTRY_BYTES) row).

(** ** Sessions *)

(** The shard descriptors have the fields of the Enhance ones. *)
Record TransparentSpendGeneration := {
  sg_schema_version : Z; sg_protocol_revision : string; sg_network : string;
  sg_tip_height : Z; sg_tip_block_hash : string; sg_ironwood_tree_size : Z;
  sg_generation : Z; sg_cold_end_height : Z; sg_buckets : Z; sg_row_bytes : Z;
  sg_shard_rows : Z; sg_logical_rows : Z; sg_parameter_id : string; sg_setup_seed : Z;
  sg_public_params_epoch : string; sg_public_params_sha256 : string;
  sg_shards : list ShardDescriptor }.

Record TransparentSpendTableSession := {
  sts_generation : TransparentSpendGeneration; sts_params : YpirSchemeParams;
  sts_public_params_base64 : string }.

Record TransparentSpendSession := {
  ss_tip_height : Z; ss_tip_block_hash : string; ss_ironwood_tree_size : Z;
  ss_generation : Z; ss_cold_end_height : Z;
  ss_cold : TransparentSpendTableSession; ss_warm : TransparentSpendTableSession }.

Inductive SpendLookup :=
| Spent (e : TransparentSpendEntry)
| Unspent (as_of_height : Z).

Inductive SpendClientError :=
| SCE_Http (m : string)
| SCE_Json
| SCE_Base64
| SCE_Session (m : string)
| SCE_Pir (m : string)
| SCE_Response (m : string).

(** [BASE64_STANDARD.decode]. *)
Class Base64Decode := base64_decode : string -> option (list Z).

(** ** TableClient *)

Section client.
Context `{Hex} `{Sha256} `{Ipir} `{Base64Decode}.

Record TableClient := {
  tc_generation : TransparentSpendGeneration; tc_params : YpirSchemeParams;
  tc_rlwe : RlweParams; tc_setup : list (list Z); tc_published_c1 : list (list Z);
  tc_epoch : list Z }.

Record SpendQuery := { sq_body : list Z; sq_seed : ipir_seed }.

Definition bad_table_metadata (g : TransparentSpendGeneration) (expected_seed : Z) : bool :=
  negb (sg_schema_version g =? SPEND_SCHEMA_VERSION) ||
  negb (bool_decide (sg_protocol_revision g = SPEND_PROTOCOL_REVISION)) ||
  negb (bool_decide (sg_network g = SPEND_NETWORK)) ||
  negb (sg_row_bytes g =? SPEND_ROW_BYTES) ||
  negb (sg_shard_rows g =? SPEND_SHARD_ROWS) ||
  negb (sg_buckets g =? sg_logical_rows g) ||
  negb (is_power_of_two (sg_logical_rows g)) ||
  (sg_logical_rows g <? SPEND_SHARD_ROWS) ||
  negb (sg_setup_seed g =? expected_seed).

Definition TableClient_new (session : TransparentSpendTableSession) (expected_seed : Z) :
    result SpendClientError TableClient :=
  let generation := sts_generation session in
  if bad_table_metadata generation expected_seed
  then Err (SCE_Session "invalid table metadata") else
  let? (rlwe, expected_params) :=
    map_err SCE_Pir (params_for_simplepir (sg_logical_rows generation) SPEND_ITEM_SIZE_BITS) in
  if negb (bool_decide (sts_params session = expected_params))
  then Err (SCE_Session "unexpected PIR parameters") else
  let? public_params := ok_or (base64_decode (sts_public_params_base64 session)) SCE_Base64 in
  let digest := sha256 public_params in
  if negb (bool_decide (hex_encode digest = sg_public_params_sha256 generation))
  then Err (SCE_Session "public parameter digest mismatch") else
  let epoch := take 8 digest in
  if negb (bool_decide (hex_encode epoch = sg_public_params_epoch generation))
  then Err (SCE_Session "public parameter epoch mismatch") else
  let blocks := db_cols (sts_params session) / rlwe_d rlwe in
  if negb (zlen public_params =? wrap64 (blocks * published_c1_len (rlwe_d rlwe) (rlwe_q rlwe)))
  then Err (SCE_Session "public parameter length mismatch") else
  Ok {| tc_generation := generation; tc_params := sts_params session; tc_rlwe := rlwe;
        tc_setup := generate_setup (sts_params session) (le_bytes 8 expected_seed ++ replicate 24 0);
        tc_published_c1 := recover_published_c1 public_params (rlwe_d rlwe) blocks (rlwe_q rlwe);
        tc_epoch := epoch |}.

Definition TableClient_prepare (c : TableClient) (row : Z) (rng : ipir_rng) :
    result SpendClientError SpendQuery :=
  if db_rows (tc_params c) <=? row then Err (SCE_Session "bucket outside table") else
  let '(query, packing_keys, seed) := fresh_query (tc_params c) (tc_setup c) row rng in
  let? keys := map_err SCE_Pir (serialize_packing_keys packing_keys) in
  Ok {| sq_body := le_bytes 8 (sg_generation (tc_generation c)) ++ keys ++
          to_switched_bytes query (rlwe_q (tc_rlwe c)) (query_bits (tc_params c));
        sq_seed := seed |}.

(** The row is the one drawn from [0..db_rows]. *)
Definition TableClient_prepare_dummy (c : TableClient) (drawn : Z) (rng : ipir_rng) :
    result SpendClientError SpendQuery :=
  TableClient_prepare c drawn rng.

Definition TableClient_decode (c : TableClient) (query : SpendQuery) (response : list Z) :
    result SpendClientError (list Z) :=
  if negb (bool_decide (get_range response 0 8 = Some (le_bytes 8 (sg_generation (tc_generation c)))))
  then Err (SCE_Response "generation mismatch") else
  if negb (bool_decide (get_range response 8 16 = Some (tc_epoch c)))
  then Err (SCE_Response "parameter epoch mismatch") else
  let expected :=
    wrap64 (db_cols (tc_params c) / rlwe_d (tc_rlwe c) *
            response_body_len (rlwe_d (tc_rlwe c)) (q_prime_1 (tc_params c))) in
  if negb (zlen response =? wrap64 (16 + expected))
  then Err (SCE_Response "response length mismatch") else
  let decoded := decode_response (sq_seed query) (tc_published_c1 c) (drop 16 response) in
  ok_or (get_range decoded 0 SPEND_ROW_BYTES) (SCE_Response "decoded row is too short").

(** ** TransparentSpendPirClient *)

Record TransparentSpendPirClient := {
  tsc_session : TransparentSpendSession; tsc_cold : TableClient; tsc_warm : TableClient }.

Definition identity_mismatch (session : TransparentSpendSession) (table : TransparentSpendGeneration) : bool :=
  negb (sg_tip_height table =? ss_tip_height session) ||
  negb (bool_decide (sg_tip_block_hash table = ss_tip_block_hash session)) ||
  negb (sg_generation table =? ss_generation session) ||
  negb (sg_cold_end_height table =? ss_cold_end_height session) ||
  negb (sg_ironwood_tree_size table =? ss_ironwood_tree_size session).

(** From the body of the init response, and what it parses to. *)
Definition TransparentSpendPirClient_connect (body_len : Z) (parsed : option TransparentSpendSession) :
    result SpendClientError TransparentSpendPirClient :=
  if 2 * 1024 * 1024 <? body_len then Err (SCE_Response "session body is too large") else
  let? session := ok_or parsed SCE_Json in
  if existsb (identity_mismatch session)
       [sts_generation (ss_cold session); sts_generation (ss_warm session)]
  then Err (SCE_Session "table/session identity mismatch") else
  let? cold := TableClient_new (ss_cold session) COLD_SETUP_SEED in
  let? warm := TableClient_new (ss_warm session) WARM_SETUP_SEED in
  Ok {| tsc_session := session; tsc_cold := cold; tsc_warm := warm |}.

(** [post tier body] is the HTTP exchange: the response bytes, or an HTTP error. *)
Definition TransparentSpendPirClient_request (post : string -> list Z -> result SpendClientError (list Z))
    (tier : string) (body : list Z) : result SpendClientError (list Z) :=
  let? bytes := post tier body in
  if 16 * 1024 * 1024 <? zlen bytes then Err (SCE_Response "response body is too large")
  else Ok bytes.

(** [try_join!] of the two requests; when both fail, the cold error stands for
    whichever arrives first. *)
Definition TransparentSpendPirClient_lookup (c : TransparentSpendPirClient)
    (post : string -> list Z -> result SpendClientError (list Z)) (txid : list Z) (index : Z)
    (rng_cold rng_warm : ipir_rng) : result SpendClientError SpendLookup :=
  let? cold_bucket := ok_or (bucket_for_outpoint txid index (db_rows (tc_params (tsc_cold c))))
                        (SCE_Session "invalid cold bucket count") in
  let? warm_bucket := ok_or (bucket_for_outpoint txid index (db_rows (tc_params (tsc_warm c))))
                        (SCE_Session "invalid warm bucket count") in
  let? cold_query := TableClient_prepare (tsc_cold c) cold_bucket rng_cold in
  let? warm_query := TableClient_prepare (tsc_warm c) warm_bucket rng_warm in
  let? cold_response := TransparentSpendPirClient_request post "cold" (sq_body cold_query) in
  let? warm_response := TransparentSpendPirClient_request post "warm" (sq_body warm_query) in
  let? cold_row := TableClient_decode (tsc_cold c) cold_query cold_response in
  let? warm_row := TableClient_decode (tsc_warm c) warm_query warm_response in
  let? cold := map_err SCE_Response (scan_bucket cold_row txid index) in
  let? warm := map_err SCE_Response (scan_bucket warm_row txid index) in
  match cold, warm with
  | Some _, Some _ => Err (SCE_Response "spend appears in both tiers")
  | Some entry, None | None, Some entry => Ok (Spent entry)
  | None, None => Ok (Unspent (ss_tip_height (tsc_session c)))
  end.

Definition TransparentSpendPirClient_query_dummy (c : TransparentSpendPirClient)
    (post : string -> list Z -> result SpendClientError (list Z)) (drawn_cold drawn_warm : Z)
    (rng_cold rng_warm : ipir_rng) : result SpendClientError unit :=
  let? cold := TableClient_prepare_dummy (tsc_cold c) drawn_cold rng_cold in
  let? warm := TableClient_prepare_dummy (tsc_warm c) drawn_warm rng_warm in
  let? cold_response := TransparentSpendPirClient_request post "cold" (sq_body cold) in
  let? warm_response := TransparentSpendPirClient_request post "warm" (sq_body warm) in
  let? _ := TableClient_decode (tsc_cold c) cold cold_response in
  let? _ := TableClient_decode (tsc_warm c) warm warm_response in
  Ok tt.
End client.

(** ** Entries and their bytes *)

(** The widths of the source's fields. *)
Definition entry_ok (e : TransparentSpendEntry) : Prop :=
  hash_ok (outpoint_txid e) /\ u32 (outpoint_index e) /\ hash_ok (spending_txid e) /\
  u32 (spend_height e) /\ u16 (transaction_index e).

Lemma entry_to_bytes_eq e :
  entry_ok e ->
  TransparentSpendEntry_to_bytes e =
  [OCCUPIED] ++ outpoint_txid e ++ le_bytes 4 (outpoint_index e) ++ spending_txid e ++
  le_bytes 4 (spend_height e) ++ le_bytes 2 (transaction_index e) ++ replicate 5 0.
Proof.
  intros ([H1 _] & _ & [H2 _] & _). unfold TransparentSpendEntry_to_bytes.
  change (replicate (Z.to_nat SPEND_ENTRY_BYTES) 0) with ([] ++ replicate 80 0).
  unfold KEY_OFFSET, INDEX_OFFSET, SPENDER_OFFSET, HEIGHT_OFFSET, TX_INDEX_OFFSET.
  do 6 (rewrite write_at_zeros;
    [|unfold zlen; repeat (rewrite length_app || rewrite length_le_bytes); cbn [length]; lia
     |rewrite ?length_le_bytes; cbn [length]; lia]).
  rewrite !length_le_bytes, H1, H2. cbn [length]. rewrite app_nil_l, <- !app_assoc. done.
Qed.

Lemma slice_split (l : list Z) a b c :
  0 <= a -> a <= b <= c -> slice l a c = slice l a b ++ slice l b c.
Proof.
  intros Ha Hb. unfold slice. rewrite <- (take_drop (Z.to_nat (b - a)) (take (Z.to_nat (c - a)) _)).
  rewrite take_take, skipn_firstn_comm, drop_drop. f_equal; f_equal; [lia..|f_equal; lia].
Qed.

Lemma slice_all (l : list Z) b : zlen l = b -> slice l 0 b = l.
Proof. intros <-. unfold slice, zlen. rewrite take_ge; [done|]. rewrite drop_0. lia. Qed.

Lemma bytes_ok_slice l a b : bytes_ok l -> bytes_ok (slice l a b).
Proof. unfold slice. auto with rust. Qed.
#[export] Hint Resolve bytes_ok_slice : rust.

Lemma le_bytes_slice l a b n :
  bytes_ok l -> 0 <= a -> a <= b <= zlen l -> n = Z.to_nat (b - a) ->
  le_bytes n (le_val (slice l a b)) = slice l a b /\
  0 <= le_val (slice l a b) < 256 ^ (b - a).
Proof.
  intros Hok Ha Hb ->. pose proof (length_slice l a b Ha Hb) as Hl. split.
  - apply le_bytes_le_val_len; auto with rust.
  - pose proof (le_val_range (slice l a b) ltac:(auto with rust)) as Hr. unfold zlen in Hr.
    rewrite Hl, Z2Nat.id in Hr by lia. done.
Qed.

Lemma zeros_eq (l : list Z) :
  existsb (fun byte => negb (byte =? 0)) l = false -> l = replicate (length l) 0.
Proof.
  induction l as [|b l IH]; [done|]. cbn. intros Hl. bool_prop. subst. f_equal. by apply IH.
Qed.

(** An entry and its slot: the value fields are read back from where they were written. *)
Lemma entry_from_to_bytes e :
  entry_ok e -> TransparentSpendEntry_from_bytes (TransparentSpendEntry_to_bytes e) = Some e.
Proof.
  intros He. pose proof He as ([H1 _] & Hi & [H2 _] & Hh & Ht).
  rewrite entry_to_bytes_eq by done. unfold TransparentSpendEntry_from_bytes.
  set (bytes := [OCCUPIED] ++ _).
  assert (zlen bytes = 80) as Hlen.
  { unfold bytes. autorewrite with zlen. unfold zlen. rewrite H1, H2. done. }
  assert (drop (Z.to_nat RESERVED_OFFSET) bytes = replicate 5 0) as ->.
  { unfold bytes. rewrite !app_assoc. apply drop_app_length'.
    repeat (rewrite length_app || rewrite length_le_bytes). rewrite H1, H2. done. }
  rewrite Hlen. cbn [existsb replicate negb Z.eqb orb nth bytes app].
  replace (nth 0 bytes 0) with OCCUPIED by done. rewrite !Z.eqb_refl. cbn [negb orb]. f_equal.
  assert (forall pre xs post a b, bytes = pre ++ xs ++ post -> zlen pre = a -> zlen xs = b - a ->
    slice bytes a b = xs) as Hs by (intros * ->; apply slice_app).
  destruct e as [txid index spender height txi]; cbn in *.
  f_equal.
  - eapply (Hs [OCCUPIED] _ _); [reflexivity|done|unfold zlen; by rewrite H1].
  - rewrite (Hs ([OCCUPIED] ++ txid) (le_bytes 4 index) (spender ++ le_bytes 4 height ++ le_bytes 2 txi ++ replicate 5 0));
      [apply le_val_le_bytes; exact Hi|reflexivity
      |autorewrite with zlen; unfold zlen; by rewrite H1|by rewrite zlen_le_bytes].
  - eapply (Hs ([OCCUPIED] ++ txid ++ le_bytes 4 index));
      [unfold bytes; rewrite <- !app_assoc; reflexivity
      |autorewrite with zlen; unfold zlen; by rewrite H1|unfold zlen; by rewrite H2].
  - rewrite (Hs ([OCCUPIED] ++ txid ++ le_bytes 4 index ++ spender) (le_bytes 4 height) (le_bytes 2 txi ++ replicate 5 0));
      [apply le_val_le_bytes; exact Hh|unfold bytes; rewrite <- !app_assoc; reflexivity
      |autorewrite with zlen; unfold zlen; by rewrite H1, H2|by rewrite zlen_le_bytes].
  - rewrite (Hs ([OCCUPIED] ++ txid ++ le_bytes 4 index ++ spender ++ le_bytes 4 height) (le_bytes 2 txi) (replicate 5 0));
      [apply le_val_le_bytes; exact Ht|unfold bytes; rewrite <- !app_assoc; reflexivity
      |autorewrite with zlen; unfold zlen; by rewrite H1, H2|by rewrite zlen_le_bytes].
Qed.

Lemma entry_from_bytes_inv bs e :
  bytes_ok bs -> TransparentSpendEntry_from_bytes bs = Some e ->
  entry_ok e /\ bs = TransparentSpendEntry_to_bytes e.
Proof.
  intros Hok Hf. unfold TransparentSpendEntry_from_bytes in Hf.
  destruct (_ || _) eqn:E; [done|]. bool_prop. injection Hf as Hf.
  unfold SPEND_ENTRY_BYTES, KEY_OFFSET, INDEX_OFFSET, SPENDER_OFFSET, HEIGHT_OFFSET,
    TX_INDEX_OFFSET in *.
  rename H into Hlen. rename H1 into Hocc. rename H0 into Hres.
  destruct (le_bytes_slice bs 33 37 4 Hok) as [Ei Ri]; [lia..|].
  destruct (le_bytes_slice bs 69 73 4 Hok) as [Eh Rh]; [lia..|].
  destruct (le_bytes_slice bs 73 75 2 Hok) as [Et Rt]; [unfold RESERVED_OFFSET in *; lia..|].
  assert (entry_ok e) as He.
  { subst e. unfold RESERVED_OFFSET. split_and!; cbn; try done;
      (split; [rewrite length_slice by lia; lia|auto with rust]). }
  split; [done|]. rewrite entry_to_bytes_eq by done. subst e. cbn [outpoint_txid outpoint_index
    spending_txid spend_height transaction_index]. unfold RESERVED_OFFSET in *.
  rewrite Ei, Eh, Et. rewrite <- (slice_all bs 80 Hlen) at 1.
  rewrite (slice_split bs 0 1 80), (slice_split bs 1 33 80), (slice_split bs 33 37 80),
    (slice_split bs 37 69 80), (slice_split bs 69 73 80), (slice_split bs 73 75 80) by lia.
  f_equal; [|do 5 f_equal].
  - unfold slice. destruct bs as [|b bs]; [done|]. cbn in Hocc |- *. subst. done.
  - apply zeros_eq in Hres. unfold slice. rewrite take_ge by (rewrite length_drop; unfold zlen in Hlen; lia).
    rewrite Hres. f_equal. rewrite length_drop. unfold zlen in Hlen. lia.
Qed.

Lemma length_entry e : entry_ok e -> length (TransparentSpendEntry_to_bytes e) = 80%nat.
Proof.
  intros He. rewrite entry_to_bytes_eq by done. destruct He as ([H1 _] & _ & [H2 _] & _).
  repeat (rewrite length_app || rewrite length_le_bytes). rewrite H1, H2. done.
Qed.

Lemma bytes_ok_entry e : entry_ok e -> bytes_ok (TransparentSpendEntry_to_bytes e).
Proof.
  intros He. rewrite entry_to_bytes_eq by done. destruct He as ([_ H1] & _ & [_ H2] & _).
  rewrite !bytes_ok_app. split_and!; auto with rust.
  - by repeat constructor.
  - by apply Forall_replicate.
Qed.

(** ** Scanning a rendered bucket *)

(** The bytes of a bucket: its entries in order, then zeros. *)
Definition render (b : list TransparentSpendEntry) : list Z :=
  concat (TransparentSpendEntry_to_bytes <$> b) ++
  replicate (Z.to_nat SPEND_ROW_BYTES - 80 * length b) 0.

Definition same_outpoint (txid : list Z) (index : Z) (e : TransparentSpendEntry) : Prop :=
  outpoint_txid e = txid /\ outpoint_index e = index.

#[export] Instance same_outpoint_dec txid index e : Decision (same_outpoint txid index e).
Proof. unfold same_outpoint. apply _. Defined.

Definition outpoint (e : TransparentSpendEntry) : list Z * Z := (outpoint_txid e, outpoint_index e).

Lemma length_entries b :
  Forall entry_ok b -> length (concat (TransparentSpendEntry_to_bytes <$> b)) = (80 * length b)%nat.
Proof.
  induction 1 as [|e b He _ IH]; [done|]. cbn. rewrite length_app, IH, length_entry by done. lia.
Qed.

Lemma length_render b :
  Forall entry_ok b -> (length b <= 88)%nat -> zlen (render b) = SPEND_ROW_BYTES.
Proof.
  intros Hb Hl. unfold render, zlen. rewrite length_app, length_entries, length_replicate by done.
  unfold SPEND_ROW_BYTES, SPEND_ENTRY_BYTES, SPEND_BUCKET_CAPACITY. lia.
Qed.

Lemma render_chunks b :
  Forall entry_ok b -> (length b <= 88)%nat ->
  chunks_exact (length (render b)) 80 (render b) =
  (TransparentSpendEntry_to_bytes <$> b) ++ replicate (88 - length b) (replicate 80 0).
Proof.
  intros Hb Hl.
  assert (render b = concat ((TransparentSpendEntry_to_bytes <$> b) ++
    replicate (88 - length b) (replicate 80 0))) as ->.
  { rewrite concat_app. unfold render. f_equal. clear Hb.
    change (Z.to_nat SPEND_ROW_BYTES) with (80 * 88)%nat.
    rewrite <- Nat.mul_sub_distr_l. generalize (88 - length b)%nat as n. induction n as [|n IH]; [done|].
    change (concat (replicate (S n) (replicate 80 0))) with
      (replicate 80 0 ++ concat (replicate n (replicate 80 0))).
    rewrite <- IH, <- replicate_add. f_equal. lia. }
  apply chunks_exact_concat; [lia| |done].
  apply Forall_app. split.
  - apply Forall_fmap. eapply Forall_impl; [exact Hb|]. intros e He. by apply length_entry.
  - by apply Forall_replicate.
Qed.

Lemma scan_zeros txid index found n :
  scan_entries txid index found (replicate n (replicate 80 0)) = Ok found.
Proof. induction n as [|n IH]; [done|]. cbn [replicate scan_entries]. exact IH. Qed.

Lemma entry_not_zeros e :
  entry_ok e -> forallb (fun byte => byte =? 0) (TransparentSpendEntry_to_bytes e) = false.
Proof. intros He. by rewrite entry_to_bytes_eq. Qed.

(** Once found, no later entry of distinct outpoints matches. *)
Lemma scan_entries_app txid index found b rest :
  Forall entry_ok b ->
  (match found with Some _ => Forall (fun e => ~ same_outpoint txid index e) b | None => NoDup (outpoint <$> b) end) ->
  scan_entries txid index found ((TransparentSpendEntry_to_bytes <$> b) ++ rest) =
  scan_entries txid index
    (match found with Some e => Some e | None => snd <$> list_find (same_outpoint txid index) b end) rest.
Proof.
  intros Hb. revert found. induction Hb as [|e b He Hb IH]; intros found Hf; [by destruct found|].
  cbn [fmap list_fmap app scan_entries]. rewrite entry_not_zeros, entry_from_to_bytes by done.
  destruct (bool_decide (outpoint_txid e = txid) && (outpoint_index e =? index)) eqn:E; bool_prop.
  - destruct found as [e'|].
    + apply Forall_cons in Hf as [Hn _]. exfalso. by apply Hn.
    + rewrite IH.
      * cbn [list_find]. by rewrite decide_True.
      * apply NoDup_cons in Hf as [Hn _]. apply Forall_forall. intros e' He' [H1 H2]. apply Hn.
        apply list_elem_of_fmap. exists e'. split; [|done]. unfold outpoint. congruence.
  - assert (~ same_outpoint txid index e) as Hne.
    { intros [H1 H2]. destruct E as [E|E]; bool_prop; congruence. }
    rewrite IH.
    + destruct found; [done|]. cbn [list_find]. rewrite decide_False by done.
      by destruct (list_find _ b) as [[]|].
    + destruct found; [by apply Forall_cons in Hf as [_ ?]|by apply NoDup_cons in Hf as [_ ?]].
Qed.

Lemma scan_bucket_render b txid index :
  Forall entry_ok b -> (length b <= 88)%nat -> NoDup (outpoint <$> b) ->
  scan_bucket (render b) txid index = Ok (snd <$> list_find (same_outpoint txid index) b).
Proof.
  intros Hb Hl Hn. unfold scan_bucket.
  rewrite <- (length_render b Hb Hl). pose proof (get_range_app [] (render b) []) as Hg.
  rewrite app_nil_l, app_nil_r, zlen_nil, Z.add_0_l in Hg. rewrite Hg. cbn [ok_or].
  change (Z.to_nat SPEND_ENTRY_BYTES) with 80%nat. rewrite render_chunks by done.
  rewrite scan_entries_app by done. apply scan_zeros.
Qed.

(** ** Bucket numbers *)

Lemma bucket_for_outpoint_range `{Sha256Laws} txid index n :
  is_power_of_two n = true ->
  exists b, bucket_for_outpoint txid index n = Some b /\ 0 <= b < n.
Proof.
  intros Hp. unfold bucket_for_outpoint. rewrite Hp. unfold is_power_of_two in Hp. bool_prop.
  guards. cbn [negb orb]. eexists. split; [done|].
  set (k := Z.log2 n) in *. assert (0 <= k) by apply Z.log2_nonneg.
  replace n with (2 ^ k). replace (2 ^ k - 1) with (Z.ones k) by (rewrite Z.ones_equiv; lia).
  rewrite Z.land_ones by done. apply Z.mod_pos_bound. lia.
Qed.

Lemma bucket_count_spec n :
  0 <= n < 2 ^ 57 ->
  is_power_of_two (bucket_count n) = true /\ SPEND_SHARD_ROWS <= bucket_count n <= 2 ^ 62.
Proof.
  intros Hn. unfold bucket_count. set (x := Z.max _ _).
  assert (SPEND_SHARD_ROWS <= x <= 2 ^ 62) as Hx.
  { unfold x, SPEND_SHARD_ROWS. split; [lia|]. apply Z.max_lub; [|lia].
    unfold saturating_mul64, TARGET_LOAD_DENOMINATOR, SPEND_BUCKET_CAPACITY, TARGET_LOAD_NUMERATOR.
    unfold u64_bound. pose proof (div_ceil_spec (Z.min (n * 100) (2 ^ 64 - 1)) (88 * 55)). lia. }
  unfold SPEND_SHARD_ROWS in *. destruct (next_power_of_two_spec x) as [H1 H2]; [lia|].
  split; [done|]. lia.
Qed.
