(* ===== verification/Retrieval.v ===== *)
(** * Private retrieval, end to end

    Models [EnhancePirClient] of [pir/enhance/src/client.rs] (connect, query, send,
    request) and composes it with everything behind it: the record journal, the
    publication of its shards, the session the coordinator hands out, and the
    answer it assembles from its workers.  The main theorem says that a wallet
    that connects to a coordinator that has published a journal and asks for a
    position gets the record stored at that position.  What the PIR library
    promises about one whole query is the class [IpirRetrieval]. *)

From Stdlib Require Import ZArith Lia.
From stdpp Require Import base numbers sorting countable pretty strings gmap list.
From S2P Require Import Prelude Cursor FilterTypes Instances EnhanceTypes RecordJournal Wire Ipir Worker Fleet Coordinator Publish SpendTypes.

Open Scope Z_scope.

(** ** EnhancePirClient *)

Section client.
Context `{Hex} `{Sha256} `{Ipir} `{Base64Decode}.

Definition QuerySession_from_session (s : EnhanceSession) : result ClientError QuerySession :=
  let? public_params := ok_or (base64_decode (es_public_params_base64 s)) CE_PublicParamsBase64 in
  QuerySession_new (es_generation s) (es_params s) public_params.

(** [row] is the row [OsRng.gen_range(0..db_rows)] draws. *)
Definition QuerySession_prepare_dummy (s : QuerySession) (row : Z) (rng : ipir_rng) :
    result ClientError PreparedQuery :=
  QuerySession_prepare_row s row rng.

Record EnhancePirClient := { ec_base_url : string; ec_session : QuerySession }.

(** [get] fetches a URL, [parse] is [serde_json::from_slice]. *)
Definition EnhancePirClient_connect (base_url : string) (get : string -> result string HttpReply)
    (parse : list Z -> option EnhanceSession) : result ClientError EnhancePirClient :=
  let base_url := trim_end_slashes base_url in
  let? response := map_err CE_Http (get (base_url +:+ "/v1/enhance/init")) in
  let? body := read_limited (hp_status response) (hp_content_length response) (hp_chunks response)
                 (1024 * 1024) in
  let? session := ok_or (parse body) CE_Json in
  let? session := QuerySession_from_session session in
  Ok {| ec_base_url := base_url; ec_session := session |}.

(** [post] sends a body to a URL. *)
Definition EnhancePirClient_request (c : EnhancePirClient)
    (post : string -> list Z -> result string HttpReply) (query : PreparedQuery) :
    result ClientError (list Z) :=
  let? response := map_err CE_Http (post (ec_base_url c +:+ "/v1/enhance/query") (pq_body query)) in
  if negb (is_success (hp_status response)) then Err (CE_HttpStatus (hp_status response)) else
  read_limited (hp_status response) (hp_content_length response) (hp_chunks response)
    (16 * 1024 * 1024).

Definition EnhancePirClient_send (c : EnhancePirClient)
    (post : string -> list Z -> result string HttpReply) (query : PreparedQuery) :
    result ClientError (list Z) :=
  let? response := EnhancePirClient_request c post query in
  QuerySession_decode (ec_session c) query response.

Definition EnhancePirClient_query_position (c : EnhancePirClient)
    (post : string -> list Z -> result string HttpReply) (position : Z) (rng : ipir_rng) :
    result ClientError EnhanceRecord :=
  let? (query, slot) := QuerySession_prepare_position (ec_session c) position rng in
  let? row := EnhancePirClient_send c post query in
  Ok (record_in_row row slot).

Definition EnhancePirClient_query_dummy (c : EnhancePirClient)
    (post : string -> list Z -> result string HttpReply) (row : Z) (rng : ipir_rng) :
    result ClientError unit :=
  let? query := QuerySession_prepare_dummy (ec_session c) row rng in
  let? _ := EnhancePirClient_send c post query in
  Ok tt.
End client.

(** A body delivered in one chunk. *)
Definition whole_reply (status : Z) (body : list Z) : HttpReply :=
  {| hp_status := status; hp_content_length := Some (zlen body); hp_chunks := [Ok body] |}.

Lemma read_whole body limit :
  zlen body <= limit -> limit < 2 ^ 63 -> read_limited 200 (Some (zlen body)) [Ok body] limit = Ok body.
Proof.
  intros Hb Hl. unfold read_limited. cbn [andb Z.leb Z.ltb Z.compare Pos.compare Pos.compare_cont].
  pose proof (zlen_nonneg body). guards. cbn [read_chunks map_err].
  unfold saturating_add64. rewrite zlen_nil, Z.min_l by (unfold u64_bound; lia). guards. done.
Qed.

(** What the PIR library promises of one query: the wallet's body is read back by
    the server, and the packed product of the query with a table, decoded with
    the public parameters of that table's own hint, begins with the bytes of the
    row asked for. *)
Definition table_hint `{Ipir} `{IpirServer} (rlwe : RlweParams) (ypir : YpirSchemeParams)
    (seed : list Z) (matrix : list (list Z)) : list CrsBlock :=
  perform_offline_precomputation_simplepir
    (new_auto_kernel ypir
      (concat matrix ++ replicate (Z.to_nat (db_rows ypir * db_cols ypir) - length (concat matrix)) 0)
      false true)
    rlwe (generate_setup ypir seed).

Class IpirRetrieval `{Ipir} `{IpirServer} `{IpirPack} :=
  retrieval rows bits row_bytes rlwe ypir seed_bytes data n row rng query keys seed pre :
    params_for_simplepir rows bits = Ok (rlwe, ypir) -> bits = row_bytes * 8 -> 0 < row_bytes ->
    zlen data = n * row_bytes -> bytes_ok data -> n <= db_rows ypir -> 0 <= row < n ->
    fresh_query ypir (generate_setup ypir seed_bytes) row rng = (query, keys, seed) ->
    let matrix := plaintext_rows data row_bytes n (db_cols ypir) (trailing_zeros (ypir_p ypir)) in
    build_pack_preprocessed_blocks rlwe (table_hint rlwe ypir seed_bytes matrix) = Ok pre ->
    exists key_bytes keys' query' packed,
      serialize_packing_keys keys = Ok key_bytes /\
      zlen key_bytes = serialized_packing_keys_len rlwe /\
      deserialize_packing_keys rlwe key_bytes = Ok keys' /\
      zlen (to_switched_bytes query (rlwe_q rlwe) (query_bits ypir)) =
        div_ceil (db_rows ypir * query_bits ypir) 8 /\
      from_switched_bytes (to_switched_bytes query (rlwe_q rlwe) (query_bits ypir)) (db_rows ypir)
        (rlwe_q rlwe) (query_bits ypir) = Ok query' /\
      zlen query' = db_rows ypir /\ reduced (rlwe_q rlwe) query' /\
      pack_intermediate_blocks
        (matvec (rlwe_q rlwe) (Z.to_nat (db_cols ypir)) matrix (take (Z.to_nat n) query'))
        keys' (TopKeyImages_build rlwe) pre = Ok packed /\
      zlen (serialize_rlwe_response_bodies packed (q_prime_1 ypir)) =
        db_cols ypir / rlwe_d rlwe * response_body_len (rlwe_d rlwe) (q_prime_1 ypir) /\
      get_range (decode_response seed
        (recover_published_c1 (published_c1_rows pre (rlwe_q rlwe)) (rlwe_d rlwe)
          (db_cols ypir / rlwe_d rlwe) (rlwe_q rlwe))
        (serialize_rlwe_response_bodies packed (q_prime_1 ypir))) 0 row_bytes =
      Some (slice data (row * row_bytes) (row * row_bytes + row_bytes)).

(** [BASE64_STANDARD.decode] undoes [encode]. *)
Class Base64Laws `{Base64} `{Base64Decode} :=
  base64_roundtrip bs : bytes_ok bs -> base64_decode (base64_encode bs) = Some bs.

(** ** The shards a publication advertises *)

Section shards.
Context {layouts : Layouts} `{Hex} `{Sha256} `{Ipir} `{IpirServer} `{IpirPack} `{Schedule}
  {N : Type} `{!Http N}.

(** The descriptor of shard [id] of a source. *)
Definition describes (source : TableSource) (id : Z) (d : ShardDescriptor) : Prop :=
  sd_shard_id d = id /\ sd_global_row_start d = wrap64 (id * shard_rows (ts_layout source)) /\
  exists rows, ts_read_shard_rows source id = Ok rows /\ sd_rows_sha256 d = RecordJournal_rows_digest rows.

(** Every advertised owner has candidates left. *)
Definition owners_known (bs : BuildState (N := N)) : Prop :=
  Forall (fun d => sd_worker d ∈ dom (bs_candidates bs)) (bs_descriptors bs).

Lemma build_shard_described source groups rlwe ypir logical id bs bs' :
  build_shard source groups rlwe ypir logical id bs = (bs', Ok tt) -> owners_known bs ->
  owners_known bs' /\ exists d, bs_descriptors bs' = bs_descriptors bs ++ [d] /\ describes source id d.
Proof.
  unfold build_shard. cbv zeta.
  destruct (group_index_for_shard _ _); [|done]. destruct (groups !! _) as [group|]; [|done].
  destruct (ts_read_shard_rows _ _) as [rows|] eqn:Er; [|done].
  destruct (_ <$> _) as [|rep reps]; [done|].
  destruct (prepare_replicas _ _ _ _ _ _ _ _ _ _ _) as [[rs cache] wd].
  destruct (successes _) as [|[name hint] rest]; [done|].
  case_bool_decide; [done|]. cbn [bs_crs bs_candidates bs_descriptors].
  destruct (add_crs (bs_crs bs) hint rlwe) as [crs [[]|]]; [|done]. intros [= <-] Hk. split.
  - unfold owners_known in *. cbn [bs_descriptors bs_candidates]. apply Forall_app. split.
    + eapply Forall_impl; [exact Hk|]. intros d Hd. cbv beta in Hd. set_solver.
    + constructor; [|constructor]. cbn. set_solver.
  - eexists. cbn. split; [reflexivity|]. split; [done|]. split; [done|]. by exists rows.
Qed.

Lemma build_shards_described source groups rlwe ypir logical ids bs bs' :
  build_shards source groups rlwe ypir logical ids bs = (bs', Ok tt) -> owners_known bs ->
  owners_known bs' /\ exists ds, bs_descriptors bs' = bs_descriptors bs ++ ds /\
    Forall2 (describes source) ids ds.
Proof.
  revert bs. induction ids as [|id ids IH]; intros bs; cbn [build_shards].
  - intros [= <-] Hk. split; [done|]. exists []. by rewrite app_nil_r.
  - destruct (build_shard _ _ _ _ _ _ _) as [bs1 [[]|]] eqn:E; [|done]. intros Hb Hk.
    apply build_shard_described in E as (Hk1 & d & Hd & Hdd); [|done].
    destruct (IH bs1 Hb Hk1) as (Hk2 & ds & Hds & Hall). split; [done|].
    exists (d :: ds). rewrite Hds, Hd, <- app_assoc. by split; [|constructor].
Qed.

(** A successful activation readies every used group that has candidates. *)
Lemma activate_groups_ready wd table g used groups ready wd' name :
  activate_groups wd table g used groups = (Ok ready, wd') ->
  name ∈ used -> name ∈ groups.*1 -> is_Some (ready !! name).
Proof.
  intros Ha Hu. revert wd ready wd' Ha.
  induction groups as [|[n replicas] groups IH]; intros wd ready wd' Ha Hin; cbn in *; [set_solver|].
  case_bool_decide as Hn.
  - destruct (activate_replicas _ _ _ _) as [[|r rs] wd1]; [done|].
    destruct (activate_groups wd1 table g used groups) as [[rest|] wd2] eqn:E; [|done].
    injection Ha as <- _. destruct (decide (n = name)) as [->|Hne].
    + rewrite lookup_insert_eq. by eexists.
    + rewrite lookup_insert_ne by done. apply (IH wd1 rest wd2 E). set_solver.
  - apply (IH wd ready wd' Ha). set_solver.
Qed.

(** What the snapshot says of shards, keys and parameters. *)
Record table_sharded (source : TableSource) (sn : TableSnapshot) : Prop := {
  tsh_shards : Forall2 (describes source)
    (seqZ (fst (ts_shard_ids source)) (snd (ts_shard_ids source) - fst (ts_shard_ids source) + 1))
    (tm_shards (sn_manifest sn));
  tsh_ready : Forall (fun d => is_Some (sn_ready_groups sn !! sd_worker d)) (tm_shards (sn_manifest sn));
  tsh_epoch : sn_public_params_epoch sn = take 8 (sha256 (sn_public_params sn)) }.

Lemma build_table_sharded c wd source g sn c' wd' :
  build_table c wd source g = (Ok sn, c', wd') ->
  table_sharded source sn /\
  exists state, co_tables c !! ts_table source = Some state /\
    (exists state', co_tables c' !! ts_table source = Some state' /\ tb_rlwe state' = tb_rlwe state) /\
    sn_top_key_images sn = TopKeyImages_build (tb_rlwe state) /\
    sn_public_params sn = published_c1_rows (sn_preprocessed sn) (rlwe_q (tb_rlwe state)).
Proof.
  unfold build_table, coordinator_table.
  destruct (co_tables c !! ts_table source) as [state|] eqn:Est; [|done]. cbn [ok_or].
  destruct (negb _); [done|]. destruct (_ =? 0); [done|]. cbv zeta.
  destruct (global_parameters _ _) as [[grlwe ypir]|]; [|done]. destruct (_ || _); [done|].
  destruct (ts_shard_ids source) as [lo hi] eqn:Eids.
  destruct (build_shards _ _ _ _ _ _ _) as [bs [[]|]] eqn:Eb; [|done].
  apply build_shards_described in Eb as (Hk & ds & Hds & Hall); [|constructor].
  cbn [bs_descriptors app] in Hds. subst ds.
  destruct (activate_groups _ _ _ _ _) as [[ready|] wd2] eqn:Ea; [|done].
  intros Hfin. injection Hfin as Hfin <- _. unfold finish_table in Hfin.
  destruct (ok_or (bs_crs bs) _) as [crs|]; [|done].
  destruct (build_pack_preprocessed_blocks _ crs) as [pre|]; [|done]. injection Hfin as <-.
  split; [constructor; cbn; rewrite ?Eids; try done|].
  - apply Forall_forall. intros d Hd. eapply activate_groups_ready; [exact Ea|set_solver|].
    unfold owners_known in Hk. rewrite Forall_forall in Hk. specialize (Hk d Hd).
    apply elem_of_dom in Hk as [reps Hr]. apply list_elem_of_fmap.
    exists (sd_worker d, reps). split; [done|]. by apply elem_of_sorted_entries.
  - exists state. split; [done|]. split; [|done].
    unfold set_hint_cache. cbn [co_tables]. rewrite lookup_alter_eq, Est. by eexists.
Qed.
End shards.

(** ** Tables as bytes *)

Section bytes.
Context `{IpirServer}.

Lemma row_bytes_app_l d1 d2 rb n i :
  zlen d1 = n * rb -> 0 < rb -> 0 <= i < n -> row_bytes_at (d1 ++ d2) rb i = row_bytes_at d1 rb i.
Proof.
  intros Hl Hr Hi. unfold row_bytes_at. unfold zlen in Hl.
  assert (i * rb + rb <= n * rb) as Hle by nia. assert (0 <= i * rb) by nia.
  rewrite drop_app_le by lia. apply take_app_le. rewrite length_drop. lia.
Qed.

Lemma row_bytes_app_r d1 d2 rb n i :
  zlen d1 = n * rb -> 0 < rb -> 0 <= n -> 0 <= i -> row_bytes_at (d1 ++ d2) rb (n + i) = row_bytes_at d2 rb i.
Proof.
  intros Hl Hr Hn Hi. unfold row_bytes_at, zlen in *.
  assert (0 <= n * rb) by nia. assert (0 <= i * rb) by nia.
  rewrite drop_app_ge by nia. do 2 f_equal. nia.
Qed.

Lemma plaintext_rows_app d1 d2 rb n1 n2 cols bits :
  zlen d1 = n1 * rb -> 0 < rb -> 0 <= n1 -> 0 <= n2 ->
  plaintext_rows (d1 ++ d2) rb (n1 + n2) cols bits =
  plaintext_rows d1 rb n1 cols bits ++ plaintext_rows d2 rb n2 cols bits.
Proof.
  intros Hl Hr Hn1 Hn2. unfold plaintext_rows. rewrite seqZ_app, fmap_app by lia. f_equal.
  - apply list_fmap_ext. intros k i Hk. apply lookup_seqZ in Hk as [-> Hk].
    apply list_fmap_ext. intros _ c _. unfold plaintext_entry. by rewrite (row_bytes_app_l _ _ _ n1) by lia.
  - replace (0 + n1) with (n1 + 0) by lia.
    rewrite <- (fmap_add_seqZ n1 0 n2), <- list_fmap_compose by lia.
    apply list_fmap_ext. intros k i Hk. apply lookup_seqZ in Hk as [-> Hk]. cbn.
    apply list_fmap_ext. intros _ c _. unfold plaintext_entry.
    by rewrite row_bytes_app_r by (done || lia).
Qed.

(** Shards of [m] rows each, one after the other. *)
Lemma plaintext_rows_concat datas rb m cols bits :
  0 < rb -> 0 <= m -> Forall (fun d => zlen d = m * rb) datas ->
  concat ((fun d => plaintext_rows d rb m cols bits) <$> datas) =
  plaintext_rows (concat datas) rb (zlen datas * m) cols bits.
Proof.
  intros Hr Hm Hall. induction Hall as [|d datas Hd _ IH]; [done|].
  cbn [fmap list_fmap concat]. pose proof (zlen_nonneg datas).
  replace (zlen (d :: datas) * m) with (m + zlen datas * m) by (rewrite zlen_cons; lia).
  rewrite plaintext_rows_app by (done || nia). f_equal. exact IH.
Qed.
End bytes.

Lemma slice_concat (datas : list (list Z)) L i d a b :
  Forall (fun d => zlen d = L) datas -> datas !! i = Some d -> 0 <= a -> a <= b <= L ->
  slice (concat datas) (Z.of_nat i * L + a) (Z.of_nat i * L + b) = slice d a b.
Proof.
  intros Hall Hi Ha Hb. pose proof Hi as Hs. apply list_elem_of_split_length in Hi as (l1 & l2 & -> & ->).
  apply Forall_app in Hall as [H1 [Hd _]%Forall_cons]. cbv beta in Hd.
  assert (zlen (concat l1) = Z.of_nat (length l1) * L) as Hz.
  { rewrite (zlen_concat_records l1 L) by done. unfold zlen. lia. }
  rewrite concat_app. cbn [concat]. unfold slice, zlen in *.
  rewrite drop_app_ge by nia.
  replace (Z.to_nat (Z.of_nat (length l1) * L + a) - length (concat l1))%nat with (Z.to_nat a) by nia.
  rewrite drop_app_le by lia. rewrite take_app_le; [f_equal; lia|]. rewrite length_drop. nia.
Qed.

(** ** The journal behind a table *)

(** The source reads what the journal holds, as [TableJournal] does. *)
Record journal_source (source : TableSource) (j : RecordJournal) (d : jfiles) : Prop := {
  jso_table : ts_table source = Enhance;
  jso_positions : ts_positions source = RecordJournal_tree_size j;
  jso_ids : ts_shard_ids source = RecordJournal_shard_ids j;
  jso_reads id : 0 <= id <= snd (RecordJournal_shard_ids j) ->
    ts_read_shard_rows source id =
    map_err JournalError_to_string (RecordJournal_read_shard_rows j d id) }.

Lemma TableJournal_source j d source :
  TableJournal_new Enhance j d = Ok source -> journal_source source j d.
Proof.
  unfold TableJournal_new. case_bool_decide; [|done]. intros [= <-]. by constructor.
Qed.

(** The bytes of shard [id]. *)
Definition shard_data (j : RecordJournal) (d : jfiles) (id : Z) : list Z :=
  match RecordJournal_read_shard_rows j d id with Ok rows => rows | Err _ => [] end.

Section journal.
Context (j : RecordJournal) (d : jfiles) (recs : list (list Z)) (tail : list Z).
Context (stored : jstored j d recs tail) (layout : rj_layout j = ENHANCE_LAYOUT)
  (bytes : bytes_ok (concat recs ++ tail)) (size : 0 < zlen recs <= 2 ^ 40).

Definition shard_total : Z := (zlen recs - 1) / SHARD_POSITIONS + 1.
Definition table_data : list Z := concat (shard_data j d <$> seqZ 0 shard_total).

Lemma journal_tree_size : RecordJournal_tree_size j = zlen recs.
Proof. by destruct stored as [[] _]. Qed.

Lemma journal_shard_ids : RecordJournal_shard_ids j = (0, shard_total - 1).
Proof.
  unfold RecordJournal_shard_ids, shard_total, saturating_sub. rewrite layout, journal_tree_size.
  change (DatabaseLayout_shard_positions ENHANCE_LAYOUT) with SHARD_POSITIONS.
  rewrite Z.max_r by lia. f_equal. lia.
Qed.

Lemma shard_read k :
  0 <= k < shard_total ->
  RecordJournal_read_shard_rows j d k = Ok (shard_data j d k) /\
  zlen (shard_data j d k) = SHARD_ROWS * ROW_BYTES /\ bytes_ok (shard_data j d k).
Proof.
  intros Hid. unfold shard_total, SHARD_POSITIONS, SHARD_ROWS, RECORDS_PER_ROW in Hid.
  assert (0 <= k * (8192 * 9) < zlen recs) as Hp.
  { pose proof (Z.div_mod (zlen recs - 1) (8192 * 9) ltac:(lia)).
    pose proof (Z.mod_pos_bound (zlen recs - 1) (8192 * 9) ltac:(lia)). nia. }
  destruct (lookup_lt_is_Some_2 recs (Z.to_nat (k * (8192 * 9)))) as [r Hr]; [unfold zlen in *; lia|].
  destruct (read_shard_position j d recs tail (k * (8192 * 9)) r stored) as (rows & Hrows & Hz & _);
    try (rewrite layout; done); try lia; [exact Hr|].
  rewrite layout in Hrows, Hz. change (DatabaseLayout_shard_positions ENHANCE_LAYOUT) with (8192 * 9) in Hrows.
  rewrite Z.div_mul in Hrows by lia. unfold shard_data. rewrite Hrows.
  split; [done|]. split; [exact Hz|].
  unfold RecordJournal_read_shard_rows in Hrows. rewrite layout in Hrows.
  destruct (ok_or _ _) as [start|]; [|done]. destruct (_ <=? start); [done|].
  destruct (read_at _ _ _) as [populated|] eqn:Er; [|done]. injection Hrows as <-.
  apply bytes_ok_app. split.
  - unfold read_at in Er. destruct (_ =? 0); [injection Er as <-; constructor|].
    destruct stored as (_ & _ & Hf). rewrite Hf in Er. cbn [from_option id] in Er.
    destruct (get_range _ _ _) as [xs|] eqn:Eg; [|done]. injection Er as <-.
    unfold get_range in Eg. destruct (_ && _); [|done]. injection Eg as <-.
    by apply bytes_ok_take, bytes_ok_drop.
  - apply Forall_replicate. done.
Qed.

Lemma shards_sized :
  Forall (fun x => zlen x = SHARD_ROWS * ROW_BYTES) (shard_data j d <$> seqZ 0 shard_total).
Proof.
  apply Forall_fmap, Forall_forall. intros id Hid. apply elem_of_seqZ in Hid.
  apply shard_read. lia.
Qed.

Lemma shard_total_pos : 1 <= shard_total.
Proof. unfold shard_total. pose proof (Z.div_pos (zlen recs - 1) SHARD_POSITIONS). unfold SHARD_POSITIONS, SHARD_ROWS, RECORDS_PER_ROW in *. lia. Qed.

Lemma table_data_size : zlen table_data = shard_total * SHARD_ROWS * ROW_BYTES /\ bytes_ok table_data.
Proof.
  pose proof shard_total_pos. split.
  - unfold table_data. rewrite (zlen_concat_records _ (SHARD_ROWS * ROW_BYTES)) by apply shards_sized.
    unfold zlen. rewrite length_fmap, length_seqZ, Z2Nat.id by lia. lia.
  - unfold table_data, bytes_ok. apply Forall_concat, Forall_fmap, Forall_forall.
    intros id Hid. apply elem_of_seqZ in Hid. apply shard_read. lia.
Qed.

(** The row of a position in the whole table is the one in its shard. *)
Lemma table_row_record p (r : list Z) :
  0 <= p -> recs !! Z.to_nat p = Some r ->
  0 <= p / RECORDS_PER_ROW < shard_total * SHARD_ROWS /\
  record_in_row (slice table_data (p / RECORDS_PER_ROW * ROW_BYTES)
    (p / RECORDS_PER_ROW * ROW_BYTES + ROW_BYTES)) (p mod RECORDS_PER_ROW) = r.
Proof.
  intros Hp Hr. pose proof (lookup_lt_Some _ _ _ Hr) as Hlt.
  assert (p < zlen recs) as Hpr by (unfold zlen; lia). clear Hlt.
  destruct (position_in_shard j d recs tail p r stored layout Hp Hr) as (rows & Hrows & _ & Hrec).
  cbv zeta in Hrows, Hrec. set (row := p / RECORDS_PER_ROW) in *.
  assert (0 <= row / SHARD_ROWS < shard_total) as Hi.
  { unfold row, shard_total, SHARD_POSITIONS, SHARD_ROWS, RECORDS_PER_ROW. rewrite Z.div_div by lia.
    change (9 * 8192) with 73728. change (8192 * 9) with 73728. split; [apply Z.div_pos; lia|].
    pose proof (Z.div_le_mono p (zlen recs - 1) 73728 ltac:(lia) ltac:(lia)). lia. }
  pose proof (Z.div_mod row SHARD_ROWS ltac:(done)) as Hdm.
  pose proof (Z.mod_pos_bound row SHARD_ROWS ltac:(done)) as Hmb.
  split; [unfold SHARD_ROWS in *; nia|]. rewrite <- Hrec. f_equal.
  destruct (shard_read _ Hi) as (Hrd & _ & _). rewrite Hrows in Hrd. injection Hrd as Hrd.
  rewrite Hrd. unfold table_data.
  rewrite <- (slice_concat (shard_data j d <$> seqZ 0 shard_total) (SHARD_ROWS * ROW_BYTES)
    (Z.to_nat (row / SHARD_ROWS)) (shard_data j d (row / SHARD_ROWS))).
  - rewrite Z2Nat.id by lia.
    assert (row * ROW_BYTES = row / SHARD_ROWS * (SHARD_ROWS * ROW_BYTES) +
      row mod SHARD_ROWS * ROW_BYTES) as -> by (rewrite Hdm at 1; ring). f_equal; ring.
  - apply shards_sized.
  - rewrite list_lookup_fmap. erewrite (proj2 (lookup_seqZ _ _ _ _)); [done|]. split; [|lia].
    rewrite Z2Nat.id by lia. lia.
  - unfold SHARD_ROWS, ROW_BYTES, RECORD_BYTES, RECORDS_PER_ROW in *. nia.
  - unfold SHARD_ROWS, ROW_BYTES, RECORD_BYTES, RECORDS_PER_ROW in *. nia.
Qed.
End journal.

(** ** The published table *)

Section published.
Context {layouts : Layouts} `{Hex} `{Sha256} `{Ipir} `{IpirServer} `{IpirPack} `{Schedule}
  {N : Type} `{!Http N}.

(** [publish] of one source: its table heads the list, sharded as the source is,
    under a generation that [generation] finds. *)
Lemma publish_sharded c wd source anchor now c' wd' :
  u64 (an_height anchor) ->
  publish c wd [source] anchor now = (Ok tt, c', wd') ->
  exists s sn state, newest c' = Some s /\ gs_tables s !! ts_table source = Some sn /\
    table_sharded source sn /\ co_tables c' !! ts_table source = Some state /\
    (exists state0, co_tables c !! ts_table source = Some state0 /\ tb_rlwe state = tb_rlwe state0) /\
    sn_top_key_images sn = TopKeyImages_build (tb_rlwe state) /\
    sn_public_params sn = published_c1_rows (sn_preprocessed sn) (rlwe_q (tb_rlwe state)) /\
    generation c' (gm_generation (gs_manifest s)) = Some s /\ u64 (gm_generation (gs_manifest s)).
Proof.
  intros Hu. unfold publish. rewrite filter_cons, filter_nil.
  case_decide as Hsome; [|done]. cbn [publish_tables].
  destruct (build_table _ _ source _) as [[[sn|] c1] wd1] eqn:E; [|done].
  apply build_table_sharded in E as (Hsh & state & Hst & (state' & Hst' & Hrl) & Hk & Hpp).
  cbn [co_tables set_phase] in Hst. rewrite <- Hrl in Hk, Hpp.
  intros [= <- <-]. cbn [newest set_phase co_live retain head co_tables].
  eexists _, sn, state'. split; [reflexivity|]. cbn [gs_tables gs_manifest gm_generation].
  rewrite (left_id_L ∅ (∪)), lookup_singleton_eq. split_and!; try done; [by exists state| |].
  - unfold generation. cbn. by rewrite Z.eqb_refl.
  - unfold next_generation, saturating_add64, u64, u64_bound in *. case_match; lia.
Qed.
End published.

(** Every pair of shard queries a whole query is cut into is served by its
    group with the product over the rows [R]. *)
Definition workers_serve {layouts : Layouts} `{Ipir} `{IpirServer} `{IpirPack} {N : Type} `{!Http N}
    (I : World N -> Prop) (g : Z) (rlwe : RlweParams) (p : YpirSchemeParams) (live : TableSnapshot)
    (R : Z -> list Z) : Prop :=
  forall query sliced name group qs,
    zlen query = db_rows (sn_ypir live) -> reduced (rlwe_q rlwe) query ->
    slice_query query (shard_rows (layout_of Enhance)) (tm_shards (sn_manifest live)) = Ok sliced ->
    sn_ready_groups live !! name = Some group -> group_queries sliced !! name = Some qs ->
    group_serves I Enhance {| er_generation := g; er_shards := qs |}
      (expected_partial Enhance rlwe p R qs) group.

(** ** The coordinator's endpoints, as the wallet reaches them *)

Definition coordinator_get `{IpirPack} `{Base64} (c : CoordinatorState)
    (render : EnhanceSession -> list Z) (url : string) : result string HttpReply :=
  match enhance_session_handler c with
  | Ok s => Ok (whole_reply 200 (render s))
  | Err status => Ok (whole_reply status [])
  end.

Definition coordinator_post {layouts : Layouts} `{Ipir} `{IpirServer} `{IpirPack} `{Schedule}
    {N : Type} `{!Http N} (c : CoordinatorState) (wd : World N) (url : string) (body : list Z) :
    result string HttpReply :=
  let '(status, response, _, _) := answer_handler c wd Enhance body true in
  Ok (whole_reply status response).

Lemma logical_rows_cover positions :
  0 < positions <= 2 ^ 40 ->
  let used := DatabaseLayout_used_rows_for ENHANCE_LAYOUT positions in
  let logical := DatabaseLayout_logical_rows_for ENHANCE_LAYOUT used in
  ((positions - 1) / SHARD_POSITIONS + 1) * SHARD_ROWS <= logical <= 2 ^ 62 /\
  (SHARD_ROWS | logical) /\ 0 < used <= logical.
Proof.
  intros Hp used logical.
  assert (positions <= 9 * used < positions + 9) as Hu by apply (div_ceil_spec positions 9 ltac:(lia) ltac:(lia)).
  destruct (next_power_of_two_spec (Z.max used SHARD_ROWS)) as [Hn Hpow]; [unfold SHARD_ROWS; lia|].
  change (next_power_of_two (Z.max used SHARD_ROWS)) with logical in Hn, Hpow.
  assert (SHARD_ROWS | logical) as Hdiv.
  { unfold is_power_of_two in Hpow. bool_prop. unfold SHARD_ROWS in *.
    assert (13 <= Z.log2 logical) as Hl by (change 13 with (Z.log2 8192); apply Z.log2_le_mono; lia).
    exists (2 ^ (Z.log2 logical - 13)). change 8192 with (2 ^ 13). rewrite <- Z.pow_add_r by lia.
    replace (Z.log2 logical - 13 + 13) with (Z.log2 logical) by lia. lia. }
  split_and!; try lia; try done. destruct Hdiv as [k Hk]. unfold SHARD_POSITIONS, SHARD_ROWS, RECORDS_PER_ROW in *.
  pose proof (Z.div_mod (positions - 1) (8192 * 9) ltac:(lia)).
  pose proof (Z.mod_pos_bound (positions - 1) (8192 * 9) ltac:(lia)). lia.
Qed.

(** ** Retrieval *)

Section retrieval.
Context `{Hex} {sha : Sha256} {sha_laws : Sha256Laws sha} `{IpirParamsLaws} `{IpirServerLaws}
  {fits_ : @LayoutsFit protocol_layouts _} `{IpirPack} `{!IpirPackLaws} `{!IpirRetrieval}
  `{Schedule} `{Base64} `{Base64Decode} `{!Base64Laws} {N : Type} `{!Http N}.
#[local] Existing Instance protocol_layouts.

(** The published hint is the one of the published rows. *)
Definition hint_current (rlwe : RlweParams) (live : TableSnapshot) (data : list Z) (n : Z) : Prop :=
  build_pack_preprocessed_blocks rlwe (table_hint rlwe (sn_ypir live) setup_seed_bytes
    (plaintext_rows data ROW_BYTES n (db_cols (sn_ypir live)) (trailing_zeros (ypir_p (sn_ypir live))))) =
  Ok (sn_preprocessed live).

(** The sizes of one exchange. *)
Definition exchange_fits (rlwe : RlweParams) (ypir : YpirSchemeParams) : Prop :=
  0 <= serialized_packing_keys_len rlwe /\
  8 + serialized_packing_keys_len rlwe + db_rows ypir * query_bits ypir < 2 ^ 62 /\
  0 <= db_cols ypir / rlwe_d rlwe * response_body_len (rlwe_d rlwe) (q_prime_1 ypir) <=
    16 * 1024 * 1024 - 16.

(** The matrix of the advertised shards is the one of the concatenated bytes. *)
Lemma shards_matrix source (live : TableSnapshot) p j d recs tail :
  jstored j d recs tail -> rj_layout j = ENHANCE_LAYOUT -> bytes_ok (concat recs ++ tail) ->
  0 < zlen recs <= 2 ^ 40 -> db_rows p = SHARD_ROWS ->
  Forall2 (describes source) (seqZ 0 (shard_total recs)) (tm_shards (sn_manifest live)) ->
  table_matrix Enhance p (shard_data j d) (tm_shards (sn_manifest live)) =
  plaintext_rows (table_data j d recs) ROW_BYTES (shard_total recs * SHARD_ROWS) (db_cols p)
    (trailing_zeros (ypir_p p)).
Proof.
  intros Hst Hl Hb Hs Hdb Hf. unfold table_matrix, shard_matrix, table_data.
  change (DatabaseLayout_row_bytes (layout_of Enhance)) with ROW_BYTES. rewrite Hdb.
  pose proof (shard_total_pos recs Hs). pose proof (shards_sized j d recs tail Hst Hl Hb) as Hsz.
  assert (sd_shard_id <$> tm_shards (sn_manifest live) = seqZ 0 (shard_total recs)) as Hids.
  { clear -Hf. induction Hf as [|id d ids ds [Hd _] _ IH]; [done|]. cbn. by rewrite Hd, IH. }
  transitivity (concat ((fun data => plaintext_rows data ROW_BYTES SHARD_ROWS (db_cols p)
    (trailing_zeros (ypir_p p))) <$> (shard_data j d <$> seqZ 0 (shard_total recs)))).
  { rewrite <- Hids, <- !list_fmap_compose. done. }
  rewrite plaintext_rows_concat by done. f_equal. unfold zlen.
  rewrite length_fmap, length_seqZ, Z2Nat.id by lia. done.
Qed.

Lemma QuerySession_new_inv g ypir pp qs :
  QuerySession_new g ypir pp = Ok qs ->
  exists rlwe, params_for_simplepir (eg_logical_rows g) ITEM_SIZE_BITS = Ok (rlwe, ypir) /\
    bad_geometry g = false /\ qs = {|
      qs_generation := g; qs_ypir := ypir; qs_rlwe := rlwe;
      qs_setup := generate_setup ypir setup_seed_bytes;
      qs_published_c1 := recover_published_c1 pp (rlwe_d rlwe) (db_cols ypir / rlwe_d rlwe) (rlwe_q rlwe);
      qs_epoch := take 8 (sha256 pp) |}.
Proof.
  unfold QuerySession_new. destruct (bad_identity g); [done|]. destruct (negb (_ =? _)); [done|].
  destruct (bad_geometry g); [done|].
  destruct (params_for_simplepir _ _) as [[rlwe expected]|] eqn:Ep; [|done]. cbn [map_err].
  case_bool_decide; [subst expected|done]. cbn [negb]. case_bool_decide; [|done]. cbn [negb].
  case_bool_decide; [|done]. cbn [negb]. destruct (negb _); [done|]. intros [= <-].
  exists rlwe. by split_and!.
Qed.

(** The tail of a decoded exchange. *)
Lemma decode_answer qs q g epoch body row :
  eg_generation (qs_generation qs) = g -> qs_epoch qs = epoch -> zlen epoch = 8 ->
  zlen body = db_cols (qs_ypir qs) / rlwe_d (qs_rlwe qs) *
    response_body_len (rlwe_d (qs_rlwe qs)) (q_prime_1 (qs_ypir qs)) ->
  zlen body < 2 ^ 62 ->
  get_range (decode_response (pq_seed q) (qs_published_c1 qs) body) 0 ROW_BYTES = Some row ->
  QuerySession_decode qs q (le_bytes 8 g ++ epoch ++ body) = Ok row.
Proof.
  intros <- <- He Hb Hs Hd. unfold QuerySession_decode.
  set (gb := le_bytes 8 (eg_generation (qs_generation qs))).
  assert (zlen gb = 8) as Hg by (unfold gb; by rewrite zlen_le_bytes).
  assert (get_range (gb ++ qs_epoch qs ++ body) 0 8 = Some gb) as ->.
  { pose proof (get_range_app [] gb (qs_epoch qs ++ body)) as Hr. by rewrite Hg in Hr. }
  assert (get_range (gb ++ qs_epoch qs ++ body) 8 16 = Some (qs_epoch qs)) as ->.
  { pose proof (get_range_app gb (qs_epoch qs) body) as Hr. by rewrite Hg, He in Hr. }
  rewrite !bool_decide_true by done. cbn [negb]. rewrite <- Hb.
  pose proof (zlen_nonneg body). rewrite !zlen_app, Hg, He.
  rewrite !wrap64_small by (rewrite ?wrap64_small; unfold u64_bound; lia).
  rewrite Z.add_assoc, Z.eqb_refl. cbn [negb].
  assert (drop 16 (gb ++ qs_epoch qs ++ body) = body) as ->.
  { rewrite app_assoc. apply drop_app_length'. rewrite length_app. unfold zlen in *. lia. }
  by rewrite Hd.
Qed.

(** The advertised shards of a journal, as the answer path needs them. *)
Lemma journal_shards_served I g rlwe p (live : TableSnapshot) source j d recs tail query :
  jstored j d recs tail -> rj_layout j = ENHANCE_LAYOUT -> 0 < zlen recs <= 2 ^ 40 ->
  journal_source source j d -> table_sharded source live ->
  ts_layout source = ENHANCE_LAYOUT -> shard_parameters ENHANCE_LAYOUT = Ok (rlwe, p) ->
  db_cols (sn_ypir live) = db_cols p -> shard_total recs * SHARD_ROWS <= db_rows (sn_ypir live) <= 2 ^ 62 ->
  workers_serve I g rlwe p live (shard_data j d) ->
  zlen query = db_rows (sn_ypir live) -> reduced (rlwe_q rlwe) query ->
  zlen (tm_shards (sn_manifest live)) = shard_total recs /\
  table_served I g Enhance rlwe p live (shard_data j d) query.
Proof.
  intros Hst Hl Hs Hsrc [Hsh Hready _] Hlay Hp Hcols Hrows Hserve Hq Hred.
  rewrite (jso_ids _ _ _ Hsrc), (journal_shard_ids j d recs tail Hst Hl Hs) in Hsh. cbn [fst snd] in Hsh.
  replace (shard_total recs - 1 - 0 + 1) with (shard_total recs) in Hsh by lia.
  pose proof (shard_total_pos recs Hs) as Htot.
  assert (zlen (tm_shards (sn_manifest live)) = shard_total recs) as Hz.
  { apply Forall2_length in Hsh. rewrite length_seqZ in Hsh. unfold zlen. lia. }
  split; [done|]. constructor; try done.
  - intros He. rewrite He in Hz. change (zlen (A := ShardDescriptor) []) with 0 in Hz. lia.
  - intros i ds Hi. destruct (Forall2_lookup_r _ _ _ _ _ Hsh Hi) as (id & Hid & _ & Hgs & _).
    apply lookup_seqZ in Hid as [-> Hi']. rewrite Hgs, Hlay.
    change (shard_rows (layout_of Enhance)) with SHARD_ROWS. change (shard_rows ENHANCE_LAYOUT) with SHARD_ROWS.
    apply wrap64_small. unfold SHARD_ROWS, u64_bound in *. lia.
  - rewrite Hz, Hq. change (shard_rows (layout_of Enhance)) with SHARD_ROWS. lia.
  - split; [done|]. rewrite Hq. lia.
  - intros. by eapply Hserve.
Qed.

(** The shard's parameters and the table's agree in all but the row count. *)
Lemma params_agree rlwe sp logical rlwe' ypir :
  shard_parameters ENHANCE_LAYOUT = Ok (rlwe, sp) ->
  params_for_simplepir logical ITEM_SIZE_BITS = Ok (rlwe', ypir) ->
  rlwe' = rlwe /\ db_cols ypir = db_cols sp /\ ypir_p ypir = ypir_p sp.
Proof.
  intros Hsp Hpar. unfold shard_parameters in Hsp.
  destruct (params_for_simplepir (shard_rows _) _) as [[r1 y1]|] eqn:E1; [|done].
  cbn in Hsp. simplify_eq. by apply (params_shared _ _ _ _ _ _ _ E1 Hpar).
Qed.

(** The body the wallet prepares, laid out as the coordinator reads it, is
    answered with the monolithic product. *)
Lemma wallet_body_answered (I : World N -> Prop) c wd g snap live state sp R kb qb keys query :
  co_tables c !! Enhance = Some state -> generation c g = Some snap -> u64 g ->
  gs_tables snap !! Enhance = Some live -> I wd -> exchange_fits (tb_rlwe state) (sn_ypir live) ->
  0 <= db_rows (sn_ypir live) * query_bits (sn_ypir live) ->
  zlen kb = serialized_packing_keys_len (tb_rlwe state) ->
  deserialize_packing_keys (tb_rlwe state) kb = Ok keys ->
  zlen qb = div_ceil (db_rows (sn_ypir live) * query_bits (sn_ypir live)) 8 ->
  from_switched_bytes qb (db_rows (sn_ypir live)) (rlwe_q (tb_rlwe state)) (query_bits (sn_ypir live)) =
    Ok query -> zlen query = db_rows (sn_ypir live) ->
  table_served I g Enhance (tb_rlwe state) sp live R query ->
  exists c' wd', answer_query c wd Enhance (le_bytes 8 g ++ kb ++ qb) =
    (monolithic_answer g Enhance (tb_rlwe state) sp live R keys query, c', wd').
Proof.
  intros Htab Hgen Hu Hlive HI (Hk0 & Hfit & _) Hnn Hkl Hkd Hqz Hqd Hqz' Hts.
  assert (zlen (le_bytes 8 g) = 8) as Hgz by by rewrite zlen_le_bytes.
  pose proof (div_ceil_spec _ 8 Hnn ltac:(lia)) as Hdc.
  assert (zlen (le_bytes 8 g ++ kb ++ qb) = 8 + serialized_packing_keys_len (tb_rlwe state) +
    div_ceil (db_rows (sn_ypir live) * query_bits (sn_ypir live)) 8) as Hbz.
  { rewrite !zlen_app, Hgz, Hkl, Hqz. lia. }
  eapply (distributed_answer (layouts := protocol_layouts) I); try done.
  - lia.
  - rewrite (take_app_length' (le_bytes 8 g)) by (by rewrite length_le_bytes). by apply le_val_le_bytes.
  - rewrite Hbz. rewrite !wrap64_small; rewrite ?wrap64_small; unfold u64_bound; lia.
  - rewrite slice_app; [exact Hkd|done|lia].
  - rewrite app_assoc, (drop_app_length' (le_bytes 8 g ++ kb)).
    + unfold deserialize_first_dim_query. rewrite Hqd, Hqz', Z.eqb_refl. done.
    + rewrite length_app. unfold zlen in *. lia.
Qed.

(** One row, from the prepared query to the decoded answer. *)
Lemma row_retrieved (I : World N -> Prop) c wd g snap live state sp source j d recs tail qs logical url row rng :
  jstored j d recs tail -> rj_layout j = ENHANCE_LAYOUT -> bytes_ok (concat recs ++ tail) ->
  0 < zlen recs <= 2 ^ 40 -> journal_source source j d ->
  table_sharded source live -> ts_layout source = ENHANCE_LAYOUT ->
  co_tables c !! Enhance = Some state -> generation c g = Some snap -> u64 g ->
  gs_tables snap !! Enhance = Some live -> shard_parameters ENHANCE_LAYOUT = Ok (tb_rlwe state, sp) ->
  sn_top_key_images live = TopKeyImages_build (tb_rlwe state) ->
  sn_public_params live = published_c1_rows (sn_preprocessed live) (rlwe_q (tb_rlwe state)) ->
  hint_current (tb_rlwe state) live (table_data j d recs) (shard_total recs * SHARD_ROWS) ->
  exchange_fits (tb_rlwe state) (sn_ypir live) -> I wd ->
  workers_serve I g (tb_rlwe state) sp live (shard_data j d) ->
  params_for_simplepir logical ITEM_SIZE_BITS = Ok (tb_rlwe state, sn_ypir live) ->
  (SHARD_ROWS | logical) -> shard_total recs * SHARD_ROWS <= logical <= 2 ^ 62 ->
  eg_generation (qs_generation qs) = g -> qs_ypir qs = sn_ypir live -> qs_rlwe qs = tb_rlwe state ->
  qs_setup qs = generate_setup (sn_ypir live) setup_seed_bytes ->
  qs_published_c1 qs = recover_published_c1 (sn_public_params live) (rlwe_d (tb_rlwe state))
    (db_cols (sn_ypir live) / rlwe_d (tb_rlwe state)) (rlwe_q (tb_rlwe state)) ->
  qs_epoch qs = take 8 (sha256 (sn_public_params live)) ->
  0 <= row < shard_total recs * SHARD_ROWS ->
  exists q, QuerySession_prepare_row qs row rng = Ok q /\
    EnhancePirClient_send {| ec_base_url := url; ec_session := qs |} (coordinator_post c wd) q =
    Ok (slice (table_data j d recs) (row * ROW_BYTES) (row * ROW_BYTES + ROW_BYTES)).
Proof.
  intros Hst Hl Hb Hs Hsrc Hsh Hlay Htab Hgen Hu Hlive Hsp Hkeys Hpp Hhint Hfit HI Hserve Hpar
    Hdiv Hlog Hg Hy Hr Hset Hc1 Hep Hrow.
  pose proof (layouts_fit (LayoutsFit := fits_) Enhance _ _ Hsp) as Hlf.
  destruct (shard_parameters_facts _ _ _ Hsp Hlf) as (Hdb & _ & _ & Hd & _).
  assert (db_rows (sn_ypir live) = logical) as Hrows.
  { apply (params_rows _ _ _ _ Hpar); [pose proof (shard_total_pos recs Hs); unfold SHARD_ROWS in *; lia|].
    destruct Hlf as (_ & _ & _ & Hdd & _). by etransitivity. }
  destruct (params_agree _ _ _ _ _ Hsp Hpar) as (_ & Hcols & Hp).
  destruct (table_data_size j d recs tail Hst Hl Hb Hs) as [Hdz Hdb'].
  destruct (fresh_query (sn_ypir live) (generate_setup (sn_ypir live) setup_seed_bytes) row rng)
    as [[query keys] seed] eqn:Ef.
  destruct (retrieval _ _ ROW_BYTES _ _ setup_seed_bytes (table_data j d recs) _ row rng query keys seed
    (sn_preprocessed live) Hpar eq_refl eq_refl Hdz Hdb' ltac:(lia) Hrow Ef Hhint)
    as (kb & keys' & query' & packed & Hkb & Hkl & Hkd & Hqz & Hqd & Hqz' & Hqr & Hpack & Hbody & Hdec).
  set (qb := to_switched_bytes query (rlwe_q (tb_rlwe state)) (query_bits (sn_ypir live))) in *.
  exists {| pq_row := row; pq_body := le_bytes 8 g ++ kb ++ qb; pq_seed := seed |}. split.
  { unfold QuerySession_prepare_row. rewrite Hy, Hset, Ef, Hr, Hg. cbn [fst snd].
    destruct (db_rows (sn_ypir live) <=? row) eqn:E; [bool_prop; lia|]. by rewrite Hkb. }
  destruct (journal_shards_served I g (tb_rlwe state) sp live source j d recs tail query') as [Hn Hts];
    try done; [lia|].
  destruct (params_sane _ _ _ _ Hpar) as (_ & _ & _ & _ & _ & Hqb0).
  destruct (wallet_body_answered I c wd g snap live state sp (shard_data j d) kb qb keys' query')
    as (c' & wd' & Ha); try done; [nia|].
  assert (zlen (le_bytes 8 g) = 8) as Hgz by by rewrite zlen_le_bytes.
  unfold EnhancePirClient_send, EnhancePirClient_request, coordinator_post, answer_handler.
  unfold coordinator_table. rewrite Htab. cbn [ok_or negb pq_body ec_session ec_base_url].
  rewrite Ha. unfold monolithic_answer. rewrite Hn.
  rewrite (shards_matrix source live sp j d recs tail Hst Hl Hb Hs Hdb).
  2:{ destruct Hsh as [Hsh _ _]. rewrite (jso_ids _ _ _ Hsrc), (journal_shard_ids j d recs tail Hst Hl Hs) in Hsh.
      cbn [fst snd] in Hsh. by replace (shard_total recs - 1 - 0 + 1) with (shard_total recs) in Hsh by lia. }
  rewrite <- Hcols, <- Hp, Hkeys. change (shard_rows (layout_of Enhance)) with SHARD_ROWS. rewrite Hpack.
  cbn [map_err hp_status hp_content_length hp_chunks whole_reply]. change (is_success 200) with true. cbn [negb].
  assert (zlen (take 8 (sha256 (sn_public_params live))) = 8) as He8.
  { unfold zlen. rewrite length_take, sha256_length. done. }
  destruct Hsh as [_ _ Hepoch]. rewrite Hepoch.
  destruct Hfit as (_ & _ & Hresp). rewrite read_whole; [|rewrite !zlen_app, Hgz, He8, Hbody; lia|lia].
  apply decode_answer; try done.
  - by rewrite Hbody, Hy, Hr.
  - rewrite Hbody. lia.
  - cbn [pq_seed]. rewrite Hc1, Hpp. exact Hdec.
Qed.

(** ** Properties *)

(** C1: a wallet that connects gets the record it asks for.  Let a coordinator have
    published the shards of a record journal, with the hint of exactly those rows
    and workers that serve them (any replica failing retryably as long as one of
    its group answers, groups completing in any order).  Then the wallet's
    [connect] accepts the session of that generation, and for every position below
    the tree size and all randomness, [query_position] prepares a query, sends it
    through the coordinator and decodes the answer to exactly the record that was
    appended to the journal at that position. *)
Theorem private_retrieval_exact (I : World N -> Prop) j d recs tail source c0 wd0 anchor now c wd
    snap live state sp render parse url p (r : list Z) :
  jstored j d recs tail -> rj_layout j = ENHANCE_LAYOUT -> bytes_ok (concat recs ++ tail) ->
  0 < zlen recs <= 2 ^ 40 -> journal_source source j d ->
  u64 (an_height anchor) -> table_ready c0 Enhance ->
  publish c0 wd0 [source] anchor now = (Ok tt, c, wd) ->
  newest c = Some snap -> gs_tables snap !! Enhance = Some live -> co_tables c !! Enhance = Some state ->
  shard_parameters ENHANCE_LAYOUT = Ok (tb_rlwe state, sp) ->
  hint_current (tb_rlwe state) live (table_data j d recs) (shard_total recs * SHARD_ROWS) ->
  exchange_fits (tb_rlwe state) (sn_ypir live) -> bytes_ok (sn_public_params live) -> I wd ->
  workers_serve I (gm_generation (gs_manifest snap)) (tb_rlwe state) sp live (shard_data j d) ->
  (forall s, session c = Some s -> parse (render s) = Some s /\ zlen (render s) <= 1024 * 1024) ->
  0 <= p -> recs !! Z.to_nat p = Some r ->
  exists client, EnhancePirClient_connect url (coordinator_get c render) parse = Ok client /\
    forall rng, EnhancePirClient_query_position client (coordinator_post c wd) p rng = Ok r.
Proof.
  intros Hst Hl Hb Hs Hsrc Hu Hready Hpub Hnew Hlive Htab Hsp Hhint Hfit Hppb HI Hserve Hjson Hp Hr.
  pose proof (jso_table _ _ _ Hsrc) as Ht.
  assert (ts_positions source = zlen recs) as Hpos
    by by rewrite (jso_positions _ _ _ Hsrc), (journal_tree_size j d recs tail Hst).
  destruct (publish_single (layouts := protocol_layouts) c0 wd0 source anchor now c wd)
    as (s1 & sn1 & Hn1 & Hl1 & Hgm & Htree & Hbuilt); [by rewrite Ht|done|].
  destruct (publish_sharded (layouts := protocol_layouts) c0 wd0 source anchor now c wd Hu Hpub)
    as (s2 & sn2 & st2 & Hn2 & Hl2 & Hsh & Hst2 & _ & Hkeys & Hpp & Hgen & Hgu).
  rewrite Ht in Hl1, Hl2, Hgm, Hst2. rewrite Hnew in Hn1, Hn2. simplify_eq.
  destruct (session_accepted source s1 live Ht ltac:(lia) Hbuilt Hgm (Htree Ht)) as (g & qs & Hpu & Hgt & Hgg & Hqs).
  apply QuerySession_new_inv in Hqs as Hinv. destruct Hinv as (rlwe & Hpar & Hgeo & Hq).
  destruct Hbuilt as [Hlay _ _ [Hused Hlog] _ _ (rlwe' & Hgp & _)]. rewrite Ht in Hlay.
  change (layout_of Enhance) with ENHANCE_LAYOUT in Hlay. rewrite Hlay in Hused, Hlog, Hgp.
  rewrite Hpos in Hused. pose proof (logical_rows_cover (zlen recs) Hs) as Hcov. cbv zeta in Hcov.
  rewrite <- Hused, <- Hlog in Hcov. destruct Hcov as (Hcov & Hdiv & _).
  assert (eg_logical_rows g = tm_logical_rows (sn_manifest live)) as Hel.
  { unfold GenerationManifest_public in Hpu. rewrite Hgm in Hpu. by injection Hpu as <-. }
  destruct (params_agree _ _ _ _ _ Hsp Hpar) as (-> & _).
  exists {| ec_base_url := trim_end_slashes url; ec_session := qs |}. split.
  - unfold EnhancePirClient_connect, coordinator_get, enhance_session_handler.
    assert (session c = Some {| es_generation := g; es_params := sn_ypir live;
      es_public_params_base64 := base64_encode (sn_public_params live) |}) as Hse
      by (unfold session; by rewrite Hnew, Hlive, Hpu).
    destruct (Hjson _ Hse) as [Hparse Hsize]. rewrite Hse.
    cbn [ok_or map_err hp_status hp_content_length hp_chunks whole_reply].
    rewrite read_whole, Hparse by (done || lia). cbn [ok_or]. unfold QuerySession_from_session.
    cbn [es_public_params_base64 es_generation es_params]. rewrite base64_roundtrip by done. cbn [ok_or].
    by rewrite Hqs.
  - intros rng. destruct (table_row_record j d recs tail Hst Hl Hb p r Hp Hr) as [Hrow Hrec].
    destruct (row_retrieved I c wd (gm_generation (gs_manifest s1)) s1 live state sp source j d recs tail qs
      (eg_logical_rows g) (trim_end_slashes url) (p / RECORDS_PER_ROW) rng) as (q & Hprep & Hsend);
      try done; try (by subst qs); try (by rewrite Hel).
    unfold EnhancePirClient_query_position, QuerySession_prepare_position. cbn [ec_session].
    assert (p < zlen recs) as Hlt by (apply lookup_lt_Some in Hr; unfold zlen; lia).
    assert (qs_generation qs = g) as -> by by subst qs.
    destruct (row_for_position_ok g p) as [-> _]; [by apply bad_geometry_false|rewrite Hgt, Hpos; lia|].
    cbn [ok_or]. rewrite Hprep, Hsend, Hrec. done.
Qed.
End retrieval.

(** ** A scheme in the clear

    Queries are unit vectors, plaintexts are bytes, answers are the row itself:
    the laws hold, so the hypotheses of the theorem above can be met. *)

Definition clear_rlwe : RlweParams := {| rlwe_d := 1; rlwe_q := 257 |}.
Definition clear_params (rows bits : Z) : YpirSchemeParams :=
  {| db_rows := rows; db_cols := bits / 8; ypir_p := 256; q_prime_1 := 1; query_bits := 8 |}.

Definition unit_query (rows row : Z) : list Z := (fun k => Z.b2z (k =? row)) <$> seqZ 0 rows.

Definition clear_ipir : Ipir := {|
  ipir_seed := unit; ipir_rng := unit;
  params_for_simplepir rows bits :=
    if (0 <? bits / 8) && (bits / 8 <? 2 ^ 32) then Ok (clear_rlwe, clear_params rows bits)
    else Err "unsupported geometry"%string;
  published_c1_len d q := 0; response_body_len d q := 1;
  recover_published_c1 bytes _ _ _ := [bytes];
  generate_setup p _ := replicate (Z.to_nat (db_rows p)) [1];
  fresh_query p _ row _ := (unit_query (db_rows p) row, [], tt);
  serialize_packing_keys keys := Ok keys; to_switched_bytes q _ _ := q;
  decode_response _ _ body := body |}.

Definition clear_server : IpirServer := {|
  ipir_server := YpirSchemeParams * list Z;
  new_auto_kernel p xs _ _ := (p, xs); server_params := fst; server_db := snd;
  multiply_query s rlwe query :=
    matvec (rlwe_q rlwe) (Z.to_nat (db_cols (fst s)))
      (chunks_exact (length (snd s)) (Z.to_nat (db_cols (fst s))) (snd s)) query;
  perform_offline_precomputation_simplepir s rlwe _ :=
    let d := Z.to_nat (rlwe_d rlwe) in
    replicate (Z.to_nat (db_cols (fst s) / rlwe_d rlwe)) {| cb_rows := replicate d (replicate d 0) |};
  read_bits bytes off _ := nth (Z.to_nat (off / 8)) bytes 0;
  from_switched_bytes bytes rows _ _ := Ok (take (Z.to_nat rows) bytes) |}.

Definition clear_pack : IpirPack := {|
  preprocessed_blocks := list CrsBlock; top_key_images := unit; packing_keys := list Z;
  packed_blocks := list Z; build_pack_preprocessed_blocks _ crs := Ok crs;
  TopKeyImages_build _ := tt; published_c1_rows _ _ := []; serialized_packing_keys_len _ := 0;
  deserialize_packing_keys _ bytes := Ok bytes;
  pack_intermediate_blocks combined _ _ _ := Ok combined;
  serialize_rlwe_response_bodies packed _ := packed |}.

Definition constant_hash : Sha256 := fun _ => replicate 32 7.
Definition plain_base64_decode : Base64Decode := fun s => Some (string_bytes s).

#[export] Instance constant_hash_laws : Sha256Laws constant_hash.
Proof. split; intros; [done|]. by apply Forall_replicate. Qed.

#[export] Instance clear_params_laws : @IpirParamsLaws clear_ipir.
Proof.
  split; cbn [params_for_simplepir clear_ipir].
  - intros rows bits rlwe ypir Hp. destruct (_ && _) eqn:E; [|done]. injection Hp as <- <-. bool_prop.
    cbn. split_and!; try (done || lia). apply Z.divide_1_l.
  - intros rows bits rlwe ypir Hp _ _. destruct (_ && _); [|done]. by injection Hp as <- <-.
  - intros rows rows' bits rlwe ypir rlwe' ypir' Hp Hp'. destruct (_ && _); [|done]. by simplify_eq.
Qed.

#[export] Instance clear_server_laws : @IpirServerLaws clear_server.
Proof.
  split; cbn; try done. intros p xs rlwe setup Hd Hq Hc _.
  apply (small_offline _ _ 0 (rlwe_q rlwe)); [lia|apply Z.div_pos; lia|lia|lia].
Qed.

#[export] Instance clear_pack_laws : @IpirPackLaws clear_ipir clear_pack.
Proof. split. cbn. intros rlwe crs pre _ _. change (zlen (A := Z) []) with 0. lia. Qed.

#[export] Instance clear_fits : @LayoutsFit protocol_layouts clear_ipir.
Proof.
  intros table rlwe p Hp. destruct table; vm_compute in Hp; injection Hp as <- <-;
    unfold layout_fits; split_and!; try (vm_compute; reflexivity); apply Z.divide_1_l.
Qed.

(** The product of a unit vector with a matrix is one of its rows. *)
Lemma unit_product q cols rows i a :
  2 <= q -> Forall (vec_ok q cols) rows ->
  matvec q cols rows ((fun k => Z.b2z (k =? i)) <$> seqZ a (zlen rows)) =
  if (a <=? i) && (i <? a + zlen rows) then rows !!! Z.to_nat (i - a) else replicate cols 0.
Proof.
  intros Hq Hall. revert a. induction Hall as [|r rows Hr Hall IH]; intros a.
  { change (zlen []) with 0. destruct (_ && _) eqn:E; [bool_prop; lia|done]. }
  rewrite zlen_cons. pose proof (zlen_nonneg rows) as Hz.
  replace (1 + zlen rows) with (zlen rows + 1) by lia. rewrite seqZ_S by lia.
  cbn [fmap list_fmap]. change (matvec q cols (r :: rows) (Z.b2z (a =? i) :: ?qs))
    with (vec_add q (vec_scale q (Z.b2z (a =? i)) r) (matvec q cols rows qs)).
  rewrite IH. pose proof (vec_add_zero q cols) as Hzero. destruct Hr as [Hl Hr].
  assert (vec_scale q 1 r = r) as H1.
  { unfold vec_scale. clear -Hr. induction Hr as [|x r Hx _ IH]; [done|]. cbn. f_equal; [|exact IH].
    rewrite Z.mod_small; lia. }
  assert (vec_scale q 0 r = replicate cols 0) as H0.
  { rewrite <- Hl. unfold vec_scale. clear. induction r as [|x r IH]; [done|]. cbn. f_equal. exact IH. }
  assert (vec_ok q cols (replicate cols 0)) as Hz0.
  { split; [apply length_replicate|]. apply Forall_replicate. lia. }
  destruct (a =? i) eqn:E; bool_prop.
  - subst i. cbn [Z.b2z]. rewrite H1. replace (a + 1 <=? a) with false by lia. cbn [andb].
    guards. rewrite Z.sub_diag. rewrite (vec_add_comm q r). apply Hzero. by split.
  - cbn [Z.b2z]. rewrite H0. rewrite Hzero.
    + replace (a + 1 <=? i) with (a <=? i) by lia. replace (a + 1 + zlen rows) with (a + (zlen rows + 1)) by lia.
      destruct (_ && _) eqn:E2; [|done]. bool_prop.
      replace (Z.to_nat (i - a)) with (S (Z.to_nat (i - (a + 1)))) by lia. done.
    + destruct (_ && _) eqn:E2; [|done]. bool_prop. rewrite Forall_lookup in Hall.
      apply (Hall (Z.to_nat (i - (a + 1)))). apply list_lookup_lookup_total_lt. unfold zlen in *. lia.
Qed.

Lemma nth_seqZ (l : list Z) : (fun c => nth (Z.to_nat c) l 0) <$> seqZ 0 (zlen l) = l.
Proof.
  apply list_eq. intros i. rewrite list_lookup_fmap. destruct (decide (i < length l)%nat) as [Hi|Hi].
  - erewrite (proj2 (lookup_seqZ _ _ _ _)); [|split; [reflexivity|unfold zlen; lia]].
    cbn [fmap option_fmap option_map]. rewrite Z.add_0_l, Nat2Z.id.
    destruct (lookup_lt_is_Some_2 l i Hi) as [x Hx]. rewrite Hx. f_equal. by apply nth_lookup_Some.
  - rewrite lookup_ge_None_2, (lookup_ge_None_2 l); [done|lia|rewrite length_seqZ; unfold zlen; lia].
Qed.

(** In the clear, a row of plaintexts is the row of bytes. *)
Lemma clear_row data rb n i :
  bytes_ok data -> zlen data = n * rb -> 0 < rb -> 0 <= i < n ->
  (@plaintext_entry clear_server data rb 8 i <$> seqZ 0 rb) =
  slice data (i * rb) (i * rb + rb) /\ zlen (slice data (i * rb) (i * rb + rb)) = rb /\
  bytes_ok (slice data (i * rb) (i * rb + rb)).
Proof.
  intros Hok Hz Hrb Hi. assert (row_bytes_at data rb i = slice data (i * rb) (i * rb + rb)) as Hrow.
  { unfold row_bytes_at, slice. f_equal. lia. }
  assert (zlen (slice data (i * rb) (i * rb + rb)) = rb) as Hl.
  { unfold slice, zlen in *. rewrite length_take, length_drop. nia. }
  assert (bytes_ok (slice data (i * rb) (i * rb + rb))) as Hb
    by (unfold slice; by apply bytes_ok_take, bytes_ok_drop).
  split_and!; [|done|done]. rewrite <- (nth_seqZ (slice _ _ _)) at 1. rewrite Hl.
  apply list_fmap_ext. intros k c Hk. unfold plaintext_entry. cbn [read_bits clear_server].
  rewrite Hrow, Z.div_mul by lia. apply Z.mod_small.
  destruct (nth_in_or_default (Z.to_nat c) (slice data (i * rb) (i * rb + rb)) 0) as [Hin| ->]; [|lia].
  unfold bytes_ok in Hb. rewrite List.Forall_forall in Hb. specialize (Hb _ Hin). unfold byte_ok in Hb. lia.
Qed.

#[export] Instance clear_retrieval : @IpirRetrieval clear_ipir clear_server clear_pack.
Proof.
  intros rows bits rb rlwe ypir seed_bytes data n row rng query keys seed pre Hp -> Hrb Hz Hok Hn Hrow Hf matrix Hpre. subst matrix.
  cbn [params_for_simplepir clear_ipir] in Hp. rewrite Z.div_mul in Hp by lia.
  destruct (_ && _) eqn:E; [|done]. injection Hp as <- <-. injection Hf as <- <- <-.
  unfold clear_params in *. cbn [db_rows db_cols ypir_p] in *. rewrite Z.div_mul in * by lia.
  change (trailing_zeros 256) with 8 in *.
  set (matrix := @plaintext_rows clear_server data rb n rb 8) in *.
  assert (take (Z.to_nat n) (unit_query rows row) = (fun k => Z.b2z (k =? row)) <$> seqZ 0 n) as Htake.
  { unfold unit_query. replace rows with (n + (rows - n)) by lia. rewrite seqZ_app, fmap_app by lia.
    apply take_app_length'. rewrite length_fmap, length_seqZ. done. }
  assert (zlen matrix = n) as Hm by (apply plaintext_rows_shape; lia).
  assert (Forall (vec_ok 257 (Z.to_nat rb)) matrix) as Hvec.
  { unfold matrix, plaintext_rows. apply Forall_fmap, Forall_forall. intros i Hi. apply elem_of_seqZ in Hi.
    unfold compose. destruct (clear_row data rb n i Hok Hz Hrb ltac:(lia)) as (-> & Hl & Hb).
    split; [unfold zlen in Hl; lia|]. eapply Forall_impl; [exact Hb|]. unfold byte_ok. intros x Hx. lia. }
  destruct (clear_row data rb n row Hok Hz Hrb Hrow) as (Hr & Hl & _).
  assert (matvec 257 (Z.to_nat rb) matrix (take (Z.to_nat n) (unit_query rows row)) =
    slice data (row * rb) (row * rb + rb)) as Hprod.
  { rewrite Htake, <- Hm, unit_product by (done || lia). rewrite Hm. guards. cbn [andb].
    rewrite Z.sub_0_r, <- Hr. unfold matrix, plaintext_rows.
    apply list_lookup_total_correct. rewrite list_lookup_fmap.
    rewrite (proj2 (lookup_seqZ 0 n (Z.to_nat row) row)) by lia. done. }
  exists [], [], (unit_query rows row), (slice data (row * rb) (row * rb + rb)).
  assert (zlen (unit_query rows row) = rows) as Hu.
  { unfold unit_query, zlen. rewrite length_fmap, length_seqZ. lia. }
  cbn. split_and!; try done.
  - rewrite Hu. unfold div_ceil. apply (Z.div_unique _ 8 rows 7); lia.
  - rewrite take_ge; [done|]. unfold zlen in Hu. lia.
  - apply Forall_fmap, Forall_true. intros k. unfold compose. destruct (k =? row); cbn; lia.
  - by rewrite Hprod.
  - rewrite Hl, Z.div_1_r. lia.
  - pose proof (get_range_app [] (slice data (row * rb) (row * rb + rb)) []) as Hg.
    rewrite app_nil_l, app_nil_r, Hl in Hg. exact Hg.
Qed.

(** ** A published generation in the clear *)

(** One remote worker that accepts every preparation and evaluates over [R]. *)
Definition clear_http (R : Z -> list Z) : @Http unit clear_server := fun n _ call =>
  (Ok {| hp_status := 200; hp_content_length := None;
         hp_chunks := match call with
           | WC_Evaluate _ body =>
               match decode_evaluate_request body with
               | Ok request => [Ok (encode_evaluate_response (er_generation request)
                   (@expected_partial protocol_layouts clear_server Enhance clear_rlwe
                     (clear_params SHARD_ROWS ITEM_SIZE_BITS) R (er_shards request)))]
               | Err _ => []
               end
           | _ => [] end |}, n).

Definition clear_source (R : Z -> list Z) (positions : Z) : TableSource :=
  {| ts_table := Enhance; ts_layout := ENHANCE_LAYOUT; ts_positions := positions; ts_shard_ids := (0, 0);
     ts_read_shard_rows _ := Ok (R 0); ts_populated_positions_in_shard _ := positions |}.

Definition clear_hint : list CrsBlock := replicate 6525 {| cb_rows := [[0]] |}.
Definition clear_digest : string := @hex_encode ascii_hex (replicate 32 7).

(** The coordinator, with the hint of the rows in its cache. *)
Definition clear_table : TableState :=
  {| tb_setup := {| su_table := Enhance; su_groups :=
       [{| wg_name := "g"; wg_replicas := [Remote "w" "http://w"] |}] |};
     tb_rlwe := clear_rlwe; tb_hint_cache := {[hint_key "w" 0 0 clear_digest := clear_hint]};
     tb_query_slots := 2 |}.

Definition clear_state : @CoordinatorState clear_pack :=
  {| co_tables := {[Enhance := clear_table]}; co_live := [];
     co_status := {| cs_phase := Syncing 0 0; cs_non_serving_since := Some 0 |} |}.

Definition clear_world : @World clear_server unit :=
  {| wd_embedded := ∅; wd_net := tt; wd_in_flight _ := 0; wd_writes _ := 3%nat |}.

Definition clear_publish (R : Z -> list Z) :=
  @publish protocol_layouts ascii_hex constant_hash clear_ipir clear_server clear_pack in_order unit
    (clear_http R) clear_state clear_world [clear_source R 1] {| an_height := 3428200; an_hash := "00" |} 0.

Definition clear_coordinator (R : Z -> list Z) : @CoordinatorState clear_pack := snd (fst (clear_publish R)).

Definition clear_snapshot : @TableSnapshot clear_pack :=
  let pp : list Z := [] in
  {| sn_manifest := {| tm_record_bytes := 725; tm_records_per_row := 9; tm_row_bytes := 6525;
       tm_shard_rows := 8192; tm_positions := 1; tm_used_rows := 1; tm_logical_rows := 8192;
       tm_parameter_id := "ironwood-enhance-pir-v1-enhance-d1-p256-rows8192-cols6525";
       tm_setup_seed := ENHANCE_SETUP_SEED;
       tm_public_params_epoch := @hex_encode ascii_hex (replicate 8 7);
       tm_public_params_sha256 := clear_digest;
       tm_shards := [{| sd_shard_id := 0; sd_global_row_start := 0; sd_populated_positions := 1;
         sd_rows_sha256 := clear_digest; sd_sealed := false; sd_worker := "g" |}] |};
     sn_ypir := clear_params 8192 ITEM_SIZE_BITS; sn_preprocessed := (clear_hint : @preprocessed_blocks clear_pack);
     sn_top_key_images := (tt : @top_key_images clear_pack); sn_public_params := pp;
     sn_public_params_epoch := replicate 8 7;
     sn_ready_groups := {["g"%string := {| rg_replicas := [Remote "w" "http://w"]; rg_next := 0 |}]} |}.

Definition clear_generation : @GenerationSnapshot clear_pack :=
  {| gs_manifest := {| gm_anchor_height := 3428200; gm_anchor_block_hash := "00";
       gm_ironwood_tree_size := 1; gm_generation := 3428200;
       gm_tables := {[Enhance := sn_manifest clear_snapshot]} |};
     gs_tables := {[Enhance := clear_snapshot]} |}.

Lemma clear_published R :
  fst (fst (clear_publish R)) = Ok tt /\ newest (clear_coordinator R) = Some clear_generation /\
  co_tables (clear_coordinator R) !! Enhance = Some clear_table /\ snd (clear_publish R) = clear_world.
Proof. split_and!; vm_compute; reflexivity. Qed.

(** A request of one shard, answered by [clear_http]. *)
Lemma clear_evaluates R wd q :
  sq_shard_id q = 0 -> zlen (sq_coefficients q) = 8192 -> reduced 257 (sq_coefficients q) ->
  let request := {| er_generation := 3428200; er_shards := [q] |} in
  @evaluate_worker protocol_layouts clear_ipir clear_server unit (clear_http R) wd (Remote "w" "http://w")
    Enhance request =
  (Ok (@expected_partial protocol_layouts clear_server Enhance clear_rlwe
    (clear_params SHARD_ROWS ITEM_SIZE_BITS) R [q]), set_net wd (wd_net wd)).
Proof.
  intros Hid Hl Hred request. unfold evaluate_worker, http_send, clear_http.
  assert (Forall u64 (sq_coefficients q)) as Hu.
  { eapply Forall_impl; [exact Hred|]. unfold u64, u64_bound. intros x Hx. cbv beta in Hx. lia. }
  rewrite request_roundtrip.
  2:{ split; [unfold u64, u64_bound; cbn; lia|]. split; [vm_compute; split; discriminate|].
      constructor; [|constructor].
      split; [rewrite Hid; unfold u64, u64_bound; lia|]. split; [|done]. rewrite Hl. unfold u32. lia. }
  2:{ rewrite encode_request_eq. cbn [er_shards request fmap list_fmap concat].
      unfold enc_shard, enc_counted. autorewrite with zlen. rewrite zlen_enc_vector, Hl.
      change (zlen EVAL_REQUEST_MAGIC) with 4. rewrite ?zlen_nil. lia. }
  cbn [er_shards er_generation request].
  destruct (@expected_partial_ok protocol_layouts clear_ipir _ clear_server clear_fits Enhance clear_rlwe
    (clear_params SHARD_ROWS ITEM_SIZE_BITS) R [q] eq_refl) as [Hvl Hvr].
  set (v := @expected_partial protocol_layouts clear_server Enhance clear_rlwe _ R [q]) in *.
  assert (zlen v = 6525) as Hz by (unfold zlen; rewrite Hvl; done).
  cbn [map_err hp_status]. change (is_success 200) with true. cbn [negb].
  unfold read_worker_body. cbn [hp_content_length hp_chunks read_body_chunks].
  rewrite zlen_encode_response, Hz. unfold saturating_add64.
  rewrite zlen_nil, Z.min_l by (unfold u64_bound; lia). guards. cbn [app map_err].
  assert (slice_ok (encode_evaluate_response 3428200 v)) as Hs.
  { split; [apply bytes_ok_response|]. rewrite zlen_encode_response, Hz. lia. }
  rewrite (proj2 (evaluate_response_exact _ 3428200 v Hs)); [cbn [map_err]; by rewrite Z.eqb_refl|]. split; [|done].
  split; [unfold u64, u64_bound; lia|]. split; [rewrite Hz; unfold u32; lia|]. eapply Forall_impl; [exact Hvr|].
  unfold u64, u64_bound. intros x Hx. cbv beta in Hx. change (rlwe_q clear_rlwe) with 257 in Hx. lia.
Qed.

Lemma clear_serves R :
  @workers_serve protocol_layouts clear_ipir clear_server clear_pack unit (clear_http R) (fun _ => True)
    3428200 clear_rlwe (clear_params SHARD_ROWS ITEM_SIZE_BITS) clear_snapshot R.
Proof.
  intros query sliced name group qs Hq Hred Hsl Hgr Hqs.
  cbn [sn_ready_groups clear_snapshot] in Hgr. apply lookup_singleton_Some in Hgr as [<- <-].
  change (db_rows (sn_ypir clear_snapshot)) with 8192 in Hq.
  destruct (slice_query_ok query 8192 257 (tm_shards (sn_manifest clear_snapshot)) 0) as
    (sliced' & Hsl' & Hw & Hid & Hall & _); try done.
  { intros [|i] ds Hi; [by injection Hi as <-|done]. }
  { rewrite Hq. done. }
  { rewrite Hq. done. }
  change (shard_rows (layout_of Enhance)) with 8192 in Hsl. rewrite Hsl in Hsl'. injection Hsl' as <-.
  destruct sliced as [|[w q] [|]]; try done. cbn in Hw, Hid. injection Hw as ->. injection Hid as Hid.
  cbn in Hall. apply Forall_cons in Hall as [[Hl Hr] _].
  rewrite group_queries_lookup in Hqs. vm_compute in Hqs. injection Hqs as <-.
  apply singleton_serves. intros wd _. rewrite (clear_evaluates R wd q Hid Hl Hr). done.
Qed.

Lemma stale_bytes : bytes_ok (concat [stale_record] ++ []).
Proof. rewrite app_nil_r. cbn [concat]. rewrite app_nil_r. by apply Forall_replicate. Qed.

(** The source reads the journal's one shard. *)
Lemma clear_source_reads :
  let j := snd (fst one_action) in let d := run_jops (snd one_action) empty_jfiles in
  journal_source (clear_source (shard_data j d) 1) j d.
Proof.
  intros j d. constructor; [reflexivity|change (1 = RecordJournal_tree_size j); vm_compute; reflexivity
    |change ((0, 0) = RecordJournal_shard_ids j); vm_compute; reflexivity|]. intros id Hid.
  assert (snd (RecordJournal_shard_ids j) = 0) as Hs by (vm_compute; reflexivity). rewrite Hs in Hid.
  assert (id = 0) as -> by lia.
  destruct (shard_read j d [stale_record] [] one_action_stored eq_refl stale_bytes 0) as [Hr _];
    [vm_compute; split; [discriminate|reflexivity]|]. rewrite Hr. reflexivity.
Qed.

(** The wallet reads back the one record of a journal. *)
Lemma private_retrieval_exact_witness :
  let j := snd (fst one_action) in let d := run_jops (snd one_action) empty_jfiles in
  let c := clear_coordinator (shard_data j d) in
  exists client,
    @EnhancePirClient_connect ascii_hex constant_hash clear_ipir plain_base64_decode "http://c/"
      (@coordinator_get clear_pack plain_base64 c (fun _ => [])) (fun _ => @session clear_pack plain_base64 c)
      = Ok client /\
    @EnhancePirClient_query_position clear_ipir client
      (@coordinator_post protocol_layouts clear_ipir clear_server clear_pack in_order unit
        (clear_http (shard_data j d)) c clear_world) 0 tt = Ok stale_record.
Proof.
  intros j d c. destruct (clear_published (shard_data j d)) as (Hok & Hnew & Htab & Hwd).
  destruct (@private_retrieval_exact ascii_hex constant_hash _ clear_ipir _ clear_server _ clear_fits
    clear_pack _ _ in_order plain_base64 plain_base64_decode
    ltac:(intros bs Hbs; unfold base64_decode, plain_base64_decode; f_equal; by apply bytes_of_string)
    unit (clear_http (shard_data j d)) (fun _ => True) j d [stale_record] [] (clear_source (shard_data j d) 1)
    clear_state clear_world {| an_height := 3428200; an_hash := "00" |} 0 c clear_world clear_generation
    clear_snapshot clear_table (clear_params SHARD_ROWS ITEM_SIZE_BITS) (fun _ => [])
    (fun _ => @session clear_pack plain_base64 c) "http://c/" 0 stale_record) as (client & Hc & Hq).
  - exact one_action_stored.
  - reflexivity.
  - exact stale_bytes.
  - vm_compute. split; [reflexivity|discriminate].
  - exact clear_source_reads.
  - cbn. unfold u64, u64_bound. lia.
  - intros state Hst. cbn [co_tables clear_state] in Hst. apply lookup_singleton_Some in Hst as [_ <-].
    exists (clear_params SHARD_ROWS ITEM_SIZE_BITS). split; [reflexivity|].
    apply map_Forall_singleton. vm_compute. reflexivity.
  - change (clear_publish (shard_data j d) = (Ok tt, c, clear_world)).
    rewrite (surjective_pairing (clear_publish _)), (surjective_pairing (fst (clear_publish _))), Hok, Hwd. reflexivity.
  - exact Hnew.
  - apply lookup_singleton_eq.
  - exact Htab.
  - reflexivity.
  - reflexivity.
  - split_and!; vm_compute; (reflexivity || discriminate).
  - constructor.
  - exact Logic.I.
  - apply clear_serves.
  - intros s Hs. split; [exact Hs|vm_compute; discriminate].
  - discriminate.
  - reflexivity.
  - exists client. split; [exact Hc|]. apply Hq.
Defined.
