(* ===== verification/Zakura.v ===== *)
(** * The node's JSON-RPC clients

    Models [server/transparent-filter-server/src/zakura.rs] and
    [server/enhance-pir-server/src/zakura.rs]: how one RPC reply becomes a result,
    how a batch reply in any order becomes a positional list of transactions, and
    how a raw block becomes the records and spends the servers store.  The HTTP
    exchange and the JSON it carries are arguments (a reply, already parsed); block
    and transaction deserialization belong to [zakura_chain] and are the classes
    [TxCodec] and [BlockCodec]. *)

From Stdlib Require Import ZArith Lia.
From stdpp Require Import base numbers list strings gmap.
From S2P Require Import Prelude FilterTypes Instances Extract EnhanceTypes RecordJournal SpendTypes.

Open Scope Z_scope.

Inductive ZakuraError :=
| ZE_Http (m : string)
| ZE_Cookie
| ZE_InvalidCookie
| ZE_Rpc (code : Z) (message : string)
| ZE_MissingResult
| ZE_Hex
| ZE_Block (m : string)
| ZE_Transaction (txid m : string)
| ZE_Batch (m : string)
| ZE_MissingTreeSize (height : Z).

Record RpcError := { re_code : Z; re_message : string }.
Record RpcResponse (T : Type) := { rr_result : option T; rr_error : option RpcError }.
Arguments rr_result {T} _.
Arguments rr_error {T} _.

(** A reply: the status, and the parsed body when it parses. *)
Record RpcReply (B : Type) := { rp_status : Z; rp_body : option B }.
Arguments rp_status {B} _.
Arguments rp_body {B} _.

(** [send().await?], the 401 check, [error_for_status()?] and [json().await?]. *)
Definition reply_body {B} (reply : result string (RpcReply B)) : result ZakuraError B :=
  let? response := map_err ZE_Http reply in
  if rp_status response =? 401 then Err ZE_InvalidCookie else
  if (400 <=? rp_status response) && (rp_status response <? 600)
  then Err (ZE_Http "HTTP status error") else
  ok_or (rp_body response) (ZE_Http "error decoding response body").

Definition call {T} (reply : result string (RpcReply (RpcResponse T))) : result ZakuraError T :=
  let? response := reply_body reply in
  match rr_error response with
  | Some error => Err (ZE_Rpc (re_code error) (re_message error))
  | None => ok_or (rr_result response) ZE_MissingResult
  end.

(** ** Transactions, for the filter server *)

(** [Transaction::zcash_deserialize]. *)
Class TxCodec := tx_deserialize : list Z -> result string Transaction.

Record BatchEntry := { be_id : option Z; be_result : option string; be_error : option RpcError }.

Section transactions.
Context `{Hex} `{TxCodec}.

Definition parse_transaction (txid raw_hex : string) : result ZakuraError Transaction :=
  let? raw := ok_or (hex_decode raw_hex) ZE_Hex in
  map_err (ZE_Transaction txid) (tx_deserialize raw).

Definition ZakuraClient_transaction (txid : string)
    (reply : result string (RpcReply (RpcResponse string))) :
    result ZakuraError (option Transaction) :=
  match call reply with
  | Ok raw_hex => let? transaction := parse_transaction txid raw_hex in Ok (Some transaction)
  | Err (ZE_Rpc code message) => if code =? -5 then Ok None else Err (ZE_Rpc code message)
  | Err error => Err error
  end.

(** What one entry of the batch contributes at its index. *)
Definition entry_value (txid : string) (entry : BatchEntry) : result ZakuraError (option Transaction) :=
  match be_error entry with
  | Some error =>
      if re_code error =? -5 then Ok None else Err (ZE_Rpc (re_code error) (re_message error))
  | None =>
      let? raw_hex := ok_or (be_result entry) (ZE_Batch "batch entry has no result") in
      let? transaction := parse_transaction txid raw_hex in
      Ok (Some transaction)
  end.

(** The loop over the entries; [out] and [seen] have one cell per requested id. *)
Fixpoint place_batch (txids : list string) (entries : list BatchEntry)
    (out : list (option Transaction)) (seen : list bool) :
    result ZakuraError (list (option Transaction)) :=
  match entries with
  | [] =>
      if existsb negb seen then Err (ZE_Batch "batch response is missing an entry") else Ok out
  | entry :: entries =>
      let? index := ok_or (be_id entry) (ZE_Batch "batch response entry has no id") in
      if (index <? 0) || (zlen txids <=? index)
      then Err (ZE_Batch "batch id {index} is out of range") else
      if default false (seen !! Z.to_nat index)
      then Err (ZE_Batch "batch id {index} appeared twice") else
      let seen := <[Z.to_nat index := true]> seen in
      let? value := entry_value (default ""%string (txids !! Z.to_nat index)) entry in
      let out := match value with Some t => <[Z.to_nat index := Some t]> out | None => out end in
      place_batch txids entries out seen
  end.

Definition ZakuraClient_transactions (txids : list string)
    (reply : result string (RpcReply (list BatchEntry))) :
    result ZakuraError (list (option Transaction)) :=
  match txids with
  | [] => Ok []
  | _ =>
      let? entries := reply_body reply in
      if negb (zlen entries =? zlen txids)
      then Err (ZE_Batch "asked for {} transactions, got {}") else
      place_batch txids entries (replicate (length txids) None) (replicate (length txids) false)
  end.
End transactions.

(** ** Blocks, for the Enhance server *)

(** A transaction of a block, as the Enhance server reads it. *)
Record ShieldedTransaction := {
  st_hash : list Z; st_has_transparent_inputs : bool; st_has_transparent_outputs : bool;
  st_actions : list (list Z * list Z * list Z * list Z);
  st_spent_outpoints : list OutPoint }.

Class BlockCodec := block_deserialize : list Z -> result string (string * list ShieldedTransaction).

Definition transaction_records (t : ShieldedTransaction) : list EnhanceRecord :=
  (fun '(ephemeral_key, enc_ciphertext, cv_net, out_ciphertext) =>
     EnhanceRecord_from_parts {|
       ephemeral_key := ephemeral_key; enc_ciphertext := enc_ciphertext; cv_net := cv_net;
       out_ciphertext := out_ciphertext;
       has_transparent_inputs := st_has_transparent_inputs t;
       has_transparent_outputs := st_has_transparent_outputs t |}) <$> st_actions t.

Fixpoint block_spends (spend_height index : Z) (transactions : list ShieldedTransaction) :
    result ZakuraError (list TransparentSpendEntry) :=
  match transactions with
  | [] => Ok []
  | t :: transactions =>
      if 2 ^ 16 <=? index then Err (ZE_Block "block {height} has too many transactions") else
      let spends := (fun outpoint => {|
        outpoint_txid := fst outpoint; outpoint_index := snd outpoint; spending_txid := st_hash t;
        spend_height := spend_height; transaction_index := index |}) <$> st_spent_outpoints t in
      let? rest := block_spends spend_height (index + 1) transactions in
      Ok (spends ++ rest)
  end.

Section blocks.
Context `{Hex} `{BlockCodec}.

Definition ZakuraClient_tree_size (height : Z)
    (reply : result string (RpcReply (RpcResponse (option Z)))) : result ZakuraError Z :=
  let? ironwood := call reply in
  ok_or ironwood (ZE_MissingTreeSize height).

(** [raw] and [verbose] are the replies to the two [getblock] calls; the second is
    only made at and above activation. *)
Definition ZakuraClient_block (height : Z) (raw : result string (RpcReply (RpcResponse string)))
    (verbose : result string (RpcReply (RpcResponse (option Z)))) :
    result ZakuraError (CanonicalBlock * list TransparentSpendEntry) :=
  let? raw_hex := call raw in
  let? raw := ok_or (hex_decode raw_hex) ZE_Hex in
  let? (hash, transactions) := map_err ZE_Block (block_deserialize raw) in
  let records := concat (transaction_records <$> transactions) in
  if 2 ^ 32 <=? height then Err (ZE_Block "block height {height} exceeds u32") else
  let? transparent_spends := block_spends height 0 transactions in
  let? tree_size :=
    if ACTIVATION_HEIGHT <=? height then ZakuraClient_tree_size height verbose else Ok 0 in
  Ok ({| cb_height := height; cb_hash := hash; cb_records := records; cb_tree_size := tree_size |},
      transparent_spends).
End blocks.

(** ** The batch loop *)

Section batch.
Context `{Hex} `{TxCodec} (txids : list string).

Let n := zlen txids.

(** Every id from [0] to [n - 1], once, of those not seen. *)
Definition ids_once (entries : list BatchEntry) (seen : list bool) : Prop :=
  NoDup (be_id <$> entries) /\
  forall o, o ∈ be_id <$> entries <->
    exists i, o = Some i /\ 0 <= i < n /\ seen !! Z.to_nat i = Some false.

Definition values_placed (entries : list BatchEntry) (out : list (option Transaction)) : Prop :=
  forall e i, e ∈ entries -> be_id e = Some i ->
  exists v, out !! Z.to_nat i = Some v /\
    entry_value (default ""%string (txids !! Z.to_nat i)) e = Ok v.

Lemma all_seen seen : existsb negb seen = false <-> forall k, seen !! k <> Some false.
Proof.
  induction seen as [|b seen IH]; cbn [existsb]; [split; [by intros _ k|done]|].
  rewrite orb_false_iff, IH. split.
  - intros [Hb Hs] [|k]; [by destruct b|apply Hs].
  - intros Hs. split; [|intros k; apply (Hs (S k))]. specialize (Hs 0%nat). by destruct b.
Qed.

(** Marking an id seen and storing its value. *)
Lemma ids_once_cons e entries seen i :
  be_id e = Some i -> 0 <= i < n -> seen !! Z.to_nat i = Some false ->
  ids_once (e :: entries) seen <-> ids_once entries (<[Z.to_nat i := true]> seen).
Proof.
  intros He Hi Hs. unfold ids_once. cbn [fmap list_fmap]. rewrite NoDup_cons, He.
  assert (forall j, 0 <= j < n -> <[Z.to_nat i := true]> seen !! Z.to_nat j = Some false <->
    j <> i /\ seen !! Z.to_nat j = Some false) as Hins.
  { intros j Hj. destruct (decide (j = i)) as [->|Hne].
    - rewrite list_lookup_insert_eq by (by eapply lookup_lt_Some). split; [done|]. by intros [? _].
    - rewrite list_lookup_insert_ne by lia. tauto. }
  split.
  - intros [[Hni Hnd] Hids]. split; [done|]. intros o. split.
    + intros Ho. destruct (proj1 (Hids o)) as (j & -> & Hj & Hsj); [set_solver|].
      exists j. rewrite Hins by done. split_and!; try done; try lia. intros ->. done.
    + intros (j & -> & Hj & Hsj). apply Hins in Hsj as [Hne Hsj]; [|done].
      assert (Some j ∈ Some i :: (be_id <$> entries)) as Hin by (apply Hids; by exists j).
      apply elem_of_cons in Hin as [[= ->]|Hin]; done.
  - intros [Hnd Hids]. split; [split; [|done]|].
    + intros Hin. apply Hids in Hin as (j & [= <-] & Hj & Hsj). by apply Hins in Hsj as [? _].
    + intros o. rewrite elem_of_cons, Hids. split.
      * intros [->|(j & -> & Hj & Hsj)]; [by exists i|]. exists j. apply Hins in Hsj as [_ ?]; [|done].
        done.
      * intros (j & -> & Hj & Hsj). destruct (decide (j = i)) as [->|Hne]; [by left|right].
        exists j. split_and!; try done; try lia. by apply Hins.
Qed.

Definition store (out : list (option Transaction)) (i : Z) (v : option Transaction) :=
  match v with Some t => <[Z.to_nat i := Some t]> out | None => out end.

Lemma store_lookup out i v :
  out !! Z.to_nat i = Some None -> store out i v !! Z.to_nat i = Some v.
Proof.
  intros Ho. destruct v as [t|]; [|done]. cbn. apply list_lookup_insert_eq. by eapply lookup_lt_Some.
Qed.

Lemma store_lookup_ne out i v k : k <> Z.to_nat i -> store out i v !! k = out !! k.
Proof. intros Hk. destruct v as [t|]; [|done]. cbn. by apply list_lookup_insert_ne. Qed.

Lemma values_placed_cons e entries out i :
  be_id e = Some i ->
  values_placed (e :: entries) out <->
  (exists v, out !! Z.to_nat i = Some v /\
     entry_value (default ""%string (txids !! Z.to_nat i)) e = Ok v) /\ values_placed entries out.
Proof.
  intros He. unfold values_placed. split.
  - intros Hv. split; [apply (Hv e i); [set_solver|done]|].
    intros e' j Hin Hj. apply (Hv e' j); [set_solver|done].
  - intros [Hi Hv] e' j Hin Hj. apply elem_of_cons in Hin as [->|Hin]; [|by apply Hv].
    rewrite He in Hj. by injection Hj as <-.
Qed.

(** With no entry left every id must have been seen. *)
Lemma place_batch_done out seen out' :
  length out = length txids -> length seen = length txids ->
  place_batch txids [] out seen = Ok out' <->
  ids_once [] seen /\ values_placed [] out' /\ length out' = length txids /\
  (forall k, seen !! k = Some true -> out' !! k = out !! k).
Proof.
  intros Ho Hs. cbn [place_batch].
  destruct (existsb negb seen) eqn:E; [|rewrite all_seen in E]; unfold ids_once, values_placed.
  - split; [done|]. intros ([_ Hids] & _). exfalso. rewrite <- not_false_iff_true, all_seen in E.
    apply E. intros k Hk. assert (k < length txids)%nat by (rewrite <- Hs; by eapply lookup_lt_Some).
    eapply not_elem_of_nil, (proj2 (Hids (Some (Z.of_nat k)))).
    exists (Z.of_nat k). rewrite Nat2Z.id. split_and!; [done|lia|unfold n, zlen; lia|done].
  - split.
    + intros [= <-]. split_and!; [constructor| |set_solver|done|done].
      intros o. split; [set_solver|]. intros (i & _ & _ & Hi). by apply E in Hi.
    + intros (_ & _ & Hl & Hk). f_equal. apply list_eq. intros k.
      destruct (seen !! k) as [[]|] eqn:Ek; [by rewrite Hk|by apply E in Ek|].
      apply lookup_ge_None in Ek. rewrite !lookup_ge_None_2 by lia. done.
Qed.

(** Cells not seen are still [None]; cells seen keep their value. *)
Lemma place_batch_spec entries out seen out' :
  length out = length txids -> length seen = length txids ->
  (forall k, seen !! k = Some false -> out !! k = Some None) ->
  place_batch txids entries out seen = Ok out' <->
  ids_once entries seen /\ values_placed entries out' /\ length out' = length txids /\
  (forall k, seen !! k = Some true -> out' !! k = out !! k).
Proof.
  revert out seen. induction entries as [|e entries IH]; intros out seen Ho Hs Hnone; cbn [place_batch].
  { by apply place_batch_done. }
  assert (forall P : Prop, (forall i, be_id e = Some i -> 0 <= i < n -> seen !! Z.to_nat i = Some false -> P) ->
    ids_once (e :: entries) seen -> P) as Hhead.
  { intros P HP [_ Hids]. destruct (proj1 (Hids (be_id e))) as (i & Hi & Hr & Hsi);
      [cbn; set_solver|].
    by apply (HP i). }
  destruct (be_id e) as [i|] eqn:He; cbn [ok_or]; [|split; [done|]; intros [Hids _]; by eapply Hhead].
  destruct ((i <? 0) || (zlen txids <=? i)) eqn:Er.
  { split; [done|]. intros [Hids _]. exfalso. apply (Hhead False); [|done]. unfold n.
    intros j [= <-] Hj _. bool_prop. destruct Er; bool_prop; lia. }
  bool_prop. destruct (lookup_lt_is_Some_2 seen (Z.to_nat i)) as [b Hb]; [unfold zlen in *; lia|].
  rewrite Hb. cbn [default from_option id]. destruct b.
  { split; [done|]. intros [Hids _]. exfalso. apply (Hhead False); [|done].
    intros j [= <-] _. rewrite Hb. done. }
  rewrite values_placed_cons, (ids_once_cons e entries seen i) by (done || unfold n; lia).
  destruct (entry_value _ e) as [v|err] eqn:Ev; [|split; [done|]; by intros (_ & [(? & _ & ?) _] & _)].
  change (match v with Some t => <[Z.to_nat i := Some t]> out | None => out end) with (store out i v).
  rewrite IH.
  - assert (forall k, <[Z.to_nat i := true]> seen !! k = Some true <->
      k = Z.to_nat i \/ (k <> Z.to_nat i /\ seen !! k = Some true)) as Hins.
    { intros k. destruct (decide (k = Z.to_nat i)) as [->|Hne].
      - rewrite list_lookup_insert_eq by (by eapply lookup_lt_Some). tauto.
      - rewrite list_lookup_insert_ne by done. tauto. }
    pose proof (store_lookup out i v (Hnone _ Hb)) as Hst. split.
    + intros (Hids & Hv & Hl & Hk). split_and!; try done.
      * exists v. split; [|done]. rewrite Hk; [done|]. apply Hins. by left.
      * intros k Hsk. assert (k <> Z.to_nat i) by (intros ->; congruence).
        rewrite Hk, store_lookup_ne; [done|done|]. apply Hins. by right.
    + intros (Hids & [(v' & Hv' & Hev) Hv] & Hl & Hk). split_and!; try done.
      intros k Hsk. apply Hins in Hsk as [->|[Hne Hsk]].
      * injection Hev as ->. by rewrite Hv', Hst.
      * rewrite store_lookup_ne by done. by apply Hk.
  - destruct v; [cbn; by rewrite length_insert|done].
  - by rewrite length_insert.
  - intros k Hk. destruct (decide (k = Z.to_nat i)) as [->|Hne].
    + by rewrite list_lookup_insert_eq in Hk by (by eapply lookup_lt_Some).
    + rewrite store_lookup_ne by done. apply Hnone. by rewrite list_lookup_insert_ne in Hk.
Qed.
End batch.

(** ** Properties *)

Lemma ids_length (entries : list BatchEntry) (m : nat) :
  NoDup (be_id <$> entries) ->
  (forall o, o ∈ be_id <$> entries <-> exists i, o = Some i /\ 0 <= i < Z.of_nat m) ->
  length entries = m.
Proof.
  intros Hn Hids.
  assert (Permutation (be_id <$> entries) (Some <$> seqZ 0 (Z.of_nat m))) as Hp.
  { apply NoDup_Permutation; [done|apply NoDup_fmap_2; [apply _|apply NoDup_seqZ]|].
    intros o. rewrite Hids, list_elem_of_fmap. setoid_rewrite elem_of_seqZ.
    split; intros (i & -> & Hi); exists i; (split; [done|lia]). }
  apply Permutation_length in Hp. rewrite !length_fmap, length_seqZ in Hp. lia.
Qed.

(** A batch reply is read by id, not by position.  For a nonempty request,
    [transactions] accepts a reply exactly when every id from 0 to one less than
    the number of requested transactions occurs once and every entry has a value,
    and then the [i]-th result is the value of the entry that carries id [i]
    ([None] for "no such transaction"): the order of the entries does not matter,
    and a missing, repeated, foreign or absent id is always an error. *)
Theorem transactions_exact `{Hex} `{TxCodec} txids entries status out :
  txids <> [] -> 200 <= status < 300 ->
  ZakuraClient_transactions txids (Ok {| rp_status := status; rp_body := Some entries |}) = Ok out <->
  length out = length txids /\ NoDup (be_id <$> entries) /\
  (forall o, o ∈ be_id <$> entries <-> exists i, o = Some i /\ 0 <= i < zlen txids) /\
  (forall e i, e ∈ entries -> be_id e = Some i ->
     exists v, out !! Z.to_nat i = Some v /\
       entry_value (default ""%string (txids !! Z.to_nat i)) e = Ok v).
Proof.
  intros Hne Hst. unfold ZakuraClient_transactions, reply_body. cbn [map_err rp_status rp_body].
  guards. cbn [andb ok_or].
  assert (forall k : nat, (k < length txids)%nat -> replicate (length txids) false !! k = Some false) as Hrep
    by (intros; by apply lookup_replicate_2).
  destruct (place_batch_spec txids entries (replicate (length txids) None) (replicate (length txids) false) out)
    as [Hto Hfrom]; [by rewrite length_replicate..| |].
  { intros k Hk. apply lookup_replicate in Hk as [_ Hk]. by apply lookup_replicate_2. }
  assert (ids_once txids entries (replicate (length txids) false) <->
    NoDup (be_id <$> entries) /\
    forall o, o ∈ be_id <$> entries <-> exists i, o = Some i /\ 0 <= i < zlen txids) as Hids.
  { unfold ids_once. apply and_iff_compat_l. split; intros Hall o; rewrite Hall; clear Hall;
      split; intros (i & -> & Hi).
    - exists i. by destruct Hi as [Hi _].
    - exists i. split_and!; [done|lia|lia|]. apply Hrep. unfold zlen in Hi. lia.
    - exists i. split_and!; [done|lia|lia|]. apply Hrep. unfold zlen in Hi. lia.
    - exists i. by destruct Hi as [Hi _]. }
  destruct txids as [|x txids]; [done|]. set (ids := x :: txids) in *. split.
  - intros Hok. destruct (negb (zlen entries =? zlen ids)); [done|].
    apply Hto in Hok as (Ho & Hv & Hl & _). apply Hids in Ho as [Hn Ho]. done.
  - intros (Hl & Hn & Ho & Hv). rewrite (proj2 (Z.eqb_eq _ _)).
    + cbn [negb]. apply Hfrom. split_and!; [by apply Hids|done|done|].
      intros k Hk. by apply lookup_replicate in Hk as [? _].
    + unfold zlen. by rewrite (ids_length entries (length ids) Hn Ho).
Qed.

Definition one_output_tx (n : Z) : Transaction :=
  {| tx_hash := [n]; tx_inputs := []; tx_outputs := [[n]] |}.
Definition toy_codec : TxCodec := fun bs => match bs with [n] => Ok (one_output_tx n) | _ => Err "bytes"%string end.
Definition toy_entry (id : Z) (raw : string) : BatchEntry :=
  {| be_id := Some id; be_result := Some raw; be_error := None |}.

(** Two transactions, answered in the opposite order. *)
Lemma transactions_exact_witness :
  @ZakuraClient_transactions ascii_hex toy_codec ["a"; "b"]%string
    (Ok {| rp_status := 200; rp_body := Some [toy_entry 1 "02"; toy_entry 0 "01"] |}) =
  Ok [Some (one_output_tx 1); Some (one_output_tx 2)].
Proof.
  apply (@transactions_exact ascii_hex toy_codec ["a"; "b"]%string
    [toy_entry 1 "02"; toy_entry 0 "01"] 200).
  - discriminate.
  - lia.
  - split; [reflexivity|]. split; [refine (bool_decide_eq_true_1 _ _); vm_compute; reflexivity|]. split.
    + intros o. cbn. rewrite !elem_of_cons, elem_of_nil. change (zlen ["a"; "b"]%string) with 2. split.
      * intros [->|[->|[]]]; [exists 1|exists 0]; (split; [reflexivity|lia]).
      * intros (i & -> & Hi). assert (i = 0 \/ i = 1) as [->| ->] by lia; auto.
    + intros e i Hin Hi. cbn in Hin. rewrite !elem_of_cons, elem_of_nil in Hin.
      destruct Hin as [->|[->|[]]]; injection Hi as <-; eexists; (split; [reflexivity|vm_compute; reflexivity]).
Defined.

(** Every spend entry that a block yields fits its 80-byte encoding. *)
Lemma block_spends_ok h index txs spends :
  u32 h -> 0 <= index ->
  Forall (fun t => hash_ok (st_hash t) /\
    Forall (fun o => hash_ok (fst o) /\ u32 (snd o)) (st_spent_outpoints t)) txs ->
  block_spends h index txs = Ok spends -> Forall entry_ok spends.
Proof.
  intros Hh. revert index spends. induction txs as [|t txs IH]; intros index spends Hi Htxs Hb; cbn in Hb.
  { injection Hb as <-. constructor. }
  apply Forall_cons in Htxs as [[Ht Ho] Htxs]. case_match; [discriminate|]. bool_prop.
  destruct (block_spends h (index + 1) txs) as [rest|] eqn:Er; [|done]. injection Hb as <-.
  apply Forall_app. split; [|eapply (IH (index + 1)); [lia|exact Htxs|exact Er]].
  apply Forall_fmap. eapply Forall_impl; [exact Ho|]. intros o [H1 H2].
  split_and!; cbn; try assumption; unfold u16; lia.
Qed.
