(* ===== verification/SpendTable.v ===== *)
(** * The transparent-spend log and its bucket tables

    Models [server/enhance-pir-server/src/spend.rs]: the append-only spend
    journal with its checkpoint, and the cold and warm bucket tables built from
    it.  Writes are sequences of
    file operations; bytes appended since the last [sync_all] are pending, and a
    crash may lose any number of pending bytes of either file.  The theorems show
    that a reopened journal is the one of the last completed [sync], that the
    tables give for every outpoint the entry of the log that spends it, and when
    the size search of [BucketTable::build] ends. *)

From Stdlib Require Import ZArith Lia.
From stdpp Require Import base numbers list strings gmap.
From S2P Require Import Prelude FilterTypes Instances EnhanceTypes RecordJournal SpendTypes.

Open Scope Z_scope.

Definition INDEX_MAGIC : list Z := string_bytes "TSPBLK01".
Definition BLOCK_BYTES : Z := 56.

Record SpendBlock := {
  sb_height : Z; sb_hash : string; sb_first_position : Z; sb_entry_count : Z }.

(** ** The directory *)

(** [None]: the file does not exist. *)
Record sfiles := {
  spf_entries : option (list Z); spf_blocks : option (list Z); spf_checkpoint : option (list Z) }.

Inductive sname := Entries | Blocks.

Inductive sop :=
| SAppend (n : sname) (bs : list Z)
| SSetLen (n : sname) (len : Z)
| SSync (n : sname)
| SRename (checkpoint : list Z).

(** The files, and how many bytes at the end of each are not yet synced. *)
Record sdisk := { sd_live : sfiles; sd_pending_entries : nat; sd_pending_blocks : nat }.

Definition sfile (d : sfiles) (n : sname) : list Z :=
  default [] (match n with Entries => spf_entries d | Blocks => spf_blocks d end).

Definition set_sfile (d : sfiles) (n : sname) (bs : list Z) : sfiles :=
  match n with
  | Entries => {| spf_entries := Some bs; spf_blocks := spf_blocks d; spf_checkpoint := spf_checkpoint d |}
  | Blocks => {| spf_entries := spf_entries d; spf_blocks := Some bs; spf_checkpoint := spf_checkpoint d |}
  end.

Definition pending (d : sdisk) (n : sname) : nat :=
  match n with Entries => sd_pending_entries d | Blocks => sd_pending_blocks d end.

Definition with_sfile (d : sdisk) (n : sname) (bs : list Z) (p : nat) : sdisk := {|
  sd_live := set_sfile (sd_live d) n bs;
  sd_pending_entries := match n with Entries => p | Blocks => sd_pending_entries d end;
  sd_pending_blocks := match n with Blocks => p | Entries => sd_pending_blocks d end |}.

(** A cut takes effect when it runs; what it leaves of the pending bytes stays
    pending. *)
Definition run_sop (d : sdisk) (o : sop) : sdisk :=
  match o with
  | SAppend n bs => with_sfile d n (sfile (sd_live d) n ++ bs) (pending d n + length bs)
  | SSetLen n len =>
      let bs := sfile (sd_live d) n in
      with_sfile d n (jset_len bs len) (pending d n - (length bs - Z.to_nat len))
  | SSync n => with_sfile d n (sfile (sd_live d) n) 0
  | SRename bs =>
      {| sd_live := {| spf_entries := spf_entries (sd_live d); spf_blocks := spf_blocks (sd_live d);
                       spf_checkpoint := Some bs |};
         sd_pending_entries := sd_pending_entries d; sd_pending_blocks := sd_pending_blocks d |}
  end.

Definition run_sops (os : list sop) (d : sdisk) : sdisk := foldl run_sop d os.

Definition lose (k : nat) (bs : list Z) : list Z := take (length bs - k) bs.

(** The files a crash during [os] can leave. *)
Inductive spend_crash : list sop -> sdisk -> sfiles -> Prop :=
| spend_crash_now os d k1 k2 :
    (k1 <= sd_pending_entries d)%nat -> (k2 <= sd_pending_blocks d)%nat ->
    spend_crash os d
      {| spf_entries := lose k1 <$> spf_entries (sd_live d);
         spf_blocks := lose k2 <$> spf_blocks (sd_live d);
         spf_checkpoint := spf_checkpoint (sd_live d) |}
| spend_crash_later o os d d' : spend_crash os (run_sop d o) d' -> spend_crash (o :: os) d d'.

(** ** SpendJournal *)

Record SpendJournal := { sj_blocks : list SpendBlock }.

Definition next_position (blocks : list SpendBlock) : Z :=
  match last blocks with
  | None => 0
  | Some block => wrap64 (sb_first_position block + sb_entry_count block)
  end.

Section journal.
Context `{Hex}.

(** The block loop of [open]. *)
Fixpoint parse_blocks (records : list (list Z)) (blocks : list SpendBlock) :
    result string (list SpendBlock) :=
  match records with
  | [] => Ok blocks
  | record :: records =>
      let height := le_val (slice record 0 8) in
      let hash := hex_encode (slice record 8 40) in
      let first_position := le_val (slice record 40 48) in
      let entry_count := le_val (slice record 48 56) in
      if match last blocks with
         | Some last =>
             negb (wrap64 (sb_height last + 1) =? height) ||
             negb (wrap64 (sb_first_position last + sb_entry_count last) =? first_position)
         | None => false
         end
      then Err "non-contiguous transparent-spend block index"%string
      else parse_blocks records
             (blocks ++ [{| sb_height := height; sb_hash := hash;
                            sb_first_position := first_position; sb_entry_count := entry_count |}])
  end.

Definition SpendJournal_open (d : sfiles) : result string SpendJournal * sfiles :=
  let entries := default [] (spf_entries d) in
  let encoded := default INDEX_MAGIC (spf_blocks d) in
  let checkpoint := default (le_bytes 8 0) (spf_checkpoint d) in
  let files es bs :=
    {| spf_entries := Some es; spf_blocks := Some bs; spf_checkpoint := Some checkpoint |} in
  let magic_len := zlen INDEX_MAGIC in
  if negb (bool_decide (get_range encoded 0 magic_len = Some INDEX_MAGIC))
  then (Err "invalid transparent-spend block index"%string, files entries encoded) else
  match get_range checkpoint 0 8 with
  | None => (Err "failed to fill whole buffer"%string, files entries encoded)
  | Some bytes =>
  let committed_blocks := le_val bytes in
  let complete_blocks := (zlen encoded - magic_len) / BLOCK_BYTES in
  if complete_blocks <? committed_blocks
  then (Err "transparent-spend checkpoint exceeds block index"%string, files entries encoded) else
  let encoded := take (Z.to_nat (magic_len + committed_blocks * BLOCK_BYTES)) encoded in
  let records := drop (Z.to_nat magic_len) encoded in
  let encoded :=
    if zlen records mod BLOCK_BYTES =? 0 then encoded
    else take (Z.to_nat (magic_len + zlen records / BLOCK_BYTES * BLOCK_BYTES)) encoded in
  let records := drop (Z.to_nat magic_len) encoded in
  match parse_blocks (chunks_exact (length records) (Z.to_nat BLOCK_BYTES) records) [] with
  | Err e => (Err e, files entries encoded)
  | Ok blocks =>
      (Ok {| sj_blocks := blocks |},
       files (jset_len entries (wrap64 (next_position blocks * SPEND_ENTRY_BYTES))) encoded)
  end end.

Definition SpendJournal_committed_height (j : SpendJournal) : option Z := sb_height <$> last (sj_blocks j).
Definition SpendJournal_last_block (j : SpendJournal) : option SpendBlock := last (sj_blocks j).

Definition spend_index_record (height : Z) (hash_bytes : list Z) (first_position entry_count : Z) : list Z :=
  let record := replicate (Z.to_nat BLOCK_BYTES) 0 in
  let record := write_at record 0 (le_bytes 8 height) in
  let record := write_at record 8 hash_bytes in
  let record := write_at record 40 (le_bytes 8 first_position) in
  write_at record 48 (le_bytes 8 entry_count).

Definition SpendJournal_append_block (j : SpendJournal) (height : Z) (hash : string)
    (entries : list TransparentSpendEntry) : result string unit * SpendJournal * list sop :=
  if match last (sj_blocks j) with
     | Some previous => negb (wrap64 (sb_height previous + 1) =? height)
     | None => false
     end
  then (Err "transparent-spend blocks must be contiguous"%string, j, []) else
  match hex_decode hash with
  | Some hash_bytes =>
      if negb (zlen hash_bytes =? 32) then (Err "invalid block hash"%string, j, []) else
      let first_position := next_position (sj_blocks j) in
      (Ok tt,
       {| sj_blocks := sj_blocks j ++
            [{| sb_height := height; sb_hash := hash; sb_first_position := first_position;
                sb_entry_count := zlen entries |}] |},
       ((fun e => SAppend Entries (TransparentSpendEntry_to_bytes e)) <$> entries) ++
       [SAppend Blocks (spend_index_record height hash_bytes first_position (zlen entries))])
  | None => (Err "invalid block hash"%string, j, [])
  end.

(** The temporary checkpoint file is synced before it is renamed. *)
Definition SpendJournal_sync (j : SpendJournal) : list sop :=
  [SSync Entries; SSync Blocks; SRename (le_bytes 8 (zlen (sj_blocks j)))].

Fixpoint collect_entries (chunks : list (list Z)) : result string (list TransparentSpendEntry) :=
  match chunks with
  | [] => Ok []
  | encoded :: chunks =>
      let? e := ok_or (TransparentSpendEntry_from_bytes encoded)
                  "malformed transparent-spend entry"%string in
      let? es := collect_entries chunks in
      Ok (e :: es)
  end.

Definition SpendJournal_read_entries (d : sfiles) (first count : Z) :
    result string (list TransparentSpendEntry) :=
  let from := wrap64 (first * SPEND_ENTRY_BYTES) in
  let size := wrap64 (count * SPEND_ENTRY_BYTES) in
  let? bytes :=
    if size =? 0 then Ok []
    else ok_or (get_range (sfile d Entries) from (from + size)) "failed to fill whole buffer"%string in
  collect_entries (chunks_exact (length bytes) (Z.to_nat SPEND_ENTRY_BYTES) bytes).

Definition SpendJournal_rewind_to_height (j : SpendJournal) (height : option Z) :
    SpendJournal * list sop :=
  let keep :=
    match height with
    | None => 0%nat
    | Some height => partition_point (fun block => sb_height block <=? height) (sj_blocks j)
    end in
  let j' := {| sj_blocks := take keep (sj_blocks j) |} in
  (j', [SSetLen Entries (wrap64 (next_position (sj_blocks j') * SPEND_ENTRY_BYTES));
        SSetLen Blocks (zlen INDEX_MAGIC + Z.of_nat keep * BLOCK_BYTES)] ++ SpendJournal_sync j').
End journal.

(** ** BucketTable *)

Record BucketTable := { bt_table : DatabaseId; bt_buckets : Z; bt_rows : list Z }.

(** How a call ends: with a value, by a panic, or not within the fuel. *)
Inductive run (A : Type) :=
| Returned (a : A)
| Panicked
| OutOfFuel.
Arguments Returned {A} a.
Arguments Panicked {A}.
Arguments OutOfFuel {A}.

Definition ISIZE_MAX : Z := 2 ^ 63 - 1.

Section tables.
Context `{Sha256}.

(** The entry loop: the filled rows, or [None] when a bucket overflows. *)
Fixpoint place_entries (buckets : Z) (entries : list TransparentSpendEntry) (rows : list Z)
    (fill : list Z) : run (option (list Z)) :=
  match entries with
  | [] => Returned (Some rows)
  | entry :: entries =>
      match bucket_for_outpoint (outpoint_txid entry) (outpoint_index entry) buckets with
      | None => Panicked
      | Some bucket =>
      match fill !! Z.to_nat bucket with
      | None => Panicked
      | Some slot =>
          if slot =? SPEND_BUCKET_CAPACITY then Returned None else
          let start := wrap64 (bucket * SPEND_ROW_BYTES + slot * SPEND_ENTRY_BYTES) in
          if zlen rows <? start + SPEND_ENTRY_BYTES then Panicked else
          place_entries buckets entries (write_at rows start (TransparentSpendEntry_to_bytes entry))
            (<[Z.to_nat bucket := (slot + 1) mod 2 ^ 8]> fill)
      end end
  end.

(** [vec![0; n]] panics above [isize::MAX] bytes. *)
Fixpoint build_loop (fuel : nat) (table : DatabaseId) (entries : list TransparentSpendEntry)
    (buckets : Z) : run (result string BucketTable) :=
  match fuel with
  | O => OutOfFuel
  | S fuel =>
      let bytes := wrap64 (buckets * SPEND_ROW_BYTES) in
      if (ISIZE_MAX <? bytes) || (ISIZE_MAX <? buckets) then Panicked else
      match place_entries buckets entries (replicate (Z.to_nat bytes) 0)
              (replicate (Z.to_nat buckets) 0) with
      | Panicked => Panicked
      | OutOfFuel => OutOfFuel
      | Returned (Some rows) =>
          Returned (Ok {| bt_table := table; bt_buckets := buckets; bt_rows := rows |})
      | Returned None =>
          match checked_mul64 buckets 2 with
          | None => Returned (Err "transparent spend table size overflow"%string)
          | Some buckets => build_loop fuel table entries buckets
          end
      end
  end.

(** Every iteration doubles a number of buckets that stays below [2^64]. *)
Definition BucketTable_build (table : DatabaseId) (entries : list TransparentSpendEntry) :
    run (result string BucketTable) :=
  if bool_decide (table = Enhance)
  then Returned (Err "not a transparent spend table"%string)
  else build_loop 64 table entries (bucket_count (zlen entries)).

(** First and last shard. *)
Definition BucketTable_shard_ids (t : BucketTable) : Z * Z :=
  (0, (bt_buckets t - 1) / shard_rows TRANSPARENT_SPEND_LAYOUT).

Definition BucketTable_read_shard_rows (t : BucketTable) (shard_id : Z) : result string (list Z) :=
  let start := wrap64 (shard_id * shard_rows TRANSPARENT_SPEND_LAYOUT) in
  if bt_buckets t <=? start then Err "shard {shard_id} is outside the table"%string else
  let stop := Z.min (start + shard_rows TRANSPARENT_SPEND_LAYOUT) (bt_buckets t) in
  let shard := replicate (Z.to_nat (DatabaseLayout_shard_bytes TRANSPARENT_SPEND_LAYOUT)) 0 in
  let source := slice (bt_rows t) (start * SPEND_ROW_BYTES) (stop * SPEND_ROW_BYTES) in
  Ok (write_at shard 0 source).

Definition BucketTable_populated_positions_in_shard (t : BucketTable) (shard_id : Z) : Z :=
  let start := wrap64 (shard_id * shard_rows TRANSPARENT_SPEND_LAYOUT) in
  Z.min (saturating_sub (bt_buckets t) start) (shard_rows TRANSPARENT_SPEND_LAYOUT).

(** ** TransparentSpendTables *)

Record TransparentSpendTables := {
  tst_cold_end_height : Z; tst_cold : BucketTable; tst_warm : BucketTable }.

Definition TransparentSpendTables_build (log : SpendJournal) (d : sfiles) (tip_height : Z) :
    run (result string TransparentSpendTables) :=
  let cold_end_height := saturating_sub tip_height WARM_BLOCKS in
  let cold_blocks := partition_point (fun block => sb_height block <=? cold_end_height) (sj_blocks log) in
  let cold_count :=
    match sj_blocks log !! cold_blocks with
    | Some block => sb_first_position block
    | None => next_position (sj_blocks log)
    end in
  let total_count := next_position (sj_blocks log) in
  match SpendJournal_read_entries d 0 cold_count with
  | Err e => Returned (Err e)
  | Ok cold =>
  match SpendJournal_read_entries d cold_count (wrap64 (total_count - cold_count)) with
  | Err e => Returned (Err e)
  | Ok warm =>
  match BucketTable_build TransparentSpendCold cold with
  | Returned (Ok cold) =>
      match BucketTable_build TransparentSpendWarm warm with
      | Returned (Ok warm) =>
          Returned (Ok {| tst_cold_end_height := cold_end_height; tst_cold := cold; tst_warm := warm |})
      | Returned (Err e) => Returned (Err e)
      | Panicked => Panicked
      | OutOfFuel => OutOfFuel
      end
  | Returned (Err e) => Returned (Err e)
  | Panicked => Panicked
  | OutOfFuel => OutOfFuel
  end end end.
End tables.

(** ** What the entry loop builds *)

Section placing.
Context {sha : Sha256} {sha_laws : Sha256Laws sha}.

Definition in_bucket (n i : Z) (e : TransparentSpendEntry) : Prop :=
  bucket_for_outpoint (outpoint_txid e) (outpoint_index e) n = Some i.

#[export] Instance in_bucket_dec n i e : Decision (in_bucket n i e).
Proof. unfold in_bucket. apply _. Defined.

(** The buckets of [entries] in a table of [n], each in log order. *)
Definition buckets_of (n : Z) (entries : list TransparentSpendEntry) : list (list TransparentSpendEntry) :=
  (fun i => filter (in_bucket n i) entries) <$> seqZ 0 n.

Definition fits (n : Z) (entries : list TransparentSpendEntry) : Prop :=
  Forall (fun b => (length b <= 88)%nat) (buckets_of n entries).

#[export] Instance fits_dec n entries : Decision (fits n entries).
Proof. unfold fits. apply _. Defined.

Lemma length_buckets_of n entries : length (buckets_of n entries) = Z.to_nat n.
Proof. unfold buckets_of. by rewrite length_fmap, length_seqZ. Qed.

Lemma buckets_of_lookup n entries i :
  0 <= i < n -> buckets_of n entries !! Z.to_nat i = Some (filter (in_bucket n i) entries).
Proof.
  intros Hi. unfold buckets_of. rewrite list_lookup_fmap, lookup_seqZ_lt by lia.
  cbn [fmap option_fmap option_map]. by replace (0 + Z.of_nat (Z.to_nat i)) with i by lia.
Qed.

Lemma buckets_of_snoc n entries e i :
  0 <= i < n -> in_bucket n i e ->
  buckets_of n (entries ++ [e]) =
  <[Z.to_nat i := filter (in_bucket n i) entries ++ [e]]> (buckets_of n entries).
Proof.
  intros Hi He. apply list_eq. intros k. destruct (decide (k = Z.to_nat i)) as [->|Hk].
  - rewrite list_lookup_insert_eq by (rewrite length_buckets_of; lia).
    rewrite buckets_of_lookup by done. rewrite filter_app. by rewrite filter_cons_True.
  - rewrite list_lookup_insert_ne by done. unfold buckets_of. rewrite !list_lookup_fmap.
    destruct (seqZ 0 n !! k) as [j|] eqn:Ej; [|done]. cbn. f_equal.
    apply lookup_seqZ in Ej as [-> Hj]. rewrite filter_app. rewrite filter_cons_False, filter_nil, app_nil_r; [done|].
    unfold in_bucket in *. rewrite He. intros [= ->]. lia.
Qed.

Lemma Forall_bucket n i (Q : TransparentSpendEntry -> Prop) entries :
  Forall Q entries -> Forall Q (filter (in_bucket n i) entries).
Proof.
  rewrite !Forall_forall. intros HQ e. rewrite list_elem_of_filter. intros [_ He]. by apply HQ.
Qed.

Lemma bucket_entries_ok n entries :
  Forall entry_ok entries -> Forall (Forall entry_ok) (buckets_of n entries).
Proof. intros He. apply Forall_fmap, Forall_true. intros i. by apply Forall_bucket. Qed.

Lemma fits_app_l n a b : fits n (a ++ b) -> fits n a.
Proof.
  unfold fits, buckets_of. rewrite !Forall_fmap. intros Hf. eapply Forall_impl; [exact Hf|].
  intros i. unfold compose.
  rewrite filter_app, length_app. lia.
Qed.

(** Overwriting zeros inside one row of a concatenation. *)
Lemma write_at_middle (a pre c src : list Z) k z n :
  z = zlen a + zlen pre -> (length src <= n)%nat -> k = (n - length src)%nat ->
  write_at (a ++ (pre ++ replicate n 0) ++ c) z src = a ++ (pre ++ src ++ replicate k 0) ++ c.
Proof.
  intros -> Hs ->. unfold write_at, zlen. rewrite <- Nat2Z.inj_add, Nat2Z.id, <- length_app.
  rewrite <- !app_assoc, (app_assoc a pre), take_app_length.
  rewrite <- drop_drop, drop_app_length, drop_app_le by (rewrite length_replicate; lia).
  rewrite drop_replicate, <- !app_assoc. done.
Qed.

Lemma concat_insert (rows : list (list Z)) i r r' :
  rows !! i = Some r ->
  concat rows = concat (take i rows) ++ r ++ concat (drop (S i) rows) /\
  concat (<[i := r']> rows) = concat (take i rows) ++ r' ++ concat (drop (S i) rows).
Proof.
  intros Hi. split.
  - rewrite <- (take_drop_middle rows i r Hi) at 1. rewrite concat_app. done.
  - rewrite insert_take_drop by (by eapply lookup_lt_Some). rewrite concat_app. done.
Qed.

Definition table_rows (n : Z) (entries : list TransparentSpendEntry) : list Z :=
  concat (render <$> buckets_of n entries).

Lemma rows_lengths n entries :
  Forall entry_ok entries -> fits n entries ->
  Forall (fun r => zlen r = SPEND_ROW_BYTES) (render <$> buckets_of n entries).
Proof.
  intros He Hf. apply Forall_fmap. pose proof (bucket_entries_ok n entries He) as Hb.
  unfold fits in Hf. rewrite Forall_forall in Hb, Hf |- *. intros b Hin.
  apply length_render; auto.
Qed.

Lemma zlen_table_rows n entries :
  0 <= n -> Forall entry_ok entries -> fits n entries -> zlen (table_rows n entries) = n * SPEND_ROW_BYTES.
Proof.
  intros Hn He Hf. unfold table_rows. rewrite (zlen_concat _ SPEND_ROW_BYTES) by (by apply rows_lengths).
  unfold zlen. rewrite length_fmap, length_buckets_of, Z2Nat.id by done. apply Z.mul_comm.
Qed.

Lemma zlen_take_rows (rows : list (list Z)) n i :
  Forall (fun r => zlen r = n) rows -> (i <= length rows)%nat ->
  zlen (concat (take i rows)) = n * Z.of_nat i.
Proof.
  intros Hr Hi. rewrite (zlen_concat _ n) by (by apply Forall_take).
  unfold zlen. rewrite length_take. f_equal. lia.
Qed.

(** Placing one more entry. *)
Lemma place_one n done e i :
  0 <= i < n -> in_bucket n i e -> entry_ok e -> Forall entry_ok done -> fits n done ->
  (length (filter (in_bucket n i) done) < 88)%nat ->
  write_at (table_rows n done)
    (i * SPEND_ROW_BYTES + zlen (filter (in_bucket n i) done) * SPEND_ENTRY_BYTES)
    (TransparentSpendEntry_to_bytes e) = table_rows n (done ++ [e]).
Proof.
  intros Hi Hin He Hd Hf Hl. unfold table_rows. rewrite (buckets_of_snoc n done e i) by done.
  rewrite list_fmap_insert. set (b := filter (in_bucket n i) done) in *.
  assert ((render <$> buckets_of n done) !! Z.to_nat i = Some (render b)) as Hr.
  { by rewrite list_lookup_fmap, buckets_of_lookup. }
  destruct (concat_insert _ _ _ (render (b ++ [e])) Hr) as [-> ->].
  assert (Forall entry_ok b) as Hb by (by apply Forall_bucket).
  change (render b) with (concat (TransparentSpendEntry_to_bytes <$> b) ++
    replicate (Z.to_nat SPEND_ROW_BYTES - 80 * length b) 0).
  change (render (b ++ [e])) with (concat (TransparentSpendEntry_to_bytes <$> (b ++ [e])) ++
    replicate (Z.to_nat SPEND_ROW_BYTES - 80 * length (b ++ [e])) 0).
  rewrite fmap_app, concat_app, length_app.
  cbn [fmap list_fmap concat length]. rewrite app_nil_r.
  rewrite (write_at_middle _ _ _ _ (Z.to_nat SPEND_ROW_BYTES - 80 * (length b + 1))).
  - by rewrite <- !app_assoc.
  - rewrite (zlen_take_rows _ SPEND_ROW_BYTES).
    + unfold zlen. rewrite length_entries, Z2Nat.id by (done || lia).
      unfold SPEND_ROW_BYTES, SPEND_ENTRY_BYTES, SPEND_BUCKET_CAPACITY. lia.
    + by apply rows_lengths.
    + rewrite length_fmap, length_buckets_of. lia.
  - rewrite length_entry by done. change (Z.to_nat SPEND_ROW_BYTES) with (80 * 88)%nat. lia.
  - rewrite length_entry by done. lia.
Qed.

Lemma fits_snoc n done e i :
  0 <= i < n -> in_bucket n i e -> fits n done ->
  fits n (done ++ [e]) <-> (length (filter (in_bucket n i) done) < 88)%nat.
Proof.
  intros Hi Hin Hf. unfold fits. rewrite (buckets_of_snoc n done e i) by done. split.
  - intros HF. rewrite Forall_lookup in HF.
    specialize (HF (Z.to_nat i) (filter (in_bucket n i) done ++ [e])).
    rewrite list_lookup_insert_eq in HF by (rewrite length_buckets_of; lia).
    specialize (HF eq_refl). rewrite length_app in HF. cbn in HF. lia.
  - intros Hl. apply Forall_insert; [exact Hf|]. rewrite length_app. cbn. lia.
Qed.

Lemma place_entries_spec n done rest :
  is_power_of_two n = true -> n * SPEND_ROW_BYTES < u64_bound ->
  Forall entry_ok (done ++ rest) -> fits n done ->
  place_entries n rest (table_rows n done) (zlen <$> buckets_of n done) =
  Returned (if decide (fits n (done ++ rest)) then Some (table_rows n (done ++ rest)) else None).
Proof.
  intros Hp Hn. assert (0 < n) as Hpos by (unfold is_power_of_two in Hp; bool_prop; done).
  revert done. induction rest as [|e rest IH]; intros done Hok Hf.
  { rewrite app_nil_r. by rewrite decide_True. }
  cbn [place_entries]. apply Forall_app in Hok as [Hd Hr]. apply Forall_cons in Hr as [He Hr].
  destruct (bucket_for_outpoint_range (outpoint_txid e) (outpoint_index e) n Hp) as (i & Hin & Hi).
  rewrite Hin, list_lookup_fmap, buckets_of_lookup by done. cbn [fmap option_fmap option_map].
  pose proof (fits_snoc n done e i Hi Hin Hf) as Hsnoc.
  set (b := filter (in_bucket n i) done) in *.
  assert (length b <= 88)%nat as Hlb.
  { unfold fits in Hf. rewrite Forall_lookup in Hf.
    apply (Hf (Z.to_nat i) b). by apply buckets_of_lookup. }
  replace (done ++ e :: rest) with ((done ++ [e]) ++ rest) by (by rewrite <- app_assoc).
  destruct (zlen b =? SPEND_BUCKET_CAPACITY) eqn:Efull; bool_prop;
    unfold SPEND_BUCKET_CAPACITY, zlen in Efull.
  - rewrite decide_False; [done|]. intros HF. apply fits_app_l, Hsnoc in HF. lia.
  - assert (length b < 88)%nat as Hlt by lia.
    assert (i * SPEND_ROW_BYTES + zlen b * SPEND_ENTRY_BYTES + SPEND_ENTRY_BYTES <= n * SPEND_ROW_BYTES) as Hfit.
    { unfold SPEND_ROW_BYTES, SPEND_ENTRY_BYTES, SPEND_BUCKET_CAPACITY, zlen in *. lia. }
    assert (0 <= i * SPEND_ROW_BYTES + zlen b * SPEND_ENTRY_BYTES) as Hge
      by (unfold SPEND_ROW_BYTES, SPEND_ENTRY_BYTES, SPEND_BUCKET_CAPACITY, zlen in *; lia).
    assert (wrap64 (i * SPEND_ROW_BYTES + zlen b * SPEND_ENTRY_BYTES) =
      i * SPEND_ROW_BYTES + zlen b * SPEND_ENTRY_BYTES) as ->.
    { unfold wrap64. apply Z.mod_small. unfold SPEND_ENTRY_BYTES at 2 in Hfit. lia. }
    rewrite zlen_table_rows by (done || lia). guards.
    pose proof (place_one n done e i Hi Hin He Hd Hf Hlt) as Hone. fold b in Hone. rewrite Hone.
    assert (<[Z.to_nat i := (zlen b + 1) mod 2 ^ 8]> (zlen <$> buckets_of n done) =
      zlen <$> buckets_of n (done ++ [e])) as ->.
    { rewrite (buckets_of_snoc n done e i) by done. rewrite list_fmap_insert. f_equal.
      rewrite zlen_app. change (zlen [e]) with 1. fold b. apply Z.mod_small. unfold zlen. lia. }
    apply IH; [|by apply Hsnoc].
    apply Forall_app. split; [|done]. apply Forall_app. split; [done|]. by constructor.
Qed.

(** ** The size search *)

Lemma render_nil : render [] = replicate (Z.to_nat SPEND_ROW_BYTES) 0.
Proof. unfold render. rewrite Nat.mul_0_r, Nat.sub_0_r. done. Qed.

Lemma concat_zero_rows (m k : nat) (z : Z) :
  concat ((fun _ => replicate m 0) <$> seqZ z (Z.of_nat k)) = replicate (k * m) 0.
Proof.
  revert z. induction k as [|k IH]; intros z; [done|]. rewrite seqZ_cons by lia.
  replace (Z.pred (Z.of_nat (S k))) with (Z.of_nat k) by lia.
  change (S k * m)%nat with (m + k * m)%nat. rewrite replicate_add, <- (IH (Z.succ z)). done.
Qed.

Lemma table_rows_nil n :
  0 <= n -> table_rows n [] = replicate (Z.to_nat (n * SPEND_ROW_BYTES)) 0.
Proof.
  intros Hn. unfold table_rows, buckets_of.
  rewrite Z2Nat.inj_mul by done. rewrite <- (Z2Nat.id n) at 1 by done.
  generalize (Z.to_nat n) as k. intros k. rewrite <- list_fmap_compose.
  rewrite (list_fmap_ext _ (fun _ => replicate (Z.to_nat SPEND_ROW_BYTES) 0)).
  2:{ intros i x _. apply render_nil. }
  apply concat_zero_rows.
Qed.

Lemma fill_nil n : zlen <$> buckets_of n [] = replicate (Z.to_nat n) 0.
Proof.
  apply (list_eq_same_length _ _ (Z.to_nat n)); rewrite ?length_fmap, ?length_buckets_of, ?length_replicate; [done..|].
  intros i x y Hi. unfold buckets_of. rewrite !list_lookup_fmap, lookup_replicate_2 by done.
  destruct (seqZ 0 n !! i); [|done]. cbn. by intros [= <-] [= <-].
Qed.

Lemma fits_small n entries : (length entries <= 88)%nat -> fits n entries.
Proof.
  intros Hl. apply Forall_fmap, Forall_true. intros i. unfold compose.
  pose proof (length_filter (in_bucket n i) entries) as Hf. etrans; [exact Hf|done].
Qed.

Lemma place_entries_start n entries :
  is_power_of_two n = true -> n * SPEND_ROW_BYTES < u64_bound -> Forall entry_ok entries ->
  place_entries n entries (replicate (Z.to_nat (n * SPEND_ROW_BYTES)) 0) (replicate (Z.to_nat n) 0) =
  Returned (if decide (fits n entries) then Some (table_rows n entries) else None).
Proof.
  intros Hp Hn He. assert (0 <= n) by (unfold is_power_of_two in Hp; bool_prop; lia).
  rewrite <- table_rows_nil, <- fill_nil by done.
  apply (place_entries_spec n [] entries); [done..|]. apply fits_small. cbn. lia.
Qed.

Lemma is_power_of_two_pow k : 0 <= k -> is_power_of_two (2 ^ k) = true.
Proof. intros Hk. unfold is_power_of_two. rewrite Z.log2_pow2 by done. guards. done. Qed.

(** [fits_from k j]: [2^j] is the first size from [2^k] on that fits. *)
Definition fits_from (entries : list TransparentSpendEntry) (k j : Z) : Prop :=
  k <= j <= 50 /\ fits (2 ^ j) entries /\ forall i, k <= i < j -> ~ fits (2 ^ i) entries.

Lemma build_loop_spec fuel table entries k :
  Forall entry_ok entries -> 0 <= k <= 51 -> 52 - k <= Z.of_nat fuel ->
  (exists j, fits_from entries k j /\
     build_loop fuel table entries (2 ^ k) =
     Returned (Ok {| bt_table := table; bt_buckets := 2 ^ j; bt_rows := table_rows (2 ^ j) entries |})) \/
  ((forall i, k <= i <= 50 -> ~ fits (2 ^ i) entries) /\
   build_loop fuel table entries (2 ^ k) = Panicked).
Proof.
  intros He. revert k. induction fuel as [|fuel IH]; intros k Hk Hf; [lia|]. cbn [build_loop].
  destruct (decide (k = 51)) as [->|Hne].
  { right. split; [lia|done]. }
  assert (2 ^ k <= 2 ^ 50) as Hle by (apply Z.pow_le_mono_r; lia).
  assert (0 < 2 ^ k) as Hpos by (apply Z.pow_pos_nonneg; lia).
  assert (wrap64 (2 ^ k * SPEND_ROW_BYTES) = 2 ^ k * SPEND_ROW_BYTES) as ->.
  { apply Z.mod_small. unfold SPEND_ROW_BYTES, SPEND_ENTRY_BYTES, SPEND_BUCKET_CAPACITY, u64_bound. lia. }
  assert (2 ^ k * SPEND_ROW_BYTES <= ISIZE_MAX /\ 2 ^ k <= ISIZE_MAX) as [H1 H2]
    by (unfold SPEND_ROW_BYTES, SPEND_ENTRY_BYTES, SPEND_BUCKET_CAPACITY, ISIZE_MAX; lia).
  guards. cbn [orb].
  rewrite place_entries_start; [|by apply is_power_of_two_pow; lia|unfold u64_bound, ISIZE_MAX in *; lia|done].
  destruct (decide (fits (2 ^ k) entries)) as [Hfit|Hno].
  { left. exists k. split; [|done]. split_and!; [lia..|done|lia]. }
  unfold checked_mul64. unfold u64_bound. guards.
  replace (2 ^ k * 2) with (2 ^ (k + 1)) by (rewrite Z.pow_add_r by lia; lia).
  destruct (IH (k + 1)) as [(j & (Hj & Hfit & Hfirst) & ->)|[Hnone ->]]; [lia..| |].
  - left. exists j. split; [|done]. split_and!; [lia..|done|]. intros i Hi.
    destruct (decide (i = k)) as [->|]; [done|]. apply Hfirst. lia.
  - right. split; [|done]. intros i Hi. destruct (decide (i = k)) as [->|]; [done|]. apply Hnone. lia.
Qed.

Lemma bucket_count_pow n :
  0 <= n < 2 ^ 50 -> exists k, bucket_count n = 2 ^ k /\ 13 <= k <= 50.
Proof.
  intros Hn. unfold bucket_count. set (x := Z.max _ _).
  assert (8192 <= x <= 2 ^ 50) as Hx.
  { unfold x, SPEND_SHARD_ROWS. split; [lia|]. apply Z.max_lub; [|lia].
    unfold saturating_mul64, TARGET_LOAD_DENOMINATOR, SPEND_BUCKET_CAPACITY, TARGET_LOAD_NUMERATOR.
    unfold u64_bound. pose proof (div_ceil_spec (Z.min (n * 100) (2 ^ 64 - 1)) (88 * 55)). lia. }
  exists (Z.log2_up x). unfold next_power_of_two. guards.
  assert (13 <= Z.log2_up x <= 50) as Hl.
  { split; [change 13 with (Z.log2_up (2 ^ 13))|change 50 with (Z.log2_up (2 ^ 50))];
      apply Z.log2_up_le_mono; lia. }
  split; [|done]. apply Z.mod_small.
  pose proof (Z.pow_le_mono_r 2 (Z.log2_up x) 50). pose proof (Z.pow_pos_nonneg 2 (Z.log2_up x)).
  unfold u64_bound. lia.
Qed.

(** The table of a returned build. *)
Lemma build_inv table entries t :
  Forall entry_ok entries -> zlen entries < 2 ^ 50 ->
  BucketTable_build table entries = Returned (Ok t) ->
  exists j, 13 <= j <= 50 /\ fits (2 ^ j) entries /\ bt_table t = table /\
    bt_buckets t = 2 ^ j /\ bt_rows t = table_rows (2 ^ j) entries.
Proof.
  intros He Hz Hb. unfold BucketTable_build in Hb. case_bool_decide; [done|].
  destruct (bucket_count_pow (zlen entries)) as (k & Hk & Hr); [split; auto with rust|].
  rewrite Hk in Hb.
  destruct (build_loop_spec 64 table entries k He) as [(j & (Hj & Hf & _) & Hl)|[_ Hl]]; [lia..| |];
    rewrite Hl in Hb; [|done].
  injection Hb as <-. exists j. split_and!; [lia..|done|done|done|done].
Qed.

(** ** Reading the table back *)

Lemma slice_row (rows : list (list Z)) n i r :
  Forall (fun r => zlen r = n) rows -> rows !! i = Some r ->
  slice (concat rows) (Z.of_nat i * n) (Z.of_nat i * n + n) = r.
Proof.
  intros Hr Hi. destruct (concat_insert rows i r r Hi) as [-> _].
  apply slice_app.
  - rewrite (zlen_take_rows _ n) by (done || by apply Nat.lt_le_incl; eapply lookup_lt_Some). lia.
  - rewrite Forall_lookup in Hr. rewrite (Hr _ _ Hi). lia.
Qed.

Lemma table_row n entries i :
  Forall entry_ok entries -> fits n entries -> 0 <= i < n ->
  slice (table_rows n entries) (i * SPEND_ROW_BYTES) (i * SPEND_ROW_BYTES + SPEND_ROW_BYTES) =
  render (filter (in_bucket n i) entries).
Proof.
  intros He Hf Hi. rewrite <- (Z2Nat.id i) at 1 2 by lia.
  apply slice_row; [by apply rows_lengths|]. by rewrite list_lookup_fmap, buckets_of_lookup.
Qed.

Lemma find_in_bucket n i txid index entries :
  bucket_for_outpoint txid index n = Some i ->
  snd <$> list_find (same_outpoint txid index) (filter (in_bucket n i) entries) =
  snd <$> list_find (same_outpoint txid index) entries.
Proof.
  intros Hi. induction entries as [|e entries IH]; [done|]. cbn [list_find].
  destruct (decide (same_outpoint txid index e)) as [Hs|Hs].
  - rewrite filter_cons_True by (destruct Hs as [<- <-]; done). cbn [list_find]. by rewrite decide_True.
  - assert (snd <$> (prod_map S id <$> list_find (same_outpoint txid index) entries) =
      snd <$> list_find (same_outpoint txid index) entries) as ->
      by (by destruct (list_find _ entries) as [[]|]).
    rewrite <- IH. destruct (decide (in_bucket n i e)).
    + rewrite filter_cons_True by done. cbn [list_find]. rewrite decide_False by done.
      by destruct (list_find _ _) as [[]|].
    + by rewrite filter_cons_False.
Qed.

Lemma NoDup_bucket n i entries :
  NoDup (outpoint <$> entries) -> NoDup (outpoint <$> filter (in_bucket n i) entries).
Proof.
  induction entries as [|e entries IH]; [done|]. cbn [fmap list_fmap]. intros Hn.
  apply NoDup_cons in Hn as [Hi Hn]. destruct (decide (in_bucket n i e)).
  - rewrite filter_cons_True by done. cbn [fmap list_fmap]. apply NoDup_cons. split; [|by apply IH].
    intros Hin. apply Hi. apply list_elem_of_fmap in Hin as (e' & -> & He').
    apply list_elem_of_filter in He' as [_ He']. by apply list_elem_of_fmap_2.
  - rewrite filter_cons_False by done. by apply IH.
Qed.

(** The row of an outpoint's bucket, in the flat table and in its shard. *)
Lemma bucket_row_served table entries t i :
  Forall entry_ok entries -> zlen entries < 2 ^ 50 ->
  BucketTable_build table entries = Returned (Ok t) -> 0 <= i < bt_buckets t ->
  exists shard, BucketTable_read_shard_rows t (i / SPEND_SHARD_ROWS) = Ok shard /\
    zlen shard = DatabaseLayout_shard_bytes TRANSPARENT_SPEND_LAYOUT /\
    slice shard (i mod SPEND_SHARD_ROWS * SPEND_ROW_BYTES)
      (i mod SPEND_SHARD_ROWS * SPEND_ROW_BYTES + SPEND_ROW_BYTES) =
    render (filter (in_bucket (bt_buckets t) i) entries).
Proof.
  intros He Hz Hb Hi. destruct (build_inv _ _ _ He Hz Hb) as (j & Hj & Hfit & _ & Hbk & Hrows).
  rewrite Hbk in *. assert (2 ^ j = 8192 * 2 ^ (j - 13)) as Hpow.
  { replace 8192 with (2 ^ 13) by done. rewrite <- Z.pow_add_r by lia. f_equal. lia. }
  pose proof (Z.pow_le_mono_r 2 j 50 ltac:(lia) ltac:(lia)) as Hle.
  unfold BucketTable_read_shard_rows. cbn [shard_rows TRANSPARENT_SPEND_LAYOUT]. rewrite Hbk, Hrows.
  unfold SPEND_SHARD_ROWS. pose proof (Z.div_mod i 8192 ltac:(lia)) as Hdm.
  pose proof (Z.mod_pos_bound i 8192 ltac:(lia)) as Hm.
  assert (i / 8192 + 1 <= 2 ^ (j - 13)) as Hlast.
  { apply Z.le_succ_l, Z.div_lt_upper_bound; lia. }
  assert (0 <= i / 8192) by (apply Z.div_pos; lia).
  set (q := i / 8192) in *.
  assert (wrap64 (q * 8192) = q * 8192) as ->
    by (apply Z.mod_small; unfold u64_bound; lia).
  guards. rewrite Z.min_l by lia. eexists. split; [done|].
  assert (zlen (slice (table_rows (2 ^ j) entries) (q * 8192 * SPEND_ROW_BYTES)
    ((q * 8192 + 8192) * SPEND_ROW_BYTES)) = DatabaseLayout_shard_bytes TRANSPARENT_SPEND_LAYOUT) as Hlen.
  { unfold zlen. rewrite length_slice.
    - unfold DatabaseLayout_shard_bytes, DatabaseLayout_row_bytes. cbn [shard_rows record_bytes
        records_per_row TRANSPARENT_SPEND_LAYOUT].
      unfold SPEND_ROW_BYTES, SPEND_SHARD_ROWS, SPEND_ENTRY_BYTES, SPEND_BUCKET_CAPACITY. lia.
    - unfold SPEND_ROW_BYTES, SPEND_ENTRY_BYTES, SPEND_BUCKET_CAPACITY. lia.
    - rewrite zlen_table_rows by (done || lia).
      unfold SPEND_ROW_BYTES, SPEND_ENTRY_BYTES, SPEND_BUCKET_CAPACITY. lia. }
  assert (write_at (replicate (Z.to_nat (DatabaseLayout_shard_bytes TRANSPARENT_SPEND_LAYOUT)) 0) 0
    (slice (table_rows (2 ^ j) entries) (q * 8192 * SPEND_ROW_BYTES) ((q * 8192 + 8192) * SPEND_ROW_BYTES)) =
    slice (table_rows (2 ^ j) entries) (q * 8192 * SPEND_ROW_BYTES) ((q * 8192 + 8192) * SPEND_ROW_BYTES)) as ->.
  { set (src := slice _ _ _) in *. unfold write_at. change (Z.to_nat 0) with 0%nat.
    rewrite take_0, app_nil_l, drop_ge, app_nil_r; [done|].
    rewrite length_replicate. unfold zlen in Hlen. lia. }
  split; [done|]. rewrite slice_slice;
    [|unfold SPEND_ROW_BYTES, SPEND_ENTRY_BYTES, SPEND_BUCKET_CAPACITY; lia..].
  rewrite <- (table_row (2 ^ j) entries i) by (done || lia).
  f_equal; rewrite Hdm at 2; ring.
Qed.
End placing.

(** ** The journal and its files *)

(** A block of the log, as the specification sees it. *)
Record LogBlock := { lb_height : Z; lb_hash : list Z; lb_entries : list TransparentSpendEntry }.

Definition log_entries (log : list LogBlock) : list TransparentSpendEntry := concat (lb_entries <$> log).

Section log.
Context {hex : Hex} {hex_laws : HexLaws hex}.

(** The in-memory blocks and the index bytes of a log whose entries start at [first]. *)
Fixpoint spend_blocks (first : Z) (log : list LogBlock) : list SpendBlock :=
  match log with
  | [] => []
  | b :: log =>
      {| sb_height := lb_height b; sb_hash := hex_encode (lb_hash b); sb_first_position := first;
         sb_entry_count := zlen (lb_entries b) |} :: spend_blocks (first + zlen (lb_entries b)) log
  end.

Definition enc_block_record (first : Z) (b : LogBlock) : list Z :=
  le_bytes 8 (lb_height b) ++ lb_hash b ++ le_bytes 8 first ++ le_bytes 8 (zlen (lb_entries b)).

Fixpoint index_records (first : Z) (log : list LogBlock) : list (list Z) :=
  match log with
  | [] => []
  | b :: log => enc_block_record first b :: index_records (first + zlen (lb_entries b)) log
  end.

Definition entry_bytes (log : list LogBlock) : list Z :=
  concat (TransparentSpendEntry_to_bytes <$> log_entries log).
Definition index_bytes (log : list LogBlock) : list Z := INDEX_MAGIC ++ concat (index_records 0 log).

Fixpoint consecutive_from (h : Z) (log : list LogBlock) : Prop :=
  match log with [] => True | b :: log => lb_height b = h /\ consecutive_from (h + 1) log end.

(** Consecutive heights, fields of the source's widths, and sizes below [u64]. *)
Record log_ok (log : list LogBlock) : Prop := {
  lo_heights : consecutive_from (from_option lb_height 0 (head log)) log;
  lo_range : Forall (fun b => 0 <= lb_height b < 2 ^ 63) log;
  lo_hashes : Forall (fun b => hash_ok (lb_hash b)) log;
  lo_entries : Forall entry_ok (log_entries log);
  lo_size : zlen (log_entries log) < 2 ^ 50;
  lo_blocks : zlen log < 2 ^ 50 }.

Definition log_files (log : list LogBlock) : sfiles := {|
  spf_entries := Some (entry_bytes log); spf_blocks := Some (index_bytes log);
  spf_checkpoint := Some (le_bytes 8 (zlen log)) |}.

Definition log_journal (log : list LogBlock) : SpendJournal := {| sj_blocks := spend_blocks 0 log |}.

Lemma log_entries_cons b log : log_entries (b :: log) = lb_entries b ++ log_entries log.
Proof. done. Qed.

Lemma log_entries_app a b : log_entries (a ++ b) = log_entries a ++ log_entries b.
Proof. unfold log_entries. by rewrite fmap_app, concat_app. Qed.

Lemma length_spend_blocks first log : length (spend_blocks first log) = length log.
Proof. revert first. induction log; intros; cbn; auto. Qed.

Lemma spend_blocks_app first a b :
  spend_blocks first (a ++ b) = spend_blocks first a ++ spend_blocks (first + zlen (log_entries a)) b.
Proof.
  revert first. induction a as [|x a IH]; intros first; cbn [spend_blocks app].
  - change (zlen (log_entries [])) with 0. by rewrite Z.add_0_r.
  - rewrite IH, log_entries_cons, zlen_app. do 3 f_equal. lia.
Qed.

Lemma index_records_app first a b :
  index_records first (a ++ b) = index_records first a ++ index_records (first + zlen (log_entries a)) b.
Proof.
  revert first. induction a as [|x a IH]; intros first; cbn [index_records app].
  - change (zlen (log_entries [])) with 0. by rewrite Z.add_0_r.
  - rewrite IH, log_entries_cons, zlen_app. do 3 f_equal. lia.
Qed.

(** The position after the last block, in the unwrapped count. *)
Lemma next_position_log log :
  zlen (log_entries log) < 2 ^ 50 -> next_position (spend_blocks 0 log) = zlen (log_entries log).
Proof.
  intros Hz. unfold next_position.
  destruct log as [|b log] using rev_ind; [done|].
  rewrite spend_blocks_app. cbn [spend_blocks]. rewrite last_snoc. cbn.
  rewrite log_entries_app, zlen_app in Hz |- *. unfold log_entries at 2 in Hz. unfold log_entries at 3.
  cbn [fmap list_fmap concat] in *. rewrite app_nil_r in *. unfold wrap64. apply Z.mod_small.
  pose proof (zlen_nonneg (log_entries log)). pose proof (zlen_nonneg (lb_entries b)).
  unfold u64_bound. lia.
Qed.

Lemma length_block_record first b : hash_ok (lb_hash b) -> length (enc_block_record first b) = 56%nat.
Proof.
  intros [Hl _]. unfold enc_block_record.
  repeat (rewrite length_app || rewrite length_le_bytes). rewrite Hl. done.
Qed.

Lemma index_records_lengths first log :
  Forall (fun b => hash_ok (lb_hash b)) log ->
  Forall (fun r => length r = 56%nat) (index_records first log).
Proof.
  intros Hh. revert first. induction Hh as [|b log Hb _ IH]; intros first; cbn; [constructor|].
  constructor; [by apply length_block_record|apply IH].
Qed.

Lemma index_record_eq height hash first count :
  length hash = 32%nat ->
  spend_index_record height hash first count =
  le_bytes 8 height ++ hash ++ le_bytes 8 first ++ le_bytes 8 count.
Proof.
  intros Hl. unfold spend_index_record.
  change (replicate (Z.to_nat BLOCK_BYTES) 0) with ([] ++ replicate 56 0).
  do 4 (rewrite write_at_zeros;
    [|unfold zlen; repeat (rewrite length_app || rewrite length_le_bytes); cbn [length]; lia
     |rewrite ?length_le_bytes; cbn [length]; lia]).
  rewrite !length_le_bytes, Hl. cbn [Nat.sub replicate]. by rewrite app_nil_l, app_nil_r, <- !app_assoc.
Qed.

Lemma length_index_bytes log :
  Forall (fun b => hash_ok (lb_hash b)) log -> length (index_bytes log) = (8 + 56 * length log)%nat.
Proof.
  intros Hh. unfold index_bytes. rewrite length_app. change (length INDEX_MAGIC) with 8%nat. f_equal.
  generalize 0 as first. induction Hh as [|b log Hb _ IH]; intros first; [done|].
  cbn [index_records concat length]. rewrite length_app, length_block_record, IH by done. lia.
Qed.

Lemma length_entry_bytes log :
  Forall entry_ok (log_entries log) -> zlen (entry_bytes log) = 80 * zlen (log_entries log).
Proof. intros He. unfold entry_bytes, zlen. rewrite length_entries by done. lia. Qed.

Lemma parse_record first b :
  hash_ok (lb_hash b) -> 0 <= lb_height b < 2 ^ 63 -> u64 first -> u64 (zlen (lb_entries b)) ->
  let r := enc_block_record first b in
  le_val (slice r 0 8) = lb_height b /\ slice r 8 40 = lb_hash b /\
  le_val (slice r 40 48) = first /\ le_val (slice r 48 56) = zlen (lb_entries b).
Proof.
  intros Hh Hr Hf Hc r. pose proof (zlen_hash _ Hh) as Hl. unfold r, enc_block_record.
  split_and!.
  - replace (slice _ 0 8) with (le_bytes 8 (lb_height b))
      by (symmetry; apply (slice_app []); [done|by rewrite zlen_le_bytes]).
    apply le_val_le_bytes. change (256 ^ Z.of_nat 8) with (2 ^ 64). lia.
  - apply slice_app; [by rewrite zlen_le_bytes|by rewrite Hl].
  - rewrite app_assoc. rewrite slice_app.
    + apply le_val_le_bytes. by apply u64_pow.
    + rewrite zlen_app, zlen_le_bytes, Hl. done.
    + by rewrite zlen_le_bytes.
  - rewrite !app_assoc, <- (app_nil_r (le_bytes 8 (zlen _))). rewrite slice_app.
    + apply le_val_le_bytes. by apply u64_pow.
    + autorewrite with zlen. rewrite Hl. done.
    + by rewrite zlen_le_bytes.
Qed.

Lemma spend_blocks_last first log b :
  last (spend_blocks first (log ++ [b])) =
  Some {| sb_height := lb_height b; sb_hash := hex_encode (lb_hash b);
          sb_first_position := first + zlen (log_entries log);
          sb_entry_count := zlen (lb_entries b) |}.
Proof. rewrite spend_blocks_app. cbn [spend_blocks]. by rewrite last_snoc. Qed.

Lemma consecutive_snoc h log b :
  consecutive_from h (log ++ [b]) -> consecutive_from h log /\ lb_height b = h + zlen log.
Proof.
  revert h. induction log as [|x log IH]; intros h; cbn [app consecutive_from].
  - intros [-> _]. split; [done|]. change (zlen []) with 0. lia.
  - intros [-> Hr]. apply IH in Hr as [Hr ->]. rewrite zlen_cons. split; [done|lia].
Qed.

Lemma consecutive_app h a b : consecutive_from h (a ++ b) -> consecutive_from h a.
Proof. revert h. induction a as [|x a IH]; intros h; cbn; [done|]. intros [-> Hr]. by split; [|apply IH]. Qed.

(** The records of a log parse to its blocks; [done] is the part already read. *)
Lemma parse_blocks_spec done rest h :
  consecutive_from h (done ++ rest) -> Forall (fun b => 0 <= lb_height b < 2 ^ 63) (done ++ rest) ->
  Forall (fun b => hash_ok (lb_hash b)) (done ++ rest) -> zlen (log_entries (done ++ rest)) < 2 ^ 50 ->
  parse_blocks (index_records (zlen (log_entries done)) rest) (spend_blocks 0 done) =
  Ok (spend_blocks 0 (done ++ rest)).
Proof.
  revert done. induction rest as [|b rest IH]; intros done Hc Hr Hh Hz.
  { by rewrite app_nil_r. }
  cbn [index_records parse_blocks].
  assert (0 <= lb_height b < 2 ^ 63 /\ hash_ok (lb_hash b)) as [Hb Hhb].
  { rewrite !Forall_app, !Forall_cons in Hr, Hh. naive_solver. }
  assert (zlen (log_entries done) + zlen (lb_entries b) < 2 ^ 50) as Hsz.
  { rewrite log_entries_app, log_entries_cons, !zlen_app in Hz.
    pose proof (zlen_nonneg (log_entries rest)). lia. }
  pose proof (zlen_nonneg (log_entries done)). pose proof (zlen_nonneg (lb_entries b)).
  destruct (parse_record (zlen (log_entries done)) b Hhb Hb) as (-> & -> & -> & ->);
    [unfold u64, u64_bound; lia..|].
  replace (done ++ b :: rest) with ((done ++ [b]) ++ rest) in * by (by rewrite <- app_assoc).
  assert (match last (spend_blocks 0 done) with
    | Some last => negb (wrap64 (sb_height last + 1) =? lb_height b) ||
        negb (wrap64 (sb_first_position last + sb_entry_count last) =? zlen (log_entries done))
    | None => false end = false) as ->.
  { destruct done as [|x done _] using rev_ind; [done|]. rewrite spend_blocks_last. cbn.
    apply consecutive_app, consecutive_snoc in Hc as [Hc Hhe]. apply consecutive_snoc in Hc as [_ Hx].
    rewrite zlen_app, zlen_cons in Hhe. change (zlen []) with 0 in Hhe.
    rewrite (wrap64_small (lb_height x + 1)) by (unfold u64_bound; lia).
    rewrite log_entries_app, zlen_app in *.
    assert (log_entries [x] = lb_entries x) as Hlx
      by (unfold log_entries; cbn; apply app_nil_r).
    rewrite Hlx in *. rewrite wrap64_small by (unfold u64_bound; pose proof (zlen_nonneg (log_entries done));
      pose proof (zlen_nonneg (lb_entries x)); lia).
    guards. done. }
  assert (spend_blocks 0 done ++ [{| sb_height := lb_height b; sb_hash := hex_encode (lb_hash b);
    sb_first_position := zlen (log_entries done); sb_entry_count := zlen (lb_entries b) |}] =
    spend_blocks 0 (done ++ [b])) as -> by (by rewrite spend_blocks_app).
  replace (zlen (log_entries done) + zlen (lb_entries b)) with (zlen (log_entries (done ++ [b]))).
  - by apply IH.
  - rewrite log_entries_app, zlen_app. f_equal. unfold log_entries. cbn. by rewrite app_nil_r.
Qed.

(** ** Opening *)

(** Whatever follows the committed bytes is dropped. *)
Lemma open_exact log entries_tail blocks_tail :
  log_ok log ->
  SpendJournal_open {| spf_entries := Some (entry_bytes log ++ entries_tail);
                       spf_blocks := Some (index_bytes log ++ blocks_tail);
                       spf_checkpoint := Some (le_bytes 8 (zlen log)) |} =
  (Ok (log_journal log), log_files log).
Proof.
  intros [Hc Hr Hh He Hz Hn]. unfold SpendJournal_open. cbn [spf_entries spf_blocks spf_checkpoint default from_option id].
  pose proof (length_index_bytes log Hh) as Hlen. change (zlen INDEX_MAGIC) with 8.
  assert (get_range (index_bytes log ++ blocks_tail) 0 8 = Some INDEX_MAGIC) as ->.
  { unfold index_bytes. rewrite <- app_assoc. apply (get_range_app []). }
  rewrite bool_decide_true by done. cbn [negb].
  assert (get_range (le_bytes 8 (zlen log)) 0 8 = Some (le_bytes 8 (zlen log))) as -> by done.
  rewrite le_val_le_bytes by (pose proof (zlen_nonneg log); change (256 ^ Z.of_nat 8) with (2 ^ 64); lia).
  assert (8 + zlen log * BLOCK_BYTES = zlen (index_bytes log)) as Hcut
    by (unfold zlen, BLOCK_BYTES; rewrite Hlen; lia).
  assert ((zlen (index_bytes log ++ blocks_tail) - 8) / BLOCK_BYTES <? zlen log = false) as ->.
  { apply Z.ltb_ge. apply Z.div_le_lower_bound; [done|]. rewrite zlen_app.
    pose proof (zlen_nonneg blocks_tail). lia. }
  rewrite Hcut.
  assert (take (Z.to_nat (zlen (index_bytes log))) (index_bytes log ++ blocks_tail) = index_bytes log) as ->
    by (unfold zlen; rewrite Nat2Z.id; apply take_app_length).
  assert (drop (Z.to_nat 8) (index_bytes log) = concat (index_records 0 log)) as Hdrop by done.
  rewrite Hdrop.
  assert (zlen (concat (index_records 0 log)) = zlen log * BLOCK_BYTES) as Hrec.
  { unfold index_bytes in Hcut. rewrite zlen_app in Hcut. change (zlen INDEX_MAGIC) with 8 in Hcut. lia. }
  rewrite Hrec, Z.mod_mul by done. change (0 =? 0) with true. cbv iota. rewrite Hdrop.
  change (Z.to_nat BLOCK_BYTES) with 56%nat.
  rewrite chunks_exact_concat; [|lia|by apply index_records_lengths|lia].
  pose proof (parse_blocks_spec [] log _ Hc Hr Hh Hz) as Hparse. change (parse_blocks (index_records 0 log) [] =
    Ok (spend_blocks 0 log)) in Hparse. rewrite Hparse.
  rewrite next_position_log by done. unfold log_journal, log_files. f_equal. f_equal. f_equal.
  pose proof (length_entry_bytes log He) as Hle. pose proof (zlen_nonneg (log_entries log)).
  rewrite wrap64_small by (unfold SPEND_ENTRY_BYTES, u64_bound; lia).
  unfold SPEND_ENTRY_BYTES. rewrite (Z.mul_comm _ 80), <- Hle. apply jset_len_prefix.
Qed.

(** ** Appends *)

Definition block_ops (first : Z) (b : LogBlock) : list sop :=
  ((fun e => SAppend Entries (TransparentSpendEntry_to_bytes e)) <$> lb_entries b) ++
  [SAppend Blocks (enc_block_record first b)].

Fixpoint log_ops (first : Z) (bs : list LogBlock) : list sop :=
  match bs with
  | [] => []
  | b :: bs => block_ops first b ++ log_ops (first + zlen (lb_entries b)) bs
  end.

(** [append_block] on the journal of a log. *)
Lemma append_block_log log b :
  log_ok (log ++ [b]) ->
  SpendJournal_append_block (log_journal log) (lb_height b) (hex_encode (lb_hash b)) (lb_entries b) =
  (Ok tt, log_journal (log ++ [b]), block_ops (zlen (log_entries log)) b).
Proof.
  intros [Hc Hr Hh He Hz Hn]. unfold SpendJournal_append_block, log_journal. cbn [sj_blocks].
  assert (hash_ok (lb_hash b)) as Hhb by (rewrite Forall_app, Forall_cons in Hh; naive_solver).
  assert (zlen (log_entries log) < 2 ^ 50) as Hz'.
  { rewrite log_entries_app, zlen_app in Hz. pose proof (zlen_nonneg (log_entries [b])). lia. }
  assert (match last (spend_blocks 0 log) with
    | Some previous => negb (wrap64 (sb_height previous + 1) =? lb_height b)
    | None => false end = false) as ->.
  { destruct log as [|x log _] using rev_ind; [done|]. rewrite spend_blocks_last. cbn.
    apply consecutive_snoc in Hc as [Hc Hb]. apply consecutive_snoc in Hc as [_ Hx].
    rewrite !Forall_app, !Forall_cons in Hr. destruct Hr as [[_ [Hrx _]] _].
    rewrite zlen_app, zlen_cons in Hb. change (zlen []) with 0 in Hb.
    rewrite wrap64_small by (unfold u64_bound; lia). guards. done. }
  rewrite hex_decode_encode by apply Hhb. rewrite (zlen_hash _ Hhb). cbn [Z.eqb negb Pos.eqb].
  rewrite next_position_log by done. rewrite index_record_eq by apply Hhb.
  rewrite spend_blocks_app, Z.add_0_l. done.
Qed.

Lemma log_ok_prefix a b : log_ok (a ++ b) -> log_ok a.
Proof.
  intros [Hc Hr Hh He Hz Hn]. rewrite log_entries_app in He, Hz. rewrite zlen_app in Hz. rewrite zlen_app in Hn.
  pose proof (zlen_nonneg (log_entries b)). pose proof (zlen_nonneg b).
  apply Forall_app in Hr as [? _], Hh as [? _], He as [? _].
  split; [|done|done|done|lia|lia].
  destruct a as [|x a]; [done|]. apply consecutive_app in Hc. exact Hc.
Qed.

(** Running the appends of several blocks. *)
Fixpoint append_blocks (j : SpendJournal) (bs : list LogBlock) : result string SpendJournal * list sop :=
  match bs with
  | [] => (Ok j, [])
  | b :: bs =>
      match SpendJournal_append_block j (lb_height b) (hex_encode (lb_hash b)) (lb_entries b) with
      | (Err e, _, ops) => (Err e, ops)
      | (Ok _, j, ops) => let '(r, ops') := append_blocks j bs in (r, ops ++ ops')
      end
  end.

Lemma append_blocks_log log bs :
  log_ok (log ++ bs) ->
  append_blocks (log_journal log) bs = (Ok (log_journal (log ++ bs)), log_ops (zlen (log_entries log)) bs).
Proof.
  revert log. induction bs as [|b bs IH]; intros log Hok; [by rewrite app_nil_r|].
  cbn [append_blocks log_ops]. replace (log ++ b :: bs) with ((log ++ [b]) ++ bs) in *
    by (by rewrite <- app_assoc).
  rewrite append_block_log by (by eapply log_ok_prefix). rewrite IH by done.
  rewrite log_entries_app, zlen_app. do 3 f_equal.
  unfold log_entries. cbn. by rewrite app_nil_r.
Qed.

(** ** Crashes *)

(** [d] is the directory of [log] with some unsynced bytes behind it. *)
Record ahead_of (log : list LogBlock) (d : sdisk) : Prop := {
  ao_entries : exists tail, spf_entries (sd_live d) = Some (entry_bytes log ++ tail) /\
                 (sd_pending_entries d <= length tail)%nat;
  ao_blocks : exists tail, spf_blocks (sd_live d) = Some (index_bytes log ++ tail) /\
                (sd_pending_blocks d <= length tail)%nat;
  ao_checkpoint : spf_checkpoint (sd_live d) = Some (le_bytes 8 (zlen log)) }.

Lemma lose_app k xs tail : (k <= length tail)%nat -> exists tail', lose k (xs ++ tail) = xs ++ tail'.
Proof.
  intros Hk. exists (take (length tail - k) tail). unfold lose. rewrite length_app.
  replace (length xs + length tail - k)%nat with (length xs + (length tail - k))%nat by lia.
  by rewrite take_app_add.
Qed.

(** A crash in such a state is undone by opening. *)
Lemma ahead_of_open log d k1 k2 :
  log_ok log -> ahead_of log d -> (k1 <= sd_pending_entries d)%nat -> (k2 <= sd_pending_blocks d)%nat ->
  SpendJournal_open {| spf_entries := lose k1 <$> spf_entries (sd_live d);
                       spf_blocks := lose k2 <$> spf_blocks (sd_live d);
                       spf_checkpoint := spf_checkpoint (sd_live d) |} =
  (Ok (log_journal log), log_files log).
Proof.
  intros Hok [(t1 & H1 & Hp1) (t2 & H2 & Hp2) H3] Hk1 Hk2. rewrite H1, H2, H3.
  cbn [fmap option_fmap option_map].
  destruct (lose_app k1 (entry_bytes log) t1 ltac:(lia)) as [? ->].
  destruct (lose_app k2 (index_bytes log) t2 ltac:(lia)) as [? ->].
  by apply open_exact.
Qed.

Definition is_sappend (o : sop) : Prop := match o with SAppend _ _ => True | _ => False end.

Lemma ahead_of_append log d o : is_sappend o -> ahead_of log d -> ahead_of log (run_sop d o).
Proof.
  intros Ho [(t1 & H1 & Hp1) (t2 & H2 & Hp2) H3]. destruct o as [n bs| | |]; try done.
  destruct n; cbn; split; cbn.
  - exists (t1 ++ bs). unfold sfile. rewrite H1. cbn. rewrite <- app_assoc, length_app. split; [done|lia].
  - by exists t2.
  - done.
  - by exists t1.
  - exists (t2 ++ bs). unfold sfile. rewrite H2. cbn. rewrite <- app_assoc, length_app. split; [done|lia].
  - done.
Qed.

Lemma log_ops_appends first bs : Forall is_sappend (log_ops first bs).
Proof.
  revert first. induction bs as [|b bs IH]; intros first; cbn; [constructor|].
  unfold block_ops. rewrite <- app_assoc. apply Forall_app. split; [|by repeat constructor].
  by apply Forall_fmap, Forall_true.
Qed.

(** What the appends leave in the files. *)
Lemma run_entries es d xs :
  spf_entries (sd_live d) = Some xs ->
  let d' := run_sops ((fun e => SAppend Entries (TransparentSpendEntry_to_bytes e)) <$> es) d in
  spf_entries (sd_live d') = Some (xs ++ concat (TransparentSpendEntry_to_bytes <$> es)) /\
  spf_blocks (sd_live d') = spf_blocks (sd_live d) /\
  spf_checkpoint (sd_live d') = spf_checkpoint (sd_live d).
Proof.
  revert d xs. induction es as [|e es IH]; intros d xs Hd; cbn [fmap list_fmap concat].
  { cbn. by rewrite app_nil_r. }
  cbn [run_sops foldl]. destruct (IH (run_sop d (SAppend Entries (TransparentSpendEntry_to_bytes e)))
    (xs ++ TransparentSpendEntry_to_bytes e)) as (H1 & H2 & H3).
  { cbn. unfold sfile. by rewrite Hd. }
  unfold run_sops in *. rewrite H1, H2, H3, <- app_assoc. done.
Qed.

Lemma run_log_ops log bs d :
  spf_entries (sd_live d) = Some (entry_bytes log) -> spf_blocks (sd_live d) = Some (index_bytes log) ->
  let d' := run_sops (log_ops (zlen (log_entries log)) bs) d in
  spf_entries (sd_live d') = Some (entry_bytes (log ++ bs)) /\
  spf_blocks (sd_live d') = Some (index_bytes (log ++ bs)).
Proof.
  revert log d. induction bs as [|b bs IH]; intros log d He Hb; [by rewrite app_nil_r|].
  cbn [log_ops]. unfold block_ops, run_sops. rewrite !foldl_app. cbn [foldl].
  destruct (run_entries (lb_entries b) d _ He) as (H1 & H2 & _). unfold run_sops in H1, H2.
  set (d1 := foldl _ d _) in *. set (d2 := run_sop d1 _).
  replace (log ++ b :: bs) with ((log ++ [b]) ++ bs) by (by rewrite <- app_assoc).
  assert (log_entries [b] = lb_entries b) as Hlb by (unfold log_entries; cbn; apply app_nil_r).
  replace (zlen (log_entries log) + zlen (lb_entries b)) with (zlen (log_entries (log ++ [b])))
    by (by rewrite log_entries_app, zlen_app, Hlb).
  apply (IH (log ++ [b]) d2).
  - unfold d2. cbn. rewrite H1. unfold entry_bytes. by rewrite log_entries_app, fmap_app, concat_app, Hlb.
  - change (spf_blocks (sd_live d2)) with
      (Some (sfile (sd_live d1) Blocks ++ enc_block_record (zlen (log_entries log)) b)).
    unfold sfile. rewrite H2, Hb. cbn [default from_option id]. unfold index_bytes.
    rewrite index_records_app, concat_app, Z.add_0_l. cbn [index_records concat].
    by rewrite app_nil_r, app_assoc.
Qed.
End log.
