(* ===== verification/Spend.v ===== *)
(** * Transparent-spend PIR: properties

    The theorems of the transparent-spend components ([SpendTypes], [SpendTable]):
    the entry codec, the bucket tables, the journal under crashes, and a wallet's
    lookup from the log to the answer. *)

From Stdlib Require Import ZArith Lia.
From stdpp Require Import base numbers list strings gmap.
From S2P Require Import Prelude FilterTypes Instances EnhanceTypes RecordJournal SpendTypes SpendTable.

Open Scope Z_scope.

(** ** Entries *)

(** The entry codec is exact.  [from_bytes] accepts an 80-byte string exactly
    when it is the encoding of an entry whose fields fit the source's widths, and
    then returns that entry: no second encoding of an entry is accepted, and a set
    reserved byte is refused. *)
Theorem spend_entry_exact bs e :
  bytes_ok bs ->
  TransparentSpendEntry_from_bytes bs = Some e <-> entry_ok e /\ bs = TransparentSpendEntry_to_bytes e.
Proof.
  intros Hok. split; [by apply entry_from_bytes_inv|]. intros [He ->]. by apply entry_from_to_bytes.
Qed.

Definition sample_entry (n : Z) : TransparentSpendEntry := {|
  outpoint_txid := replicate 32 n; outpoint_index := 3; spending_txid := replicate 32 9;
  spend_height := 42; transaction_index := 7 |}.

Lemma sample_entry_ok n : 0 <= n < 256 -> entry_ok (sample_entry n).
Proof.
  intros Hn. split_and!; cbn; try done; (split; [done|]); by apply (Forall_replicate _ 32).
Qed.

Lemma spend_entry_exact_witness :
  TransparentSpendEntry_from_bytes (TransparentSpendEntry_to_bytes (sample_entry 1)) = Some (sample_entry 1).
Proof.
  apply (spend_entry_exact (TransparentSpendEntry_to_bytes (sample_entry 1)) (sample_entry 1)).
  - apply bytes_ok_entry, sample_entry_ok. done.
  - split; [by apply sample_entry_ok|reflexivity].
Defined.

(** ** Bucket tables *)

Section lookups.
Context {sha : Sha256} {sha_laws : Sha256Laws sha}.

(** The scan of an outpoint's row in the flat table. *)
Lemma bucket_scan table entries t txid index :
  Forall entry_ok entries -> zlen entries < 2 ^ 50 -> NoDup (outpoint <$> entries) ->
  BucketTable_build table entries = Returned (Ok t) ->
  exists i, bucket_for_outpoint txid index (bt_buckets t) = Some i /\ 0 <= i < bt_buckets t /\
    scan_bucket (render (filter (in_bucket (bt_buckets t) i) entries)) txid index =
    Ok (snd <$> list_find (same_outpoint txid index) entries).
Proof.
  intros He Hz Hn Hb. destruct (build_inv _ _ _ He Hz Hb) as (j & Hj & Hfit & _ & Hbk & _).
  destruct (bucket_for_outpoint_range txid index (bt_buckets t)) as (i & Hi & Hr).
  { rewrite Hbk. apply is_power_of_two_pow. lia. }
  exists i. split_and!; [done|lia|lia|].
  rewrite scan_bucket_render.
  - by rewrite (find_in_bucket _ _ _ _ _ Hi).
  - by apply Forall_bucket.
  - rewrite Hbk in *. unfold fits in Hfit. rewrite Forall_lookup in Hfit.
    apply (Hfit (Z.to_nat i)). by apply buckets_of_lookup.
  - by apply NoDup_bucket.
Qed.

(** A built table answers every outpoint exactly.  For the table that
    [BucketTable::build] returns from entries with distinct outpoints, the bucket
    of any outpoint lies in a served shard, and scanning that bucket's bytes inside
    the shard gives the entry that spends the outpoint, or [None] when no entry
    does; it is never an error. *)
Theorem bucket_lookup_exact table entries t txid index :
  BucketTable_build table entries = Returned (Ok t) -> Forall entry_ok entries ->
  zlen entries < 2 ^ 50 -> NoDup (outpoint <$> entries) ->
  exists bucket shard,
    bucket_for_outpoint txid index (bt_buckets t) = Some bucket /\
    0 <= bucket / SPEND_SHARD_ROWS <= snd (BucketTable_shard_ids t) /\
    BucketTable_read_shard_rows t (bucket / SPEND_SHARD_ROWS) = Ok shard /\
    zlen shard = DatabaseLayout_shard_bytes TRANSPARENT_SPEND_LAYOUT /\
    scan_bucket (slice shard (bucket mod SPEND_SHARD_ROWS * SPEND_ROW_BYTES)
      (bucket mod SPEND_SHARD_ROWS * SPEND_ROW_BYTES + SPEND_ROW_BYTES)) txid index =
    Ok (snd <$> list_find (same_outpoint txid index) entries).
Proof.
  intros Hb He Hz Hn. destruct (bucket_scan table entries t txid index He Hz Hn Hb) as (i & Hi & Hr & Hs).
  destruct (bucket_row_served _ _ _ i He Hz Hb Hr) as (shard & Hread & Hlen & Hslice).
  exists i, shard. rewrite Hslice. split_and!; try done.
  - apply Z.div_pos; [lia|done].
  - unfold BucketTable_shard_ids. cbn [snd shard_rows TRANSPARENT_SPEND_LAYOUT].
    apply Z.div_le_mono; [done|lia].
Qed.

Lemma build_small table entries :
  table <> Enhance -> Forall entry_ok entries -> (length entries <= 88)%nat ->
  exists t, BucketTable_build table entries = Returned (Ok t).
Proof.
  intros Ht He Hl.
  destruct (bucket_count_pow (zlen entries)) as (k & Hk & Hr); [unfold zlen; lia|].
  unfold BucketTable_build. rewrite bool_decide_false, Hk by done.
  destruct (build_loop_spec 64 table entries k He) as [(j & _ & ->)|[Hno _]]; [lia..|by eexists|].
  exfalso. apply (Hno k); [lia|]. by apply fits_small.
Qed.

(** The size search of [BucketTable::build] always ends.  It returns the table
    at the first power of two, from [bucket_count] up to [2^50], at which no bucket
    holds more than 88 entries; when there is none the 64-bit allocation panics, and
    the "size overflow" error is never reached.  Up to 88 entries always fit. *)
Theorem bucket_build_total table entries :
  table <> Enhance -> Forall entry_ok entries -> zlen entries < 2 ^ 50 ->
  exists k, bucket_count (zlen entries) = 2 ^ k /\ 13 <= k /\
    ((exists j, fits_from entries k j /\
        BucketTable_build table entries =
        Returned (Ok {| bt_table := table; bt_buckets := 2 ^ j; bt_rows := table_rows (2 ^ j) entries |})) \/
     ((forall i, k <= i <= 50 -> ~ fits (2 ^ i) entries) /\
      BucketTable_build table entries = Panicked)) /\
    ((length entries <= 88)%nat -> exists t, BucketTable_build table entries = Returned (Ok t)).
Proof.
  intros Ht He Hz. destruct (bucket_count_pow (zlen entries)) as (k & Hk & Hr); [split; auto with rust|].
  exists k. split_and!; [done|lia| |].
  - unfold BucketTable_build. rewrite bool_decide_false, Hk by done. apply build_loop_spec; [done|lia|lia].
  - by apply build_small.
Qed.
End lookups.

(** ** The journal *)

Section journal.
Context {hex : Hex} {hex_laws : HexLaws hex}.

(** A crash while blocks are being appended, or before the sync that follows. *)
Lemma crash_in_appends log ops rest d f :
  log_ok log -> ahead_of log d -> Forall is_sappend ops -> spend_crash (ops ++ rest) d f ->
  SpendJournal_open f = (Ok (log_journal log), log_files log) \/
  (ahead_of log (run_sops ops d) /\ spend_crash rest (run_sops ops d) f).
Proof.
  intros Hok Ha Ho. revert d Ha. induction Ho as [|o ops Ho _ IH]; intros d Ha Hc; [by right|].
  cbn [app] in Hc. inversion Hc; subst.
  - left. by apply ahead_of_open.
  - apply IH; [by apply ahead_of_append|done].
Qed.

Lemma ahead_of_sync log d n : ahead_of log d -> ahead_of log (run_sop d (SSync n)).
Proof.
  intros [(t1 & H1 & Hp1) (t2 & H2 & Hp2) H3]. destruct n; cbn; split; cbn; unfold sfile;
    rewrite ?H1, ?H2; cbn; try done; try (by exists t1); try (by exists t2);
    [exists t1|exists t2]; (split; [done|lia]).
Qed.

Lemma ahead_of_synced log d :
  sd_live d = log_files log -> sd_pending_entries d = 0%nat -> sd_pending_blocks d = 0%nat ->
  ahead_of log d.
Proof.
  intros Hl H1 H2. split; [exists []|exists []|]; rewrite Hl, ?app_nil_r, ?H1, ?H2; cbn; [split; [done|lia]..|done].
Qed.

(** After the rename everything is durable. *)
Lemma crash_after_sync log d f :
  log_ok log -> sd_live d = log_files log -> sd_pending_entries d = 0%nat -> sd_pending_blocks d = 0%nat ->
  spend_crash [] d f -> SpendJournal_open f = (Ok (log_journal log), log_files log).
Proof.
  intros Hok Hl H1 H2 Hc. inversion Hc; subst. apply ahead_of_open; try done.
  by apply ahead_of_synced.
Qed.

(** A crash loses at most the blocks since the last [sync].  Blocks are appended
    to a synced journal and the journal is synced; whatever prefix of the file
    operations ran, and whichever unsynced bytes of either file were lost, opening
    the directory succeeds and gives exactly the old log or exactly the new one,
    with the files trimmed to it, and the completed run gives the new one. *)
Theorem spend_journal_recovers log bs d j' ops :
  log_ok (log ++ bs) -> sd_live d = log_files log ->
  sd_pending_entries d = 0%nat -> sd_pending_blocks d = 0%nat ->
  append_blocks (log_journal log) bs = (Ok j', ops) ->
  j' = log_journal (log ++ bs) /\
  sd_live (run_sops (ops ++ SpendJournal_sync j') d) = log_files (log ++ bs) /\
  SpendJournal_open (log_files (log ++ bs)) = (Ok j', log_files (log ++ bs)) /\
  forall f, spend_crash (ops ++ SpendJournal_sync j') d f ->
    SpendJournal_open f = (Ok (log_journal log), log_files log) \/
    SpendJournal_open f = (Ok (log_journal (log ++ bs)), log_files (log ++ bs)).
Proof.
  intros Hok Hl H1 H2 Ha. rewrite append_blocks_log in Ha by done. injection Ha as <- <-.
  assert (log_ok log) as Hok0 by (by eapply log_ok_prefix).
  assert (zlen (sj_blocks (log_journal (log ++ bs))) = zlen (log ++ bs)) as Hlen
    by (unfold zlen; cbn; by rewrite length_spend_blocks).
  destruct (run_log_ops log bs d) as [He Hb]; [by rewrite Hl..|].
  set (ops := log_ops _ bs) in *. set (d1 := run_sops ops d) in *.
  assert (sd_live (run_sops (SpendJournal_sync (log_journal (log ++ bs))) d1) = log_files (log ++ bs)) as Hdone.
  { unfold SpendJournal_sync, log_files. rewrite Hlen. cbn. unfold sfile. by rewrite He, Hb. }
  split; [done|]. split; [unfold run_sops; rewrite foldl_app; exact Hdone|]. split.
  { pose proof (open_exact (log ++ bs) [] [] Hok) as Ho. by rewrite !app_nil_r in Ho. }
  intros f Hc. apply (crash_in_appends log) in Hc as [Hc|[Ha Hc]]; try done; [by left| | |].
  - fold d1 in Ha, Hc. unfold SpendJournal_sync in Hc, Hdone. rewrite Hlen in Hc, Hdone.
    inversion Hc as [? ? ? ? Hk1 Hk2|? ? ? ? Hc1]; subst; [left; by apply ahead_of_open|].
    pose proof (ahead_of_sync _ _ Entries Ha) as Ha1.
    inversion Hc1 as [? ? ? ? Hk1 Hk2|? ? ? ? Hc2]; subst; [left; by apply ahead_of_open|].
    pose proof (ahead_of_sync _ _ Blocks Ha1) as Ha2.
    inversion Hc2 as [? ? ? ? Hk1 Hk2|? ? ? ? Hc3]; subst; [left; by apply ahead_of_open|].
    right. by apply (crash_after_sync _ _ _ Hok Hdone).
  - by apply ahead_of_synced.
  - apply log_ops_appends.
Qed.
End journal.

(** ** Tiers *)

Lemma collect_entries_ok es :
  Forall entry_ok es -> collect_entries (TransparentSpendEntry_to_bytes <$> es) = Ok es.
Proof.
  induction 1 as [|e es He _ IH]; [done|]. cbn [fmap list_fmap collect_entries].
  rewrite entry_from_to_bytes by done. cbn [ok_or]. by rewrite IH.
Qed.

(** Reading a middle part of the entries. *)
Lemma read_entries_spec d a b c :
  spf_entries d = Some (concat (TransparentSpendEntry_to_bytes <$> (a ++ b ++ c))) ->
  Forall entry_ok (a ++ b ++ c) -> zlen (a ++ b ++ c) < 2 ^ 50 ->
  SpendJournal_read_entries d (zlen a) (zlen b) = Ok b.
Proof.
  intros Hd Hok Hz. rewrite !Forall_app in Hok. destruct Hok as (Ha & Hb & Hc).
  autorewrite with zlen in Hz. pose proof (zlen_nonneg a). pose proof (zlen_nonneg b). pose proof (zlen_nonneg c).
  unfold SpendJournal_read_entries, SPEND_ENTRY_BYTES. rewrite !wrap64_small by (unfold u64_bound; lia).
  assert (zlen (concat (TransparentSpendEntry_to_bytes <$> a)) = zlen a * 80) as Hla
    by (unfold zlen; rewrite length_entries by done; lia).
  assert (zlen (concat (TransparentSpendEntry_to_bytes <$> b)) = zlen b * 80) as Hlb
    by (unfold zlen; rewrite length_entries by done; lia).
  assert ((if zlen b * 80 =? 0 then Ok []
    else ok_or (get_range (sfile d Entries) (zlen a * 80) (zlen a * 80 + zlen b * 80))
           "failed to fill whole buffer"%string) = Ok (concat (TransparentSpendEntry_to_bytes <$> b))) as ->.
  { destruct (zlen b * 80 =? 0) eqn:E; bool_prop.
    - destruct b; [done|]. rewrite zlen_cons in E. pose proof (zlen_nonneg b). lia.
    - unfold sfile. rewrite Hd. cbn [default from_option id].
      rewrite !fmap_app, !concat_app, <- Hla, <- Hlb, get_range_app. done. }
  change (Z.to_nat 80) with 80%nat. rewrite chunks_exact_concat; [by apply collect_entries_ok|lia| |lia].
  apply Forall_fmap. eapply Forall_impl; [exact Hb|]. intros e He. by apply length_entry.
Qed.

Definition cold_part (height : Z) (log : list LogBlock) : list LogBlock :=
  filter (fun b => lb_height b <= height) log.
Definition warm_part (height : Z) (log : list LogBlock) : list LogBlock :=
  filter (fun b => ~ lb_height b <= height) log.

Section tiers.
Context {hex : Hex} {hex_laws : HexLaws hex} {sha : Sha256} {sha_laws : Sha256Laws sha}.

Lemma consecutive_bounds h log : consecutive_from h log -> Forall (fun b => h <= lb_height b) log.
Proof.
  revert h. induction log as [|b log IH]; intros h; cbn; [constructor|]. intros [Hb Hc].
  constructor; [lia|]. eapply Forall_impl; [by apply IH|]. cbn. intros. lia.
Qed.

(** On consecutive heights the partition point splits the log by height. *)
Lemma partition_log h first log c :
  consecutive_from h log ->
  let k := partition_point (fun b => sb_height b <=? c) (spend_blocks first log) in
  take k log = cold_part c log /\ drop k log = warm_part c log.
Proof.
  revert h first. induction log as [|b log IH]; intros h first Hc; [done|].
  cbn [spend_blocks partition_point sb_height] in *. destruct Hc as [Hb Hc]. unfold cold_part, warm_part.
  destruct (lb_height b <=? c) eqn:E; bool_prop.
  - rewrite filter_cons_True, filter_cons_False by lia. cbn [take drop].
    destruct (IH _ (first + zlen (lb_entries b)) Hc) as [H1 H2]. unfold cold_part, warm_part in *.
    by rewrite H1, H2.
  - rewrite filter_cons_False, filter_cons_True by lia. cbn [take drop].
    pose proof (consecutive_bounds _ _ Hc) as Hall.
    assert (filter (fun b => lb_height b <= c) log = []) as ->.
    { clear IH Hc. induction Hall as [|x l Hx _ IHl]; [done|]. by rewrite filter_cons_False by lia. }
    assert (filter (fun b => ~ lb_height b <= c) log = log) as ->; [|done].
    clear IH Hc. induction Hall as [|x l Hx _ IHl]; [done|].
    rewrite filter_cons_True by lia. by rewrite IHl.
Qed.

(** The count of cold entries that [build] computes. *)
Lemma cold_count_log log k :
  zlen (log_entries log) < 2 ^ 50 ->
  match spend_blocks 0 log !! k with
  | Some block => sb_first_position block
  | None => next_position (spend_blocks 0 log)
  end = zlen (log_entries (take k log)).
Proof.
  intros Hz. destruct (spend_blocks 0 log !! k) as [block|] eqn:E.
  - assert (k < length log)%nat as Hk
      by (rewrite <- (length_spend_blocks 0 log); by eapply lookup_lt_Some).
    destruct (lookup_lt_is_Some_2 log k Hk) as [b Hb].
    rewrite <- (take_drop_middle log k b Hb), spend_blocks_app in E.
    rewrite lookup_app_r, length_spend_blocks, length_take_le, Nat.sub_diag in E
      by (rewrite ?length_spend_blocks, ?length_take; lia).
    cbn in E. injection E as <-. cbn. lia.
  - apply lookup_ge_None in E. rewrite length_spend_blocks in E.
    rewrite next_position_log, take_ge by done. done.
Qed.

Lemma split_entries c log :
  log_ok log -> log_entries log = log_entries (cold_part c log) ++ log_entries (warm_part c log).
Proof.
  intros Hok. destruct (partition_log _ 0 log c (lo_heights _ Hok)) as [<- <-].
  by rewrite <- log_entries_app, take_drop.
Qed.

(** [TransparentSpendTables::build] on the journal of a log. *)
Lemma tables_build_eq log tip :
  log_ok log -> let c := saturating_sub tip WARM_BLOCKS in
  TransparentSpendTables_build (log_journal log) (log_files log) tip =
  match BucketTable_build TransparentSpendCold (log_entries (cold_part c log)) with
  | Returned (Ok cold) =>
      match BucketTable_build TransparentSpendWarm (log_entries (warm_part c log)) with
      | Returned (Ok warm) =>
          Returned (Ok {| tst_cold_end_height := c; tst_cold := cold; tst_warm := warm |})
      | Returned (Err e) => Returned (Err e)
      | Panicked => Panicked
      | OutOfFuel => OutOfFuel
      end
  | Returned (Err e) => Returned (Err e)
  | Panicked => Panicked
  | OutOfFuel => OutOfFuel
  end.
Proof.
  intros Hok c. pose proof Hok as [Hc Hr Hh He Hz Hn]. unfold TransparentSpendTables_build.
  cbn [sj_blocks log_journal]. fold c. pose proof (split_entries c log Hok) as Hsplit.
  destruct (partition_log _ 0 log c Hc) as [Hcold Hwarm]. set (k := partition_point _ _) in *.
  rewrite (cold_count_log log k Hz), next_position_log by done. rewrite Hcold.
  set (cold := log_entries (cold_part c log)) in *. set (warm := log_entries (warm_part c log)) in *.
  assert (zlen (log_entries log) = zlen cold + zlen warm) as Hzs by (by rewrite Hsplit, zlen_app).
  pose proof (zlen_nonneg cold). pose proof (zlen_nonneg warm).
  replace (wrap64 (_ - _)) with (zlen warm) by (rewrite wrap64_small; unfold u64_bound; lia).
  rewrite (read_entries_spec _ [] cold warm);
    [|cbn [app spf_entries log_files]; unfold entry_bytes; by rewrite <- Hsplit|cbn [app]; by rewrite <- Hsplit..].
  rewrite (read_entries_spec _ cold warm []);
    [done|rewrite app_nil_r; cbn [spf_entries log_files]; unfold entry_bytes; by rewrite <- Hsplit
     |rewrite app_nil_r; by rewrite <- Hsplit..].
Qed.

Lemma tables_split log tip t :
  log_ok log -> TransparentSpendTables_build (log_journal log) (log_files log) tip = Returned (Ok t) ->
  let c := saturating_sub tip WARM_BLOCKS in
  BucketTable_build TransparentSpendCold (log_entries (cold_part c log)) = Returned (Ok (tst_cold t)) /\
  BucketTable_build TransparentSpendWarm (log_entries (warm_part c log)) = Returned (Ok (tst_warm t)).
Proof.
  intros Hok Hb c. rewrite tables_build_eq in Hb by done. fold c in Hb.
  destruct (BucketTable_build TransparentSpendCold _) as [[cold|]| |] eqn:E1; try done.
  destruct (BucketTable_build TransparentSpendWarm _) as [[warm|]| |] eqn:E2; try done.
  injection Hb as <-. done.
Qed.

Lemma tables_small log tip :
  log_ok log -> (length (log_entries log) <= 88)%nat ->
  exists t, TransparentSpendTables_build (log_journal log) (log_files log) tip = Returned (Ok t).
Proof.
  intros Hok Hl. rewrite tables_build_eq by done. set (c := saturating_sub tip WARM_BLOCKS).
  pose proof (lo_entries _ Hok) as He. rewrite (split_entries c log Hok) in He, Hl.
  rewrite length_app in Hl. apply Forall_app in He as [Hec Hew].
  destruct (build_small TransparentSpendCold (log_entries (cold_part c log))) as [cold ->]; [done..|lia|].
  destruct (build_small TransparentSpendWarm (log_entries (warm_part c log))) as [warm ->]; [done..|lia|].
  by eexists.
Qed.

(** ** The lookup of a wallet *)

Context {ipir : Ipir} {b64 : Base64Decode}.

(** The exchange of one tier is correct: a prepared query for a bucket comes back,
    within the size limit, as a response that decodes to the bucket's bytes. *)
Definition tier_serves (c : TableClient) (post : string -> list Z -> result SpendClientError (list Z))
    (tier : string) (t : BucketTable) : Prop :=
  db_rows (tc_params c) = bt_buckets t /\
  forall row rng, 0 <= row < bt_buckets t ->
    exists q response, TableClient_prepare c row rng = Ok q /\
      TransparentSpendPirClient_request post tier (sq_body q) = Ok response /\
      TableClient_decode c q response =
        Ok (slice (bt_rows t) (row * SPEND_ROW_BYTES) (row * SPEND_ROW_BYTES + SPEND_ROW_BYTES)).

Lemma NoDup_app_find {A} (P : A -> Prop) `{!forall x, Decision (P x)} {B} (f : A -> B) (l k : list A) x y :
  (forall a b, P a -> P b -> f a = f b) -> NoDup (f <$> (l ++ k)) ->
  snd <$> list_find P l = Some x -> snd <$> list_find P k = Some y -> False.
Proof.
  intros Hf Hn Hx Hy. destruct (list_find P l) as [[i a]|] eqn:E1; [|done].
  destruct (list_find P k) as [[i' a']|] eqn:E2; [|done].
  apply list_find_Some in E1 as (H1 & Hp1 & _), E2 as (H2 & Hp2 & _).
  rewrite fmap_app in Hn. apply NoDup_app in Hn as (_ & Hd & _).
  apply (Hd (f a)).
  - apply list_elem_of_fmap_2. by eapply list_elem_of_lookup_2.
  - rewrite (Hf a a') by done. apply list_elem_of_fmap_2. by eapply list_elem_of_lookup_2.
Qed.

Lemma find_app_snd {A} (P : A -> Prop) `{!forall x, Decision (P x)} (l k : list A) :
  snd <$> list_find P (l ++ k) =
  match snd <$> list_find P l with Some x => Some x | None => snd <$> list_find P k end.
Proof.
  induction l as [|a l IH]; [done|]. cbn [app list_find]. case_decide; [done|].
  destruct (list_find P (l ++ k)) as [[]|], (list_find P l) as [[]|]; cbn in *; done.
Qed.

(** C13: a wallet's lookup agrees with the log.  The tables are built from a log with
    distinct outpoints at a tip and both tiers are served correctly; then [lookup]
    of any outpoint returns [Spent] with the log's entry for it, or [Unspent] as of
    the session's tip when the log has none, and never an error; the cold table
    holds the entries of the blocks up to [tip - 100000] and the warm table the
    rest. *)
Theorem spend_lookup_exact log tip t c post txid index rng_cold rng_warm :
  log_ok log -> NoDup (outpoint <$> log_entries log) ->
  TransparentSpendTables_build (log_journal log) (log_files log) tip = Returned (Ok t) ->
  tier_serves (tsc_cold c) post "cold" (tst_cold t) ->
  tier_serves (tsc_warm c) post "warm" (tst_warm t) ->
  BucketTable_build TransparentSpendCold
    (log_entries (cold_part (saturating_sub tip WARM_BLOCKS) log)) = Returned (Ok (tst_cold t)) /\
  BucketTable_build TransparentSpendWarm
    (log_entries (warm_part (saturating_sub tip WARM_BLOCKS) log)) = Returned (Ok (tst_warm t)) /\
  TransparentSpendPirClient_lookup c post txid index rng_cold rng_warm =
  Ok (match snd <$> list_find (same_outpoint txid index) (log_entries log) with
      | Some e => Spent e
      | None => Unspent (ss_tip_height (tsc_session c))
      end).
Proof.
  intros Hok Hn Hb [Hc1 Hcold] [Hw1 Hwarm].
  destruct (tables_split log tip t Hok Hb) as [Hbc Hbw].
  split; [done|]. split; [done|].
  pose proof (split_entries (saturating_sub tip WARM_BLOCKS) log Hok) as Hsplit.
  pose proof (lo_entries _ Hok) as He. pose proof (lo_size _ Hok) as Hz. rewrite Hsplit in He, Hz, Hn.
  set (cold := log_entries (cold_part _ log)) in *. set (warm := log_entries (warm_part _ log)) in *.
  rewrite zlen_app in Hz. pose proof (zlen_nonneg cold). pose proof (zlen_nonneg warm).
  apply Forall_app in He as [Hec Hew].
  assert (NoDup (outpoint <$> cold) /\ NoDup (outpoint <$> warm)) as [Hnc Hnw].
  { rewrite fmap_app in Hn. by apply NoDup_app in Hn as (? & _ & ?). }
  destruct (bucket_scan _ _ _ txid index Hec ltac:(lia) Hnc Hbc) as (i & Hi & Hir & His).
  destruct (bucket_scan _ _ _ txid index Hew ltac:(lia) Hnw Hbw) as (k & Hk & Hkr & Hks).
  destruct (build_inv _ _ _ Hec ltac:(lia) Hbc) as (jc & Hjc & Hfc & _ & Hkc & Hrc).
  destruct (build_inv _ _ _ Hew ltac:(lia) Hbw) as (jw & Hjw & Hfw & _ & Hkw & Hrw).
  unfold TransparentSpendPirClient_lookup. rewrite Hc1, Hw1, Hi, Hk. cbn [ok_or].
  destruct (Hcold i rng_cold Hir) as (q1 & r1 & -> & Hq1 & Hd1).
  destruct (Hwarm k rng_warm Hkr) as (q2 & r2 & -> & Hq2 & Hd2).
  rewrite Hq1, Hq2, Hd1, Hd2, Hrc, Hrw, !table_row by (done || (rewrite <- ?Hkc, <- ?Hkw; done)).
  rewrite <- Hkc, <- Hkw, His, Hks. cbn [map_err]. rewrite Hsplit, find_app_snd.
  destruct (snd <$> list_find _ cold) as [x|] eqn:Ex, (snd <$> list_find _ warm) as [y|] eqn:Ey; try done.
  exfalso. eapply (NoDup_app_find (same_outpoint txid index) outpoint cold warm x y); try done.
  intros a b [Ha1 Ha2] [Hb1 Hb2]. unfold outpoint. congruence.
Qed.
End tiers.

(** ** Concrete instances *)

Definition spend_block (h n : Z) : LogBlock :=
  {| lb_height := h; lb_hash := replicate 32 (h mod 256); lb_entries := [sample_entry n] |}.

Definition sample_log : list LogBlock := [spend_block 5 1; spend_block 6 2].

Lemma sample_log_ok : log_ok sample_log.
Proof.
  split; [by repeat split|..|done|done].
  - by repeat constructor.
  - do 2 (apply Forall_cons; split; [split; [done|]; by apply (Forall_replicate _ 32)|]). constructor.
  - do 2 (apply Forall_cons; split; [by apply sample_entry_ok|]). constructor.
Qed.

Lemma bucket_lookup_exact_witness :
  exists t bucket shard,
    @BucketTable_build checksum32 TransparentSpendWarm [sample_entry 1; sample_entry 2] = Returned (Ok t) /\
    @bucket_for_outpoint checksum32 (replicate 32 2) 3 (bt_buckets t) = Some bucket /\
    BucketTable_read_shard_rows t (bucket / SPEND_SHARD_ROWS) = Ok shard /\
    scan_bucket (slice shard (bucket mod SPEND_SHARD_ROWS * SPEND_ROW_BYTES)
      (bucket mod SPEND_SHARD_ROWS * SPEND_ROW_BYTES + SPEND_ROW_BYTES)) (replicate 32 2) 3 =
    Ok (Some (sample_entry 2)).
Proof.
  assert (Forall entry_ok [sample_entry 1; sample_entry 2]) as He
    by (do 2 (apply Forall_cons; split; [by apply sample_entry_ok|]); constructor).
  destruct (@build_small checksum32 _ TransparentSpendWarm [sample_entry 1; sample_entry 2]
    ltac:(discriminate) He ltac:(cbn; lia)) as [t Ht].
  destruct (@bucket_lookup_exact checksum32 _ TransparentSpendWarm [sample_entry 1; sample_entry 2] t
    (replicate 32 2) 3 Ht He ltac:(reflexivity)) as (bucket & shard & H1 & _ & H2 & _ & H3).
  { refine (bool_decide_eq_true_1 _ _). vm_compute. reflexivity. }
  exists t, bucket, shard. split; [exact Ht|]. split; [exact H1|]. split; [exact H2|]. exact H3.
Defined.

Lemma bucket_build_total_witness :
  exists t, @BucketTable_build checksum32 TransparentSpendCold [sample_entry 1] = Returned (Ok t).
Proof.
  destruct (@bucket_build_total checksum32 _ TransparentSpendCold [sample_entry 1]) as (k & _ & _ & _ & Hs).
  - discriminate.
  - apply Forall_cons. split; [by apply sample_entry_ok|constructor].
  - reflexivity.
  - apply Hs. cbn. lia.
Defined.

(** One block is synced, a second is appended, and the crash keeps one byte of it. *)
Lemma spend_journal_recovers_witness :
  exists ops f,
    @append_blocks ascii_hex (@log_journal ascii_hex [spend_block 5 1]) [spend_block 6 2] =
      (Ok (@log_journal ascii_hex sample_log), ops) /\
    spend_crash (ops ++ SpendJournal_sync (@log_journal ascii_hex sample_log))
      {| sd_live := log_files [spend_block 5 1]; sd_pending_entries := 0; sd_pending_blocks := 0 |} f /\
    (@SpendJournal_open ascii_hex f =
       (Ok (@log_journal ascii_hex [spend_block 5 1]), log_files [spend_block 5 1]) \/
     @SpendJournal_open ascii_hex f = (Ok (@log_journal ascii_hex sample_log), log_files sample_log)).
Proof.
  set (d := {| sd_live := log_files [spend_block 5 1]; sd_pending_entries := 0; sd_pending_blocks := 0 |}).
  assert (@append_blocks ascii_hex (@log_journal ascii_hex [spend_block 5 1]) [spend_block 6 2] =
    (Ok (@log_journal ascii_hex sample_log), log_ops 1 [spend_block 6 2])) as Ha by (vm_compute; reflexivity).
  set (ops := log_ops 1 [spend_block 6 2]) in Ha.
  assert (spend_crash (ops ++ SpendJournal_sync (@log_journal ascii_hex sample_log)) d
    {| spf_entries := lose 79 <$> spf_entries (sd_live (run_sop d (SAppend Entries (TransparentSpendEntry_to_bytes (sample_entry 2)))));
       spf_blocks := lose 0 <$> spf_blocks (sd_live d); spf_checkpoint := spf_checkpoint (sd_live d) |}) as Hc.
  { apply spend_crash_later.
    apply (spend_crash_now _ (run_sop d (SAppend Entries (TransparentSpendEntry_to_bytes (sample_entry 2)))) 79 0);
      vm_compute; lia. }
  eexists ops, _. split; [exact Ha|]. split; [exact Hc|].
  destruct (@spend_journal_recovers ascii_hex _ [spend_block 5 1] [spend_block 6 2] d
    (@log_journal ascii_hex sample_log) ops sample_log_ok eq_refl eq_refl eq_refl Ha) as (_ & _ & _ & Hr).
  exact (Hr _ Hc).
Defined.

(** [rewind_to_height] cuts both files before it renames the checkpoint.  A crash in
    between leaves a checkpoint above the block index, and [open] refuses the
    directory from then on. *)
Lemma spend_rewind_crash_unopenable :
  exists f,
    spend_crash (snd (SpendJournal_rewind_to_height (@log_journal ascii_hex sample_log) (Some 5)))
      {| sd_live := log_files sample_log; sd_pending_entries := 0; sd_pending_blocks := 0 |} f /\
    fst (@SpendJournal_open ascii_hex f) = Err "transparent-spend checkpoint exceeds block index"%string.
Proof.
  eexists. split.
  - apply spend_crash_later, spend_crash_later, (spend_crash_now _ _ 0 0); vm_compute; lia.
  - vm_compute. reflexivity.
Qed.

(** A scheme that asks for a row in the clear, and a server that answers it. *)
Definition echo_ipir : Ipir := {|
  ipir_seed := unit; ipir_rng := unit;
  params_for_simplepir rows bits := Err "unused"%string;
  published_c1_len d q := 0; response_body_len d q := SPEND_ROW_BYTES;
  recover_published_c1 bytes _ _ _ := [bytes]; generate_setup _ seed := [seed];
  fresh_query _ _ row _ := ([row], [], tt); serialize_packing_keys keys := Ok keys;
  to_switched_bytes q _ _ := q; decode_response _ _ body := body |}.

Definition echo_generation : TransparentSpendGeneration := {|
  sg_schema_version := 1; sg_protocol_revision := SPEND_PROTOCOL_REVISION; sg_network := SPEND_NETWORK;
  sg_tip_height := 100005; sg_tip_block_hash := ""%string; sg_ironwood_tree_size := 0; sg_generation := 1;
  sg_cold_end_height := 5; sg_buckets := 8192; sg_row_bytes := SPEND_ROW_BYTES;
  sg_shard_rows := SPEND_SHARD_ROWS; sg_logical_rows := 8192; sg_parameter_id := ""%string;
  sg_setup_seed := COLD_SETUP_SEED; sg_public_params_epoch := ""%string;
  sg_public_params_sha256 := ""%string; sg_shards := [] |}.

Definition echo_client (t : BucketTable) : TableClient := {|
  tc_generation := echo_generation;
  tc_params := {| db_rows := bt_buckets t; db_cols := 1; ypir_p := 2; q_prime_1 := 1; query_bits := 1 |};
  tc_rlwe := {| rlwe_d := 1; rlwe_q := 1 |}; tc_setup := []; tc_published_c1 := [];
  tc_epoch := replicate 8 7 |}.

Definition echo_answer (t : BucketTable) (body : list Z) : list Z :=
  let row := List.last body 0 in
  le_bytes 8 1 ++ replicate 8 7 ++
  slice (bt_rows t) (row * SPEND_ROW_BYTES) (row * SPEND_ROW_BYTES + SPEND_ROW_BYTES).

Definition echo_post (t : TransparentSpendTables) (tier : string) (body : list Z) :
    result SpendClientError (list Z) :=
  Ok (echo_answer (if bool_decide (tier = "cold"%string) then tst_cold t else tst_warm t) body).

Lemma echo_serves t table entries tier b :
  @BucketTable_build checksum32 table entries = Returned (Ok b) -> Forall entry_ok entries ->
  zlen entries < 2 ^ 50 -> b = (if bool_decide (tier = "cold"%string) then tst_cold t else tst_warm t) ->
  @tier_serves echo_ipir (@echo_client b) (echo_post t) tier b.
Proof.
  intros Hb He Hz Hsel. destruct (build_inv _ _ _ He Hz Hb) as (j & Hj & Hfit & _ & Hbk & Hrows).
  split; [done|]. intros row [] Hrow.
  set (bytes := slice (bt_rows b) (row * SPEND_ROW_BYTES) (row * SPEND_ROW_BYTES + SPEND_ROW_BYTES)).
  assert (zlen bytes = SPEND_ROW_BYTES) as Hlen.
  { unfold bytes. rewrite Hrows, table_row by (done || by rewrite <- Hbk). apply length_render.
    - by apply Forall_bucket.
    - unfold fits in Hfit. rewrite Forall_lookup in Hfit. apply (Hfit (Z.to_nat row)).
      apply buckets_of_lookup. by rewrite <- Hbk. }
  exists (@Build_SpendQuery echo_ipir (le_bytes 8 1 ++ [] ++ [row]) tt), (le_bytes 8 1 ++ replicate 8 7 ++ bytes).
  assert (zlen (le_bytes 8 1 ++ replicate 8 7 ++ bytes) = 16 + SPEND_ROW_BYTES) as Htot
    by (rewrite !zlen_app, Hlen; reflexivity).
  split_and!.
  - unfold TableClient_prepare. cbn [db_rows tc_params echo_client]. guards. reflexivity.
  - unfold TransparentSpendPirClient_request, echo_post. rewrite <- Hsel.
    change (echo_answer b _) with (le_bytes 8 1 ++ replicate 8 7 ++ bytes). rewrite Htot. reflexivity.
  - unfold TableClient_decode.
    assert (get_range (le_bytes 8 1 ++ replicate 8 7 ++ bytes) 0 8 = Some (le_bytes 8 1)) as ->
      by apply (get_range_app []).
    assert (get_range (le_bytes 8 1 ++ replicate 8 7 ++ bytes) 8 16 = Some (replicate 8 7)) as ->
      by apply (get_range_app (le_bytes 8 1)).
    rewrite !bool_decide_true by done. cbn [negb]. rewrite Htot.
    change (negb (16 + SPEND_ROW_BYTES =? _)) with false. cbv iota.
    change (drop 16 (le_bytes 8 1 ++ replicate 8 7 ++ bytes)) with bytes.
    cbn [decode_response echo_ipir]. rewrite <- Hlen.
    pose proof (get_range_app [] bytes []) as Hg. rewrite app_nil_l, app_nil_r, zlen_nil, Z.add_0_l in Hg.
    by rewrite Hg.
Qed.

Lemma sample_entries_ok n : 0 <= n < 256 -> Forall entry_ok [sample_entry n].
Proof. intros Hn. apply Forall_cons. split; [by apply sample_entry_ok|constructor]. Qed.

Lemma sample_entries_short n : zlen [sample_entry n] < 2 ^ 50.
Proof. reflexivity. Qed.

Definition echo_session (b : BucketTable) : TransparentSpendTableSession := {|
  sts_generation := echo_generation;
  sts_params := {| db_rows := bt_buckets b; db_cols := 1; ypir_p := 2; q_prime_1 := 1; query_bits := 1 |};
  sts_public_params_base64 := ""%string |}.

Definition echo_wallet (t : TransparentSpendTables) : TransparentSpendPirClient := {|
  tsc_session := {| ss_tip_height := 100005; ss_tip_block_hash := ""%string; ss_ironwood_tree_size := 0;
    ss_generation := 1; ss_cold_end_height := 5; ss_cold := echo_session (tst_cold t);
    ss_warm := echo_session (tst_warm t) |};
  tsc_cold := echo_client (tst_cold t); tsc_warm := echo_client (tst_warm t) |}.

Lemma spend_lookup_exact_witness :
  exists t, @TransparentSpendTables_build checksum32 (@log_journal ascii_hex sample_log)
      (log_files sample_log) 100005 = Returned (Ok t) /\
    @TransparentSpendPirClient_lookup checksum32 echo_ipir (echo_wallet t) (echo_post t)
      (replicate 32 2) 3 tt tt = Ok (Spent (sample_entry 2)).
Proof.
  destruct (@tables_small ascii_hex checksum32 _ sample_log 100005 sample_log_ok ltac:(cbn; lia)) as [t Ht].
  destruct (@tables_split ascii_hex checksum32 sample_log 100005 t sample_log_ok Ht) as [Hc Hw].
  cbv zeta in Hc, Hw.
  assert (log_entries (cold_part (saturating_sub 100005 WARM_BLOCKS) sample_log) = [sample_entry 1]) as Ec
    by (vm_compute; reflexivity).
  assert (log_entries (warm_part (saturating_sub 100005 WARM_BLOCKS) sample_log) = [sample_entry 2]) as Ew
    by (vm_compute; reflexivity).
  rewrite Ec in Hc. rewrite Ew in Hw.
  pose proof (echo_serves t TransparentSpendCold [sample_entry 1] "cold" (tst_cold t) Hc
    (sample_entries_ok 1 ltac:(lia)) (sample_entries_short 1) eq_refl) as H1.
  pose proof (echo_serves t TransparentSpendWarm [sample_entry 2] "warm" (tst_warm t) Hw
    (sample_entries_ok 2 ltac:(lia)) (sample_entries_short 2) eq_refl) as H2.
  assert (NoDup (outpoint <$> log_entries sample_log)) as H3
    by (refine (bool_decide_eq_true_1 _ _); vm_compute; reflexivity).
  assert (snd <$> list_find (same_outpoint (replicate 32 2) 3) (log_entries sample_log) =
    Some (sample_entry 2)) as H4 by (vm_compute; reflexivity).
  destruct (@spend_lookup_exact ascii_hex checksum32 _ echo_ipir sample_log 100005 t
    (echo_wallet t) (echo_post t) (replicate 32 2) 3 tt tt sample_log_ok H3 Ht H1 H2) as (_ & _ & H5).
  exists t. split; [exact Ht|]. rewrite H4 in H5. exact H5.
Defined.
