(* ===== verification/CommitmentTree.v ===== *)
(** * The note commitment tree of the witness demonstration

    Models [demos/legacy-spendability/witness/witness-types/src/lib.rs] (the
    geometry) and [demos/legacy-spendability/witness/commitment-tree-db/src/lib.rs]:
    the leaves of a window of the tree with the roots of the shards before it,
    appends and rollbacks with the cache of sub-shard roots, the shard and tree
    roots, and the single pass that builds the PIR database and the broadcast.
    [MerkleHashOrchard] belongs to the [orchard] crate and is the class
    [MerkleHash]; its conversion from bytes fails on a non-canonical encoding, which
    the code turns into a panic, so the operations return an option.  The theorems
    relate all of it to the plain definition of the tree ([node]): every root the
    code computes, sparse, sharded or cached, is the node of the specification, and
    the cache never holds a stale root. *)

From Stdlib Require Import ZArith Lia.
From stdpp Require Import base numbers list strings sorting.
From S2P Require Import Prelude.

Open Scope Z_scope.

(** ** Geometry *)

Definition TREE_DEPTH : Z := 32.
Definition SHARD_HEIGHT : Z := 16.
Definition SUBSHARD_HEIGHT : Z := 8.
Definition SUBSHARD_LEAVES : Z := Z.shiftl 1 SUBSHARD_HEIGHT.
Definition SUBSHARDS_PER_SHARD : Z := Z.shiftl 1 SUBSHARD_HEIGHT.
Definition SHARD_LEAVES : Z := Z.shiftl 1 SHARD_HEIGHT.
Definition SUBSHARD_ROW_BYTES : Z := SUBSHARD_LEAVES * 32.
Definition L0_DB_ROWS : Z := 8192.
Definition L0_DB_BYTES : Z := L0_DB_ROWS * SUBSHARD_ROW_BYTES.
Definition L0_MAX_SHARDS : Z := 32.

(** [[u8; 32]]. *)
Definition Hash : Type := list Z.

Record PirWitness := {
  pw_position : Z; pw_siblings : list Hash; pw_anchor_height : Z; pw_anchor_root : Hash }.

Definition PirWitness_shard_index (w : PirWitness) : Z := wrap32 (Z.shiftr (pw_position w) SHARD_HEIGHT).
Definition PirWitness_subshard_index (w : PirWitness) : Z :=
  Z.land (Z.shiftr (pw_position w) SUBSHARD_HEIGHT) 0xFF.
Definition PirWitness_leaf_index (w : PirWitness) : Z := Z.land (pw_position w) 0xFF.

Definition decompose_position (position : Z) : Z * Z * Z :=
  let shard_index := wrap32 (Z.shiftr position SHARD_HEIGHT) in
  let subshard_index := Z.land (Z.shiftr position SUBSHARD_HEIGHT) 0xFF in
  let leaf_index := Z.land position 0xFF in
  (shard_index, subshard_index, leaf_index).

Definition physical_row_index (shard_index subshard_index window_start_shard : Z) : Z :=
  wrap32 (shard_index - window_start_shard) * SUBSHARDS_PER_SHARD + subshard_index.

Record CapData := { cap_shard_roots : list Hash }.
Record ShardSubRoots := { ssr_roots : list Hash }.
Record BroadcastData := {
  bc_cap : CapData; bc_subshard_roots : list ShardSubRoots;
  bc_window_start_shard : Z; bc_window_shard_count : Z; bc_anchor_height : Z }.

(** The constants as numbers, for linear arithmetic. *)
Ltac geometry :=
  change SHARD_LEAVES with 65536 in *; change SUBSHARD_LEAVES with 256 in *;
  change SUBSHARDS_PER_SHARD with 256 in *; change L0_DB_ROWS with 8192 in *;
  change TREE_DEPTH with 32 in *; change SHARD_HEIGHT with 16 in *;
  change SUBSHARD_HEIGHT with 8 in *; change L0_MAX_SHARDS with 32 in *;
  change (2 ^ Z.of_nat 8) with 256 in *; change (2 ^ Z.of_nat 16) with 65536 in *;
  change (2 ^ 32) with 4294967296 in *.

(** ** The hash of the tree *)

Class MerkleHash := {
  mho : Type;
  mho_empty_leaf : mho;
  mho_combine : Z -> mho -> mho -> mho;
  mho_empty_root : Z -> mho;
  mho_to_bytes : mho -> Hash;
  mho_from_bytes : Hash -> option mho }.

(** What [orchard] and [incrementalmerkletree] document: 32-byte canonical
    encodings, and [empty_root] as the root of an empty subtree. *)
Class MerkleHashLaws `{MerkleHash} := {
  mho_from_to x : mho_from_bytes (mho_to_bytes x) = Some x;
  mho_to_from b x : mho_from_bytes b = Some x -> mho_to_bytes x = b;
  mho_to_bytes_length x : length (mho_to_bytes x) = 32%nat;
  mho_to_bytes_ok x : bytes_ok (mho_to_bytes x);
  mho_empty_root_leaf : mho_empty_root 0 = mho_empty_leaf;
  mho_empty_root_combine l : 0 <= l < TREE_DEPTH ->
    mho_empty_root (l + 1) = mho_combine l (mho_empty_root l) (mho_empty_root l) }.

Section tree.
Context `{MerkleHash}.

Definition bytes_to_mho (hash : Hash) : option mho := mho_from_bytes hash.

Definition hash_combine (level : Z) (lhs rhs : Hash) : option Hash :=
  l ← bytes_to_mho lhs;
  r ← bytes_to_mho rhs;
  Some (mho_to_bytes (mho_combine level l r)).

Fixpoint empty_roots_above (n : nat) (level : Z) (current : mho) : list Hash :=
  match n with
  | O => []
  | S n =>
      let current := mho_combine level current current in
      mho_to_bytes current :: empty_roots_above n (level + 1) current
  end.

Definition precompute_empty_roots : list Hash :=
  mho_to_bytes mho_empty_leaf :: empty_roots_above (Z.to_nat TREE_DEPTH) 0 mho_empty_leaf.

(** One level of [complete_subtree_root]: [chunks_exact(2)]. *)
Fixpoint combine_pairs (level : Z) (nodes : list Hash) : option (list Hash) :=
  match nodes with
  | lhs :: rhs :: rest =>
      h ← hash_combine level lhs rhs;
      next ← combine_pairs level rest;
      Some (h :: next)
  | _ => Some []
  end.

(** The loop over the levels; each halves the nodes, so their number is fuel enough. *)
Fixpoint collapse (fuel : nat) (level : Z) (current : list Hash) : option Hash :=
  match fuel with
  | O => None
  | S fuel =>
      if 1 <? zlen current then
        next ← combine_pairs level current;
        collapse fuel ((level + 1) mod 256) next
      else current !! 0%nat
  end.

Definition complete_subtree_root (leaves : list Hash) (base_level : Z) : option Hash :=
  if zlen leaves =? 1 then leaves !! 0%nat
  else collapse (S (length leaves)) base_level leaves.

Fixpoint sparse_root_rec (fuel : nat) (leaves : list Hash) (offset size base_level : Z)
    (empty_roots : list Hash) : option Hash :=
  match fuel with
  | O => None
  | S fuel =>
      if size =? 1 then
        if offset <? zlen leaves then leaves !! Z.to_nat offset
        else empty_roots !! Z.to_nat base_level
      else
        let half := size / 2 in
        let child_height := trailing_zeros half in
        let combine_level := base_level + child_height in
        lhs ← sparse_root_rec fuel leaves offset half base_level empty_roots;
        rhs ← (if zlen leaves <=? offset + half then empty_roots !! Z.to_nat combine_level
                 else sparse_root_rec fuel leaves (offset + half) half base_level empty_roots);
        hash_combine combine_level lhs rhs
  end.

(** The recursion halves [capacity] until it is one. *)
Definition sparse_subtree_root (populated : list Hash) (capacity base_level : Z)
    (empty_roots : list Hash) : option Hash :=
  sparse_root_rec (S (Z.to_nat (Z.log2 capacity))) populated 0 capacity base_level empty_roots.

(** ** The database *)

Record BlockRecord := { br_height : Z; br_hash : Hash; br_num_commitments : Z }.

Record CommitmentTreeDb := {
  ct_leaves : list Hash;
  ct_blocks : list BlockRecord;
  ct_empty_roots : list Hash;
  ct_leaf_offset : Z;
  ct_prefetched_shard_roots : list Hash;
  ct_ss_root_cache : list (option Hash) }.

Definition CommitmentTreeDb_with_offset (leaf_offset : Z) (prefetched_shard_roots : list Hash) :
    CommitmentTreeDb :=
  {| ct_leaves := []; ct_blocks := []; ct_empty_roots := precompute_empty_roots;
     ct_leaf_offset := leaf_offset; ct_prefetched_shard_roots := prefetched_shard_roots;
     ct_ss_root_cache := replicate (Z.to_nat L0_DB_ROWS) None |}.

Definition CommitmentTreeDb_new : CommitmentTreeDb :=
  {| ct_leaves := []; ct_blocks := []; ct_empty_roots := precompute_empty_roots;
     ct_leaf_offset := 0; ct_prefetched_shard_roots := [];
     ct_ss_root_cache := replicate (Z.to_nat L0_DB_ROWS) None |}.

Definition tree_size (t : CommitmentTreeDb) : Z := wrap64 (ct_leaf_offset t + zlen (ct_leaves t)).
Definition latest_height (t : CommitmentTreeDb) : option Z := br_height <$> last (ct_blocks t).
Definition latest_block_hash (t : CommitmentTreeDb) : option Hash := br_hash <$> last (ct_blocks t).

Definition populated_shards (t : CommitmentTreeDb) : Z :=
  let total := tree_size t in
  if total =? 0 then 0 else wrap32 ((total - 1) / SHARD_LEAVES + 1).

Definition window_start_shard (t : CommitmentTreeDb) : Z := wrap32 (ct_leaf_offset t / SHARD_LEAVES).

Definition local_shard_count (t : CommitmentTreeDb) : Z :=
  if bool_decide (ct_leaves t = []) then 0 else
  let first_local_shard := window_start_shard t in
  let last_local_shard := wrap32 ((tree_size t - 1) / SHARD_LEAVES) in
  wrap32 (last_local_shard - first_local_shard + 1).

Definition window_shard_count (t : CommitmentTreeDb) : Z := Z.min (local_shard_count t) L0_MAX_SHARDS.

(** [for slot in first..=last { cache[slot] = None }].  The cache always has
    [L0_DB_ROWS] slots and the callers stay below that, so no index panics. *)
Definition invalidate (cache : list (option Hash)) (first last : Z) : list (option Hash) :=
  foldl (fun cache slot => <[Z.to_nat slot := None]> cache) cache (seqZ first (last - first + 1)).

Definition append_commitments (t : CommitmentTreeDb) (height : Z) (hash : Hash)
    (commitments : list Hash) : CommitmentTreeDb :=
  let '(leaves, cache) :=
    if bool_decide (commitments = []) then (ct_leaves t, ct_ss_root_cache t) else
    let old_local_len := zlen (ct_leaves t) in
    let leaves := ct_leaves t ++ commitments in
    let new_local_len := zlen leaves in
    let first_dirty := old_local_len / SUBSHARD_LEAVES in
    let last_dirty := (new_local_len - 1) / SUBSHARD_LEAVES in
    (leaves, invalidate (ct_ss_root_cache t) first_dirty (Z.min last_dirty (L0_DB_ROWS - 1))) in
  {| ct_leaves := leaves;
     ct_blocks := ct_blocks t ++
       [{| br_height := height; br_hash := hash; br_num_commitments := wrap32 (zlen commitments) |}];
     ct_empty_roots := ct_empty_roots t; ct_leaf_offset := ct_leaf_offset t;
     ct_prefetched_shard_roots := ct_prefetched_shard_roots t; ct_ss_root_cache := cache |}.

(** The loop of [rollback_to], over the blocks from the last one. *)
Fixpoint pop_above (target_height : Z) (blocks : list BlockRecord) (to_remove : Z) :
    list BlockRecord * Z :=
  match blocks with
  | b :: rest =>
      if target_height <? br_height b
      then pop_above target_height rest (wrap64 (to_remove + br_num_commitments b))
      else (blocks, to_remove)
  | [] => ([], to_remove)
  end.

Definition rollback_to (t : CommitmentTreeDb) (target_height : Z) : CommitmentTreeDb :=
  let '(kept, to_remove) := pop_above target_height (reverse (ct_blocks t)) 0 in
  let new_len := saturating_sub (zlen (ct_leaves t)) to_remove in
  let frontier_slot := if new_len =? 0 then 0 else (new_len - 1) / SUBSHARD_LEAVES in
  {| ct_leaves := take (Z.to_nat new_len) (ct_leaves t); ct_blocks := reverse kept;
     ct_empty_roots := ct_empty_roots t; ct_leaf_offset := ct_leaf_offset t;
     ct_prefetched_shard_roots := ct_prefetched_shard_roots t;
     ct_ss_root_cache := invalidate (ct_ss_root_cache t) frontier_slot (L0_DB_ROWS - 1) |}.

Definition subshard_leaves (t : CommitmentTreeDb) (shard_idx subshard_idx : Z) : option (list Hash) :=
  let global_start := shard_idx * SHARD_LEAVES + subshard_idx * SUBSHARD_LEAVES in
  empty_leaf ← ct_empty_roots t !! 0%nat;
  mapM (fun i =>
    let global_pos := global_start + i in
    let local_pos := wrap64 (global_pos - ct_leaf_offset t) in
    if (ct_leaf_offset t <=? global_pos) && (local_pos <? zlen (ct_leaves t))
    then ct_leaves t !! Z.to_nat local_pos
    else Some empty_leaf) (seqZ 0 SUBSHARD_LEAVES).

Definition subshard_roots (t : CommitmentTreeDb) (shard_idx : Z) : option (list Hash) :=
  let shard_global_start := shard_idx * SHARD_LEAVES in
  empty_ss_root ← ct_empty_roots t !! Z.to_nat SUBSHARD_HEIGHT;
  let total := tree_size t in
  mapM (fun ss =>
    let ss_global_start := shard_global_start + ss * SUBSHARD_LEAVES in
    if total <=? ss_global_start then Some empty_ss_root else
    leaves ← subshard_leaves t shard_idx ss;
    complete_subtree_root leaves 0) (seqZ 0 SUBSHARDS_PER_SHARD).

(** The root of a shard before the window. *)
Definition prefetched_root (t : CommitmentTreeDb) (i : Z) : option Hash :=
  if i <? zlen (ct_prefetched_shard_roots t) then ct_prefetched_shard_roots t !! Z.to_nat i
  else ct_empty_roots t !! Z.to_nat SHARD_HEIGHT.

Definition shard_roots (t : CommitmentTreeDb) : option (list (Z * Hash)) :=
  let n := populated_shards t in
  let window_start := window_start_shard t in
  mapM (fun i =>
    if i <? window_start then
      root ← prefetched_root t i; Some (i, root)
    else
      ss_roots ← subshard_roots t i;
      root ← complete_subtree_root ss_roots SUBSHARD_HEIGHT;
      Some (i, root)) (seqZ 0 n).

Definition tree_root (t : CommitmentTreeDb) : option Hash :=
  if tree_size t =? 0 then ct_empty_roots t !! Z.to_nat TREE_DEPTH else
  roots ← shard_roots t;
  sparse_subtree_root (snd <$> roots) (Z.shiftl 1 SHARD_HEIGHT) SHARD_HEIGHT (ct_empty_roots t).

(** ** The PIR database and the broadcast *)

(** What the loops of [build_pir_db_and_broadcast] accumulate. *)
Record BuildPass := {
  bp_cache : list (option Hash); bp_db : list Z;
  bp_ss_roots : list Hash; bp_cap_roots : list Hash; bp_broadcast_ss : list ShardSubRoots }.

(** One sub-shard: its leaves go to the database, its root to [ss_roots]. *)
Definition build_subshard (t : CommitmentTreeDb) (i : Z) (p : BuildPass) (ss : Z) : option BuildPass :=
  let shard_idx := wrap32 (window_start_shard t + i) in
  let shard_global_start := shard_idx * SHARD_LEAVES in
  let cache_slot := i * SUBSHARDS_PER_SHARD + ss in
  empty_ss_root ← ct_empty_roots t !! Z.to_nat SUBSHARD_HEIGHT;
  leaves ← subshard_leaves t shard_idx ss;
  let db := bp_db p ++ concat leaves in
  let ss_global_start := shard_global_start + ss * SUBSHARD_LEAVES in
  let done cache root :=
    {| bp_cache := cache; bp_db := db; bp_ss_roots := bp_ss_roots p ++ [root];
       bp_cap_roots := bp_cap_roots p; bp_broadcast_ss := bp_broadcast_ss p |} in
  if tree_size t <=? ss_global_start then Some (done (bp_cache p) empty_ss_root) else
  cached ← bp_cache p !! Z.to_nat cache_slot;
  match cached with
  | Some root => Some (done (bp_cache p) root)
  | None =>
      root ← complete_subtree_root leaves 0;
      Some (done (<[Z.to_nat cache_slot := Some root]> (bp_cache p)) root)
  end.

(** One shard of the window. *)
Definition build_shard (t : CommitmentTreeDb) (p : BuildPass) (i : Z) : option BuildPass :=
  let start :=
    {| bp_cache := bp_cache p; bp_db := bp_db p; bp_ss_roots := [];
       bp_cap_roots := bp_cap_roots p; bp_broadcast_ss := bp_broadcast_ss p |} in
  p ← for_each (build_subshard t i) start (seqZ 0 SUBSHARDS_PER_SHARD);
  shard_root ← complete_subtree_root (bp_ss_roots p) SUBSHARD_HEIGHT;
  Some {| bp_cache := bp_cache p; bp_db := bp_db p; bp_ss_roots := [];
          bp_cap_roots := bp_cap_roots p ++ [shard_root];
          bp_broadcast_ss := bp_broadcast_ss p ++ [{| ssr_roots := bp_ss_roots p |}] |}.

Definition build_pir_db_and_broadcast (t : CommitmentTreeDb) (anchor_height : Z) :
    option (list Z * BroadcastData * CommitmentTreeDb) :=
  let window_start := window_start_shard t in
  let window_count := window_shard_count t in
  cap_roots ← mapM (prefetched_root t) (seqZ 0 window_start);
  p ← for_each (build_shard t)
        {| bp_cache := ct_ss_root_cache t; bp_db := []; bp_ss_roots := [];
           bp_cap_roots := cap_roots; bp_broadcast_ss := [] |} (seqZ 0 window_count);
  let db := resize (Z.to_nat L0_DB_BYTES) 0 (bp_db p) in
  let broadcast :=
    {| bc_cap := {| cap_shard_roots := bp_cap_roots p |};
       bc_subshard_roots := bp_broadcast_ss p;
       bc_window_start_shard := window_start; bc_window_shard_count := window_count;
       bc_anchor_height := anchor_height |} in
  Some (db, broadcast,
    {| ct_leaves := ct_leaves t; ct_blocks := ct_blocks t; ct_empty_roots := ct_empty_roots t;
       ct_leaf_offset := ct_leaf_offset t;
       ct_prefetched_shard_roots := ct_prefetched_shard_roots t;
       ct_ss_root_cache := bp_cache p |}).

Definition broadcast_data (t : CommitmentTreeDb) (anchor_height : Z) :
    option (BroadcastData * CommitmentTreeDb) :=
  '(_, broadcast, t) ← build_pir_db_and_broadcast t anchor_height; Some (broadcast, t).

Definition build_pir_db (t : CommitmentTreeDb) : option (list Z * CommitmentTreeDb) :=
  '(db, _, t) ← build_pir_db_and_broadcast t 0; Some (db, t).

End tree.

(** ** The tree, as specified *)

Section spec.
Context `{MerkleHashLaws}.

(** The node at level [l] and index [i] over the leaves [leaf]. *)
Fixpoint node (leaf : Z -> mho) (l : nat) (i : Z) : mho :=
  match l with
  | O => leaf i
  | S l => mho_combine (Z.of_nat l) (node leaf l (2 * i)) (node leaf l (2 * i + 1))
  end.

(** Appended leaves, then empty ones. *)
Definition leaf_at (all : list mho) (i : Z) : mho := default mho_empty_leaf (all !! Z.to_nat i).

(** The bytes of [n] consecutive nodes of a level. *)
Definition nodes (leaf : Z -> mho) (l : nat) (start n : Z) : list Hash :=
  (fun i => mho_to_bytes (node leaf l i)) <$> seqZ start n.

Definition merkle_root (all : list mho) : Hash :=
  mho_to_bytes (node (leaf_at all) (Z.to_nat TREE_DEPTH) 0).

Lemma node_ext f g l i :
  (forall j, i * 2 ^ Z.of_nat l <= j < (i + 1) * 2 ^ Z.of_nat l -> f j = g j) -> node f l i = node g l i.
Proof.
  revert i. induction l as [|l IH]; intros i Hfg; cbn [node].
  - apply Hfg. change (2 ^ Z.of_nat 0) with 1. lia.
  - rewrite Nat2Z.inj_succ, Z.pow_succ_r in Hfg by lia.
    f_equal; apply IH; intros j Hj; apply Hfg; nia.
Qed.

Lemma node_empty f l i :
  Z.of_nat l <= TREE_DEPTH ->
  (forall j, i * 2 ^ Z.of_nat l <= j < (i + 1) * 2 ^ Z.of_nat l -> f j = mho_empty_leaf) ->
  node f l i = mho_empty_root (Z.of_nat l).
Proof.
  revert i. induction l as [|l IH]; intros i Hl Hf; cbn [node].
  - rewrite mho_empty_root_leaf. apply Hf. change (2 ^ Z.of_nat 0) with 1. lia.
  - rewrite Nat2Z.inj_succ, Z.pow_succ_r in Hf by lia.
    rewrite !IH by (lia || (intros j Hj; apply Hf; nia)).
    rewrite Nat2Z.inj_succ. unfold Z.succ. by rewrite mho_empty_root_combine by lia.
Qed.

Lemma zlen_nodes f l s n : 0 <= n -> zlen (nodes f l s n) = n.
Proof. intros. unfold nodes, zlen. rewrite length_fmap, length_seqZ. lia. Qed.

Lemma nodes_lookup f l s n k :
  0 <= k < n -> nodes f l s n !! Z.to_nat k = Some (mho_to_bytes (node f l (s + k))).
Proof.
  intros. unfold nodes. rewrite list_lookup_fmap, lookup_seqZ_lt by lia. cbn. do 3 f_equal. lia.
Qed.

Lemma nodes_app f l s n m :
  0 <= n -> 0 <= m -> nodes f l s (n + m) = nodes f l s n ++ nodes f l (s + n) m.
Proof. intros. unfold nodes. by rewrite seqZ_app, fmap_app by lia. Qed.

Lemma nodes_cons f l s n :
  0 < n -> nodes f l s n = mho_to_bytes (node f l s) :: nodes f l (s + 1) (n - 1).
Proof. intros. unfold nodes. by rewrite seqZ_cons by lia. Qed.

Lemma nodes_ext f g l s n :
  (forall j, s * 2 ^ Z.of_nat l <= j < (s + n) * 2 ^ Z.of_nat l -> f j = g j) ->
  nodes f l s n = nodes g l s n.
Proof.
  intros Hfg. apply list_fmap_ext. intros k i Hk. f_equal. apply node_ext.
  apply lookup_seqZ in Hk as [-> Hk]. intros j Hj. apply Hfg.
  pose proof (Z.pow_pos_nonneg 2 (Z.of_nat l)). nia.
Qed.

Lemma hash_combine_node f l i :
  hash_combine (Z.of_nat l) (mho_to_bytes (node f l (2 * i))) (mho_to_bytes (node f l (2 * i + 1))) =
  Some (mho_to_bytes (node f (S l) i)).
Proof. unfold hash_combine, bytes_to_mho. by rewrite !mho_from_to. Qed.

Lemma combine_pairs_nodes f l s (n : nat) :
  combine_pairs (Z.of_nat l) (nodes f l (2 * s) (2 * Z.of_nat n)) =
  Some (nodes f (S l) s (Z.of_nat n)).
Proof.
  revert s. induction n as [|n IH]; intros s; [done|].
  rewrite (nodes_cons f l), (nodes_cons f l), (nodes_cons f (S l)) by lia. cbn [combine_pairs].
  rewrite hash_combine_node. cbn [mbind option_bind].
  replace (2 * s + 1 + 1) with (2 * (s + 1)) by lia.
  replace (2 * Z.of_nat (S n) - 1 - 1) with (2 * Z.of_nat n) by lia.
  replace (Z.of_nat (S n) - 1) with (Z.of_nat n) by lia. by rewrite IH.
Qed.

Lemma collapse_nodes f (k : nat) : forall fuel l s,
  (k < fuel)%nat -> (l + k < 256)%nat ->
  collapse fuel (Z.of_nat l) (nodes f l (s * 2 ^ Z.of_nat k) (2 ^ Z.of_nat k)) =
  Some (mho_to_bytes (node f (l + k) s)).
Proof.
  induction k as [|k IH]; intros [|fuel] l s Hfuel Hl; [lia| |lia|]; cbn [collapse];
    rewrite zlen_nodes by lia.
  - change (2 ^ Z.of_nat 0) with 1. guards. rewrite Nat.add_0_r, Z.mul_1_r.
    rewrite (nodes_cons f l) by lia. done.
  - rewrite Nat2Z.inj_succ, Z.pow_succ_r by lia.
    pose proof (Z.pow_pos_nonneg 2 (Z.of_nat k)). guards.
    replace (s * (2 * 2 ^ Z.of_nat k)) with (2 * (s * 2 ^ Z.of_nat k)) by lia.
    rewrite <- (Z2Nat.id (2 ^ Z.of_nat k)) at 2 by lia.
    rewrite combine_pairs_nodes. cbn [mbind option_bind].
    rewrite Z2Nat.id, Z.mod_small by lia.
    replace (Z.of_nat l + 1) with (Z.of_nat (S l)) by lia.
    rewrite IH by lia. by rewrite Nat.add_succ_comm.
Qed.

Lemma pow2_gt (k : nat) : (k < S (Z.to_nat (2 ^ Z.of_nat k)))%nat.
Proof.
  pose proof (Z.pow_gt_lin_r 2 (Z.of_nat k)). lia.
Qed.

(** Collapsing [2^k] consecutive nodes gives their ancestor. *)
Lemma complete_subtree_root_nodes f (k l : nat) s :
  (l + k < 256)%nat ->
  complete_subtree_root (nodes f l (s * 2 ^ Z.of_nat k) (2 ^ Z.of_nat k)) (Z.of_nat l) =
  Some (mho_to_bytes (node f (l + k) s)).
Proof.
  intros Hl. pose proof (Z.pow_pos_nonneg 2 (Z.of_nat k)).
  unfold complete_subtree_root. rewrite zlen_nodes by lia.
  destruct (2 ^ Z.of_nat k =? 1) eqn:E; bool_prop.
  - assert (k = 0)%nat as ->.
    { destruct k; [done|]. rewrite Nat2Z.inj_succ, Z.pow_succ_r in E by lia. lia. }
    by rewrite E, Z.mul_1_r, Nat.add_0_r, (nodes_cons f l) by lia.
  - apply collapse_nodes; [|done]. pose proof (pow2_gt k).
    unfold nodes. rewrite length_fmap, length_seqZ. lia.
Qed.

Lemma empty_roots_above_lookup (n k : nat) level :
  0 <= level -> level + Z.of_nat n <= TREE_DEPTH -> (k < n)%nat ->
  empty_roots_above n level (mho_empty_root level) !! k =
  Some (mho_to_bytes (mho_empty_root (level + 1 + Z.of_nat k))).
Proof.
  revert k level. induction n as [|n IH]; intros k level Hl Hn Hk; [lia|].
  cbn [empty_roots_above]. rewrite <- mho_empty_root_combine by lia.
  destruct k as [|k]; cbn [lookup list_lookup].
  - do 3 f_equal. lia.
  - change (empty_roots_above n (level + 1) (mho_empty_root (level + 1)) !! k = 
      Some (mho_to_bytes (mho_empty_root (level + 1 + Z.of_nat (S k))))).
    rewrite IH by lia. do 3 f_equal. lia.
Qed.

Lemma empty_roots_lookup (l : nat) :
  Z.of_nat l <= TREE_DEPTH ->
  precompute_empty_roots !! l = Some (mho_to_bytes (mho_empty_root (Z.of_nat l))).
Proof.
  intros Hl. unfold precompute_empty_roots. rewrite <- mho_empty_root_leaf.
  assert (Hn : 0 + Z.of_nat (Z.to_nat TREE_DEPTH) <= TREE_DEPTH) by done.
  assert (Hl' : (l <= Z.to_nat TREE_DEPTH)%nat) by lia.
  revert Hn Hl'. generalize (Z.to_nat TREE_DEPTH). intros n Hn Hl'.
  destruct l as [|l]; [done|]. rewrite lookup_cons_ne_0 by done. cbn [pred].
  rewrite empty_roots_above_lookup by lia. do 3 f_equal. lia.
Qed.

Lemma trailing_zeros_pow2 (k : nat) : (k < 64)%nat -> trailing_zeros (2 ^ Z.of_nat k) = Z.of_nat k.
Proof.
  intros Hk. assert (forallb (fun k => trailing_zeros (2 ^ Z.of_nat k) =? Z.of_nat k) (seq 0 64) = true)
    as Hall by (vm_compute; reflexivity).
  rewrite forallb_forall in Hall. apply Z.eqb_eq, Hall, in_seq. lia.
Qed.

Lemma sparse_root_rec_nodes f n (b : nat) (k : nat) : forall fuel s,
  (k < fuel)%nat -> Z.of_nat (b + k) <= TREE_DEPTH -> 0 <= s -> 0 <= n ->
  (forall j, n * 2 ^ Z.of_nat b <= j -> f j = mho_empty_leaf) ->
  sparse_root_rec fuel (nodes f b 0 n) (s * 2 ^ Z.of_nat k) (2 ^ Z.of_nat k) (Z.of_nat b)
    precompute_empty_roots = Some (mho_to_bytes (node f (b + k) s)).
Proof.
  induction k as [|k IH]; intros [|fuel] s Hfuel Hd Hs Hn Hf; [lia| |lia|]; cbn [sparse_root_rec];
    rewrite zlen_nodes by lia.
  - change (2 ^ Z.of_nat 0) with 1. rewrite Nat.add_0_r, Z.mul_1_r. cbn [Z.eqb Pos.eqb].
    destruct (s <? n) eqn:E; bool_prop; [by rewrite nodes_lookup by lia|].
    rewrite Nat2Z.id, empty_roots_lookup by lia. rewrite node_empty; [done|lia|].
    intros j Hj. apply Hf. pose proof (Z.pow_pos_nonneg 2 (Z.of_nat b)). nia.
  - assert (0 < 2 ^ Z.of_nat k) by (apply Z.pow_pos_nonneg; lia).
    rewrite Nat2Z.inj_succ, Z.pow_succ_r by lia.
    destruct (2 * 2 ^ Z.of_nat k =? 1) eqn:E; bool_prop; [lia|].
    rewrite (Z.mul_comm 2 (2 ^ _)), Z.div_mul, trailing_zeros_pow2 by (unfold TREE_DEPTH in Hd; lia).
    replace (s * (2 ^ Z.of_nat k * 2)) with (2 * s * 2 ^ Z.of_nat k) by lia.
    rewrite IH by (done || lia). cbn [mbind option_bind].
    replace (2 * s * 2 ^ Z.of_nat k + 2 ^ Z.of_nat k) with ((2 * s + 1) * 2 ^ Z.of_nat k) by lia.
    rewrite <- Nat2Z.inj_add.
    assert ((if n <=? (2 * s + 1) * 2 ^ Z.of_nat k
             then precompute_empty_roots !! Z.to_nat (Z.of_nat (b + k))
             else sparse_root_rec fuel (nodes f b 0 n) ((2 * s + 1) * 2 ^ Z.of_nat k)
                    (2 ^ Z.of_nat k) (Z.of_nat b) precompute_empty_roots) =
            Some (mho_to_bytes (node f (b + k) (2 * s + 1)))) as ->.
    { destruct (n <=? _) eqn:E'; bool_prop; [|by apply IH; try lia].
      rewrite Nat2Z.id, empty_roots_lookup, node_empty; [done|lia| |lia]. intros j Hj. apply Hf.
      rewrite Nat2Z.inj_add, Z.pow_add_r in Hj by lia.
      pose proof (Z.pow_pos_nonneg 2 (Z.of_nat b)). nia. }
    cbn [mbind option_bind]. rewrite hash_combine_node. by rewrite Nat.add_succ_r.
Qed.

(** ** The database represents a tree *)

(** One appended block, and the leaves the blocks of the window hold. *)
Record TreeBlock := { tb_height : Z; tb_hash : Hash; tb_commitments : list mho }.
Definition window_leaves (bs : list TreeBlock) : list mho := concat (tb_commitments <$> bs).

(** Removing the blocks above a height from the end of the chain. *)
Fixpoint drop_above (height : Z) (bs : list TreeBlock) : list TreeBlock :=
  match bs with
  | b :: rest => if height <? tb_height b then drop_above height rest else bs
  | [] => []
  end.
Definition roll_back (height : Z) (bs : list TreeBlock) : list TreeBlock :=
  reverse (drop_above height (reverse bs)).

Definition record_of (b : TreeBlock) : BlockRecord :=
  {| br_height := tb_height b; br_hash := tb_hash b; br_num_commitments := zlen (tb_commitments b) |}.

(** Every cached root is the root of the sub-shard it stands for. *)
Definition cache_sound (all : list mho) (offset : Z) (cache : list (option Hash)) : Prop :=
  zlen cache = L0_DB_ROWS /\
  forall slot r, cache !! slot = Some (Some r) ->
    r = mho_to_bytes (node (leaf_at all) 8 (offset / SUBSHARD_LEAVES + Z.of_nat slot)).

(** [t] holds the window [bs] of the tree whose earlier leaves are [pre]. *)
Record tree_repr (pre : list mho) (bs : list TreeBlock) (t : CommitmentTreeDb) : Prop := {
  tr_aligned : zlen pre mod SHARD_LEAVES = 0;
  tr_bound : zlen (pre ++ window_leaves bs) < 2 ^ TREE_DEPTH;
  tr_offset : ct_leaf_offset t = zlen pre;
  tr_leaves : ct_leaves t = mho_to_bytes <$> window_leaves bs;
  tr_blocks : ct_blocks t = record_of <$> bs;
  tr_empty : ct_empty_roots t = precompute_empty_roots;
  tr_prefetched : ct_prefetched_shard_roots t = nodes (leaf_at pre) 16 0 (zlen pre / SHARD_LEAVES);
  tr_cache : cache_sound (pre ++ window_leaves bs) (zlen pre) (ct_ss_root_cache t) }.

Lemma invalidate_lookup cache first last i r :
  0 <= first -> invalidate cache first last !! i = Some (Some r) ->
  cache !! i = Some (Some r) /\ ~ (first <= Z.of_nat i <= last).
Proof.
  intros Hf. unfold invalidate.
  assert (forall l cache, Forall (fun z => 0 <= z) l ->
    foldl (fun (cache : list (option Hash)) slot => <[Z.to_nat slot := None]> cache) cache l !! i =
      Some (Some r) -> cache !! i = Some (Some r) /\ Z.of_nat i ∉ l) as Hall.
  { clear. intros l. induction l as [|a l IH]; intros cache Hl Hi; [by split; [|apply not_elem_of_nil]|].
    inversion Hl as [|? ? Ha Hl']; subst. cbn [foldl] in Hi. apply IH in Hi as [Hi Hni]; [|done].
    destruct (decide (Z.to_nat a = i)) as [<-|Hne].
    - apply list_lookup_insert_Some in Hi as [(_ & ? & _)|(? & _)]; done.
    - rewrite list_lookup_insert_ne in Hi by done. split; [done|].
      rewrite elem_of_cons. intros [Hai|]; [lia|done]. }
  intros Hi. apply Hall in Hi as [Hi Hni].
  - split; [done|]. rewrite elem_of_seqZ in Hni. lia.
  - apply Forall_forall. intros z. rewrite elem_of_seqZ. lia.
Qed.

Lemma zlen_invalidate cache first last : zlen (invalidate cache first last) = zlen cache.
Proof.
  unfold invalidate. generalize (seqZ first (last - first + 1)). intros l. revert cache.
  induction l as [|a l IH]; intros cache; cbn [foldl]; [done|].
  rewrite IH. unfold zlen. by rewrite length_insert.
Qed.

(** A leaf list that keeps the leaves of a clean slot keeps its cached root. *)
Lemma cache_sound_invalidate all all' offset cache first last :
  0 <= first -> 0 <= offset -> offset mod SUBSHARD_LEAVES = 0 ->
  (forall i, offset <= i < offset + SUBSHARD_LEAVES * first \/
             offset + SUBSHARD_LEAVES * (last + 1) <= i < offset + SUBSHARD_LEAVES * L0_DB_ROWS ->
     leaf_at all i = leaf_at all' i) ->
  cache_sound all offset cache -> cache_sound all' offset (invalidate cache first last).
Proof.
  intros Hf Ho Ha Hsame [Hlen Hs]. split; [by rewrite zlen_invalidate|].
  intros slot r Hr. apply invalidate_lookup in Hr as [Hr Hn]; [|done].
  assert (Hb : Z.of_nat slot < L0_DB_ROWS).
  { apply lookup_lt_Some in Hr. unfold zlen in Hlen. lia. }
  rewrite (Hs _ _ Hr). f_equal. apply node_ext. geometry.
  intros j Hj. apply Hsame. pose proof (Z.div_mod offset 256). lia.
Qed.

Lemma window_leaves_snoc bs b : window_leaves (bs ++ [b]) = window_leaves bs ++ tb_commitments b.
Proof. unfold window_leaves. by rewrite fmap_app, concat_app, fmap_cons, concat_cons, app_nil_r. Qed.

Lemma shard_aligned (pre : list mho) : zlen pre mod SHARD_LEAVES = 0 -> zlen pre mod SUBSHARD_LEAVES = 0.
Proof.
  geometry. intros Hp. pose proof (Z.div_mod (zlen pre) 65536).
  apply Z.mod_divide; [done|]. exists (zlen pre / 65536 * 256). lia.
Qed.

Lemma leaf_at_app_l all more i : 0 <= i < zlen all -> leaf_at (all ++ more) i = leaf_at all i.
Proof. unfold zlen, leaf_at. intros. by rewrite lookup_app_l by lia. Qed.

Lemma leaf_at_beyond all i : zlen all <= i -> leaf_at all i = mho_empty_leaf.
Proof. unfold zlen, leaf_at. intros. by rewrite lookup_ge_None_2 by lia. Qed.

Lemma append_tree_repr pre bs b t :
  tree_repr pre bs t -> zlen (pre ++ window_leaves (bs ++ [b])) < 2 ^ TREE_DEPTH ->
  tree_repr pre (bs ++ [b])
    (append_commitments t (tb_height b) (tb_hash b) (mho_to_bytes <$> tb_commitments b)).
Proof.
  intros [Hal Hbd Ho Hl Hb He Hp Hc] Hlt.
  assert (Hz : zlen (tb_commitments b) < 2 ^ 32).
  { rewrite window_leaves_snoc, !zlen_app in Hlt. pose proof (zlen_nonneg pre).
    pose proof (zlen_nonneg (window_leaves bs)). change (2 ^ TREE_DEPTH) with (2 ^ 32) in Hlt. lia. }
  pose proof (zlen_nonneg (tb_commitments b)) as Hpos.
  assert (Hrec : ct_blocks t ++ [{| br_height := tb_height b; br_hash := tb_hash b;
      br_num_commitments := wrap32 (zlen (mho_to_bytes <$> tb_commitments b)) |}] = record_of <$> bs ++ [b]).
  { rewrite Hb, fmap_app. unfold record_of at 2. cbn. unfold wrap32, zlen in *.
    by rewrite length_fmap, Z.mod_small by lia. }
  assert (Hleaves : ct_leaves t ++ (mho_to_bytes <$> tb_commitments b) =
      mho_to_bytes <$> window_leaves (bs ++ [b])) by (by rewrite Hl, window_leaves_snoc, fmap_app).
  unfold append_commitments. case_bool_decide as Hnil.
  - rewrite Hnil, app_nil_r in Hleaves. apply fmap_nil_inv in Hnil.
    constructor; cbn [ct_leaves ct_blocks ct_empty_roots ct_leaf_offset ct_prefetched_shard_roots
      ct_ss_root_cache]; try done. by rewrite window_leaves_snoc, Hnil, app_nil_r.
  - constructor; cbn [ct_leaves ct_blocks ct_empty_roots ct_leaf_offset ct_prefetched_shard_roots
      ct_ss_root_cache]; try done.
    assert (Hzl : zlen (ct_leaves t) = zlen (window_leaves bs))
      by (rewrite Hl; unfold zlen; by rewrite length_fmap).
    pose proof (zlen_nonneg (window_leaves bs)). pose proof (zlen_nonneg pre).
    assert (0 < zlen (mho_to_bytes <$> tb_commitments b)).
    { destruct (tb_commitments b); [done|]. rewrite fmap_cons, zlen_cons. pose proof (zlen_nonneg
        (mho_to_bytes <$> l)). lia. }
    eapply cache_sound_invalidate; [| |by apply shard_aligned| |exact Hc];
      [geometry; apply Z.div_pos; lia|done|].
    rewrite window_leaves_snoc, (app_assoc pre). intros i Hi. rewrite Hzl, zlen_app, Hzl in Hi.
    assert (Hlen : zlen (pre ++ window_leaves bs ++ tb_commitments b) =
      zlen pre + (zlen (window_leaves bs) + zlen (tb_commitments b))) by (by rewrite !zlen_app).
    assert (zlen (mho_to_bytes <$> tb_commitments b) = zlen (tb_commitments b)) as Hm
      by (unfold zlen; by rewrite length_fmap).
    rewrite Hm in *. geometry.
    pose proof (Z.div_mod (zlen (window_leaves bs)) 256).
    pose proof (Z.mod_pos_bound (zlen (window_leaves bs)) 256).
    set (w := zlen (window_leaves bs)) in *. set (c := zlen (tb_commitments b)) in *.
    pose proof (Z.div_mod (w + c - 1) 256). pose proof (Z.mod_pos_bound (w + c - 1) 256).
    destruct Hi as [Hi|Hi].
    + symmetry. apply leaf_at_app_l. rewrite zlen_app. lia.
    + rewrite !leaf_at_beyond; rewrite ?zlen_app; try lia; fold w; (lia || done).
Qed.

Lemma drop_above_split h bs :
  exists removed, bs = removed ++ drop_above h bs /\ Forall (fun b => h < tb_height b) removed.
Proof.
  induction bs as [|b bs (removed & IH & Hf)]; cbn [drop_above]; [by exists []|].
  destruct (h <? tb_height b) eqn:E; bool_prop; [|by exists []].
  exists (b :: removed). split; [by rewrite <- app_comm_cons, <- IH|by constructor].
Qed.

Lemma roll_back_split h bs :
  exists removed, bs = roll_back h bs ++ removed /\ Forall (fun b => h < tb_height b) removed.
Proof.
  destruct (drop_above_split h (reverse bs)) as (removed & Hs & Hf). exists (reverse removed).
  unfold roll_back. split; [|by apply Forall_reverse].
  by rewrite <- reverse_app, <- Hs, reverse_involutive.
Qed.

Lemma window_leaves_app bs bs' : window_leaves (bs ++ bs') = window_leaves bs ++ window_leaves bs'.
Proof. unfold window_leaves. by rewrite fmap_app, concat_app. Qed.

Lemma zlen_window_reverse bs : zlen (window_leaves (reverse bs)) = zlen (window_leaves bs).
Proof.
  induction bs as [|b bs IH]; [done|].
  rewrite reverse_cons, window_leaves_snoc, zlen_app, IH.
  change (window_leaves (b :: bs)) with (tb_commitments b ++ window_leaves bs). rewrite zlen_app. lia.
Qed.

Lemma pop_above_spec h bs acc :
  0 <= acc -> acc + zlen (window_leaves bs) < u64_bound ->
  pop_above h (record_of <$> bs) acc =
    (record_of <$> drop_above h bs,
     acc + zlen (window_leaves bs) - zlen (window_leaves (drop_above h bs))).
Proof.
  revert acc. induction bs as [|b bs IH]; intros acc Ha Hb; cbn [fmap list_fmap pop_above drop_above].
  - change (window_leaves []) with (@nil mho). rewrite zlen_nil. f_equal. lia.
  - change (window_leaves (b :: bs)) with (tb_commitments b ++ window_leaves bs) in *.
    rewrite zlen_app in *. pose proof (zlen_nonneg (tb_commitments b)).
    pose proof (zlen_nonneg (window_leaves bs)). cbn [record_of br_height br_num_commitments].
    destruct (h <? tb_height b); [|f_equal; change (window_leaves (b :: bs)) with
      (tb_commitments b ++ window_leaves bs); rewrite zlen_app; lia].
    rewrite wrap64_small by lia. change (list_fmap _ _ record_of bs) with (record_of <$> bs).
    rewrite IH by lia. f_equal. lia.
Qed.

Lemma rollback_tree_repr pre bs t h :
  tree_repr pre bs t -> tree_repr pre (roll_back h bs) (rollback_to t h).
Proof.
  intros [Hal Hbd Ho Hl Hb He Hp Hc]. unfold rollback_to.
  destruct (roll_back_split h bs) as (removed & Hs & _).
  pose proof (zlen_nonneg pre). pose proof (zlen_nonneg (window_leaves bs)).
  pose proof (zlen_nonneg (window_leaves (roll_back h bs))).
  assert (Hw : window_leaves bs = window_leaves (roll_back h bs) ++ window_leaves removed)
    by (by rewrite <- window_leaves_app, <- Hs).
  pose proof (f_equal zlen Hw) as Hwl. rewrite zlen_app in Hwl.
  pose proof (zlen_nonneg (window_leaves removed)).
  rewrite zlen_app in Hbd. geometry.
  rewrite Hb, <- fmap_reverse, pop_above_spec by (rewrite ?zlen_window_reverse; unfold u64_bound; lia).
  rewrite zlen_window_reverse, <- (zlen_window_reverse (drop_above _ _)). fold (roll_back h bs).
  assert (Hzl : zlen (ct_leaves t) = zlen (window_leaves bs))
    by (rewrite Hl; unfold zlen; by rewrite length_fmap).
  assert (saturating_sub (zlen (ct_leaves t)) (0 + zlen (window_leaves bs) -
    zlen (window_leaves (roll_back h bs))) = zlen (window_leaves (roll_back h bs))) as ->
    by (unfold saturating_sub; lia).
  constructor; cbn [ct_leaves ct_blocks ct_empty_roots ct_leaf_offset ct_prefetched_shard_roots
    ct_ss_root_cache]; try done.
  - rewrite zlen_app. change (2 ^ TREE_DEPTH) with 4294967296. lia.
  - rewrite Hl, Hw, fmap_app. unfold zlen. rewrite Nat2Z.id.
    by rewrite take_app_length' by (by rewrite length_fmap).
  - unfold roll_back. by rewrite fmap_reverse.
  - set (w := zlen (window_leaves (roll_back h bs))) in *.
    assert (Hfr : 0 <= (if w =? 0 then 0 else (w - 1) / 256) /\
                  256 * (if w =? 0 then 0 else (w - 1) / 256) <= w).
    { destruct (w =? 0) eqn:E; bool_prop; [lia|]. pose proof (Z.div_mod (w - 1) 256).
      pose proof (Z.mod_pos_bound (w - 1) 256). lia. }
    eapply cache_sound_invalidate; [| |by apply shard_aligned| |exact Hc]; [lia..|].
    geometry. intros i Hi. rewrite Hw, app_assoc. apply leaf_at_app_l. rewrite zlen_app. fold w. lia.
Qed.

Lemma new_repr pre :
  zlen pre mod SHARD_LEAVES = 0 -> zlen pre < 2 ^ TREE_DEPTH ->
  tree_repr pre [] (CommitmentTreeDb_with_offset (zlen pre)
    (nodes (leaf_at pre) 16 0 (zlen pre / SHARD_LEAVES))).
Proof.
  intros Hal Hb. constructor; try done.
  - cbn. by rewrite app_nil_r.
  - split; [unfold zlen; cbn [CommitmentTreeDb_with_offset ct_ss_root_cache];
      rewrite length_replicate; done|].
    intros slot r Hr. by apply lookup_replicate in Hr as [].
Qed.

(** ** Reading the database *)

Section reads.
Context (pre : list mho) (bs : list TreeBlock) (t : CommitmentTreeDb).
Hypothesis Hrepr : tree_repr pre bs t.
Notation all := (pre ++ window_leaves bs).
Notation tree l i := (node (leaf_at all) l i).

Lemma repr_zlen : zlen all = zlen pre + zlen (ct_leaves t).
Proof.
  destruct Hrepr as [? ? ? -> ? ? ? ?]. rewrite zlen_app. unfold zlen. by rewrite length_fmap.
Qed.

Lemma repr_tree_size : tree_size t = zlen all.
Proof.
  unfold tree_size. pose proof repr_zlen as Hz. destruct Hrepr as [? Hb -> ? ? ? ? ?].
  rewrite <- Hz. apply wrap64_small. geometry. unfold u64_bound. pose proof (zlen_nonneg all). lia.
Qed.

Lemma window_start_eq : window_start_shard t = zlen pre / SHARD_LEAVES.
Proof.
  unfold window_start_shard. destruct Hrepr as [? Hb -> ? ? ? ? ?].
  rewrite zlen_app in Hb. pose proof (zlen_nonneg (window_leaves bs)). pose proof (zlen_nonneg pre).
  unfold wrap32. apply Z.mod_small. geometry.
  split; [apply Z.div_pos; lia|apply Z.div_lt_upper_bound; lia].
Qed.

Lemma pre_shards : zlen pre = SHARD_LEAVES * (zlen pre / SHARD_LEAVES).
Proof. destruct Hrepr as [Ha ? ? ? ? ? ? ?]. geometry. pose proof (Z.div_mod (zlen pre) 65536). lia. Qed.

(** The leaves of a sub-shard of the window. *)
Lemma subshard_leaves_nodes shard ss :
  zlen pre / SHARD_LEAVES <= shard < 2 ^ 32 -> 0 <= ss < SUBSHARDS_PER_SHARD ->
  subshard_leaves t shard ss =
    Some (nodes (leaf_at all) 0 ((shard * SUBSHARDS_PER_SHARD + ss) * SUBSHARD_LEAVES) SUBSHARD_LEAVES).
Proof.
  intros Hs Hss. unfold subshard_leaves. pose proof pre_shards as Hp. pose proof repr_zlen as Hz.
  destruct Hrepr as [Ha Hb Ho Hl _ He _ _]. rewrite He.
  rewrite (empty_roots_lookup 0), mho_empty_root_leaf by done. cbn [mbind option_bind]. unfold nodes.
  erewrite (mapM_Some_fmap _ (fun i => mho_to_bytes (leaf_at all (shard * SHARD_LEAVES +
    ss * SUBSHARD_LEAVES + i)))).
  - f_equal. rewrite <- (Z.add_0_r ((shard * SUBSHARDS_PER_SHARD + ss) * SUBSHARD_LEAVES)).
    rewrite <- fmap_add_seqZ, <- list_fmap_compose. apply list_fmap_ext. intros k i _. unfold compose.
    cbn [node]. do 2 f_equal. geometry. lia.
  - intros i Hi. apply elem_of_seqZ in Hi. rewrite Ho. geometry. pose proof (zlen_nonneg pre).
    rewrite wrap64_small by (unfold u64_bound; lia). guards. cbn [andb].
    destruct (_ <? _) eqn:E; bool_prop.
    + rewrite Hl, list_lookup_fmap. unfold leaf_at.
      rewrite lookup_app_r by (unfold zlen in *; lia).
      replace (Z.to_nat (shard * 65536 + ss * 256 + i) - length pre)%nat
        with (Z.to_nat (shard * 65536 + ss * 256 + i - zlen pre)) by (unfold zlen in *; lia).
      destruct (window_leaves bs !! _) eqn:E'; [done|]. apply lookup_ge_None in E'.
      rewrite Hl in E. unfold zlen in *. rewrite length_fmap in E. lia.
    + rewrite leaf_at_beyond; [done|]. lia.
Qed.

Lemma subshard_root_nodes s :
  complete_subtree_root (nodes (leaf_at all) 0 (s * SUBSHARD_LEAVES) SUBSHARD_LEAVES) 0 =
  Some (mho_to_bytes (tree 8 s)).
Proof. apply (complete_subtree_root_nodes (leaf_at all) 8 0 s). lia. Qed.

Lemma shard_root_nodes s :
  complete_subtree_root (nodes (leaf_at all) 8 (s * SUBSHARDS_PER_SHARD) SUBSHARDS_PER_SHARD)
    SUBSHARD_HEIGHT = Some (mho_to_bytes (tree 16 s)).
Proof. apply (complete_subtree_root_nodes (leaf_at all) 8 8 s). lia. Qed.

(** A sub-shard past the end of the tree is empty. *)
Lemma beyond_empty s :
  zlen all <= s * SUBSHARD_LEAVES -> tree 8 s = mho_empty_root SUBSHARD_HEIGHT.
Proof.
  intros Hs. apply node_empty; [done|]. intros j Hj. apply leaf_at_beyond. geometry. lia.
Qed.

Lemma empty_ss_root_eq :
  ct_empty_roots t !! Z.to_nat SUBSHARD_HEIGHT = Some (mho_to_bytes (mho_empty_root SUBSHARD_HEIGHT)).
Proof. destruct Hrepr as [? ? ? ? ? -> ? ?]. by apply (empty_roots_lookup 8). Qed.

Lemma subshard_roots_nodes shard :
  zlen pre / SHARD_LEAVES <= shard < 2 ^ 32 ->
  subshard_roots t shard =
    Some (nodes (leaf_at all) 8 (shard * SUBSHARDS_PER_SHARD) SUBSHARDS_PER_SHARD).
Proof.
  intros Hs. unfold subshard_roots. rewrite empty_ss_root_eq. cbn [mbind option_bind].
  rewrite repr_tree_size. unfold nodes. rewrite <- (Z.add_0_r (shard * SUBSHARDS_PER_SHARD)).
  rewrite <- fmap_add_seqZ, <- list_fmap_compose. apply mapM_Some_fmap. intros ss Hi.
  apply elem_of_seqZ in Hi. unfold compose. cbn [Z.add] in Hi.
  destruct (_ <=? _) eqn:E; bool_prop.
  - rewrite beyond_empty; [done|]. geometry. lia.
  - rewrite subshard_leaves_nodes by lia. cbn [mbind option_bind]. apply subshard_root_nodes.
Qed.

Lemma prefetched_root_node i :
  0 <= i < zlen pre / SHARD_LEAVES -> prefetched_root t i = Some (mho_to_bytes (tree 16 i)).
Proof.
  intros Hi. unfold prefetched_root. pose proof pre_shards as Hp.
  destruct Hrepr as [_ _ _ _ _ _ -> _]. rewrite zlen_nodes by lia. guards.
  rewrite nodes_lookup by done. do 2 f_equal. cbn [Z.add]. apply node_ext. geometry.
  intros j Hj. symmetry. apply leaf_at_app_l. nia.
Qed.

Lemma shard_roots_nodes :
  exists n, shard_roots t = Some ((fun i => (i, mho_to_bytes (tree 16 i))) <$> seqZ 0 n) /\
    0 <= n /\ zlen all <= n * SHARD_LEAVES /\ n <= 65536 /\
    (n = 0 \/ (n - 1) * SHARD_LEAVES < zlen all).
Proof.
  exists (populated_shards t). unfold shard_roots. pose proof (tr_bound _ _ _ Hrepr) as Hb.
  pose proof (zlen_nonneg all).
  assert (Hn : 0 <= populated_shards t /\ zlen all <= populated_shards t * SHARD_LEAVES /\
               populated_shards t <= 65536 /\
               (populated_shards t = 0 \/ (populated_shards t - 1) * SHARD_LEAVES < zlen all)).
  { unfold populated_shards. rewrite repr_tree_size. geometry.
    destruct (zlen all =? 0) eqn:E; bool_prop; [lia|].
    pose proof (Z.div_mod (zlen all - 1) 65536). pose proof (Z.mod_pos_bound (zlen all - 1) 65536).
    assert ((zlen all - 1) / 65536 < 65536) by (apply Z.div_lt_upper_bound; lia).
    assert (0 <= (zlen all - 1) / 65536) by (apply Z.div_pos; lia).
    unfold wrap32. rewrite Z.mod_small by (geometry; lia). lia. }
  split; [|tauto]. apply mapM_Some_fmap. intros i Hi. apply elem_of_seqZ in Hi.
  rewrite window_start_eq. destruct (i <? _) eqn:E; bool_prop.
  - by rewrite prefetched_root_node by lia.
  - rewrite subshard_roots_nodes by (geometry; lia). cbn [mbind option_bind].
    by rewrite shard_root_nodes.
Qed.

Lemma tree_root_merkle : tree_root t = Some (merkle_root all).
Proof.
  unfold tree_root, merkle_root. rewrite repr_tree_size.
  destruct (zlen all =? 0) eqn:E; bool_prop.
  - destruct Hrepr as [_ _ _ _ _ -> _ _]. rewrite empty_roots_lookup by (by rewrite Z2Nat.id).
    do 2 f_equal. symmetry. apply node_empty; [by rewrite Z2Nat.id|].
    intros j Hj. apply leaf_at_beyond. lia.
  - destruct shard_roots_nodes as (n & -> & Hn & Hall & Hmax & _). cbn [mbind option_bind].
    rewrite <- list_fmap_compose. destruct Hrepr as [_ _ _ _ _ -> _ _].
    apply (sparse_root_rec_nodes (leaf_at all) n 16 16 _ 0); [vm_compute; lia|done|done|lia|].
    intros j Hj. apply leaf_at_beyond. geometry. lia.
Qed.

(** ** Building the database *)

Lemma window_count_bounds :
  0 <= window_shard_count t <= L0_MAX_SHARDS /\
  zlen pre / SHARD_LEAVES + window_shard_count t <= 65536 /\
  (0 < window_shard_count t ->
   (zlen pre / SHARD_LEAVES + window_shard_count t - 1) * SHARD_LEAVES < zlen all).
Proof.
  unfold window_shard_count, local_shard_count. rewrite window_start_eq, repr_tree_size.
  pose proof (tr_bound _ _ _ Hrepr) as Hb. pose proof pre_shards. pose proof (zlen_nonneg pre).
  pose proof repr_zlen as Hz. geometry. pose proof (zlen_nonneg (ct_leaves t)).
  case_bool_decide; [lia|].
  assert (0 < zlen (ct_leaves t)) by (destruct (ct_leaves t); [done|rewrite zlen_cons;
    pose proof (zlen_nonneg l); lia]).
  pose proof (Z.div_mod (zlen all - 1) 65536). pose proof (Z.mod_pos_bound (zlen all - 1) 65536).
  unfold wrap32. geometry. rewrite (Z.mod_small ((zlen all - 1) / 65536)) by lia.
  rewrite Z.mod_small by lia. lia.
Qed.

(** Every populated shard is in the window, as long as it has at most 32 shards. *)
Lemma window_covers :
  zlen (ct_leaves t) <= L0_MAX_SHARDS * SHARD_LEAVES ->
  zlen all <= (zlen pre / SHARD_LEAVES + window_shard_count t) * SHARD_LEAVES.
Proof.
  intros Hw. unfold window_shard_count, local_shard_count. rewrite window_start_eq, repr_tree_size.
  pose proof (tr_bound _ _ _ Hrepr) as Hb. pose proof pre_shards. pose proof (zlen_nonneg pre).
  pose proof repr_zlen as Hz. geometry. pose proof (zlen_nonneg (ct_leaves t)).
  case_bool_decide as E; [rewrite E, zlen_nil in Hz; lia|].
  assert (0 < zlen (ct_leaves t)) by (destruct (ct_leaves t); [done|rewrite zlen_cons;
    pose proof (zlen_nonneg l); lia]).
  pose proof (Z.div_mod (zlen all - 1) 65536). pose proof (Z.mod_pos_bound (zlen all - 1) 65536).
  unfold wrap32. geometry. rewrite (Z.mod_small ((zlen all - 1) / 65536)) by lia.
  rewrite Z.mod_small by lia. lia.
Qed.

Notation first_shard := (zlen pre / SHARD_LEAVES).

(** What the loop over the sub-shards of shard [i] of the window has done after [k]. *)
Record subshards_done (i : Z) (p0 : BuildPass) (k : Z) (p : BuildPass) : Prop := {
  sd_cache : cache_sound all (zlen pre) (bp_cache p);
  sd_db : bp_db p = bp_db p0 ++ concat (nodes (leaf_at all) 0
    ((first_shard + i) * SHARD_LEAVES) (k * SUBSHARD_LEAVES));
  sd_roots : bp_ss_roots p = nodes (leaf_at all) 8 ((first_shard + i) * SUBSHARDS_PER_SHARD) k;
  sd_cap : bp_cap_roots p = bp_cap_roots p0;
  sd_broadcast : bp_broadcast_ss p = bp_broadcast_ss p0 }.

Lemma cache_sound_insert cache slot s :
  cache_sound all (zlen pre) cache -> 0 <= slot -> s = zlen pre / SUBSHARD_LEAVES + slot ->
  cache_sound all (zlen pre) (<[Z.to_nat slot := Some (mho_to_bytes (tree 8 s))]> cache).
Proof.
  intros [Hl Hs] Hslot ->. split; [unfold zlen; by rewrite length_insert|]. intros slot' r Hr.
  apply list_lookup_insert_Some in Hr as [(<- & [= <-] & _)|(_ & Hr)]; [|by apply Hs].
  by rewrite Z2Nat.id.
Qed.

Lemma pre_subshards : zlen pre / SUBSHARD_LEAVES = first_shard * SUBSHARDS_PER_SHARD.
Proof. rewrite pre_shards at 1. geometry. replace (65536 * _) with (zlen pre / 65536 * 256 * 256) by lia.
  by rewrite Z.div_mul. Qed.

Lemma build_subshard_done i p0 k p :
  0 <= i < window_shard_count t -> 0 <= k < SUBSHARDS_PER_SHARD ->
  subshards_done i p0 k p ->
  exists p', build_subshard t i p k = Some p' /\ subshards_done i p0 (k + 1) p'.
Proof.
  intros Hi Hk [Hc Hdb Hr Hcap Hb]. pose proof window_count_bounds as (Hw & Hw' & _). pose proof (zlen_nonneg pre).
  pose proof pre_shards as Hps. pose proof pre_subshards as Hpss.
  assert (0 <= first_shard) by (geometry; apply Z.div_pos; lia).
  unfold build_subshard. rewrite window_start_eq.
  assert (wrap32 (first_shard + i) = first_shard + i) as -> by (apply Z.mod_small; geometry; lia).
  rewrite empty_ss_root_eq, subshard_leaves_nodes by (geometry; lia). cbn [mbind option_bind].
  rewrite repr_tree_size. set (s := (first_shard + i) * SUBSHARDS_PER_SHARD + k) in *.
  assert (Hdone : forall cache, cache_sound all (zlen pre) cache ->
    subshards_done i p0 (k + 1) {| bp_cache := cache;
      bp_db := bp_db p ++ concat (nodes (leaf_at all) 0 (s * SUBSHARD_LEAVES) SUBSHARD_LEAVES);
      bp_ss_roots := bp_ss_roots p ++ [mho_to_bytes (tree 8 s)];
      bp_cap_roots := bp_cap_roots p; bp_broadcast_ss := bp_broadcast_ss p |}).
  { intros cache Hcs. constructor; try done; cbn [bp_db bp_ss_roots].
    - rewrite Hdb, <- app_assoc, <- concat_app, (Z.mul_add_distr_r k 1), Z.mul_1_l, nodes_app
        by (geometry; lia). do 5 f_equal. unfold s. geometry. lia.
    - by rewrite Hr, nodes_app, (nodes_cons _ _ _ 1) by lia. }
  assert (Hst : (first_shard + i) * SHARD_LEAVES + k * SUBSHARD_LEAVES = s * SUBSHARD_LEAVES)
    by (unfold s; geometry; lia).
  rewrite Hst. destruct (_ <=? _) eqn:E; bool_prop.
  - eexists. split; [reflexivity|]. rewrite <- beyond_empty with (s := s) by done. by apply Hdone.
  - assert (Hslot : 0 <= i * SUBSHARDS_PER_SHARD + k < L0_DB_ROWS) by (geometry; lia).
    destruct Hc as [Hl Hs].
    destruct (lookup_lt_is_Some_2 (bp_cache p) (Z.to_nat (i * SUBSHARDS_PER_SHARD + k))) as [cached Hca];
      [unfold zlen in Hl; lia|]. rewrite Hca. cbn [mbind option_bind].
    assert (Hss : s = zlen pre / SUBSHARD_LEAVES + (i * SUBSHARDS_PER_SHARD + k))
      by (rewrite Hpss; unfold s; lia).
    destruct cached as [r|].
    + eexists. split; [reflexivity|]. apply Hs in Hca. rewrite Z2Nat.id, <- Hss in Hca by lia.
      subst r. by apply Hdone.
    + rewrite subshard_root_nodes. cbn [mbind option_bind]. eexists. split; [reflexivity|].
      apply Hdone. apply cache_sound_insert; [done|lia|done].
Qed.

(** What the loop over the shards of the window has done after [k] of them. *)
Record shards_done (k : Z) (p : BuildPass) : Prop := {
  hd_cache : cache_sound all (zlen pre) (bp_cache p);
  hd_db : bp_db p = concat (nodes (leaf_at all) 0 (zlen pre) (k * SHARD_LEAVES));
  hd_cap : bp_cap_roots p = nodes (leaf_at all) 16 0 (first_shard + k);
  hd_broadcast : bp_broadcast_ss p = (fun i => {| ssr_roots := nodes (leaf_at all) 8
    ((first_shard + i) * SUBSHARDS_PER_SHARD) SUBSHARDS_PER_SHARD |}) <$> seqZ 0 k }.

Lemma build_shard_done k p :
  0 <= k < window_shard_count t -> shards_done k p ->
  exists p', build_shard t p k = Some p' /\ shards_done (k + 1) p'.
Proof.
  intros Hk [Hc Hdb Hcap Hb]. unfold build_shard. pose proof (zlen_nonneg pre).
  assert (0 <= first_shard) by (geometry; apply Z.div_pos; lia).
  set (start := {| bp_cache := bp_cache p; bp_db := bp_db p; bp_ss_roots := [];
    bp_cap_roots := bp_cap_roots p; bp_broadcast_ss := bp_broadcast_ss p |}).
  destruct (for_each_range (build_subshard t k) (subshards_done k start) start SUBSHARDS_PER_SHARD)
    as (p' & -> & [Hc' Hdb' Hr' Hcap' Hb']); [done| | |].
  - constructor; try done. cbn. by rewrite app_nil_r.
  - intros ss q Hss Hq. by apply build_subshard_done.
  - cbn [mbind option_bind]. rewrite Hr', shard_root_nodes. cbn [mbind option_bind].
    eexists. split; [reflexivity|]. constructor; cbn [bp_cache bp_db bp_cap_roots bp_broadcast_ss].
    + done.
    + rewrite Hdb'. cbn [start bp_db]. rewrite Hdb, <- concat_app, (Z.mul_add_distr_r k 1), nodes_app
        by (geometry; lia). rewrite Z.mul_1_l. do 3 f_equal.
      pose proof pre_shards. geometry. lia.
    + rewrite Hcap'. cbn [start bp_cap_roots]. rewrite Hcap, Z.add_assoc, (nodes_app _ _ _ (_ + k)) by lia.
      by rewrite (nodes_cons _ _ _ 1) by lia.
    + rewrite Hb'. cbn [start bp_broadcast_ss]. rewrite Hb, seqZ_app, fmap_app by lia.
      f_equal.
Qed.

(** The single pass builds the whole window and leaves a sound, warmer cache. *)
Lemma build_exact anchor :
  exists t', tree_repr pre bs t' /\
    build_pir_db_and_broadcast t anchor =
    Some (resize (Z.to_nat L0_DB_BYTES) 0
            (concat (nodes (leaf_at all) 0 (zlen pre) (window_shard_count t * SHARD_LEAVES))),
          {| bc_cap := {| cap_shard_roots :=
               nodes (leaf_at all) 16 0 (first_shard + window_shard_count t) |};
             bc_subshard_roots := (fun i => {| ssr_roots := nodes (leaf_at all) 8
               ((first_shard + i) * SUBSHARDS_PER_SHARD) SUBSHARDS_PER_SHARD |}) <$>
               seqZ 0 (window_shard_count t);
             bc_window_start_shard := first_shard;
             bc_window_shard_count := window_shard_count t;
             bc_anchor_height := anchor |}, t').
Proof.
  pose proof window_count_bounds as (Hw & Hw' & _). pose proof (zlen_nonneg pre).
  assert (0 <= first_shard) by (geometry; apply Z.div_pos; lia).
  unfold build_pir_db_and_broadcast. rewrite window_start_eq.
  rewrite (mapM_Some_fmap _ (fun i => mho_to_bytes (tree 16 i))).
  2:{ intros i Hi. apply elem_of_seqZ in Hi. apply prefetched_root_node. lia. }
  cbn [mbind option_bind].
  destruct (for_each_range (build_shard t) shards_done
    {| bp_cache := ct_ss_root_cache t; bp_db := []; bp_ss_roots := [];
       bp_cap_roots := (fun i => mho_to_bytes (tree 16 i)) <$> seqZ 0 first_shard;
       bp_broadcast_ss := [] |} (window_shard_count t)) as (p & -> & [Hc Hdb Hcap Hb]); [lia| | |].
  - constructor; try done; cbn [bp_cache bp_db bp_cap_roots]; [apply (tr_cache _ _ _ Hrepr)|].
    by rewrite Z.add_0_r.
  - intros k p Hk Hp. by apply build_shard_done.
  - cbn [mbind option_bind]. eexists. split; [|by rewrite Hdb, Hcap, Hb].
    destruct Hrepr. constructor; done.
Qed.

End reads.

(** ** Any sequence of operations *)

Inductive TreeOp :=
| AppendBlock (b : TreeBlock)
| RollbackTo (height : Z)
| BuildAt (anchor_height : Z).

Definition run_op (t : CommitmentTreeDb) (op : TreeOp) : option CommitmentTreeDb :=
  match op with
  | AppendBlock b =>
      Some (append_commitments t (tb_height b) (tb_hash b) (mho_to_bytes <$> tb_commitments b))
  | RollbackTo height => Some (rollback_to t height)
  | BuildAt anchor_height =>
      '(_, _, t) ← build_pir_db_and_broadcast t anchor_height; Some t
  end.

Definition spec_op (bs : list TreeBlock) (op : TreeOp) : list TreeBlock :=
  match op with
  | AppendBlock b => bs ++ [b]
  | RollbackTo height => roll_back height bs
  | BuildAt _ => bs
  end.

(** The tree never fills up. *)
Fixpoint stays_below (pre : list mho) (bs : list TreeBlock) (ops : list TreeOp) : Prop :=
  zlen (pre ++ window_leaves bs) < 2 ^ TREE_DEPTH /\
  match ops with
  | [] => True
  | op :: ops => stays_below pre (spec_op bs op) ops
  end.

Lemma run_op_repr pre bs t op :
  tree_repr pre bs t -> zlen (pre ++ window_leaves (spec_op bs op)) < 2 ^ TREE_DEPTH ->
  exists t', run_op t op = Some t' /\ tree_repr pre (spec_op bs op) t'.
Proof.
  intros Hr Hb. destruct op as [b|h|a]; cbn [run_op spec_op] in *.
  - eexists. split; [reflexivity|]. by apply append_tree_repr.
  - eexists. split; [reflexivity|]. by apply rollback_tree_repr.
  - destruct (build_exact _ _ _ Hr a) as (t' & Hr' & ->). by exists t'.
Qed.

Lemma run_ops_repr pre bs t ops :
  tree_repr pre bs t -> stays_below pre bs ops ->
  exists t', for_each run_op t ops = Some t' /\ tree_repr pre (foldl spec_op bs ops) t'.
Proof.
  revert bs t. induction ops as [|op ops IH]; intros bs t Hr [_ Hb]; cbn [for_each foldl].
  - by exists t.
  - destruct (run_op_repr pre bs t op Hr) as (t' & -> & Hr'); [by destruct ops; destruct Hb|].
    cbn [mbind option_bind]. by apply IH.
Qed.

(** C25: the commitment tree refines a list of blocks.  Start from a window after
    any number of whole shards whose roots were fetched, and run any appends,
    rollbacks and database builds: every operation returns, the tree size is the
    number of leaves, and the root computed from shards, sub-shards and fetched
    roots is the root of the depth-32 tree over all leaves that the remaining
    blocks hold. *)
Theorem tree_refines_blocks pre ops :
  zlen pre mod SHARD_LEAVES = 0 -> stays_below pre [] ops ->
  let all := pre ++ window_leaves (foldl spec_op [] ops) in
  exists t,
    for_each run_op (CommitmentTreeDb_with_offset (zlen pre)
      (nodes (leaf_at pre) 16 0 (zlen pre / SHARD_LEAVES))) ops = Some t /\
    tree_size t = zlen all /\ tree_root t = Some (merkle_root all) /\
    latest_height t = tb_height <$> last (foldl spec_op [] ops).
Proof.
  intros Ha Hb all.
  destruct (run_ops_repr pre [] _ ops (new_repr pre Ha ltac:(by destruct ops; destruct Hb as [Hb _];
    rewrite app_nil_r in Hb)) Hb) as (t & Ht & Hr).
  exists t. split_and!; [done|by eapply repr_tree_size|by eapply tree_root_merkle|].
  unfold latest_height. rewrite (tr_blocks _ _ _ Hr), fmap_last, <- option_fmap_compose. done.
Qed.

(** The blocks at or below a height are what a rollback to it keeps. *)
Lemma roll_back_filter h bs :
  StronglySorted (fun b b' => tb_height b < tb_height b') bs ->
  roll_back h bs = filter (fun b => tb_height b <= h) bs.
Proof.
  intros Hs. destruct (roll_back_split h bs) as (removed & Hsplit & Hf).
  assert (Hkept : Forall (fun b => tb_height b <= h) (roll_back h bs)).
  { unfold roll_back. apply Forall_reverse. rewrite <- (reverse_involutive bs) in Hs.
    clear removed Hsplit Hf. revert Hs. generalize (reverse bs). intros rbs Hs.
    induction rbs as [|b rbs IH]; cbn [drop_above]; [done|].
    rewrite reverse_cons in Hs. apply StronglySorted_app in Hs as (Hlt & Hs & _).
    destruct (h <? tb_height b) eqn:E; bool_prop; [by apply IH|].
    constructor; [done|]. apply Forall_forall. intros x Hx.
    assert (tb_height x < tb_height b); [|lia].
    apply Hlt; [by apply elem_of_reverse|apply list_elem_of_here]. }
  rewrite Hsplit at 2. symmetry. apply filter_split; [done|].
  eapply Forall_impl; [exact Hf|]. intros b Hb. cbv beta in *. lia.
Qed.

(** A rollback leaves exactly the tree of the blocks at or below the target
    height: its root, its size and its last block. *)
Theorem rollback_exact pre bs t h :
  tree_repr pre bs t -> StronglySorted (fun b b' => tb_height b < tb_height b') bs ->
  let kept := filter (fun b => tb_height b <= h) bs in
  tree_root (rollback_to t h) = Some (merkle_root (pre ++ window_leaves kept)) /\
  tree_size (rollback_to t h) = zlen (pre ++ window_leaves kept) /\
  latest_height (rollback_to t h) = tb_height <$> last kept.
Proof.
  intros Hr Hs kept. apply (rollback_tree_repr _ _ _ h) in Hr. rewrite roll_back_filter in Hr by done.
  split_and!; [by eapply tree_root_merkle|by eapply repr_tree_size|].
  unfold latest_height. rewrite (tr_blocks _ _ _ Hr), fmap_last, <- option_fmap_compose. done.
Qed.

(** The single pass with its cache computes what the separate functions
    compute from the leaves: as long as the window has at most 32 shards, the cap
    of the broadcast is the list of all shard roots and its sub-shard roots are
    those of each window shard, whatever operations warmed the cache. *)
Theorem cached_build_exact pre bs t anchor :
  tree_repr pre bs t -> zlen (ct_leaves t) <= L0_MAX_SHARDS * SHARD_LEAVES ->
  exists db broadcast t' roots, build_pir_db_and_broadcast t anchor = Some (db, broadcast, t') /\
    shard_roots t = Some roots /\ tree_root t' = tree_root t /\
    cap_shard_roots (bc_cap broadcast) = snd <$> roots /\
    length (bc_subshard_roots broadcast) = Z.to_nat (window_shard_count t) /\
    forall i r, bc_subshard_roots broadcast !! i = Some r ->
      subshard_roots t (window_start_shard t + Z.of_nat i) = Some (ssr_roots r).
Proof.
  intros Hr Hw. destruct (build_exact pre bs t Hr anchor) as (t' & Hr' & Hb).
  destruct (shard_roots_nodes pre bs t Hr) as (n & Hroots & Hn & Hcov & Hmax & Hlast).
  pose proof (window_covers _ _ _ Hr Hw) as Hc. pose proof (window_count_bounds _ _ _ Hr) as (Hwb & Hwb' & Hlt).
  do 4 eexists. split_and!; [exact Hb|exact Hroots| | | |].
  - by rewrite (tree_root_merkle _ _ _ Hr), (tree_root_merkle _ _ _ Hr').
  - cbn [bc_cap cap_shard_roots]. rewrite <- list_fmap_compose. unfold nodes. do 2 f_equal.
    pose proof (pre_shards _ _ _ Hr). pose proof (zlen_nonneg (window_leaves bs)). pose proof (zlen_nonneg pre).
    rewrite zlen_app in *. geometry. lia.
  - cbn [bc_subshard_roots]. by rewrite length_fmap, length_seqZ.
  - cbn [bc_subshard_roots]. intros i r Hi. apply list_lookup_fmap_Some in Hi as (k & -> & Hk).
    apply lookup_seqZ in Hk as [-> Hk]. cbn [ssr_roots Z.add].
    rewrite (window_start_eq _ _ _ Hr). apply subshard_roots_nodes; [done|].
    geometry. pose proof (zlen_nonneg pre). assert (0 <= zlen pre / 65536) by (apply Z.div_pos; lia). lia.
Qed.

End spec.

(** ** Examples *)

(** A concrete hash for the examples: one bit, the parity of the leaves. *)
#[local] Instance parity_hash : MerkleHash := {|
  mho := bool;
  mho_empty_leaf := false;
  mho_combine _ a b := xorb a b;
  mho_empty_root _ := false;
  mho_to_bytes b := replicate 32 (Z.b2z b);
  mho_from_bytes bs :=
    if bool_decide (bs = replicate 32 0) then Some false
    else if bool_decide (bs = replicate 32 1) then Some true else None |}.

#[local] Instance parity_laws : MerkleHashLaws.
Proof.
  constructor.
  - by intros [].
  - intros b x. cbn. repeat case_bool_decide; by intros [= <-].
  - by intros [].
  - intros []; by apply Forall_replicate.
  - done.
  - done.
Qed.

Definition sample_blocks : list TreeBlock :=
  [{| tb_height := 10; tb_hash := replicate 32 1; tb_commitments := [true; false] |};
   {| tb_height := 11; tb_hash := replicate 32 2; tb_commitments := [] |};
   {| tb_height := 12; tb_hash := replicate 32 3; tb_commitments := [true; true; true] |}].

Definition sample_ops : list TreeOp :=
  (AppendBlock <$> sample_blocks) ++ [BuildAt 12; RollbackTo 11; BuildAt 11].

Lemma tree_refines_blocks_witness :
  exists t,
    for_each run_op (CommitmentTreeDb_with_offset 0 (nodes (leaf_at []) 16 0 0)) sample_ops = Some t /\
    tree_size t = 2 /\ tree_root t = Some (merkle_root [true; false]) /\ latest_height t = Some 11.
Proof.
  apply (tree_refines_blocks [] sample_ops); [reflexivity|].
  cbn [stays_below sample_ops sample_blocks fmap list_fmap app]. repeat split; reflexivity.
Defined.

Lemma sample_repr :
  exists t, for_each run_op (CommitmentTreeDb_with_offset 0 (nodes (leaf_at []) 16 0 0))
      (AppendBlock <$> sample_blocks) = Some t /\ tree_repr [] sample_blocks t.
Proof.
  destruct (run_ops_repr [] [] _ (AppendBlock <$> sample_blocks) (new_repr [] eq_refl eq_refl))
    as (t & Ht & Hr).
  - cbn [stays_below sample_blocks fmap list_fmap]. repeat split; reflexivity.
  - exists t. split; [exact Ht|exact Hr].
Qed.

Lemma rollback_exact_witness :
  exists t, tree_repr [] sample_blocks t /\
    tree_root (rollback_to t 11) = Some (merkle_root [true; false]) /\
    tree_size (rollback_to t 11) = 2 /\ latest_height (rollback_to t 11) = Some 11.
Proof.
  destruct sample_repr as (t & _ & Hr). exists t. split; [exact Hr|].
  apply (rollback_exact [] sample_blocks t 11 Hr).
  repeat constructor.
Defined.

Lemma cached_build_exact_witness :
  exists t db broadcast t' roots, tree_repr [] sample_blocks t /\
    build_pir_db_and_broadcast t 12 = Some (db, broadcast, t') /\
    shard_roots t = Some roots /\ tree_root t' = tree_root t /\
    cap_shard_roots (bc_cap broadcast) = snd <$> roots.
Proof.
  destruct sample_repr as (t & _ & Hr).
  destruct (cached_build_exact [] sample_blocks t 12 Hr) as (db & bc & t' & roots & H1 & H2 & H3 & H4 & _).
  - rewrite (tr_leaves _ _ _ Hr). vm_compute. discriminate.
  - by exists t, db, bc, t', roots.
Defined.
