(* ===== verification/Witness.v ===== *)
(** * Private Merkle witnesses

    Models [demos/legacy-spendability/witness/witness-client/src/reconstruct.rs] (the
    authentication path from a decoded row and the broadcast),
    [witness-client/src/lib.rs] (the client with its retry when the server's public
    parameters rotate), [witness-server/src/state.rs] and [routes.rs] and [rebuild_pir]
    of [witness-server/src/server.rs], and the epoch helpers of
    [shared/pir-types/src/lib.rs].  [PirEngine], a trait of the source, is a class;
    what a client may rely on of an engine is [EngineRetrieval].  The theorems: the
    path the client assembles from one row and the broadcast is the authentication
    path of the position, its root the root of the whole tree, and a client that
    meets the server it connected to gets it; a response is only ever decoded under
    the parameters whose epoch it names; nothing compares the computed root with
    the tree, so a row of another tree is accepted. *)

From Stdlib Require Import ZArith Lia.
From stdpp Require Import base numbers list strings.
From S2P Require Import Prelude EnhanceTypes RecordJournal CommitmentTree.

Open Scope Z_scope.

Inductive WitnessClientError :=
| WE_Http (m : string)
| WE_ServerUnavailable
| WE_InvalidParams (m : string)
| WE_QueryFailed (m : string)
| WE_PublicParamsUnstable
| WE_MalformedResponse (n : Z)
| WE_PositionOutsideWindow (position first last : Z)
| WE_VerificationFailed (position : Z)
| WE_PoolMismatch (expected actual : string).

(** ** Reconstruction *)

Section reconstruct.
Context `{MerkleHash}.

(** The pairs of a level, [chunks(2)]: an odd last node gets an empty sibling. *)
Fixpoint combine_chunks (level : Z) (nodes : list Hash) : option (list Hash) :=
  match nodes with
  | lhs :: rhs :: rest =>
      h ← hash_combine level lhs rhs;
      next ← combine_chunks level rest;
      Some (h :: next)
  | [lhs] =>
      h ← hash_combine level lhs (mho_to_bytes (mho_empty_root level));
      Some [h]
  | [] => Some []
  end.

(** The loop of [extract_siblings], from [tree_level] on; writing past the array panics. *)
Fixpoint sibling_levels (num_levels : nat) (tree_level : Z) (current_nodes : list Hash) (idx : Z)
    (siblings : list Hash) : option (list Hash) :=
  match num_levels with
  | O => Some siblings
  | S num_levels =>
      let sibling_idx := Z.lxor idx 1 in
      sibling ← (if sibling_idx <? zlen current_nodes then current_nodes !! Z.to_nat sibling_idx
                 else Some (mho_to_bytes (mho_empty_root tree_level)));
      if zlen siblings <=? tree_level then None else
      let siblings := <[Z.to_nat tree_level := sibling]> siblings in
      next ← combine_chunks tree_level current_nodes;
      sibling_levels num_levels (tree_level + 1) next (idx / 2) siblings
  end.

Definition extract_siblings (nodes : list Hash) (index base_level : Z) (siblings : list Hash) :
    option (list Hash) :=
  let num_levels := trailing_zeros (zlen nodes) in
  sibling_levels (Z.to_nat num_levels) base_level nodes index siblings.

(** The loop of [compute_root_from_path]. *)
Fixpoint path_root (level pos : Z) (current : Hash) (siblings : list Hash) : option Hash :=
  match siblings with
  | [] => Some current
  | sibling :: siblings =>
      current ← (if Z.land pos 1 =? 0 then hash_combine level current sibling
                 else hash_combine level sibling current);
      path_root (level + 1) (Z.shiftr pos 1) current siblings
  end.

Definition compute_root_from_path (position : Z) (leaf : Hash) (siblings : list Hash) : option Hash :=
  path_root 0 position leaf siblings.

Definition parse_leaves (decoded_row : list Z) : result WitnessClientError (list Hash) :=
  if zlen decoded_row <? SUBSHARD_ROW_BYTES
  then Err (WE_QueryFailed "decoded row too short: {} bytes, expected >= {}")
  else Ok ((fun i => slice decoded_row (i * 32) (i * 32 + 32)) <$> seqZ 0 SUBSHARD_LEAVES).

(** The shard roots of the broadcast, padded with empty shards to the cap's width. *)
Definition padded_cap (broadcast : BroadcastData) : list Hash :=
  let total_cap_slots := Z.shiftl 1 SHARD_HEIGHT in
  let empty_shard_root := mho_to_bytes (mho_empty_root SHARD_HEIGHT) in
  resize (Z.to_nat total_cap_slots) empty_shard_root (cap_shard_roots (bc_cap broadcast)).

Definition reconstruct_witness (position shard_idx subshard_idx leaf_idx : Z) (decoded_row : list Z)
    (broadcast : BroadcastData) : option (result WitnessClientError PirWitness) :=
  let siblings := replicate (Z.to_nat TREE_DEPTH) (replicate 32 0) in
  match parse_leaves decoded_row with
  | Err e => Some (Err e)
  | Ok leaves =>
      siblings ← extract_siblings leaves leaf_idx 0 siblings;
      let shard_offset := wrap32 (shard_idx - bc_window_start_shard broadcast) in
      ss_roots ← bc_subshard_roots broadcast !! Z.to_nat shard_offset;
      siblings ← extract_siblings (ssr_roots ss_roots) subshard_idx SUBSHARD_HEIGHT siblings;
      siblings ← extract_siblings (padded_cap broadcast) shard_idx SHARD_HEIGHT siblings;
      leaf ← leaves !! Z.to_nat leaf_idx;
      anchor_root ← compute_root_from_path position leaf siblings;
      Some (Ok {| pw_position := position; pw_siblings := siblings;
                  pw_anchor_height := bc_anchor_height broadcast; pw_anchor_root := anchor_root |})
  end.

End reconstruct.

(** ** Public parameters and their epoch *)

Definition PIR_EPOCH_BYTES : Z := 8.

(** FNV-1a in form, with the multiplier of the code, [2 ^ 44 + 0x1b3]; the FNV prime
    is [2 ^ 40 + 0x1b3]. *)
Definition public_params_epoch (public_params : list Z) : list Z :=
  le_bytes 8 (foldl (fun hash byte => wrap64 (Z.lxor hash byte * 0x1000000001b3))
    0xcbf29ce484222325 public_params).

Definition split_epoch (response : list Z) : option (list Z * list Z) :=
  if zlen response <? PIR_EPOCH_BYTES then None
  else Some (take (Z.to_nat PIR_EPOCH_BYTES) response, drop (Z.to_nat PIR_EPOCH_BYTES) response).

Definition IPIR_SETUP_SEED : list Z := string_bytes "spendability-pir-ipir-setup-0000".
Definition WITNESS_POOL : string := "ironwood".

Record YpirScenario := { sc_num_items : Z; sc_item_size_bits : Z }.

(** ** The server *)

(** The trait [PirEngine]. *)
Class PirEngine := {
  pe_state : Type;
  pe_setup : list Z -> YpirScenario -> result string pe_state;
  pe_answer_query : pe_state -> list Z -> result string (list Z);
  pe_public_params : pe_state -> list Z }.

Inductive ServerPhase :=
| ServerSyncing (current_height target_height : Z)
| ServerServing.

Record WitnessMetadata := {
  wm_anchor_height : Z; wm_tree_size : Z; wm_window_start_shard : Z; wm_window_shard_count : Z;
  wm_populated_shards : Z; wm_phase : ServerPhase; wm_pool : string }.

Section server.
Context `{MerkleHash} `{PirEngine}.

Record PirState := { ps_engine_state : pe_state; ps_broadcast : BroadcastData; ps_metadata : WitnessMetadata }.

Record AppState := { as_live_pir : option PirState; as_phase : ServerPhase; as_scenario : YpirScenario }.

Definition AppState_new : AppState :=
  {| as_live_pir := None; as_phase := ServerSyncing 0 0;
     as_scenario := {| sc_num_items := L0_DB_ROWS; sc_item_size_bits := SUBSHARD_ROW_BYTES * 8 |} |}.

(** The tree comes back with the cache the build warmed, also when the engine fails. *)
Definition rebuild_pir (tree : CommitmentTreeDb) (scenario : YpirScenario) (anchor_height : Z) :
    option (result string PirState * CommitmentTreeDb) :=
  '(db_bytes, broadcast, tree) ← build_pir_db_and_broadcast tree anchor_height;
  Some (let? engine_state := pe_setup db_bytes scenario in
    Ok {| ps_engine_state := engine_state; ps_broadcast := broadcast;
          ps_metadata :=
            {| wm_anchor_height := anchor_height; wm_tree_size := tree_size tree;
               wm_window_start_shard := window_start_shard tree;
               wm_window_shard_count := window_shard_count tree;
               wm_populated_shards := populated_shards tree;
               wm_phase := ServerServing; wm_pool := WITNESS_POOL |} |}, tree).

(** The handlers: a status and, on success, the body. *)
Definition route_metadata (a : AppState) : Z * option WitnessMetadata :=
  match as_live_pir a with Some ps => (200, Some (ps_metadata ps)) | None => (503, None) end.
Definition route_broadcast (a : AppState) : Z * option BroadcastData :=
  match as_live_pir a with Some ps => (200, Some (ps_broadcast ps)) | None => (503, None) end.
Definition route_params (a : AppState) : Z * option YpirScenario := (200, Some (as_scenario a)).
Definition route_public_params (a : AppState) : Z * option (list Z) :=
  match as_live_pir a with
  | Some ps => (200, Some (pe_public_params (ps_engine_state ps)))
  | None => (503, None)
  end.
Definition route_query (a : AppState) (body : list Z) : Z * option (list Z) :=
  match as_live_pir a with
  | None => (503, None)
  | Some ps =>
      match pe_answer_query (ps_engine_state ps) body with
      | Ok response_bytes => (200, Some response_bytes)
      | Err _ => (500, None)
      end
  end.

End server.

(** ** The client *)

(** A reply of the server: a transport failure, or a status with the body as it
    parses ([None] when it does not). *)
Definition Reply (A : Type) : Type := result string (Z * option A).

(** The network between client and server, which may do anything and may move the
    server on between two requests. *)
Class WitnessHttp (S : Type) := {
  wh_params : S -> Reply YpirScenario * S;
  wh_metadata : S -> Reply (option string) * S;
  wh_broadcast : S -> Reply BroadcastData * S;
  wh_public_params : S -> Reply (list Z) * S;
  wh_query : list Z -> S -> Reply (list Z) * S }.

(** [error_for_status], then the body. *)
Definition reply_value {A} (r : Reply A) : result WitnessClientError A :=
  match r with
  | Err m => Err (WE_Http m)
  | Ok (status, body) =>
      if (400 <=? status) && (status <? 600) then Err (WE_Http "status")
      else ok_or body (WE_Http "body")
  end.

(** The same after the check for 503. *)
Definition available_value {A} (r : Reply A) : result WitnessClientError A :=
  match r with
  | Ok (status, _) => if status =? 503 then Err WE_ServerUnavailable else reply_value r
  | Err _ => reply_value r
  end.

Definition legacy_pool : string := "orchard".

Section client.
Context `{MerkleHash} `{Ipir} {S : Type} `{!WitnessHttp S}.

Record PublishedParams := { pp_c1 : list (list Z); pp_epoch : list Z }.

Record WitnessClient := {
  wc_broadcast : BroadcastData; wc_rlwe : RlweParams; wc_ypir : YpirSchemeParams;
  wc_offline_query_polys : list (list Z); wc_published : PublishedParams }.

Definition fetch_public_params (rlwe : RlweParams) (ypir : YpirSchemeParams) (net : S) :
    result WitnessClientError PublishedParams * S :=
  let '(resp, net) := wh_public_params net in
  (let? bytes := available_value resp in
   let blocks := db_cols ypir / rlwe_d rlwe in
   let expected := wrap64 (blocks * published_c1_len (rlwe_d rlwe) (rlwe_q rlwe)) in
   if negb (zlen bytes =? expected)
   then Err (WE_InvalidParams "/public-params returned {} bytes, expected {} for {} output blocks")
   else Ok {| pp_c1 := recover_published_c1 bytes (rlwe_d rlwe) blocks (rlwe_q rlwe);
              pp_epoch := public_params_epoch bytes |}, net).

Definition WitnessClient_connect (net : S) : result WitnessClientError WitnessClient * S :=
  match wh_params net with (r, net) =>
  match reply_value r with
  | Err e => (Err e, net)
  | Ok scenario =>
  match wh_metadata net with (r, net) =>
  match available_value r with
  | Err e => (Err e, net)
  | Ok pool =>
  let pool := default legacy_pool pool in
  if negb (bool_decide (pool = WITNESS_POOL))
  then (Err (WE_PoolMismatch WITNESS_POOL pool), net) else
  match wh_broadcast net with (r, net) =>
  match available_value r with
  | Err e => (Err e, net)
  | Ok broadcast =>
  match params_for_simplepir (sc_num_items scenario) (sc_item_size_bits scenario) with
  | Err e => (Err (WE_InvalidParams e), net)
  | Ok (rlwe, ypir) =>
  match fetch_public_params rlwe ypir net with
  | (Err e, net) => (Err e, net)
  | (Ok published, net) =>
      (Ok {| wc_broadcast := broadcast; wc_rlwe := rlwe; wc_ypir := ypir;
             wc_offline_query_polys := generate_setup ypir IPIR_SETUP_SEED;
             wc_published := published |}, net)
  end end end end end end end end.

Definition generate_ipir_query (c : WitnessClient) (row_idx : Z) (rng : ipir_rng) :
    result WitnessClientError (list Z * ipir_seed) :=
  let '(query, packing_keys, seed) := fresh_query (wc_ypir c) (wc_offline_query_polys c) row_idx rng in
  let? query_bytes := map_err WE_QueryFailed (serialize_packing_keys packing_keys) in
  Ok (query_bytes ++ to_switched_bytes query (rlwe_q (wc_rlwe c)) (query_bits (wc_ypir c)), seed).

Definition post_query (query_bytes : list Z) (net : S) : result WitnessClientError (list Z) * S :=
  let '(resp, net) := wh_query query_bytes net in
  (match resp with
   | Err m => Err (WE_Http m)
   | Ok (status, body) =>
       if status =? 503 then Err WE_ServerUnavailable
       else if (400 <=? status) && (status <? 600) then Err (WE_QueryFailed "status")
       else ok_or body (WE_Http "body")
   end, net).

Definition refresh_public_params (c : WitnessClient) (net : S) :
    result WitnessClientError WitnessClient * S :=
  let '(r, net) := fetch_public_params (wc_rlwe c) (wc_ypir c) net in
  (let? refreshed := r in
   Ok {| wc_broadcast := wc_broadcast c; wc_rlwe := wc_rlwe c; wc_ypir := wc_ypir c;
         wc_offline_query_polys := wc_offline_query_polys c; wc_published := refreshed |}, net).

(** One pass of the loop of [ipir_round_trip]: the decoded row, or [None] when the
    response names other parameters than the client holds. *)
Definition round_trip_attempt (c : WitnessClient) (row_idx : Z) (rng : ipir_rng) (net : S) :
    result WitnessClientError (option (list Z)) * S :=
  match generate_ipir_query c row_idx rng with
  | Err e => (Err e, net)
  | Ok (query_bytes, seed) =>
  let '(r, net) := post_query query_bytes net in
  (let? response_bytes := r in
   let? (epoch, body) := ok_or (split_epoch response_bytes) (WE_MalformedResponse (zlen response_bytes)) in
   Ok (if bool_decide (pp_epoch (wc_published c) = epoch)
       then Some (decode_response seed (pp_c1 (wc_published c)) body) else None), net)
  end.

(** Two attempts, with a refresh of the parameters between them. *)
Definition ipir_round_trip (c : WitnessClient) (row_idx : Z) (rng rng' : ipir_rng) (net : S) :
    result WitnessClientError (list Z) * WitnessClient * S :=
  match round_trip_attempt c row_idx rng net with
  | (Err e, net) => (Err e, c, net)
  | (Ok (Some row), net) => (Ok row, c, net)
  | (Ok None, net) =>
  match refresh_public_params c net with
  | (Err e, net) => (Err e, c, net)
  | (Ok c, net) =>
  match round_trip_attempt c row_idx rng' net with
  | (Err e, net) => (Err e, c, net)
  | (Ok (Some row), net) => (Ok row, c, net)
  | (Ok None, net) => (Err WE_PublicParamsUnstable, c, net)
  end end end.

(** [None]: the reconstruction panics. *)
Definition get_witness (c : WitnessClient) (position : Z) (rng rng' : ipir_rng) (net : S) :
    option (result WitnessClientError PirWitness) * WitnessClient * S :=
  let '(shard_idx, subshard_idx, leaf_idx) := decompose_position position in
  let first := bc_window_start_shard (wc_broadcast c) in
  let window_end := wrap32 (first + bc_window_shard_count (wc_broadcast c)) in
  if (shard_idx <? first) || (window_end <=? shard_idx)
  then (Some (Err (WE_PositionOutsideWindow position first window_end)), c, net) else
  let row_idx := physical_row_index shard_idx subshard_idx first in
  match ipir_round_trip c row_idx rng rng' net with
  | (Err e, c, net) => (Some (Err e), c, net)
  | (Ok decoded_row, c, net) =>
      (reconstruct_witness position shard_idx subshard_idx leaf_idx decoded_row (wc_broadcast c), c, net)
  end.

Definition refresh_broadcast (c : WitnessClient) (net : S) :
    result WitnessClientError WitnessClient * S :=
  let '(resp, net) := wh_broadcast net in
  (let? broadcast := available_value resp in
   Ok {| wc_broadcast := broadcast; wc_rlwe := wc_rlwe c; wc_ypir := wc_ypir c;
         wc_offline_query_polys := wc_offline_query_polys c; wc_published := wc_published c |}, net).

(** [WitnessClientBlocking::get_witnesses]: the first failure ends the batch. *)
Fixpoint get_witnesses (c : WitnessClient) (positions : list (Z * ipir_rng * ipir_rng)) (net : S) :
    option (result WitnessClientError (list PirWitness)) * WitnessClient * S :=
  match positions with
  | [] => (Some (Ok []), c, net)
  | (pos, rng, rng') :: positions =>
      match get_witness c pos rng rng' net with
      | (None, c, net) => (None, c, net)
      | (Some (Err e), c, net) => (Some (Err e), c, net)
      | (Some (Ok witness), c, net) =>
          match get_witnesses c positions net with
          | (Some (Ok results), c, net) => (Some (Ok (witness :: results)), c, net)
          | failed => failed
          end
      end
  end.

End client.

(** ** Authentication paths *)

Section path.
Context `{MerkleHashLaws}.

(** The siblings of position [p] of level [l] for [n] levels. *)
Fixpoint auth_path (leaf : Z -> mho) (l n : nat) (p : Z) : list Hash :=
  match n with
  | O => []
  | S n => mho_to_bytes (node leaf l (Z.lxor p 1)) :: auth_path leaf (S l) n (p / 2)
  end.

Lemma length_auth_path f l n p : length (auth_path f l n p) = n.
Proof. revert l p. induction n; intros; cbn; auto. Qed.

Lemma auth_path_app f l n m p :
  0 <= p -> auth_path f l (n + m) p = auth_path f l n p ++ auth_path f (l + n) m (p / 2 ^ Z.of_nat n).
Proof.
  revert l p. induction n as [|n IH]; intros l p Hp.
  - cbn [Nat.add auth_path app]. change (2 ^ Z.of_nat 0) with 1. by rewrite Z.div_1_r, Nat.add_0_r.
  - cbn [Nat.add auth_path app]. rewrite IH by (apply Z.div_pos; lia). do 2 f_equal.
    rewrite Nat2Z.inj_succ, Z.pow_succ_r, Z.div_div by lia. by rewrite Nat.add_succ_comm.
Qed.

Lemma lxor_even q : Z.lxor (2 * q) 1 = 2 * q + 1.
Proof.
  rewrite Z.add_nocarry_lxor; [done|]. change 1 with (Z.ones 1). rewrite Z.land_ones by lia.
  change (2 ^ 1) with 2. by rewrite Z.mul_comm, Z.mod_mul.
Qed.

Lemma lxor_odd q : Z.lxor (2 * q + 1) 1 = 2 * q.
Proof. by rewrite <- lxor_even, Z.lxor_assoc, Z.lxor_nilpotent, Z.lxor_0_r. Qed.

Lemma land_1_mod p : Z.land p 1 = p mod 2.
Proof. change 1 with (Z.ones 1) at 1. by rewrite Z.land_ones. Qed.

(** The node of [p] and its sibling combine to the parent. *)
Lemma path_step f l p :
  0 <= p ->
  (if Z.land p 1 =? 0
   then hash_combine (Z.of_nat l) (mho_to_bytes (node f l p)) (mho_to_bytes (node f l (Z.lxor p 1)))
   else hash_combine (Z.of_nat l) (mho_to_bytes (node f l (Z.lxor p 1))) (mho_to_bytes (node f l p))) =
  Some (mho_to_bytes (node f (S l) (p / 2))).
Proof.
  intros Hp. rewrite land_1_mod. pose proof (Z.div_mod p 2). pose proof (Z.mod_pos_bound p 2).
  destruct (p mod 2 =? 0) eqn:E; bool_prop.
  - replace p with (2 * (p / 2)) at 1 2 by lia. rewrite lxor_even. apply hash_combine_node.
  - replace p with (2 * (p / 2) + 1) at 1 2 by lia. rewrite lxor_odd. apply hash_combine_node.
Qed.

(** Folding an authentication path gives the ancestor. *)
Lemma path_root_node f n : forall l p, 0 <= p ->
  path_root (Z.of_nat l) p (mho_to_bytes (node f l p)) (auth_path f l n p) =
  Some (mho_to_bytes (node f (l + n) (p / 2 ^ Z.of_nat n))).
Proof.
  induction n as [|n IH]; intros l p Hp; cbn [auth_path path_root].
  - change (2 ^ Z.of_nat 0) with 1. by rewrite Z.div_1_r, Nat.add_0_r.
  - rewrite path_step by done. cbn [mbind option_bind].
    replace (Z.of_nat l + 1) with (Z.of_nat (S l)) by lia.
    rewrite Z.shiftr_div_pow2 by lia. change (2 ^ 1) with 2. rewrite IH by (apply Z.div_pos; lia).
    rewrite Z.div_div, <- Z.pow_succ_r, <- Nat2Z.inj_succ by lia. by rewrite Nat.add_succ_comm.
Qed.

Lemma combine_chunks_nodes f l s (n : nat) :
  combine_chunks (Z.of_nat l) (nodes f l (2 * s) (2 * Z.of_nat n)) = Some (nodes f (S l) s (Z.of_nat n)).
Proof.
  revert s. induction n as [|n IH]; intros s; [done|].
  rewrite (nodes_cons f l), (nodes_cons f l), (nodes_cons f (S l)) by lia. cbn [combine_chunks].
  rewrite hash_combine_node. cbn [mbind option_bind].
  replace (2 * s + 1 + 1) with (2 * (s + 1)) by lia.
  replace (2 * Z.of_nat (S n) - 1 - 1) with (2 * Z.of_nat n) by lia.
  replace (Z.of_nat (S n) - 1) with (Z.of_nat n) by lia. by rewrite IH.
Qed.

(** The sibling of a node inside a complete subtree of more than one node. *)
Lemma sibling_inside idx s m :
  0 <= idx < 2 * m -> 0 <= Z.lxor idx 1 < 2 * m /\ Z.lxor (s * (2 * m) + idx) 1 = s * (2 * m) + Z.lxor idx 1.
Proof.
  intros Hi. pose proof (Z.div_mod idx 2). pose proof (Z.mod_pos_bound idx 2).
  set (q := idx / 2) in *. destruct (decide (idx mod 2 = 0)).
  - replace idx with (2 * q) by lia. replace (s * (2 * m) + 2 * q) with (2 * (s * m + q)) by lia.
    rewrite !lxor_even. lia.
  - replace idx with (2 * q + 1) by lia. replace (s * (2 * m) + (2 * q + 1)) with (2 * (s * m + q) + 1) by lia.
    rewrite !lxor_odd. lia.
Qed.

Lemma sibling_levels_nodes f n : forall l s idx siblings,
  0 <= s -> 0 <= idx < 2 ^ Z.of_nat n -> (l + n <= length siblings)%nat ->
  sibling_levels n (Z.of_nat l) (nodes f l (s * 2 ^ Z.of_nat n) (2 ^ Z.of_nat n)) idx siblings =
  Some (take l siblings ++ auth_path f l n (s * 2 ^ Z.of_nat n + idx) ++ drop (l + n) siblings).
Proof.
  induction n as [|n IH]; intros l s idx siblings Hs Hi Hlen; cbn [sibling_levels auth_path].
  - by rewrite Nat.add_0_r, app_nil_l, take_drop.
  - rewrite Nat2Z.inj_succ, Z.pow_succ_r in * by lia. set (m := 2 ^ Z.of_nat n) in *.
    destruct (sibling_inside idx s m Hi) as [Hsib Hx]. rewrite zlen_nodes by lia. guards.
    rewrite nodes_lookup by lia. cbn [mbind option_bind].
    destruct (_ <=? _) eqn:E; bool_prop; [unfold zlen in E; lia|]. clear E.
    replace (s * (2 * m)) with (2 * (s * m)) by lia.
    rewrite <- (Z2Nat.id m) at 2 by lia. rewrite combine_chunks_nodes. cbn [mbind option_bind].
    rewrite Z2Nat.id by lia. replace (Z.of_nat l + 1) with (Z.of_nat (S l)) by lia.
    rewrite IH; [|done|split; [apply Z.div_pos; lia|apply Z.div_lt_upper_bound; lia]|
      rewrite length_insert; lia].
    f_equal. rewrite Nat2Z.id.
    rewrite drop_insert_lt by lia. replace (2 * (s * m)) with (s * (2 * m)) by lia. rewrite Hx.
    replace ((s * (2 * m) + idx) / 2) with (s * m + idx / 2)
      by (replace (s * (2 * m) + idx) with (idx + (s * m) * 2) by lia; rewrite Z.div_add by lia; lia).
    rewrite (take_S_r _ _ (mho_to_bytes (node f l (s * (2 * m) + Z.lxor idx 1))))
      by (apply list_lookup_insert_eq; lia).
    rewrite take_insert_ge by lia. rewrite <- app_assoc. cbn [app]. by rewrite Nat.add_succ_r.
Qed.

(** Siblings taken from [2^n] consecutive nodes of level [l], when the levels below
    are done. *)
Lemma extract_tier f (n l : nat) m start level idx p known rest :
  m = 2 ^ Z.of_nat n -> level = Z.of_nat l -> p = start + idx -> start mod m = 0 ->
  0 <= start -> 0 <= idx < m -> length known = l -> (n <= length rest)%nat -> (n < 64)%nat ->
  extract_siblings (nodes f l start m) idx level (known ++ rest) =
  Some ((known ++ auth_path f l n p) ++ drop n rest).
Proof.
  intros -> -> -> Hm Hs Hi <- Hn Hlt. unfold extract_siblings. rewrite zlen_nodes by lia.
  rewrite trailing_zeros_pow2, Nat2Z.id by lia.
  pose proof (Z.div_mod start (2 ^ Z.of_nat n)).
  replace start with (start / 2 ^ Z.of_nat n * 2 ^ Z.of_nat n) by lia.
  rewrite sibling_levels_nodes by (done || (apply Z.div_pos; lia) || (rewrite ?length_app; lia)).
  rewrite take_app_length, <- drop_drop, drop_app_length. by rewrite app_assoc.
Qed.

(** ** Reconstruction from nodes *)

Lemma decompose_exact p :
  0 <= p < 2 ^ TREE_DEPTH ->
  decompose_position p = (p / 65536, p / 256 mod 256, p mod 256).
Proof.
  intros Hp. unfold decompose_position. geometry. rewrite !Z.shiftr_div_pow2 by lia.
  change 0xFF with (Z.ones 8). rewrite !Z.land_ones by lia.
  change (2 ^ 8) with 256. change (2 ^ 16) with 65536. unfold wrap32.
  rewrite (Z.mod_small (p / 65536)); [done|]. geometry.
  split; [apply Z.div_pos; lia|apply Z.div_lt_upper_bound; lia].
Qed.

Lemma zlen_node_bytes f l s n : Forall (fun r => zlen r = 32) (nodes f l s n).
Proof.
  apply Forall_fmap, Forall_true. intros i. unfold compose, zlen. by rewrite mho_to_bytes_length.
Qed.

Lemma parse_leaves_nodes f s rest :
  parse_leaves (concat (nodes f 0 s 256) ++ rest) = Ok (nodes f 0 s 256).
Proof.
  unfold parse_leaves. pose proof (zlen_nonneg rest).
  rewrite zlen_app, (zlen_concat_records _ 32), zlen_nodes by (done || apply zlen_node_bytes).
  change SUBSHARD_ROW_BYTES with 8192. geometry. guards. f_equal.
  apply list_eq. intros i. rewrite list_lookup_fmap.
  destruct (decide (Z.of_nat i < 256)) as [Hi|Hi].
  - rewrite lookup_seqZ_lt by lia. cbn [fmap option_fmap option_map]. rewrite Z.add_0_l.
    pose proof (nodes_lookup f 0 s 256 (Z.of_nat i) ltac:(lia)) as Hl. rewrite Nat2Z.id in Hl.
    etransitivity; [|symmetry; exact Hl]. f_equal. eapply slice_concat_record; [apply zlen_node_bytes|lia|exact Hl].
  - rewrite lookup_seqZ_ge by lia. symmetry. apply lookup_ge_None.
    unfold nodes. rewrite length_fmap, length_seqZ. lia.
Qed.

Lemma padded_cap_nodes f n broadcast :
  0 <= n <= 65536 -> (forall j, n * 65536 <= j -> f j = mho_empty_leaf) ->
  cap_shard_roots (bc_cap broadcast) = nodes f 16 0 n -> padded_cap broadcast = nodes f 16 0 65536.
Proof.
  intros Hn Hf Hc. unfold padded_cap. rewrite Hc. change (Z.shiftl 1 SHARD_HEIGHT) with 65536.
  rewrite resize_ge by (unfold nodes; rewrite length_fmap, length_seqZ; lia).
  replace 65536 with (n + (65536 - n)) at 2 by lia. rewrite nodes_app by lia. f_equal.
  assert (length (nodes f 16 0 n) = Z.to_nat n) as -> by (unfold nodes; by rewrite length_fmap, length_seqZ).
  replace (Z.to_nat 65536 - Z.to_nat n)%nat with (Z.to_nat (65536 - n)) by lia.
  apply replicate_as_Forall. split; [unfold nodes; rewrite length_fmap, length_seqZ; lia|].
  apply Forall_fmap, Forall_forall. intros i Hi. apply elem_of_seqZ in Hi. unfold compose.
  rewrite node_empty; [done|done|]. intros j Hj. apply Hf. geometry. lia.
Qed.

(** These unfold to large tables; the proofs below use their lemmas only. *)
#[local] Opaque extract_siblings padded_cap parse_leaves.

Lemma reconstruct_steps p shard ss_idx leaf_idx row broadcast leaves ss s1 s2 s3 leaf :
  parse_leaves row = Ok leaves ->
  extract_siblings leaves leaf_idx 0 (replicate (Z.to_nat TREE_DEPTH) (replicate 32 0)) = Some s1 ->
  bc_subshard_roots broadcast !! Z.to_nat (wrap32 (shard - bc_window_start_shard broadcast)) = Some ss ->
  extract_siblings (ssr_roots ss) ss_idx SUBSHARD_HEIGHT s1 = Some s2 ->
  extract_siblings (padded_cap broadcast) shard SHARD_HEIGHT s2 = Some s3 ->
  leaves !! Z.to_nat leaf_idx = Some leaf ->
  reconstruct_witness p shard ss_idx leaf_idx row broadcast =
  (root ← path_root 0 p leaf s3;
   Some (Ok {| pw_position := p; pw_siblings := s3;
               pw_anchor_height := bc_anchor_height broadcast; pw_anchor_root := root |})).
Proof.
  intros H1 H2 H3 H4 H5 H6. unfold reconstruct_witness. revert H5. generalize (padded_cap broadcast).
  intros cap H5. rewrite H1, H2. cbn [mbind option_bind].
  rewrite H3. cbn [mbind option_bind]. rewrite H4. cbn [mbind option_bind]. rewrite H5.
  cbn [mbind option_bind]. by rewrite H6.
Qed.

(** Row, sub-shard roots and cap may even come from different trees: the siblings
    of each tier are those of its own tree, and the result is the fold over them. *)
Lemma reconstruct_tiers f g h p row broadcast ss :
  0 <= p < 2 ^ TREE_DEPTH ->
  let shard := p / 65536 in
  let path := auth_path f 0 8 p ++ auth_path g 8 8 (p / 256) ++ auth_path h 16 16 (p / 65536) in
  parse_leaves row = Ok (nodes f 0 (p / 256 * 256) 256) ->
  bc_subshard_roots broadcast !! Z.to_nat (wrap32 (shard - bc_window_start_shard broadcast)) = Some ss ->
  ssr_roots ss = nodes g 8 (shard * 256) 256 ->
  padded_cap broadcast = nodes h 16 0 65536 ->
  reconstruct_witness p shard (p / 256 mod 256) (p mod 256) row broadcast =
  (root ← path_root 0 p (mho_to_bytes (f p)) path;
   Some (Ok {| pw_position := p; pw_siblings := path;
               pw_anchor_height := bc_anchor_height broadcast; pw_anchor_root := root |})).
Proof.
  intros Hp shard path Hrow Hss Hg Hh. change (2 ^ TREE_DEPTH) with 4294967296 in Hp.
  pose proof (Z.div_mod p 256). pose proof (Z.mod_pos_bound p 256).
  pose proof (Z.div_mod (p / 256) 256). pose proof (Z.mod_pos_bound (p / 256) 256).
  assert (Hdd : shard = p / 256 / 256) by (unfold shard; rewrite Z.div_div by lia; done).
  assert (0 <= shard < 65536) by (split; [apply Z.div_pos|apply Z.div_lt_upper_bound]; lia).
  assert (0 <= p / 256) by (apply Z.div_pos; lia). clearbody shard.
  set (zeros := replicate (Z.to_nat TREE_DEPTH) (replicate 32 0)).
  assert (Hz : @length Hash zeros = 32%nat) by apply length_replicate.
  assert (E1 : extract_siblings (nodes f 0 (p / 256 * 256) 256) (p mod 256) 0 ([] ++ zeros) =
    Some (([] ++ auth_path f 0 8 p) ++ drop 8 zeros)).
  { apply extract_tier; rewrite ?Hz; try (done || lia). apply Z.mod_mul. lia. }
  assert (E2 : extract_siblings (nodes g 8 (shard * 256) 256) (p / 256 mod 256) SUBSHARD_HEIGHT
      (([] ++ auth_path f 0 8 p) ++ drop 8 zeros) =
    Some ((([] ++ auth_path f 0 8 p) ++ auth_path g 8 8 (p / 256)) ++ drop 8 (drop 8 zeros))).
  { apply extract_tier; rewrite ?length_app, ?length_auth_path, ?length_drop, ?Hz; try (done || lia).
    apply Z.mod_mul. lia. }
  assert (E3 : extract_siblings (nodes h 16 0 65536) shard SHARD_HEIGHT
      ((([] ++ auth_path f 0 8 p) ++ auth_path g 8 8 (p / 256)) ++ drop 8 (drop 8 zeros)) =
    Some (((([] ++ auth_path f 0 8 p) ++ auth_path g 8 8 (p / 256)) ++ auth_path h 16 16 shard) ++
      drop 16 (drop 8 (drop 8 zeros)))).
  { apply extract_tier; rewrite ?length_app, ?length_auth_path, ?length_drop, ?Hz; try (done || lia). }
  rewrite <- Hg in E2. rewrite <- Hh in E3.
  rewrite (reconstruct_steps _ _ _ _ _ _ _ _ _ _ _ (mho_to_bytes (f p)) Hrow E1 Hss E2 E3).
  - rewrite !drop_drop. rewrite drop_ge by (etransitivity; [apply Nat.eq_le_incl; exact Hz|lia]).
    rewrite app_nil_r, app_nil_l, <- app_assoc. unfold path.
    by replace (p / 65536) with shard by (rewrite Hdd, Z.div_div by lia; done).
  - rewrite nodes_lookup by lia. cbn [node]. do 3 f_equal. lia.
Qed.

Lemma path_root_total l p x siblings :
  Forall (fun h => exists y, h = mho_to_bytes y) siblings ->
  exists y, path_root l p (mho_to_bytes x) siblings = Some (mho_to_bytes y).
Proof.
  intros Hs. revert l p x. induction Hs as [|h siblings (y & ->) _ IH]; intros l p x; cbn [path_root].
  - by exists x.
  - unfold hash_combine, bytes_to_mho. rewrite !mho_from_to. cbn [mbind option_bind].
    destruct (Z.land p 1 =? 0); cbn [mbind option_bind]; apply IH.
Qed.

Lemma auth_path_bytes f l n p : Forall (fun h => exists y, h = mho_to_bytes y) (auth_path f l n p).
Proof. revert l p. induction n; intros; cbn [auth_path]; constructor; eauto. Qed.

Lemma position_tiers p : 0 <= p < 2 ^ TREE_DEPTH -> p / 2 ^ Z.of_nat 32 = 0.
Proof. intros. by apply Z.div_small. Qed.

(** All tiers from one tree: the authentication path and the root of the tree. *)
Lemma auth_path_tiers f p :
  0 <= p -> auth_path f 0 8 p ++ auth_path f 8 24 (p / 256) = auth_path f 0 32 p /\
  auth_path f 8 24 (p / 256) = auth_path f 8 8 (p / 256) ++ auth_path f 16 16 (p / 65536).
Proof.
  intros Hp. assert (0 <= p / 256) by (apply Z.div_pos; lia). split.
  - by rewrite (auth_path_app f 0 8 24).
  - rewrite (auth_path_app f 8 8 16) by done. change (2 ^ Z.of_nat 8) with 256.
    by rewrite Z.div_div by lia.
Qed.

(** The row of the database that holds a position. *)
Lemma window_row pre bs t p :
  tree_repr pre bs t ->
  zlen pre / SHARD_LEAVES * 65536 <= p < (zlen pre / SHARD_LEAVES + window_shard_count t) * 65536 ->
  let all := pre ++ window_leaves bs in
  let row := (p / 65536 - zlen pre / SHARD_LEAVES) * SUBSHARDS_PER_SHARD + p / 256 mod 256 in
  slice (resize (Z.to_nat L0_DB_BYTES) 0
    (concat (nodes (leaf_at all) 0 (zlen pre) (window_shard_count t * SHARD_LEAVES))))
    (row * SUBSHARD_ROW_BYTES) (row * SUBSHARD_ROW_BYTES + SUBSHARD_ROW_BYTES) =
  concat (nodes (leaf_at all) 0 (p / 256 * 256) 256).
Proof.
  intros Hr Hp all row. pose proof (window_count_bounds _ _ _ Hr) as (Hw & _ & _).
  pose proof (pre_shards _ _ _ Hr) as Hps. change (SUBSHARD_ROW_BYTES) with 8192 in *.
  change L0_DB_BYTES with 67108864 in *. geometry.
  pose proof (Z.div_mod p 256). pose proof (Z.mod_pos_bound p 256).
  pose proof (Z.div_mod (p / 256) 256). pose proof (Z.mod_pos_bound (p / 256) 256).
  assert (Hdd : p / 65536 = p / 256 / 256) by (rewrite Z.div_div by lia; done).
  set (n := window_shard_count t) in *. set (w := zlen pre / 65536) in *.
  assert (Hrow : row = (p / 65536 - w) * 256 + p / 256 mod 256) by reflexivity.
  clearbody row n w.
  assert (Hstart : p / 256 * 256 = zlen pre + row * 256) by lia.
  assert (w <= p / 65536 < w + n)
    by (split; [apply Z.div_le_lower_bound|apply Z.div_lt_upper_bound]; lia).
  pose proof (Z.mod_pos_bound (p / 256) 256 eq_refl).
  assert (0 <= row) by lia. assert ((row + 1) * 256 <= n * 65536) by lia. rewrite resize_ge.
  2:{ pose proof (zlen_concat_records _ 32 (zlen_node_bytes (leaf_at all) 0 (zlen pre) (n * 65536))) as Hz.
      rewrite zlen_nodes in Hz by lia. apply Nat2Z.inj_le. rewrite Z2Nat.id by lia.
      etransitivity; [exact (Z.eq_le_incl _ _ Hz)|lia]. }
  replace (n * 65536) with (row * 256 + (256 + (n * 65536 - (row + 1) * 256))) by lia.
  rewrite !nodes_app, !concat_app, <- !app_assoc by lia. rewrite Hstart. apply slice_app.
  - rewrite (zlen_concat_records _ 32), zlen_nodes by (lia || apply zlen_node_bytes). lia.
  - rewrite (zlen_concat_records _ 32), zlen_nodes by (lia || apply zlen_node_bytes). lia.
Qed.

End path.

(** ** A client and the server it talks to *)

(** What a client relies on of an engine: the public parameters of a prepared
    database have the announced size, and the answer to a fresh query, tagged with
    their epoch, decodes with them to the row asked for. *)
Class EngineRetrieval `{Ipir} `{PirEngine} (scenario : YpirScenario) :=
  engine_retrieval rlwe ypir db st row_bytes :
    params_for_simplepir (sc_num_items scenario) (sc_item_size_bits scenario) = Ok (rlwe, ypir) ->
    sc_item_size_bits scenario = row_bytes * 8 -> bytes_ok db -> zlen db = sc_num_items scenario * row_bytes ->
    pe_setup db scenario = Ok st ->
    zlen (pe_public_params st) =
      wrap64 (db_cols ypir / rlwe_d rlwe * published_c1_len (rlwe_d rlwe) (rlwe_q rlwe)) /\
    forall row rng query keys seed, 0 <= row < sc_num_items scenario ->
      fresh_query ypir (generate_setup ypir IPIR_SETUP_SEED) row rng = (query, keys, seed) ->
      exists key_bytes body, serialize_packing_keys keys = Ok key_bytes /\
        pe_answer_query st (key_bytes ++ to_switched_bytes query (rlwe_q rlwe) (query_bits ypir)) =
          Ok (public_params_epoch (pe_public_params st) ++ body) /\
        get_range (decode_response seed (recover_published_c1 (pe_public_params st) (rlwe_d rlwe)
          (db_cols ypir / rlwe_d rlwe) (rlwe_q rlwe)) body) 0 row_bytes =
        Some (slice db (row * row_bytes) (row * row_bytes + row_bytes)).

(** The network that delivers each request to the server. *)
Definition direct_net `{PirEngine} : WitnessHttp AppState := {|
  wh_params a := (Ok (route_params a), a);
  wh_metadata a := (Ok (fst (route_metadata a), (fun m => Some (wm_pool m)) <$> snd (route_metadata a)), a);
  wh_broadcast a := (Ok (route_broadcast a), a);
  wh_public_params a := (Ok (route_public_params a), a);
  wh_query body a := (Ok (route_query a body), a) |}.

(** The server after [rebuild_pir] returned [ps]. *)
Definition serving `{PirEngine} (ps : PirState) : AppState :=
  {| as_live_pir := Some ps; as_phase := ServerServing; as_scenario := as_scenario AppState_new |}.

Section end_to_end.
Context `{MerkleHashLaws} `{Ipir} `{PirEngine} `{!EngineRetrieval (as_scenario AppState_new)}.
#[local] Existing Instance direct_net.

Context (rlwe : RlweParams) (ypir : YpirSchemeParams).
Hypothesis Hparams : params_for_simplepir L0_DB_ROWS (SUBSHARD_ROW_BYTES * 8) = Ok (rlwe, ypir).

(** [ps] was rebuilt from a tree that holds the window [bs] after [pre]. *)
Definition rebuilt (pre : list mho) (bs : list TreeBlock) (anchor : Z) (ps : PirState) : Prop :=
  exists t t', tree_repr pre bs t /\ zlen (ct_leaves t) <= L0_MAX_SHARDS * SHARD_LEAVES /\
    rebuild_pir t (as_scenario AppState_new) anchor = Some (Ok ps, t').

(** The window as a range of positions. *)
Definition in_window (pre : list mho) (bs : list TreeBlock) (p : Z) : Prop :=
  zlen pre <= p < zlen (pre ++ window_leaves bs).

Definition published_of (st : pe_state) : PublishedParams :=
  {| pp_c1 := recover_published_c1 (pe_public_params st) (rlwe_d rlwe)
       (db_cols ypir / rlwe_d rlwe) (rlwe_q rlwe);
     pp_epoch := public_params_epoch (pe_public_params st) |}.

Definition client_of (broadcast : BroadcastData) (published : PublishedParams) : WitnessClient :=
  {| wc_broadcast := broadcast; wc_rlwe := rlwe; wc_ypir := ypir;
     wc_offline_query_polys := generate_setup ypir IPIR_SETUP_SEED; wc_published := published |}.

Lemma zlen_resize n (l : list Z) : 0 <= n -> zlen (resize (Z.to_nat n) 0 l) = n.
Proof. intros. unfold zlen. rewrite length_resize. lia. Qed.

Lemma window_bytes (all : list mho) start n m : bytes_ok (resize m 0 (concat (nodes (leaf_at all) 0 start n))).
Proof.
  apply Forall_resize; [by unfold byte_ok|]. apply Forall_concat, Forall_fmap, Forall_true.
  intros i. apply mho_to_bytes_ok.
Qed.

(** What was rebuilt: the broadcast, the parameters' size, and the rows of the window. *)
Record rebuilt_facts (pre : list mho) (bs : list TreeBlock) (anchor : Z) (ps : PirState) (n : Z) : Prop := {
  rf_broadcast : ps_broadcast ps =
    {| bc_cap := {| cap_shard_roots := nodes (leaf_at (pre ++ window_leaves bs)) 16 0
         (zlen pre / SHARD_LEAVES + n) |};
       bc_subshard_roots := (fun i => {| ssr_roots := nodes (leaf_at (pre ++ window_leaves bs)) 8
         ((zlen pre / SHARD_LEAVES + i) * SUBSHARDS_PER_SHARD) SUBSHARDS_PER_SHARD |}) <$> seqZ 0 n;
       bc_window_start_shard := zlen pre / SHARD_LEAVES; bc_window_shard_count := n;
       bc_anchor_height := anchor |};
  rf_pool : wm_pool (ps_metadata ps) = WITNESS_POOL;
  rf_pre : zlen pre = zlen pre / SHARD_LEAVES * 65536;
  rf_count : 0 <= n <= 32 /\ 0 <= zlen pre / SHARD_LEAVES /\ zlen pre / SHARD_LEAVES + n <= 65536;
  rf_covers : zlen (pre ++ window_leaves bs) <= (zlen pre / SHARD_LEAVES + n) * 65536;
  rf_bound : zlen (pre ++ window_leaves bs) < 2 ^ TREE_DEPTH;
  rf_public : zlen (pe_public_params (ps_engine_state ps)) =
    wrap64 (db_cols ypir / rlwe_d rlwe * published_c1_len (rlwe_d rlwe) (rlwe_q rlwe));
  rf_rows p rng query keys seed :
    zlen pre <= p < (zlen pre / SHARD_LEAVES + n) * 65536 ->
    let row := (p / 65536 - zlen pre / SHARD_LEAVES) * 256 + p / 256 mod 256 in
    fresh_query ypir (generate_setup ypir IPIR_SETUP_SEED) row rng = (query, keys, seed) ->
    exists key_bytes body rest, serialize_packing_keys keys = Ok key_bytes /\
      pe_answer_query (ps_engine_state ps)
        (key_bytes ++ to_switched_bytes query (rlwe_q rlwe) (query_bits ypir)) =
        Ok (pp_epoch (published_of (ps_engine_state ps)) ++ body) /\
      decode_response seed (pp_c1 (published_of (ps_engine_state ps))) body =
        concat (nodes (leaf_at (pre ++ window_leaves bs)) 0 (p / 256 * 256) 256) ++ rest }.

Lemma rebuilt_exact pre bs anchor ps :
  rebuilt pre bs anchor ps -> exists n, rebuilt_facts pre bs anchor ps n.
Proof.
  intros (t & t' & Hr & Hmax & Hb). exists (window_shard_count t). unfold rebuild_pir in Hb.
  destruct (build_exact pre bs t Hr anchor) as (t1 & Hr1 & E). rewrite E in Hb. clear E.
  revert Hb. set (db := resize _ _ _). cbn [mbind option_bind].
  destruct (pe_setup db _) as [st|e] eqn:Est; [|done]. intros [= <- <-].
  pose proof (window_count_bounds _ _ _ Hr) as (Hw & Hw' & _). pose proof (pre_shards _ _ _ Hr) as Hps.
  pose proof (window_covers _ _ _ Hr Hmax) as Hc. pose proof (tr_bound _ _ _ Hr) as Hbd.
  pose proof (zlen_nonneg pre).
  assert (Hdb : zlen db = L0_DB_ROWS * SUBSHARD_ROW_BYTES) by (apply zlen_resize; done).
  assert (Hok : bytes_ok db) by apply window_bytes.
  pose proof (fun p => window_row pre bs t p Hr) as Hrow. cbv zeta in Hrow. fold db in Hrow.
  clearbody db. change SHARD_LEAVES with 65536 in *. change L0_MAX_SHARDS with 32 in *.
  destruct (engine_retrieval (scenario := as_scenario AppState_new) rlwe ypir db st SUBSHARD_ROW_BYTES Hparams
    eq_refl Hok Hdb Est) as [Hlen Hrows].
  constructor; cbn [ps_broadcast ps_metadata ps_engine_state wm_pool];
    change SHARD_LEAVES with 65536; try done; try lia.
  intros p rng query keys seed Hp.
  set (row := (p / 65536 - zlen pre / 65536) * 256 + p / 256 mod 256). intros Hq.
  assert (zlen pre / 65536 <= p / 65536 < zlen pre / 65536 + window_shard_count t)
    by (split; [apply Z.div_le_lower_bound|apply Z.div_lt_upper_bound]; lia).
  pose proof (Z.mod_pos_bound (p / 256) 256 eq_refl).
  destruct (Hrows row rng query keys seed) as (kb & body & E1 & E2 & E3);
    [cbn [as_scenario AppState_new sc_num_items]; change L0_DB_ROWS with 8192; unfold row; lia|done|].
  exists kb, body. change SUBSHARDS_PER_SHARD with 256 in Hrow. unfold row in E3.
  rewrite Hrow in E3 by lia. apply get_range_Some in E3 as (_ & _ & Hd); [|done].
  eexists. split_and!; [done|done|exact Hd].
Qed.

Lemma fetch_serving ps pre bs anchor n :
  rebuilt_facts pre bs anchor ps n ->
  fetch_public_params rlwe ypir (serving ps) = (Ok (published_of (ps_engine_state ps)), serving ps).
Proof.
  intros Hf. unfold fetch_public_params. cbn.
  by rewrite (rf_public _ _ _ _ _ Hf), Z.eqb_refl.
Qed.

Lemma connect_serving ps pre bs anchor n :
  rebuilt_facts pre bs anchor ps n ->
  WitnessClient_connect (serving ps) =
    (Ok (client_of (ps_broadcast ps) (published_of (ps_engine_state ps))), serving ps).
Proof.
  intros Hf. unfold WitnessClient_connect.
  cbn -[fetch_public_params params_for_simplepir bool_decide WITNESS_POOL L0_DB_ROWS SUBSHARD_ROW_BYTES].
  rewrite (rf_pool _ _ _ _ _ Hf), bool_decide_true by done. cbn [negb]. rewrite Hparams.
  fold (serving ps). by rewrite (fetch_serving _ _ _ _ _ Hf).
Qed.

(** One attempt against the server: the row of its tree under its own parameters. *)
Lemma attempt_serving ps pre bs anchor n broadcast published p rng :
  rebuilt_facts pre bs anchor ps n ->
  zlen pre <= p < (zlen pre / SHARD_LEAVES + n) * 65536 ->
  let row := (p / 65536 - zlen pre / SHARD_LEAVES) * 256 + p / 256 mod 256 in
  exists decoded, round_trip_attempt (client_of broadcast published) row rng (serving ps) =
    (Ok (if bool_decide (pp_epoch published = pp_epoch (published_of (ps_engine_state ps)))
         then Some decoded else None), serving ps) /\
    (published = published_of (ps_engine_state ps) -> exists rest,
      decoded = concat (nodes (leaf_at (pre ++ window_leaves bs)) 0 (p / 256 * 256) 256) ++ rest).
Proof.
  intros Hf Hp row. unfold round_trip_attempt, generate_ipir_query.
  cbn [client_of wc_ypir wc_offline_query_polys wc_rlwe wc_published].
  destruct (fresh_query ypir (generate_setup ypir IPIR_SETUP_SEED) row rng) as [[query keys] seed] eqn:Eq.
  destruct (rf_rows _ _ _ _ _ Hf p rng query keys seed Hp Eq) as (kb & body & rest & E1 & E2 & E3).
  rewrite E1. cbn [map_err]. unfold post_query. cbn [wh_query direct_net].
  unfold route_query. cbn [serving as_live_pir]. rewrite E2. cbn [Z.eqb Pos.eqb Z.leb Z.compare Pos.compare
    Pos.compare_cont andb ok_or]. unfold split_epoch.
  assert (Hl : length (pp_epoch (published_of (ps_engine_state ps))) = 8%nat) by apply length_le_bytes.
  rewrite zlen_app. pose proof (zlen_nonneg body). unfold zlen at 1. rewrite Hl.
  change PIR_EPOCH_BYTES with 8. guards. cbn [ok_or].
  rewrite take_app_length', drop_app_length' by (by rewrite Hl).
  eexists. split; [reflexivity|]. intros ->. exists rest. exact E3.
Qed.

(** With the server's parameters, or after one refresh, the client has the row. *)
Lemma round_trip_serving ps pre bs anchor n broadcast published p rng rng' :
  rebuilt_facts pre bs anchor ps n ->
  zlen pre <= p < (zlen pre / SHARD_LEAVES + n) * 65536 ->
  published = published_of (ps_engine_state ps) \/
    pp_epoch published <> pp_epoch (published_of (ps_engine_state ps)) ->
  let row := (p / 65536 - zlen pre / SHARD_LEAVES) * 256 + p / 256 mod 256 in
  exists rest, ipir_round_trip (client_of broadcast published) row rng rng' (serving ps) =
    (Ok (concat (nodes (leaf_at (pre ++ window_leaves bs)) 0 (p / 256 * 256) 256) ++ rest),
     client_of broadcast (published_of (ps_engine_state ps)), serving ps).
Proof.
  intros Hf Hp Hpub. cbv zeta. unfold ipir_round_trip.
  destruct (attempt_serving ps pre bs anchor n broadcast published p rng Hf Hp) as (d & -> & Hd).
  destruct Hpub as [->|Hne].
  - rewrite bool_decide_true by done. destruct (Hd eq_refl) as (rest & ->). by exists rest.
  - rewrite bool_decide_false by done. unfold refresh_public_params. cbn [client_of wc_rlwe wc_ypir].
    rewrite (fetch_serving _ _ _ _ _ Hf).
    destruct (attempt_serving ps pre bs anchor n broadcast (published_of (ps_engine_state ps)) p rng' Hf Hp)
      as (d' & E & Hd'). destruct (Hd' eq_refl) as (rest & ->). exists rest.
    cbn [client_of wc_broadcast wc_rlwe wc_ypir wc_offline_query_polys].
    fold (client_of broadcast (published_of (ps_engine_state ps))). rewrite E.
    by rewrite bool_decide_true by done.
Qed.

(** A row of the server's tree [bs'] with the broadcast of a tree [bs] of the same
    window: the lowest eight siblings are of one, the rest of the other. *)
Lemma get_witness_tiers pre bs anchor ps n bs' anchor' ps' n' published p rng rng' :
  rebuilt_facts pre bs anchor ps n -> rebuilt_facts pre bs' anchor' ps' n' ->
  zlen pre <= p < (zlen pre / SHARD_LEAVES + Z.min n n') * 65536 ->
  published = published_of (ps_engine_state ps') \/
    pp_epoch published <> pp_epoch (published_of (ps_engine_state ps')) ->
  let path := auth_path (leaf_at (pre ++ window_leaves bs')) 0 8 p ++
              auth_path (leaf_at (pre ++ window_leaves bs)) 8 24 (p / 256) in
  exists root,
    get_witness (client_of (ps_broadcast ps) published) p rng rng' (serving ps') =
      (Some (Ok {| pw_position := p; pw_siblings := path; pw_anchor_height := anchor;
                   pw_anchor_root := root |}),
       client_of (ps_broadcast ps) (published_of (ps_engine_state ps')), serving ps') /\
    path_root 0 p (mho_to_bytes (leaf_at (pre ++ window_leaves bs') p)) path = Some root.
Proof.
  intros Hf Hf' Hp Hpub path.
  pose proof (rf_count _ _ _ _ _ Hf) as (Hn & H0' & Hn'). pose proof (rf_count _ _ _ _ _ Hf') as (Hm & _ & Hm').
  pose proof (rf_pre _ _ _ _ _ Hf) as Hpre. pose proof (rf_covers _ _ _ _ _ Hf) as Hcov.
  pose proof (zlen_nonneg pre). set (w := zlen pre / SHARD_LEAVES) in *.
  assert (Hp32 : 0 <= p < 2 ^ TREE_DEPTH) by (change (2 ^ TREE_DEPTH) with 4294967296; lia).
  assert (Hsh : w <= p / 65536 < w + Z.min n n')
    by (split; [apply Z.div_le_lower_bound|apply Z.div_lt_upper_bound]; lia).
  unfold get_witness. rewrite decompose_exact by done. cbn [client_of wc_broadcast].
  assert (bc_window_start_shard (ps_broadcast ps) = w) as Hstart by (by rewrite (rf_broadcast _ _ _ _ _ Hf)).
  assert (bc_window_shard_count (ps_broadcast ps) = n) as -> by (by rewrite (rf_broadcast _ _ _ _ _ Hf)).
  rewrite Hstart. assert (wrap32 (w + n) = w + n) as -> by (apply Z.mod_small; change (2 ^ 32) with 4294967296; lia).
  destruct ((p / 65536 <? w) || (w + n <=? p / 65536)) eqn:E; [bool_prop; lia|]. clear E.
  unfold physical_row_index.
  assert (Hoff : wrap32 (p / 65536 - w) = p / 65536 - w)
    by (apply Z.mod_small; change (2 ^ 32) with 4294967296; lia).
  rewrite Hoff. change SUBSHARDS_PER_SHARD with 256.
  destruct (round_trip_serving ps' pre bs' anchor' n' (ps_broadcast ps) published p rng rng' Hf') as (rest & E);
    [fold w; lia|done|]. cbv zeta in E. fold w in E. rewrite E.
  cbn [client_of wc_broadcast].
  destruct (auth_path_tiers (leaf_at (pre ++ window_leaves bs)) p) as [_ Hpath]; [lia|].
  unfold path. rewrite Hpath.
  destruct (path_root_total 0 p (leaf_at (pre ++ window_leaves bs') p)
    (auth_path (leaf_at (pre ++ window_leaves bs')) 0 8 p ++
     auth_path (leaf_at (pre ++ window_leaves bs)) 8 8 (p / 256) ++
     auth_path (leaf_at (pre ++ window_leaves bs)) 16 16 (p / 65536))) as (root & Hroot);
    [rewrite !Forall_app; split_and!; apply auth_path_bytes|].
  exists (mho_to_bytes root). split; [|exact Hroot]. do 2 f_equal.
  erewrite reconstruct_tiers; [rewrite Hroot; cbn [mbind option_bind]|done|apply parse_leaves_nodes| | |].
  - by rewrite (rf_broadcast _ _ _ _ _ Hf).
  - rewrite Hstart, (rf_broadcast _ _ _ _ _ Hf). cbn [bc_subshard_roots]. fold w. rewrite Hoff, list_lookup_fmap, lookup_seqZ_lt by lia. reflexivity.
  - cbn [ssr_roots]. rewrite Z.add_0_l, Z2Nat.id by lia. f_equal. change SUBSHARDS_PER_SHARD with 256. lia.
  - apply (padded_cap_nodes _ (w + n)); [lia|intros j Hj; apply leaf_at_beyond; lia|
      by rewrite (rf_broadcast _ _ _ _ _ Hf)].
Qed.

Lemma in_window_shards pre bs anchor ps n p :
  rebuilt_facts pre bs anchor ps n -> in_window pre bs p ->
  zlen pre <= p < (zlen pre / SHARD_LEAVES + n) * 65536.
Proof. intros Hf [Hl Hu]. pose proof (rf_covers _ _ _ _ _ Hf). lia. Qed.


(** The client does not compare trees.  When the server has moved from one tree
    to another between the client's connection and its query, and its public
    parameters changed with it, the client refreshes the parameters, keeps the old
    broadcast, and returns without an error a path whose lowest eight siblings are
    of the new tree and whose other 24 are of the old one. *)
Theorem stale_broadcast_mixes_trees pre bs anchor ps bs' anchor' ps' c p rng rng' :
  rebuilt pre bs anchor ps -> rebuilt pre bs' anchor' ps' ->
  public_params_epoch (pe_public_params (ps_engine_state ps)) <>
    public_params_epoch (pe_public_params (ps_engine_state ps')) ->
  WitnessClient_connect (serving ps) = (Ok c, serving ps) ->
  in_window pre bs p -> in_window pre bs' p ->
  exists w c', get_witness c p rng rng' (serving ps') = (Some (Ok w), c', serving ps') /\
    pw_anchor_height w = anchor /\
    pw_siblings w = auth_path (leaf_at (pre ++ window_leaves bs')) 0 8 p ++
                    auth_path (leaf_at (pre ++ window_leaves bs)) 8 24 (p / 256).
Proof.
  intros Hb Hb' Hne Hc Hp Hp'. destruct (rebuilt_exact _ _ _ _ Hb) as (n & Hf).
  destruct (rebuilt_exact _ _ _ _ Hb') as (n' & Hf').
  rewrite (connect_serving _ _ _ _ _ Hf) in Hc. injection Hc as <-.
  pose proof (in_window_shards _ _ _ _ _ _ Hf Hp). pose proof (in_window_shards _ _ _ _ _ _ Hf' Hp').
  destruct (get_witness_tiers pre bs anchor ps n bs' anchor' ps' n' (published_of (ps_engine_state ps))
    p rng rng' Hf Hf') as (root & E & _); [lia|by right|].
  do 2 eexists. split; [exact E|done].
Qed.

End end_to_end.

(** ** Examples *)

#[local] Existing Instance parity_hash.
#[local] Existing Instance parity_laws.

(** A transparent engine: the query is the row number, the answer the row, and the
    public parameter a byte of the database. *)
Definition plain_ypir : YpirSchemeParams :=
  {| ypir_p := 2; q_prime_1 := 2; db_rows := 8192; db_cols := 1; query_bits := 1 |}.

Definition plain_ipir : Ipir := {|
  ipir_seed := unit; ipir_rng := unit;
  params_for_simplepir _ _ := Ok ({| rlwe_d := 1; rlwe_q := 257 |}, plain_ypir);
  published_c1_len _ _ := 1;
  response_body_len _ _ := 1;
  recover_published_c1 bytes _ _ _ := [bytes];
  generate_setup _ _ := [];
  fresh_query _ _ row _ := ([row], [], tt);
  serialize_packing_keys _ := Ok [];
  to_switched_bytes query _ _ := query;
  decode_response _ _ body := body |}.

Definition plain_params (st : list Z * Z) : list Z := [default 0 (head (slice (fst st) 0 SUBSHARD_ROW_BYTES))].

Definition plain_engine : PirEngine := {|
  pe_state := list Z * Z;
  pe_setup db sc := Ok (db, sc_item_size_bits sc / 8);
  pe_answer_query st query :=
    match query with
    | [row] => Ok (public_params_epoch (plain_params st) ++
                   slice (fst st) (row * snd st) (row * snd st + snd st))
    | _ => Err "query"%string
    end;
  pe_public_params := plain_params |}.

Lemma plain_retrieval sc : @EngineRetrieval plain_ipir plain_engine sc.
Proof.
  intros rlwe ypir db st rb [= <- <-] Hbits _ Hdb [= <-]. split; [done|].
  intros row rng query keys seed Hrow [= <- <- <-]. do 2 eexists. split; [done|].
  cbn [pe_answer_query plain_engine to_switched_bytes plain_ipir app]. split; [reflexivity|].
  cbn [fst snd]. rewrite Hbits, Z.div_mul by done.
  assert (0 <= rb) by (pose proof (zlen_nonneg db); nia).
  set (body := slice db (row * rb) (row * rb + rb)).
  assert (Hl : zlen body = rb).
  { unfold body, slice, zlen in *. rewrite length_take, length_drop. nia. }
  cbn [decode_response plain_ipir]. unfold get_range. rewrite Hl. guards. cbn [andb]. f_equal.
  rewrite Z.sub_0_r, drop_0. apply take_ge. unfold zlen in Hl. lia.
Qed.

(** Two trees of the same window whose first leaves differ. *)
Definition old_block : @TreeBlock parity_hash :=
  {| tb_height := 10; tb_hash := replicate 32 1; tb_commitments := [true; false] |}.
Definition new_block : @TreeBlock parity_hash :=
  {| tb_height := 10; tb_hash := replicate 32 2; tb_commitments := [false; true; true] |}.

Lemma plain_rebuilt (b : @TreeBlock parity_hash) anchor :
  0 < zlen (tb_commitments b) <= 256 ->
  exists t t' ps, tree_repr [] [b] t /\ zlen (ct_leaves t) <= L0_MAX_SHARDS * SHARD_LEAVES /\
    @rebuild_pir parity_hash plain_engine t (as_scenario (@AppState_new plain_engine)) anchor =
      Some (Ok ps, t') /\
    plain_params (ps_engine_state ps) = [Z.b2z (@leaf_at parity_hash (tb_commitments b) 0)].
Proof.
  intros Hlen. destruct (run_ops_repr [] [] _ [AppendBlock b] (new_repr [] eq_refl eq_refl)) as (t & _ & Hr).
  { cbn [stays_below spec_op app window_leaves fmap list_fmap concat].
    rewrite app_nil_r. change (2 ^ TREE_DEPTH) with 4294967296. repeat split; (done || lia). }
  cbn [foldl spec_op app] in Hr. assert (Hwl : window_leaves [b] = tb_commitments b) by apply app_nil_r.
  destruct (build_exact [] [b] t Hr anchor) as (t' & _ & E).
  pose proof (window_row [] [b] t 0 Hr) as Hrow. cbv zeta in Hrow.
  assert (Hz : zlen (ct_leaves t) <= L0_MAX_SHARDS * SHARD_LEAVES).
  { rewrite (tr_leaves _ _ _ Hr), Hwl. change (L0_MAX_SHARDS * SHARD_LEAVES) with 2097152. unfold zlen in *.
    rewrite length_fmap. lia. }
  pose proof (window_covers _ _ _ Hr Hz) as Hc. rewrite Hwl in *. rewrite app_nil_l in Hc.
  change (zlen (@nil (@mho parity_hash)) / SHARD_LEAVES) with 0 in *. change SHARD_LEAVES with 65536 in Hc.
  exists t, t'. unfold rebuild_pir. rewrite E. clear E. revert Hrow. generalize (resize (Z.to_nat L0_DB_BYTES) 0
    (concat (nodes (leaf_at ([] ++ tb_commitments b)) 0 (zlen (@nil (@mho parity_hash)))
      (window_shard_count t * SHARD_LEAVES)))).
  intros db Hrow. eexists. split_and!; [done|done|reflexivity|].
  cbn [ps_engine_state]. unfold plain_params. cbn [fst].
  change (slice db 0 SUBSHARD_ROW_BYTES) with
    (slice db (((0 / 65536 - 0) * SUBSHARDS_PER_SHARD + 0 / 256 mod 256) * SUBSHARD_ROW_BYTES)
      (((0 / 65536 - 0) * SUBSHARDS_PER_SHARD + 0 / 256 mod 256) * SUBSHARD_ROW_BYTES + SUBSHARD_ROW_BYTES)).
  rewrite Hrow by lia. rewrite app_nil_l, (nodes_cons _ _ _ 256) by done. cbn [node concat].
  change (0 / 256 * 256) with 0. by destruct (leaf_at (tb_commitments b) 0).
Qed.


Lemma stale_broadcast_mixes_trees_witness :
  exists ps ps' c w c',
    @WitnessClient_connect plain_ipir _ (@direct_net plain_engine) (serving ps) = (Ok c, serving ps) /\
    @get_witness parity_hash plain_ipir _ (@direct_net plain_engine) c 1 tt tt (serving ps') =
      (Some (Ok w), c', serving ps') /\
    pw_siblings w = auth_path (@leaf_at parity_hash [false; true; true]) 0 8 1 ++
                    auth_path (@leaf_at parity_hash [true; false]) 8 24 0.
Proof.
  destruct (plain_rebuilt old_block 10)
    as (t & t' & ps & Hr & Hz & Hb & Hp); [done|].
  destruct (plain_rebuilt new_block 11)
    as (t1 & t1' & ps' & Hr' & Hz' & Hb' & Hp'); [done|].
  pose proof (@connect_serving parity_hash plain_ipir plain_engine
    {| rlwe_d := 1; rlwe_q := 257 |} plain_ypir eq_refl ps [] [old_block] 10) as Hc.
  assert (Hb1 : @rebuilt parity_hash plain_engine [] [old_block]
    10 ps) by (exists t, t'; done).
  assert (Hb2 : @rebuilt parity_hash plain_engine [] [new_block] 11 ps') by (exists t1, t1'; done).
  destruct (@rebuilt_exact parity_hash parity_laws plain_ipir plain_engine (plain_retrieval _)
    {| rlwe_d := 1; rlwe_q := 257 |} plain_ypir eq_refl _ _ _ _ Hb1) as (n & Hf).
  specialize (Hc n Hf).
  assert (Hne : public_params_epoch (@pe_public_params plain_engine (ps_engine_state ps)) <>
    public_params_epoch (@pe_public_params plain_engine (ps_engine_state ps'))).
  { cbn [pe_public_params plain_engine]. rewrite Hp, Hp'. vm_compute. discriminate. }
  destruct (@stale_broadcast_mixes_trees parity_hash parity_laws plain_ipir plain_engine (plain_retrieval _)
    {| rlwe_d := 1; rlwe_q := 257 |} plain_ypir eq_refl [] _ 10 ps _ 11 ps' _ 1 tt tt Hb1 Hb2 Hne Hc)
    as (w & c' & E & _ & Hs); [done|done|].
  exists ps, ps'. eexists. exists w, c'. split; [exact Hc|]. split; [exact E|exact Hs].
Defined.
