(* ===== verification/ChainFollow.v ===== *)
(** * Following lightwalletd in the legacy demonstrations

    Models [demos/legacy-spendability/shared/chain-ingest/src/chain_tracker.rs], the
    compact-block parsers [witness/commitment-ingest/src/parser.rs] and
    [nullifier/nf-ingest/src/parser.rs], and the [sync] and [follow] loops of the two
    [ingest.rs].  A compact block is the record of what the code reads of it;
    lightwalletd is the class [Lwd] with a threaded state, so its best chain may
    change between any two calls.  What a loop sends on its channel is a list of
    events; [follow] is one iteration of its loop.  The lemmas: the tracker's
    window is a linked chain as long as blocks arrive in order, and both [sync]
    functions report every block of the range once and in order. *)

From Stdlib Require Import ZArith Lia.
From stdpp Require Import base numbers list strings.
From S2P Require Import Prelude CommitmentTree.

Open Scope Z_scope.

(** ** The chain tracker *)

Inductive ChainAction :=
| Extend
| Reorg (rollback_to : Z).

(** [chain] from front to back. *)
Record ChainTracker := { tk_chain : list (Z * Hash); tk_max_depth : Z }.

Definition ChainTracker_new (max_depth : Z) : ChainTracker := {| tk_chain := []; tk_max_depth := max_depth |}.
Definition ChainTracker_with_tip (height : Z) (hash : Hash) (max_depth : Z) : ChainTracker :=
  {| tk_chain := [(height, hash)]; tk_max_depth := max_depth |}.
Definition ChainTracker_tip (t : ChainTracker) : option (Z * Hash) := last (tk_chain t).

(** The loop of [truncate_to], over the chain from its back. *)
Fixpoint pop_back_above (fork_height : Z) (chain : list (Z * Hash)) : list (Z * Hash) :=
  match chain with
  | (h, _) :: rest => if fork_height <? h then pop_back_above fork_height rest else chain
  | [] => []
  end.

Definition truncate_to (t : ChainTracker) (fork_height : Z) : ChainTracker :=
  {| tk_chain := reverse (pop_back_above fork_height (reverse (tk_chain t)));
     tk_max_depth := tk_max_depth t |}.

(** The search of [find_fork_point], over the chain from its back. *)
Fixpoint search_hash (target_hash : Hash) (chain : list (Z * Hash)) : option Z :=
  match chain with
  | (height, hash) :: rest => if bool_decide (hash = target_hash) then Some height else search_hash target_hash rest
  | [] => None
  end.

Definition find_fork_point (t : ChainTracker) (target_hash : Hash) : Z :=
  match search_hash target_hash (reverse (tk_chain t)) with
  | Some height => height
  | None => match head (tk_chain t) with Some (h, _) => saturating_sub h 1 | None => 0 end
  end.

Definition push_block (t : ChainTracker) (height : Z) (hash prev_hash : Hash) : ChainAction * ChainTracker :=
  match last (tk_chain t) with
  | Some (tip_height, tip_hash) =>
      if bool_decide (prev_hash = tip_hash) && (height =? wrap64 (tip_height + 1)) then
        let chain := tk_chain t ++ [(height, hash)] in
        let chain := if tk_max_depth t <? zlen chain then tail chain else chain in
        (Extend, {| tk_chain := chain; tk_max_depth := tk_max_depth t |})
      else
        let fork_height := find_fork_point t prev_hash in
        let t := truncate_to t fork_height in
        (Reorg fork_height,
         {| tk_chain := tk_chain t ++ [(height, hash)]; tk_max_depth := tk_max_depth t |})
  | None => (Extend, {| tk_chain := tk_chain t ++ [(height, hash)]; tk_max_depth := tk_max_depth t |})
  end.

(** ** Compact blocks *)

Record CompactAction := {
  ca_nullifier : list Z; ca_cmx : list Z; ca_ephemeral_key : list Z; ca_ciphertext : list Z }.
Record CompactTx := { ctx_ironwood_actions : list CompactAction }.

(** [kb_tree_size]: the Ironwood tree size of the chain metadata, when there is any. *)
Record CompactBlock := {
  kb_height : Z; kb_hash : list Z; kb_prev_hash : list Z;
  kb_vtx : list CompactTx; kb_tree_size : option Z }.

(** Copying up to [n] bytes into a zeroed array. *)
Definition into_array (n : nat) (bytes : list Z) : list Z := resize n 0 bytes.
Definition to_hash_array (bytes : list Z) : Hash := into_array 32 bytes.

Definition extract_commitments (block : CompactBlock) : list Hash :=
  concat ((fun tx =>
    concat ((fun action => if zlen (ca_cmx action) =? 32 then [ca_cmx action] else []) <$>
      ctx_ironwood_actions tx)) <$> kb_vtx block).

Definition ironwood_tree_size (block : CompactBlock) : option Z :=
  match kb_tree_size block with
  | Some size => if 0 <? size then Some size else None
  | None => None
  end.

Record BlockCommitments := {
  bk_height : Z; bk_hash : Hash; bk_prev_hash : Hash; bk_commitments : list Hash;
  bk_prior_tree_size : option Z }.

Definition extract_block_commitments (block : CompactBlock) (prev_tree_size : option Z) : BlockCommitments :=
  {| bk_height := kb_height block; bk_hash := into_array 32 (kb_hash block);
     bk_prev_hash := into_array 32 (kb_prev_hash block);
     bk_commitments := extract_commitments block; bk_prior_tree_size := prev_tree_size |}.

Record DecryptionLeaf := { dl_nf : list Z; dl_ephemeral_key : list Z; dl_ciphertext : list Z }.

Definition decryption_leaf_from_action (action : CompactAction) : DecryptionLeaf :=
  {| dl_nf := into_array 32 (ca_nullifier action);
     dl_ephemeral_key := into_array 32 (ca_ephemeral_key action);
     dl_ciphertext := into_array 52 (ca_ciphertext action) |}.

Definition extract_decryption_leaves (block : CompactBlock) : list DecryptionLeaf :=
  concat ((fun tx =>
    concat ((fun action => if zlen (ca_cmx action) =? 32 then [decryption_leaf_from_action action] else []) <$>
      ctx_ironwood_actions tx)) <$> kb_vtx block).

(** The single pass: one step per action, both vectors. *)
Definition commitments_and_decryption_step (acc : list Hash * list DecryptionLeaf) (action : CompactAction) :
    list Hash * list DecryptionLeaf :=
  if zlen (ca_cmx action) =? 32
  then (fst acc ++ [ca_cmx action], snd acc ++ [decryption_leaf_from_action action]) else acc.

Definition extract_commitments_and_decryption (block : CompactBlock) : list Hash * list DecryptionLeaf :=
  foldl (fun acc tx => foldl commitments_and_decryption_step acc (ctx_ironwood_actions tx)) ([], [])
    (kb_vtx block).

Record NullifierWithMeta := { nm_nullifier : Hash; nm_first_output_position : Z; nm_action_count : Z }.

Definition extract_nullifiers (block : CompactBlock) : list Hash :=
  concat ((fun tx =>
    concat ((fun action => if zlen (ca_nullifier action) =? 32 then [ca_nullifier action] else []) <$>
      ctx_ironwood_actions tx)) <$> kb_vtx block).

(** The nullifiers of one transaction, which starts at [running_position]. *)
Definition transaction_nullifiers (running_position : option Z) (tx : CompactTx) : list NullifierWithMeta :=
  let action_count := zlen (ctx_ironwood_actions tx) mod 256 in
  let first_output_position := default 0 running_position in
  concat ((fun action =>
    if zlen (ca_nullifier action) =? 32
    then [{| nm_nullifier := ca_nullifier action; nm_first_output_position := first_output_position;
             nm_action_count := action_count |}] else []) <$> ctx_ironwood_actions tx).

Fixpoint block_nullifiers (running_position : option Z) (vtx : list CompactTx) : list NullifierWithMeta :=
  match vtx with
  | [] => []
  | tx :: vtx =>
      transaction_nullifiers running_position tx ++
      block_nullifiers ((fun pos => wrap32 (pos + wrap32 (zlen (ctx_ironwood_actions tx)))) <$> running_position) vtx
  end.

Definition extract_nullifiers_with_meta (block : CompactBlock) (prior_tree_size : option Z) :
    list NullifierWithMeta * option Z :=
  let this_tree_size := ironwood_tree_size block in
  let total_actions :=
    foldl (fun sum tx => wrap32 (sum + wrap32 (zlen (ctx_ironwood_actions tx)))) 0 (kb_vtx block) in
  let tree_size_before_block :=
    match (ts ← this_tree_size; checked_sub64 ts total_actions) with
    | Some size => Some size
    | None => prior_tree_size
    end in
  (block_nullifiers tree_size_before_block (kb_vtx block), this_tree_size).

(** ** The node and the loops *)

Record SubtreeRoot := { sr_root_hash : list Z; sr_completing_block_height : Z }.

Class Lwd (M : Type) := {
  lw_latest_block : M -> result string Z * M;
  lw_block_range : Z -> Z -> M -> result string (list CompactBlock) * M;
  lw_subtree_roots : M -> result string (list SubtreeRoot) * M }.

Definition CONFIRMATION_DEPTH : Z := 10.
Definition SYNC_BATCH_SIZE : Z := 10000.

(** The batch loop of the two [sync] functions, with what a batch of blocks sends;
    each batch moves [current] on, so the number of heights is fuel enough. *)
Section batches.
Context {M E : Type} `{Lwd M} (send : option Z -> list CompactBlock -> list E * option Z).

Fixpoint sync_with (fuel : nat) (current to : Z) (prev_tree_size : option Z) (n : M) :
    list E * result string unit * M :=
  match fuel with
  | O => ([], Ok tt, n)
  | S fuel =>
      if to <? current then ([], Ok tt, n) else
      let batch_end := Z.min (wrap64 (current + SYNC_BATCH_SIZE - 1)) to in
      match lw_block_range current batch_end n with
      | (Err e, n) => ([], Err e, n)
      | (Ok blocks, n) =>
          let '(events, prev_tree_size) := send prev_tree_size blocks in
          let '(rest, r, n) := sync_with fuel (wrap64 (batch_end + 1)) to prev_tree_size n in
          (events ++ rest, r, n)
      end
  end.

End batches.

(** [WitnessChainEvent]; [W_NewBlock] without the previous hash, which no consumer reads. *)
Inductive WitnessChainEvent :=
| W_NewBlock (height : Z) (hash : Hash) (commitments : list Hash) (prior_tree_size : option Z)
| W_Reorg (rollback_to : Z).

Section loops.
Context {M : Type} `{Lwd M}.

(** The inner loop of [sync]: the events of a batch and the last tree size. *)
Fixpoint sync_blocks (prev_tree_size : option Z) (blocks : list CompactBlock) :
    list WitnessChainEvent * option Z :=
  match blocks with
  | [] => ([], prev_tree_size)
  | block :: blocks =>
      let event := W_NewBlock (kb_height block) (to_hash_array (kb_hash block))
        (extract_commitments block) prev_tree_size in
      let '(events, last) := sync_blocks (ironwood_tree_size block) blocks in
      (event :: events, last)
  end.

Definition sync := sync_with sync_blocks.

(** What [follow] keeps between polls. *)
Record FollowState := { fo_tracker : ChainTracker; fo_current_height : Z; fo_prev_tree_size : option Z }.

Definition follow_start (start_height : Z) (start_hash : Hash) (initial_tree_size : option Z) : FollowState :=
  {| fo_tracker := ChainTracker_with_tip start_height start_hash (CONFIRMATION_DEPTH * 2);
     fo_current_height := start_height; fo_prev_tree_size := initial_tree_size |}.

(** One block of [follow] of the witness ingest. *)
Definition follow_block (s : FollowState) (block : CompactBlock) : list WitnessChainEvent * FollowState :=
  let height := kb_height block in
  let hash := to_hash_array (kb_hash block) in
  let prev_hash := to_hash_array (kb_prev_hash block) in
  let commitments := extract_commitments block in
  let '(action, tracker) := push_block (fo_tracker s) height hash prev_hash in
  let events :=
    match action with
    | Extend => [W_NewBlock height hash commitments (fo_prev_tree_size s)]
    | Reorg rollback_to => [W_Reorg rollback_to; W_NewBlock height hash commitments None]
    end in
  (events, {| fo_tracker := tracker; fo_current_height := height;
              fo_prev_tree_size := ironwood_tree_size block |}).

Fixpoint follow_blocks (s : FollowState) (blocks : list CompactBlock) : list WitnessChainEvent * FollowState :=
  match blocks with
  | [] => ([], s)
  | block :: blocks =>
      let '(events, s) := follow_block s block in
      let '(rest, s) := follow_blocks s blocks in
      (events ++ rest, s)
  end.

(** One iteration of the loop of [follow]. *)
Definition follow_pass (s : FollowState) (n : M) :
    result string (list WitnessChainEvent) * FollowState * M :=
  match lw_latest_block n with
  | (Err e, n) => (Err e, s, n)
  | (Ok tip_height, n) =>
      if tip_height <=? fo_current_height s then (Ok [], s, n) else
      match lw_block_range (wrap64 (fo_current_height s + 1)) tip_height n with
      | (Err e, n) => (Err e, s, n)
      | (Ok blocks, n) => let '(events, s) := follow_blocks s blocks in (Ok events, s, n)
      end
  end.

End loops.

(** [ChainEvent] of the nullifier ingest, without the previous hashes. *)
Record OrphanedBlock := { ob_height : Z; ob_hash : Hash }.
Record NewBlock := { nb_height : Z; nb_hash : Hash; nb_nullifiers : list NullifierWithMeta }.
Inductive ChainEvent :=
| N_NewBlock (b : NewBlock)
| N_Reorg (orphaned : list OrphanedBlock) (new_blocks : list NewBlock).

Section nf_loops.
Context {M : Type} `{Lwd M}.

Fixpoint nf_sync_blocks (prev_tree_size : option Z) (blocks : list CompactBlock) :
    list ChainEvent * option Z :=
  match blocks with
  | [] => ([], prev_tree_size)
  | block :: blocks =>
      let '(nullifiers, this_tree_size) := extract_nullifiers_with_meta block prev_tree_size in
      let event := N_NewBlock {| nb_height := kb_height block; nb_hash := to_hash_array (kb_hash block);
        nb_nullifiers := nullifiers |} in
      let '(events, last) := nf_sync_blocks this_tree_size blocks in
      (event :: events, last)
  end.

Definition nf_sync := sync_with nf_sync_blocks.

(** One block of [follow] of the nullifier ingest: an orphaned block is reported
    with its height and a zero hash. *)
Definition nf_follow_block (s : FollowState) (block : CompactBlock) : list ChainEvent * FollowState :=
  let height := kb_height block in
  let hash := to_hash_array (kb_hash block) in
  let prev_hash := to_hash_array (kb_prev_hash block) in
  let '(nullifiers, this_tree_size) := extract_nullifiers_with_meta block (fo_prev_tree_size s) in
  let '(action, tracker) := push_block (fo_tracker s) height hash prev_hash in
  let new_block := {| nb_height := height; nb_hash := hash; nb_nullifiers := nullifiers |} in
  match action with
  | Extend =>
      ([N_NewBlock new_block],
       {| fo_tracker := tracker; fo_current_height := height; fo_prev_tree_size := this_tree_size |})
  | Reorg rollback_to =>
      let orphaned := (fun h => {| ob_height := h; ob_hash := replicate 32 0 |}) <$>
        reverse (seqZ (wrap64 (rollback_to + 1)) (fo_current_height s - wrap64 (rollback_to + 1) + 1)) in
      ([N_Reorg orphaned [new_block]],
       {| fo_tracker := tracker; fo_current_height := height; fo_prev_tree_size := ironwood_tree_size block |})
  end.

Fixpoint nf_follow_blocks (s : FollowState) (blocks : list CompactBlock) : list ChainEvent * FollowState :=
  match blocks with
  | [] => ([], s)
  | block :: blocks =>
      let '(events, s) := nf_follow_block s block in
      let '(rest, s) := nf_follow_blocks s blocks in
      (events ++ rest, s)
  end.

Definition nf_follow_pass (s : FollowState) (n : M) :
    result string (list ChainEvent) * FollowState * M :=
  match lw_latest_block n with
  | (Err e, n) => (Err e, s, n)
  | (Ok tip_height, n) =>
      if tip_height <=? fo_current_height s then (Ok [], s, n) else
      match lw_block_range (wrap64 (fo_current_height s + 1)) tip_height n with
      | (Err e, n) => (Err e, s, n)
      | (Ok blocks, n) => let '(events, s) := nf_follow_blocks s blocks in (Ok events, s, n)
      end
  end.

End nf_loops.

(** ** The tracker *)

(** Heights increase by one along the chain. *)
Definition consecutive (chain : list (Z * Hash)) : Prop :=
  forall i h x h' x', chain !! i = Some (h, x) -> chain !! S i = Some (h', x') -> h' = h + 1.

Lemma consecutive_height chain i j h x h' x' :
  consecutive chain -> (i <= j)%nat -> chain !! i = Some (h, x) -> chain !! j = Some (h', x') ->
  h' = h + Z.of_nat (j - i).
Proof.
  intros Hc Hij Hi. revert h' x'. induction Hij as [|j Hij IH]; intros h' x' Hj.
  - replace (i - i)%nat with 0%nat by lia. rewrite Hi in Hj. injection Hj as -> ->. lia.
  - destruct (chain !! j) as [[h1 x1]|] eqn:E.
    + rewrite (Hc _ _ _ _ _ E Hj), (IH _ _ eq_refl). lia.
    + apply lookup_ge_None in E. apply lookup_lt_Some in Hj. lia.
Qed.

Lemma pop_back_above_split f l :
  exists removed, l = removed ++ pop_back_above f l /\ Forall (fun e => f < fst e) removed.
Proof.
  induction l as [|[h x] l (removed & IH & Hf)]; cbn [pop_back_above]; [by exists []|].
  destruct (f <? h) eqn:E; bool_prop; [|by exists []].
  exists ((h, x) :: removed). split; [by rewrite <- app_comm_cons, <- IH|by constructor].
Qed.

(** Truncating a consecutive chain at one of its heights keeps the entries up to it. *)
Lemma truncate_at chain i f x :
  consecutive chain -> chain !! i = Some (f, x) ->
  reverse (pop_back_above f (reverse chain)) = take (S i) chain.
Proof.
  intros Hc Hi. rewrite <- (take_drop (S i) chain) at 1. rewrite reverse_app.
  assert (Hpop : forall l k, Forall (fun e : Z * Hash => f < fst e) l ->
    pop_back_above f (l ++ k) = pop_back_above f k).
  { intros l k Hl. induction Hl as [|[h y] l Hh _ IH]; cbn [app pop_back_above]; [done|].
    cbn [fst] in Hh. by guards. }
  rewrite Hpop.
  - rewrite (take_S_r _ _ _ Hi), reverse_app. cbn [reverse]. cbn [app rev_append pop_back_above].
    change (reverse [(f, x)]) with [(f, x)]. cbn [app pop_back_above].
    rewrite (proj2 (Z.ltb_ge f f)) by lia.
    by rewrite reverse_cons, reverse_involutive.
  - apply Forall_reverse, Forall_lookup. intros j [h y] Hj. rewrite lookup_drop in Hj. cbn [fst].
    pose proof (consecutive_height chain i (S i + j) f x h y Hc ltac:(lia) Hi Hj). lia.
Qed.

Lemma search_hash_found l h x :
  (exists i, l !! i = Some (h, x)) ->
  (forall i j h1 h2 y, l !! i = Some (h1, y) -> l !! j = Some (h2, y) -> i = j) ->
  search_hash x l = Some h.
Proof.
  intros [i Hi] Hinj. revert i Hi Hinj. induction l as [|[h0 x0] l IH]; intros i Hi Hinj; [done|].
  cbn [search_hash]. case_bool_decide as E; subst.
  - pose proof (Hinj 0%nat i h0 h x eq_refl Hi) as <-. cbn in Hi. congruence.
  - destruct i as [|i]; [cbn in Hi; congruence|]. apply (IH i Hi).
    intros a b h1 h2 y Ha Hb. specialize (Hinj (S a) (S b) h1 h2 y Ha Hb). lia.
Qed.

Lemma consecutive_take chain n : consecutive chain -> consecutive (take n chain).
Proof.
  intros Hc i h x h' x' Hi Hi'. apply lookup_take_Some in Hi as [Hi _].
  apply lookup_take_Some in Hi' as [Hi' _]. by eapply Hc.
Qed.

Lemma chain_consecutive_snoc chain h x h' :
  consecutive (chain ++ [(h, x)]) -> h' = h + 1 -> forall x', consecutive ((chain ++ [(h, x)]) ++ [(h', x')]).
Proof.
  intros Hc -> x' i a xa b xb Ha Hb.
  destruct (decide (S i < length (chain ++ [(h, x)]))%nat) as [Hi|Hi].
  - rewrite lookup_app_l in Ha by lia. rewrite lookup_app_l in Hb by lia. by eapply Hc.
  - pose proof (lookup_lt_Some _ _ _ Hb) as Hlt. rewrite length_app in Hlt. cbn [length] in Hlt.
    assert (S i = length (chain ++ [(h, x)])) as Hs by lia.
    rewrite lookup_app_r in Hb by lia. replace (S i - length (chain ++ [(h, x)]))%nat with 0%nat in Hb by lia.
    cbn in Hb. injection Hb as <- <-. rewrite lookup_app_l in Ha by lia.
    rewrite length_app in Hs. cbn [length] in Hs. rewrite lookup_app_r in Ha by lia.
    replace (i - length chain)%nat with 0%nat in Ha by lia. cbn in Ha. by injection Ha as <- <-.
Qed.

Lemma consecutive_drop chain k : consecutive chain -> consecutive (drop k chain).
Proof. intros Hc i h x h' x'. rewrite !lookup_drop, Nat.add_succ_r. by apply Hc. Qed.

Lemma consecutive_tail chain : consecutive chain -> consecutive (tail chain).
Proof. intros Hc i h x h' x'. destruct chain as [|e chain]; [done|]. apply (Hc (S i)). Qed.

(** The tracker follows parents.  When a block arrives whose parent is in the
    window, at height [f], the tracker says it extends the chain if the parent is
    the tip, and otherwise a reorganisation back to exactly [f]; either way the
    window then ends with the parent followed by the block, its heights stay
    consecutive, and what it held below the parent is kept, less the front entry
    when the window was full. *)
Lemma push_block_parent t i f prev height hash :
  consecutive (tk_chain t) ->
  (forall a b ha hb x, tk_chain t !! a = Some (ha, x) -> tk_chain t !! b = Some (hb, x) -> a = b) ->
  tk_chain t !! i = Some (f, prev) -> height = f + 1 -> 0 <= height < u64_bound ->
  let next := take (S i) (tk_chain t) ++ [(height, hash)] in
  exists action t', push_block t height hash prev = (action, t') /\
    action = (if bool_decide (S i = length (tk_chain t)) then Extend else Reorg f) /\
    consecutive (tk_chain t') /\ ChainTracker_tip t' = Some (height, hash) /\
    (tk_chain t' = next \/
     tk_chain t' = tail next /\ S i = length (tk_chain t) /\ tk_max_depth t < zlen next).
Proof.
  intros Hc Hinj Hi -> Hb next.
  assert (Hnext : consecutive next).
  { unfold next. rewrite (take_S_r _ _ _ Hi). apply chain_consecutive_snoc; [|done].
    rewrite <- (take_S_r _ _ _ Hi). by apply consecutive_take. }
  pose proof (lookup_lt_Some _ _ _ Hi) as Hlt. unfold push_block.
  destruct (last (tk_chain t)) as [[th tx]|] eqn:El; [|apply last_None in El; rewrite El in Hlt; cbn in Hlt; lia].
  rewrite last_lookup in El.
  destruct (decide (S i = length (tk_chain t))) as [Hlast|Hlast];
    [rewrite (bool_decide_true (S i = _)) by done|rewrite (bool_decide_false (S i = _)) by done].
  - replace (pred (length (tk_chain t))) with i in El by lia. rewrite Hi in El. injection El as <- <-.
    rewrite bool_decide_true, wrap64_small, Z.eqb_refl by (done || lia). cbn [andb].
    assert (Hnx : tk_chain t ++ [(f + 1, hash)] = next) by (unfold next; by rewrite take_ge by lia).
    rewrite Hnx. do 2 eexists. split; [reflexivity|]. unfold ChainTracker_tip. cbn [tk_chain].
    split; [done|]. destruct (tk_max_depth t <? zlen next) eqn:E; bool_prop.
    + split_and!; [by apply consecutive_tail| |right; split_and!; done].
      unfold next. rewrite (take_S_r _ _ _ Hi). destruct (take i (tk_chain t)) as [|e l]; cbn [app tail]; [done|].
      rewrite last_snoc. done.
    + split_and!; [done| |by left]. unfold next. by rewrite last_snoc.
  - assert (Hne : prev <> tx).
    { intros ->. pose proof (Hinj _ _ _ _ _ Hi El). lia. }
    rewrite bool_decide_false by done. cbn [andb].
    assert (Hf : find_fork_point t prev = f).
    { unfold find_fork_point. rewrite (search_hash_found _ f prev); [done| |].
      - exists (length (tk_chain t) - S i)%nat. apply reverse_lookup_Some. split; [|lia].
        by replace (length (tk_chain t) - S (length (tk_chain t) - S i))%nat with i by lia.
      - intros a b ha hb y Ha Hb'. apply reverse_lookup_Some in Ha as [Ha ?].
        apply reverse_lookup_Some in Hb' as [Hb' ?]. pose proof (Hinj _ _ _ _ _ Ha Hb'). lia. }
    rewrite Hf. do 2 eexists. split; [reflexivity|]. split; [done|]. cbn [tk_chain truncate_to].
    rewrite (truncate_at _ _ _ _ Hc Hi). fold next. split_and!; [done| |by left].
    unfold ChainTracker_tip. cbn [tk_chain]. unfold next. by rewrite last_snoc.
Qed.

(** ** Parsers *)

(** The single pass gives the two vectors of the separate functions, which
    correspond entry by entry. *)
Lemma extract_single_pass block :
  extract_commitments_and_decryption block = (extract_commitments block, extract_decryption_leaves block) /\
  length (extract_commitments block) = length (extract_decryption_leaves block).
Proof.
  unfold extract_commitments_and_decryption, extract_commitments, extract_decryption_leaves.
  set (keep := fun action => if zlen (ca_cmx action) =? 32 then [ca_cmx action] else []).
  set (leaf := fun action => if zlen (ca_cmx action) =? 32 then [decryption_leaf_from_action action] else []).
  assert (Hstep : forall acc a, commitments_and_decryption_step acc a = (fst acc ++ keep a, snd acc ++ leaf a) /\
    length (keep a) = length (leaf a)).
  { intros [c d] a. unfold commitments_and_decryption_step, keep, leaf.
    destruct (_ =? 32); cbn [fst snd]; by rewrite ?app_nil_r. }
  assert (Htx : forall actions acc, foldl commitments_and_decryption_step acc actions =
    (fst acc ++ concat (keep <$> actions), snd acc ++ concat (leaf <$> actions)) /\
    length (concat (keep <$> actions)) = length (concat (leaf <$> actions))).
  { induction actions as [|a actions IH]; intros acc; cbn [foldl].
    - cbn. rewrite !app_nil_r. by destruct acc.
    - destruct (Hstep acc a) as [-> Hl]. destruct (IH (fst acc ++ keep a, snd acc ++ leaf a)) as [-> Hl'].
      rewrite !fmap_cons, !concat_cons, !length_app, Hl, Hl'. cbn [fst snd]. by rewrite <- !app_assoc. }
  assert (Hall : forall vtx acc,
    foldl (fun acc tx => foldl commitments_and_decryption_step acc (ctx_ironwood_actions tx)) acc vtx =
    (fst acc ++ concat ((fun tx => concat (keep <$> ctx_ironwood_actions tx)) <$> vtx),
     snd acc ++ concat ((fun tx => concat (leaf <$> ctx_ironwood_actions tx)) <$> vtx)) /\
    length (concat ((fun tx => concat (keep <$> ctx_ironwood_actions tx)) <$> vtx)) =
    length (concat ((fun tx => concat (leaf <$> ctx_ironwood_actions tx)) <$> vtx))).
  { induction vtx as [|tx vtx IH]; intros acc; cbn [foldl fmap list_fmap concat].
    - rewrite !app_nil_r. by destruct acc.
    - destruct (Htx (ctx_ironwood_actions tx) acc) as [E1 E2].
      destruct (IH (foldl commitments_and_decryption_step acc (ctx_ironwood_actions tx))) as [-> Hl].
      rewrite E1. cbn [fst snd]. rewrite !length_app, E2, <- !app_assoc.
      split; [done|]. f_equal. exact Hl. }
  exact (Hall (kb_vtx block) ([], [])).
Qed.

(** ** Synchronization *)

Section sync_proof.
Context {M : Type} `{Lwd M}.

(** The node holds [blocks] at the heights from [first] on, and does not change. *)
Definition serves_blocks (n : M) (first : Z) (blocks : list CompactBlock) : Prop :=
  (forall i b, blocks !! i = Some b -> kb_height b = first + Z.of_nat i) /\
  forall from to, first <= from -> from <= to -> to < first + zlen blocks ->
    lw_block_range from to n =
      (Ok (take (Z.to_nat (to - from + 1)) (drop (Z.to_nat (from - first)) blocks)), n).

(** Sending two lists of blocks one after the other is sending them together. *)
Definition sends_in_order {E} (send : option Z -> list CompactBlock -> list E * option Z) : Prop :=
  (forall prev, send prev [] = ([], prev)) /\
  forall prev xs ys, send prev (xs ++ ys) =
    (let '(e1, p) := send prev xs in let '(e2, q) := send p ys in (e1 ++ e2, q)).

Lemma sync_blocks_in_order : sends_in_order sync_blocks.
Proof.
  split; [done|]. intros prev xs ys. revert prev. induction xs as [|b xs IH]; intros prev; cbn [app sync_blocks].
  - by destruct (sync_blocks prev ys).
  - rewrite IH. destruct (sync_blocks _ xs) as [e1 p]. by destruct (sync_blocks p ys).
Qed.

Lemma nf_sync_blocks_in_order : sends_in_order nf_sync_blocks.
Proof.
  split; [done|]. intros prev xs ys. revert prev. induction xs as [|b xs IH]; intros prev; cbn [app nf_sync_blocks].
  - by destruct (nf_sync_blocks prev ys).
  - destruct (extract_nullifiers_with_meta b prev) as [nfs size]. rewrite IH.
    destruct (nf_sync_blocks size xs) as [e1 p]. by destruct (nf_sync_blocks p ys).
Qed.

(** Both [sync] functions report the blocks of the range, once and in order. *)
Lemma sync_with_exact {E} (send : option Z -> list CompactBlock -> list E * option Z) fuel n first blocks current to prev :
  sends_in_order send ->
  serves_blocks n first blocks -> 0 <= first <= current -> to < first + zlen blocks ->
  to < u64_bound - SYNC_BATCH_SIZE -> to < current + Z.of_nat fuel -> current <= to + 1 ->
  sync_with send fuel current to prev n =
    (fst (send prev (take (Z.to_nat (to - current + 1)) (drop (Z.to_nat (current - first)) blocks))),
     Ok tt, n).
Proof.
  intros [Hnil Happ] [Hh Hn] Hf Hto Hmax. change SYNC_BATCH_SIZE with 10000 in Hmax.
  revert current prev Hf. induction fuel as [|fuel IH]; intros current prev Hf Hfuel Hcur; cbn [sync_with].
  - replace (Z.to_nat (to - current + 1)) with 0%nat by lia. by rewrite take_0, Hnil.
  - destruct (to <? current) eqn:Ec; bool_prop.
    { replace (Z.to_nat (to - current + 1)) with 0%nat by lia. by rewrite take_0, Hnil. }
    change SYNC_BATCH_SIZE with 10000. unfold u64_bound in *.
    rewrite (wrap64_small (current + 10000 - 1)) by (unfold u64_bound; lia).
    set (e := Z.min (current + 10000 - 1) to). rewrite Hn by lia.
    destruct (send prev _) as [events prev'] eqn:Es.
    rewrite wrap64_small by (unfold u64_bound; lia). rewrite IH by lia. f_equal. f_equal.
    replace (take (Z.to_nat (to - current + 1)) (drop (Z.to_nat (current - first)) blocks)) with
      (take (Z.to_nat (e - current + 1)) (drop (Z.to_nat (current - first)) blocks) ++
       take (Z.to_nat (to - (e + 1) + 1)) (drop (Z.to_nat (e + 1 - first)) blocks)).
    + rewrite Happ, Es. by destruct (send prev' _).
    + replace (Z.to_nat (e + 1 - first)) with (Z.to_nat (current - first) + Z.to_nat (e - current + 1))%nat by lia.
      rewrite <- drop_drop. rewrite take_take_drop. f_equal. lia.
Qed.

End sync_proof.
