(* ===== verification/WitnessServer.v ===== *)
(** * Bootstrapping and following the witness server's tree

    Models the tree side of [demos/legacy-spendability/witness/witness-server/src/server.rs]:
    [prepare_tree] with the spill-over of the block that completes a shard,
    [validate_prior_tree_size], [sync_range] and the handling of events in [run]; with
    [min_sync_height] of [shared/pir-types/src/lib.rs].  The theorems: a tree that
    starts at a window behind fetched shard roots, or at the activation height, has
    after synchronization the root of the whole chain's commitments; and after a
    replacement of the block the server stands on, the followed tree lacks the
    replacing block. *)

From Stdlib Require Import ZArith Lia.
From stdpp Require Import base numbers list strings sorting.
From S2P Require Import Prelude CommitmentTree Witness ChainFollow.

Open Scope Z_scope.

Inductive ServerError :=
| SE_Ingest (m : string)
| SE_Client (m : string)
| SE_MissingCompletingBlock (height : Z)
| SE_PirSetup (m : string)
| SE_TreeSizeMismatch (context : string) (height expected actual : Z).

Inductive ZcashNetwork := NetMain | NetTest.
Definition NU6_3_MAINNET_ACTIVATION : Z := 3428143.
Definition NU6_3_TESTNET_ACTIVATION : Z := 4134000.
Definition activation_height (n : ZcashNetwork) : Z :=
  match n with NetMain => NU6_3_MAINNET_ACTIVATION | NetTest => NU6_3_TESTNET_ACTIVATION end.

Definition min_sync_height (network : option ZcashNetwork) (tip_height : Z) : Z :=
  match network with
  | Some network => if activation_height network <=? tip_height then activation_height network else 1
  | None => 1
  end.

Definition spillover_from_commitments (commitments : list Hash) (end_tree_size leaf_offset : Z) : list Hash :=
  if end_tree_size <=? leaf_offset then [] else
  let spillover_count := end_tree_size - leaf_offset in
  let skip := saturating_sub (zlen commitments) spillover_count in
  drop (Z.to_nat skip) commitments.

Definition completing_block_spillover (block : CompactBlock) (leaf_offset : Z) : list Hash :=
  spillover_from_commitments (extract_commitments block) (default 0 (kb_tree_size block)) leaf_offset.

Section server.
Context `{MerkleHash} `{PirEngine} {M : Type} `{Lwd M}.

(** [window_shard_limit.clamp(1, L0_MAX_SHARDS)]. *)
Definition effective_window_shard_limit (window_shard_limit : Z) : Z :=
  Z.min (Z.max window_shard_limit 1) L0_MAX_SHARDS.

Definition prepare_tree (network : option ZcashNetwork) (tip_height window_shard_limit : Z) (n : M) :
    result ServerError (CommitmentTreeDb * Z * option Z) * M :=
  let window_shard_limit := effective_window_shard_limit window_shard_limit in
  match lw_subtree_roots n with
  | (Err e, n) => (Err (SE_Client e), n)
  | (Ok subtree_roots, n) =>
  let num_completed := zlen subtree_roots in
  if window_shard_limit <=? num_completed then
    let window_start := num_completed - (window_shard_limit - 1) in
    let leaf_offset := window_start * SHARD_LEAVES in
    let prefetched :=
      (fun sr => into_array 32 (sr_root_hash sr)) <$> take (Z.to_nat window_start) subtree_roots in
    match subtree_roots !! Z.to_nat (window_start - 1) with
    | None => (Err (SE_Client "index"), n)
    | Some last =>
    let completing_block_height := sr_completing_block_height last in
    let sync_from := wrap64 (completing_block_height + 1) in
    let tree := CommitmentTreeDb_with_offset leaf_offset prefetched in
    match lw_block_range completing_block_height completing_block_height n with
    | (Err e, n) => (Err (SE_Client e), n)
    | (Ok completing_blocks, n) =>
    match head completing_blocks with
    | None => (Err (SE_MissingCompletingBlock completing_block_height), n)
    | Some block =>
    let spillover := completing_block_spillover block leaf_offset in
    let tree :=
      if bool_decide (spillover = []) then tree
      else append_commitments tree completing_block_height (into_array 32 (kb_hash block)) spillover in
    let initial_tree_size := Some (wrap32 (tree_size tree)) in
    (Ok (tree, sync_from, initial_tree_size), n)
    end end end
  else
    (Ok (CommitmentTreeDb_new, min_sync_height network tip_height, None), n)
  end.

Definition validate_prior_tree_size (tree : CommitmentTreeDb) (height : Z) (prior_tree_size : option Z)
    (context : string) : result ServerError unit :=
  match prior_tree_size with
  | None => Ok tt
  | Some expected =>
      let actual := tree_size tree in
      if actual =? expected then Ok tt
      else Err (SE_TreeSizeMismatch context height expected actual)
  end.

(** A new block of either channel. *)
Definition append_checked (context : string) (tree : CommitmentTreeDb) (height : Z) (hash : Hash)
    (commitments : list Hash) (prior_tree_size : option Z) : result ServerError CommitmentTreeDb :=
  let? _ := validate_prior_tree_size tree height prior_tree_size context in
  Ok (append_commitments tree height hash commitments).

Fixpoint sync_events (tree : CommitmentTreeDb) (events : list WitnessChainEvent) :
    result ServerError CommitmentTreeDb :=
  match events with
  | [] => Ok tree
  | W_NewBlock height hash commitments prior_tree_size :: events =>
      let? tree := append_checked "initial sync" tree height hash commitments prior_tree_size in
      sync_events tree events
  | W_Reorg _ :: events => sync_events tree events
  end.

(** A failure of the ingest task ends the range early and is not reported. *)
Definition sync_range (from to : Z) (tree : CommitmentTreeDb) (initial_tree_size : option Z) (n : M) :
    result ServerError CommitmentTreeDb * M :=
  if to <? from then (Ok tree, n) else
  let '(events, _, n) := sync (Z.to_nat (to - from + 1)) from to initial_tree_size n in
  (sync_events tree events, n).

Definition known_tree_size (tree : CommitmentTreeDb) : option Z :=
  if 0 <? tree_size tree then Some (wrap32 (tree_size tree)) else None.

(** The start of [run], with the snapshot that loaded, if one did. *)
Definition bootstrap (snapshot : option CommitmentTreeDb) (network : option ZcashNetwork)
    (tip_height window_shard_limit : Z) (n : M) : result ServerError CommitmentTreeDb * M :=
  let prepared :=
    match snapshot with
    | Some t =>
        let resume := default 0 ((fun h => wrap64 (h + 1)) <$> latest_height t) in
        (Ok (t, resume, known_tree_size t), n)
    | None =>
        prepare_tree network tip_height (effective_window_shard_limit window_shard_limit) n
    end in
  match prepared with
  | (Err e, n) => (Err e, n)
  | (Ok (tree, forward_start, initial_tree_size), n) =>
      if forward_start <=? tip_height then sync_range forward_start tip_height tree initial_tree_size n
      else (Ok tree, n)
  end.

(** ** Follow mode *)

(** What [run] keeps while it follows. *)
Record ServerState := { sv_tree : CommitmentTreeDb; sv_app : AppState }.

(** The rebuild and the store of the live state; [None] is a panic of the tree. *)
Definition publish_pir (tree : CommitmentTreeDb) (app : AppState) :
    option (result ServerError ServerState) :=
  let anchor_height := default 0 (latest_height tree) in
  '(pir_state, tree) ← rebuild_pir tree (as_scenario app) anchor_height;
  Some match pir_state with
  | Err e => Err (SE_PirSetup e)
  | Ok pir_state =>
      Ok {| sv_tree := tree;
            sv_app := {| as_live_pir := Some pir_state; as_phase := as_phase app;
                         as_scenario := as_scenario app |} |}
  end.

(** The start of serving. *)
Definition start_serving (tree : CommitmentTreeDb) (app : AppState) :
    option (result ServerError ServerState) :=
  s ← publish_pir tree app;
  Some (let? s := s in
    Ok {| sv_tree := sv_tree s;
          sv_app := {| as_live_pir := as_live_pir (sv_app s); as_phase := ServerServing;
                       as_scenario := as_scenario (sv_app s) |} |}).

Definition follow_from (tree : CommitmentTreeDb) : FollowState :=
  follow_start (default 0 (latest_height tree)) (default (replicate 32 0) (latest_block_hash tree))
    (known_tree_size tree).

(** One event of the follow channel. *)
Definition follow_event (s : ServerState) (event : WitnessChainEvent) :
    option (result ServerError ServerState) :=
  match
    match event with
    | W_NewBlock height hash commitments prior_tree_size =>
        append_checked "follow mode" (sv_tree s) height hash commitments prior_tree_size
    | W_Reorg height => Ok (rollback_to (sv_tree s) height)
    end
  with
  | Err e => Some (Err e)
  | Ok tree => publish_pir tree (sv_app s)
  end.

Fixpoint follow_events (s : ServerState) (events : list WitnessChainEvent) :
    option (result ServerError ServerState) :=
  match events with
  | [] => Some (Ok s)
  | event :: events =>
      r ← follow_event s event;
      match r with
      | Err e => Some (Err e)
      | Ok s => follow_events s events
      end
  end.

End server.

(** ** Synchronization is exact *)

Section sync_proof.
Context `{MerkleHashLaws} {M : Type} `{Lwd M}.

(** The node's chain: blocks from height [first], with the leaves [xs] of each. *)
Record chain_of (n : M) (first : Z) (blocks : list CompactBlock) (xs : list (list mho)) : Prop := {
  ch_serves : serves_blocks n first blocks;
  ch_first : 0 <= first;
  ch_last : first + zlen blocks < u64_bound - SYNC_BATCH_SIZE;
  ch_length : length xs = length blocks;
  ch_leaves i b x : blocks !! i = Some b -> xs !! i = Some x -> extract_commitments b = mho_to_bytes <$> x;
  ch_sizes i b : blocks !! i = Some b -> kb_tree_size b = Some (zlen (concat (take (S i) xs)));
  ch_bound : zlen (concat xs) < 2 ^ TREE_DEPTH }.

(** The blocks as the tree records them. *)
Definition tree_blocks (blocks : list CompactBlock) (xs : list (list mho)) : list TreeBlock :=
  zip_with (fun b x => {| tb_height := kb_height b; tb_hash := to_hash_array (kb_hash b);
    tb_commitments := x |}) blocks xs.

Lemma concat_take_S (xs : list (list mho)) i x :
  xs !! i = Some x -> concat (take (S i) xs) = concat (take i xs) ++ x.
Proof.
  intros Hi. rewrite (take_S_r _ _ _ Hi), concat_app. cbn [concat]. by rewrite app_nil_r.
Qed.

Lemma concat_take_le (xs : list (list mho)) i : zlen (concat (take i xs)) <= zlen (concat xs).
Proof.
  rewrite <- (take_drop i xs) at 2. rewrite concat_app, zlen_app.
  pose proof (zlen_nonneg (concat (drop i xs))). lia.
Qed.

(** From a tree that holds the first [i] blocks' leaves, the events of the next [k]
    blocks bring it to the first [i + k]. *)
Lemma handle_sync_events n first blocks xs pre k : forall i bs t prev,
  chain_of n first blocks xs -> tree_repr pre bs t ->
  pre ++ window_leaves bs = concat (take i xs) -> (i + k <= length blocks)%nat ->
  prev = None \/ prev = Some (tree_size t) ->
  exists t', sync_events t (fst (sync_blocks prev (take k (drop i blocks)))) = Ok t' /\
    tree_repr pre (bs ++ tree_blocks (take k (drop i blocks)) (take k (drop i xs))) t' /\
    pre ++ window_leaves (bs ++ tree_blocks (take k (drop i blocks)) (take k (drop i xs))) =
      concat (take (i + k) xs).
Proof.
  induction k as [|k IH]; intros i bs t prev Hch Hr Hall Hk Hprev.
  - exists t. cbn [take sync_blocks fst sync_events tree_blocks zip_with]. rewrite !app_nil_r, Nat.add_0_r.
    by split_and!.
  - destruct (lookup_lt_is_Some_2 blocks i) as [b Hb]; [lia|].
    destruct (lookup_lt_is_Some_2 xs i) as [x Hx]; [pose proof (ch_length _ _ _ _ Hch); lia|].
    rewrite (drop_S _ _ _ Hb), (drop_S _ _ _ Hx). cbn [take sync_blocks].
    set (tb := {| tb_height := kb_height b; tb_hash := to_hash_array (kb_hash b); tb_commitments := x |}).
    assert (Hnext : pre ++ window_leaves (bs ++ [tb]) = concat (take (S i) xs)).
    { rewrite window_leaves_snoc, app_assoc, Hall. symmetry. by apply concat_take_S. }
    assert (Hr' : tree_repr pre (bs ++ [tb])
      (append_commitments t (kb_height b) (to_hash_array (kb_hash b)) (extract_commitments b))).
    { rewrite (ch_leaves _ _ _ _ Hch _ _ _ Hb Hx). apply (append_tree_repr pre bs tb); [done|].
      rewrite Hnext. pose proof (concat_take_le xs (S i)). pose proof (ch_bound _ _ _ _ Hch). lia. }
    destruct (IH (S i) (bs ++ [tb]) _ (ironwood_tree_size b) Hch Hr' Hnext) as (t' & Ht & Hrep & Hl);
      [lia| |].
    { unfold ironwood_tree_size. rewrite (ch_sizes _ _ _ _ Hch _ _ Hb), (repr_tree_size _ _ _ Hr'), Hnext.
      destruct (0 <? _); [by right|by left]. }
    exists t'. destruct (sync_blocks (ironwood_tree_size b) _) as [events last] eqn:Es.
    cbn [fst sync_events] in *. unfold append_checked.
    assert (validate_prior_tree_size t (kb_height b) prev "initial sync" = Ok tt) as ->.
    { unfold validate_prior_tree_size. destruct Hprev as [->| ->]; [done|]. by rewrite Z.eqb_refl. }
    cbn [tree_blocks zip_with]. fold tb. change (zip_with _ ?a ?b) with (tree_blocks a b).
    rewrite <- (Nat.add_succ_comm i k). rewrite <- app_assoc in *. by split_and!.
Qed.

(** From the first [i] blocks, [sync_range] brings the tree to the tip. *)
Lemma sync_range_exact n first blocks xs pre bs t i prev :
  chain_of n first blocks xs -> tree_repr pre bs t ->
  pre ++ window_leaves bs = concat (take i xs) -> (i <= length blocks)%nat ->
  prev = None \/ prev = Some (tree_size t) ->
  exists t' bs', sync_range (first + Z.of_nat i) (first + zlen blocks - 1) t prev n = (Ok t', n) /\
    tree_repr pre (bs ++ bs') t' /\ bs' = tree_blocks (drop i blocks) (drop i xs) /\
    pre ++ window_leaves (bs ++ bs') = concat xs.
Proof.
  intros Hch Hr Hall Hi Hprev. pose proof (ch_length _ _ _ _ Hch) as Hlen.
  destruct (handle_sync_events n first blocks xs pre (length blocks - i) i bs t prev) as (t' & Hev & Hr' & Hl');
    [done..|lia|done|].
  rewrite !(take_ge (drop i _)) in Hr', Hl' by (rewrite length_drop; lia).
  replace (i + (length blocks - i))%nat with (length blocks) in Hl' by lia.
  rewrite (take_ge xs) in Hl' by lia.
  exists t', (tree_blocks (drop i blocks) (drop i xs)). split_and!; [|done|done|done].
  pose proof (ch_first _ _ _ _ Hch). pose proof (ch_last _ _ _ _ Hch) as Hlast.
  unfold sync_range. destruct (_ <? _) eqn:E; bool_prop.
  - unfold zlen in E. assert (length blocks - i = 0)%nat as Hz by lia. rewrite Hz in Hev.
    rewrite firstn_O in Hev. cbn in Hev. congruence.
  - unfold sync; rewrite (sync_with_exact _ _ _ first blocks)
      by (apply sync_blocks_in_order || apply (ch_serves _ _ _ _ Hch) || (unfold zlen in *; lia)).
    replace (Z.to_nat (first + zlen blocks - 1 - (first + Z.of_nat i) + 1)) with (length blocks - i)%nat
      by (unfold zlen; lia).
    replace (Z.to_nat (first + Z.of_nat i - first)) with i by lia. by rewrite Hev.
Qed.

(** What the node answers about completed shards: the root of each, and the height
    of the block that completes it. *)
Record subtrees_of (n : M) (first : Z) (xs : list (list mho)) (roots : list SubtreeRoot) : Prop := {
  su_served : lw_subtree_roots n = (Ok roots, n);
  su_count : zlen roots = zlen (concat xs) / SHARD_LEAVES;
  su_root k r : roots !! k = Some r ->
    sr_root_hash r = mho_to_bytes (node (leaf_at (concat xs)) 16 (Z.of_nat k));
  su_height k r : roots !! k = Some r -> exists i x, xs !! i = Some x /\
    sr_completing_block_height r = first + Z.of_nat i /\
    zlen (concat (take i xs)) < (Z.of_nat k + 1) * SHARD_LEAVES <= zlen (concat (take (S i) xs)) }.

Lemma leaf_at_take all offset j : 0 <= j < offset -> leaf_at (take (Z.to_nat offset) all) j = leaf_at all j.
Proof. intros Hj. unfold leaf_at. by rewrite lookup_take_lt by lia. Qed.

Lemma prefetched_nodes n first xs roots w :
  subtrees_of n first xs roots -> 0 <= w <= zlen roots ->
  (fun sr => into_array 32 (sr_root_hash sr)) <$> take (Z.to_nat w) roots =
  nodes (leaf_at (take (Z.to_nat (w * SHARD_LEAVES)) (concat xs))) 16 0 w.
Proof.
  intros Hsu Hw. apply list_eq. intros k. rewrite list_lookup_fmap.
  destruct (decide (Z.of_nat k < w)) as [Hk|Hk].
  - rewrite lookup_take_lt by lia.
    destruct (lookup_lt_is_Some_2 roots k) as [r Hr]; [unfold zlen in *; lia|].
    rewrite Hr. cbn [fmap option_fmap option_map]. rewrite (su_root _ _ _ _ Hsu _ _ Hr).
    rewrite <- (Nat2Z.id k) at 2. rewrite nodes_lookup by lia. f_equal. unfold into_array.
    rewrite resize_all_alt by (symmetry; apply mho_to_bytes_length). f_equal. apply node_ext.
    intros j Hj. symmetry. apply leaf_at_take. geometry. lia.
  - rewrite lookup_take_ge by lia. cbn. symmetry. apply lookup_ge_None_2.
    unfold nodes. rewrite length_fmap, length_seqZ. lia.
Qed.

(** The leaves of the completing block that lie in the window. *)
Lemma spillover_exact all_before (x : list mho) offset :
  zlen all_before < offset <= zlen (all_before ++ x) ->
  take (Z.to_nat offset) (all_before ++ x) ++ drop (Z.to_nat (offset - zlen all_before)) x = all_before ++ x /\
  spillover_from_commitments (mho_to_bytes <$> x) (zlen (all_before ++ x)) offset =
    mho_to_bytes <$> drop (Z.to_nat (offset - zlen all_before)) x.
Proof.
  intros Ho. pose proof (zlen_nonneg all_before). rewrite zlen_app in *. split.
  - rewrite take_app_ge by (unfold zlen in *; lia). rewrite <- app_assoc. f_equal.
    replace (Z.to_nat offset - length all_before)%nat with (Z.to_nat (offset - zlen all_before))
      by (unfold zlen; lia). apply take_drop.
  - unfold spillover_from_commitments, saturating_sub. rewrite fmap_drop.
    replace (zlen (mho_to_bytes <$> x)) with (zlen x) by (unfold zlen; by rewrite length_fmap).
    destruct (_ <=? offset) eqn:E; bool_prop.
    + symmetry. apply nil_length_inv. rewrite length_drop, length_fmap. unfold zlen in *. lia.
    + f_equal. lia.
Qed.

(** A tree that holds the leaves of the chain's first [i] blocks. *)
Definition holds_blocks (xs : list (list mho)) (i : nat) (t : CommitmentTreeDb) : Prop :=
  exists pre bs, tree_repr pre bs t /\ pre ++ window_leaves bs = concat (take i xs).

(** A window seeded with the roots before it and, if there are any, the leaves [sp] of
    the completing block. *)
Lemma seed_window (pre sp : list mho) w height hash :
  zlen pre = w * SHARD_LEAVES -> zlen (pre ++ sp) < 2 ^ TREE_DEPTH ->
  let tree := CommitmentTreeDb_with_offset (w * SHARD_LEAVES) (nodes (leaf_at pre) 16 0 w) in
  exists bs, window_leaves bs = sp /\
    tree_repr pre bs (if bool_decide (mho_to_bytes <$> sp = []) then tree
      else append_commitments tree height hash (mho_to_bytes <$> sp)).
Proof.
  intros Hzp Hmax tree. pose proof (zlen_nonneg sp).
  assert (Hr0 : tree_repr pre [] tree).
  { pose proof (new_repr pre) as Hn. rewrite Hzp, Z.div_mul, Z.mod_mul in Hn by done.
    rewrite zlen_app in Hmax. apply Hn; [done|lia]. }
  case_bool_decide as E.
  - apply fmap_nil_inv in E as ->. by exists [].
  - exists ([] ++ [{| tb_height := height; tb_hash := hash; tb_commitments := sp |}]).
    split; [apply app_nil_r|].
    apply (append_tree_repr pre [] {| tb_height := height; tb_hash := hash; tb_commitments := sp |} _ Hr0).
    by rewrite window_leaves_snoc.
Qed.

(** The windowed branch: the tree at the block that completes the last skipped shard. *)
Lemma prepare_window n first blocks xs roots network tip limit :
  chain_of n first blocks xs -> subtrees_of n first xs roots ->
  effective_window_shard_limit limit <= zlen roots ->
  exists t i, prepare_tree network tip limit n = (Ok (t, first + Z.of_nat i, Some (tree_size t)), n) /\
    (i <= length blocks)%nat /\ holds_blocks xs i t /\
    ct_leaf_offset t = (zlen roots - (effective_window_shard_limit limit - 1)) * SHARD_LEAVES.
Proof.
  intros Hch Hsu Hlim. unfold prepare_tree. rewrite (su_served _ _ _ _ Hsu).
  assert (Hl : 1 <= effective_window_shard_limit limit <= 32).
  { unfold effective_window_shard_limit. geometry. lia. }
  guards. set (w := zlen roots - (effective_window_shard_limit limit - 1)).
  assert (Hwr : 1 <= w <= zlen roots) by (unfold w; lia). clearbody w.
  destruct (lookup_lt_is_Some_2 roots (Z.to_nat (w - 1))) as [r Hr]; [unfold zlen in *; lia|].
  rewrite Hr. destruct (su_height _ _ _ _ Hsu _ _ Hr) as (i & x & Hx & Hh & Hb).
  pose proof (ch_length _ _ _ _ Hch) as Hlen. pose proof (lookup_lt_Some _ _ _ Hx) as Hi.
  destruct (lookup_lt_is_Some_2 blocks i) as [b Hbk]; [lia|].
  pose proof (ch_first _ _ _ _ Hch). pose proof (ch_last _ _ _ _ Hch) as Hlast.
  pose proof (ch_bound _ _ _ _ Hch) as Hmax. destruct (ch_serves _ _ _ _ Hch) as [Hheights Hrange].
  assert (zlen blocks >= Z.of_nat (S i)) by (unfold zlen; lia).
  change SYNC_BATCH_SIZE with 10000 in Hlast.
  rewrite Hh, Hrange by lia. replace (Z.to_nat (first + Z.of_nat i - first)) with i by lia.
  rewrite (drop_S _ _ _ Hbk). replace (Z.to_nat (_ - _ + 1)) with 1%nat by lia. cbn [take head].
  rewrite (prefetched_nodes n first xs roots w Hsu) by lia.
  unfold completing_block_spillover.
  rewrite (ch_leaves _ _ _ _ Hch _ _ _ Hbk Hx), (ch_sizes _ _ _ _ Hch _ _ Hbk).
  pose proof (concat_take_le xs (S i)) as Hle. pose proof (concat_take_S _ _ _ Hx) as Hcat.
  rewrite Hcat in *. cbn [default from_option id]. rewrite Z2Nat.id, Z.sub_add in Hb by lia.
  destruct (spillover_exact (concat (take i xs)) x (w * SHARD_LEAVES)) as [Hsplit ->]; [lia|].
  set (sp := drop _ x) in *. set (pre := take (Z.to_nat (w * SHARD_LEAVES)) (concat xs)).
  assert (Hpre : pre = take (Z.to_nat (w * SHARD_LEAVES)) (concat (take i xs) ++ x)).
  { unfold pre. rewrite <- (take_drop (S i) xs) at 1.
    rewrite concat_app, Hcat, take_app_le; [done|]. unfold zlen in Hb. lia. }
  rewrite <- Hpre in Hsplit.
  assert (Hzp : zlen pre = w * SHARD_LEAVES).
  { rewrite Hpre. unfold zlen in *. rewrite length_take. geometry. lia. }
  destruct (seed_window pre sp w (first + Z.of_nat i) (into_array 32 (kb_hash b))) as (bs & Hw & Hrt);
    [done|rewrite Hsplit; lia|].
  set (t := if bool_decide _ then _ else _) in *. clearbody t.
  exists t, (S i). pose proof (repr_tree_size _ _ _ Hrt) as Hts. rewrite Hw, Hsplit in Hts.
  unfold wrap32 at 1. pose proof (zlen_nonneg (concat (take i xs) ++ x)).
  rewrite Z.mod_small by (rewrite Hts; geometry; lia). rewrite wrap64_small by (unfold u64_bound in *; lia).
  split_and!; [by replace (first + Z.of_nat i + 1) with (first + Z.of_nat (S i)) by lia|lia| |].
  - exists pre, bs. split; [done|]. by rewrite Hw, Hsplit, Hcat.
  - by rewrite (tr_offset _ _ _ Hrt).
Qed.

(** A usable snapshot: the tree of the chain's first [i] blocks, the last of them
    its latest. *)
Definition snapshot_of (first : Z) (xs : list (list mho)) (snapshot : option CommitmentTreeDb) : Prop :=
  match snapshot with
  | None => True
  | Some t => exists i, (0 < i <= length xs)%nat /\ holds_blocks xs i t /\
      latest_height t = Some (first + Z.of_nat i - 1)
  end.

Lemma full_window first blocks xs n t :
  chain_of n first blocks xs -> holds_blocks xs (length xs) t ->
  tree_size t = zlen (concat xs) /\ tree_root t = Some (merkle_root (concat xs)) /\
  zlen (ct_leaves t) = zlen (concat xs) - ct_leaf_offset t.
Proof.
  intros Hch (pre & bs & Hr & Hall). rewrite take_ge in Hall by done.
  rewrite (repr_tree_size _ _ _ Hr), (tree_root_merkle _ _ _ Hr), <- Hall, (tr_offset _ _ _ Hr),
    (tr_leaves _ _ _ Hr), zlen_app. split_and!; [done..|]. unfold zlen. rewrite length_fmap. lia.
Qed.

(** Syncing from a tree of the first [i] blocks reaches the whole chain. *)
Lemma catch_up n first blocks xs t i prev :
  chain_of n first blocks xs -> holds_blocks xs i t -> (i <= length blocks)%nat ->
  prev = None \/ prev = Some (tree_size t) ->
  exists t', (if first + Z.of_nat i <=? first + zlen blocks - 1
     then sync_range (first + Z.of_nat i) (first + zlen blocks - 1) t prev n else (Ok t, n)) = (Ok t', n) /\
    holds_blocks xs (length xs) t' /\ ct_leaf_offset t' = ct_leaf_offset t.
Proof.
  intros Hch (pre & bs & Hr & Hall) Hi Hprev.
  destruct (sync_range_exact n first blocks xs pre bs t i prev) as (t' & bs' & Hsync & Hr' & _ & Hall'); [done..|].
  exists t'. split_and!.
  - destruct (_ <=? _) eqn:E; bool_prop; [done|]. unfold sync_range in Hsync. rewrite (proj2 (Z.ltb_lt _ _)) in Hsync by lia. done.
  - exists pre, (bs ++ bs'). split; [done|]. by rewrite take_ge by done.
  - by rewrite (tr_offset _ _ _ Hr), (tr_offset _ _ _ Hr').
Qed.

Lemma known_tree_size_exact xs i t :
  holds_blocks xs i t -> known_tree_size t = None \/ known_tree_size t = Some (tree_size t).
Proof.
  intros (pre & bs & Hr & Hall). unfold known_tree_size. pose proof (tr_bound _ _ _ Hr).
  destruct (0 <? _) eqn:E; bool_prop; [right|by left]. rewrite (repr_tree_size _ _ _ Hr) in *.
  unfold wrap32. rewrite Z.mod_small; [done|]. geometry. lia.
Qed.

(** C27: bootstrapping is exact.  From a chain that starts at the height the server
    starts from, with the shard roots the node reports for it, a server without a
    snapshot or with one of an earlier point of the same chain reaches the node's
    tip without an error; its tree then has the size and the root of all
    commitments of the chain, wherever the window begins and however the
    completing block straddles it, and without a snapshot the window holds at most
    the configured number of shards. *)
Theorem bootstrap_exact n network limit first blocks xs roots snapshot :
  chain_of n first blocks xs -> subtrees_of n first xs roots -> snapshot_of first xs snapshot ->
  min_sync_height network (first + zlen blocks - 1) = first ->
  exists t, bootstrap snapshot network (first + zlen blocks - 1) limit n = (Ok t, n) /\
    tree_size t = zlen (concat xs) /\ tree_root t = Some (merkle_root (concat xs)) /\
    (snapshot = None -> zlen (ct_leaves t) <= effective_window_shard_limit limit * SHARD_LEAVES).
Proof.
  intros Hch Hsu Hsnap Hmin. pose proof (ch_length _ _ _ _ Hch) as Hlen.
  assert (Hlim : effective_window_shard_limit (effective_window_shard_limit limit) =
    effective_window_shard_limit limit) by (unfold effective_window_shard_limit; geometry; lia).
  unfold bootstrap. destruct snapshot as [t|].
  - destruct Hsnap as (i & Hi & Hh & Hlast). pose proof (ch_first _ _ _ _ Hch).
    pose proof (ch_last _ _ _ _ Hch) as Hmax. change SYNC_BATCH_SIZE with 10000 in Hmax.
    assert (Z.of_nat i <= zlen blocks) by (unfold zlen; lia).
    rewrite Hlast. cbn [fmap option_fmap option_map default from_option id].
    rewrite wrap64_small by (unfold u64_bound in *; lia). rewrite Z.sub_add.
    destruct (catch_up n first blocks xs t i (known_tree_size t)) as (t' & -> & Hh' & _);
      [done|done|lia|by eapply known_tree_size_exact|].
    exists t'. destruct (full_window _ _ _ _ _ Hch Hh') as (Hs & Hroot & _). by split_and!.
  - destruct (decide (effective_window_shard_limit limit <= zlen roots)) as [Hw|Hw].
    + destruct (prepare_window n first blocks xs roots network (first + zlen blocks - 1)
        (effective_window_shard_limit limit)) as (t & i & -> & Hi & Hh & Ho); [done|done|by rewrite Hlim|].
      destruct (catch_up n first blocks xs t i (Some (tree_size t))) as (t' & -> & Hh' & Ho');
        [done|done|done|by right|].
      exists t'. destruct (full_window _ _ _ _ _ Hch Hh') as (Hs & Hroot & Hz). split_and!; [done..|].
      intros _. rewrite Hz, Ho', Ho, Hlim, (su_count _ _ _ _ Hsu).
      pose proof (Z.div_mod (zlen (concat xs)) SHARD_LEAVES). pose proof (Z.mod_pos_bound (zlen (concat xs)) SHARD_LEAVES).
      geometry. lia.
    + unfold prepare_tree. rewrite (su_served _ _ _ _ Hsu), Hlim. guards. rewrite Hmin.
      destruct (catch_up n first blocks xs CommitmentTreeDb_new 0 None) as (t' & E & Hh' & Ho').
      { done. } { exists [], []. split; [|done]. by apply (new_repr []). } { lia. } { by left. }
      rewrite Z.add_0_r in E. rewrite E. exists t'.
      destruct (full_window _ _ _ _ _ Hch Hh') as (Hs & Hroot & Hz). split_and!; [done..|].
      intros _. rewrite Hz, Ho'. cbn [ct_leaf_offset CommitmentTreeDb_new].
      rewrite (su_count _ _ _ _ Hsu) in Hw.
      pose proof (Z.div_mod (zlen (concat xs)) SHARD_LEAVES). pose proof (Z.mod_pos_bound (zlen (concat xs)) SHARD_LEAVES).
      geometry. lia.
Qed.

End sync_proof.

(** ** Following is exact *)

Section follow_proof.
Context `{MerkleHashLaws} `{PirEngine}.
Context (engine_ready : forall db scenario, exists st, pe_setup db scenario = Ok st).

Definition entry (b : TreeBlock) : Z * Hash := (tb_height b, tb_hash b).

(** The server holds the blocks [bs]; the tracker remembers the last of them. *)
Record following (pre : list mho) (bs : list TreeBlock) (s : ServerState) (f : FollowState) : Prop := {
  fl_tree : tree_repr pre bs (sv_tree s);
  fl_chain : exists k, tk_chain (fo_tracker f) = entry <$> drop k bs;
  fl_heights : consecutive (entry <$> bs);
  fl_hashes : NoDup (tb_hash <$> bs);
  fl_size : fo_prev_tree_size f = None \/ fo_prev_tree_size f = Some (tree_size (sv_tree s)) }.

(** The live state was built from the tree, for its latest block. *)
Definition live_for (bs : list TreeBlock) (s : ServerState) : Prop :=
  exists ps, as_live_pir (sv_app s) = Some ps /\
    wm_anchor_height (ps_metadata ps) = default 0 (tb_height <$> last bs) /\
    wm_tree_size (ps_metadata ps) = tree_size (sv_tree s).

Lemma publish_exact pre bs t app :
  tree_repr pre bs t -> exists s, publish_pir t app = Some (Ok s) /\ tree_repr pre bs (sv_tree s) /\ live_for bs s.
Proof.
  intros Hr. unfold publish_pir, rebuild_pir.
  destruct (build_exact _ _ _ Hr (default 0 (latest_height t))) as (t' & Hr' & ->). cbn [mbind option_bind].
  destruct (engine_ready (resize (Z.to_nat L0_DB_BYTES) 0
    (concat (nodes (leaf_at (pre ++ window_leaves bs)) 0 (zlen pre) (window_shard_count t * SHARD_LEAVES))))
    (as_scenario app)) as [st ->].
  eexists. split; [reflexivity|]. cbn [sv_tree sv_app]. split; [done|].
  eexists. cbn [as_live_pir ps_metadata wm_anchor_height wm_tree_size]. split_and!; [reflexivity| |done].
  unfold latest_height. by rewrite (tr_blocks _ _ _ Hr), fmap_last, <- option_fmap_compose.
Qed.

Lemma roll_back_take bs j b :
  consecutive (entry <$> bs) -> bs !! j = Some b -> roll_back (tb_height b) bs = take (S j) bs.
Proof.
  intros Hc Hj. destruct (roll_back_split (tb_height b) bs) as (removed & Hsplit & _).
  assert (Hmap : forall h l, entry <$> drop_above h l = pop_back_above h (entry <$> l)).
  { intros h l. induction l as [|c l IH]; cbn [drop_above fmap list_fmap pop_back_above entry]; [done|].
    by destruct (h <? tb_height c). }
  assert (Hlen : length (roll_back (tb_height b) bs) = length (take (S j) bs)).
  { rewrite <- (length_fmap entry). unfold roll_back. rewrite fmap_reverse, Hmap, fmap_reverse.
    rewrite (truncate_at _ j (tb_height b) (tb_hash b)); [|done|by rewrite list_lookup_fmap, Hj].
    by rewrite <- fmap_take, length_fmap. }
  pose proof (lookup_lt_Some _ _ _ Hj). rewrite Hsplit at 2. rewrite take_app_le by (rewrite Hlen, length_take; lia).
  symmetry. apply take_ge. rewrite Hlen, length_take. lia.
Qed.

(** A block of the node, as the tree should record it. *)
Definition tree_block (b : CompactBlock) (x : list mho) : TreeBlock :=
  {| tb_height := kb_height b; tb_hash := to_hash_array (kb_hash b); tb_commitments := x |}.

(** The chain after a block whose parent is at the height before it. *)
Definition chain_with (bs : list TreeBlock) (b : TreeBlock) : list TreeBlock :=
  roll_back (tb_height b - 1) bs ++ [b].

(** [b] has its parent in the tracker, a new hash, the leaves [x] and the size of
    the tree after it. *)
Record links (pre : list mho) (bs : list TreeBlock) (f : FollowState) (b : CompactBlock) (x : list mho) : Prop := {
  lk_parent : exists i, tk_chain (fo_tracker f) !! i = Some (kb_height b - 1, to_hash_array (kb_prev_hash b));
  lk_fresh : to_hash_array (kb_hash b) ∉ tb_hash <$> bs;
  lk_leaves : extract_commitments b = mho_to_bytes <$> x;
  lk_size : kb_tree_size b = Some (zlen (pre ++ window_leaves (chain_with bs (tree_block b x))));
  lk_height : 0 <= kb_height b < u64_bound;
  lk_bound : zlen (pre ++ window_leaves (chain_with bs (tree_block b x))) < 2 ^ TREE_DEPTH }.

(** Appending to a tree and publishing it. *)
Lemma append_publish pre bs t app b x prior :
  tree_repr pre bs t -> extract_commitments b = mho_to_bytes <$> x ->
  zlen (pre ++ window_leaves (bs ++ [tree_block b x])) < 2 ^ TREE_DEPTH ->
  prior = None \/ prior = Some (tree_size t) ->
  exists s, follow_event {| sv_tree := t; sv_app := app |}
      (W_NewBlock (kb_height b) (to_hash_array (kb_hash b)) (extract_commitments b) prior) = Some (Ok s) /\
    tree_repr pre (bs ++ [tree_block b x]) (sv_tree s) /\ live_for (bs ++ [tree_block b x]) s.
Proof.
  intros Hr Hx Hb Hprior. unfold follow_event, append_checked. cbn [sv_tree sv_app].
  assert (validate_prior_tree_size t (kb_height b) prior "follow mode" = Ok tt) as ->.
  { unfold validate_prior_tree_size. destruct Hprior as [->| ->]; [done|]. by rewrite Z.eqb_refl. }
  rewrite Hx. by apply publish_exact, (append_tree_repr pre bs (tree_block b x)).
Qed.

(** The events of a block, handled: the server keeps the blocks up to the parent and
    appends the block. *)
Definition block_events (f : FollowState) (b : CompactBlock) (action : ChainAction) : list WitnessChainEvent :=
  match action with
  | Extend => [W_NewBlock (kb_height b) (to_hash_array (kb_hash b)) (extract_commitments b) (fo_prev_tree_size f)]
  | Reorg height =>
      [W_Reorg height; W_NewBlock (kb_height b) (to_hash_array (kb_hash b)) (extract_commitments b) None]
  end.

Lemma block_events_exact pre bs s f b x action kept :
  tree_repr pre bs (sv_tree s) -> extract_commitments b = mho_to_bytes <$> x ->
  zlen (pre ++ window_leaves (kept ++ [tree_block b x])) < 2 ^ TREE_DEPTH ->
  match action with
  | Extend => kept = bs /\ (fo_prev_tree_size f = None \/ fo_prev_tree_size f = Some (tree_size (sv_tree s)))
  | Reorg height => kept = roll_back height bs
  end ->
  exists s', follow_events s (block_events f b action) = Some (Ok s') /\
    tree_repr pre (kept ++ [tree_block b x]) (sv_tree s') /\ live_for (kept ++ [tree_block b x]) s'.
Proof.
  intros Hr Hx Hb Hkept. destruct s as [t app], action as [|height]; cbn [sv_tree block_events follow_events] in *.
  - destruct Hkept as [-> Hsize].
    destruct (append_publish pre bs t app b x (fo_prev_tree_size f)) as (s' & -> & ? & ?); [done..|].
    by exists s'.
  - subst kept. pose proof (rollback_tree_repr _ _ _ height Hr) as Hrb.
    destruct (publish_exact _ _ _ app Hrb) as ([t1 app1] & E1 & Hr1 & _).
    assert (follow_event {| sv_tree := t; sv_app := app |} (W_Reorg height) =
      Some (Ok {| sv_tree := t1; sv_app := app1 |})) as -> by exact E1. cbn [mbind option_bind].
    destruct (append_publish pre (roll_back height bs) t1 app1 b x None) as (s' & -> & ? & ?);
      [done..|by left|]. by exists s'.
Qed.

(** The parent of a linked block, in the chain and in the tracker. *)
Lemma linked_parent pre bs s f b x :
  following pre bs s f -> links pre bs f b x ->
  exists k j t' action, (k <= j < length bs)%nat /\ roll_back (kb_height b - 1) bs = take (S j) bs /\
    tk_chain (fo_tracker f) = entry <$> drop k bs /\
    (exists parent, bs !! j = Some parent /\ tb_height parent = kb_height b - 1) /\
    push_block (fo_tracker f) (kb_height b) (to_hash_array (kb_hash b)) (to_hash_array (kb_prev_hash b)) =
      (action, t') /\
    (action = Extend /\ take (S j) bs = bs \/ action = Reorg (kb_height b - 1)) /\
    exists k', tk_chain t' = entry <$> drop k' (take (S j) bs ++ [tree_block b x]).
Proof.
  intros [Hr [k Hk] Hc Hnd Hsize] [[i Hi] Hfresh Hx Hts Hh Hb].
  pose proof Hi as Hi'. rewrite Hk, list_lookup_fmap, lookup_drop in Hi'.
  destruct (bs !! (k + i)%nat) as [parent|] eqn:Hp; [|done]. cbn in Hi'. injection Hi' as Hph Hphash.
  assert (Hlook : forall a e, (entry <$> drop k bs) !! a = Some e -> (tb_hash <$> bs) !! (k + a)%nat = Some (snd e)).
  { intros a e Ha. rewrite list_lookup_fmap, lookup_drop in Ha. rewrite list_lookup_fmap.
    by destruct (bs !! (k + a)%nat); cbn in *; simplify_eq. }
  destruct (push_block_parent (fo_tracker f) i (kb_height b - 1) (to_hash_array (kb_prev_hash b))
    (kb_height b) (to_hash_array (kb_hash b))) as (action & t' & Epush & Haction & _ & _ & Hnext);
    [rewrite Hk, fmap_drop; by apply consecutive_drop| |done|lia|done|].
  { rewrite Hk. intros a c ha hc y Ha Hc'. apply Hlook in Ha, Hc'. cbn [snd] in *.
    pose proof (NoDup_lookup _ _ _ _ Hnd Ha Hc'). lia. }
  pose proof (lookup_lt_Some _ _ _ Hp) as Hlt.
  exists k, (k + i)%nat, t', action. split_and!; [lia|lia| |done|by exists parent|done| |].
  - rewrite <- Hph. by apply roll_back_take.
  - rewrite Hk, length_fmap, length_drop in Haction. case_bool_decide; [left|by right].
    split; [done|]. apply take_ge. lia.
  - assert (Hn : take (S i) (tk_chain (fo_tracker f)) ++ [(kb_height b, to_hash_array (kb_hash b))] =
      entry <$> drop k (take (S (k + i)) bs ++ [tree_block b x])).
    { rewrite Hk, drop_app_le by (rewrite length_take; lia). rewrite fmap_app, <- fmap_take, take_drop_commute.
      do 4 f_equal. lia. }
    rewrite Hn in Hnext. destruct Hnext as [->|(-> & _)]; [by exists k|]. exists (S k).
    replace (S k) with (k + 1)%nat by lia. rewrite <- drop_drop, !(fmap_drop entry). by destruct (entry <$> _).
Qed.

(** The blocks up to the parent followed by a new one are again a chain. *)
Lemma linked_chain bs b x j parent :
  consecutive (entry <$> bs) -> NoDup (tb_hash <$> bs) -> to_hash_array (kb_hash b) ∉ tb_hash <$> bs ->
  bs !! j = Some parent -> tb_height parent = kb_height b - 1 ->
  consecutive (entry <$> take (S j) bs ++ [tree_block b x]) /\
  NoDup (tb_hash <$> take (S j) bs ++ [tree_block b x]).
Proof.
  intros Hc Hnd Hfresh Hp Hph. split.
  - rewrite (take_S_r _ _ _ Hp), !fmap_app. cbn [fmap list_fmap entry tree_block tb_height tb_hash].
    apply chain_consecutive_snoc; [|cbn [tree_block tb_height]; lia].
    change [(tb_height parent, tb_hash parent)] with (entry <$> [parent]).
    rewrite <- fmap_app, <- (take_S_r _ _ _ Hp), fmap_take. by apply consecutive_take.
  - rewrite fmap_app, fmap_take. rewrite <- (take_drop (S j) (tb_hash <$> bs)) in Hnd, Hfresh.
    apply NoDup_app in Hnd as [Hnd _]. apply NoDup_app. split_and!; [done| |apply NoDup_singleton].
    intros y Hy ->%list_elem_of_singleton. apply Hfresh, elem_of_app. by left.
Qed.

Lemma follow_block_exact pre bs s f b x :
  following pre bs s f -> links pre bs f b x ->
  exists s', follow_events s (fst (follow_block f b)) = Some (Ok s') /\
    following pre (chain_with bs (tree_block b x)) s' (snd (follow_block f b)) /\
    live_for (chain_with bs (tree_block b x)) s'.
Proof.
  intros Hf Hl. destruct (linked_parent _ _ _ _ _ _ Hf Hl)
    as (k & j & t' & action & Hj & Hroll & Hk & (parent & Hp & Hph) & Epush & Haction & Hchain).
  destruct Hf as [Hr _ Hc Hnd Hsize], Hl as [_ Hfresh Hx Hts Hh Hb].
  unfold chain_with in *. cbn [tb_height tree_block] in *. rewrite Hroll in *.
  destruct (block_events_exact pre bs s f b x action (take (S j) bs)) as (s' & Hev & Hr' & Hlive); [done..| |].
  { destruct Haction as [[-> E]| ->]; [by rewrite E|done]. }
  exists s'. unfold follow_block. rewrite Epush. cbn [fst snd]. split_and!; [exact Hev| |exact Hlive].
  destruct (linked_chain bs b x j parent Hc Hnd Hfresh Hp Hph) as [Hc' Hnd'].
  constructor; cbn [fo_tracker fo_prev_tree_size]; [done|done|done|done|].
  unfold ironwood_tree_size. rewrite Hts, (repr_tree_size _ _ _ Hr'). destruct (0 <? _); [by right|by left].
Qed.

(** The blocks of a poll, each linked to what the tracker then holds. *)
Fixpoint all_linked (pre : list mho) (bs : list TreeBlock) (f : FollowState) (blocks : list (CompactBlock * list mho)) : Prop :=
  match blocks with
  | [] => True
  | (b, x) :: blocks =>
      links pre bs f b x /\ all_linked pre (chain_with bs (tree_block b x)) (snd (follow_block f b)) blocks
  end.

Definition chain_after (bs : list TreeBlock) (blocks : list (CompactBlock * list mho)) : list TreeBlock :=
  foldl (fun bs '(b, x) => chain_with bs (tree_block b x)) bs blocks.

Lemma follow_events_app s xs ys :
  follow_events s (xs ++ ys) =
  (r ← follow_events s xs; match r with Err e => Some (Err e) | Ok s => follow_events s ys end).
Proof.
  revert s. induction xs as [|e xs IH]; intros s; cbn [app follow_events]; [done|].
  destruct (follow_event s e) as [[s'|er]|]; cbn [mbind option_bind]; [apply IH|done|done].
Qed.

Lemma follow_blocks_exact pre blocks : forall bs s f,
  following pre bs s f -> live_for bs s -> all_linked pre bs f blocks ->
  exists s', follow_events s (fst (follow_blocks f (fst <$> blocks))) = Some (Ok s') /\
    following pre (chain_after bs blocks) s' (snd (follow_blocks f (fst <$> blocks))) /\
    live_for (chain_after bs blocks) s'.
Proof.
  induction blocks as [|[b x] blocks IH]; intros bs s f Hf Hlive Hl.
  - by exists s.
  - destruct Hl as [Hl Hrest]. destruct (follow_block_exact _ _ _ _ _ _ Hf Hl) as (s1 & Hev & Hf1 & Hl1).
    destruct (IH _ _ _ Hf1 Hl1 Hrest) as (s' & Hev' & Hf' & Hl'). exists s'.
    rewrite fmap_cons. cbn [fst follow_blocks]. destruct (follow_block f b) as [e1 f1]. cbn [fst snd] in *.
    destruct (follow_blocks f1 (fst <$> blocks)) as [e2 f2]. cbn [fst snd] in *.
    rewrite follow_events_app, Hev. cbn [mbind option_bind]. by split_and!.
Qed.

Section polls.
Context {M : Type} `{Lwd M}.


(** A replaced tip is lost after a restart.  A server that has just started
    to follow knows only the block it stands on, at height [h].  When the node
    has replaced that block, the poll fetches only the blocks above [h]: the
    server removes its block [h], appends block [h + 1] without the one between,
    and serves that tree; if the replacing block had commitments, the next block
    ends the server with a size mismatch. *)
Theorem replaced_tip_is_lost n n' n'' pre bs s f old b next x y :
  let h := tb_height old in
  following pre (bs ++ [old]) s f -> tk_chain (fo_tracker f) = [entry old] ->
  fo_current_height f = h -> 0 < h < u64_bound - 2 -> lw_latest_block n = (Ok (h + 2), n') ->
  lw_block_range (h + 1) (h + 2) n' = (Ok [b; next], n'') ->
  kb_height b = h + 1 -> kb_height next = h + 2 ->
  to_hash_array (kb_prev_hash b) <> tb_hash old -> to_hash_array (kb_prev_hash next) = to_hash_array (kb_hash b) ->
  extract_commitments b = mho_to_bytes <$> x ->
  zlen (pre ++ window_leaves (roll_back (h - 1) (bs ++ [old]) ++ [tree_block b x])) < 2 ^ TREE_DEPTH ->
  kb_tree_size b = Some y -> 0 < y ->
  y <> zlen (pre ++ window_leaves (roll_back (h - 1) (bs ++ [old]) ++ [tree_block b x])) ->
  exists reorg append rest f' s1, follow_pass f n = (Ok ([reorg; append] ++ rest), f', n'') /\
    follow_events s [reorg; append] = Some (Ok s1) /\
    tree_root (sv_tree s1) =
      Some (merkle_root (pre ++ window_leaves (roll_back (h - 1) (bs ++ [old]) ++ [tree_block b x]))) /\
    live_for (roll_back (h - 1) (bs ++ [old]) ++ [tree_block b x]) s1 /\
    follow_events s ([reorg; append] ++ rest) =
      Some (Err (SE_TreeSizeMismatch "follow mode" (h + 2) y (tree_size (sv_tree s1)))).
Proof.
  intros h Hf Hk Hcur Hh Hn Hrange Hhb Hhn Hprev Hlink Hx Hb Hy Hpos Hne.
  set (kept := roll_back (h - 1) (bs ++ [old])) in *. destruct Hf as [Hr _ _ _ _].
  destruct (block_events_exact pre _ s f b x (Reorg (h - 1)) kept Hr Hx Hb eq_refl) as (s1 & Hev & Hr1 & Hl1).
  assert (Hpush : push_block (fo_tracker f) (kb_height b) (to_hash_array (kb_hash b))
    (to_hash_array (kb_prev_hash b)) = (Reorg (h - 1), {| tk_chain := [(h + 1, to_hash_array (kb_hash b))];
      tk_max_depth := tk_max_depth (fo_tracker f) |})).
  { unfold push_block, find_fork_point, truncate_to. rewrite Hk, Hhb. cbn [last entry].
    rewrite bool_decide_false by done. cbn [andb reverse rev_append search_hash].
    change (reverse [entry old]) with [entry old]. cbn [search_hash entry].
    rewrite bool_decide_false by (intros E; apply Hprev; by rewrite E). cbn [head pop_back_above].
    fold h. unfold saturating_sub. change (entry old) with (h, tb_hash old). cbv beta iota. rewrite Z.max_r by lia. rewrite (proj2 (Z.ltb_lt _ _)) by lia. done. }
  unfold follow_pass. rewrite Hn, Hcur. guards. rewrite wrap64_small, Hrange by (unfold u64_bound in *; lia).
  cbn [follow_blocks]. unfold follow_block at 1. rewrite Hpush. unfold follow_block, push_block.
  cbn [fo_tracker tk_chain last tk_max_depth fo_prev_tree_size].
  rewrite Hlink, Hhn, bool_decide_true, wrap64_small by (done || (unfold u64_bound in *; lia)).
  replace (h + 2 =? h + 1 + 1) with true by lia. cbn [andb app].
  do 5 eexists. split_and!; [reflexivity|exact Hev|by apply tree_root_merkle|exact Hl1|].
  etransitivity; [exact (follow_events_app s (block_events f b (Reorg (h - 1))) _)|].
  rewrite Hev. cbn [mbind option_bind follow_events]. unfold follow_event, append_checked, validate_prior_tree_size.
  unfold ironwood_tree_size. rewrite Hy, (proj2 (Z.ltb_lt _ _)) by lia. rewrite (repr_tree_size _ _ _ Hr1).
  rewrite (proj2 (Z.eqb_neq _ _)) by (intros E; by apply Hne). reflexivity.
Qed.

End polls.

End follow_proof.

(** ** Examples *)

#[local] Existing Instance parity_hash.
#[local] Existing Instance parity_laws.
#[local] Existing Instance plain_engine.

(** A node with a fixed chain from height [first]. *)
Definition fixed_node (first : Z) (blocks : list CompactBlock) (roots : list SubtreeRoot) : Lwd unit := {|
  lw_latest_block n := (Ok (first + zlen blocks - 1), n);
  lw_block_range from to n :=
    (Ok (take (Z.to_nat (to - from + 1)) (drop (Z.to_nat (from - first)) blocks)), n);
  lw_subtree_roots n := (Ok roots, n) |}.

Definition action_of (x : mho) : CompactAction :=
  {| ca_nullifier := replicate 32 0; ca_cmx := mho_to_bytes x; ca_ephemeral_key := replicate 32 0;
     ca_ciphertext := replicate 52 0 |}.
Definition block_of (height : Z) (tag prev : Z) (xs : list mho) (size : Z) : CompactBlock :=
  {| kb_height := height; kb_hash := replicate 32 tag; kb_prev_hash := replicate 32 prev;
     kb_vtx := [{| ctx_ironwood_actions := action_of <$> xs |}]; kb_tree_size := Some size |}.

Lemma block_of_leaves height tag prev xs size :
  extract_commitments (block_of height tag prev xs size) = mho_to_bytes <$> xs.
Proof.
  unfold extract_commitments, block_of. cbn [kb_vtx]. rewrite fmap_cons, concat_cons. cbn [ctx_ironwood_actions].
  change (concat (_ <$> [])) with (@nil Hash). rewrite app_nil_r.
  induction xs as [|x xs IH]; [done|].
  transitivity (mho_to_bytes x :: (mho_to_bytes <$> xs)); [|done]. rewrite <- IH. by destruct x.
Qed.

(** Two blocks, the first of which completes the first shard. *)
Definition straddling_blocks (x y : list mho) : list CompactBlock :=
  [block_of 1 1 0 x (zlen x); block_of 2 2 1 y (zlen (x ++ y))].
Definition first_root (root : Hash) : list SubtreeRoot :=
  [{| sr_root_hash := root; sr_completing_block_height := 1 |}].

Lemma straddling_chain x y root :
  zlen (x ++ y) < 2 ^ TREE_DEPTH ->
  @chain_of parity_hash unit (fixed_node 1 (straddling_blocks x y) (first_root root)) tt 1
    (straddling_blocks x y) [x; y].
Proof.
  intros Hb. constructor.
  - split; [|done]. intros i b Hi. by do 2 (destruct i as [|i]; [by injection Hi as <-|]).
  - done.
  - done.
  - done.
  - intros i b z Hi Hz. do 2 (destruct i as [|i];
      [injection Hi as <-; injection Hz as <-; apply block_of_leaves|]). done.
  - intros i b Hi. destruct i as [|[|i]]; [| |done]; injection Hi as <-; cbn [block_of kb_tree_size take concat];
      by rewrite ?app_nil_r.
  - cbn [concat]. by rewrite app_nil_r.
Qed.

Lemma straddling_roots x y root :
  root = mho_to_bytes (node (leaf_at (x ++ y)) 16 0) ->
  SHARD_LEAVES <= zlen x -> zlen (x ++ y) < 2 * SHARD_LEAVES ->
  @subtrees_of parity_hash unit (fixed_node 1 (straddling_blocks x y) (first_root root)) tt 1 [x; y] (first_root root).
Proof.
  intros Hroot Hx Hy. pose proof (zlen_nonneg y). constructor.
  - done.
  - cbn [concat]. rewrite app_nil_r. change (zlen (first_root root)) with 1. rewrite zlen_app in *.
    apply Z.div_unique with (r := zlen x + zlen y - SHARD_LEAVES); lia.
  - intros [|k] r Hr; [|done]. injection Hr as <-. cbn [sr_root_hash concat]. rewrite app_nil_r. exact Hroot.
  - intros [|k] r Hr; [|done]. injection Hr as <-. exists 0%nat, x. cbn [take concat]. rewrite app_nil_r.
    split; [done|]. split; [done|]. change (Z.of_nat 0 + 1) with 1. rewrite Z.mul_1_l. split; [done|exact Hx].
Qed.

Lemma bootstrap_exact_witness :
  let x : list mho := replicate (Z.to_nat 65537) true in let y : list mho := [true; false] in
  let root := mho_to_bytes (node (leaf_at (x ++ y)) 16 0) in
  exists t, @bootstrap parity_hash unit (fixed_node 1 (straddling_blocks x y) (first_root root)) None None 2 1 tt =
      (Ok t, tt) /\
    tree_size t = 65539 /\ tree_root t = Some (merkle_root (x ++ y)) /\ zlen (ct_leaves t) <= SHARD_LEAVES.
Proof.
  intros x y root. assert (Hroot : root = mho_to_bytes (node (leaf_at (x ++ y)) 16 0)) by reflexivity.
  clearbody root. assert (Hx : zlen x = 65537) by (unfold x, zlen; rewrite length_replicate; lia).
  assert (Hxy : zlen (x ++ y) = 65539) by (by rewrite zlen_app, Hx). clearbody x.
  destruct (@bootstrap_exact parity_hash parity_laws unit
    (fixed_node 1 (straddling_blocks x y) (first_root root)) tt None 1 1 (straddling_blocks x y) [x; y]
    (first_root root) None) as (t & Hb & Hs & Hr & Hw).
  - apply straddling_chain. by rewrite Hxy.
  - apply straddling_roots; [exact Hroot|by rewrite Hx|by rewrite Hxy].
  - exact I.
  - reflexivity.
  - exists t. cbn [concat] in Hs, Hr. rewrite app_nil_r in Hs, Hr. rewrite Hxy in Hs.
    split; [exact Hb|]. split; [exact Hs|]. split; [exact Hr|]. exact (Hw eq_refl).
Defined.

(** A server that stands on block 10 with two commitments. *)
Definition start_block : TreeBlock := tree_block (block_of 10 10 9 [true; false] 2) [true; false].
Definition start_follow : FollowState := follow_start 10 (replicate 32 10) (Some 2).

Lemma plain_ready db scenario : exists st, pe_setup db scenario = Ok st.
Proof. by eexists. Qed.

Lemma start_following : exists s, following [] [start_block] s start_follow /\ live_for [start_block] s.
Proof.
  assert (Hr : tree_repr [] [start_block] (append_commitments (CommitmentTreeDb_with_offset 0
    (nodes (leaf_at []) 16 0 0)) 10 (replicate 32 10) (mho_to_bytes <$> tb_commitments start_block))).
  { apply (append_tree_repr [] [] start_block); [by apply (new_repr [])|done]. }
  destruct (publish_exact plain_ready [] [start_block] _ AppState_new Hr) as (s & _ & Hr' & Hl).
  exists s. split; [|done]. constructor; [done|by exists 0%nat| | |].
  - intros i h z h' z' Hi Hi'. by destruct i.
  - apply NoDup_singleton.
  - right. by rewrite (repr_tree_size _ _ _ Hr').
Qed.

(** Block 11, on block 10; and a block 11 and 12 on another block 10. *)
Definition next_block : CompactBlock := block_of 11 11 10 [true] 3.
Definition other_11 : CompactBlock := block_of 11 21 20 [true] 9.
Definition other_12 : CompactBlock := block_of 12 22 21 [] 9.


Lemma replaced_tip_is_lost_witness :
  exists reorg append rest f' s s1,
    @follow_pass unit (fixed_node 10 [next_block; other_11; other_12] []) start_follow tt =
      (Ok ([reorg; append] ++ rest), f', tt) /\
    follow_events s [reorg; append] = Some (Ok s1) /\ tree_root (sv_tree s1) = Some (merkle_root [true]) /\
    follow_events s ([reorg; append] ++ rest) =
      Some (Err (SE_TreeSizeMismatch "follow mode" 12 9 (tree_size (sv_tree s1)))).
Proof.
  destruct start_following as (s & Hf & Hl).
  destruct (@replaced_tip_is_lost parity_hash parity_laws plain_engine plain_ready unit
    (fixed_node 10 [next_block; other_11; other_12] []) tt tt tt [] [] s start_follow start_block
    other_11 other_12 [true] 9) as (reorg & append & rest & f' & s1 & H1 & H2 & H3 & _ & H5).
  - exact Hf.
  - reflexivity.
  - reflexivity.
  - split; reflexivity.
  - reflexivity.
  - reflexivity.
  - reflexivity.
  - reflexivity.
  - discriminate.
  - reflexivity.
  - apply block_of_leaves.
  - reflexivity.
  - reflexivity.
  - reflexivity.
  - discriminate.
  - exists reorg, append, rest, f', s, s1. split; [exact H1|]. split; [exact H2|]. split; [exact H3|exact H5].
Defined.
