(* ===== verification/NullifierTable.v ===== *)
(** * The nullifier table of the spendability demonstration

    Models [demos/legacy-spendability/nullifier/hashtable-pir/src/lib.rs] (the
    bucketed table with its per-block slots), the entries and constants of
    [nullifier/spend-types/src/lib.rs], the scan of a decoded row in
    [nullifier/spend-client/src/lib.rs], and what [nullifier/spend-server/src/server.rs]
    does with the events of the chain.  An operation that fails half-way leaves the
    table changed, so operations return the table next to their result.  The
    [BTreeMap] of block records and the [HashMap] of hashes are finite maps.  The
    theorems: over any inserts, rollbacks and evictions the table holds exactly the
    nullifiers of the remaining blocks, an insert fails only for a full bucket,
    eviction ends at the target and drops only the oldest blocks, and the client's
    scan of a row finds an entry exactly when the table holds the nullifier; and a
    reorganisation leaves the nullifiers of the orphaned block in the table. *)

From Stdlib Require Import ZArith Lia.
From stdpp Require Import base numbers list strings gmap sorting.
From S2P Require Import Prelude EnhanceTypes RecordJournal CommitmentTree ChainFollow.

Open Scope Z_scope.

Definition TARGET_SIZE : Z := 1000000.
Definition NUM_BUCKETS : Z := 16384.
Definition BUCKET_CAPACITY : Z := 112.
Definition ENTRY_BYTES : Z := 41.
Definition BUCKET_BYTES : Z := BUCKET_CAPACITY * ENTRY_BYTES.
Definition DB_BYTES : Z := NUM_BUCKETS * BUCKET_BYTES.

Definition hash_to_bucket (nf : Hash) : Z := le_val (take 4 nf) mod NUM_BUCKETS.

Record NullifierEntry := {
  ne_nullifier : Hash; ne_spend_height : Z; ne_first_output_position : Z; ne_action_count : Z }.

Definition zero_nullifier : Hash := replicate 32 0.
Definition NullifierEntry_ZERO : NullifierEntry :=
  {| ne_nullifier := zero_nullifier; ne_spend_height := 0; ne_first_output_position := 0; ne_action_count := 0 |}.
Definition entry_is_empty (e : NullifierEntry) : bool := bool_decide (ne_nullifier e = zero_nullifier).

Definition entry_to_bytes (e : NullifierEntry) : list Z :=
  ne_nullifier e ++ le_bytes 4 (ne_spend_height e) ++ le_bytes 4 (ne_first_output_position e) ++
  [ne_action_count e].

Definition entry_from_bytes (buf : list Z) : NullifierEntry :=
  {| ne_nullifier := take 32 buf; ne_spend_height := le_val (take 4 (drop 32 buf));
     ne_first_output_position := le_val (take 4 (drop 36 buf));
     ne_action_count := default 0 (buf !! 40%nat) |}.

Record SpendMetadata := { sm_spend_height : Z; sm_first_output_position : Z; sm_action_count : Z }.

Definition from_entry_tail (buf : list Z) : SpendMetadata :=
  {| sm_spend_height := le_val (take 4 buf); sm_first_output_position := le_val (take 4 (drop 4 buf));
     sm_action_count := default 0 (buf !! 8%nat) |}.

(** ** Buckets *)

Inductive HashTableError :=
| BucketOverflow (bucket_idx : Z)
| BlockNotFound
| HT_Snapshot (reason : string).

Record Bucket := { bu_entries : list NullifierEntry; bu_count : Z }.

Definition Bucket_new : Bucket :=
  {| bu_entries := replicate (Z.to_nat BUCKET_CAPACITY) NullifierEntry_ZERO; bu_count := 0 |}.

Definition Bucket_remove (b : Bucket) (slot : Z) : Bucket :=
  {| bu_entries := <[Z.to_nat slot := NullifierEntry_ZERO]> (bu_entries b); bu_count := bu_count b |}.

Fixpoint first_empty (entries : list NullifierEntry) (i : Z) : option Z :=
  match entries with
  | [] => None
  | e :: entries => if entry_is_empty e then Some i else first_empty entries (i + 1)
  end.
Definition find_free_slot (b : Bucket) : option Z := first_empty (bu_entries b) 0.

Definition Bucket_contains (b : Bucket) (nf : Hash) : bool :=
  existsb (fun e => bool_decide (ne_nullifier e = nf)) (bu_entries b).

(** ** The table *)

Record NfBlockRecord := { nr_block_hash : Hash; nr_slots : list (Z * Z) }.

Record HashTableDb := {
  ht_buckets : list Bucket;
  ht_block_index : gmap Z NfBlockRecord;
  ht_block_hash_to_height : gmap Hash Z;
  ht_num_entries : Z }.

Definition HashTableDb_new : HashTableDb :=
  {| ht_buckets := replicate (Z.to_nat NUM_BUCKETS) Bucket_new; ht_block_index := ∅;
     ht_block_hash_to_height := ∅; ht_num_entries := 0 |}.

Definition with_buckets (db : HashTableDb) (buckets : list Bucket) (num_entries : Z) : HashTableDb :=
  {| ht_buckets := buckets; ht_block_index := ht_block_index db;
     ht_block_hash_to_height := ht_block_hash_to_height db; ht_num_entries := num_entries |}.

(** Writing an entry at a slot of a bucket. *)
Definition put_entry (b : Bucket) (slot : Z) (e : NullifierEntry) : Bucket :=
  {| bu_entries := <[Z.to_nat slot := e]> (bu_entries b);
     bu_count := if bu_count b <=? slot then slot + 1 else bu_count b |}.

(** The loop of [insert_block]: the slots taken so far and the table. *)
Fixpoint insert_nullifiers (db : HashTableDb) (spend_height : Z) (nullifiers : list NullifierWithMeta)
    (slots : list (Z * Z)) : result HashTableError (list (Z * Z)) * HashTableDb :=
  match nullifiers with
  | [] => (Ok slots, db)
  | nwm :: nullifiers =>
      let bucket_idx := hash_to_bucket (nm_nullifier nwm) in
      let bucket := default Bucket_new (ht_buckets db !! Z.to_nat bucket_idx) in
      match find_free_slot bucket with
      | None => (Err (BucketOverflow bucket_idx), db)
      | Some slot =>
          let e := {| ne_nullifier := nm_nullifier nwm; ne_spend_height := spend_height;
                      ne_first_output_position := nm_first_output_position nwm;
                      ne_action_count := nm_action_count nwm |} in
          let db := with_buckets db (<[Z.to_nat bucket_idx := put_entry bucket slot e]> (ht_buckets db))
            (wrap64 (ht_num_entries db + 1)) in
          insert_nullifiers db spend_height nullifiers (slots ++ [(bucket_idx, slot)])
      end
  end.

Definition insert_block (db : HashTableDb) (height : Z) (block_hash : Hash)
    (nullifiers : list NullifierWithMeta) : result HashTableError unit * HashTableDb :=
  match insert_nullifiers db (wrap32 height) nullifiers [] with
  | (Err e, db) => (Err e, db)
  | (Ok slots, db) =>
      (Ok tt,
       {| ht_buckets := ht_buckets db;
          ht_block_index := <[height := {| nr_block_hash := block_hash; nr_slots := slots |}]> (ht_block_index db);
          ht_block_hash_to_height := <[block_hash := height]> (ht_block_hash_to_height db);
          ht_num_entries := ht_num_entries db |})
  end.

(** [for (bucket_idx, slot_idx) in &record.slots { buckets[..].remove(..) }]. *)
Definition clear_slot (buckets : list Bucket) (slot : Z * Z) : list Bucket :=
  alter (fun b => Bucket_remove b (snd slot)) (Z.to_nat (fst slot)) buckets.
Definition clear_slots (buckets : list Bucket) (slots : list (Z * Z)) : list Bucket :=
  foldl clear_slot buckets slots.

Definition rollback_block (db : HashTableDb) (block_hash : Hash) : result HashTableError unit * HashTableDb :=
  match ht_block_hash_to_height db !! block_hash with
  | None => (Err BlockNotFound, db)
  | Some height =>
      let hashes := delete block_hash (ht_block_hash_to_height db) in
      match ht_block_index db !! height with
      | None =>
          (Err BlockNotFound,
           {| ht_buckets := ht_buckets db; ht_block_index := ht_block_index db;
              ht_block_hash_to_height := hashes; ht_num_entries := ht_num_entries db |})
      | Some record =>
          (Ok tt,
           {| ht_buckets := clear_slots (ht_buckets db) (nr_slots record);
              ht_block_index := delete height (ht_block_index db); ht_block_hash_to_height := hashes;
              ht_num_entries := wrap64 (ht_num_entries db - zlen (nr_slots record)) |})
      end
  end.

(** The first key of a [BTreeMap]. *)
Definition least (keys : list Z) : option Z :=
  foldr (fun k acc => Some (match acc with Some m => Z.min k m | None => k end)) None keys.
Definition greatest (keys : list Z) : option Z :=
  foldr (fun k acc => Some (match acc with Some m => Z.max k m | None => k end)) None keys.

Definition earliest_height (db : HashTableDb) : option Z := least (elements (dom (ht_block_index db))).
Definition nf_latest_height (db : HashTableDb) : option Z := greatest (elements (dom (ht_block_index db))).
Definition nf_latest_block_hash (db : HashTableDb) : option Hash :=
  h ← nf_latest_height db; nr_block_hash <$> ht_block_index db !! h.

Definition evict_oldest_block (db : HashTableDb) : option (Z * HashTableDb) :=
  oldest_height ← earliest_height db;
  record ← ht_block_index db !! oldest_height;
  Some (oldest_height,
    {| ht_buckets := clear_slots (ht_buckets db) (nr_slots record);
       ht_block_index := delete oldest_height (ht_block_index db);
       ht_block_hash_to_height := delete (nr_block_hash record) (ht_block_hash_to_height db);
       ht_num_entries := wrap64 (ht_num_entries db - zlen (nr_slots record)) |}).

(** Each step removes a block, so the number of blocks is fuel enough. *)
Fixpoint evict_loop (fuel : nat) (db : HashTableDb) : HashTableDb :=
  match fuel with
  | O => db
  | S fuel =>
      if TARGET_SIZE <? ht_num_entries db then
        match evict_oldest_block db with
        | Some (_, db) => evict_loop fuel db
        | None => db
        end
      else db
  end.
Definition evict_to_target (db : HashTableDb) : HashTableDb := evict_loop (S (size (ht_block_index db))) db.

Definition contains (db : HashTableDb) (nf : Hash) : bool :=
  match ht_buckets db !! Z.to_nat (hash_to_bucket nf) with
  | Some b => Bucket_contains b nf
  | None => false
  end.

Definition bucket_bytes (b : Bucket) : list Z := concat (entry_to_bytes <$> bu_entries b).
Definition to_pir_bytes (db : HashTableDb) : list Z := concat (bucket_bytes <$> ht_buckets db).

(** ** The client's scan *)

(** [chunks_exact(ENTRY_BYTES).find(..).map(..)]; an incomplete last chunk is not
    looked at. *)
Definition scan_bucket_for_nf (decoded_row : list Z) (nf : Hash) : option SpendMetadata :=
  let bucket_data :=
    if BUCKET_BYTES <=? zlen decoded_row then take (Z.to_nat BUCKET_BYTES) decoded_row else decoded_row in
  (fun entry => from_entry_tail (drop 32 entry)) <$>
    find (fun entry => bool_decide (take 32 entry = nf))
      (chunks_exact (length bucket_data) (Z.to_nat ENTRY_BYTES) bucket_data).

(** ** The server's events *)

(** The orphaned blocks in reverse; a failure is logged and skipped. *)
Definition rollback_orphaned (db : HashTableDb) (orphaned : list OrphanedBlock) : HashTableDb :=
  foldl (fun db block => snd (rollback_block db (ob_hash block))) db (reverse orphaned).

Fixpoint insert_new_blocks (db : HashTableDb) (new_blocks : list NewBlock) :
    result HashTableError unit * HashTableDb :=
  match new_blocks with
  | [] => (Ok tt, db)
  | b :: new_blocks =>
      match insert_block db (nb_height b) (nb_hash b) (nb_nullifiers b) with
      | (Err e, db) => (Err e, db)
      | (Ok _, db) => insert_new_blocks db new_blocks
      end
  end.

Definition nf_follow_event (db : HashTableDb) (event : ChainEvent) : result HashTableError unit * HashTableDb :=
  let inserted :=
    match event with
    | N_NewBlock b => insert_block db (nb_height b) (nb_hash b) (nb_nullifiers b)
    | N_Reorg orphaned new_blocks => insert_new_blocks (rollback_orphaned db orphaned) new_blocks
    end in
  match inserted with
  | (Err e, db) => (Err e, db)
  | (Ok _, db) => (Ok tt, evict_to_target db)
  end.

(** ** Slots *)

Definition in_table (s : Z * Z) : Prop := 0 <= fst s < NUM_BUCKETS /\ 0 <= snd s < BUCKET_CAPACITY.

Definition slot_at (buckets : list Bucket) (s : Z * Z) : option NullifierEntry :=
  b ← buckets !! Z.to_nat (fst s); bu_entries b !! Z.to_nat (snd s).

(** An entry whose fields have their widths. *)
Record entry_wf (e : NullifierEntry) : Prop := {
  ew_nullifier : length (ne_nullifier e) = 32%nat;
  ew_bytes : bytes_ok (ne_nullifier e);
  ew_height : 0 <= ne_spend_height e < 2 ^ 32;
  ew_position : 0 <= ne_first_output_position e < 2 ^ 32;
  ew_count : 0 <= ne_action_count e < 256 }.

(** The buckets hold exactly the entries [F], each in the bucket of its nullifier. *)
Record holds (buckets : list Bucket) (F : gmap (Z * Z) NullifierEntry) : Prop := {
  ho_len : zlen buckets = NUM_BUCKETS;
  ho_cap i b : buckets !! i = Some b -> zlen (bu_entries b) = BUCKET_CAPACITY;
  ho_slot s : in_table s -> slot_at buckets s = Some (default NullifierEntry_ZERO (F !! s));
  ho_entry s e : F !! s = Some e ->
    in_table s /\ entry_is_empty e = false /\ fst s = hash_to_bucket (ne_nullifier e) /\ entry_wf e }.

Lemma hash_to_bucket_range nf : 0 <= hash_to_bucket nf < NUM_BUCKETS.
Proof. unfold hash_to_bucket. by apply Z.mod_pos_bound. Qed.

Lemma holds_new : holds (ht_buckets HashTableDb_new) ∅.
Proof.
  cbn [ht_buckets HashTableDb_new]. constructor.
  - unfold zlen. rewrite length_replicate. done.
  - intros i b [-> _]%lookup_replicate. unfold zlen. cbn [bu_entries Bucket_new]. by rewrite length_replicate.
  - intros s [H1 H2]. unfold slot_at. rewrite lookup_replicate_2 by lia. cbn [mbind option_bind bu_entries Bucket_new].
    rewrite lookup_replicate_2 by lia. by rewrite lookup_empty.
  - intros s e. by rewrite lookup_empty.
Qed.

(** Two slots of the table are the same place only when they are equal. *)
Lemma slot_nat s t :
  in_table s -> in_table t ->
  Z.to_nat (fst s) = Z.to_nat (fst t) -> Z.to_nat (snd s) = Z.to_nat (snd t) -> s = t.
Proof. intros [] [] ? ?. destruct s, t; cbn [fst snd] in *. f_equal; lia. Qed.

(** Writing one slot. *)
Definition write_slot (buckets : list Bucket) (s : Z * Z) (e : NullifierEntry) (f : Bucket -> Z) : list Bucket :=
  alter (fun b => {| bu_entries := <[Z.to_nat (snd s) := e]> (bu_entries b); bu_count := f b |})
    (Z.to_nat (fst s)) buckets.

Lemma write_slot_at buckets s e f t :
  in_table s -> in_table t -> zlen buckets = NUM_BUCKETS ->
  (forall i b, buckets !! i = Some b -> zlen (bu_entries b) = BUCKET_CAPACITY) ->
  slot_at (write_slot buckets s e f) t = if decide (s = t) then Some e else slot_at buckets t.
Proof.
  intros Hs Ht Hlen Hcap. unfold slot_at, write_slot.
  destruct (decide (Z.to_nat (fst s) = Z.to_nat (fst t))) as [Hb|Hb].
  - rewrite Hb, list_lookup_alter_eq.
    destruct (lookup_lt_is_Some_2 buckets (Z.to_nat (fst t))) as [b Hbk].
    { destruct Ht. unfold zlen in Hlen. lia. }
    rewrite Hbk. cbn [fmap option_fmap option_map]. cbn [mbind option_bind bu_entries].
    destruct (decide (Z.to_nat (snd s) = Z.to_nat (snd t))) as [Hi|Hi].
    + rewrite (slot_nat s t) by done. cbn [mbind option_bind bu_entries]. rewrite decide_True by done.
      rewrite list_lookup_insert_eq; [done|].
      pose proof (Hcap _ _ Hbk). destruct Ht. unfold zlen in *. lia.
    + cbn [mbind option_bind bu_entries]. rewrite list_lookup_insert_ne by done. by rewrite decide_False by (intros ->; done).
  - rewrite list_lookup_alter_ne by done. by rewrite decide_False by (intros ->; done).
Qed.

Lemma write_slot_shape buckets s e f :
  zlen (write_slot buckets s e f) = zlen buckets /\
  ((forall i b, buckets !! i = Some b -> zlen (bu_entries b) = BUCKET_CAPACITY) ->
   forall i b, write_slot buckets s e f !! i = Some b -> zlen (bu_entries b) = BUCKET_CAPACITY).
Proof.
  unfold write_slot. split; [unfold zlen; by rewrite length_alter|]. intros Hcap i b Hi.
  destruct (decide (Z.to_nat (fst s) = i)) as [<-|Hne].
  - rewrite list_lookup_alter_eq in Hi. apply fmap_Some in Hi as (b' & Hb' & ->). cbn [bu_entries].
    unfold zlen. rewrite length_insert. by eapply Hcap.
  - rewrite list_lookup_alter_ne in Hi by done. by eapply Hcap.
Qed.

Lemma holds_put buckets F s e f :
  holds buckets F -> in_table s -> entry_is_empty e = false -> fst s = hash_to_bucket (ne_nullifier e) -> entry_wf e ->
  holds (write_slot buckets s e f) (<[s := e]> F).
Proof.
  intros [Hl Hc Hs He] Hin Hne Hb Hwf. destruct (write_slot_shape buckets s e f) as [Hl' Hc'].
  constructor; [by rewrite Hl'|by apply Hc'| |].
  - intros t Ht. rewrite write_slot_at by done. case_decide as E; subst.
    + by rewrite lookup_insert_eq.
    + rewrite lookup_insert_ne by done. by apply Hs.
  - intros t e'. rewrite lookup_insert_Some. intros [[<- <-]|[_ H']]; [done|by apply He].
Qed.

Lemma holds_clear buckets F s : holds buckets F -> in_table s -> holds (clear_slot buckets s) (delete s F).
Proof.
  intros [Hl Hc Hs He] Hin.
  change (clear_slot buckets s) with (write_slot buckets s NullifierEntry_ZERO bu_count).
  destruct (write_slot_shape buckets s NullifierEntry_ZERO bu_count) as [Hl' Hc'].
  constructor; [by rewrite Hl'|by apply Hc'| |].
  - intros t Ht. rewrite write_slot_at by done. case_decide as E; subst.
    + by rewrite lookup_delete_eq.
    + rewrite lookup_delete_ne by done. by apply Hs.
  - intros t e'. rewrite lookup_delete_Some. intros [_ H']. by apply He.
Qed.

Lemma holds_clear_slots slots : forall buckets F,
  holds buckets F -> Forall in_table slots ->
  holds (clear_slots buckets slots) (foldl (fun F s => delete s F) F slots).
Proof.
  induction slots as [|s slots IH]; intros buckets F Hh Hs; [done|].
  apply Forall_cons in Hs as [Hin Hs]. apply IH; [by apply holds_clear|done].
Qed.

Lemma lookup_foldl_delete (slots : list (Z * Z)) : forall (F : gmap (Z * Z) NullifierEntry) t e,
  foldl (fun F s => delete s F) F slots !! t = Some e <-> F !! t = Some e /\ t ∉ slots.
Proof.
  induction slots as [|s slots IH]; intros F t e; cbn [foldl].
  - pose proof (not_elem_of_nil t). tauto.
  - rewrite IH, lookup_delete_Some, not_elem_of_cons. split; intros; destruct_and?; by split_and?.
Qed.

Lemma first_empty_Some entries : forall i j, first_empty entries i = Some j ->
  i <= j < i + zlen entries /\ exists e, entries !! Z.to_nat (j - i) = Some e /\ entry_is_empty e = true.
Proof.
  induction entries as [|e entries IH]; intros i j; cbn [first_empty]; [done|].
  autorewrite with zlen. pose proof (zlen_nonneg entries). destruct (entry_is_empty e) eqn:E.
  - intros [= <-]. split; [lia|]. exists e. by rewrite Z.sub_diag.
  - intros (Hj & e' & He & Hem)%IH. split; [lia|]. exists e'. split; [|done].
    by replace (Z.to_nat (j - i)) with (S (Z.to_nat (j - (i + 1)))) by lia.
Qed.

Lemma first_empty_None entries : forall i, first_empty entries i = None -> Forall (fun e => entry_is_empty e = false) entries.
Proof.
  induction entries as [|e entries IH]; intros i; cbn [first_empty]; [done|].
  destruct (entry_is_empty e) eqn:E; [done|]. intros Hn. constructor; [done|by eapply IH].
Qed.

(** The bucket update of [insert_block] writes one slot. *)
Lemma put_is_write buckets bucket_idx slot e b :
  buckets !! Z.to_nat bucket_idx = Some b ->
  <[Z.to_nat bucket_idx := put_entry b slot e]> buckets =
  write_slot buckets (bucket_idx, slot) e (fun b => if bu_count b <=? slot then slot + 1 else bu_count b).
Proof.
  intros Hb. unfold write_slot. rewrite list_insert_alter. apply list_alter_ext; [|done].
  intros b' Hb'. cbn [fst] in Hb'. rewrite Hb in Hb'. by injection Hb' as <-.
Qed.

(** The slot that [insert_block] takes is free. *)
Lemma free_slot buckets F nf b slot :
  holds buckets F -> buckets !! Z.to_nat (hash_to_bucket nf) = Some b -> find_free_slot b = Some slot ->
  in_table (hash_to_bucket nf, slot) /\ F !! (hash_to_bucket nf, slot) = None.
Proof.
  intros Hh Hb Hf. apply first_empty_Some in Hf as (Hr & e & He & Hem). rewrite Z.sub_0_r in He.
  pose proof (hash_to_bucket_range nf). rewrite (ho_cap _ _ Hh _ _ Hb) in Hr.
  assert (Hin : in_table (hash_to_bucket nf, slot)) by (split; cbn [fst snd]; lia).
  split; [done|]. pose proof (ho_slot _ _ Hh _ Hin) as Hs. unfold slot_at in Hs. cbn [fst snd] in Hs.
  rewrite Hb in Hs. cbn [mbind option_bind] in Hs. rewrite He in Hs. injection Hs as ->.
  destruct (F !! _) as [e'|] eqn:E; [|done]. apply (ho_entry _ _ Hh) in E as (_ & E & _). cbn in Hem. congruence.
Qed.

(** A bucket has the nullifier exactly when some slot holds it. *)
Lemma contains_slots buckets F db nf :
  ht_buckets db = buckets -> holds buckets F -> nf <> zero_nullifier ->
  contains db nf = true <-> exists s e, F !! s = Some e /\ ne_nullifier e = nf.
Proof.
  intros Hdb Hh Hnf. unfold contains. rewrite Hdb. pose proof (hash_to_bucket_range nf) as Hr.
  destruct (lookup_lt_is_Some_2 buckets (Z.to_nat (hash_to_bucket nf))) as [b Hb].
  { pose proof (ho_len _ _ Hh). unfold zlen in *. lia. }
  rewrite Hb. unfold Bucket_contains. rewrite existsb_exists. split.
  - intros (e & Hin & He). apply bool_decide_eq_true in He. apply list_elem_of_In, list_elem_of_lookup in Hin as [i Hi].
    pose proof (ho_cap _ _ Hh _ _ Hb) as Hc. pose proof (lookup_lt_Some _ _ _ Hi) as Hlt.
    assert (Hit : in_table (hash_to_bucket nf, Z.of_nat i)) by (split; cbn [fst snd]; unfold zlen in Hc; lia).
    pose proof (ho_slot _ _ Hh _ Hit) as Hs. unfold slot_at in Hs. cbn [fst snd] in Hs.
    rewrite Hb, Nat2Z.id in Hs. cbn [mbind option_bind] in Hs. rewrite Hi in Hs. injection Hs as Hs.
    destruct (F !! (hash_to_bucket nf, Z.of_nat i)) as [e'|] eqn:E; cbn in Hs; subst; [|done].
    eexists _, _. split; [exact E|done].
  - intros (s & e & HF & <-). destruct (ho_entry _ _ Hh _ _ HF) as (Hit & _ & Hbk & _).
    pose proof (ho_slot _ _ Hh _ Hit) as Hs. rewrite HF in Hs. unfold slot_at in Hs. rewrite Hbk, Hb in Hs.
    cbn in Hs. exists e. split; [|by apply bool_decide_eq_true]. by eapply list_elem_of_In, list_elem_of_lookup_2.
Qed.

(** ** Blocks *)

(** A block the table knows: its hash and its entries, each with its slot. *)
Record NfBlock := { xb_hash : Hash; xb_fills : list (Z * Z * NullifierEntry) }.

Definition record_of_block (x : NfBlock) : NfBlockRecord :=
  {| nr_block_hash := xb_hash x; nr_slots := fst <$> xb_fills x |}.

Definition stored (B : gmap Z NfBlock) : Z := map_fold (fun _ x n => zlen (xb_fills x) + n) 0 B.

(** The entries [F] are those of the blocks [B] and of a block being inserted. *)
Definition partition (F : gmap (Z * Z) NullifierEntry) (B : gmap Z NfBlock) (pending : list (Z * Z * NullifierEntry)) : Prop :=
  forall s e, F !! s = Some e <-> (s, e) ∈ pending \/ exists h x, B !! h = Some x /\ (s, e) ∈ xb_fills x.

Record table_repr (B : gmap Z NfBlock) (db : HashTableDb) : Prop := {
  tp_slots : exists F, holds (ht_buckets db) F /\ partition F B [];
  tp_index : ht_block_index db = record_of_block <$> B;
  tp_nodup h x : B !! h = Some x -> NoDup (fst <$> xb_fills x);
  tp_disjoint h h' x x' s : B !! h = Some x -> B !! h' = Some x' ->
    s ∈ fst <$> xb_fills x -> s ∈ fst <$> xb_fills x' -> h = h';
  tp_hashes hash h : ht_block_hash_to_height db !! hash = Some h <-> exists x, B !! h = Some x /\ xb_hash x = hash;
  tp_count : ht_num_entries db = stored B;
  tp_bound : stored B < u64_bound }.

Lemma stored_insert B h x : B !! h = None -> stored (<[h := x]> B) = zlen (xb_fills x) + stored B.
Proof. intros Hn. unfold stored. rewrite map_fold_insert_L; [done|intros; lia|done]. Qed.

Lemma stored_delete B h x : B !! h = Some x -> stored (delete h B) = stored B - zlen (xb_fills x).
Proof. intros Hs. unfold stored. rewrite (map_fold_delete_L _ 0 h x B); [lia|intros; lia|done]. Qed.

Lemma stored_nonneg B : 0 <= stored B.
Proof.
  unfold stored. apply (map_fold_weak_ind (fun n _ => 0 <= n)); [done|]. intros h x m n _ Hn.
  pose proof (zlen_nonneg (xb_fills x)). lia.
Qed.

(** A delivered nullifier: not the empty value, fields of their widths. *)
Record valid_nullifier (nwm : NullifierWithMeta) : Prop := {
  vn_nonzero : nm_nullifier nwm <> zero_nullifier;
  vn_length : length (nm_nullifier nwm) = 32%nat;
  vn_bytes : bytes_ok (nm_nullifier nwm);
  vn_position : 0 <= nm_first_output_position nwm < 2 ^ 32;
  vn_count : 0 <= nm_action_count nwm < 256 }.

Definition entry_of (spend_height : Z) (nwm : NullifierWithMeta) : NullifierEntry :=
  {| ne_nullifier := nm_nullifier nwm; ne_spend_height := spend_height;
     ne_first_output_position := nm_first_output_position nwm; ne_action_count := nm_action_count nwm |}.

Lemma entry_of_nonempty sh nwm : valid_nullifier nwm -> entry_is_empty (entry_of sh nwm) = false.
Proof. intros Hv. apply bool_decide_eq_false, (vn_nonzero _ Hv). Qed.

Lemma entry_of_wf sh nwm : 0 <= sh < 2 ^ 32 -> valid_nullifier nwm -> entry_wf (entry_of sh nwm).
Proof. intros Hs []. by constructor. Qed.

(** The loop: on success the slots were free and now hold the entries, in order;
    nothing but buckets and count changes. *)
Lemma insert_nullifiers_exact sh B nfs : 0 <= sh < 2 ^ 32 -> forall db F pending slots r db',
  holds (ht_buckets db) F -> partition F B pending -> NoDup (fst <$> pending) ->
  (forall h x s, B !! h = Some x -> s ∈ fst <$> xb_fills x -> s ∉ fst <$> pending) ->
  Forall valid_nullifier nfs -> slots = fst <$> pending ->
  0 <= ht_num_entries db -> ht_num_entries db + zlen nfs < u64_bound ->
  insert_nullifiers db sh nfs slots = (Ok r, db') ->
  exists fills F', r = fst <$> pending ++ fills /\ snd <$> fills = entry_of sh <$> nfs /\
    holds (ht_buckets db') F' /\ partition F' B (pending ++ fills) /\ NoDup (fst <$> pending ++ fills) /\
    (forall h x s, B !! h = Some x -> s ∈ fst <$> xb_fills x -> s ∉ fst <$> pending ++ fills) /\
    ht_num_entries db' = ht_num_entries db + zlen nfs /\
    ht_block_index db' = ht_block_index db /\ ht_block_hash_to_height db' = ht_block_hash_to_height db.
Proof.
  intros Hsh. induction nfs as [|nwm nfs IH]; intros db F pending slots r db' Hh Hp Hnd Hdis Hv -> Hn Hb; cbn [insert_nullifiers].
  - intros [= <- <-]. exists [], F. rewrite app_nil_r. split_and!; try done. by rewrite Z.add_0_r.
  - set (nf := nm_nullifier nwm). apply Forall_cons in Hv as [Hvn Hv]. autorewrite with zlen in Hb.
    pose proof (zlen_nonneg nfs). pose proof (hash_to_bucket_range nf) as Hr.
    destruct (lookup_lt_is_Some_2 (ht_buckets db) (Z.to_nat (hash_to_bucket nf))) as [b Hbk].
    { pose proof (ho_len _ _ Hh). unfold zlen in *. lia. }
    rewrite Hbk. cbn [default from_option id]. destruct (find_free_slot b) as [slot|] eqn:Hf; [|done].
    destruct (free_slot _ _ _ _ _ Hh Hbk Hf) as [Hin Hfree].
    set (s := (hash_to_bucket nf, slot)) in *. set (e := entry_of sh nwm).
    change {| ne_nullifier := nf; ne_spend_height := sh; ne_first_output_position := nm_first_output_position nwm;
      ne_action_count := nm_action_count nwm |} with e.
    rewrite (put_is_write _ _ _ _ _ Hbk). intros Hrun. fold s in Hrun.
    assert (Hnew : s ∉ fst <$> pending).
    { intros Hs. apply list_elem_of_fmap in Hs as ([s' e'] & Hse & Hpe). cbn in Hse. subst s'.
      assert (F !! s = Some e') by (apply Hp; by left). congruence. }
    assert (HnewB : forall h x, B !! h = Some x -> s ∉ fst <$> xb_fills x).
    { intros h x Hx Hs. apply list_elem_of_fmap in Hs as ([s' e'] & Hse & Hpe). cbn in Hse. subst s'.
      assert (F !! s = Some e') by (apply Hp; right; by exists h, x). congruence. }
    eapply (IH _ (<[s := e]> F) (pending ++ [(s, e)])) in Hrun as (fills & F' & -> & Hent & Hh' & Hp' & Hnd' & Hdis' & Hn' & Hi' & Hm').
    + exists ((s, e) :: fills), F'. rewrite <- app_assoc in *. cbn [app] in *. split_and!; try done.
      * rewrite !fmap_cons. by rewrite Hent.
      * rewrite Hn'. cbn [with_buckets ht_num_entries]. rewrite wrap64_small by (unfold u64_bound in *; lia).
        autorewrite with zlen. lia.
    + cbn [with_buckets ht_buckets]. apply holds_put; [done|done|by apply entry_of_nonempty|done|by apply entry_of_wf].
    + intros t e'. rewrite lookup_insert_Some, elem_of_app, list_elem_of_singleton.
      rewrite (Hp t e'). split.
      * intros [[<- <-]|[Hne [Ht|Ht]]]; [left; by right|left; by left|by right].
      * intros [[Ht|Ht]|(h & x & Hx & Ht)].
        -- right. split; [|by left]. intros <-. apply Hnew, list_elem_of_fmap. by exists (s, e').
        -- injection Ht as -> ->. by left.
        -- right. split; [|right; by exists h, x]. intros <-. apply (HnewB _ _ Hx), list_elem_of_fmap. by exists (s, e').
    + rewrite fmap_app. cbn [fmap list_fmap fst]. apply NoDup_app. split_and!; [done| |apply NoDup_singleton].
      intros t Ht ->%list_elem_of_singleton. done.
    + intros h x t Hx Ht. rewrite fmap_app, not_elem_of_app. split; [by eapply Hdis|].
      intros ->%list_elem_of_singleton. by apply (HnewB _ _ Hx).
    + done.
    + by rewrite fmap_app.
    + cbn [with_buckets ht_num_entries]. rewrite wrap64_small by (unfold u64_bound in *; lia). lia.
    + cbn [with_buckets ht_num_entries]. rewrite wrap64_small by (unfold u64_bound in *; lia). lia.
Qed.

Lemma new_table : table_repr ∅ HashTableDb_new.
Proof.
  constructor; try done.
  - exists ∅. split; [apply holds_new|]. intros s e. rewrite lookup_empty, elem_of_nil. split; [done|].
    intros [[]|(h & x & Hx & _)]. by rewrite lookup_empty in Hx.
  - intros hash h. cbn. rewrite lookup_empty. split; [done|]. intros (x & Hx & _). by rewrite lookup_empty in Hx.
Qed.

(** A successful insert of a new block adds exactly its entries. *)
Lemma insert_block_repr B db height hash nfs db' :
  table_repr B db -> B !! height = None -> (forall h x, B !! h = Some x -> xb_hash x <> hash) ->
  Forall valid_nullifier nfs -> stored B + zlen nfs < u64_bound ->
  insert_block db height hash nfs = (Ok tt, db') ->
  exists fills, snd <$> fills = entry_of (wrap32 height) <$> nfs /\
    table_repr (<[height := {| xb_hash := hash; xb_fills := fills |}]> B) db'.
Proof.
  intros [(F & Hh & Hp) Hi Hnd Hdis Hhash Hn Hbound] Hfresh Hnew Hv Hb Hrun. unfold insert_block in Hrun.
  destruct (insert_nullifiers db (wrap32 height) nfs []) as [[slots|] db1] eqn:E; [|done]. injection Hrun as <-.
  pose proof (stored_nonneg B).
  eapply (insert_nullifiers_exact (wrap32 height) B nfs ltac:(by apply Z.mod_pos_bound) db F []) in E
    as (fills & F' & -> & Hent & Hh' & Hp' & Hnd' & Hdis' & Hn' & Hi' & Hm');
    [|done|done|by constructor|by intros; apply not_elem_of_nil|done|done|lia|lia].
  cbn [app] in *. exists fills. split; [done|]. set (x := {| xb_hash := hash; xb_fills := fills |}).
  constructor; cbn [ht_buckets ht_block_index ht_block_hash_to_height ht_num_entries].
  - exists F'. split; [done|]. intros s e. rewrite (Hp' s e). split.
    + intros [Hf|(h & y & Hy & Hs)]; right; [exists height, x; by rewrite lookup_insert_eq|].
      exists h, y. by rewrite lookup_insert_ne by congruence.
    + intros [[]%elem_of_nil|(h & y & Hy & Hs)]. apply lookup_insert_Some in Hy as [[<- <-]|[_ Hy]]; [by left|].
      right. by exists h, y.
  - by rewrite Hi', Hi, fmap_insert.
  - intros h y [[<- <-]|[_ Hy]]%lookup_insert_Some; [done|by eapply Hnd].
  - intros h h' y y' s [[<- <-]|[_ Hy]]%lookup_insert_Some [[<- <-]|[_ Hy']]%lookup_insert_Some Hs Hs';
      [done|by destruct (Hdis' _ _ _ Hy' Hs')|by destruct (Hdis' _ _ _ Hy Hs)|by eapply Hdis].
  - intros g h. rewrite Hm', lookup_insert_Some. split.
    + intros [[<- <-]|[Hne Hg]]; [exists x; by rewrite lookup_insert_eq|].
      apply Hhash in Hg as (y & Hy & <-). exists y. by rewrite lookup_insert_ne by congruence.
    + intros (y & [[<- <-]|[_ Hy]]%lookup_insert_Some & <-); [by left|].
      right. split; [intros E; by eapply Hnew|]. apply Hhash. by exists y.
  - rewrite Hn', Hn, stored_insert by done. cbn [xb_fills x].
    assert (zlen fills = zlen nfs) as -> by (unfold zlen; by rewrite <- (length_fmap snd), Hent, length_fmap). lia.
  - rewrite stored_insert by done. cbn [xb_fills x].
    assert (zlen fills = zlen nfs) as -> by (unfold zlen; by rewrite <- (length_fmap snd), Hent, length_fmap). lia.
Qed.

(** Removing a block's slots and records. *)
Lemma remove_block_repr B db h x :
  table_repr B db -> B !! h = Some x ->
  table_repr (delete h B)
    {| ht_buckets := clear_slots (ht_buckets db) (fst <$> xb_fills x);
       ht_block_index := delete h (ht_block_index db);
       ht_block_hash_to_height := delete (xb_hash x) (ht_block_hash_to_height db);
       ht_num_entries := wrap64 (ht_num_entries db - zlen (fst <$> xb_fills x)) |}.
Proof.
  intros [(F & Hh & Hp) Hi Hnd Hdis Hhash Hn Hbound] Hx.
  assert (Hlen : zlen (fst <$> xb_fills x) = zlen (xb_fills x)) by (unfold zlen; by rewrite length_fmap).
  pose proof (stored_nonneg (delete h B)) as Hpos. pose proof (stored_delete _ _ _ Hx) as Hdel.
  pose proof (zlen_nonneg (xb_fills x)).
  constructor; cbn [ht_buckets ht_block_index ht_block_hash_to_height ht_num_entries].
  - eexists. split.
    + apply holds_clear_slots; [exact Hh|]. apply Forall_forall. intros s Hs.
      apply list_elem_of_fmap in Hs as ([s' e] & -> & Hse). eapply (ho_entry _ _ Hh), Hp. right. by exists h, x.
    + intros s e. rewrite lookup_foldl_delete, (Hp s e). split.
      * intros [[[]%elem_of_nil|(h' & y & Hy & Hs)] Hns]. right. exists h', y. split; [|done].
        apply lookup_delete_Some. split; [|done]. intros <-. rewrite Hx in Hy. injection Hy as <-.
        apply Hns, list_elem_of_fmap. by exists (s, e).
      * intros [[]%elem_of_nil|(h' & y & [Hne Hy]%lookup_delete_Some & Hs)]. split; [right; by exists h', y|].
        intros Hs'. apply Hne. eapply Hdis; [exact Hx|exact Hy|exact Hs'|].
        apply list_elem_of_fmap. by exists (s, e).
  - by rewrite Hi, fmap_delete.
  - intros h' y [_ Hy]%lookup_delete_Some. by eapply Hnd.
  - intros h1 h2 y1 y2 s [_ Hy1]%lookup_delete_Some [_ Hy2]%lookup_delete_Some. by apply Hdis.
  - intros g h'. rewrite lookup_delete_Some, (Hhash g h'). split.
    + intros [Hne (y & Hy & <-)]. exists y. rewrite lookup_delete_ne; [done|]. intros <-. congruence.
    + intros (y & [Hne Hy]%lookup_delete_Some & <-). split; [|by exists y]. intros E. apply Hne.
      assert (ht_block_hash_to_height db !! xb_hash x = Some h) as E1 by (apply Hhash; by exists x).
      assert (ht_block_hash_to_height db !! xb_hash x = Some h') as E2 by (apply Hhash; by exists y).
      congruence.
  - rewrite Hlen, Hn, wrap64_small by (unfold u64_bound in *; lia). lia.
  - lia.
Qed.

Lemma rollback_block_repr B db h x :
  table_repr B db -> B !! h = Some x ->
  exists db', rollback_block db (xb_hash x) = (Ok tt, db') /\ table_repr (delete h B) db'.
Proof.
  intros Hr Hx. unfold rollback_block.
  rewrite (proj2 (tp_hashes _ _ Hr (xb_hash x) h)) by (by exists x).
  rewrite (tp_index _ _ Hr), lookup_fmap, Hx. cbn [fmap option_fmap option_map].
  eexists. split; [reflexivity|]. rewrite <- (tp_index _ _ Hr). by apply remove_block_repr.
Qed.

Lemma rollback_unknown B db hash :
  table_repr B db -> (forall h x, B !! h = Some x -> xb_hash x <> hash) ->
  rollback_block db hash = (Err BlockNotFound, db).
Proof.
  intros Hr Hno. unfold rollback_block. destruct (_ !! hash) as [h|] eqn:E; [|done].
  apply (tp_hashes _ _ Hr) in E as (x & Hx & Hh). by destruct (Hno h x).
Qed.

(** ** Eviction *)

Lemma least_Some keys k :
  least keys = Some k -> k ∈ keys /\ Forall (fun j => k <= j) keys.
Proof.
  revert k. induction keys as [|j keys IH]; intros k; cbn [least foldr]; [done|].
  change (foldr _ None keys) with (least keys). destruct (least keys) as [m|] eqn:E; intros [= <-].
  - destruct (IH m eq_refl) as [Hin Hall]. split.
    + destruct (Z.min_spec j m) as [[_ ->]|[_ ->]]; [apply list_elem_of_here|by apply list_elem_of_further].
    + constructor; [lia|]. eapply Forall_impl; [exact Hall|]. intros i Hi. cbv beta in *. lia.
  - destruct keys; [|by destruct (least keys)]. split; [apply list_elem_of_here|]. by repeat constructor.
Qed.

Lemma least_None keys : least keys = None -> keys = [].
Proof. by destruct keys. Qed.

Definition oldest (B : gmap Z NfBlock) (h : Z) : Prop :=
  is_Some (B !! h) /\ forall h', is_Some (B !! h') -> h <= h'.

Lemma evict_oldest_repr B db :
  table_repr B db ->
  match evict_oldest_block db with
  | Some (h, db') => oldest B h /\ table_repr (delete h B) db'
  | None => B = ∅
  end.
Proof.
  intros Hr. unfold evict_oldest_block, earliest_height.
  destruct (least _) as [h|] eqn:E; cbn [mbind option_bind].
  - apply least_Some in E as [Hin Hall]. rewrite (tp_index _ _ Hr) in *.
    rewrite dom_fmap_L in *. rewrite elem_of_elements, elem_of_dom in Hin. destruct Hin as [x Hx].
    rewrite lookup_fmap, Hx. cbn [fmap option_fmap option_map mbind option_bind]. split.
    + split; [by eexists|]. intros h' Hh'. rewrite Forall_forall in Hall. apply Hall.
      by apply elem_of_elements, elem_of_dom.
    + rewrite <- (tp_index _ _ Hr). by apply remove_block_repr.
  - apply least_None in E. rewrite (tp_index _ _ Hr), dom_fmap_L in E.
    apply elements_empty_inv, leibniz_equiv, dom_empty_inv_L in E. done.
Qed.

(** ** The table refines a map of blocks *)

(** What a table is for: the hash and the entries of each block, by height. *)
Abbreviation Blocks := (gmap Z (Hash * list NullifierEntry)).
Definition view (B : gmap Z NfBlock) : Blocks := (fun x => (xb_hash x, snd <$> xb_fills x)) <$> B.
Definition total (M : Blocks) : Z := map_fold (fun _ x n => zlen (snd x) + n) 0 M.

Definition table_of (M : Blocks) (db : HashTableDb) : Prop := exists B, M = view B /\ table_repr B db.

(** Dropping the oldest block while there are too many entries. *)
Fixpoint drop_oldest (fuel : nat) (M : Blocks) : Blocks :=
  match fuel with
  | O => M
  | S fuel =>
      if TARGET_SIZE <? total M then
        match least (elements (dom M)) with
        | Some h => drop_oldest fuel (delete h M)
        | None => M
        end
      else M
  end.
Definition keep_recent (M : Blocks) : Blocks := drop_oldest (S (size M)) M.

Definition spends (M : Blocks) (nf : Hash) : Prop :=
  exists h x e, M !! h = Some x /\ e ∈ snd x /\ ne_nullifier e = nf.

Definition fresh_block (M : Blocks) (height : Z) (hash : Hash) : Prop :=
  M !! height = None /\ forall h x, M !! h = Some x -> fst x <> hash.

(** The tables a run of inserts of new blocks, rollbacks and evictions reaches, with
    the blocks they should hold. *)
Inductive table_run : HashTableDb -> Blocks -> Prop :=
| run_new : table_run HashTableDb_new ∅
| run_insert db M height hash nfs db' :
    table_run db M -> fresh_block M height hash -> Forall valid_nullifier nfs -> total M + zlen nfs < u64_bound ->
    insert_block db height hash nfs = (Ok tt, db') ->
    table_run db' (<[height := (hash, entry_of (wrap32 height) <$> nfs)]> M)
| run_rollback db M height hash es :
    table_run db M -> M !! height = Some (hash, es) ->
    table_run (snd (rollback_block db hash)) (delete height M)
| run_rollback_unknown db M hash :
    table_run db M -> (forall h x, M !! h = Some x -> fst x <> hash) ->
    table_run (snd (rollback_block db hash)) M
| run_evict db M :
    table_run db M -> table_run (evict_to_target db) (keep_recent M).

Lemma view_lookup B h y :
  view B !! h = Some y <-> exists x, B !! h = Some x /\ y = (xb_hash x, snd <$> xb_fills x).
Proof. unfold view. rewrite lookup_fmap, fmap_Some. done. Qed.

Lemma view_None B h : view B !! h = None <-> B !! h = None.
Proof. unfold view. rewrite lookup_fmap. apply fmap_None. Qed.

Lemma total_view B : total (view B) = stored B.
Proof.
  unfold total, view, stored. rewrite map_fold_fmap. cbn [snd].
  induction B as [|h x B Hn IH] using map_ind; [done|].
  rewrite map_fold_insert_L; [|intros; cbv [compose]; lia|done].
  rewrite map_fold_insert_L; [|intros; cbv [compose]; lia|done]. rewrite IH. cbv [compose snd]. f_equal. unfold zlen. by rewrite length_fmap.
Qed.

Lemma table_of_num_entries M db : table_of M db -> ht_num_entries db = total M.
Proof. intros (B & -> & Hr). rewrite total_view. apply (tp_count _ _ Hr). Qed.

Lemma evict_loop_repr fuel : forall M db,
  table_of M db -> table_of (drop_oldest fuel M) (evict_loop fuel db).
Proof.
  induction fuel as [|fuel IH]; intros M db Ht; [done|]. cbn [drop_oldest evict_loop].
  rewrite (table_of_num_entries _ _ Ht). destruct (TARGET_SIZE <? total M) eqn:E; [|done]. clear E.
  destruct Ht as (B & -> & Hr). pose proof (evict_oldest_repr _ _ Hr) as He.
  assert (Hd : elements (dom (view B)) = elements (dom (ht_block_index db))).
  { unfold view. by rewrite (tp_index _ _ Hr), !dom_fmap_L. }
  rewrite Hd. unfold evict_oldest_block, earliest_height in *.
  destruct (least _) as [h|]; cbn [mbind option_bind] in *; [|by exists B].
  destruct (ht_block_index db !! h) as [record|] eqn:Ei; cbn [mbind option_bind] in *.
  - destruct He as [_ He]. apply IH. exists (delete h B). split; [|done]. unfold view. by rewrite fmap_delete.
  - subst B. exists ∅. split; [|done]. unfold view. rewrite fmap_empty.
    assert (Hs : delete h (∅ : Blocks) = ∅) by apply delete_empty. rewrite Hs.
    clear. induction fuel as [|fuel IH]; [done|]. cbn [drop_oldest].
    replace (TARGET_SIZE <? total ∅) with false by done. done.
Qed.

(** The three changes of a table, on the blocks it holds. *)
Lemma table_of_insert M db height hash nfs db' :
  table_of M db -> fresh_block M height hash -> Forall valid_nullifier nfs -> total M + zlen nfs < u64_bound ->
  insert_block db height hash nfs = (Ok tt, db') ->
  table_of (<[height := (hash, entry_of (wrap32 height) <$> nfs)]> M) db'.
Proof.
  intros (B & -> & Hr) [Hfresh Hnew] Hv Hb Hrun. rewrite total_view in Hb. apply view_None in Hfresh.
  destruct (insert_block_repr B db height hash nfs db') as (fills & Hf & Hr'); [done|done| |done|done|done|].
  { intros h x Hx. apply (Hnew h (xb_hash x, snd <$> xb_fills x)), view_lookup. by exists x. }
  eexists. split; [|exact Hr']. unfold view. rewrite fmap_insert. cbn [xb_hash xb_fills]. by rewrite Hf.
Qed.

Lemma table_of_rollback M db height hash es :
  table_of M db -> M !! height = Some (hash, es) -> table_of (delete height M) (snd (rollback_block db hash)).
Proof.
  intros (B & -> & Hr) (x & Hx & [= -> ->])%view_lookup.
  destruct (rollback_block_repr _ _ _ _ Hr Hx) as (db' & -> & Hr'). exists (delete height B).
  split; [|done]. unfold view. by rewrite fmap_delete.
Qed.

Lemma table_of_evict M db : table_of M db -> table_of (keep_recent M) (evict_to_target db).
Proof.
  intros Ht. unfold evict_to_target, keep_recent.
  assert (size (ht_block_index db) = size M) as ->.
  { destruct Ht as (B & -> & Hr). unfold view. by rewrite (tp_index _ _ Hr), !map_size_fmap. }
  by apply evict_loop_repr.
Qed.

Lemma table_of_new : table_of ∅ HashTableDb_new.
Proof. exists ∅. split; [unfold view; by rewrite fmap_empty|apply new_table]. Qed.

(** An insert fails only for want of a free slot. *)
Lemma insert_block_error db height hash nfs e db' :
  insert_block db height hash nfs = (Err e, db') -> exists b, e = BucketOverflow b.
Proof.
  unfold insert_block. generalize (@nil (Z * Z)) as slots. revert db.
  induction nfs as [|nwm nfs IH]; intros db slots; cbn [insert_nullifiers]; [done|].
  destruct (find_free_slot _) as [slot|]; [apply IH|]. intros [= <- _]. by eexists.
Qed.

Lemma table_run_repr db M : table_run db M -> table_of M db.
Proof.
  induction 1 as [|db M height hash nfs db' _ Ht Hf Hv Hb Hrun|db M height hash es _ Ht Hx
    |db M hash _ (B & -> & Hr) Hno|db M _ Ht].
  - apply table_of_new.
  - by eapply table_of_insert.
  - by eapply table_of_rollback.
  - rewrite (rollback_unknown B); [by exists B|done|]. intros h x Hx.
    apply (Hno h (xb_hash x, snd <$> xb_fills x)), view_lookup. by exists x.
  - by apply table_of_evict.
Qed.

Lemma contains_spends M db nf :
  table_of M db -> nf <> zero_nullifier -> contains db nf = true <-> spends M nf.
Proof.
  intros (B & -> & [(F & Hh & Hp) _ _ _ _ _ _]) Hnf. rewrite (contains_slots _ F) by done. unfold spends. split.
  - intros (s & e & HF & <-). apply Hp in HF as [[]%elem_of_nil|(h & x & Hx & Hs)].
    exists h, (xb_hash x, snd <$> xb_fills x), e. rewrite view_lookup. split_and!; [by exists x| |done].
    apply list_elem_of_fmap. by exists (s, e).
  - intros (h & y & e & (x & Hx & ->)%view_lookup & He & <-). cbn [snd] in He.
    apply list_elem_of_fmap in He as ([s e'] & -> & Hs). exists s, e'. split; [|done]. apply Hp. right. by exists h, x.
Qed.

(** C29: the nullifier table refines a map of blocks.  After any run of inserts of
    new blocks, rollbacks and evictions, the table answers that it has a
    (non-zero) nullifier exactly when one of the remaining blocks spends it, and
    its count is the number of their entries; so a rollback removes exactly what
    its block had inserted, in slots that others may have been freed around. *)
Theorem nullifier_table_refines db M nf :
  table_run db M -> nf <> zero_nullifier ->
  (contains db nf = true <-> spends M nf) /\ ht_num_entries db = total M.
Proof.
  intros Hrun Hnf. apply table_run_repr in Hrun. split; [by apply contains_spends|].
  by apply table_of_num_entries.
Qed.

(** ** Eviction reaches the target *)

Lemma total_delete M h x : M !! h = Some x -> total (delete h M) = total M - zlen (snd x).
Proof. intros Hs. unfold total. rewrite (map_fold_delete_L _ 0 h x M); [lia|intros; lia|done]. Qed.

Lemma total_empty_small M : TARGET_SIZE < total M -> least (elements (dom M)) <> None.
Proof.
  intros Ht Hn. apply least_None in Hn. apply elements_empty_inv, leibniz_equiv, dom_empty_inv_L in Hn.
  subst M. cbv in Ht. done.
Qed.

(** What eviction may do to the blocks: drop the oldest, and none without need. *)
Record recent (M M' : Blocks) : Prop := {
  rc_target : total M' <= TARGET_SIZE;
  rc_sub : M' ⊆ M;
  rc_oldest h h' : is_Some (M !! h) -> M' !! h = None -> is_Some (M' !! h') -> h < h';
  rc_needed : M' = M \/ exists h x, M !! h = Some x /\ M' !! h = None /\ TARGET_SIZE < total (<[h := x]> M') }.

Lemma drop_oldest_recent fuel : forall M, (size M < fuel)%nat -> recent M (drop_oldest fuel M).
Proof.
  induction fuel as [|fuel IH]; intros M Hf; [lia|]. cbn [drop_oldest].
  destruct (TARGET_SIZE <? total M) eqn:E; bool_prop.
  - destruct (least (elements (dom M))) as [h|] eqn:El; [|by apply total_empty_small in E].
    apply least_Some in El as [Hin Hall]. rewrite elem_of_elements, elem_of_dom in Hin. destruct Hin as [x Hx].
    rewrite Forall_forall in Hall.
    destruct (IH (delete h M)) as [Ht Hsub Hold Hneed].
    { rewrite map_size_delete, Hx. assert (size M <> 0%nat); [|cbn; lia].
      intros H0. apply map_size_empty_inv in H0. subst M. by rewrite lookup_empty in Hx. }
    assert (Hgone : drop_oldest fuel (delete h M) !! h = None).
    { eapply lookup_weaken_None; [|exact Hsub]. apply lookup_delete_eq. }
    constructor; [done|etrans; [exact Hsub|apply delete_subseteq]| |].
    + intros h1 h2 H1 Hg1 H2. destruct (decide (h1 = h)) as [->|Hne].
      * assert (is_Some (delete h M !! h2)) as H2' by (destruct H2; eexists; by eapply lookup_weaken).
        assert (h2 <> h) by (intros ->; destruct H2; congruence).
        rewrite lookup_delete_ne in H2' by done.
        assert (h <= h2); [|lia]. apply Hall. by apply elem_of_elements, elem_of_dom.
      * apply Hold; [by rewrite lookup_delete_ne|done|done].
    + right. destruct Hneed as [Heq|(h' & x' & [Hne Hx']%lookup_delete_Some & Hg & Hn)]; [|by exists h', x'].
      exists h, x. split_and!; [done|done|]. rewrite Heq. by rewrite insert_delete_id.
  - constructor; [done|done| |by left]. intros h h' [x Hx] Hn. congruence.
Qed.

(** Eviction ends at the target and costs only the oldest blocks.  After
    [evict_to_target] the table holds at most [TARGET_SIZE] entries; it answers
    for exactly the blocks that remain, which are unchanged; every block it
    dropped is older than every block it kept; and it dropped no more than
    needed: with the last dropped block the target was still exceeded. *)
Theorem eviction_keeps_newest db M :
  table_run db M ->
  exists M', recent M M' /\ ht_num_entries (evict_to_target db) = total M' /\
    forall nf, nf <> zero_nullifier -> contains (evict_to_target db) nf = true <-> spends M' nf.
Proof.
  intros Hrun. exists (keep_recent M). apply run_evict in Hrun. apply table_run_repr in Hrun as Ht.
  split_and!; [apply drop_oldest_recent; lia|by apply table_of_num_entries|].
  intros nf Hnf. by apply contains_spends.
Qed.

(** ** Inserts fail only when a bucket is full *)

Definition bucket_load (db : HashTableDb) (bucket_idx : Z) : Z :=
  match ht_buckets db !! Z.to_nat bucket_idx with
  | Some b => zlen (filter (fun e => entry_is_empty e = false) (bu_entries b))
  | None => 0
  end.

Definition arrivals (nfs : list NullifierWithMeta) (bucket_idx : Z) : Z :=
  zlen (filter (fun nwm => hash_to_bucket (nm_nullifier nwm) = bucket_idx) nfs).

Lemma filter_insert_load entries : forall i e e',
  entries !! i = Some e -> entry_is_empty e = true -> entry_is_empty e' = false ->
  zlen (filter (fun e => entry_is_empty e = false) (<[i := e']> entries)) =
  zlen (filter (fun e => entry_is_empty e = false) entries) + 1.
Proof.
  induction entries as [|a entries IH]; intros i e e' Hi He He'; [done|]. destruct i as [|i]; cbn in Hi.
  - injection Hi as ->. cbn [insert list_insert]. rewrite !filter_cons, decide_True, decide_False by congruence.
    autorewrite with zlen. lia.
  - change (<[S i := e']> (a :: entries)) with (a :: <[i := e']> entries).
    rewrite !filter_cons. specialize (IH i e e' Hi He He'). case_decide; autorewrite with zlen; lia.
Qed.

Lemma full_bucket_load buckets F b :
  holds buckets F -> b ∈ buckets -> find_free_slot b = None ->
  zlen (filter (fun e => entry_is_empty e = false) (bu_entries b)) = BUCKET_CAPACITY.
Proof.
  intros Hh Hb Hf. apply list_elem_of_lookup in Hb as [i Hi]. rewrite <- (ho_cap _ _ Hh _ _ Hi).
  apply first_empty_None in Hf. f_equal.
  rewrite <- (app_nil_r (bu_entries b)) at 1. by apply filter_split.
Qed.

Lemma arrivals_cons nwm nfs b :
  arrivals (nwm :: nfs) b = (if bool_decide (hash_to_bucket (nm_nullifier nwm) = b) then 1 else 0) + arrivals nfs b.
Proof.
  unfold arrivals. rewrite filter_cons. case_decide; [rewrite bool_decide_true by done|rewrite bool_decide_false by done];
    autorewrite with zlen; lia.
Qed.

Lemma insert_nullifiers_fit sh nfs : 0 <= sh < 2 ^ 32 -> forall db F slots,
  holds (ht_buckets db) F -> Forall valid_nullifier nfs ->
  (forall b, 0 <= b < NUM_BUCKETS -> bucket_load db b + arrivals nfs b <= BUCKET_CAPACITY) ->
  exists r db', insert_nullifiers db sh nfs slots = (Ok r, db').
Proof.
  intros Hsh. induction nfs as [|nwm nfs IH]; intros db F slots Hh Hv Hroom; cbn [insert_nullifiers]; [by eauto|].
  set (nf := nm_nullifier nwm). apply Forall_cons in Hv as [Hvn Hv]. pose proof (hash_to_bucket_range nf) as Hr.
  destruct (lookup_lt_is_Some_2 (ht_buckets db) (Z.to_nat (hash_to_bucket nf))) as [b Hbk].
  { pose proof (ho_len _ _ Hh). unfold zlen in *. lia. }
  rewrite Hbk. cbn [default from_option id].
  assert (Hload : bucket_load db (hash_to_bucket nf) = zlen (filter (fun e => entry_is_empty e = false) (bu_entries b)))
    by (unfold bucket_load; by rewrite Hbk).
  destruct (find_free_slot b) as [slot|] eqn:Hf.
  - destruct (free_slot _ _ _ _ _ Hh Hbk Hf) as [Hin Hfree].
    apply first_empty_Some in Hf as (_ & e0 & He0 & Hem). rewrite Z.sub_0_r in He0.
    set (e := {| ne_nullifier := nf |}). pose proof (entry_of_nonempty sh nwm Hvn : entry_is_empty e = false) as Hne.
    apply (IH _ (<[(hash_to_bucket nf, slot) := e]> F)); [| done|].
    + cbn [with_buckets ht_buckets].
      rewrite (put_is_write _ _ _ _ _ Hbk). apply holds_put; [done|done|done|done|]. by apply (entry_of_wf sh nwm).
    + intros c Hc. specialize (Hroom c Hc). rewrite arrivals_cons in Hroom. unfold bucket_load.
      cbn [with_buckets ht_buckets]. destruct (decide (hash_to_bucket nf = c)) as [<-|Hne'].
      * rewrite bool_decide_true in Hroom by done. rewrite list_lookup_insert_eq by (by eapply lookup_lt_Some).
        cbn [put_entry bu_entries]. rewrite (filter_insert_load _ _ e0) by done. lia.
      * rewrite bool_decide_false in Hroom by done. rewrite list_lookup_insert_ne by lia. exact Hroom.
  - exfalso. apply (full_bucket_load _ _ _ Hh) in Hf; [|by eapply list_elem_of_lookup_2].
    specialize (Hroom _ Hr). rewrite arrivals_cons, bool_decide_true in Hroom by done.
    unfold arrivals in Hroom. pose proof (zlen_nonneg (filter (fun n => hash_to_bucket (nm_nullifier n) = hash_to_bucket nf) nfs)).
    lia.
Qed.

(** An insert fails only for want of room.  When each bucket has as many free
    slots as nullifiers of the block fall into it, [insert_block] succeeds, and the
    table then spends the block's nullifiers besides what it spent before. *)
Theorem insert_fits db M height hash nfs :
  table_run db M -> fresh_block M height hash -> Forall valid_nullifier nfs -> total M + zlen nfs < u64_bound ->
  (forall b, 0 <= b < NUM_BUCKETS -> bucket_load db b + arrivals nfs b <= BUCKET_CAPACITY) ->
  exists db', insert_block db height hash nfs = (Ok tt, db') /\
    forall nf, nf <> zero_nullifier ->
      contains db' nf = true <-> spends M nf \/ nf ∈ nm_nullifier <$> nfs.
Proof.
  intros Hrun Hfresh Hv Hb Hroom. destruct (table_run_repr _ _ Hrun) as (B & HM & [(F & Hh & _) _ _ _ _ _ _]).
  destruct (insert_nullifiers_fit (wrap32 height) nfs ltac:(by apply Z.mod_pos_bound) db F [] Hh Hv Hroom)
    as (slots & db1 & E).
  assert (exists db', insert_block db height hash nfs = (Ok tt, db')) as [db' Hins]
    by (unfold insert_block; rewrite E; eauto).
  exists db'. split; [done|]. intros nf Hnf.
  pose proof (run_insert _ _ _ _ _ _ Hrun Hfresh Hv Hb Hins) as Hrun'.
  rewrite (contains_spends _ _ _ (table_run_repr _ _ Hrun') Hnf). destruct Hfresh as [Hfresh _]. unfold spends. split.
  - intros (h & x & e & [[<- <-]|[_ Hx]]%lookup_insert_Some & He & <-); [right|left; by exists h, x, e].
    apply list_elem_of_fmap in He as (nwm & -> & Hn). apply list_elem_of_fmap. by exists nwm.
  - intros [(h & x & e & Hx & He & <-)|Hn].
    + exists h, x, e. rewrite lookup_insert_ne by congruence. done.
    + apply list_elem_of_fmap in Hn as (nwm & -> & Hn). exists height, (hash, entry_of (wrap32 height) <$> nfs), (entry_of (wrap32 height) nwm).
      rewrite lookup_insert_eq. split_and!; [done| |done]. apply list_elem_of_fmap. by exists nwm.
Qed.

(** ** The row of a bucket *)

Definition metadata_of (e : NullifierEntry) : SpendMetadata :=
  {| sm_spend_height := ne_spend_height e; sm_first_output_position := ne_first_output_position e;
     sm_action_count := ne_action_count e |}.

Lemma zero_wf : entry_wf NullifierEntry_ZERO.
Proof. constructor; [done|by apply Forall_replicate|done..]. Qed.

Lemma length_nf_entry_bytes e : entry_wf e -> length (entry_to_bytes e) = 41%nat.
Proof.
  intros [Hl _ _ _ _]. unfold entry_to_bytes. rewrite !length_app, !length_le_bytes, Hl. done.
Qed.

(** The client reads back what the server wrote. *)
Lemma entry_bytes_nullifier e : entry_wf e -> take 32 (entry_to_bytes e) = ne_nullifier e.
Proof. intros [Hl _ _ _ _]. unfold entry_to_bytes. by rewrite take_app_length' by done. Qed.

Lemma entry_bytes_tail e : entry_wf e -> from_entry_tail (drop 32 (entry_to_bytes e)) = metadata_of e.
Proof.
  intros [Hl _ Hh Hp Hc]. unfold entry_to_bytes, from_entry_tail, metadata_of. rewrite drop_app_length' by done.
  rewrite take_app_length', drop_app_length', take_app_length' by (by rewrite length_le_bytes).
  by rewrite !le_val_le_bytes by done.
Qed.

Lemma entry_roundtrip e : entry_wf e -> entry_from_bytes (entry_to_bytes e) = e.
Proof.
  intros Hw. pose proof (entry_bytes_tail e Hw) as Ht. unfold from_entry_tail, metadata_of in Ht.
  rewrite drop_drop in Ht. injection Ht as H1 H2 H3. rewrite lookup_drop in H3.
  destruct e as [nf h p c]. unfold entry_from_bytes. rewrite (entry_bytes_nullifier _ Hw).
  cbn [ne_nullifier ne_spend_height ne_first_output_position ne_action_count] in *. f_equal; done.
Qed.

(** All slots of a bucket are well-formed. *)
Lemma bucket_wf buckets F i b : holds buckets F -> buckets !! i = Some b -> Forall entry_wf (bu_entries b).
Proof.
  intros Hh Hb. apply Forall_lookup. intros j e Hj.
  pose proof (ho_len _ _ Hh) as Hl. pose proof (ho_cap _ _ Hh _ _ Hb) as Hc.
  assert (Hin : in_table (Z.of_nat i, Z.of_nat j)).
  { apply lookup_lt_Some in Hb, Hj. unfold zlen in *. split; cbn [fst snd]; lia. }
  pose proof (ho_slot _ _ Hh _ Hin) as Hs. unfold slot_at in Hs. cbn [fst snd] in Hs. rewrite !Nat2Z.id in Hs.
  rewrite Hb in Hs. cbn [mbind option_bind] in Hs. rewrite Hj in Hs. injection Hs as ->.
  destruct (F !! _) as [e'|] eqn:E; [by apply (ho_entry _ _ Hh _ _ E)|apply zero_wf].
Qed.

Lemma entry_bytes_ok e : entry_wf e -> bytes_ok (entry_to_bytes e).
Proof.
  intros [_ Hb _ _ Hc]. unfold entry_to_bytes. rewrite !bytes_ok_app.
  split_and!; [done|apply bytes_ok_le_bytes..|by apply Forall_singleton].
Qed.

Lemma buckets_bytes_ok buckets F : holds buckets F -> bytes_ok (concat (bucket_bytes <$> buckets)).
Proof.
  intros Hh. apply Forall_concat, Forall_fmap, Forall_lookup. intros i b Hb.
  apply Forall_concat, Forall_fmap. eapply Forall_impl; [by eapply bucket_wf|]. apply entry_bytes_ok.
Qed.

Lemma bucket_bytes_length buckets F i b :
  holds buckets F -> buckets !! i = Some b -> zlen (bucket_bytes b) = BUCKET_BYTES.
Proof.
  intros Hh Hb. unfold bucket_bytes. rewrite (zlen_concat _ 41).
  - pose proof (ho_cap _ _ Hh _ _ Hb) as Hc. unfold zlen in *. rewrite length_fmap, Hc. done.
  - apply Forall_fmap. eapply Forall_impl; [by eapply bucket_wf|]. intros e He. cbn. unfold zlen.
    by rewrite length_nf_entry_bytes.
Qed.

(** The row the client asks for, as a slice of the database. *)
Definition pir_row (db : HashTableDb) (row_idx : Z) : list Z :=
  slice (to_pir_bytes db) (row_idx * BUCKET_BYTES) (row_idx * BUCKET_BYTES + BUCKET_BYTES).

Lemma pir_row_bucket db F nf b :
  holds (ht_buckets db) F -> ht_buckets db !! Z.to_nat (hash_to_bucket nf) = Some b ->
  pir_row db (hash_to_bucket nf) = bucket_bytes b.
Proof.
  intros Hh Hb. pose proof (hash_to_bucket_range nf). unfold pir_row, to_pir_bytes.
  rewrite <- (app_nil_r (concat _)). rewrite <- (Z2Nat.id (hash_to_bucket nf)) by lia.
  apply slice_concat_record; [|done|by rewrite list_lookup_fmap, Hb].
  apply Forall_fmap, Forall_lookup. intros i c Hc. by eapply bucket_bytes_length.
Qed.

Lemma find_map_find {A B} (f : A -> B) (p : B -> bool) (q : A -> bool) l :
  (forall x, x ∈ l -> p (f x) = q x) -> find p (f <$> l) = f <$> find q l.
Proof.
  induction l as [|x l IH]; intros Hpq; [done|]. rewrite fmap_cons. cbn [find].
  rewrite (Hpq x) by apply list_elem_of_here. destruct (q x); [done|]. apply IH.
  intros y Hy. apply Hpq. by apply list_elem_of_further.
Qed.

(** The scan of a row is the first slot of the bucket with the nullifier. *)
Lemma scan_bucket_find buckets F i b padding nf :
  holds buckets F -> buckets !! i = Some b ->
  scan_bucket_for_nf (bucket_bytes b ++ padding) nf =
  metadata_of <$> find (fun e => bool_decide (ne_nullifier e = nf)) (bu_entries b).
Proof.
  intros Hh Hb. pose proof (bucket_bytes_length _ _ _ _ Hh Hb) as Hl. pose proof (bucket_wf _ _ _ _ Hh Hb) as Hw.
  unfold scan_bucket_for_nf. pose proof (zlen_nonneg padding).
  rewrite zlen_app. rewrite (proj2 (Z.leb_le _ _)) by lia.
  rewrite take_app_length' by (unfold zlen in Hl; lia). unfold bucket_bytes at 2.
  rewrite chunks_exact_concat; [|by vm_compute; lia| |done].
  - rewrite (find_map_find _ _ (fun e => bool_decide (ne_nullifier e = nf))).
    + rewrite Forall_forall in Hw. destruct (find _ (bu_entries b)) as [e|] eqn:E; [|done].
      apply find_some in E as [E _]. cbn. f_equal. apply entry_bytes_tail, Hw. by apply list_elem_of_In.
    + intros e He. rewrite Forall_forall in Hw. by rewrite entry_bytes_nullifier by auto.
  - apply Forall_fmap. eapply Forall_impl; [exact Hw|]. intros e He. by apply length_nf_entry_bytes.
Qed.

(** The client's answer is exact.  On the row of its bucket, however much
    padding the decoded response has after it, the scan for a (non-zero)
    nullifier finds nothing exactly when no block of the table spends it, and
    otherwise returns the height, the first output position and the action count
    of an entry that spends it. *)
Lemma spent_scan_exact db M nf padding :
  table_of M db -> nf <> zero_nullifier ->
  match scan_bucket_for_nf (pir_row db (hash_to_bucket nf) ++ padding) nf with
  | Some meta => exists h x e, M !! h = Some x /\ e ∈ snd x /\ ne_nullifier e = nf /\ meta = metadata_of e
  | None => ~ spends M nf
  end.
Proof.
  intros (B & -> & Hr) Hnf. pose proof Hr as [(F & Hh & Hp) _ _ _ _ _ _].
  pose proof (hash_to_bucket_range nf) as Hrange.
  destruct (lookup_lt_is_Some_2 (ht_buckets db) (Z.to_nat (hash_to_bucket nf))) as [b Hb].
  { pose proof (ho_len _ _ Hh). unfold zlen in *. lia. }
  rewrite (pir_row_bucket _ _ _ _ Hh Hb), (scan_bucket_find _ _ _ _ _ _ Hh Hb).
  destruct (find _ (bu_entries b)) as [e|] eqn:E; cbn [fmap option_fmap option_map].
  - apply find_some in E as [Hin He]. apply bool_decide_eq_true in He. subst nf.
    apply list_elem_of_In, list_elem_of_lookup in Hin as [j Hj].
    assert (Hit : in_table (hash_to_bucket (ne_nullifier e), Z.of_nat j)).
    { pose proof (ho_cap _ _ Hh _ _ Hb). apply lookup_lt_Some in Hj. unfold zlen in *. split; cbn [fst snd]; lia. }
    pose proof (ho_slot _ _ Hh _ Hit) as Hs. unfold slot_at in Hs. cbn [fst snd] in Hs. rewrite Hb, Nat2Z.id in Hs.
    cbn [mbind option_bind] in Hs. rewrite Hj in Hs.
    destruct (F !! _) as [e'|] eqn:EF; cbn in Hs; injection Hs as ->; [|exfalso; by apply Hnf].
    apply Hp in EF as [[]%elem_of_nil|(h & x & Hx & Hs)].
    exists h, (xb_hash x, snd <$> xb_fills x), e'. rewrite view_lookup. split_and!; [by exists x| |done|done].
    apply list_elem_of_fmap. eexists. split; [|exact Hs]. done.
  - intros Hs. apply (contains_spends _ db) in Hs; [|by exists B|done]. unfold contains in Hs. rewrite Hb in Hs.
    unfold Bucket_contains in Hs. apply existsb_exists in Hs as (e & Hin & He).
    pose proof (find_none _ _ E e Hin). congruence.
Qed.

(** ** Reorganisations *)

(** Whatever its result, an insert leaves the entries that were there. *)
Lemma insert_nullifiers_mono sh nfs : 0 <= sh < 2 ^ 32 -> forall db F slots,
  holds (ht_buckets db) F -> Forall valid_nullifier nfs ->
  0 <= ht_num_entries db -> ht_num_entries db + zlen nfs < u64_bound ->
  exists F', let db' := snd (insert_nullifiers db sh nfs slots) in
    holds (ht_buckets db') F' /\ F ⊆ F' /\ ht_num_entries db' <= ht_num_entries db + zlen nfs.
Proof.
  intros Hsh. induction nfs as [|nwm nfs IH]; intros db F slots Hh Hv Hn Hb; cbn [insert_nullifiers].
  - exists F. cbn [snd]. split_and!; [done|done|]. change (zlen (@nil NullifierWithMeta)) with 0. lia.
  - set (nf := nm_nullifier nwm). apply Forall_cons in Hv as [Hvn Hv]. pose proof (hash_to_bucket_range nf) as Hr.
    autorewrite with zlen in *. pose proof (zlen_nonneg nfs).
    destruct (lookup_lt_is_Some_2 (ht_buckets db) (Z.to_nat (hash_to_bucket nf))) as [b Hbk].
    { pose proof (ho_len _ _ Hh). unfold zlen in *. lia. }
    rewrite Hbk. cbn [default from_option id]. destruct (find_free_slot b) as [slot|] eqn:Hf.
    + destruct (free_slot _ _ _ _ _ Hh Hbk Hf) as [Hin Hfree].
      set (e := {| ne_nullifier := nf |}). pose proof (entry_of_nonempty sh nwm Hvn : entry_is_empty e = false) as Hne.
      destruct (IH (with_buckets db (<[Z.to_nat (hash_to_bucket nf) := put_entry b slot e]> (ht_buckets db))
        (wrap64 (ht_num_entries db + 1))) (<[(hash_to_bucket nf, slot) := e]> F) (slots ++ [(hash_to_bucket nf, slot)]))
        as (F' & Hh' & Hsub & Hn'); [|done| | |].
      * cbn [with_buckets ht_buckets]. rewrite (put_is_write _ _ _ _ _ Hbk).
        apply holds_put; [done|done|done|done|]. by apply (entry_of_wf sh nwm).
      * cbn [with_buckets ht_num_entries]. rewrite wrap64_small by (unfold u64_bound in *; lia). lia.
      * cbn [with_buckets ht_num_entries]. rewrite wrap64_small by (unfold u64_bound in *; lia). lia.
      * exists F'. split_and!; [done| |].
        -- etrans; [|exact Hsub]. by apply insert_subseteq.
        -- etrans; [exact Hn'|]. cbn [with_buckets ht_num_entries].
           rewrite wrap64_small by (unfold u64_bound in *; lia). lia.
    + exists F. cbn [snd]. split_and!; [done|done|lia].
Qed.

Lemma rollback_zero_hashes M db orphaned :
  table_of M db -> (forall h x, M !! h = Some x -> fst x <> replicate 32 0) ->
  Forall (fun b => ob_hash b = replicate 32 0) orphaned -> rollback_orphaned db orphaned = db.
Proof.
  intros (B & -> & Hr) Hz Hall. unfold rollback_orphaned. apply Forall_reverse in Hall. revert Hall.
  generalize (reverse orphaned). intros l Hall. induction Hall as [|b l Hb _ IH]; [done|]. cbn [foldl].
  rewrite Hb, (rollback_unknown B); [done|done|]. intros h x Hx.
  apply (Hz h (xb_hash x, snd <$> xb_fills x)), view_lookup. by exists x.
Qed.

Lemma evict_below_target db : ht_num_entries db <= TARGET_SIZE -> evict_to_target db = db.
Proof. intros Hn. unfold evict_to_target. cbn [evict_loop]. by rewrite (proj2 (Z.ltb_ge _ _)). Qed.

Lemma insert_new_blocks_one db b :
  snd (insert_new_blocks db [b]) = snd (insert_block db (nb_height b) (nb_hash b) (nb_nullifiers b)).
Proof.
  cbn [insert_new_blocks]. by destruct (insert_block _ _ _ _) as [[]].
Qed.

Lemma insert_block_buckets db height hash nfs :
  let '(_, db1) := insert_nullifiers db (wrap32 height) nfs [] in
  let '(_, db') := insert_block db height hash nfs in
  ht_buckets db' = ht_buckets db1 /\ ht_num_entries db' = ht_num_entries db1.
Proof. unfold insert_block. by destruct (insert_nullifiers _ _ _ _) as [[] ?]. Qed.

(** C33: a reorganisation undoes nothing.  The ingest names the orphaned blocks by
    height with a zero hash, so the server finds none of them to roll back: as
    long as nothing is evicted, every nullifier the table had is still reported
    spent after the event, those that only the orphaned blocks spent included. *)
Theorem reorg_keeps_orphaned db M s block orphaned new_block s' nf :
  table_run db M -> (forall h x, M !! h = Some x -> fst x <> replicate 32 0) ->
  nf_follow_block s block = ([N_Reorg orphaned [new_block]], s') ->
  Forall valid_nullifier (nb_nullifiers new_block) ->
  total M + zlen (nb_nullifiers new_block) <= TARGET_SIZE -> nf <> zero_nullifier -> spends M nf ->
  contains (snd (nf_follow_event db (N_Reorg orphaned [new_block]))) nf = true.
Proof.
  intros Hrun Hz Hev Hv Hsmall Hnf Hsp. apply table_run_repr in Hrun as Ht.
  assert (Ho : Forall (fun b => ob_hash b = replicate 32 0) orphaned).
  { unfold nf_follow_block in Hev. destruct (extract_nullifiers_with_meta _ _) as [nfs ts].
    destruct (push_block _ _ _ _) as [[|rollback_to] tr]; [done|]. injection Hev as <- _ _.
    apply Forall_fmap, Forall_true. done. }
  unfold nf_follow_event. rewrite (rollback_zero_hashes M) by done.
  pose proof (table_of_num_entries _ _ Ht) as Hn. pose proof (contains_spends _ _ _ Ht Hnf) as Hc.
  destruct Ht as (B & -> & Hr). pose proof (stored_nonneg B). rewrite total_view in *.
  destruct Hr as [(F & Hh & Hp) _ _ _ _ _ _]. set (nfs := nb_nullifiers new_block) in *.
  assert (exists t e', F !! t = Some e' /\ ne_nullifier e' = nf) as (t & e' & HF & He)
    by (apply (contains_slots (ht_buckets db) F db nf eq_refl Hh Hnf); by apply Hc).
  pose proof (zlen_nonneg nfs). change TARGET_SIZE with 1000000 in Hsmall.
  destruct (insert_nullifiers_mono (wrap32 (nb_height new_block)) nfs ltac:(by apply Z.mod_pos_bound) db F [])
    as (F' & Hh' & Hsub & Hn'); [done|done|lia|unfold u64_bound; lia|].
  pose proof (insert_block_buckets db (nb_height new_block) (nb_hash new_block) nfs) as Hb.
  destruct (insert_nullifiers db _ nfs []) as [r1 db1]. cbn [snd] in *.
  cbn [insert_new_blocks]. fold nfs. destruct (insert_block _ _ _ nfs) as [[[]|e] db2]; destruct Hb as [Hb1 Hb2];
    cbn [snd]; [rewrite evict_below_target by (change TARGET_SIZE with 1000000; lia)|];
    apply (contains_slots (ht_buckets db2) F'); try done; try (by rewrite Hb1);
    exists t, e'; (split; [by eapply lookup_weaken|done]).
Qed.

(** ** Examples *)

Definition sample_nf (tag : Z) : NullifierWithMeta :=
  {| nm_nullifier := replicate 32 tag; nm_first_output_position := 5; nm_action_count := 2 |}.

Lemma sample_nf_valid tag : 0 < tag < 256 -> valid_nullifier (sample_nf tag).
Proof.
  intros Ht. constructor; [intros [= E]; lia|done| |done|done].
  apply Forall_replicate. unfold byte_ok. lia.
Qed.

(** Block 10 with two nullifiers. *)
Definition sample_table : HashTableDb :=
  snd (insert_block HashTableDb_new 10 (replicate 32 10) [sample_nf 7; sample_nf 8]).
Definition sample_map : Blocks :=
  <[10 := (replicate 32 10, entry_of 10 <$> [sample_nf 7; sample_nf 8])]> ∅.

Lemma sample_run : table_run sample_table sample_map.
Proof.
  apply (run_insert HashTableDb_new ∅ 10 (replicate 32 10) [sample_nf 7; sample_nf 8]).
  - apply run_new.
  - split; [apply lookup_empty|]. intros h x Hx. by rewrite lookup_empty in Hx.
  - repeat (apply Forall_cons; split; [by apply sample_nf_valid|]). constructor.
  - reflexivity.
  - rewrite (surjective_pairing (insert_block _ _ _ _)). by unfold sample_table; f_equal.
Qed.

Lemma sample_spends : spends sample_map (replicate 32 7).
Proof.
  exists 10, (replicate 32 10, entry_of 10 <$> [sample_nf 7; sample_nf 8]), (entry_of 10 (sample_nf 7)).
  split; [by apply lookup_insert_eq|]. split; [apply list_elem_of_here|done].
Qed.

Lemma nullifier_table_refines_witness : contains sample_table (replicate 32 7) = true /\ ht_num_entries sample_table = 2.
Proof.
  destruct (nullifier_table_refines sample_table sample_map (replicate 32 7) sample_run) as [Hc Hn].
  - discriminate.
  - split; [apply Hc, sample_spends|]. rewrite Hn. reflexivity.
Defined.

Lemma eviction_keeps_newest_witness :
  exists M', recent sample_map M' /\ ht_num_entries (evict_to_target sample_table) = total M'.
Proof.
  destruct (eviction_keeps_newest sample_table sample_map sample_run) as (M' & Hr & Hn & _).
  exists M'. split; [exact Hr|exact Hn].
Defined.

Lemma insert_fits_witness :
  exists db', insert_block HashTableDb_new 10 (replicate 32 10) [sample_nf 7] = (Ok tt, db') /\
    contains db' (replicate 32 7) = true.
Proof.
  destruct (insert_fits HashTableDb_new ∅ 10 (replicate 32 10) [sample_nf 7] run_new) as (db' & H1 & H2).
  - split; [apply lookup_empty|]. intros h x Hx. by rewrite lookup_empty in Hx.
  - repeat (apply Forall_cons; split; [by apply sample_nf_valid|]). constructor.
  - reflexivity.
  - intros b Hb. unfold bucket_load, arrivals. cbn [ht_buckets HashTableDb_new].
    rewrite lookup_replicate_2 by lia. unfold zlen.
    pose proof (length_filter (fun nwm => hash_to_bucket (nm_nullifier nwm) = b) [sample_nf 7]) as Hl. cbn [length] in Hl.
    change (length (filter (fun e => entry_is_empty e = false) (bu_entries Bucket_new))) with 0%nat.
    change BUCKET_CAPACITY with 112. lia.
  - exists db'. split; [exact H1|]. apply H2; [discriminate|]. right. apply list_elem_of_here.
Defined.

(** A tip at height 10 that another block 10 replaces. *)
Definition tip_follow : FollowState :=
  {| fo_tracker := {| tk_chain := [(9, replicate 32 9); (10, replicate 32 10)]; tk_max_depth := 20 |};
     fo_current_height := 10; fo_prev_tree_size := None |}.
Definition replacing_block : CompactBlock :=
  {| kb_height := 10; kb_hash := replicate 32 20; kb_prev_hash := replicate 32 9; kb_vtx := []; kb_tree_size := None |}.

Lemma reorg_keeps_orphaned_witness :
  contains (snd (nf_follow_event sample_table (N_Reorg [{| ob_height := 10; ob_hash := replicate 32 0 |}]
    [{| nb_height := 10; nb_hash := replicate 32 20; nb_nullifiers := [] |}]))) (replicate 32 7) = true.
Proof.
  apply (reorg_keeps_orphaned sample_table sample_map tip_follow replacing_block _ _
    (snd (nf_follow_block tip_follow replacing_block))).
  - exact sample_run.
  - intros h x Hx. unfold sample_map in Hx. apply lookup_insert_Some in Hx as [[_ <-]|[_ Hx]]; [discriminate|by rewrite lookup_empty in Hx].
  - vm_compute. reflexivity.
  - constructor.
  - discriminate.
  - discriminate.
  - exact sample_spends.
Defined.
