(* ===== verification/Float64.v ===== *)
(** * The [f64] of the monitoring sidecar

    [server/pir-apm] computes with [f64].  A value is the standard library's
    [spec_float] (sign, mantissa, exponent, with infinities and one NaN) and the
    operations are its binary64 instances, rounding to nearest even.  Parsing
    ([str::parse]) and printing ([{:.k}]) are the correctly rounded decimal
    conversions of Rust's library.  The lemmas say that integers below [2^53] are
    represented exactly and that adding, subtracting and comparing them is exact:
    this is what makes the counters of the exposition add up. *)

From Stdlib Require Import ZArith Lia.
From Stdlib Require Import Floats.SpecFloat.
From stdpp Require Import base numbers list strings pretty.
From S2P Require Import Prelude.

Definition f64 : Type := spec_float.
Definition PREC : Z := 53.
Definition EMAX : Z := 1024.

Definition fadd (x y : f64) : f64 := SFadd PREC EMAX x y.
Definition fsub (x y : f64) : f64 := SFsub PREC EMAX x y.
Definition fmul (x y : f64) : f64 := SFmul PREC EMAX x y.
Definition fdiv (x y : f64) : f64 := SFdiv PREC EMAX x y.
Definition flt (x y : f64) : bool := SFltb x y.
Definition fle (x y : f64) : bool := SFleb x y.
Definition feq (x y : f64) : bool := SFeqb x y.

(** [n as f64] of an integer. *)
Definition f64_of_Z (n : Z) : f64 := binary_normalize PREC EMAX n 0 false.
Definition fzero : f64 := S754_zero false.
Definition INFINITY : f64 := S754_infinity false.

(** The correctly rounded quotient of two integers, [0 <= n] and [0 < d]. *)
Definition f64_ratio (s : bool) (n : Z) (d : Z) : f64 :=
  if n =? 0 then S754_zero s else
  let '(m, e, l) := SFdiv_core_binary PREC EMAX n 0 d 0 in
  binary_round_aux PREC EMAX s m e l.

(** A decimal literal [n / 10^k]. *)
Definition f64_decimal (n : Z) (k : Z) : f64 := f64_ratio false n (10 ^ k).

Definition is_nan (x : f64) : bool := match x with S754_nan => true | _ => false end.
Definition is_infinite (x : f64) : bool := match x with S754_infinity _ => true | _ => false end.
Definition is_finite (x : f64) : bool := negb (is_nan x) && negb (is_infinite x).

(** [f64::max]: a NaN argument is ignored. *)
Definition fmax (x y : f64) : f64 :=
  if is_nan x then y else if is_nan y then x else if flt x y then y else x.

(** [total_cmp], as [left <= right]: by sign, then by magnitude, NaN last.  The
    single NaN here is the positive one. *)
Definition magnitude_compare (x y : f64) : comparison :=
  match x, y with
  | S754_nan, S754_nan => Eq
  | S754_nan, _ => Gt
  | _, S754_nan => Lt
  | S754_infinity _, S754_infinity _ => Eq
  | S754_infinity _, _ => Gt
  | _, S754_infinity _ => Lt
  | S754_zero _, S754_zero _ => Eq
  | S754_zero _, S754_finite _ _ _ => Lt
  | S754_finite _ _ _, S754_zero _ => Gt
  | S754_finite _ m e, S754_finite _ m' e' =>
      match e ?= e' with Eq => (m ?= m')%positive | c => c end
  end.
Definition negative (x : f64) : bool :=
  match x with S754_nan => false | S754_zero s | S754_infinity s | S754_finite s _ _ => s end.
Definition total_cmp (x y : f64) : comparison :=
  match negative x, negative y with
  | true, false => Lt
  | false, true => Gt
  | false, false => magnitude_compare x y
  | true, true => CompOpp (magnitude_compare x y)
  end.

(** ** Printing: [{:.k}] *)

(** [n / d] rounded to the nearest integer, ties to even. *)
Definition round_ratio (n d : Z) : Z :=
  let q := n / d in let r := n mod d in
  match 2 * r ?= d with Lt => q | Gt => q + 1 | Eq => if Z.even q then q else q + 1 end.

Fixpoint pad_zeros (n : nat) (s : string) : string :=
  match n with O => s | S n => ("0" +:+ pad_zeros n s)%string end.

Definition digits_fixed (k : nat) (scaled : Z) : string :=
  let whole := pretty (Z.to_N (scaled / 10 ^ Z.of_nat k)) in
  match k with
  | O => whole
  | _ =>
      let frac := pretty (Z.to_N (scaled mod 10 ^ Z.of_nat k)) in
      (whole +:+ "." +:+ pad_zeros (k - String.length frac) frac)%string
  end.

Definition fmt_fixed (k : nat) (x : f64) : string :=
  let sign := (if negative x then "-" else "")%string in
  match x with
  | S754_nan => "NaN"%string
  | S754_infinity _ => (sign +:+ "inf")%string
  | S754_zero _ => (sign +:+ digits_fixed k 0)%string
  | S754_finite _ m e =>
      let n := Zpos m * 10 ^ Z.of_nat k in
      let scaled := if 0 <=? e then n * 2 ^ e else round_ratio n (2 ^ (- e)) in
      (sign +:+ digits_fixed k scaled)%string
  end.

(** ** Parsing: [str::parse::<f64>] *)

Definition is_digit (b : Z) : bool := (48 <=? b) && (b <=? 57).

Fixpoint take_digits (l : list Z) (acc n : Z) : Z * Z * list Z :=
  match l with
  | b :: l' => if is_digit b then take_digits l' (10 * acc + (b - 48)) (n + 1) else (acc, n, l)
  | [] => (acc, n, [])
  end.

Definition lowercase (b : Z) : Z := if (65 <=? b) && (b <=? 90) then b + 32 else b.
Definition word (s : string) (l : list Z) : bool :=
  bool_decide ((lowercase <$> l) = string_bytes s).

Definition take_sign (l : list Z) : bool * list Z :=
  match l with
  | b :: l' => if b =? 45 then (true, l') else if b =? 43 then (false, l') else (false, l)
  | [] => (false, [])
  end.

(** The exponent part, and that nothing follows it. *)
Definition parse_exponent (l : list Z) : option Z :=
  match l with
  | [] => Some 0
  | b :: l =>
      if lowercase b =? 101 then
        let '(neg, l) := take_sign l in
        let '(v, n, rest) := take_digits l 0 0 in
        if (n =? 0) || negb (bool_decide (rest = [])) then None
        else Some (if (neg : bool) then - v else v)
      else None
  end.

Definition f64_of_decimal (s : bool) (mantissa exponent : Z) : f64 :=
  if 0 <=? exponent then f64_ratio s (mantissa * 10 ^ exponent) 1
  else f64_ratio s mantissa (10 ^ (- exponent)).

Definition parse_f64 (l : list Z) : option f64 :=
  let '(s, l) := take_sign l in
  if word "inf" l || word "infinity" l then Some (S754_infinity s)
  else if word "nan" l then Some S754_nan
  else
    let '(whole, n, rest) := take_digits l 0 0 in
    let '(mantissa, total, rest) :=
      match rest with
      | b :: rest' => if b =? 46 then take_digits rest' whole n else (whole, n, rest)
      | [] => (whole, n, rest)
      end in
    if total =? 0 then None
    else match parse_exponent rest with
         | Some e => Some (f64_of_decimal s mantissa (e - (total - n)))
         | None => None
         end.

(** ** Integers below [2^53] are exact *)

Lemma digits2_log2 p : Zpos (digits2_pos p) = Z.log2 (Zpos p) + 1.
Proof.
  induction p as [p IH|p IH|]; [..|reflexivity]; cbn [digits2_pos]; rewrite Pos2Z.inj_succ, IH.
  - rewrite (Pos2Z.inj_xI p), Z.log2_succ_double by lia. lia.
  - rewrite (Pos2Z.inj_xO p), Z.log2_double by lia. lia.
Qed.

Lemma iter_xO m d : Zpos (Pos.iter xO m d) = Zpos m * 2 ^ Zpos d.
Proof.
  induction d as [|d IH] using Pos.peano_ind; [cbn; lia|].
  rewrite Pos.iter_succ, Pos2Z.inj_xO, IH, Pos2Z.inj_succ, Z.pow_succ_r by lia. lia.
Qed.

Lemma iter_pos_iter {A} (f : A -> A) n x : SpecFloat.iter_pos f n x = Nat.iter (Pos.to_nat n) f x.
Proof.
  revert x; induction n as [n IH|n IH|]; intros x; [..|reflexivity]; cbn [SpecFloat.iter_pos]; rewrite !IH.
  - rewrite Pos2Nat.inj_xI, <- !Nat.iter_add.
    replace (S (2 * Pos.to_nat n)) with (Pos.to_nat n + Pos.to_nat n + 1)%nat by lia.
    by rewrite !Nat.iter_add.
  - rewrite Pos2Nat.inj_xO, <- Nat.iter_add. f_equal; lia.
Qed.

Lemma shr_exact n m :
  0 < m ->
  Nat.iter n shr_1 (Build_shr_record (m * 2 ^ Z.of_nat n) false false) = Build_shr_record m false false.
Proof.
  intros Hm. induction n as [|n IH]; [cbn; by rewrite Z.mul_1_r|].
  rewrite Nat.iter_succ_r.
  replace (m * 2 ^ Z.of_nat (S n)) with (2 * (m * 2 ^ Z.of_nat n))
    by (rewrite Nat2Z.inj_succ, Z.pow_succ_r by lia; lia).
  assert (0 < m * 2 ^ Z.of_nat n) by (apply Z.mul_pos_pos; lia).
  destruct (m * 2 ^ Z.of_nat n) as [|p|p]; [lia| |lia]. exact IH.
Qed.

(** The representation of a positive integer: its mantissa fills 53 bits. *)
Definition canon (v : Z) : f64 :=
  let d := Z.log2 v + 1 in S754_finite false (Z.to_pos (v * 2 ^ (PREC - d))) (d - PREC).

Lemma log2_53 v : 0 < v < 2 ^ 53 -> 0 <= Z.log2 v < 53.
Proof. intros. split; [apply Z.log2_nonneg|apply Z.log2_lt_pow2; lia]. Qed.

Lemma fexp_normal d : 1 <= d <= 53 -> fexp PREC EMAX d = d - 53.
Proof. intros. unfold fexp, emin, PREC, EMAX. lia. Qed.

(** A mantissa that keeps at least the 53 bits is cut without loss. *)
Lemma round_aux_exact v k :
  0 < v < 2 ^ 53 -> PREC - (Z.log2 v + 1) <= k ->
  binary_round_aux PREC EMAX false (v * 2 ^ k) (- k) loc_Exact = canon v.
Proof.
  intros Hv Hk. pose proof (log2_53 v Hv) as Hd. set (d := Z.log2 v + 1) in *. unfold PREC in *.
  assert (Hk' : exists n : nat, k = (53 - d) + Z.of_nat n) by (exists (Z.to_nat (k - (53 - d))); lia).
  destruct Hk' as [n ->].
  assert (Hpos : forall j, 0 <= j -> 0 < v * 2 ^ j) by (intros; apply Z.mul_pos_pos; lia).
  assert (Hdig : forall j, 0 <= j -> Zdigits2 (v * 2 ^ j) = d + j).
  { intros j Hj. pose proof (Hpos j Hj) as Hp.
    assert (El : Z.log2 (v * 2 ^ j) = j + Z.log2 v) by (apply Z.log2_mul_pow2; lia).
    destruct (v * 2 ^ j) as [|p|p]; [lia| |lia]. cbn [Zdigits2]. rewrite digits2_log2. lia. }
  unfold binary_round_aux, shr_fexp. rewrite Hdig by lia.
  replace (d + (53 - d + Z.of_nat n) + - (53 - d + Z.of_nat n)) with d by lia.
  rewrite fexp_normal by lia. cbn [shr_record_of_loc].
  assert (Es : shr (Build_shr_record (v * 2 ^ (53 - d + Z.of_nat n)) false false)
            (- (53 - d + Z.of_nat n)) (d - 53 - - (53 - d + Z.of_nat n)) =
          (Build_shr_record (v * 2 ^ (53 - d)) false false, d - 53)).
  { replace (d - 53 - - (53 - d + Z.of_nat n)) with (Z.of_nat n) by lia.
    rewrite Z.pow_add_r, Z.mul_assoc by lia.
    destruct n as [|n]; [rewrite Z.pow_0_r, Z.mul_1_r, Z.add_0_r; unfold shr; cbn; f_equal; lia|].
    unfold shr. destruct (Z.of_nat (S n)) as [|q|q] eqn:Eq; [lia| |lia].
    rewrite iter_pos_iter. replace (Pos.to_nat q) with (S n) by lia. rewrite <- Eq.
    rewrite shr_exact by (apply Hpos; lia). f_equal; lia. }
  rewrite Es. cbn [shr_m loc_of_shr_record round_nearest_even].
  rewrite Hdig by lia. replace (d + (53 - d) + (d - 53)) with d by lia.
  rewrite fexp_normal by lia. rewrite Z.sub_diag. cbn [shr shr_m].
  pose proof (Hpos (53 - d) ltac:(lia)) as Hp. unfold canon, PREC, EMAX. fold d.
  destruct (v * 2 ^ (53 - d)) as [|p|p]; [lia| |lia].
  guards. reflexivity.
Qed.

(** Rounding an integer written with any scale gives its representation. *)
Lemma round_exact v p k :
  0 < v < 2 ^ 53 -> 0 <= k -> Zpos p = v * 2 ^ k -> binary_round PREC EMAX false p (- k) = canon v.
Proof.
  intros Hv Hk Ep. pose proof (log2_53 v Hv) as Hd.
  unfold binary_round, shl_align. rewrite digits2_log2, Ep, Z.log2_mul_pow2 by lia.
  replace (k + Z.log2 v + 1 + - k) with (Z.log2 v + 1) by lia. rewrite fexp_normal by lia.
  pose proof (round_aux_exact v) as Hr. unfold PREC in Hr at 1.
  destruct (Z.log2 v + 1 - 53 - - k) as [|q|q] eqn:Eq.
  1, 2: rewrite Ep; apply Hr; [done|lia].
  rewrite iter_xO, Ep, <- Z.mul_assoc, <- Z.pow_add_r by lia.
  replace (k + Zpos q) with (53 - (Z.log2 v + 1)) by lia.
  replace (Z.log2 v + 1 - 53) with (- (53 - (Z.log2 v + 1))) by lia. apply Hr; [done|lia].
Qed.

Lemma f64_of_Z_canon v : 0 < v < 2 ^ 53 -> f64_of_Z v = canon v.
Proof.
  intros Hv. destruct v as [|p|p]; [lia| |lia].
  apply (round_exact (Zpos p) p 0); [done|lia|by rewrite Z.pow_0_r, Z.mul_1_r].
Qed.

(** A mantissa moved down to a common exponent. *)
Lemma align_canon v ez :
  0 < v < 2 ^ 53 -> ez <= Z.log2 v + 1 - PREC ->
  Zpos (fst (shl_align (Z.to_pos (v * 2 ^ (PREC - (Z.log2 v + 1)))) (Z.log2 v + 1 - PREC) ez)) =
  v * 2 ^ (- ez).
Proof.
  intros Hv Hez. pose proof (log2_53 v Hv) as Hd. unfold PREC in *.
  assert (0 < v * 2 ^ (53 - (Z.log2 v + 1))) by (apply Z.mul_pos_pos; lia).
  unfold shl_align. destruct (ez - (Z.log2 v + 1 - 53)) as [|q|q] eqn:Eq; cbn [fst]; [| lia |].
  - rewrite Z2Pos.id by done. f_equal. f_equal. lia.
  - rewrite iter_xO, Z2Pos.id by done. rewrite <- Z.mul_assoc, <- Z.pow_add_r by lia.
    f_equal. f_equal. lia.
Qed.

Lemma fadd_exact a b : 0 <= a -> 0 <= b -> a + b < 2 ^ 53 -> fadd (f64_of_Z a) (f64_of_Z b) = f64_of_Z (a + b).
Proof.
  intros Ha Hb Hab. destruct (decide (a = 0)) as [->|]; [|destruct (decide (b = 0)) as [->|]].
  - destruct (decide (b = 0)) as [->|]; [done|]. by rewrite Z.add_0_l, (f64_of_Z_canon b) by lia.
  - by rewrite Z.add_0_r, (f64_of_Z_canon a) by lia.
  - rewrite !f64_of_Z_canon by lia. unfold fadd, SFadd, canon. cbv zeta. cbn [cond_Zopp].
    rewrite !align_canon by lia. rewrite <- Z.mul_add_distr_r.
    set (ez := Z.min _ _). pose proof (log2_53 a ltac:(lia)). pose proof (log2_53 b ltac:(lia)).
    assert (Hez : ez <= 0) by (unfold ez, PREC; lia).
    assert (0 < (a + b) * 2 ^ (- ez)) by (apply Z.mul_pos_pos; lia).
    destruct ((a + b) * 2 ^ (- ez)) as [|p|p] eqn:Ep; [lia| |lia]. cbn [binary_normalize].
    replace ez with (- - ez) by lia. apply round_exact; [lia..|]. by rewrite <- Ep.
Qed.

Lemma fsub_exact a b : 0 <= b <= a -> a < 2 ^ 53 -> fsub (f64_of_Z a) (f64_of_Z b) = f64_of_Z (a - b).
Proof.
  intros Hb Ha. destruct (decide (b = 0)) as [->|].
  { rewrite Z.sub_0_r. destruct (decide (a = 0)) as [->|]; [done|]. by rewrite (f64_of_Z_canon a) by lia. }
  rewrite !(f64_of_Z_canon a), !(f64_of_Z_canon b) by lia. unfold fsub, SFsub, canon.
  cbv zeta. cbn [cond_Zopp]. rewrite !align_canon by lia. rewrite <- Z.mul_sub_distr_r.
  set (ez := Z.min _ _). destruct (decide (a = b)) as [->|]; [by rewrite Z.sub_diag|].
  pose proof (log2_53 a ltac:(lia)). pose proof (log2_53 b ltac:(lia)).
  assert (Hez : ez <= 0) by (unfold ez, PREC; lia).
  assert (0 < (a - b) * 2 ^ (- ez)) by (apply Z.mul_pos_pos; lia).
  rewrite f64_of_Z_canon by lia.
  destruct ((a - b) * 2 ^ (- ez)) as [|p|p] eqn:Ep; [lia| |lia]. cbn [binary_normalize].
  replace ez with (- - ez) by lia. apply round_exact; [lia..|]. by rewrite <- Ep.
Qed.

Lemma fcompare_exact a b : 0 <= a < 2 ^ 53 -> 0 <= b < 2 ^ 53 -> SFcompare (f64_of_Z a) (f64_of_Z b) = Some (a ?= b).
Proof.
  intros Ha Hb. destruct (decide (a = 0)) as [->|]; destruct (decide (b = 0)) as [->|].
  - done.
  - rewrite (f64_of_Z_canon b) by lia. destruct b; [lia|done|lia].
  - rewrite (f64_of_Z_canon a) by lia. destruct a; [lia|done|lia].
  - rewrite (f64_of_Z_canon a), (f64_of_Z_canon b) by lia. unfold canon. cbv zeta. cbn [SFcompare]. f_equal.
    unfold PREC. destruct (Z.compare_spec (Z.log2 a + 1 - 53) (Z.log2 b + 1 - 53)) as [E|E|E].
    + assert (El : Z.log2 a = Z.log2 b) by lia. rewrite El. pose proof (log2_53 b ltac:(lia)).
      change (Pos.compare_cont Eq ?x ?y) with (Pos.compare x y). rewrite Pos2Z.inj_compare.
      rewrite !Z2Pos.id by (apply Z.mul_pos_pos; lia). symmetry. apply Zmult_compare_compat_r. lia.
    + symmetry. apply Z.compare_lt_iff. destruct (Z.le_gt_cases b a); [|lia].
      pose proof (Z.log2_le_mono b a). lia.
    + symmetry. apply Z.compare_gt_iff. destruct (Z.le_gt_cases a b); [|lia].
      pose proof (Z.log2_le_mono a b). lia.
Qed.

Lemma flt_exact a b : 0 <= a < 2 ^ 53 -> 0 <= b < 2 ^ 53 -> flt (f64_of_Z a) (f64_of_Z b) = (a <? b).
Proof. intros. unfold flt, SFltb, Z.ltb. rewrite fcompare_exact by done. by destruct (a ?= b). Qed.
