(* ===== verification/ApmSchema.v ===== *)
(** * The schema of the monitoring sidecar

    Models [server/pir-apm/src/schema.rs] and [thresholds.rs], and the part of
    [config.rs] that builds a schema from environment variables: the metric
    families derived from a prefix, the checks of [Schema::new], and how an
    endpoint's latency budget is chosen.  Socket addresses, paths and the host
    name of [Config] are not modelled.  The lemmas: an accepted schema has
    well-formed, distinct endpoints and positive budgets, so every budget the
    alert engine uses is a positive finite number. *)

From Stdlib Require Import ZArith Lia.
From stdpp Require Import base numbers list strings gmap.
From S2P Require Import Prelude Float64.

(** ** Thresholds *)

Definition SCRAPE_FAILURE_TICKS : Z := 2.
Definition READY_FAILURE_SECONDS : Z := 5 * 60.
Definition HTTP_5XX_RATIO : f64 := f64_decimal 5 2.
Definition HTTP_5XX_MIN_REQUESTS : f64 := f64_of_Z 10.
Definition DEFAULT_LATENCY_P99_SECONDS : f64 := f64_of_Z 1.
Definition LATENCY_MIN_REQUESTS : f64 := f64_of_Z 20.
Definition DISK_USED_RATIO : f64 := f64_decimal 90 2.
Definition MEMORY_AVAILABLE_BYTES : Z := 512 * 1024 * 1024.
Definition WORKER_RSS_LIMIT_BYTES : Z := 2 * 1024 * 1024 * 1024.

(** ** The schema *)

Record Schema := {
  sc_prefix : string;
  sc_endpoints : list string;
  sc_processing_endpoints : gset string;
  sc_informational_endpoints : gset string;
  sc_default_latency_p99 : f64;
  sc_latency_overrides : gmap string f64;
  sc_requests_total : string;
  sc_duration_bucket : string; sc_duration_sum : string; sc_duration_count : string;
  sc_processing_bucket : string; sc_processing_sum : string; sc_processing_count : string;
  sc_in_flight : string; sc_processing_in_flight : string;
  sc_gauge_prefix : string; sc_worker_prefix : string; sc_layout_prefix : string;
  sc_table_prefix : string; sc_worker_table_prefix : string; sc_worker_group_prefix : string;
  sc_worker_replica_requests_total : string;
  sc_worker_replica_duration_bucket : string; sc_worker_replica_duration_sum : string;
  sc_worker_replica_duration_count : string; sc_worker_replica_in_flight : string }.

(** [byte.is_ascii_lowercase() || byte.is_ascii_digit() || byte == b'_']. *)
Definition identifier_byte (b : Z) : bool :=
  ((97 <=? b) && (b <=? 122)) || ((48 <=? b) && (b <=? 57)) || (b =? 95).

Definition is_identifier (value : string) : bool :=
  negb (bool_decide (value = "")) && forallb identifier_byte (string_bytes value).

Definition positive_budget (budget : f64) : bool := is_finite budget && flt fzero budget.

(** The endpoint loop: well-formed names, no duplicate. *)
Fixpoint check_endpoints (seen : gset string) (endpoints : list string) : result string unit :=
  match endpoints with
  | [] => Ok tt
  | endpoint :: rest =>
      if negb (is_identifier endpoint) then Err "endpoint {endpoint:?} must match [a-z0-9_]+" else
      if bool_decide (endpoint ∈ seen) then Err "duplicate endpoint {endpoint:?}"
      else check_endpoints ({[endpoint]} ∪ seen) rest
  end.

Fixpoint check_overrides (overrides : list (string * f64)) : result string unit :=
  match overrides with
  | [] => Ok tt
  | (endpoint, budget) :: rest =>
      if negb (is_identifier endpoint)
      then Err "latency override for {endpoint:?} must match [a-z0-9_]+" else
      if negb (positive_budget budget) then Err "latency budget for {endpoint:?} must be positive"
      else check_overrides rest
  end.

Definition Schema_new (prefix : string) (endpoints : list string)
    (processing_endpoints informational_endpoints : gset string)
    (default_latency_p99 : f64) (latency_overrides : gmap string f64) : result string Schema :=
  if negb (is_identifier prefix) then Err "metric prefix {prefix:?} must match [a-z0-9_]+" else
  if bool_decide (endpoints = []) then Err "at least one endpoint is required" else
  let? _ := check_endpoints ∅ endpoints in
  if negb (forallb is_identifier (elements processing_endpoints ++ elements informational_endpoints))
  then Err "endpoint {endpoint:?} must match [a-z0-9_]+" else
  let? _ := check_overrides (sorted_entries latency_overrides) in
  if negb (positive_budget default_latency_p99) then Err "default latency budget must be positive" else
  Ok {| sc_requests_total := (prefix +:+ "_http_requests_total")%string;
        sc_duration_bucket := (prefix +:+ "_http_request_duration_seconds_bucket")%string;
        sc_duration_sum := (prefix +:+ "_http_request_duration_seconds_sum")%string;
        sc_duration_count := (prefix +:+ "_http_request_duration_seconds_count")%string;
        sc_processing_bucket := (prefix +:+ "_http_request_processing_duration_seconds_bucket")%string;
        sc_processing_sum := (prefix +:+ "_http_request_processing_duration_seconds_sum")%string;
        sc_processing_count := (prefix +:+ "_http_request_processing_duration_seconds_count")%string;
        sc_in_flight := (prefix +:+ "_http_in_flight")%string;
        sc_processing_in_flight := (prefix +:+ "_http_processing_in_flight")%string;
        sc_gauge_prefix := (prefix +:+ "_snapshot_")%string;
        sc_worker_prefix := (prefix +:+ "_worker_")%string;
        sc_layout_prefix := (prefix +:+ "_layout_")%string;
        sc_table_prefix := (prefix +:+ "_table_")%string;
        sc_worker_table_prefix := (prefix +:+ "_worker_table_")%string;
        sc_worker_group_prefix := (prefix +:+ "_worker_group_")%string;
        sc_worker_replica_requests_total := (prefix +:+ "_worker_replica_requests_total")%string;
        sc_worker_replica_duration_bucket :=
          (prefix +:+ "_worker_replica_request_duration_seconds_bucket")%string;
        sc_worker_replica_duration_sum :=
          (prefix +:+ "_worker_replica_request_duration_seconds_sum")%string;
        sc_worker_replica_duration_count :=
          (prefix +:+ "_worker_replica_request_duration_seconds_count")%string;
        sc_worker_replica_in_flight := (prefix +:+ "_worker_replica_in_flight")%string;
        sc_prefix := prefix; sc_endpoints := endpoints;
        sc_processing_endpoints := processing_endpoints;
        sc_informational_endpoints := informational_endpoints;
        sc_default_latency_p99 := default_latency_p99;
        sc_latency_overrides := latency_overrides |}.

(** [enhance_default]; its [expect] cannot fail ([enhance_default_valid]). *)
Definition enhance_default : result string Schema :=
  Schema_new "enhance" ["health"; "init"; "query"] {["query"]} {["health"]}
    DEFAULT_LATENCY_P99_SECONDS (<["query" := f64_of_Z 5]> {["init" := f64_of_Z 2]}).

Section schema.
Context (self : Schema).

Definition knows (endpoint : string) : bool := existsb (fun known => bool_decide (known = endpoint)) (sc_endpoints self).
Definition uses_processing (endpoint : string) : bool :=
  bool_decide (endpoint ∈ sc_processing_endpoints self).
Definition is_informational (endpoint : string) : bool :=
  bool_decide (endpoint ∈ sc_informational_endpoints self).

Definition latency_budget (endpoint : string) : option f64 :=
  if is_informational endpoint then None
  else Some (default (sc_default_latency_p99 self) (sc_latency_overrides self !! endpoint)).

Definition observed_budget (endpoint : string) : option f64 :=
  if uses_processing endpoint then None else latency_budget endpoint.

End schema.

(** ** Text helpers of the standard library *)

(** The characters [char::is_whitespace] accepts, by their UTF-8 encodings of
    one, two and three bytes. *)
Definition ascii_space (a : Z) : bool := ((9 <=? a) && (a <=? 13)) || (a =? 32).
Definition space2 (a b : Z) : bool := (a =? 0xC2) && ((b =? 0x85) || (b =? 0xA0)).
Definition space3 (a b c : Z) : bool :=
  ((a =? 0xE1) && (b =? 0x9A) && (c =? 0x80)) ||
  ((a =? 0xE2) && (b =? 0x80) &&
     (((0x80 <=? c) && (c <=? 0x8A)) || (c =? 0xA8) || (c =? 0xA9) || (c =? 0xAF))) ||
  ((a =? 0xE2) && (b =? 0x81) && (c =? 0x9F)) ||
  ((a =? 0xE3) && (b =? 0x80) && (c =? 0x80)).

(** The rest after a leading whitespace character; and, over reversed bytes,
    after a trailing one. *)
Definition whitespace_prefix (l : list Z) : option (list Z) :=
  match l with
  | a :: l1 => if ascii_space a then Some l1 else
      match l1 with
      | b :: l2 => if space2 a b then Some l2 else
          match l2 with
          | c :: l3 => if space3 a b c then Some l3 else None
          | [] => None
          end
      | [] => None
      end
  | [] => None
  end.
Definition whitespace_suffix (l : list Z) : option (list Z) :=
  match l with
  | a :: l1 => if ascii_space a then Some l1 else
      match l1 with
      | b :: l2 => if space2 b a then Some l2 else
          match l2 with
          | c :: l3 => if space3 c b a then Some l3 else None
          | [] => None
          end
      | [] => None
      end
  | [] => None
  end.

Fixpoint strip_while (strip : list Z -> option (list Z)) (fuel : nat) (l : list Z) : list Z :=
  match fuel with
  | O => l
  | S fuel => match strip l with Some rest => strip_while strip fuel rest | None => l end
  end.

(** [str::trim_start], [trim_end] and [trim]; the length bounds the number of
    characters removed. *)
Definition trim_start (l : list Z) : list Z := strip_while whitespace_prefix (length l) l.
Definition trim_end (l : list Z) : list Z :=
  reverse (strip_while whitespace_suffix (length l) (reverse l)).
Definition trim (l : list Z) : list Z := trim_end (trim_start l).

(** [str::split(separator)]. *)
Fixpoint split_on (separator : Z) (l : list Z) (current : list Z) : list (list Z) :=
  match l with
  | [] => [reverse current]
  | b :: l =>
      if b =? separator then reverse current :: split_on separator l []
      else split_on separator l (b :: current)
  end.

(** ** The schema of a configuration *)

Definition split_list (items : string) : list string :=
  bytes_string <$> base.filter (fun item => item <> []) (trim <$> split_on 44 (string_bytes items) []).

Fixpoint override_items (items : list string) (overrides : gmap string f64) : result string (gmap string f64) :=
  match items with
  | [] => Ok overrides
  | item :: items =>
      let? (endpoint, seconds) := ok_or (split_once 61 (string_bytes item) [])
        "override {item:?} must look like endpoint=seconds"%string in
      let? seconds := ok_or (parse_f64 (trim seconds)) "override {item:?} has a non-numeric budget"%string in
      override_items items (<[bytes_string (trim endpoint) := seconds]> overrides)
  end.
Definition parse_overrides (items : string) : result string (gmap string f64) :=
  override_items (split_list items) ∅.

Definition path_value (value : string) : result string string :=
  match string_bytes value with
  | 47 :: _ => Ok value
  | _ => Err "probe path {value:?} must start with '/'"%string
  end.

(** The closure [get] of [Config::from_map]. *)
Definition get_var (vars : gmap string string) (name : string) : option string :=
  match vars !! name with
  | Some value => let value := bytes_string (trim (string_bytes value)) in
                  if bool_decide (value = "") then None else Some value
  | None => None
  end.
Definition get_var_or (vars : gmap string string) (name default : string) : string :=
  match get_var vars name with Some value => value | None => default end.

Definition schema_from_map (vars : gmap string string) : result string Schema :=
  let? defaults := enhance_default in
  let prefix := get_var_or vars "PIR_APM_METRIC_PREFIX" (sc_prefix defaults) in
  let endpoints := match get_var vars "PIR_APM_ENDPOINTS" with
                   | Some items => split_list items | None => sc_endpoints defaults end in
  let processing := match get_var vars "PIR_APM_PROCESSING_ENDPOINTS" with
                    | Some items => list_to_set (split_list items)
                    | None => sc_processing_endpoints defaults end in
  let informational := match get_var vars "PIR_APM_INFORMATIONAL_ENDPOINTS" with
                       | Some items => list_to_set (split_list items)
                       | None => sc_informational_endpoints defaults end in
  let? default_latency := match get_var vars "PIR_APM_LATENCY_P99_SECONDS" with
                          | Some value => ok_or (parse_f64 (string_bytes value))
                                            "PIR_APM_LATENCY_P99_SECONDS must be a number"%string
                          | None => Ok (sc_default_latency_p99 defaults) end in
  let? overrides := match get_var vars "PIR_APM_LATENCY_P99_OVERRIDES" with
                    | Some items => parse_overrides items
                    | None => Ok (sc_latency_overrides defaults) end in
  map_err (fun _ => "invalid PIR_APM metric schema"%string)
    (Schema_new prefix endpoints processing informational default_latency overrides).

(** ** Accepted schemas *)

Lemma check_endpoints_ok seen endpoints :
  check_endpoints seen endpoints = Ok tt ->
  Forall (fun e => is_identifier e = true) endpoints /\ NoDup endpoints /\ (forall e, e ∈ endpoints -> e ∉ seen).
Proof.
  revert seen; induction endpoints as [|e l IH]; intros seen H.
  { split_and!; [constructor|constructor|]. by intros e He%elem_of_nil. }
  cbn [check_endpoints] in H. inv_res H. bool_prop. destruct (IH _ H) as (H1 & H2 & H3). split_and!.
  - by constructor.
  - constructor; [|done]. intros Hin. apply (H3 e Hin). set_solver.
  - intros x [->|Hx]%elem_of_cons; [done|]. intros Hs. apply (H3 x Hx). set_solver.
Qed.

Lemma check_overrides_ok overrides :
  check_overrides overrides = Ok tt -> Forall (fun o => positive_budget (snd o) = true) overrides.
Proof.
  induction overrides as [|[e b] l IH]; intros H; [constructor|].
  cbn [check_overrides] in H. inv_res H. bool_prop. constructor; [done|by apply IH].
Qed.

Lemma Schema_new_ok prefix endpoints processing informational latency overrides schema :
  Schema_new prefix endpoints processing informational latency overrides = Ok schema ->
  sc_endpoints schema <> [] /\ NoDup (sc_endpoints schema) /\
  Forall (fun e => is_identifier e = true) (sc_endpoints schema) /\
  forall endpoint budget, latency_budget schema endpoint = Some budget -> positive_budget budget = true.
Proof.
  unfold Schema_new. intros En.
  destruct (negb (is_identifier prefix)); [discriminate|].
  case_bool_decide as Hne; [discriminate|].
  destruct (check_endpoints ∅ endpoints) as [[]|] eqn:E1; [|discriminate].
  destruct (negb (forallb _ _)); [discriminate|].
  destruct (check_overrides _) as [[]|] eqn:E2; [|discriminate].
  destruct (positive_budget latency) eqn:E3; [|discriminate]. cbn [negb] in En. injection En as <-.
  apply check_endpoints_ok in E1 as (H1 & H2 & _). apply check_overrides_ok in E2 as H3.
  cbn [sc_endpoints]. split_and!; [done..|].
  intros endpoint budget. unfold latency_budget. cbn [sc_latency_overrides sc_default_latency_p99].
  destruct (is_informational _ _); [done|]. intros [= <-].
  destruct (overrides !! endpoint) as [b|] eqn:Eb; [|done]. cbn.
  apply elem_of_sorted_entries in Eb. rewrite Forall_forall in H3. by apply (H3 _ Eb).
Qed.

(** C40: a configuration is either refused or gives a schema the sidecar can rely
    on: it has at least one endpoint, endpoint names are distinct and of the allowed
    shape, and the latency budget of every endpoint, configured or discovered later,
    is a positive finite number (so a latency comparison is never against NaN). *)
Theorem accepted_schema_wellformed vars schema :
  schema_from_map vars = Ok schema ->
  sc_endpoints schema <> [] /\ NoDup (sc_endpoints schema) /\
  Forall (fun e => is_identifier e = true) (sc_endpoints schema) /\
  forall endpoint budget, latency_budget schema endpoint = Some budget -> positive_budget budget = true.
Proof.
  unfold schema_from_map. destruct enhance_default as [d|]; [|discriminate]. cbv zeta.
  do 2 (lazymatch goal with |- match ?x with Ok _ => _ | Err _ => _ end = _ -> _ =>
    destruct x; [|discriminate] end).
  unfold map_err. destruct (Schema_new _ _ _ _ _ _) as [sch|] eqn:En; [|discriminate].
  intros [= <-]. exact (Schema_new_ok _ _ _ _ _ _ _ En).
Qed.

Lemma accepted_schema_wellformed_witness :
  exists schema, schema_from_map {["PIR_APM_ENDPOINTS"%string := "health, init"%string]} = Ok schema /\
    NoDup (sc_endpoints schema) /\ sc_endpoints schema = ["health"%string; "init"%string].
Proof.
  eexists. split; [vm_compute; reflexivity|]. split; [|reflexivity].
  eapply (accepted_schema_wellformed {["PIR_APM_ENDPOINTS"%string := "health, init"%string]}).
  vm_compute; reflexivity.
Defined.

(** The default schema, for concrete inputs. *)
Definition sample_schema : Schema :=
  match enhance_default with
  | Ok s => s
  | Err _ => Build_Schema "" [] ∅ ∅ fzero ∅ "" "" "" "" "" "" "" "" "" "" "" "" "" "" "" "" "" "" "" ""
  end.
