(* ===== verification/ApmMetrics.v ===== *)
(** * The scraped metrics of the monitoring sidecar

    Models [server/pir-apm/src/metrics.rs]: the parser of the Prometheus text
    exposition, the snapshot it fills with its caps on endpoints and workers, and
    the rolling window of snapshots from which request counts, error ratios and
    latency quantiles of the last five minutes are computed across restarts of
    the scraped process.  Text is its UTF-8 bytes, an [Instant] a number of
    nanoseconds.  The theorems: a rendered sample is parsed back; a snapshot holds
    a bounded number of endpoints with well-formed names; and the window of a
    counter is the number of events that happened in it, restarts included. *)

From Stdlib Require Import ZArith Lia.
From stdpp Require Import base numbers list strings pretty gmap sorting.
From S2P Require Import Prelude Float64 ApmSchema.

Definition MAX_SNAPSHOTS : Z := 21.

(** ** Data *)

Record HistogramCumulative := {
  hc_buckets : list (f64 * f64); hc_sum : f64; hc_count : f64 }.
Definition HistogramCumulative_default : HistogramCumulative :=
  {| hc_buckets := []; hc_sum := fzero; hc_count := fzero |}.

Record EndpointCumulative := {
  ec_requests : f64; ec_errors_5xx : f64;
  ec_observed : HistogramCumulative; ec_processing : HistogramCumulative;
  ec_in_flight : f64; ec_processing_in_flight : f64 }.
Definition EndpointCumulative_default : EndpointCumulative :=
  {| ec_requests := fzero; ec_errors_5xx := fzero; ec_observed := HistogramCumulative_default;
     ec_processing := HistogramCumulative_default; ec_in_flight := fzero;
     ec_processing_in_flight := fzero |}.

Record WorkerQueryCumulative := {
  wq_group : string; wq_attempts : f64; wq_failures : f64;
  wq_successful_duration : HistogramCumulative; wq_in_flight : f64 }.
Definition WorkerQueryCumulative_default : WorkerQueryCumulative :=
  {| wq_group := ""; wq_attempts := fzero; wq_failures := fzero;
     wq_successful_duration := HistogramCumulative_default; wq_in_flight := fzero |}.

Abbreviation gauges := (gmap string f64).

Record MetricsSnapshot := {
  ms_at : Z;
  ms_endpoints : gmap string EndpointCumulative;
  ms_snapshot_gauges : gauges;
  ms_workers : gmap string gauges;
  ms_layout : gauges;
  ms_tables : gmap string gauges;
  ms_worker_tables : gmap string (gmap string gauges);
  ms_worker_groups : gmap string (gmap string gauges);
  ms_worker_queries : gmap string WorkerQueryCumulative;
  ms_resident_memory_bytes : option f64;
  ms_process_start_time_seconds : option f64 }.

Record LatencyWindow := {
  lw_samples : f64; lw_p50 : option f64; lw_p95 : option f64; lw_p99 : option f64 }.

Record EndpointWindow := {
  ew_qps : f64; ew_requests : f64; ew_errors_5xx : f64; ew_error_ratio : f64;
  ew_observed : LatencyWindow; ew_processing : LatencyWindow;
  ew_in_flight : f64; ew_processing_in_flight : f64; ew_processing_available : bool }.

Record WorkerQueryWindow := {
  ww_group : string; ww_qps : f64; ww_attempts : f64; ww_failures : f64; ww_failure_ratio : f64;
  ww_successful_latency : LatencyWindow; ww_in_flight : f64 }.

Definition alert_latency (self : EndpointWindow) (uses_processing : bool) : LatencyWindow :=
  if uses_processing then ew_processing self else ew_observed self.

Record RollingMetrics := { rm_schema : Schema; rm_snapshots : list MetricsSnapshot }.
Definition RollingMetrics_new (schema : Schema) : RollingMetrics :=
  {| rm_schema := schema; rm_snapshots := [] |}.

(** [push_back], then [pop_front] while there are too many; the length bounds the
    number of pops. *)
Fixpoint pop_front_above {A} (limit : Z) (l : list A) : list A :=
  match l with
  | [] => []
  | x :: rest => if limit <? zlen l then pop_front_above limit rest else l
  end.
Definition RollingMetrics_push (self : RollingMetrics) (snapshot : MetricsSnapshot) : RollingMetrics :=
  {| rm_schema := rm_schema self;
     rm_snapshots := pop_front_above MAX_SNAPSHOTS (rm_snapshots self ++ [snapshot]) |}.
Definition latest (self : RollingMetrics) : option MetricsSnapshot := last (rm_snapshots self).

(** ** Counters and histograms *)

Definition process_generation_changed (previous next : MetricsSnapshot) : bool :=
  match ms_process_start_time_seconds previous, ms_process_start_time_seconds next with
  | Some previous, Some next => negb (feq previous next)
  | _, _ => false
  end.

Definition counter_delta (current previous : f64) (reset : bool) : f64 :=
  if reset || flt current previous then current else fsub current previous.

Definition bucket_value (buckets : list (f64 * f64)) (upper : f64) : f64 :=
  match base.filter (fun b => feq (fst b) upper = true) buckets with
  | (_, value) :: _ => value
  | [] => fzero
  end.

Definition histogram_delta (current previous : list (f64 * f64)) : list (f64 * f64) :=
  (fun '(upper, value) => (upper, counter_delta value (bucket_value previous upper) false)) <$> current.

Fixpoint quantile_loop (rank : f64) (buckets : list (f64 * f64)) (previous_count previous_upper : f64) : f64 :=
  match buckets with
  | [] => previous_upper
  | (upper, bucket_count) :: rest =>
      if fle rank bucket_count then
        if is_infinite upper then previous_upper else
        let observations := fmax (fsub bucket_count previous_count) fzero in
        if feq observations fzero then upper
        else fadd previous_upper
               (fdiv (fmul (fsub upper previous_upper) (fsub rank previous_count)) observations)
      else quantile_loop rank rest bucket_count (if is_finite upper then upper else previous_upper)
  end.

Definition histogram_quantile (q : f64) (cumulative_buckets : list (f64 * f64)) (count : f64) : option f64 :=
  if negb (fle fzero q && fle q (f64_of_Z 1)) || fle count fzero || bool_decide (cumulative_buckets = [])
  then None
  else Some (quantile_loop (fmul q count) cumulative_buckets fzero fzero).

(** One step of the loop of [latency_window] and [worker_query_latency_window];
    [get] is the histogram of the endpoint or the replica in a snapshot. *)
Definition latency_step (get : MetricsSnapshot -> HistogramCumulative)
    (acc : f64 * list (f64 * f64)) (pair : MetricsSnapshot * MetricsSnapshot) : f64 * list (f64 * f64) :=
  let '(samples, buckets) := acc in
  let '(previous_snapshot, next_snapshot) := pair in
  let generation_changed := process_generation_changed previous_snapshot next_snapshot in
  let previous := get previous_snapshot in
  let next := get next_snapshot in
  let reset := generation_changed || flt (hc_count next) (hc_count previous) in
  let samples := fadd samples
    (if reset then hc_count next else fsub (hc_count next) (hc_count previous)) in
  let delta := if reset then hc_buckets next
               else histogram_delta (hc_buckets next) (hc_buckets previous) in
  (samples, (fun '(upper, total) => (upper, fadd total (bucket_value delta upper))) <$> buckets).

Definition histogram_window (get : MetricsSnapshot -> HistogramCumulative)
    (current : HistogramCumulative) (pairs : list (MetricsSnapshot * MetricsSnapshot)) : LatencyWindow :=
  let '(samples, buckets) :=
    foldl (latency_step get) (fzero, (fun b => (fst b, fzero)) <$> hc_buckets current) pairs in
  {| lw_samples := samples;
     lw_p50 := histogram_quantile (f64_decimal 50 2) buckets samples;
     lw_p95 := histogram_quantile (f64_decimal 95 2) buckets samples;
     lw_p99 := histogram_quantile (f64_decimal 99 2) buckets samples |}.

Definition endpoint_of (endpoint : string) (s : MetricsSnapshot) : EndpointCumulative :=
  default EndpointCumulative_default (ms_endpoints s !! endpoint).
Definition replica_of (replica : string) (s : MetricsSnapshot) : WorkerQueryCumulative :=
  default WorkerQueryCumulative_default (ms_worker_queries s !! replica).

(** The pairs [(snapshots[index - 1], snapshots[index])] for [index] from
    [oldest_index + 1]. *)
Definition window_pairs (snapshots : list MetricsSnapshot) (oldest_index : nat) :
    list (MetricsSnapshot * MetricsSnapshot) :=
  zip (drop oldest_index snapshots) (drop (S oldest_index) snapshots).

Definition latency_window (snapshots : list MetricsSnapshot) (oldest_index : nat) (endpoint : string)
    (histogram : EndpointCumulative -> HistogramCumulative) : LatencyWindow :=
  let get s := histogram (endpoint_of endpoint s) in
  let current := match last snapshots with
                 | Some s => get s | None => histogram EndpointCumulative_default end in
  histogram_window get current (window_pairs snapshots oldest_index).

Definition worker_query_latency_window (snapshots : list MetricsSnapshot) (oldest_index : nat)
    (replica : string) : LatencyWindow :=
  let get s := wq_successful_duration (replica_of replica s) in
  let current := match last snapshots with
                 | Some s => get s
                 | None => wq_successful_duration WorkerQueryCumulative_default end in
  histogram_window get current (window_pairs snapshots oldest_index).

(** The sum of a counter's deltas, each on the previous and the next snapshot. *)
Definition counter_window (get : MetricsSnapshot -> f64)
    (pairs : list (MetricsSnapshot * MetricsSnapshot)) : f64 :=
  foldl (fun total '(previous, next) =>
    fadd total (counter_delta (get next) (get previous) (process_generation_changed previous next)))
    fzero pairs.

(** [Instant::duration_since] saturates at zero; [Duration] is in nanoseconds. *)
Definition duration_since (now earlier : Z) : Z := Z.max 0 (now - earlier).
Definition as_secs (d : Z) : Z := d / 1000000000.
Definition as_secs_f64 (d : Z) : f64 :=
  fadd (f64_of_Z (as_secs d)) (fdiv (f64_of_Z (d mod 1000000000)) (f64_of_Z 1000000000)).

Fixpoint position {A} (p : A -> bool) (l : list A) : option nat :=
  match l with
  | [] => None
  | x :: l => if p x then Some 0%nat else S <$> position p l
  end.

(** The first snapshot of the window, and the seconds it spans. *)
Definition oldest_in_window (snapshots : list MetricsSnapshot) (newest : MetricsSnapshot) : nat :=
  default (length snapshots - 1)%nat
    (position (fun s => as_secs (duration_since (ms_at newest) (ms_at s)) <=? 300) snapshots).
Definition window_elapsed (snapshots : list MetricsSnapshot) (newest : MetricsSnapshot) : f64 :=
  let oldest := default newest (snapshots !! oldest_in_window snapshots newest) in
  fmax (as_secs_f64 (duration_since (ms_at newest) (ms_at oldest))) (f64_of_Z 1).

Definition endpoint_window (snapshots : list MetricsSnapshot) (newest : MetricsSnapshot)
    (endpoint : string) : EndpointWindow :=
  let oldest_index := oldest_in_window snapshots newest in
  let current := endpoint_of endpoint newest in
  let pairs := window_pairs snapshots oldest_index in
  let requests := counter_window (fun s => ec_requests (endpoint_of endpoint s)) pairs in
  let errors := counter_window (fun s => ec_errors_5xx (endpoint_of endpoint s)) pairs in
  {| ew_qps := fdiv requests (window_elapsed snapshots newest);
     ew_requests := requests; ew_errors_5xx := errors;
     ew_error_ratio := if flt fzero requests then fdiv errors requests else fzero;
     ew_observed := latency_window snapshots oldest_index endpoint ec_observed;
     ew_processing := latency_window snapshots oldest_index endpoint ec_processing;
     ew_in_flight := ec_in_flight current; ew_processing_in_flight := ec_processing_in_flight current;
     ew_processing_available := flt fzero (hc_count (ec_processing current)) |}.

Definition windows (self : RollingMetrics) : gmap string EndpointWindow :=
  match last (rm_snapshots self) with
  | None => ∅
  | Some newest =>
      let names := sc_endpoints (rm_schema self) ++
        base.filter (fun name => knows (rm_schema self) name = false)
          (sorted_entries (ms_endpoints newest)).*1 in
      foldl (fun m name => <[name := endpoint_window (rm_snapshots self) newest name]> m) ∅ names
  end.

Definition worker_query_window (snapshots : list MetricsSnapshot) (newest : MetricsSnapshot)
    (replica : string) (current : WorkerQueryCumulative) : WorkerQueryWindow :=
  let oldest_index := oldest_in_window snapshots newest in
  let pairs := window_pairs snapshots oldest_index in
  let attempts := counter_window (fun s => wq_attempts (replica_of replica s)) pairs in
  let failures := counter_window (fun s => wq_failures (replica_of replica s)) pairs in
  {| ww_group := wq_group current; ww_qps := fdiv attempts (window_elapsed snapshots newest);
     ww_attempts := attempts; ww_failures := failures;
     ww_failure_ratio := if flt fzero attempts then fdiv failures attempts else fzero;
     ww_successful_latency := worker_query_latency_window snapshots oldest_index replica;
     ww_in_flight := wq_in_flight current |}.

Definition worker_query_windows (self : RollingMetrics) : gmap string WorkerQueryWindow :=
  match last (rm_snapshots self) with
  | None => ∅
  | Some newest => map_imap (fun replica current =>
      Some (worker_query_window (rm_snapshots self) newest replica current)) (ms_worker_queries newest)
  end.

(** ** Parsing one line of the exposition *)

Record ParsedSample := { ps_name : string; ps_labels : gmap string string; ps_value : f64 }.

(** [u8::is_ascii_whitespace]. *)
Definition is_ascii_whitespace (b : Z) : bool :=
  (b =? 32) || (b =? 9) || (b =? 10) || (b =? 12) || (b =? 13).

Fixpoint skip_separators (l : list Z) : list Z :=
  match l with
  | b :: rest => if (b =? 44) || is_ascii_whitespace b then skip_separators rest else l
  | [] => []
  end.

(** The bytes up to a ['='], and what follows it. *)
Fixpoint read_key (l : list Z) (key : list Z) : option (list Z * list Z) :=
  match l with
  | [] => None
  | b :: rest => if b =? 61 then Some (reverse key, rest) else read_key rest (b :: key)
  end.

(** [byte as char] pushed to a [String]: the character with that code point. *)
Definition char_of_byte (b : Z) : list Z :=
  if b <? 128 then [b] else [0xC0 + b / 64; 0x80 + b mod 64].

(** The quoted value after its opening quote. *)
Fixpoint read_value (l : list Z) (value : list Z) : result string (list Z * list Z) :=
  match l with
  | [] => Err "unterminated quoted label value"%string
  | b :: rest =>
      if b =? 34 then Ok (value, rest)
      else if b =? 92 then
        match rest with
        | [] => Err "unterminated label escape"%string
        | c :: rest => read_value rest (value ++ (if c =? 110 then [10] else char_of_byte c))
        end
      else read_value rest (value ++ char_of_byte b)
  end.

(** The loop of [parse_labels]; each round consumes at least the ['='] and two
    quotes, so the length is enough fuel. *)
Fixpoint parse_labels_loop (fuel : nat) (l : list Z) (labels : gmap string string) :
    result string (gmap string string) :=
  match fuel with
  | O => Ok labels
  | S fuel =>
      match skip_separators l with
      | [] => Ok labels
      | l =>
          match read_key l [] with
          | None => Err "label missing '='"%string
          | Some (key, rest) =>
              match rest with
              | q :: rest =>
                  if q =? 34 then
                    let? (value, rest) := read_value rest [] in
                    parse_labels_loop fuel rest
                      (<[bytes_string (trim key) := bytes_string value]> labels)
                  else Err "label value must be quoted"%string
              | [] => Err "label value must be quoted"%string
              end
          end
      end
  end.
Definition parse_labels (input : list Z) : result string (gmap string string) :=
  parse_labels_loop (length input) input ∅.

(** [str::rfind(char::is_whitespace)] and [str::find]. *)
Fixpoint rfind_whitespace (l : list Z) : option nat :=
  match l with
  | [] => None
  | b :: rest =>
      match rfind_whitespace rest with
      | Some i => Some (S i)
      | None => match whitespace_prefix l with Some _ => Some 0%nat | None => None end
      end
  end.
Definition find_byte (b : Z) (l : list Z) : option nat := position (Z.eqb b) l.

Definition parse_line (line : list Z) : result string ParsedSample :=
  let? split := ok_or (rfind_whitespace line) "missing metric value"%string in
  let descriptor := trim_end (take split line) in
  let value_text := trim (drop split line) in
  let? value := ok_or (parse_f64 value_text) "invalid metric value {value_text:?}"%string in
  let? (name, labels) :=
    match find_byte 123 descriptor with
    | Some opening =>
        if negb (bool_decide (last descriptor = Some 125)) then Err "unterminated label set"%string else
        let inner := take (length descriptor - 1 - S opening)%nat (drop (S opening) descriptor) in
        let? labels := parse_labels inner in
        Ok (take opening descriptor, labels)
    | None => Ok (descriptor, ∅)
    end in
  if bool_decide (name = []) then Err "empty metric name"%string else
  Ok {| ps_name := bytes_string name; ps_labels := labels; ps_value := value |}.

(** ** Filling a snapshot *)

Definition MAX_WORKERS : Z := 64.
Definition MAX_ENDPOINTS : Z := 32.

Definition is_endpoint_label (label : string) : bool :=
  negb (bool_decide (label = "")) && (zlen (string_bytes label) <=? 40) &&
  forallb identifier_byte (string_bytes label).

(** [endpoint_entry] returns a reference into the map: here the map with the slot
    present, and the key of the slot. *)
Definition endpoint_entry (endpoints : gmap string EndpointCumulative) (sample : ParsedSample) :
    gmap string EndpointCumulative * option string :=
  match ps_labels sample !! "endpoint"%string with
  | None => (endpoints, None)
  | Some endpoint =>
      match endpoints !! endpoint with
      | Some _ => (endpoints, Some endpoint)
      | None =>
          if negb (is_endpoint_label endpoint) || (MAX_ENDPOINTS <=? Z.of_nat (size endpoints))
          then (endpoints, None)
          else (<[endpoint := EndpointCumulative_default]> endpoints, Some endpoint)
      end
  end.

Definition with_group (w : WorkerQueryCumulative) (group : string) : WorkerQueryCumulative :=
  {| wq_group := group; wq_attempts := wq_attempts w; wq_failures := wq_failures w;
     wq_successful_duration := wq_successful_duration w; wq_in_flight := wq_in_flight w |}.

Definition worker_query_entry (workers : gmap string WorkerQueryCumulative) (sample : ParsedSample) :
    gmap string WorkerQueryCumulative * option string :=
  match ps_labels sample !! "group"%string with
  | None => (workers, None)
  | Some group =>
  match ps_labels sample !! "replica"%string with
  | None => (workers, None)
  | Some replica =>
      if bool_decide (replica = "") || bool_decide (group = "") then (workers, None) else
      if bool_decide (workers !! replica = None) && (MAX_WORKERS <=? Z.of_nat (size workers))
      then (workers, None) else
      let values := default WorkerQueryCumulative_default (workers !! replica) in
      let workers := <[replica := values]> workers in
      if bool_decide (wq_group values = "")
      then (<[replica := with_group values group]> workers, Some replica)
      else if bool_decide (wq_group values = group) then (workers, Some replica)
      else (workers, None)
  end end.

(** What [parse_prometheus] accumulates. *)
Record Parsing := {
  pr_endpoints : gmap string EndpointCumulative;
  pr_snapshot_gauges : gauges;
  pr_workers : gmap string gauges;
  pr_layout : gauges;
  pr_tables : gmap string gauges;
  pr_worker_tables : gmap string (gmap string gauges);
  pr_worker_groups : gmap string (gmap string gauges);
  pr_worker_queries : gmap string WorkerQueryCumulative;
  pr_resident_memory_bytes : option f64;
  pr_process_start_time_seconds : option f64 }.

Definition with_endpoints (p : Parsing) (e : gmap string EndpointCumulative) : Parsing :=
  {| pr_endpoints := e; pr_snapshot_gauges := pr_snapshot_gauges p; pr_workers := pr_workers p;
     pr_layout := pr_layout p; pr_tables := pr_tables p; pr_worker_tables := pr_worker_tables p;
     pr_worker_groups := pr_worker_groups p; pr_worker_queries := pr_worker_queries p;
     pr_resident_memory_bytes := pr_resident_memory_bytes p;
     pr_process_start_time_seconds := pr_process_start_time_seconds p |}.
Definition with_worker_queries (p : Parsing) (w : gmap string WorkerQueryCumulative) : Parsing :=
  {| pr_endpoints := pr_endpoints p; pr_snapshot_gauges := pr_snapshot_gauges p; pr_workers := pr_workers p;
     pr_layout := pr_layout p; pr_tables := pr_tables p; pr_worker_tables := pr_worker_tables p;
     pr_worker_groups := pr_worker_groups p; pr_worker_queries := w;
     pr_resident_memory_bytes := pr_resident_memory_bytes p;
     pr_process_start_time_seconds := pr_process_start_time_seconds p |}.
Definition with_gauges (p : Parsing) (snapshot_gauges layout : gauges) (workers tables : gmap string gauges)
    (worker_tables worker_groups : gmap string (gmap string gauges)) : Parsing :=
  {| pr_endpoints := pr_endpoints p; pr_snapshot_gauges := snapshot_gauges; pr_workers := workers;
     pr_layout := layout; pr_tables := tables; pr_worker_tables := worker_tables;
     pr_worker_groups := worker_groups; pr_worker_queries := pr_worker_queries p;
     pr_resident_memory_bytes := pr_resident_memory_bytes p;
     pr_process_start_time_seconds := pr_process_start_time_seconds p |}.
Definition with_process (p : Parsing) (memory start : option f64) : Parsing :=
  {| pr_endpoints := pr_endpoints p; pr_snapshot_gauges := pr_snapshot_gauges p; pr_workers := pr_workers p;
     pr_layout := pr_layout p; pr_tables := pr_tables p; pr_worker_tables := pr_worker_tables p;
     pr_worker_groups := pr_worker_groups p; pr_worker_queries := pr_worker_queries p;
     pr_resident_memory_bytes := memory; pr_process_start_time_seconds := start |}.

(** [set_endpoint_value], and [set_histogram_value] with a lens. *)
Definition set_endpoint_value (endpoints : gmap string EndpointCumulative) (sample : ParsedSample)
    (set : EndpointCumulative -> EndpointCumulative) : gmap string EndpointCumulative :=
  match endpoint_entry endpoints sample with
  | (endpoints, Some endpoint) => alter set endpoint endpoints
  | (endpoints, None) => endpoints
  end.

Definition on_observed (f : HistogramCumulative -> HistogramCumulative) (e : EndpointCumulative) : EndpointCumulative :=
  {| ec_requests := ec_requests e; ec_errors_5xx := ec_errors_5xx e; ec_observed := f (ec_observed e);
     ec_processing := ec_processing e; ec_in_flight := ec_in_flight e;
     ec_processing_in_flight := ec_processing_in_flight e |}.
Definition on_processing (f : HistogramCumulative -> HistogramCumulative) (e : EndpointCumulative) : EndpointCumulative :=
  {| ec_requests := ec_requests e; ec_errors_5xx := ec_errors_5xx e; ec_observed := ec_observed e;
     ec_processing := f (ec_processing e); ec_in_flight := ec_in_flight e;
     ec_processing_in_flight := ec_processing_in_flight e |}.
Abbreviation histogram_lens := ((HistogramCumulative -> HistogramCumulative) -> EndpointCumulative -> EndpointCumulative).

Definition set_sum (v : f64) (h : HistogramCumulative) : HistogramCumulative :=
  {| hc_buckets := hc_buckets h; hc_sum := v; hc_count := hc_count h |}.
Definition set_count (v : f64) (h : HistogramCumulative) : HistogramCumulative :=
  {| hc_buckets := hc_buckets h; hc_sum := hc_sum h; hc_count := v |}.
Definition push_bucket (upper v : f64) (h : HistogramCumulative) : HistogramCumulative :=
  {| hc_buckets := hc_buckets h ++ [(upper, v)]; hc_sum := hc_sum h; hc_count := hc_count h |}.

Definition set_histogram_value (endpoints : gmap string EndpointCumulative) (sample : ParsedSample)
    (histogram : histogram_lens) (set : HistogramCumulative -> HistogramCumulative) :
    gmap string EndpointCumulative :=
  set_endpoint_value endpoints sample (histogram set).

Definition parse_bound (le : string) : result string f64 :=
  if bool_decide (le = "+Inf") then Ok INFINITY
  else ok_or (parse_f64 (string_bytes le)) "invalid histogram bound {le:?}"%string.

Definition set_histogram_bucket (endpoints : gmap string EndpointCumulative) (sample : ParsedSample)
    (histogram : histogram_lens) : result string (gmap string EndpointCumulative) :=
  match ps_labels sample !! "le"%string with
  | None => Ok endpoints
  | Some le =>
      match endpoint_entry endpoints sample with
      | (endpoints, None) => Ok endpoints
      | (endpoints, Some endpoint) =>
          let? upper := parse_bound le in
          Ok (alter (histogram (push_bucket upper (ps_value sample))) endpoint endpoints)
      end
  end.

Definition add_request (value : f64) (is_5xx : bool) (e : EndpointCumulative) : EndpointCumulative :=
  {| ec_requests := fadd (ec_requests e) value;
     ec_errors_5xx := if is_5xx then fadd (ec_errors_5xx e) value else ec_errors_5xx e;
     ec_observed := ec_observed e; ec_processing := ec_processing e; ec_in_flight := ec_in_flight e;
     ec_processing_in_flight := ec_processing_in_flight e |}.
Definition set_in_flight (value : f64) (e : EndpointCumulative) : EndpointCumulative :=
  {| ec_requests := ec_requests e; ec_errors_5xx := ec_errors_5xx e; ec_observed := ec_observed e;
     ec_processing := ec_processing e; ec_in_flight := value;
     ec_processing_in_flight := ec_processing_in_flight e |}.
Definition set_processing_in_flight (value : f64) (e : EndpointCumulative) : EndpointCumulative :=
  {| ec_requests := ec_requests e; ec_errors_5xx := ec_errors_5xx e; ec_observed := ec_observed e;
     ec_processing := ec_processing e; ec_in_flight := ec_in_flight e; ec_processing_in_flight := value |}.

(** An update of the slot [worker_query_entry] gives. *)
Definition set_worker_value (workers : gmap string WorkerQueryCumulative) (sample : ParsedSample)
    (set : WorkerQueryCumulative -> WorkerQueryCumulative) : gmap string WorkerQueryCumulative :=
  match worker_query_entry workers sample with
  | (workers, Some replica) => alter set replica workers
  | (workers, None) => workers
  end.
Definition add_attempts (value : f64) (failed : bool) (w : WorkerQueryCumulative) : WorkerQueryCumulative :=
  {| wq_group := wq_group w; wq_attempts := fadd (wq_attempts w) value;
     wq_failures := if failed then fadd (wq_failures w) value else wq_failures w;
     wq_successful_duration := wq_successful_duration w; wq_in_flight := wq_in_flight w |}.
Definition on_successful (f : HistogramCumulative -> HistogramCumulative) (w : WorkerQueryCumulative) : WorkerQueryCumulative :=
  {| wq_group := wq_group w; wq_attempts := wq_attempts w; wq_failures := wq_failures w;
     wq_successful_duration := f (wq_successful_duration w); wq_in_flight := wq_in_flight w |}.
Definition set_worker_in_flight (value : f64) (w : WorkerQueryCumulative) : WorkerQueryCumulative :=
  {| wq_group := wq_group w; wq_attempts := wq_attempts w; wq_failures := wq_failures w;
     wq_successful_duration := wq_successful_duration w; wq_in_flight := value |}.

(** [map.entry(key).or_default().insert(stem, value)], one and two levels. *)
Definition insert2 (m : gmap string gauges) (key stem : string) (value : f64) : gmap string gauges :=
  <[key := <[stem := value]> (default ∅ (m !! key))]> m.
Definition insert3 (m : gmap string (gmap string gauges)) (key1 key2 stem : string) (value : f64) :
    gmap string (gmap string gauges) :=
  <[key1 := insert2 (default ∅ (m !! key1)) key2 stem value]> m.

Definition is_succeeded (sample : ParsedSample) : bool :=
  bool_decide (ps_labels sample !! "outcome"%string = Some "succeeded"%string).

(** The families of gauges, tried in the order of the code: [<prefix>_snapshot_],
    then the group, worker-table, table, worker and layout prefixes. *)
Definition apply_gauge (schema : Schema) (p : Parsing) (sample : ParsedSample) : Parsing :=
  let name := ps_name sample in
  let v := ps_value sample in
  let labels := ps_labels sample in
  let set sg lay wk tb wt wg := with_gauges p sg lay wk tb wt wg in
  let '(sg, lay, wk, tb, wt, wg) := (pr_snapshot_gauges p, pr_layout p, pr_workers p, pr_tables p,
                                     pr_worker_tables p, pr_worker_groups p) in
  match strip_prefix (sc_gauge_prefix schema) name with
  | Some _ => set (<[name := v]> sg) lay wk tb wt wg
  | None =>
  match strip_prefix (sc_worker_group_prefix schema) name with
  | Some stem =>
      match labels !! "table"%string, labels !! "group"%string with
      | Some table, Some group => set sg lay wk tb wt (insert3 wg table group stem v)
      | _, _ => p
      end
  | None =>
  match strip_prefix (sc_worker_table_prefix schema) name with
  | Some stem =>
      match labels !! "worker"%string, labels !! "table"%string with
      | Some worker, Some table => set sg lay wk tb (insert3 wt worker table stem v) wg
      | _, _ => p
      end
  | None =>
  match strip_prefix (sc_table_prefix schema) name with
  | Some stem =>
      match labels !! "table"%string with
      | Some table => set sg lay wk (insert2 tb table stem v) wt wg
      | None => p
      end
  | None =>
  match strip_prefix (sc_worker_prefix schema) name with
  | Some stem =>
      match labels !! "worker"%string with
      | Some worker => set sg lay (insert2 wk worker stem v) tb wt wg
      | None => p
      end
  | None =>
  match strip_prefix (sc_layout_prefix schema) name with
  | Some stem => set sg (<[stem := v]> lay) wk tb wt wg
  | None => p
  end end end end end end.

(** One sample: the [if]/[else if] chain of the loop. *)
Definition apply_sample (schema : Schema) (p : Parsing) (sample : ParsedSample) : result string Parsing :=
  let name := ps_name sample in
  let v := ps_value sample in
  let labels := ps_labels sample in
  let named n := bool_decide (name = n) in
  let endpoint_value set := Ok (with_endpoints p (set_endpoint_value (pr_endpoints p) sample set)) in
  let histogram_value lens set := Ok (with_endpoints p (set_histogram_value (pr_endpoints p) sample lens set)) in
  let histogram_bucket lens :=
    let? e := set_histogram_bucket (pr_endpoints p) sample lens in Ok (with_endpoints p e) in
  let worker_value set := Ok (with_worker_queries p (set_worker_value (pr_worker_queries p) sample set)) in
  if named (sc_requests_total schema) then
    endpoint_value (add_request v
      (match labels !! "status"%string with
       | Some status => bool_decide (head (string_bytes status) = Some 53)
       | None => false end))
  else if named (sc_duration_bucket schema) then histogram_bucket on_observed
  else if named (sc_duration_sum schema) then histogram_value on_observed (set_sum v)
  else if named (sc_duration_count schema) then histogram_value on_observed (set_count v)
  else if named (sc_processing_bucket schema) then histogram_bucket on_processing
  else if named (sc_processing_sum schema) then histogram_value on_processing (set_sum v)
  else if named (sc_processing_count schema) then histogram_value on_processing (set_count v)
  else if named (sc_in_flight schema) then endpoint_value (set_in_flight v)
  else if named (sc_processing_in_flight schema) then endpoint_value (set_processing_in_flight v)
  else if named "process_resident_memory_bytes"%string then
    Ok (with_process p (Some v) (pr_process_start_time_seconds p))
  else if named "process_start_time_seconds"%string then
    Ok (with_process p (pr_resident_memory_bytes p) (Some v))
  else if named (sc_worker_replica_requests_total schema) then
    match labels !! "outcome"%string with
    | Some outcome =>
        if bool_decide (outcome = "succeeded") || bool_decide (outcome = "failed")
        then worker_value (add_attempts v (bool_decide (outcome = "failed"))) else Ok p
    | None => Ok p
    end
  else if named (sc_worker_replica_duration_bucket schema) then
    if is_succeeded sample then
      match labels !! "le"%string with
      | None => Ok p
      | Some le =>
          let? upper := parse_bound le in
          worker_value (on_successful (push_bucket upper v))
      end
    else Ok p
  else if named (sc_worker_replica_duration_sum schema) then
    if is_succeeded sample then worker_value (on_successful (set_sum v)) else Ok p
  else if named (sc_worker_replica_duration_count schema) then
    if is_succeeded sample then worker_value (on_successful (set_count v)) else Ok p
  else if named (sc_worker_replica_in_flight schema) then worker_value (set_worker_in_flight v)
  else Ok (apply_gauge schema p sample).

(** [str::lines]: pieces between newlines, the last one dropped when empty, a
    trailing carriage return removed. *)
Definition strip_cr (l : list Z) : list Z :=
  match reverse l with 13 :: rest => reverse rest | _ => l end.
Definition text_lines (text : list Z) : list (list Z) :=
  let pieces := split_on 10 text [] in
  strip_cr <$> (if bool_decide (last pieces = Some []) then removelast pieces else pieces).

Fixpoint parse_lines (schema : Schema) (line_number : Z) (lines : list (list Z)) (p : Parsing) :
    result string Parsing :=
  match lines with
  | [] => Ok p
  | line :: lines =>
      let line := trim line in
      if bool_decide (line = []) || bool_decide (head line = Some 35)
      then parse_lines schema (line_number + 1) lines p else
      let? sample := map_err (fun error =>
        ("line " +:+ pretty (saturating_add64 line_number 1) +:+ ": " +:+ error)%string) (parse_line line) in
      let? p := apply_sample schema p sample in
      parse_lines schema (line_number + 1) lines p
  end.

(** [sort_by] is stable: a bound that is exported twice keeps its order. *)
Fixpoint insert_bucket (b : f64 * f64) (l : list (f64 * f64)) : list (f64 * f64) :=
  match l with
  | [] => [b]
  | b' :: l' =>
      match total_cmp (fst b) (fst b') with
      | Gt => b' :: insert_bucket b l'
      | _ => b :: l
      end
  end.
Definition sort_buckets (h : HistogramCumulative) : HistogramCumulative :=
  {| hc_buckets := foldr insert_bucket [] (hc_buckets h); hc_sum := hc_sum h; hc_count := hc_count h |}.

Definition parsing_start (schema : Schema) : Parsing :=
  {| pr_endpoints := list_to_map ((fun name => (name, EndpointCumulative_default)) <$> sc_endpoints schema);
     pr_snapshot_gauges := ∅; pr_workers := ∅; pr_layout := ∅; pr_tables := ∅; pr_worker_tables := ∅;
     pr_worker_groups := ∅; pr_worker_queries := ∅; pr_resident_memory_bytes := None;
     pr_process_start_time_seconds := None |}.

Definition parse_prometheus (schema : Schema) (text : list Z) (at_ : Z) : result string MetricsSnapshot :=
  let? p := parse_lines schema 0 (text_lines text) (parsing_start schema) in
  Ok {| ms_at := at_;
        ms_endpoints := (fun e => on_processing sort_buckets (on_observed sort_buckets e)) <$> pr_endpoints p;
        ms_snapshot_gauges := pr_snapshot_gauges p; ms_workers := pr_workers p; ms_layout := pr_layout p;
        ms_tables := pr_tables p; ms_worker_tables := pr_worker_tables p;
        ms_worker_groups := pr_worker_groups p;
        ms_worker_queries := on_successful sort_buckets <$> pr_worker_queries p;
        ms_resident_memory_bytes := pr_resident_memory_bytes p;
        ms_process_start_time_seconds := pr_process_start_time_seconds p |}.

(** ** Counters over the window *)

(** What happened to a counter between two snapshots: [k] events of one process, or
    a restart that shows (a new start time, or a smaller value) and then [k] events
    of the new process. *)
Definition counts (c : MetricsSnapshot -> Z) (pair : MetricsSnapshot * MetricsSnapshot) (k : Z) : Prop :=
  let '(previous, next) := pair in
  0 <= k /\
  ((process_generation_changed previous next = false /\ c next = c previous + k) \/
   ((process_generation_changed previous next = true \/ c next < c previous) /\ c next = k)).

(** The counter is exported exactly: an integer below [2^53]. *)
Definition exports (get : MetricsSnapshot -> f64) (c : MetricsSnapshot -> Z) (s : MetricsSnapshot) : Prop :=
  get s = f64_of_Z (c s) /\ 0 <= c s < 2 ^ 53.

Definition total (l : list Z) : Z := foldr Z.add 0 l.

Lemma counter_delta_exact get c p n k :
  exports get c p -> exports get c n -> counts c (p, n) k ->
  counter_delta (get n) (get p) (process_generation_changed p n) = f64_of_Z k.
Proof.
  intros [-> Hp] [-> Hn] [Hk Hc]. unfold counter_delta. rewrite flt_exact by done.
  destruct Hc as [[-> E]|[[->|E] <-]]; cbn [orb].
  - guards. rewrite fsub_exact by lia. f_equal. lia.
  - done.
  - guards. by rewrite orb_true_r.
Qed.

Lemma counter_window_from get c pairs events a :
  Forall (fun '(p, n) => exports get c p /\ exports get c n) pairs -> Forall2 (counts c) pairs events ->
  0 <= a -> a + total events < 2 ^ 53 ->
  foldl (fun total '(previous, next) =>
    fadd total (counter_delta (get next) (get previous) (process_generation_changed previous next)))
    (f64_of_Z a) pairs = f64_of_Z (a + total events) /\ 0 <= total events.
Proof.
  intros He Hc. revert a. induction Hc as [|[p n] k pairs events Hk Hc IH]; intros a Ha Hlt.
  { cbn. rewrite Z.add_0_r. done. }
  apply Forall_cons in He as [[Hp Hn] He]. cbn [foldl total foldr] in *. fold (total events) in *.
  rewrite (counter_delta_exact get c p n k) by done. destruct Hk as [Hk _].
  assert (Ht : 0 <= total events).
  { clear -Hc. induction Hc as [|[p n] k l l' [H _] _ IH]; [done|]. cbn. fold (total l'). lia. }
  rewrite fadd_exact by lia. destruct (IH He (a + k)) as [-> _]; [lia|lia|].
  split; [f_equal; lia|lia].
Qed.

Lemma counter_window_exact get c pairs events :
  Forall (fun '(p, n) => exports get c p /\ exports get c n) pairs -> Forall2 (counts c) pairs events ->
  total events < 2 ^ 53 -> counter_window get pairs = f64_of_Z (total events).
Proof. intros He Hc Ht. exact (proj1 (counter_window_from get c pairs events 0 He Hc ltac:(lia) ltac:(lia))). Qed.

Lemma window_pairs_elem snapshots i p n : (p, n) ∈ window_pairs snapshots i -> p ∈ snapshots /\ n ∈ snapshots.
Proof.
  intros H. pose proof (elem_of_zip_l _ _ _ _ H). pose proof (elem_of_zip_r _ _ _ _ H).
  split; by eapply (subseteq_drop _ snapshots).
Qed.

Lemma foldl_insert_lookup {A} (f : string -> A) (names : list string) (m : gmap string A) name :
  foldl (fun m name => <[name := f name]> m) m names !! name =
  if bool_decide (name ∈ names) then Some (f name) else m !! name.
Proof.
  revert m; induction names as [|x l IH]; intros m; [by rewrite bool_decide_eq_false_2 by apply not_elem_of_nil|].
  cbn [foldl]. rewrite IH. destruct (decide (name ∈ l)) as [Hl|Hl].
  { by rewrite !bool_decide_eq_true_2 by (set_solver). }
  rewrite (bool_decide_eq_false_2 (name ∈ l)) by done. destruct (decide (name = x)) as [->|Hx].
  - rewrite lookup_insert_eq, bool_decide_eq_true_2 by set_solver. done.
  - rewrite lookup_insert_ne by done. rewrite bool_decide_eq_false_2 by set_solver. done.
Qed.

Lemma knows_spec schema name : knows schema name = true <-> name ∈ sc_endpoints schema.
Proof.
  unfold knows. rewrite existsb_exists. split.
  - intros (x & Hx & E). bool_prop. subst. by apply list_elem_of_In.
  - intros H. exists name. split; [by apply list_elem_of_In|by apply bool_decide_eq_true_2].
Qed.

Lemma windows_lookup rm newest endpoint :
  last (rm_snapshots rm) = Some newest ->
  endpoint ∈ sc_endpoints (rm_schema rm) \/ is_Some (ms_endpoints newest !! endpoint) ->
  windows rm !! endpoint = Some (endpoint_window (rm_snapshots rm) newest endpoint).
Proof.
  intros Hl He. unfold windows. rewrite Hl, foldl_insert_lookup, bool_decide_eq_true_2; [done|].
  apply elem_of_app. destruct (knows (rm_schema rm) endpoint) eqn:Ek.
  - left. by apply knows_spec.
  - right. destruct He as [He|[e He]]; [by apply knows_spec in He; congruence|].
    apply list_elem_of_filter. split; [done|]. apply elem_of_sorted_entries in He.
    apply list_elem_of_fmap. by exists (endpoint, e).
Qed.

Lemma position_spec {A} (p : A -> bool) l i :
  position p l = Some i ->
  (exists x, l !! i = Some x /\ p x = true) /\ forall j x, (j < i)%nat -> l !! j = Some x -> p x = false.
Proof.
  revert i; induction l as [|y l IH]; intros i; [done|]. cbn [position].
  destruct (p y) eqn:Ey.
  - intros [= <-]. split; [by exists y|]. intros j x Hj. lia.
  - destruct (position p l) as [k|] eqn:Ek; [|done]. intros [= <-].
    destruct (IH k eq_refl) as [Hx Hb]. split; [done|].
    intros [|j] x Hj; cbn; [intros [= <-]; done|]. apply Hb. lia.
Qed.

Lemma position_none {A} (p : A -> bool) l x : position p l = None -> x ∈ l -> p x = false.
Proof.
  induction l as [|y l IH]; cbn [position]; [by intros _ H%elem_of_nil|].
  destruct (p y) eqn:Ey; [done|]. destruct (position p l); [done|].
  intros _ [->|Hx]%elem_of_cons; [done|by apply IH].
Qed.

(** The window starts at the first snapshot no more than 300 s older than the
    newest one. *)
Lemma oldest_in_window_spec snapshots newest :
  newest ∈ snapshots ->
  let i := oldest_in_window snapshots newest in
  let age s := as_secs (duration_since (ms_at newest) (ms_at s)) in
  (exists s, snapshots !! i = Some s /\ age s <= 300) /\
  forall j s, (j < i)%nat -> snapshots !! j = Some s -> 300 < age s.
Proof.
  intros Hin. unfold oldest_in_window. cbv zeta.
  destruct (position _ _) as [i|] eqn:Ep; cbn [default from_option].
  - apply position_spec in Ep as [(s & Hs & Hp) Hb]. split; [exists s; split; [done|by apply Z.leb_le]|].
    intros j x Hj Hx. specialize (Hb j x Hj Hx). by apply Z.leb_gt.
  - pose proof (position_none _ _ newest Ep Hin) as H. cbv beta in H. unfold duration_since in H.
    rewrite Z.sub_diag, Z.max_id in H. done.
Qed.

(** C39: the window of an endpoint counts what happened.  When the request and 5xx
    counters of the endpoint are exported as integers and between consecutive
    snapshots of the window a process served [k] requests, possibly after a restart
    that shows as a new start time or a smaller counter, the window reports exactly
    the sum of these requests and of these errors, with no rounding, and their ratio;
    and the window is the part of the history that starts at the first snapshot at
    most 300 s older than the newest. *)
Theorem window_counts_exact rm newest endpoint requests errors served failed :
  last (rm_snapshots rm) = Some newest ->
  endpoint ∈ sc_endpoints (rm_schema rm) \/ is_Some (ms_endpoints newest !! endpoint) ->
  let i := oldest_in_window (rm_snapshots rm) newest in
  let pairs := window_pairs (rm_snapshots rm) i in
  Forall (exports (fun s => ec_requests (endpoint_of endpoint s)) requests) (rm_snapshots rm) ->
  Forall (exports (fun s => ec_errors_5xx (endpoint_of endpoint s)) errors) (rm_snapshots rm) ->
  Forall2 (counts requests) pairs served -> total served < 2 ^ 53 ->
  Forall2 (counts errors) pairs failed -> total failed < 2 ^ 53 ->
  (exists w, windows rm !! endpoint = Some w /\
     ew_requests w = f64_of_Z (total served) /\ ew_errors_5xx w = f64_of_Z (total failed) /\
     ew_error_ratio w = if flt fzero (f64_of_Z (total served))
                        then fdiv (f64_of_Z (total failed)) (f64_of_Z (total served)) else fzero) /\
  (exists s, rm_snapshots rm !! i = Some s /\ as_secs (duration_since (ms_at newest) (ms_at s)) <= 300) /\
  (forall j s, (j < i)%nat -> rm_snapshots rm !! j = Some s ->
     300 < as_secs (duration_since (ms_at newest) (ms_at s))).
Proof.
  intros Hl He i pairs Hr Hf Hs Hst Hd Hdt.
  assert (Hex : forall get c, Forall (exports get c) (rm_snapshots rm) ->
    Forall (fun '(p, n) => exports get c p /\ exports get c n) pairs).
  { intros get c H. apply Forall_forall. intros [p n] Hin. rewrite Forall_forall in H.
    destruct (window_pairs_elem _ _ _ _ Hin). by split; apply H. }
  split.
  - exists (endpoint_window (rm_snapshots rm) newest endpoint).
    rewrite (windows_lookup rm newest endpoint) by done. split; [done|].
    unfold endpoint_window. cbv zeta. fold i. fold pairs. cbn [ew_requests ew_errors_5xx ew_error_ratio].
    rewrite (counter_window_exact _ requests pairs served), (counter_window_exact _ errors pairs failed); auto.
  - apply (oldest_in_window_spec (rm_snapshots rm) newest). by apply last_Some_elem_of.
Qed.

(** Four snapshots: 5 requests, then 3 more of which one fails, a restart, and 2
    requests of the new process; the first snapshot is outside the window. *)
Definition counter_snapshot (seconds requests errors start : Z) : MetricsSnapshot :=
  {| ms_at := seconds * 1000000000;
     ms_endpoints := {["init"%string := {| ec_requests := f64_of_Z requests; ec_errors_5xx := f64_of_Z errors;
       ec_observed := HistogramCumulative_default; ec_processing := HistogramCumulative_default;
       ec_in_flight := fzero; ec_processing_in_flight := fzero |}]};
     ms_snapshot_gauges := ∅; ms_workers := ∅; ms_layout := ∅; ms_tables := ∅; ms_worker_tables := ∅;
     ms_worker_groups := ∅; ms_worker_queries := ∅; ms_resident_memory_bytes := None;
     ms_process_start_time_seconds := Some (f64_of_Z start) |}.
Definition counter_history : RollingMetrics :=
  {| rm_schema := sample_schema;
     rm_snapshots := [counter_snapshot 0 1 0 7; counter_snapshot 100 5 0 7;
                      counter_snapshot 200 8 1 7; counter_snapshot 400 2 0 9] |}.
Definition of_time (a b c d : Z) (s : MetricsSnapshot) : Z :=
  if ms_at s =? 0 then a else if ms_at s =? 100000000000 then b
  else if ms_at s =? 200000000000 then c else d.

Lemma window_counts_exact_witness :
  exists w, windows counter_history !! "init"%string = Some w /\
    ew_requests w = f64_of_Z 5 /\ ew_errors_5xx w = f64_of_Z 1.
Proof.
  destruct (window_counts_exact counter_history (counter_snapshot 400 2 0 9) "init"
    (of_time 1 5 8 2) (of_time 0 0 1 0) [3; 2] [1; 0]) as [(w & H1 & H2 & H3 & _) _].
  - reflexivity.
  - left. vm_compute. repeat constructor.
  - repeat (constructor; [split; [vm_compute; reflexivity|vm_compute; split; congruence]|]). constructor.
  - repeat (constructor; [split; [vm_compute; reflexivity|vm_compute; split; congruence]|]). constructor.
  - change (oldest_in_window (rm_snapshots counter_history) (counter_snapshot 400 2 0 9)) with 1%nat.
    constructor; [|constructor; [|constructor]]; (split; [lia|]).
    + left. split; vm_compute; reflexivity.
    + right. split; [left|]; vm_compute; reflexivity.
  - vm_compute. reflexivity.
  - change (oldest_in_window (rm_snapshots counter_history) (counter_snapshot 400 2 0 9)) with 1%nat.
    constructor; [|constructor; [|constructor]]; (split; [lia|]).
    + left. split; vm_compute; reflexivity.
    + right. split; [left|]; vm_compute; reflexivity.
  - vm_compute. reflexivity.
  - exists w. split; [exact H1|]. split; [exact H2|exact H3].
Defined.

(** ** Bounds on what a scrape target can make the sidecar keep *)

Definition endpoints_ok (schema : Schema) (m : gmap string EndpointCumulative) : Prop :=
  (size m <= Nat.max 32 (length (sc_endpoints schema)))%nat /\
  (forall e, e ∈ sc_endpoints schema -> is_Some (m !! e)) /\
  (forall e, is_Some (m !! e) -> e ∈ sc_endpoints schema \/ is_endpoint_label e = true).

Definition workers_ok (m : gmap string WorkerQueryCumulative) : Prop :=
  (size m <= 64)%nat /\ forall r w, m !! r = Some w -> r <> ""%string /\ wq_group w <> ""%string.

Definition parsing_ok (schema : Schema) (p : Parsing) : Prop :=
  endpoints_ok schema (pr_endpoints p) /\ workers_ok (pr_worker_queries p).

Lemma endpoints_ok_dom schema m m' : dom m = dom m' -> endpoints_ok schema m -> endpoints_ok schema m'.
Proof.
  intros Hd (H1 & H2 & H3).
  assert (Hs : forall e, is_Some (m !! e) <-> is_Some (m' !! e)) by (intros e; by rewrite <- !elem_of_dom, Hd).
  split_and!.
  - by rewrite <- size_dom, <- Hd, size_dom.
  - intros e He. apply Hs. by apply H2.
  - intros e He. apply H3. by apply Hs.
Qed.

Lemma endpoint_entry_ok schema m sample :
  endpoints_ok schema m -> endpoints_ok schema (endpoint_entry m sample).1.
Proof.
  intros (H1 & H2 & H3). unfold endpoint_entry.
  destruct (ps_labels sample !! _) as [endpoint|]; [|done].
  destruct (m !! endpoint) as [x|] eqn:Em; [done|].
  destruct (negb _ || _) eqn:Eg; [done|]. bool_prop. cbn [fst]. unfold MAX_ENDPOINTS in *. split_and!.
  - rewrite map_size_insert_None by done. lia.
  - intros e He. destruct (decide (e = endpoint)) as [->|]; [by rewrite lookup_insert_eq|].
    rewrite lookup_insert_ne by done. by apply H2.
  - intros e He. destruct (decide (e = endpoint)) as [->|]; [by right|].
    rewrite lookup_insert_ne in He by done. by apply H3.
Qed.

Lemma set_endpoint_value_ok schema m sample set :
  endpoints_ok schema m -> endpoints_ok schema (set_endpoint_value m sample set).
Proof.
  intros H. apply (endpoint_entry_ok schema m sample) in H. unfold set_endpoint_value.
  destruct (endpoint_entry m sample) as [m' [e|]]; cbn [fst] in H; [|done].
  by apply (endpoints_ok_dom schema m'); [rewrite dom_alter_L|].
Qed.

Lemma set_histogram_bucket_ok schema m sample lens m' :
  endpoints_ok schema m -> set_histogram_bucket m sample lens = Ok m' -> endpoints_ok schema m'.
Proof.
  intros H. apply (endpoint_entry_ok schema m sample) in H as H'. unfold set_histogram_bucket.
  destruct (ps_labels sample !! _) as [le|]; [|by intros [= <-]].
  destruct (endpoint_entry m sample) as [m1 [e|]]; cbn [fst] in H'; [|by intros [= <-]].
  destruct (parse_bound le); [|done]. intros [= <-].
  by apply (endpoints_ok_dom schema m1); [rewrite dom_alter_L|].
Qed.

Lemma workers_ok_insert m r w :
  workers_ok m -> r <> ""%string -> wq_group w <> ""%string ->
  (m !! r <> None \/ (size m < 64)%nat) -> workers_ok (<[r := w]> m).
Proof.
  intros [H1 H2] Hr Hw Hn. split.
  - destruct (m !! r) as [x|] eqn:E.
    + rewrite map_size_insert_Some by (by exists x). done.
    + rewrite map_size_insert_None by done. destruct Hn; [done|lia].
  - intros r' w' [[<- <-]|[_ H]]%lookup_insert_Some; [done|by apply (H2 r')].
Qed.

Lemma worker_query_entry_ok m sample m' o :
  workers_ok m -> worker_query_entry m sample = (m', o) -> workers_ok m'.
Proof.
  intros Hm H. unfold worker_query_entry in H.
  destruct (ps_labels sample !! "group"%string) as [group|]; [|by simplify_eq].
  destruct (ps_labels sample !! "replica"%string) as [replica|]; [|by simplify_eq].
  destruct (bool_decide (replica = "") || bool_decide (group = "")) eqn:E1; [by simplify_eq|]. bool_prop.
  destruct (bool_decide (m !! replica = None) && (MAX_WORKERS <=? Z.of_nat (size m))) eqn:E2; [by simplify_eq|].
  assert (Hroom : m !! replica <> None \/ (size m < 64)%nat).
  { unfold MAX_WORKERS in E2. bool_prop. destruct E2 as [E2|E2]; bool_prop; [by left|right; lia]. }
  set (values := default _ _) in H.
  case_bool_decide as E3; [|case_bool_decide as E4].
  - injection H as <- _. rewrite insert_insert_eq. by apply workers_ok_insert.
  - injection H as <- _. apply workers_ok_insert; [done|done| |done]. by rewrite E4.
  - injection H as <- _. apply workers_ok_insert; done.
Qed.

Lemma set_worker_value_ok m sample set :
  (forall w, wq_group (set w) = wq_group w) -> workers_ok m -> workers_ok (set_worker_value m sample set).
Proof.
  intros Hset Hm. unfold set_worker_value.
  destruct (worker_query_entry m sample) as [m' [r|]] eqn:E;
    apply (worker_query_entry_ok m sample) in E; try done. destruct E as [H1 H2]. split.
  - by rewrite <- size_dom, dom_alter_L, size_dom.
  - intros r' w' Hw. apply lookup_alter_Some in Hw as [(<- & w & Hw & ->)|[_ Hw]]; [|by apply H2].
    rewrite Hset. by apply H2.
Qed.

Lemma apply_gauge_ok schema p sample : parsing_ok schema p -> parsing_ok schema (apply_gauge schema p sample).
Proof.
  intros H. unfold apply_gauge. cbv zeta.
  repeat match goal with |- context [match ?x with Some _ => _ | None => _ end] => destruct x end; exact H.
Qed.

Lemma apply_sample_ok schema p sample p' :
  parsing_ok schema p -> apply_sample schema p sample = Ok p' -> parsing_ok schema p'.
Proof.
  intros [He Hw] H. unfold apply_sample in H. cbv zeta in H.
  repeat match type of H with
  | (if ?b then _ else _) = _ => destruct b
  | match ?x with Some _ => _ | None => _ end = _ => destruct x
  end;
  try (injection H as <-);
  try (split; [by apply set_endpoint_value_ok|done]);
  try (split; [done|by apply set_worker_value_ok]);
  try done; try (by apply apply_gauge_ok).
  - destruct (set_histogram_bucket _ _ _) eqn:E; [|done]. injection H as <-.
    split; [by eapply set_histogram_bucket_ok|done].
  - destruct (set_histogram_bucket _ _ _) eqn:E; [|done]. injection H as <-.
    split; [by eapply set_histogram_bucket_ok|done].
  - destruct (parse_bound _); [|done]. injection H as <-. split; [done|by apply set_worker_value_ok].
Qed.

Lemma parse_lines_ok schema n lines p p' :
  parsing_ok schema p -> parse_lines schema n lines p = Ok p' -> parsing_ok schema p'.
Proof.
  revert n p; induction lines as [|line lines IH]; intros n p Hp H; [by injection H as <-|].
  cbn [parse_lines] in H. destruct (bool_decide _ || bool_decide _); [by eapply IH|].
  destruct (map_err _ _) as [sample|]; [|done].
  destruct (apply_sample schema p sample) as [p1|] eqn:E; [|done].
  eapply IH; [|done]. by eapply apply_sample_ok.
Qed.

Lemma size_list_to_map_le {A} (l : list (string * A)) : (size (list_to_map l : gmap string A) <= length l)%nat.
Proof.
  induction l as [|[k x] l IH]; [by cbn; rewrite map_size_empty|]. cbn [list_to_map foldr length].
  change (foldr _ _ l) with (list_to_map l : gmap string A). cbn. rewrite map_size_insert.
  destruct (_ !! _); cbn; lia.
Qed.

Lemma parsing_start_ok schema : parsing_ok schema (parsing_start schema).
Proof.
  split; [split_and!|split].
  - cbn [pr_endpoints parsing_start].
    etrans; [apply size_list_to_map_le|]. rewrite length_fmap. lia.
  - intros e He. cbn. apply elem_of_dom. rewrite dom_list_to_map_L, elem_of_list_to_set.
    rewrite <- list_fmap_compose. by rewrite list_fmap_id.
  - intros e He. left. cbn in He. apply elem_of_dom in He.
    rewrite dom_list_to_map_L, elem_of_list_to_set, <- list_fmap_compose in He. by rewrite list_fmap_id in He.
  - cbn. rewrite map_size_empty. lia.
  - intros r w Hr. cbn [pr_worker_queries parsing_start] in Hr. by rewrite lookup_empty in Hr.
Qed.

(** A snapshot within the caps. *)
Definition snapshot_ok (schema : Schema) (m : MetricsSnapshot) : Prop :=
  endpoints_ok schema (ms_endpoints m) /\ workers_ok (ms_worker_queries m).

Lemma parse_prometheus_ok schema text at_ m :
  parse_prometheus schema text at_ = Ok m -> snapshot_ok schema m /\ ms_at m = at_.
Proof.
  unfold parse_prometheus. intros H. destruct (parse_lines _ _ _ _) as [p|] eqn:E; [|done]. injection H as <-.
  apply parse_lines_ok in E as [He [Hw1 Hw2]]; [|apply parsing_start_ok]. split; [|done]. split.
  - by apply (endpoints_ok_dom schema (pr_endpoints p)); [cbn [ms_endpoints]; rewrite dom_fmap_L|].
  - split; cbn [ms_worker_queries]; [by rewrite map_size_fmap|].
    intros r w. rewrite lookup_fmap, fmap_Some. intros (w0 & Hw & ->). exact (Hw2 r w0 Hw).
Qed.

(** ** Samples as a Prometheus server renders them *)

Definition escape (b : Z) : list Z :=
  if b =? 92 then [92; 92] else if b =? 34 then [92; 34] else if b =? 10 then [92; 110] else [b].
Definition render_label (label : string * string) : list Z :=
  string_bytes (fst label) ++ [61; 34] ++ concat (escape <$> string_bytes (snd label)) ++ [34].
Definition render_more (labels : list (string * string)) : list Z :=
  concat ((fun label => 44 :: render_label label) <$> labels).
Definition render_labels (labels : list (string * string)) : list Z :=
  match labels with [] => [] | label :: labels => render_label label ++ render_more labels end.
Definition render_sample (name : string) (labels : list (string * string)) (value : list Z) : list Z :=
  string_bytes name ++ 123 :: render_labels labels ++ 125 :: 32 :: value.

(** Visible ASCII. *)
Definition plain (b : Z) : Prop := 33 <= b < 127.
Definition ascii (s : string) : Prop := Forall (fun b => 0 <= b < 128) (string_bytes s).

Lemma identifier_plain b : identifier_byte b = true -> plain b /\ b <> 61 /\ b <> 123 /\ b <> 44.
Proof. unfold identifier_byte, plain. intros H. bool_prop. repeat (destruct H as [H|H]; bool_prop); lia. Qed.

Lemma identifier_bytes s :
  is_identifier s = true ->
  string_bytes s <> [] /\ Forall (fun b => plain b /\ b <> 61 /\ b <> 123 /\ b <> 44) (string_bytes s).
Proof.
  unfold is_identifier. intros H. bool_prop. split.
  - by destruct s.
  - match goal with H : forallb _ _ = true |- _ => rewrite forallb_forall in H; rename H into Hf end.
    apply Forall_forall. intros b Hb. apply identifier_plain, Hf. by apply list_elem_of_In.
Qed.

Lemma whitespace_prefix_plain b l : plain b -> whitespace_prefix (b :: l) = None.
Proof.
  unfold plain, whitespace_prefix, ascii_space, space2, space3. intros Hb. guards. cbn [andb orb].
  destruct l as [|c [|d l]]; done.
Qed.

Lemma trim_start_plain b l : plain b -> trim_start (b :: l) = b :: l.
Proof. intros Hb. unfold trim_start. cbn [length strip_while]. by rewrite whitespace_prefix_plain. Qed.

Lemma trim_end_plain l b : plain b -> trim_end (l ++ [b]) = l ++ [b].
Proof.
  intros Hb. unfold trim_end. rewrite reverse_snoc, length_app, Nat.add_comm. cbn [length plus Nat.add strip_while].
  replace (whitespace_suffix (b :: reverse l)) with (@None (list Z)).
  - by rewrite <- reverse_snoc, reverse_involutive.
  - unfold plain, whitespace_suffix, ascii_space, space2, space3 in *.
    rewrite (proj2 (Z.leb_gt b 13)) by lia. rewrite (proj2 (Z.eqb_neq b 32)) by lia. rewrite andb_false_r.
    cbn [orb]. destruct (reverse l) as [|c [|d k]]; [done| |]; guards; rewrite ?andb_false_r; done.
Qed.

Lemma trim_plain l : l <> [] -> Forall plain l -> trim l = l.
Proof.
  intros Hne Hall. unfold trim. destruct l as [|b l]; [done|].
  rewrite trim_start_plain by (by inversion Hall).
  destruct (exists_last (l := b :: l)) as (k & x & E); [done|]. rewrite E in *.
  apply Forall_app in Hall as [_ Hx]. apply trim_end_plain. by inversion Hx.
Qed.

Lemma read_key_at key rest acc :
  Forall (fun b => b <> 61) key -> read_key (key ++ 61 :: rest) acc = Some (reverse acc ++ key, rest).
Proof.
  intros H. revert acc. induction H as [|b key Hb _ IH]; intros acc; cbn [app read_key].
  - by rewrite app_nil_r.
  - guards. rewrite IH. by rewrite reverse_cons, <- (assoc (++)).
Qed.

Lemma read_value_at v rest acc :
  Forall (fun b => 0 <= b < 128) v ->
  read_value (concat (escape <$> v) ++ 34 :: rest) acc = Ok (acc ++ v, rest).
Proof.
  intros H. revert acc. induction H as [|b v Hb _ IH]; intros acc.
  { cbn. by rewrite app_nil_r. }
  cbn [fmap list_fmap concat]. rewrite <- (assoc (++)).
  assert (Hc : char_of_byte b = [b]) by (unfold char_of_byte; by guards).
  unfold escape at 1. destruct (decide (b = 92)) as [->|]; [|destruct (decide (b = 34)) as [->|];
    [|destruct (decide (b = 10)) as [->|]]]; guards; cbn [app read_value].
  1-3: cbn; rewrite IH; by rewrite <- (assoc (++)).
  guards. rewrite Hc, IH. by rewrite <- (assoc (++)).
Qed.

(** A label whose key is an identifier and whose value is ASCII. *)
Definition label_ok (label : string * string) : Prop :=
  is_identifier (fst label) = true /\ ascii (snd label).

Lemma skip_label label rest : label_ok label -> skip_separators (render_label label ++ rest) = render_label label ++ rest.
Proof.
  intros [Hk _]. apply identifier_bytes in Hk as [Hne Hall]. unfold render_label.
  destruct (string_bytes (fst label)) as [|b key]; [done|]. apply Forall_cons in Hall as [(Hp & _ & _ & H44) _].
  unfold plain in Hp. cbn [app skip_separators]. unfold is_ascii_whitespace. by guards.
Qed.

Lemma loop_label fuel l label rest m :
  label_ok label -> skip_separators l = render_label label ++ rest ->
  parse_labels_loop (S fuel) l m = parse_labels_loop fuel rest (<[fst label := snd label]> m).
Proof.
  intros [Hk Hv] Hs. cbn [parse_labels_loop]. rewrite Hs.
  pose proof (identifier_bytes _ Hk) as [Hne Hall].
  assert (E : render_label label ++ rest =
    string_bytes (fst label) ++ 61 :: 34 :: (concat (escape <$> string_bytes (snd label)) ++ 34 :: rest)).
  { unfold render_label. by rewrite <- !(assoc (++)). }
  rewrite E. destruct (string_bytes (fst label)) as [|b key] eqn:Ek; [done|]. cbn [app].
  change (b :: key ++ ?x) with ((b :: key) ++ x). rewrite read_key_at by (eapply Forall_impl; [done|]; naive_solver).
  change (reverse [] ++ ?x) with x. cbn [Z.eqb Pos.eqb]. rewrite read_value_at by done. cbn [app].
  rewrite trim_plain by (done || (eapply Forall_impl; [done|]; naive_solver)).
  rewrite <- Ek. by rewrite !string_of_bytes.
Qed.

Lemma loop_more labels fuel m :
  Forall label_ok labels -> (length labels <= fuel)%nat ->
  parse_labels_loop fuel (render_more labels) m =
  Ok (foldl (fun m label => <[fst label := snd label]> m) m labels).
Proof.
  intros Hall. revert fuel m. induction Hall as [|label labels Hl _ IH]; intros fuel m Hf.
  { by destruct fuel. }
  destruct fuel as [|fuel]; cbn [length] in Hf; [lia|]. cbn [foldl].
  unfold render_more. cbn [fmap list_fmap concat]. fold (render_more labels).
  rewrite (loop_label fuel _ label (render_more labels)); [apply IH; lia|done|].
  cbn [app skip_separators]. rewrite Z.eqb_refl. cbn [orb]. by apply skip_label.
Qed.

Lemma length_render_more labels : (length labels <= length (render_more labels))%nat.
Proof.
  induction labels as [|l labels IH]; [done|]. unfold render_more. cbn [fmap list_fmap concat].
  fold (render_more labels). cbn [app length]. rewrite length_app. lia.
Qed.

Lemma parse_labels_rendered labels :
  Forall label_ok labels ->
  parse_labels (render_labels labels) = Ok (foldl (fun m label => <[fst label := snd label]> m) ∅ labels).
Proof.
  intros Hall. unfold parse_labels. destruct labels as [|label labels]; [done|]. cbn [render_labels foldl].
  apply Forall_cons in Hall as [Hl Hall].
  pose proof (length_render_more labels) as Hlen. rewrite length_app.
  destruct (length (render_label label) + length (render_more labels))%nat as [|fuel] eqn:Ef.
  { unfold render_label in Ef. rewrite !length_app in Ef. cbn in Ef. lia. }
  rewrite (loop_label fuel _ label (render_more labels)); [|done|by apply skip_label].
  apply loop_more; [done|]. unfold render_label in Ef. rewrite !length_app in Ef. cbn in Ef. lia.
Qed.

Lemma foldl_insert_labels labels (m : gmap string string) :
  NoDup labels.*1 -> (forall k, k ∈ labels.*1 -> m !! k = None) ->
  foldl (fun m label => <[fst label := snd label]> m) m labels = list_to_map labels ∪ m.
Proof.
  revert m. induction labels as [|[k v] labels IH]; intros m Hnd Hm; cbn [foldl fst snd].
  { by rewrite list_to_map_nil, (left_id_L ∅ (∪)). }
  rewrite fmap_cons, NoDup_cons in Hnd. destruct Hnd as [Hk Hnd]. rewrite IH; [|done|].
  - rewrite list_to_map_cons. cbn [fst snd]. rewrite <- insert_union_r by (by apply not_elem_of_list_to_map_1).
    by rewrite insert_union_l.
  - intros k' Hk'. rewrite lookup_insert_ne by (intros <-; done). apply Hm. rewrite fmap_cons. by right.
Qed.

Lemma rfind_app l tail i : rfind_whitespace tail = Some i -> rfind_whitespace (l ++ tail) = Some (length l + i)%nat.
Proof. intros H. induction l as [|b l IH]; [done|]. cbn [app rfind_whitespace length]. by rewrite IH. Qed.

Lemma rfind_plain l : Forall plain l -> rfind_whitespace l = None.
Proof.
  induction 1 as [|b l Hb _ IH]; [done|]. cbn [rfind_whitespace]. rewrite IH.
  by rewrite whitespace_prefix_plain.
Qed.

Lemma find_byte_at l rest : Forall (fun b => b <> 123) l -> find_byte 123 (l ++ 123 :: rest) = Some (length l).
Proof.
  induction 1 as [|b l Hb _ IH]; [done|]. unfold find_byte in *. cbn [app position length].
  rewrite (proj2 (Z.eqb_neq 123 b)) by lia. by rewrite IH.
Qed.

(** A sample of the exposition is read back as it was written: the name, every
    label with its value, in which quotes, backslashes, newlines, braces, commas and
    spaces may occur, and the number.  The metric name and label keys are of the
    allowed shape, label values are ASCII, and the number is visible ASCII text that
    parses. *)
Theorem sample_line_roundtrip name labels value_text value :
  is_identifier name = true -> Forall label_ok labels -> NoDup labels.*1 ->
  value_text <> [] -> Forall plain value_text -> parse_f64 value_text = Some value ->
  parse_line (render_sample name labels value_text) =
  Ok {| ps_name := name; ps_labels := list_to_map labels; ps_value := value |}.
Proof.
  intros Hn Hl Hnd Hne Hv Hp. apply identifier_bytes in Hn as [Hn0 Hn].
  set (d := string_bytes name ++ 123 :: render_labels labels ++ [125]).
  assert (E : render_sample name labels value_text = d ++ 32 :: value_text).
  { unfold render_sample, d. by rewrite <- !(assoc (++)), <- app_comm_cons, <- !(assoc (++)). }
  unfold parse_line. rewrite E, (rfind_app d (32 :: value_text) 0).
  2: { cbn [rfind_whitespace]. by rewrite rfind_plain. }
  rewrite Nat.add_0_r. cbn [ok_or]. rewrite take_app_length, drop_app_length.
  assert (Ed : d = (string_bytes name ++ 123 :: render_labels labels) ++ [125]).
  { unfold d. by rewrite <- (assoc (++)). }
  assert (Et : trim_end d = d) by (rewrite Ed; apply trim_end_plain; unfold plain; lia).
  assert (Ev : trim (32 :: value_text) = value_text).
  { unfold trim, trim_start. cbn [length strip_while whitespace_prefix]. change (ascii_space 32) with true.
    cbn [strip_while]. destruct value_text as [|b vt]; [done|]. cbn [length strip_while].
    rewrite whitespace_prefix_plain by (by inversion Hv). rewrite <- (trim_plain (b :: vt)) at 2 by done.
    unfold trim. by rewrite trim_start_plain by (by inversion Hv). }
  rewrite Et, Ev, Hp. cbn [ok_or]. unfold d at 1. rewrite find_byte_at by (eapply Forall_impl; [done|]; naive_solver).
  rewrite bool_decide_eq_true_2 by (rewrite Ed; apply last_snoc). cbn [negb].
  assert (Ei : take (length d - 1 - S (length (string_bytes name))) (drop (S (length (string_bytes name))) d) =
    render_labels labels).
  { unfold d. rewrite (app_assoc (string_bytes name) [123] _ : _ ++ 123 :: _ = _).
    rewrite drop_app_length' by (rewrite length_app; cbn; lia). apply take_app_length'.
    rewrite !length_app. cbn. lia. }
  rewrite Ei, parse_labels_rendered by done. unfold d. rewrite take_app_length.
  rewrite bool_decide_eq_false_2 by done. rewrite string_of_bytes.
  rewrite foldl_insert_labels by (done || (intros; apply lookup_empty)). by rewrite (right_id_L ∅ (∪)).
Qed.

Lemma sample_line_roundtrip_witness :
  parse_line (render_sample "enhance_http_requests_total"
    [("endpoint", "init"); ("path", "/a b{c}," +:+ bytes_string [34; 92; 10])]%string (string_bytes "1.5e1")) =
  Ok {| ps_name := "enhance_http_requests_total";
        ps_labels := list_to_map [("endpoint", "init"); ("path", "/a b{c}," +:+ bytes_string [34; 92; 10])]%string;
        ps_value := f64_of_Z 15 |}.
Proof.
  apply sample_line_roundtrip.
  - reflexivity.
  - repeat constructor; vm_compute; congruence.
  - apply (bool_decide_unpack _). vm_compute. exact I.
  - discriminate.
  - repeat constructor; vm_compute; congruence.
  - vm_compute. reflexivity.
Defined.

(** A label value outside ASCII is not read back: each byte of its encoding becomes
    a character of its own. *)
Example non_ascii_label_changes :
  let sample := render_sample "m" [("k", bytes_string [0xC3; 0xA9])]%string (string_bytes "1") in
  (string_bytes <$> (match parse_line sample with Ok s => ps_labels s | Err _ => ∅ end) !! "k"%string) =
  Some [0xC3; 0x83; 0xC2; 0xA9].
Proof. vm_compute. reflexivity. Qed.
