(* ===== verification/ApmAlerts.v ===== *)
(** * The alert engine of the monitoring sidecar

    Models [server/pir-apm/src/alerts.rs], the [HostHealth] record of [host.rs] and
    one tick of [scrape_loop] of [main.rs]: the conditions checked on a tick, the
    alerts that fire and recover, and what a tick reads from the scraped process.
    Monotonic time is in nanoseconds; the readings of the wall clock are an
    argument.  The theorems: over any sequence of ticks the transitions of a check
    alternate, starting with a firing, and the active alerts are those whose last
    transition fired; the two probe alerts are active exactly when the probes have
    failed for long enough; the state kept between ticks stays bounded; and an alert
    of a worker that leaves the exposition stays active for ever. *)

From Stdlib Require Import ZArith Lia.
From stdpp Require Import base numbers list strings pretty gmap sorting.
From S2P Require Import Prelude Float64 ApmSchema ApmMetrics.

(** ** Data *)

Record Alert := {
  al_check : string; al_observed : string; al_threshold : string; al_fired_at : Z }.

Inductive AlertTransition :=
| Fired (alert : Alert)
| Recovered (alert : Alert).

Record HostHealth := {
  hh_load_one : f64; hh_load_five : f64; hh_load_fifteen : f64;
  hh_total_memory_bytes : Z; hh_available_memory_bytes : Z;
  hh_disk_total_bytes : Z; hh_disk_available_bytes : Z;
  hh_disk_used_ratio : f64; hh_data_dir : string }.

Record AlertEngine := {
  ae_schema : Schema;
  ae_active : gmap string Alert;
  ae_recent : list (Z * string);
  ae_scrape_failures : Z;
  ae_ready_failed_since : option Z;
  ae_worker_groups : gmap string (gmap string gauges);
  ae_workers : gmap string gauges }.

Record AlertInput := {
  ai_now : Z; ai_scrape_ok : bool; ai_ready_ok : bool;
  ai_endpoints : gmap string EndpointWindow; ai_host : HostHealth }.

Definition AlertEngine_new (schema : Schema) : AlertEngine :=
  {| ae_schema := schema; ae_active := ∅; ae_recent := []; ae_scrape_failures := 0;
     ae_ready_failed_since := None; ae_worker_groups := ∅; ae_workers := ∅ |}.

Definition set_worker_groups (self : AlertEngine) (worker_groups : gmap string (gmap string gauges)) : AlertEngine :=
  {| ae_schema := ae_schema self; ae_active := ae_active self; ae_recent := ae_recent self;
     ae_scrape_failures := ae_scrape_failures self; ae_ready_failed_since := ae_ready_failed_since self;
     ae_worker_groups := worker_groups; ae_workers := ae_workers self |}.
Definition set_workers (self : AlertEngine) (workers : gmap string gauges) : AlertEngine :=
  {| ae_schema := ae_schema self; ae_active := ae_active self; ae_recent := ae_recent self;
     ae_scrape_failures := ae_scrape_failures self; ae_ready_failed_since := ae_ready_failed_since self;
     ae_worker_groups := ae_worker_groups self; ae_workers := workers |}.

(** ** Conditions *)

(** Whether the check is firing, with what is reported. *)
Abbreviation condition := (bool * string * string)%type.

(** The two probe counters of [evaluate]. *)
Definition update_probes (self : AlertEngine) (input : AlertInput) : AlertEngine :=
  {| ae_schema := ae_schema self; ae_active := ae_active self; ae_recent := ae_recent self;
     ae_scrape_failures := if ai_scrape_ok input then 0
                           else Z.min (ae_scrape_failures self + 1) (2 ^ 32 - 1);
     ae_ready_failed_since := if ai_ready_ok input then None
                              else Some (default (ai_now input) (ae_ready_failed_since self));
     ae_worker_groups := ae_worker_groups self; ae_workers := ae_workers self |}.

Definition ready_failed_for (self : AlertEngine) (input : AlertInput) : Z :=
  match ae_ready_failed_since self with
  | Some since => duration_since (ai_now input) since
  | None => 0
  end.

Definition scrape_condition (self : AlertEngine) : condition :=
  (SCRAPE_FAILURE_TICKS <=? ae_scrape_failures self,
   (pretty (ae_scrape_failures self) +:+ " consecutive failed ticks")%string,
   (pretty SCRAPE_FAILURE_TICKS +:+ " ticks")%string).

Definition ready_condition (self : AlertEngine) (input : AlertInput) : condition :=
  (negb (ai_ready_ok input) && (READY_FAILURE_SECONDS * 1000000000 <=? ready_failed_for self input),
   ("non-200 for " +:+ pretty (as_secs (ready_failed_for self input)) +:+ "s")%string,
   (pretty READY_FAILURE_SECONDS +:+ "s")%string).

Definition errors_condition (window : EndpointWindow) : condition :=
  (fle HTTP_5XX_MIN_REQUESTS (ew_requests window) && flt HTTP_5XX_RATIO (ew_error_ratio window),
   (fmt_fixed 1 (fmul (ew_error_ratio window) (f64_of_Z 100)) +:+ "% over " +:+
    fmt_fixed 0 (ew_requests window) +:+ " requests")%string,
   ("> " +:+ fmt_fixed 0 (fmul HTTP_5XX_RATIO (f64_of_Z 100)) +:+ "% over 5m, min " +:+
    fmt_fixed 0 HTTP_5XX_MIN_REQUESTS)%string).

Definition latency_condition (schema : Schema) (endpoint : string) (window : EndpointWindow) : condition :=
  let uses_processing := uses_processing schema endpoint || ew_processing_available window in
  let latency_label := (if uses_processing then "post-body server p99" else "p99")%string in
  let latency_threshold := default DEFAULT_LATENCY_P99_SECONDS (latency_budget schema endpoint) in
  let latency := alert_latency window uses_processing in
  (fle LATENCY_MIN_REQUESTS (lw_samples latency) &&
     match lw_p99 latency with Some p99 => flt latency_threshold p99 | None => false end,
   match lw_p99 latency with
   | Some p99 => (latency_label +:+ " " +:+ fmt_fixed 3 p99 +:+ "s over " +:+
                  fmt_fixed 0 (lw_samples latency) +:+ " samples")%string
   | None => (latency_label +:+ " unavailable")%string
   end,
   (latency_label +:+ " > " +:+ fmt_fixed 3 latency_threshold +:+ "s over 5m, min " +:+
    fmt_fixed 0 LATENCY_MIN_REQUESTS)%string).

Definition insert_endpoint_conditions (schema : Schema) (conditions : gmap string condition)
    (entry : string * EndpointWindow) : gmap string condition :=
  let '(endpoint, window) := entry in
  if is_informational schema endpoint then conditions else
  <[(endpoint +:+ "_high_latency")%string := latency_condition schema endpoint window]>
    (<[(endpoint +:+ "_5xx")%string := errors_condition window]> conditions).

Definition disk_condition (host : HostHealth) : condition :=
  (flt DISK_USED_RATIO (hh_disk_used_ratio host),
   (fmt_fixed 1 (fmul (hh_disk_used_ratio host) (f64_of_Z 100)) +:+ "% used")%string,
   ("> " +:+ fmt_fixed 0 (fmul DISK_USED_RATIO (f64_of_Z 100)) +:+ "%")%string).

Definition memory_condition (host : HostHealth) : condition :=
  (hh_available_memory_bytes host <? MEMORY_AVAILABLE_BYTES,
   (pretty (hh_available_memory_bytes host / 1024 / 1024) +:+ " MiB available")%string,
   ("< " +:+ pretty (MEMORY_AVAILABLE_BYTES / 1024 / 1024) +:+ " MiB")%string).

Definition group_check (table group : string) : string := ("worker_group_" +:+ table +:+ "_" +:+ group)%string.
Definition group_condition (g : gauges) : condition :=
  let configured := default fzero (g !! "configured_replicas"%string) in
  let ready := default fzero (g !! "ready_replicas"%string) in
  (flt fzero configured && flt ready configured,
   (fmt_fixed 0 ready +:+ "/" +:+ fmt_fixed 0 configured +:+ " replicas ready")%string,
   "all configured replicas ready"%string).

Definition rss_check (worker : string) : string := ("worker_rss_" +:+ worker)%string.
Definition rss_condition (g : gauges) : condition :=
  let rss := default fzero (g !! "process_rss_bytes"%string) in
  (flt (f64_of_Z WORKER_RSS_LIMIT_BYTES) rss,
   (fmt_fixed 0 (fdiv (fdiv rss (f64_of_Z 1024)) (f64_of_Z 1024)) +:+ " MiB resident")%string,
   ("<= " +:+ pretty (WORKER_RSS_LIMIT_BYTES / 1024 / 1024) +:+ " MiB")%string).

(** The map [conditions] of [evaluate], inserted in the order of the code: a later
    insert under the same check replaces an earlier one. *)
Definition conditions (self : AlertEngine) (input : AlertInput) : gmap string condition :=
  let c := <["scrape_failure"%string := scrape_condition self]> ∅ in
  let c := <["ready"%string := ready_condition self input]> c in
  let c := foldl (insert_endpoint_conditions (ae_schema self)) c (sorted_entries (ai_endpoints input)) in
  let c := <["disk_usage"%string := disk_condition (ai_host input)]> c in
  let c := <["memory_available"%string := memory_condition (ai_host input)]> c in
  let c := foldl (fun c '(table, groups) =>
      foldl (fun c '(group, g) => <[group_check table group := group_condition g]> c) c (sorted_entries groups))
    c (sorted_entries (ae_worker_groups self)) in
  foldl (fun c '(worker, g) => <[rss_check worker := rss_condition g]> c) c (sorted_entries (ae_workers self)).

(** ** Transitions *)

(** [record]: the newest message first, twenty kept. *)
Definition record_message (recent : list (Z * string)) (at_ : Z) (message : string) : list (Z * string) :=
  take 20 ((at_, message) :: recent).

(** What the transition loop changes: the active alerts, the recent messages, the
    transitions so far and how often the wall clock was read. *)
Record Transitions := {
  tr_active : gmap string Alert; tr_recent : list (Z * string);
  tr_out : list AlertTransition; tr_reads : Z }.

Definition transition_step (wall : Z -> Z) (t : Transitions) (entry : string * condition) : Transitions :=
  let '(check, (firing, observed, threshold)) := entry in
  match (firing : bool), tr_active t !! check with
  | true, None =>
      let alert := {| al_check := check; al_observed := observed; al_threshold := threshold;
                      al_fired_at := wall (tr_reads t) |} in
      {| tr_active := <[check := alert]> (tr_active t);
         tr_recent := record_message (tr_recent t) (wall (tr_reads t + 1))
                        ("FIRED " +:+ check +:+ ": " +:+ observed)%string;
         tr_out := tr_out t ++ [Fired alert]; tr_reads := tr_reads t + 2 |}
  | false, Some alert =>
      {| tr_active := delete check (tr_active t);
         tr_recent := record_message (tr_recent t) (wall (tr_reads t)) ("RECOVERED " +:+ al_check alert)%string;
         tr_out := tr_out t ++ [Recovered alert]; tr_reads := tr_reads t + 1 |}
  | _, _ => t
  end.

Definition evaluate (wall : Z -> Z) (self : AlertEngine) (input : AlertInput) :
    list AlertTransition * AlertEngine :=
  let self := update_probes self input in
  let t := foldl (transition_step wall)
             {| tr_active := ae_active self; tr_recent := ae_recent self; tr_out := []; tr_reads := 0 |}
             (sorted_entries (conditions self input)) in
  (tr_out t,
   {| ae_schema := ae_schema self; ae_active := tr_active t; ae_recent := tr_recent t;
      ae_scrape_failures := ae_scrape_failures self; ae_ready_failed_since := ae_ready_failed_since self;
      ae_worker_groups := ae_worker_groups self; ae_workers := ae_workers self |}).

(** [active] and [recent]. *)
Definition active (self : AlertEngine) : list Alert := (sorted_entries (ae_active self)).*2.
Definition recent (self : AlertEngine) : list (Z * string) := ae_recent self.

(** ** One tick of the scrape loop *)

(** A response of [fetch]: the status and the body, or its error. *)
Record FetchResponse := { fr_status : Z; fr_body : list Z }.
Abbreviation Fetched := (result string FetchResponse).

(** [fetch] on what the HTTP client returned: a request error, or a status with a
    body or a body error. *)
Definition fetch (path : string) (require_success : bool)
    (response : result string (Z * result string (list Z))) : Fetched :=
  let? (status, body) := map_err (fun e => (path +:+ " request failed: " +:+ e)%string) response in
  if require_success && negb ((200 <=? status) && (status <? 300))
  then Err (path +:+ " returned HTTP " +:+ pretty status)%string else
  let? body := map_err (fun e => (path +:+ " body failed: " +:+ e)%string) body in
  Ok {| fr_status := status; fr_body := body |}.

Record ScrapeState := { ss_rolling : RollingMetrics; ss_alerts : AlertEngine }.
Definition ScrapeState_new (schema : Schema) : ScrapeState :=
  {| ss_rolling := RollingMetrics_new schema; ss_alerts := AlertEngine_new schema |}.

(** What a tick publishes to the dashboard. *)
Record DashboardView := {
  dv_last_scrape : Z; dv_scrape_error : option string; dv_health_status : option Z;
  dv_health_body : option (list Z); dv_ready_status : option Z;
  dv_endpoints : gmap string EndpointWindow; dv_snapshot_gauges : gauges;
  dv_workers : gmap string gauges; dv_worker_queries : gmap string WorkerQueryWindow;
  dv_layout : gauges; dv_tables : gmap string gauges;
  dv_worker_tables : gmap string (gmap string gauges);
  dv_process_resident_memory_bytes : option f64; dv_host : HostHealth;
  dv_active_alerts : list Alert; dv_recent_alerts : list (Z * string) }.

(** The metrics of the tick: the rolling window, and the error of the scrape. *)
Definition scrape_metrics (schema : Schema) (rolling : RollingMetrics) (now : Z)
    (metrics_result health_result ready_result : Fetched) : RollingMetrics * option string :=
  let '(rolling, scrape_error) :=
    match metrics_result with
    | Ok response =>
        match parse_prometheus schema (fr_body response) now with
        | Ok snapshot => (RollingMetrics_push rolling snapshot, None)
        | Err error => (rolling, Some ("metrics parse failed: " +:+ error)%string)
        end
    | Err error => (rolling, Some error)
    end in
  (rolling,
   match scrape_error with
   | Some error => Some error
   | None =>
       match health_result, ready_result with
       | Err error, _ => Some error
       | _, Err error => Some error
       | _, _ => None
       end
   end).

Definition scrape_tick (schema : Schema) (wall : Z -> Z) (published_at : Z) (now : Z)
    (metrics_result health_result ready_result : Fetched) (host : HostHealth) (s : ScrapeState) :
    list AlertTransition * DashboardView * ScrapeState :=
  let status (r : Fetched) := match r with Ok response => Some (fr_status response) | Err _ => None end in
  let ready_ok := match status ready_result with
                  | Some status => (200 <=? status) && (status <? 300) | None => false end in
  let scrape_ok := is_ok metrics_result && is_ok health_result && is_ok ready_result in
  let '(rolling, scrape_error) :=
    scrape_metrics schema (ss_rolling s) now metrics_result health_result ready_result in
  let windows := windows rolling in
  let worker_query_windows := worker_query_windows rolling in
  let of_latest {A} (f : MetricsSnapshot -> A) (d : A) :=
    match latest rolling with Some snapshot => f snapshot | None => d end in
  let alerts := set_workers (set_worker_groups (ss_alerts s) (of_latest ms_worker_groups ∅))
                  (of_latest ms_workers ∅) in
  let '(transitions, alerts) := evaluate wall alerts
    {| ai_now := now; ai_scrape_ok := scrape_ok && bool_decide (scrape_error = None);
       ai_ready_ok := ready_ok; ai_endpoints := windows; ai_host := host |} in
  (transitions,
   {| dv_last_scrape := published_at; dv_scrape_error := scrape_error;
      dv_health_status := status health_result;
      dv_health_body := match health_result with Ok r => Some (fr_body r) | Err _ => None end;
      dv_ready_status := status ready_result; dv_endpoints := windows;
      dv_snapshot_gauges := of_latest ms_snapshot_gauges ∅; dv_workers := of_latest ms_workers ∅;
      dv_worker_queries := worker_query_windows; dv_layout := of_latest ms_layout ∅;
      dv_tables := of_latest ms_tables ∅; dv_worker_tables := of_latest ms_worker_tables ∅;
      dv_process_resident_memory_bytes := of_latest ms_resident_memory_bytes None; dv_host := host;
      dv_active_alerts := active alerts; dv_recent_alerts := recent alerts |},
   {| ss_rolling := rolling; ss_alerts := alerts |}).

(** ** Episodes *)

#[export] Instance Alert_eq_dec : EqDecision Alert.
Proof. solve_decision. Defined.

Definition transition_alert (t : AlertTransition) : Alert :=
  match t with Fired a | Recovered a => a end.

(** The transitions of one check. *)
Definition transitions_of (check : string) (l : list AlertTransition) : list AlertTransition :=
  base.filter (fun t => al_check (transition_alert t) = check) l.

(** Replaying the transitions of a check from its open alert: a firing opens an
    alert when none is open, a recovery closes the one that is open; anything else
    is not a history. *)
Fixpoint replay (open : option Alert) (l : list AlertTransition) : option (option Alert) :=
  match l with
  | [] => Some open
  | Fired a :: l => match open with None => replay (Some a) l | Some _ => None end
  | Recovered a :: l =>
      match open with
      | Some b => if bool_decide (a = b) then replay None l else None
      | None => None
      end
  end.

Lemma replay_app open l k : replay open (l ++ k) = (o ← replay open l; replay o k).
Proof.
  revert open; induction l as [|[a|a] l IH]; intros open; [done|..]; cbn [app replay].
  - destruct open; [done|apply IH].
  - destruct open; [|done]. case_bool_decide; [apply IH|done].
Qed.

(** Active alerts are filed under their check. *)
Definition filed (active : gmap string Alert) : Prop :=
  forall check a, active !! check = Some a -> al_check a = check.

(** The state of the transition loop: since [before], each check's transitions
    lead from its alert then to its alert now. *)
Definition tracked (before : gmap string Alert) (t : Transitions) : Prop :=
  filed (tr_active t) /\ (length (tr_recent t) <= 20)%nat /\
  forall check, replay (before !! check) (transitions_of check (tr_out t)) = Some (tr_active t !! check).

Lemma transitions_of_snoc check l t :
  transitions_of check (l ++ [t]) =
  transitions_of check l ++ (if decide (al_check (transition_alert t) = check) then [t] else []).
Proof. unfold transitions_of. rewrite filter_app. by f_equal. Qed.

Lemma transition_step_tracked wall before t entry :
  tracked before t -> tracked before (transition_step wall t entry).
Proof.
  intros (Hf & Hr & Hc). destruct entry as [check [[[] observed] threshold]]; cbn [transition_step].
  - destruct (tr_active t !! check) as [a|] eqn:Ea; [done|].
    split_and!; cbn [tr_active tr_recent tr_out].
    + intros c a [[<- <-]|[_ H]]%lookup_insert_Some; [done|by apply Hf].
    + unfold record_message. rewrite length_take. lia.
    + intros c. rewrite transitions_of_snoc, replay_app, Hc. cbn [transition_alert al_check mbind option_bind].
      destruct (decide _) as [<-|]; [by rewrite Ea, lookup_insert_eq|]. by rewrite lookup_insert_ne.
  - destruct (tr_active t !! check) as [a|] eqn:Ea; [|done].
    pose proof (Hf _ _ Ea) as Hac. split_and!; cbn [tr_active tr_recent tr_out].
    + intros c b [_ H]%lookup_delete_Some. by apply Hf.
    + unfold record_message. rewrite length_take. lia.
    + intros c. rewrite transitions_of_snoc, replay_app, Hc. cbn [transition_alert mbind option_bind].
      rewrite Hac. destruct (decide _) as [<-|].
      * rewrite Ea, lookup_delete_eq. cbn [replay]. by rewrite bool_decide_eq_true_2.
      * by rewrite lookup_delete_ne.
Qed.

Lemma foldl_tracked wall before l t :
  tracked before t -> tracked before (foldl (transition_step wall) t l).
Proof. revert t; induction l; intros; [done|]. apply IHl. by apply transition_step_tracked. Qed.

Definition engine_ok (e : AlertEngine) : Prop := filed (ae_active e) /\ (length (ae_recent e) <= 20)%nat.

Lemma evaluate_tracked wall e input out e' :
  engine_ok e -> evaluate wall e input = (out, e') ->
  engine_ok e' /\
  forall check, replay (ae_active e !! check) (transitions_of check out) = Some (ae_active e' !! check).
Proof.
  intros [Hf Hr] [= <- <-].
  destruct (foldl_tracked wall (ae_active e) (sorted_entries (conditions (update_probes e input) input))
    {| tr_active := ae_active e; tr_recent := ae_recent e; tr_out := []; tr_reads := 0 |})
    as (H1 & H2 & H3); [by split_and!|].
  by split; [split|].
Qed.

(** ** What one evaluation leaves *)

Lemma transition_step_other wall t entry check :
  entry.1 <> check -> tr_active (transition_step wall t entry) !! check = tr_active t !! check.
Proof.
  destruct entry as [c [[[] o] th]]; cbn [fst transition_step]; intros Hne;
    destruct (tr_active t !! c); cbn [tr_active]; try done.
  - by rewrite lookup_insert_ne.
  - by rewrite lookup_delete_ne.
Qed.

Lemma foldl_other wall l t check :
  check ∉ l.*1 -> tr_active (foldl (transition_step wall) t l) !! check = tr_active t !! check.
Proof.
  revert t; induction l as [|[c x] l IH]; intros t Hn; [done|]. cbn [foldl].
  rewrite fmap_cons, not_elem_of_cons in Hn. destruct Hn as [Hc Hn].
  rewrite IH by done. apply transition_step_other, not_eq_sym, Hc.
Qed.

Lemma transition_step_own wall t check firing o th :
  is_Some (tr_active (transition_step wall t (check, (firing, o, th))) !! check) <-> firing = true.
Proof.
  cbn [transition_step]. destruct firing, (tr_active t !! check) as [a|] eqn:E; cbn [tr_active];
    rewrite ?E, ?lookup_insert_eq, ?lookup_delete_eq; split; intros H; try done.
Qed.

Lemma foldl_own wall l t check firing o th :
  NoDup l.*1 -> (check, (firing, o, th)) ∈ l ->
  is_Some (tr_active (foldl (transition_step wall) t l) !! check) <-> firing = true.
Proof.
  revert t; induction l as [|x l IH]; intros t Hnd Hin; [by apply elem_of_nil in Hin|].
  rewrite fmap_cons, NoDup_cons in Hnd. destruct Hnd as [Hx Hnd]. cbn [foldl].
  apply elem_of_cons in Hin as [<-|Hin]; [|by apply IH].
  rewrite foldl_other by done. apply transition_step_own.
Qed.

Lemma evaluated_check wall e input check firing o th :
  conditions (update_probes e input) input !! check = Some (firing, o, th) ->
  is_Some (ae_active (evaluate wall e input).2 !! check) <-> firing = true.
Proof.
  intros Hc. apply (foldl_own _ _ _ _ _ o th); [apply NoDup_sorted_entries|].
  by apply elem_of_sorted_entries.
Qed.

Lemma evaluate_unchecked wall e input check :
  conditions (update_probes e input) input !! check = None ->
  ae_active (evaluate wall e input).2 !! check = ae_active e !! check.
Proof.
  intros Hc. cbn [evaluate snd ae_active]. rewrite foldl_other; [done|].
  intros ([k c] & -> & Hin%elem_of_sorted_entries)%list_elem_of_fmap. cbn in Hc. congruence.
Qed.

(** ** Names of checks *)

Lemma foldl_lookup_other {A B} (f : gmap string A -> B -> gmap string A) k l c :
  (forall c b, b ∈ l -> f c b !! k = c !! k) -> foldl f c l !! k = c !! k.
Proof.
  revert c; induction l as [|b l IH]; intros c Hf; [done|]. cbn [foldl].
  rewrite IH by (intros; apply Hf; by apply list_elem_of_further). apply Hf, list_elem_of_here.
Qed.

(** A check no worker, group or host condition uses. *)
Definition endpoint_check (check : string) : Prop :=
  (forall table group, check <> group_check table group) /\ (forall worker, check <> rss_check worker) /\
  check <> "disk_usage"%string /\ check <> "memory_available"%string.

(** A check that is not an endpoint's. *)
Definition not_endpoint_check (check : string) : Prop :=
  forall endpoint, check <> (endpoint +:+ "_5xx")%string /\ check <> (endpoint +:+ "_high_latency")%string.

Lemma groups_lookup check groups (c : gmap string condition) :
  (forall table group, check <> group_check table group) ->
  foldl (fun c '(table, groups) =>
      foldl (fun c '(group, g) => <[group_check table group := group_condition g]> c) c (sorted_entries groups))
    c groups !! check = c !! check.
Proof.
  intros Hne. apply foldl_lookup_other. intros c' [table gs] _. apply foldl_lookup_other.
  intros c'' [group g] _. by rewrite lookup_insert_ne.
Qed.

Lemma endpoints_lookup schema check entries (c : gmap string condition) :
  not_endpoint_check check -> foldl (insert_endpoint_conditions schema) c entries !! check = c !! check.
Proof.
  intros Hne. apply foldl_lookup_other. intros c' [endpoint w] _. unfold insert_endpoint_conditions.
  destruct (is_informational _ _); [done|]. destruct (Hne endpoint).
  by rewrite !lookup_insert_ne.
Qed.

Lemma conditions_probe e input check :
  endpoint_check check -> not_endpoint_check check ->
  conditions e input !! check =
  (<["ready"%string := ready_condition e input]> (<["scrape_failure"%string := scrape_condition e]> ∅)
    : gmap string condition) !! check.
Proof.
  intros (Hg & Hw & Hd & Hm) He. unfold conditions. cbv zeta.
  rewrite foldl_lookup_other by (intros c [w g] _; by rewrite lookup_insert_ne).
  rewrite groups_lookup by done. rewrite lookup_insert_ne, lookup_insert_ne by done.
  by apply endpoints_lookup.
Qed.

(** Strings that cannot be equal: a suffix fixes the end and the least length. *)
Lemma append_last s t : t <> ""%string -> last (string_bytes (s +:+ t)) = last (string_bytes t).
Proof.
  intros Ht. induction s as [|a s IH]; [done|].
  change (string_bytes (String a s +:+ t)) with (Z.of_N (Ascii.N_of_ascii a) :: string_bytes (s +:+ t)).
  rewrite last_cons, IH. by destruct (string_bytes t) as [|b l] eqn:E; [destruct t|rewrite last_cons; destruct (last l)].
Qed.

Lemma append_length_bytes s t : length (string_bytes (s +:+ t)) = (length (string_bytes s) + length (string_bytes t))%nat.
Proof.
  induction s as [|a s IH]; [done|].
  change (string_bytes (String a s +:+ t)) with (Z.of_N (Ascii.N_of_ascii a) :: string_bytes (s +:+ t)).
  cbn [length]. rewrite IH. done.
Qed.

Lemma scrape_not_endpoint : not_endpoint_check "scrape_failure".
Proof.
  intros endpoint; split; intros H; apply (f_equal (fun s => last (string_bytes s))) in H;
    rewrite append_last in H by done; discriminate.
Qed.

Lemma ready_not_endpoint : not_endpoint_check "ready".
Proof.
  intros endpoint; split; intros H.
  - apply (f_equal (fun s => last (string_bytes s))) in H. rewrite append_last in H by done. discriminate.
  - apply (f_equal (fun s => length (string_bytes s))) in H. rewrite append_length_bytes in H. cbn in H. lia.
Qed.

Lemma probe_checks : endpoint_check "scrape_failure" /\ endpoint_check "ready".
Proof. by split; split_and!. Qed.

Lemma evaluate_scrape_failure wall e input :
  is_Some (ae_active (evaluate wall e input).2 !! "scrape_failure"%string) <->
  SCRAPE_FAILURE_TICKS <= ae_scrape_failures (evaluate wall e input).2.
Proof.
  rewrite (evaluated_check wall e input "scrape_failure" _ _ _)
    by (rewrite conditions_probe by (apply probe_checks || apply scrape_not_endpoint); reflexivity).
  apply Z.leb_le.
Qed.

Lemma evaluate_ready wall e input :
  is_Some (ae_active (evaluate wall e input).2 !! "ready"%string) <->
  ai_ready_ok input = false /\
  READY_FAILURE_SECONDS * 1000000000 <= ready_failed_for (update_probes e input) input.
Proof.
  rewrite (evaluated_check wall e input "ready" _ _ _)
    by (rewrite conditions_probe by (apply probe_checks || apply ready_not_endpoint);
        rewrite lookup_insert_eq; reflexivity).
  rewrite andb_true_iff, negb_true_iff. by rewrite Z.leb_le.
Qed.

(** ** Runs of the scrape loop *)

(** What one tick observes. *)
Record Tick := {
  tk_wall : Z -> Z; tk_published_at : Z; tk_now : Z;
  tk_metrics : Fetched; tk_health : Fetched; tk_ready : Fetched; tk_host : HostHealth }.

Definition run_tick (schema : Schema) (t : Tick) (s : ScrapeState) :=
  scrape_tick schema (tk_wall t) (tk_published_at t) (tk_now t) (tk_metrics t) (tk_health t) (tk_ready t)
    (tk_host t) s.

(** The transitions of a run and the state it ends in. *)
Definition run_step (schema : Schema) (acc : list AlertTransition * ScrapeState) (t : Tick) :
    list AlertTransition * ScrapeState :=
  let '(out, _, s) := run_tick schema t acc.2 in (acc.1 ++ out, s).
Definition run_ticks (schema : Schema) (ticks : list Tick) : list AlertTransition * ScrapeState :=
  foldl (run_step schema) ([], ScrapeState_new schema) ticks.

Definition scrape_succeeds (schema : Schema) (t : Tick) : bool :=
  match tk_metrics t, tk_health t, tk_ready t with
  | Ok r, Ok _, Ok _ => is_ok (parse_prometheus schema (fr_body r) (tk_now t))
  | _, _, _ => false
  end.
Definition reports_ready (t : Tick) : bool :=
  match tk_ready t with Ok r => (200 <=? fr_status r) && (fr_status r <? 300) | Err _ => false end.

(** A tick evaluates the engine after it was given the newest snapshot. *)
Lemma run_tick_evaluates schema t s :
  exists e input, ae_active e = ae_active (ss_alerts s) /\ ae_recent e = ae_recent (ss_alerts s) /\
    ae_scrape_failures e = ae_scrape_failures (ss_alerts s) /\
    ae_ready_failed_since e = ae_ready_failed_since (ss_alerts s) /\
    ai_now input = tk_now t /\ ai_scrape_ok input = scrape_succeeds schema t /\
    ai_ready_ok input = reports_ready t /\
    (run_tick schema t s).1.1 = (evaluate (tk_wall t) e input).1 /\
    ss_alerts (run_tick schema t s).2 = (evaluate (tk_wall t) e input).2.
Proof.
  unfold run_tick, scrape_tick. destruct (scrape_metrics _ _ _ _ _ _) as [rolling err] eqn:Em.
  set (e := set_workers _ _). set (input := Build_AlertInput _ _ _ _ _).
  exists e, input. destruct (evaluate (tk_wall t) e input) as [out e'].
  split_and!; try done; cbn [input ai_scrape_ok ai_ready_ok].
  - unfold scrape_metrics, scrape_succeeds in *. destruct (tk_metrics t) as [r|]; [|done].
    destruct (parse_prometheus _ _ _) as [m|], (tk_health t), (tk_ready t); by injection Em as <- <-.
  - unfold reports_ready. by destruct (tk_ready t).
Qed.

Lemma run_ticks_snoc schema ticks t :
  run_ticks schema (ticks ++ [t]) = run_step schema (run_ticks schema ticks) t.
Proof. unfold run_ticks. by rewrite foldl_app. Qed.

Lemma transitions_of_app check l k :
  transitions_of check (l ++ k) = transitions_of check l ++ transitions_of check k.
Proof. apply filter_app. Qed.

Lemma run_ticks_tracked schema ticks :
  engine_ok (ss_alerts (run_ticks schema ticks).2) /\
  forall check, replay None (transitions_of check (run_ticks schema ticks).1) =
    Some (ae_active (ss_alerts (run_ticks schema ticks).2) !! check).
Proof.
  induction ticks as [|t ticks [IHe IH]] using rev_ind; [split; [split; [|cbn; lia]|]; done|].
  rewrite run_ticks_snoc. destruct (run_ticks schema ticks) as [out s]. cbn [fst snd] in *.
  destruct (run_tick_evaluates schema t s) as (e & input & Ea & Er & _ & _ & _ & _ & _ & Eo & Es).
  unfold run_step. cbn [snd fst]. destruct (run_tick schema t s) as [[o v] s']. cbn [fst snd] in *.
  destruct (evaluate (tk_wall t) e input) as [o' e'] eqn:Ev. cbn [fst snd] in *. subst o' e'.
  assert (engine_ok e) as He by (destruct IHe; split; by rewrite ?Ea, ?Er).
  destruct (evaluate_tracked _ _ _ _ _ He Ev) as [H1 H2]. split; [done|].
  intros check. rewrite transitions_of_app, replay_app, IH. cbn [mbind option_bind].
  rewrite <- Ea. apply H2.
Qed.

(** The ticks since which readiness has failed, newest first. *)
Fixpoint failing_since (ticks : list Tick) : option Z :=
  match ticks with
  | [] => None
  | t :: ticks => if reports_ready t then None else Some (default (tk_now t) (failing_since ticks))
  end.
Fixpoint failed_scrapes (schema : Schema) (ticks : list Tick) : Z :=
  match ticks with
  | [] => 0
  | t :: ticks => if scrape_succeeds schema t then 0 else Z.min (failed_scrapes schema ticks + 1) (2 ^ 32 - 1)
  end.

Lemma run_ticks_probes schema ticks :
  ae_scrape_failures (ss_alerts (run_ticks schema ticks).2) = failed_scrapes schema (reverse ticks) /\
  ae_ready_failed_since (ss_alerts (run_ticks schema ticks).2) = failing_since (reverse ticks).
Proof.
  induction ticks as [|t ticks [IH1 IH2]] using rev_ind; [done|].
  rewrite run_ticks_snoc, reverse_snoc. cbn [failed_scrapes failing_since]. rewrite <- IH1, <- IH2.
  unfold run_step. destruct (run_tick_evaluates schema t (run_ticks schema ticks).2)
    as (e & input & _ & _ & <- & <- & Hn & Hs & Hr & _ & Es).
  destruct (run_tick _ _ _) as [[o v] s']. cbn [fst snd] in *. rewrite Es. cbn [evaluate snd].
  by rewrite <- Hs, <- Hr, <- Hn.
Qed.

Lemma failed_scrapes_two schema ticks :
  SCRAPE_FAILURE_TICKS <= failed_scrapes schema ticks <->
  exists t2 t1 rest, ticks = t2 :: t1 :: rest /\ scrape_succeeds schema t1 = false /\
    scrape_succeeds schema t2 = false.
Proof.
  assert (Hpos : forall l, 0 <= failed_scrapes schema l).
  { induction l; cbn [failed_scrapes]; [lia|]. destruct (scrape_succeeds _ _); lia. }
  unfold SCRAPE_FAILURE_TICKS. split.
  - destruct ticks as [|t2 [|t1 rest]]; cbn [failed_scrapes]; [lia|destruct (scrape_succeeds schema t2); lia|].
    destruct (scrape_succeeds schema t2) eqn:E2; [lia|].
    destruct (scrape_succeeds schema t1) eqn:E1; [lia|]. intros _. by exists t2, t1, rest.
  - intros (t2 & t1 & rest & -> & E1 & E2). cbn [failed_scrapes]. rewrite E1, E2.
    pose proof (Hpos rest). lia.
Qed.

(** The run of failures that [failing_since] dates: every tick of it failed, the
    oldest gives the time, and no longer run of failures exists. *)
Lemma failing_since_run ticks since :
  failing_since ticks = Some since ->
  exists run t1 rest, ticks = run ++ t1 :: rest /\ tk_now t1 = since /\
    Forall (fun t => reports_ready t = false) (run ++ [t1]) /\
    (forall t rest', rest = t :: rest' -> reports_ready t = true).
Proof.
  revert since; induction ticks as [|t ticks IH]; intros since; [done|]. cbn [failing_since].
  destruct (reports_ready t) eqn:Et; [done|]. intros [= <-].
  destruct (failing_since ticks) as [since|] eqn:Ef.
  - destruct (IH since eq_refl) as (run & t1 & rest & -> & Hn & Hall & Hmax).
    exists (t :: run), t1, rest. split_and!; [done|done|by constructor|done].
  - exists [], t, ticks. split_and!; [done|done|by constructor; [|constructor]|].
    intros t' rest' ->. cbn [failing_since] in Ef. by destruct (reports_ready t').
Qed.

Lemma failing_since_some run t1 rest :
  Forall (fun t => reports_ready t = false) (run ++ [t1]) -> is_Some (failing_since (run ++ t1 :: rest)).
Proof.
  intros Hall. destruct run as [|t run]; cbn [app failing_since] in *;
    apply Forall_cons in Hall as [-> _]; by eexists.
Qed.

(** Times that never go back. *)
Definition clock_monotone (ticks : list Tick) : Prop :=
  forall i j ti tj, (i <= j)%nat -> ticks !! i = Some ti -> ticks !! j = Some tj -> tk_now ti <= tk_now tj.

(** In a monotone history the recorded start is not after any tick of the run of
    failures that ends the history. *)
Lemma failing_since_earliest ticks since l t1 l1 :
  clock_monotone ticks -> failing_since (reverse ticks) = Some since ->
  ticks = l ++ t1 :: l1 -> Forall (fun t => reports_ready t = false) (t1 :: l1) -> since <= tk_now t1.
Proof.
  intros Hm Hf Heq Hall. destruct (failing_since_run _ _ Hf) as (run & t0 & rest & Er & <- & Hr & Hmax).
  apply (f_equal reverse) in Er. rewrite reverse_involutive, reverse_app, reverse_cons in Er.
  rewrite <- (assoc (++)) in Er. cbn [app] in Er.
  apply (Hm (length (reverse rest)) (length l)).
  - destruct (decide (length (reverse rest) <= length l)%nat) as [|Hgt]; [done|exfalso].
    rewrite Heq in Er.
    destruct (app_eq_inv _ _ _ _ Er) as [(k & El & Ek)|(k & El & Ek)].
    + subst l. rewrite length_app in Hgt. lia.
    + destruct k as [|x k]; [rewrite app_nil_r in El; rewrite El in Hgt; lia|].
      cbn [app] in Ek. injection Ek as <- Ek.
      destruct (last (t1 :: k)) as [y|] eqn:Ey; [|by apply last_None in Ey].
      assert (Hy : reports_ready y = false).
      { apply (Forall_forall (fun t => reports_ready t = false) (t1 :: l1)); [done|].
        rewrite Ek. rewrite app_comm_cons. apply elem_of_app. left. by apply last_Some_elem_of. }
      apply (f_equal reverse) in El. rewrite reverse_involutive, reverse_app in El.
      apply last_Some in Ey as [k' Ek']. rewrite Ek', reverse_snoc in El.
      rewrite (Hmax y _ El) in Hy. done.
  - rewrite Er. by rewrite lookup_app_r, Nat.sub_diag by lia.
  - rewrite Heq. by rewrite lookup_app_r, Nat.sub_diag by lia.
Qed.

(** After a run the two probe alerts are what the probes' counters say. *)
Lemma run_ticks_scrape schema ticks :
  is_Some (ae_active (ss_alerts (run_ticks schema ticks).2) !! "scrape_failure"%string) <->
  SCRAPE_FAILURE_TICKS <= failed_scrapes schema (reverse ticks).
Proof.
  rewrite <- (proj1 (run_ticks_probes schema ticks)).
  destruct ticks as [|t ticks _] using rev_ind.
  { split; [by intros []|]. cbn. unfold SCRAPE_FAILURE_TICKS. lia. }
  rewrite run_ticks_snoc. unfold run_step.
  destruct (run_tick_evaluates schema t (run_ticks schema ticks).2)
    as (e & input & _ & _ & _ & _ & _ & _ & _ & _ & Es).
  destruct (run_tick _ _ _) as [[o v] s']. cbn [fst snd] in *. rewrite Es. apply evaluate_scrape_failure.
Qed.

Lemma run_ticks_ready schema ticks t :
  is_Some (ae_active (ss_alerts (run_ticks schema (ticks ++ [t])).2) !! "ready"%string) <->
  exists since, failing_since (reverse (ticks ++ [t])) = Some since /\
    READY_FAILURE_SECONDS * 1000000000 <= tk_now t - since.
Proof.
  destruct (run_ticks_probes schema (ticks ++ [t])) as [_ Hp]. rewrite <- Hp.
  rewrite run_ticks_snoc. unfold run_step.
  destruct (run_tick_evaluates schema t (run_ticks schema ticks).2)
    as (e & input & _ & _ & _ & _ & Hn & _ & _ & _ & Es).
  destruct (run_tick _ _ _) as [[o v] s']. cbn [fst snd] in *. rewrite Es, evaluate_ready.
  cbn [evaluate snd ae_ready_failed_since]. unfold ready_failed_for, duration_since, READY_FAILURE_SECONDS.
  cbn [update_probes ae_ready_failed_since]. rewrite Hn.
  destruct (ai_ready_ok input); [split; [by intros []|by intros (? & ? & ?)]|].
  split; [intros [_ H]; eexists; split; [done|lia]|intros (since & [= <-] & H); split; [done|lia]].
Qed.

(** ** What a scrape target can make the sidecar keep *)

Lemma pop_front_above_le {A} limit (l : list A) : 0 <= limit -> zlen (pop_front_above limit l) <= limit.
Proof.
  intros Hl. induction l as [|x l IH]; [done|]. cbn [pop_front_above].
  destruct (limit <? _) eqn:E; [done|]. by bool_prop.
Qed.

Lemma pop_front_above_Forall {A} (P : A -> Prop) limit l : Forall P l -> Forall P (pop_front_above limit l).
Proof.
  induction 1 as [|x l Hx Hl IH]; [constructor|]. cbn [pop_front_above].
  destruct (_ <? _); [done|by constructor].
Qed.

(** The rolling window: the schema is the configured one, at most 21 snapshots, each
    within the caps. *)
Definition rolling_ok (schema : Schema) (r : RollingMetrics) : Prop :=
  rm_schema r = schema /\ zlen (rm_snapshots r) <= MAX_SNAPSHOTS /\
  Forall (snapshot_ok schema) (rm_snapshots r).

Lemma scrape_metrics_ok schema r now m h rd :
  rolling_ok schema r -> rolling_ok schema (scrape_metrics schema r now m h rd).1.
Proof.
  intros (H1 & H2 & H3). unfold scrape_metrics. destruct m as [resp|]; [|done].
  destruct (parse_prometheus schema (fr_body resp) now) as [snap|] eqn:E; [|done].
  apply parse_prometheus_ok in E as [Hs _]. split_and!; cbn [fst rm_snapshots RollingMetrics_push]; [done| |].
  - by apply pop_front_above_le.
  - apply pop_front_above_Forall, Forall_app. split; [done|by constructor; [|constructor]].
Qed.

Lemma run_ticks_rolling schema ticks : rolling_ok schema (ss_rolling (run_ticks schema ticks).2).
Proof.
  induction ticks as [|t ticks IH] using rev_ind.
  { split_and!; [done| |constructor]. cbn. unfold MAX_SNAPSHOTS. rewrite zlen_nil. lia. }
  rewrite run_ticks_snoc. unfold run_step, run_tick, scrape_tick.
  pose proof (scrape_metrics_ok schema _ (tk_now t) (tk_metrics t) (tk_health t) (tk_ready t) IH) as H.
  destruct (scrape_metrics _ _ _ _ _ _) as [r err]. cbn [fst] in H.
  destruct (evaluate _ _ _) as [out e]. done.
Qed.

Lemma windows_size schema r :
  rolling_ok schema r -> (size (windows r) <= Nat.max 32 (length (sc_endpoints schema)))%nat.
Proof.
  intros (Hs & _ & Hall). unfold windows. destruct (last (rm_snapshots r)) as [newest|] eqn:El.
  2: { rewrite map_size_empty. lia. }
  apply last_Some_elem_of in El. rewrite Forall_forall in Hall. destruct (Hall _ El) as [(H1 & H2 & _) _].
  etrans; [|exact H1]. rewrite <- !size_dom. apply subseteq_size. intros name.
  rewrite !elem_of_dom, foldl_insert_lookup, lookup_empty.
  case_bool_decide as Hin; [|by intros []]. intros _. apply elem_of_app in Hin as [Hin|Hin].
  - apply H2. congruence.
  - apply list_elem_of_filter in Hin as [_ Hin]. apply list_elem_of_fmap in Hin as ([k x] & -> & Hin).
    apply elem_of_sorted_entries in Hin. by exists x.
Qed.

(** Over any run of the scrape loop, whatever the scraped process answers, the
    transitions of each check form episodes: a firing when no alert of the check is
    open, then the recovery of that very alert, and so on; an alert is active at the
    end exactly when its check's last transition fired it.  So operators get one
    message per episode and one per recovery. *)
Theorem alert_episodes schema ticks :
  let '(transitions, s) := run_ticks schema ticks in
  forall check, replay None (transitions_of check transitions) = Some (ae_active (ss_alerts s) !! check).
Proof.
  destruct (run_ticks_tracked schema ticks) as [_ Ht].
  by destruct (run_ticks schema ticks) as [transitions s].
Qed.

(** Whatever the scraped process answers, over any run the sidecar keeps at most
    21 snapshots and twenty messages; every snapshot holds all configured endpoints,
    only endpoints that are configured or have a well-formed label of at most 40
    bytes, at most 32 of them unless more are configured, and at most 64 replicas,
    each in a named group; and the endpoints shown and judged are no more than that. *)
Theorem scrape_state_bounded schema ticks :
  let s := (run_ticks schema ticks).2 in
  zlen (rm_snapshots (ss_rolling s)) <= MAX_SNAPSHOTS /\
  Forall (snapshot_ok schema) (rm_snapshots (ss_rolling s)) /\
  (size (windows (ss_rolling s)) <= Nat.max 32 (length (sc_endpoints schema)))%nat /\
  (length (recent (ss_alerts s)) <= 20)%nat.
Proof.
  destruct (run_ticks_rolling schema ticks) as (H1 & H2 & H3).
  split_and!; [done..| |apply run_ticks_tracked]. apply windows_size. by split_and!.
Qed.

(** C36: on a clock that does not go back, the scrape alert is active after a run
    exactly when the last two scrapes failed, and the readiness alert exactly when
    the probe has not answered 2xx on any tick of a run of ticks that ends the
    history and spans at least five minutes.  No condition of an endpoint, worker or
    group can displace them. *)
Theorem probe_alerts_exact schema ticks :
  clock_monotone ticks ->
  let active := ae_active (ss_alerts (run_ticks schema ticks).2) in
  (is_Some (active !! "scrape_failure"%string) <->
   exists l t1 t2, ticks = l ++ [t1; t2] /\
     scrape_succeeds schema t1 = false /\ scrape_succeeds schema t2 = false) /\
  (is_Some (active !! "ready"%string) <->
   exists l t1 l1 t2, ticks = l ++ t1 :: l1 /\ last (t1 :: l1) = Some t2 /\
     Forall (fun t => reports_ready t = false) (t1 :: l1) /\
     READY_FAILURE_SECONDS * 1000000000 <= tk_now t2 - tk_now t1).
Proof.
  intros Hm active. split; unfold active.
  - rewrite run_ticks_scrape, failed_scrapes_two. split.
    + intros (t2 & t1 & rest & E & H1 & H2). exists (reverse rest), t1, t2. split; [|done].
      apply (f_equal reverse) in E. rewrite reverse_involutive, !reverse_cons in E.
      by rewrite <- (assoc (++)) in E.
    + intros (l & t1 & t2 & -> & H1 & H2). exists t2, t1, (reverse l). by rewrite reverse_app.
  - destruct ticks as [|t ticks _] using rev_ind.
    { split; [by intros []|]. intros (l & t1 & l1 & t2 & H & _). by destruct l. }
    rewrite run_ticks_ready. split.
    + intros (since & Hf & Hd). destruct (failing_since_run _ _ Hf) as (run & t1 & rest & E & <- & Hall & _).
      apply (f_equal reverse) in E. rewrite reverse_involutive, reverse_app, reverse_cons, <- (assoc (++)) in E.
      exists (reverse rest), t1, (reverse run), t. split_and!; [done| |by apply Forall_reverse in Hall; rewrite reverse_snoc in Hall|done].
      apply (f_equal last) in E. rewrite last_snoc in E. cbn [app] in E. rewrite last_app in E.
      destruct (last (t1 :: reverse run)) as [y|] eqn:Ey; [congruence|by apply last_None in Ey].
    + intros (l & t1 & l1 & t2 & E & Hl & Hall & Hd).
      assert (t2 = t) as ->.
      { apply (f_equal last) in E. rewrite last_snoc, last_app, Hl in E. congruence. }
      destruct (failing_since_some (reverse l1) t1 (reverse l)) as [since Hf].
      { rewrite <- reverse_cons. by apply Forall_reverse. }
      assert (Hf' : failing_since (reverse (ticks ++ [t])) = Some since).
      { rewrite E, reverse_app, reverse_cons, <- (assoc (++)). done. }
      exists since. split; [done|].
      pose proof (failing_since_earliest _ _ _ _ _ Hm Hf' E Hall). lia.
Qed.

Lemma rss_check_inj w w' : rss_check w = rss_check w' -> w = w'.
Proof. unfold rss_check. intros H. by injection H. Qed.

(** A worker the engine was not told about has no condition. *)
Lemma conditions_no_worker e input w :
  not_endpoint_check (rss_check w) -> ae_workers e !! w = None -> conditions e input !! rss_check w = None.
Proof.
  intros He Hw. unfold conditions. cbv zeta.
  rewrite foldl_lookup_other.
  2: { intros c [w' g] Hin%elem_of_sorted_entries. rewrite lookup_insert_ne; [done|].
       intros ->%rss_check_inj. congruence. }
  rewrite groups_lookup by done. rewrite !lookup_insert_ne by done.
  rewrite endpoints_lookup by done. by rewrite !lookup_insert_ne.
Qed.

Lemma last_pop_front_above {A} limit (l : list A) x :
  0 <= limit -> last (pop_front_above limit (l ++ [x])) = if limit =? 0 then None else Some x.
Proof.
  intros Hl. induction l as [|y l IH]; cbn [app pop_front_above].
  - rewrite zlen_cons, zlen_nil. destruct (decide (limit = 0)) as [->|]; guards; done.
  - destruct (limit <? _) eqn:E; [apply IH|]. bool_prop. rewrite zlen_cons, zlen_app in E.
    pose proof (zlen_nonneg l). pose proof (zlen_nonneg [x]). rewrite zlen_cons, zlen_nil in E.
    guards. rewrite app_comm_cons. apply last_snoc.
Qed.

Lemma latest_push rolling m : latest (RollingMetrics_push rolling m) = Some m.
Proof. unfold latest. cbn [RollingMetrics_push rm_snapshots]. by rewrite last_pop_front_above. Qed.

(** A tick that reads an exposition without the worker leaves its alert alone. *)
Lemma run_tick_no_worker schema t s r m w :
  tk_metrics t = Ok r -> parse_prometheus schema (fr_body r) (tk_now t) = Ok m -> ms_workers m !! w = None ->
  not_endpoint_check (rss_check w) ->
  ae_active (ss_alerts (run_tick schema t s).2) !! rss_check w = ae_active (ss_alerts s) !! rss_check w.
Proof.
  intros Et Ep Hw He. unfold run_tick, scrape_tick, scrape_metrics. rewrite Et, Ep.
  set (err := match tk_health t with Ok _ => _ | Err _ => _ end). rewrite latest_push.
  set (e := set_workers _ _). set (input := Build_AlertInput _ _ _ _ _).
  pose proof (evaluate_unchecked (tk_wall t) e input (rss_check w)) as Hu.
  destruct (evaluate (tk_wall t) e input) as [out e']. cbn [snd ss_alerts] in *.
  rewrite Hu; [done|]. by apply conditions_no_worker.
Qed.

(** The exposition a tick reads is well-formed and names no worker [w]. *)
Definition reads_without (schema : Schema) (w : string) (t : Tick) : Prop :=
  exists r m, tk_metrics t = Ok r /\ parse_prometheus schema (fr_body r) (tk_now t) = Ok m /\
    ms_workers m !! w = None.

(** Once a memory alert of a worker is active and the worker leaves the
    exposition, no number of successful scrapes ends the alert: conditions are
    evaluated only for workers that are present, and an alert without a condition is
    never closed. *)
Theorem vanished_worker_alert_sticks schema ticks later w a :
  ae_active (ss_alerts (run_ticks schema ticks).2) !! rss_check w = Some a ->
  not_endpoint_check (rss_check w) -> Forall (reads_without schema w) later ->
  ae_active (ss_alerts (run_ticks schema (ticks ++ later)).2) !! rss_check w = Some a.
Proof.
  intros Ha He Hl. unfold run_ticks in *. rewrite foldl_app.
  generalize dependent (foldl (run_step schema) ([], ScrapeState_new schema) ticks).
  induction Hl as [|t later (r & m & Et & Ep & Hw) _ IH]; intros acc Ha; [done|]. cbn [foldl].
  apply IH. unfold run_step. pose proof (run_tick_no_worker schema t acc.2 r m w Et Ep Hw He) as E.
  destruct (run_tick schema t acc.2) as [[o v] s']. cbn [snd] in *. congruence.
Qed.

(** ** Witnesses *)

Definition quiet_host : HostHealth :=
  {| hh_load_one := fzero; hh_load_five := fzero; hh_load_fifteen := fzero;
     hh_total_memory_bytes := 2 ^ 33; hh_available_memory_bytes := 2 ^ 32;
     hh_disk_total_bytes := 100; hh_disk_available_bytes := 50;
     hh_disk_used_ratio := f64_decimal 5 1; hh_data_dir := "/data" |}.
Definition sample_tick (seconds : Z) (metrics : Fetched) (ready : Z) : Tick :=
  {| tk_wall := fun k => seconds + k; tk_published_at := seconds; tk_now := seconds * 1000000000;
     tk_metrics := metrics; tk_health := Ok {| fr_status := 200; fr_body := [] |};
     tk_ready := Ok {| fr_status := ready; fr_body := [] |}; tk_host := quiet_host |}.

(** A scrape fails twice while the service stays unready for five minutes. *)
Definition failing_ticks : list Tick :=
  [sample_tick 0 (Ok {| fr_status := 200; fr_body := [] |}) 503;
   sample_tick 200 (Err "/metrics returned HTTP 500"%string) 503;
   sample_tick 300 (Err "/metrics returned HTTP 500"%string) 503].

Lemma probe_alerts_exact_witness :
  is_Some (ae_active (ss_alerts (run_ticks sample_schema failing_ticks).2) !! "scrape_failure"%string) /\
  is_Some (ae_active (ss_alerts (run_ticks sample_schema failing_ticks).2) !! "ready"%string).
Proof.
  destruct (probe_alerts_exact sample_schema failing_ticks) as [Hs Hr].
  { intros i j ti tj Hij Hi Hj.
    destruct i as [|[|[|i]]], j as [|[|[|j]]]; try lia; cbn in Hi, Hj; simplify_eq; cbn; lia. }
  split.
  - apply Hs. exists [sample_tick 0 (Ok {| fr_status := 200; fr_body := [] |}) 503]. eexists _, _.
    split; [reflexivity|split; reflexivity].
  - apply Hr. exists []. eexists _, _, _. split; [reflexivity|]. split; [reflexivity|].
    split; [repeat constructor|]. vm_compute. discriminate.
Defined.

(** A worker over its memory limit, and an exposition without it. *)
Definition quote : string := bytes_string [34].
Definition heavy_worker : list Z :=
  string_bytes ("enhance_worker_process_rss_bytes{worker=" +:+ quote +:+ "worker-1" +:+ quote +:+ "} 3e9").

Lemma vanished_worker_alert_sticks_witness :
  is_Some (ae_active (ss_alerts (run_ticks sample_schema
    ([sample_tick 0 (Ok {| fr_status := 200; fr_body := heavy_worker |}) 200] ++
     [sample_tick 15 (Ok {| fr_status := 200; fr_body := [] |}) 200;
      sample_tick 30 (Ok {| fr_status := 200; fr_body := [] |}) 200])).2) !! rss_check "worker-1").
Proof.
  eexists. apply vanished_worker_alert_sticks.
  - vm_compute. reflexivity.
  - intros endpoint; split; intros H; apply (f_equal (fun s => last (string_bytes s))) in H;
      rewrite append_last in H by done; discriminate.
  - repeat constructor; eexists _, _; (split; [reflexivity|split; [vm_compute; reflexivity|reflexivity]]).
Defined.
