(* ===== verification/SnapshotDir.v ===== *)
(** * The files of a snapshot

    Models what [save_snapshot] and [load_snapshot] do with files in
    [demos/legacy-spendability/witness/witness-server/src/snapshot_io.rs] and in
    [nullifier/spend-server/src/snapshot_io.rs], which are the same code over two
    databases: create a temporary file, write it, sync it, rename it over the final
    one.  The directory itself is never synced, so after a crash an earlier entry of
    the final name may come back; bytes written since the last sync of a file may be
    lost or garbled.  The lemma: whatever happens during a save, the final file is
    afterwards one of the complete files it was before, or the complete new one. *)

From Stdlib Require Import ZArith Lia.
From stdpp Require Import base numbers list strings.
From S2P Require Import Prelude.

Open Scope Z_scope.

Record SnapshotFile := { sf_bytes : list Z; sf_synced : bool }.

(** The two entries, and the earlier files of the final name that a crash may bring
    back because a rename is not yet durable. *)
Record SnapshotDir := {
  sd_final : option SnapshotFile;
  sd_tmp : option SnapshotFile;
  sd_replaced : list (option SnapshotFile) }.

Definition SnapshotDir_empty : SnapshotDir := {| sd_final := None; sd_tmp := None; sd_replaced := [] |}.

Inductive save_op :=
| CreateTmp
| WriteAll (data : list Z)
| SyncAll
| RenameTmp.

Definition run_save_op (d : SnapshotDir) (op : save_op) : SnapshotDir :=
  let with_tmp tmp := {| sd_final := sd_final d; sd_tmp := tmp; sd_replaced := sd_replaced d |} in
  match op with
  | CreateTmp => with_tmp (Some {| sf_bytes := []; sf_synced := false |})
  | WriteAll data =>
      with_tmp ((fun f => {| sf_bytes := sf_bytes f ++ data; sf_synced := false |}) <$> sd_tmp d)
  | SyncAll => with_tmp ((fun f => {| sf_bytes := sf_bytes f; sf_synced := true |}) <$> sd_tmp d)
  | RenameTmp =>
      match sd_tmp d with
      | None => d
      | Some f => {| sd_final := Some f; sd_tmp := None; sd_replaced := sd_final d :: sd_replaced d |}
      end
  end.

(** [save_snapshot]: temporary file, sync, rename. *)
Definition save_ops (data : list Z) : list save_op := [CreateTmp; WriteAll data; SyncAll; RenameTmp].
Definition save_file (d : SnapshotDir) (data : list Z) : SnapshotDir := foldl run_save_op d (save_ops data).

(** [tokio::fs::read] of the final file. *)
Definition read_final (d : SnapshotDir) : result string (list Z) :=
  ok_or (sf_bytes <$> sd_final d) "No such file or directory"%string.

(** ** Errors and crashes *)

(** The files the final name may stand for after a crash. *)
Definition versions (d : SnapshotDir) : list (option SnapshotFile) := sd_final d :: sd_replaced d.

(** A synced file comes back as it was, an unsynced one as anything. *)
Definition survives (f f' : option SnapshotFile) : Prop :=
  match f with
  | None => f' = None
  | Some f => sf_synced f = true -> f' = Some f
  end.

Definition comes_back (d d' : SnapshotDir) : Prop := Exists (fun f => survives f (sd_final d')) (versions d).

(** A save interrupted by an error or a crash after [n] whole operations; a write
    may have been cut anywhere. *)
Inductive interrupted (d : SnapshotDir) (data : list Z) : SnapshotDir -> Prop :=
| interrupted_between n d' :
    comes_back (foldl run_save_op d (take n (save_ops data))) d' -> interrupted d data d'
| interrupted_write k d' :
    comes_back (foldl run_save_op d [CreateTmp; WriteAll (take k data)]) d' -> interrupted d data d'.

(** Every version of the final file is synced. *)
Definition settled (d : SnapshotDir) : Prop :=
  Forall (fun f => forall file, f = Some file -> sf_synced file = true) (versions d).

Lemma settled_empty : settled SnapshotDir_empty.
Proof. repeat constructor. by intros ? [=]. Qed.

Lemma settled_comes_back d d' : settled d -> comes_back d d' -> sd_final d' ∈ versions d.
Proof.
  unfold settled, comes_back. rewrite Forall_forall, Exists_exists. intros Hs (f & Hf & Hv).
  destruct f as [file|]; cbn [survives] in Hv; [rewrite Hv by by eapply Hs|rewrite Hv]; done.
Qed.

Lemma read_saved d data : read_final (save_file d data) = Ok data.
Proof. done. Qed.

Lemma settled_save d data : settled d -> settled (save_file d data).
Proof. intros Hs. unfold settled, versions. constructor; [by intros f [= <-]|exact Hs]. Qed.

(** An interrupted save leaves a complete file: one there was, or the new one. *)
Lemma interrupted_final d data d' :
  settled d -> interrupted d data d' ->
  sd_final d' ∈ versions d \/ sd_final d' = Some {| sf_bytes := data; sf_synced := true |}.
Proof.
  intros Hs [n d1 Hc|k d1 Hc]; [|left; exact (settled_comes_back d d1 Hs Hc)].
  assert (Hn : (n <= 3)%nat \/ (4 <= n)%nat) by lia. destruct Hn as [Hn|Hn].
  - left. apply (settled_comes_back d d1 Hs). by destruct n as [|[|[|[|n]]]]; try lia.
  - rewrite take_ge in Hc by exact Hn. fold (save_file d data) in Hc.
    apply settled_comes_back in Hc; [|by apply settled_save].
    apply elem_of_cons in Hc as [->|Hc]; [by right|by left].
Qed.

(** What is read after an interrupted save. *)
Lemma interrupted_read d data d' :
  settled d -> interrupted d data d' ->
  read_final d' = Ok data \/
  exists f, f ∈ versions d /\ read_final d' = ok_or (sf_bytes <$> f) "No such file or directory"%string.
Proof.
  intros Hs [Hv|Hv]%interrupted_final; [right; by eexists|left; unfold read_final; by rewrite Hv|done].
Qed.
