(* ===== verification/TreeSnapshot.v ===== *)
(** * Snapshots of the commitment tree

    Models [demos/legacy-spendability/witness/commitment-tree-db/src/snapshot.rs]
    ([to_snapshot], [from_snapshot] with its magics and truncation errors) and
    [witness/witness-server/src/snapshot_io.rs] ([save_snapshot], [load_snapshot], on
    the files of [SnapshotDir]).  [xxh64] belongs to the [xxhash_rust] crate and is the class
    [XxHash64].  A snapshot is read with a cursor; arithmetic wraps, and where the
    code would index out of range or ask for more than [isize::MAX] bytes it
    panics, which is an error value of its own here.  The theorems: a snapshot of
    a tree restores that tree, caches included; and a crash or error at any point
    of saving leaves a file that loads as a tree saved before or the new one. *)

From Stdlib Require Import ZArith Lia.
From stdpp Require Import base numbers list strings.
From S2P Require Import Prelude Cursor CommitmentTree SnapshotDir.

Class XxHash64 := xxh64 : list Z -> Z.
Class XxHash64Laws `{XxHash64} := xxh64_u64 data : u64 (xxh64 data).

Definition SNAPSHOT_MAGIC_V1 : Z := 0x434D545245450001.
Definition SNAPSHOT_MAGIC_V2 : Z := 0x434D545245450002.
Definition SNAPSHOT_MAGIC_V3 : Z := 0x434D545245450003.
Definition SNAPSHOT_MAGIC_V4 : Z := 0x434D545245450004.
Definition BLOCK_RECORD_SIZE : Z := 8 + 32 + 4.

(** [TreeError] of the crate, and a panic. *)
Inductive TreeError :=
| ShardOutOfRange (shard_idx populated : Z)
| SnapshotCorrupted (reason : string)
| Panicked.

Section snapshot.
Context `{MerkleHash} `{XxHash64}.

(** ** Writing *)

Definition block_record_bytes (b : BlockRecord) : list Z :=
  le_bytes 8 (br_height b) ++ br_hash b ++ le_bytes 4 (br_num_commitments b).

(** [iter().enumerate().filter_map(..)] over the cache. *)
Fixpoint cached_from (i : Z) (cache : list (option Hash)) : list (Z * Hash) :=
  match cache with
  | [] => []
  | Some root :: cache => (wrap32 i, root) :: cached_from (i + 1) cache
  | None :: cache => cached_from (i + 1) cache
  end.
Definition cached_entries (t : CommitmentTreeDb) : list (Z * Hash) := cached_from 0 (ct_ss_root_cache t).
Definition cached_entry_bytes (e : Z * Hash) : list Z := le_bytes 4 (fst e) ++ snd e.

Definition snapshot_payload (t : CommitmentTreeDb) : list Z :=
  le_bytes 8 SNAPSHOT_MAGIC_V4 ++ le_bytes 8 (tree_size t) ++ le_bytes 8 (zlen (ct_blocks t)) ++
  le_bytes 8 (default 0 (latest_height t)) ++ default (replicate 32 0) (latest_block_hash t) ++
  le_bytes 8 (ct_leaf_offset t) ++ le_bytes 8 (zlen (ct_prefetched_shard_roots t)) ++
  concat (ct_prefetched_shard_roots t) ++ concat (block_record_bytes <$> ct_blocks t) ++
  concat (ct_leaves t) ++ le_bytes 8 (zlen (cached_entries t)) ++
  concat (cached_entry_bytes <$> cached_entries t).

Definition to_snapshot (t : CommitmentTreeDb) : list Z :=
  let buf := snapshot_payload t in buf ++ le_bytes 8 (xxh64 buf).

(** ** Reading *)

Definition read_u64 : parser TreeError Z :=
  cursor_le (SnapshotCorrupted "unexpected EOF reading u64") (SnapshotCorrupted "unexpected EOF reading u64") 8.
Definition read_hash (e : TreeError) : parser TreeError Hash := cursor_take e e 32.
(** An unchecked slice of the payload. *)
Definition index_le (n : nat) : parser TreeError Z := cursor_le Panicked Panicked n.

(** [Vec::with_capacity]: more than [isize::MAX] bytes panics. *)
Definition reserve (count size : Z) : parser TreeError unit :=
  if 2 ^ 63 - 1 <? count * size then pfail Panicked else pret tt.

Definition read_block_record : parser TreeError BlockRecord :=
  let! height := index_le 8 in
  let! hash := read_hash Panicked in
  let! num_commitments := index_le 4 in
  pret {| br_height := height; br_hash := hash; br_num_commitments := num_commitments |}.

(** [count * size] bytes from here, the sum wrapping, must be there. *)
Definition check_end (count size : Z) (e : TreeError) : parser TreeError unit := fun c =>
  if zlen (cur_bytes c) <? wrap64 (cur_offset c + wrap64 (count * size)) then Err e else Ok (tt, c).

Definition read_block_records (count : Z) : parser TreeError (list BlockRecord * Z) :=
  let! _ := check_end count BLOCK_RECORD_SIZE (SnapshotCorrupted "block records truncated") in
  let! _ := reserve count 48 in
  let! blocks := prepeat (Z.to_nat count) read_block_record in
  pret (blocks, foldl (fun total b => wrap64 (total + br_num_commitments b)) 0 blocks).

Definition read_leaves (count : Z) : parser TreeError (list Hash) :=
  let! _ := check_end count 32 (SnapshotCorrupted "leaf data truncated") in
  let! _ := reserve count 32 in
  prepeat (Z.to_nat count) (read_hash Panicked).

Definition read_cached_entry : parser TreeError (Z * Hash) :=
  let! entry := cursor_take (SnapshotCorrupted "cache entry truncated")
                  (SnapshotCorrupted "cache entry truncated") 36 in
  pret (le_val (take 4 entry), drop 4 entry).

Definition set_cached (cache : list (option Hash)) (e : Z * Hash) : list (option Hash) :=
  if fst e <? L0_DB_ROWS then <[Z.to_nat (fst e) := Some (snd e)]> cache else cache.

Definition from_snapshot_v3 : parser TreeError CommitmentTreeDb :=
  let! tree_size := read_u64 in
  let! block_count := read_u64 in
  let! _ := read_u64 in
  let! _ := read_hash (SnapshotCorrupted "unexpected EOF reading latest_hash") in
  let! leaf_offset := read_u64 in
  let! prefetched_count := read_u64 in
  let! _ := reserve prefetched_count 32 in
  let! prefetched_shard_roots :=
    prepeat (Z.to_nat prefetched_count) (read_hash (SnapshotCorrupted "prefetched roots truncated")) in
  let! (blocks, total_commitments) := read_block_records block_count in
  let local_leaves := wrap64 (tree_size - leaf_offset) in
  if negb (total_commitments =? local_leaves)
  then pfail (SnapshotCorrupted "block records sum to {} but expected {} local leaves") else
  let! leaves := read_leaves local_leaves in
  let! cached_count := read_u64 in
  let! cached := prepeat (Z.to_nat cached_count) read_cached_entry in
  let tree := CommitmentTreeDb_with_offset leaf_offset prefetched_shard_roots in
  pret {| ct_leaves := leaves; ct_blocks := blocks; ct_empty_roots := ct_empty_roots tree;
          ct_leaf_offset := ct_leaf_offset tree;
          ct_prefetched_shard_roots := ct_prefetched_shard_roots tree;
          ct_ss_root_cache := foldl set_cached (replicate (Z.to_nat L0_DB_ROWS) None) cached |}.

(** The checksum of the last eight bytes over the rest. *)
Definition split_checksum (data : list Z) : list Z * Z :=
  let payload := take (length data - 8) data in
  (payload, le_val (drop (length data - 8) data)).

Definition from_snapshot (data : list Z) : result TreeError CommitmentTreeDb :=
  if zlen data <? 8 + 8 then Err (SnapshotCorrupted "data too short") else
  let '(payload, stored_checksum) := split_checksum data in
  if negb (stored_checksum =? xxh64 payload) then Err (SnapshotCorrupted "checksum mismatch") else
  let? (magic, c) := read_u64 (Cursor payload 0) in
  if magic =? SNAPSHOT_MAGIC_V4 then let? (t, _) := from_snapshot_v3 c in Ok t
  else if (magic =? SNAPSHOT_MAGIC_V1) || (magic =? SNAPSHOT_MAGIC_V2) || (magic =? SNAPSHOT_MAGIC_V3)
  then Err (SnapshotCorrupted "snapshot magic {magic:#018x} is an Orchard-era commitment tree; Ironwood requires a rebuild from NU6.3 activation (delete the snapshot and resync)")
  else Err (SnapshotCorrupted "bad magic: {magic:#018x}").

End snapshot.

(** ** Files *)

Inductive SnapshotIoError :=
| SE_Io (e : string)
| SE_Decode (e : TreeError).

Definition load_snapshot `{MerkleHash} `{XxHash64} (d : SnapshotDir) : result SnapshotIoError CommitmentTreeDb :=
  let? data := map_err SE_Io (read_final d) in
  map_err SE_Decode (from_snapshot data).

(** What a version of the final file loads as. *)
Definition load_version `{MerkleHash} `{XxHash64} (f : option SnapshotFile) :
    result SnapshotIoError CommitmentTreeDb :=
  load_snapshot {| sd_final := f; sd_tmp := None; sd_replaced := [] |}.

(** ** A snapshot restores the tree *)

Section roundtrip.
Context `{MerkleHashLaws} `{XxHash64Laws}.

Lemma reads_check_end {A} count size e (p : parser TreeError A) bs v :
  0 <= count * size <= zlen bs -> reads p bs v -> reads (pbind (check_end count size e) (fun _ => p)) bs v.
Proof.
  intros Hb Hp pre rest Hf. specialize (Hp pre rest Hf). unfold pbind, check_end.
  unfold fits in Hf. rewrite zlen_app in Hf. pose proof (zlen_nonneg rest). pose proof (zlen_nonneg pre).
  cbn [at_ cur_bytes cur_offset]. rewrite (wrap64_small (count * size)), wrap64_small by lia.
  rewrite !zlen_app. guards. exact Hp.
Qed.

Lemma reads_reserve {A} count size (p : parser TreeError A) bs v :
  count * size < 2 ^ 63 -> reads p bs v -> reads (pbind (reserve count size) (fun _ => p)) bs v.
Proof. intros Hc Hp pre rest Hf. unfold pbind, reserve. guards. by apply Hp. Qed.

Lemma reads_u64 z : 0 <= z < u64_bound -> reads read_u64 (le_bytes 8 z) z.
Proof. intros Hz. by apply reads_le. Qed.

Lemma reads_hash e (h : Hash) : zlen h = 32 -> reads (read_hash e) h h.
Proof. apply reads_take. Qed.

Definition record_wf (b : BlockRecord) : Prop :=
  u64 (br_height b) /\ zlen (br_hash b) = 32 /\ u32 (br_num_commitments b).

Lemma reads_block_record b : record_wf b -> reads read_block_record (block_record_bytes b) b.
Proof.
  intros (Hh & Hl & Hn). unfold read_block_record, block_record_bytes.
  eapply reads_bind; [by apply reads_le|]. eapply reads_bind; [by apply reads_hash|].
  eapply reads_bind_nil; [by apply reads_le|]. destruct b. apply reads_ret.
Qed.

Lemma zlen_concat_const {A} (enc : A -> list Z) n l :
  Forall (fun x => zlen (enc x) = n) l -> zlen (concat (enc <$> l)) = n * zlen l.
Proof.
  induction 1 as [|x l Hx _ IH]; [cbn; unfold zlen; cbn; lia|].
  cbn [fmap list_fmap concat]. autorewrite with zlen. rewrite Hx, IH. lia.
Qed.

Lemma total_commitments_small blocks acc :
  0 <= acc -> Forall record_wf blocks -> acc + foldr (fun b n => br_num_commitments b + n) 0 blocks < u64_bound ->
  foldl (fun total b => wrap64 (total + br_num_commitments b)) acc blocks =
  acc + foldr (fun b n => br_num_commitments b + n) 0 blocks.
Proof.
  intros Ha Hall. revert acc Ha. induction Hall as [|b blocks (_ & _ & Hn) Hall IH]; intros acc Ha Hlt; cbn [foldl foldr] in *; [lia|].
  assert (0 <= foldr (fun b n => br_num_commitments b + n) 0 blocks).
  { clear -Hall. induction Hall as [|x l (_ & _ & Hx) _ IH]; [done|]. unfold u32 in Hx. cbn [foldr]. lia. }
  unfold u32 in Hn. rewrite wrap64_small by lia. rewrite IH by lia. lia.
Qed.

Lemma reads_block_records blocks :
  Forall record_wf blocks -> zlen blocks * 48 < 2 ^ 63 ->
  foldr (fun b n => br_num_commitments b + n) 0 blocks < u64_bound ->
  reads (read_block_records (zlen blocks)) (concat (block_record_bytes <$> blocks))
    (blocks, foldr (fun b n => br_num_commitments b + n) 0 blocks).
Proof.
  intros Hall Hn Hlt. unfold read_block_records. pose proof (zlen_nonneg blocks).
  apply reads_check_end.
  { rewrite (zlen_concat_const block_record_bytes 44); [unfold BLOCK_RECORD_SIZE; lia|].
    eapply Forall_impl; [exact Hall|]. intros b (_ & Hh & _). unfold block_record_bytes.
    autorewrite with zlen. rewrite Hh. done. }
  apply reads_reserve; [done|]. eapply reads_bind_nil.
  - apply reads_repeat; [unfold zlen; lia|]. eapply Forall_impl; [exact Hall|]. apply reads_block_record.
  - rewrite total_commitments_small by (done || lia). apply reads_ret.
Qed.

Lemma concat_id {A} (l : list (list A)) : concat l = concat (id <$> l).
Proof. by rewrite list_fmap_id. Qed.

Lemma reads_hashes e (l : list Hash) n :
  length l = n -> Forall (fun h : Hash => zlen h = 32) l -> reads (prepeat n (read_hash e)) (concat l) l.
Proof.
  intros Hn Hall. rewrite concat_id. apply reads_repeat; [done|].
  eapply Forall_impl; [exact Hall|]. intros h Hh. by apply reads_hash.
Qed.

Lemma reads_leaves (leaves : list Hash) :
  Forall (fun h : Hash => zlen h = 32) leaves -> zlen leaves * 32 < 2 ^ 63 ->
  reads (read_leaves (zlen leaves)) (concat leaves) leaves.
Proof.
  intros Hall Hn. unfold read_leaves. pose proof (zlen_nonneg leaves). apply reads_check_end.
  { change Hash with (list Z) in *. rewrite concat_id, (zlen_concat_const id 32) by done. lia. }
  apply reads_reserve; [done|]. apply reads_hashes; [unfold zlen; lia|done].
Qed.

Lemma reads_cached_entry e :
  0 <= fst e < 2 ^ 32 -> zlen (snd e) = 32 -> reads read_cached_entry (cached_entry_bytes e) e.
Proof.
  destruct e as [slot root]. cbn [fst snd]. intros Hs Hr. unfold read_cached_entry.
  eapply reads_bind_nil.
  - apply reads_take. unfold cached_entry_bytes. autorewrite with zlen. cbn [snd]. rewrite Hr. done.
  - unfold cached_entry_bytes. cbn [fst snd].
    rewrite take_app_length' by (by rewrite length_le_bytes). rewrite drop_app_length' by (by rewrite length_le_bytes).
    rewrite le_val_le_bytes by (change (256 ^ Z.of_nat 4) with (2 ^ 32); done). apply reads_ret.
Qed.

(** ** The cache *)

Lemma cached_from_wf i cache :
  0 <= i -> i + zlen cache <= 2 ^ 32 -> (forall k r, cache !! k = Some (Some r) -> zlen r = 32) ->
  Forall (fun e => 0 <= fst e < 2 ^ 32 /\ zlen (snd e) = 32) (cached_from i cache).
Proof.
  revert i; induction cache as [|o cache IH]; intros i Hi Hlen Hr; [constructor|].
  rewrite zlen_cons in Hlen. pose proof (zlen_nonneg cache).
  assert (IH' : Forall (fun e => 0 <= fst e < 2 ^ 32 /\ zlen (snd e) = 32) (cached_from (i + 1) cache)).
  { apply IH; [lia|lia|]. intros k r Hk. by apply (Hr (S k)). }
  destruct o as [r|]; cbn [cached_from]; [|done]. constructor; [|done]. cbn [fst snd]. split.
  - apply Z.mod_pos_bound. lia.
  - by apply (Hr 0%nat).
Qed.

(** Writing the cached entries back into an empty cache, from slot [i] on. *)
Lemma restore_cache pre cache :
  zlen pre + zlen cache <= L0_DB_ROWS ->
  foldl set_cached (pre ++ replicate (length cache) None) (cached_from (zlen pre) cache) = pre ++ cache.
Proof.
  revert pre; induction cache as [|o cache IH]; intros pre Hlen; [done|].
  rewrite zlen_cons in Hlen. pose proof (zlen_nonneg pre). pose proof (zlen_nonneg cache).
  change L0_DB_ROWS with 8192 in *.
  specialize (IH (pre ++ [o])). rewrite zlen_app, zlen_cons, zlen_nil in IH.
  replace (zlen pre + (1 + 0)) with (zlen pre + 1) in IH by lia. rewrite <- !(assoc (++)) in IH. cbn [app] in IH.
  specialize (IH ltac:(lia)). cbn [length replicate]. destruct o as [r|]; cbn [cached_from foldl].
  - rewrite <- IH. f_equal. unfold set_cached. cbn [fst snd]. unfold wrap32.
    rewrite Z.mod_small by lia. change L0_DB_ROWS with 8192. guards.
    rewrite insert_app_r_alt by (unfold zlen; lia).
    replace (Z.to_nat (zlen pre) - length pre)%nat with 0%nat by (unfold zlen; lia). done.
  - exact IH.
Qed.

Lemma length_cached_from i cache : (length (cached_from i cache) <= length cache)%nat.
Proof. revert i; induction cache as [|[r|] cache IH]; intros i; cbn; [lia|..]; specialize (IH (i + 1)); lia. Qed.

(** A tree whose fields have their Rust types and whose blocks account for its
    leaves; the counts are what memory can hold. *)
Record tree_wf (t : CommitmentTreeDb) : Prop := {
  tw_offset : 0 <= ct_leaf_offset t /\ ct_leaf_offset t + zlen (ct_leaves t) < u64_bound;
  tw_blocks : Forall record_wf (ct_blocks t);
  tw_total : foldr (fun b n => br_num_commitments b + n) 0 (ct_blocks t) = zlen (ct_leaves t);
  tw_leaves : Forall (fun h : Hash => zlen h = 32) (ct_leaves t);
  tw_prefetched : Forall (fun h : Hash => zlen h = 32) (ct_prefetched_shard_roots t);
  tw_cache_len : zlen (ct_ss_root_cache t) = L0_DB_ROWS;
  tw_cache : forall k r, ct_ss_root_cache t !! k = Some (Some r) -> zlen r = 32;
  tw_empty : ct_empty_roots t = precompute_empty_roots;
  tw_small : zlen (ct_leaves t) * 32 < 2 ^ 50 /\ zlen (ct_blocks t) * 48 < 2 ^ 50 /\
             zlen (ct_prefetched_shard_roots t) * 32 < 2 ^ 50 }.

(** What [snapshot_payload] writes after the magic. *)
Definition snapshot_body (t : CommitmentTreeDb) : list Z := drop 8 (snapshot_payload t).

Lemma payload_body t : snapshot_payload t = le_bytes 8 SNAPSHOT_MAGIC_V4 ++ snapshot_body t.
Proof. unfold snapshot_body, snapshot_payload. by rewrite drop_app_length' by (by rewrite length_le_bytes). Qed.

Lemma latest_hash_len t : tree_wf t -> zlen (default (replicate 32 0) (latest_block_hash t)) = 32.
Proof.
  intros Hw. unfold latest_block_hash. destruct (last (ct_blocks t)) as [b|] eqn:E; [|done]. cbn.
  apply last_Some_elem_of in E. pose proof (tw_blocks t Hw) as Hb. rewrite Forall_forall in Hb.
  apply (Hb b E).
Qed.

Lemma latest_height_u64 t : tree_wf t -> 0 <= default 0 (latest_height t) < u64_bound.
Proof.
  intros Hw. unfold latest_height. destruct (last (ct_blocks t)) as [b|] eqn:E; [|done]. cbn.
  apply last_Some_elem_of in E. pose proof (tw_blocks t Hw) as Hb. rewrite Forall_forall in Hb.
  apply (Hb b E).
Qed.

Lemma reads_body t : tree_wf t -> reads from_snapshot_v3 (snapshot_body t) t.
Proof.
  intros Hw. pose proof (latest_hash_len t Hw) as Hlh. pose proof (latest_height_u64 t Hw) as Hlt.
  destruct Hw as [[Ho1 Ho2] Hb Ht Hl Hp Hcl Hc He (Hs1 & Hs2 & Hs3)].
  pose proof (zlen_nonneg (ct_leaves t)). pose proof (zlen_nonneg (ct_blocks t)).
  pose proof (zlen_nonneg (ct_prefetched_shard_roots t)).
  assert (Hbound : 2 ^ 50 < u64_bound) by done.
  assert (Hcn : zlen (cached_entries t) <= L0_DB_ROWS).
  { rewrite <- Hcl. unfold cached_entries. pose proof (length_cached_from 0 (ct_ss_root_cache t)). unfold zlen. lia. }
  change L0_DB_ROWS with 8192 in Hcn. pose proof (zlen_nonneg (cached_entries t)).
  unfold from_snapshot_v3, snapshot_body, snapshot_payload. rewrite drop_app_length' by (by rewrite length_le_bytes).
  assert (Hts : tree_size t = ct_leaf_offset t + zlen (ct_leaves t)) by (apply wrap64_small; lia).
  eapply reads_bind; [apply reads_u64; lia|]. eapply reads_bind; [apply reads_u64; lia|].
  eapply reads_bind; [by apply reads_u64|]. eapply reads_bind; [by apply reads_hash|].
  eapply reads_bind; [apply reads_u64; lia|]. eapply reads_bind; [apply reads_u64; lia|].
  apply reads_reserve; [lia|].
  eapply reads_bind; [apply reads_hashes; [unfold zlen; lia|done]|].
  eapply reads_bind; [apply reads_block_records; [done|lia|lia]|]. cbv beta iota.
  replace (wrap64 (tree_size t - ct_leaf_offset t)) with (zlen (ct_leaves t))
    by (rewrite wrap64_small; lia).
  apply reads_guard; [rewrite Ht, Z.eqb_refl; done|].
  eapply reads_bind; [apply reads_leaves; [done|lia]|]. eapply reads_bind; [apply reads_u64; lia|].
  eapply reads_bind_nil.
  - apply reads_repeat; [unfold zlen; lia|].
    eapply Forall_impl; [apply cached_from_wf; [lia| |exact Hc]|]; [rewrite Hcl; done|].
    intros e [He1 He2]. by apply reads_cached_entry.
  - cbn [CommitmentTreeDb_with_offset ct_leaf_offset ct_prefetched_shard_roots ct_empty_roots].
    assert (Er : foldl set_cached (replicate (Z.to_nat L0_DB_ROWS) None) (cached_entries t) = ct_ss_root_cache t).
    { pose proof (restore_cache [] (ct_ss_root_cache t)) as R. cbn [app] in R. rewrite zlen_nil in R.
      replace (Z.to_nat L0_DB_ROWS) with (length (ct_ss_root_cache t)) by (rewrite <- Hcl; unfold zlen; lia).
      apply R. lia. }
    rewrite Er, <- He. destruct t. apply reads_ret.
Qed.

Lemma split_checksum_app payload n : u64 n -> split_checksum (payload ++ le_bytes 8 n) = (payload, n).
Proof.
  intros Hn. unfold split_checksum. rewrite length_app, length_le_bytes.
  replace (length payload + 8 - 8)%nat with (length payload) by lia.
  rewrite take_app_length, drop_app_length. by rewrite le_val_le_bytes.
Qed.

Lemma payload_small t : tree_wf t -> zlen (snapshot_payload t) < u64_bound.
Proof.
  intros Hw. pose proof (latest_hash_len t Hw) as Hlh.
  destruct Hw as [_ Hb _ Hl Hp Hcl Hc _ (Hs1 & Hs2 & Hs3)].
  assert (Hcn : zlen (cached_entries t) <= 8192).
  { change 8192 with L0_DB_ROWS. rewrite <- Hcl. pose proof (length_cached_from 0 (ct_ss_root_cache t)).
    unfold cached_entries, zlen in *. lia. }
  assert (Hce : Forall (fun e => zlen (cached_entry_bytes e) = 36) (cached_entries t)).
  { eapply Forall_impl; [apply cached_from_wf; [lia| |exact Hc]|]; [rewrite Hcl; done|].
    intros [k r] [_ H']. unfold cached_entry_bytes. cbn [fst snd] in *. autorewrite with zlen. rewrite H'. done. }
  unfold snapshot_payload. autorewrite with zlen. rewrite Hlh.
  change Hash with (list Z) in *.
  rewrite (concat_id (ct_prefetched_shard_roots t)), (concat_id (ct_leaves t)), !(zlen_concat_const id 32) by done.
  rewrite (zlen_concat_const block_record_bytes 44).
  2: { eapply Forall_impl; [exact Hb|]. intros b (_ & Hh & _). unfold block_record_bytes.
       autorewrite with zlen. rewrite Hh. done. }
  rewrite (zlen_concat_const cached_entry_bytes 36) by exact Hce.
  change u64_bound with 18446744073709551616. change (2 ^ 50) with 1125899906842624 in *. change Hash with (list Z). lia.
Qed.

Lemma from_to_snapshot t : tree_wf t -> from_snapshot (to_snapshot t) = Ok t.
Proof.
  intros Hw. unfold from_snapshot, to_snapshot. cbv zeta.
  pose proof (payload_small t Hw) as Hsm.
  assert (zlen (snapshot_payload t) >= 8).
  { rewrite payload_body, zlen_app, zlen_le_bytes. pose proof (zlen_nonneg (snapshot_body t)). lia. }
  rewrite zlen_app, zlen_le_bytes. change (Z.of_nat 8) with 8. guards.
  rewrite split_checksum_app by apply xxh64_u64. rewrite Z.eqb_refl. cbn [negb].
  rewrite payload_body in *. rewrite zlen_app in Hsm.
  pose proof (reads_u64 SNAPSHOT_MAGIC_V4 ltac:(done) [] (snapshot_body t)) as Hm.
  unfold at_ in Hm. cbn [app] in Hm. change (zlen []) with 0 in Hm.
  rewrite Hm by (unfold fits; rewrite zlen_app; change (zlen []) with 0; lia). rewrite Z.eqb_refl.
  pose proof (reads_body t Hw (le_bytes 8 SNAPSHOT_MAGIC_V4) []) as Hb.
  unfold at_ in Hb. rewrite !app_nil_r in Hb. rewrite Hb; [done|].
  unfold fits. lia.
Qed.

(** Every tree that represents a chain is well-formed. *)
Lemma repr_wf pre bs t :
  tree_repr pre bs t -> Forall (fun b => u64 (tb_height b) /\ zlen (tb_hash b) = 32) bs ->
  zlen bs < 2 ^ 40 -> tree_wf t.
Proof.
  intros R Hb Hn. pose proof (tr_bound _ _ _ R) as Hbd. change (2 ^ TREE_DEPTH) with (2 ^ 32) in Hbd.
  rewrite zlen_app in Hbd. pose proof (zlen_nonneg pre). pose proof (zlen_nonneg (window_leaves bs)).
  assert (Hlv : zlen (ct_leaves t) = zlen (window_leaves bs)) by (rewrite (tr_leaves _ _ _ R); unfold zlen; by rewrite length_fmap).
  assert (Hcount : Forall (fun b => u32 (zlen (tb_commitments b))) bs).
  { apply Forall_forall. intros b [l1 [l2 ->]]%list_elem_of_split. unfold u32.
    unfold window_leaves in *. rewrite fmap_app, concat_app in Hbd. cbn [fmap list_fmap concat] in Hbd.
    rewrite !zlen_app in Hbd. pose proof (zlen_nonneg (concat (tb_commitments <$> l1))).
    pose proof (zlen_nonneg (concat (tb_commitments <$> l2))). pose proof (zlen_nonneg (tb_commitments b)). lia. }
  constructor.
  - rewrite (tr_offset _ _ _ R), Hlv. change u64_bound with (2 ^ 64). lia.
  - rewrite (tr_blocks _ _ _ R). apply Forall_fmap. apply Forall_forall. intros b Hin.
    rewrite Forall_forall in Hb, Hcount. destruct (Hb b Hin). unfold compose. split_and!; [done|done|]. by apply Hcount.
  - rewrite (tr_blocks _ _ _ R), Hlv. clear -Hcount. unfold window_leaves.
    induction bs as [|b bs IH]; [done|]. apply Forall_cons in Hcount as [_ Hc].
    cbn [fmap list_fmap foldr concat]. rewrite IH by done. rewrite zlen_app. done.
  - rewrite (tr_leaves _ _ _ R). apply Forall_fmap, Forall_true. intros x. unfold compose, zlen.
    by rewrite mho_to_bytes_length.
  - rewrite (tr_prefetched _ _ _ R). unfold nodes. apply Forall_fmap, Forall_true. intros x. unfold compose, zlen.
    by rewrite mho_to_bytes_length.
  - apply (tr_cache _ _ _ R).
  - intros k r Hk. apply (tr_cache _ _ _ R) in Hk. rewrite Hk. unfold zlen. by rewrite mho_to_bytes_length.
  - apply (tr_empty _ _ _ R).
  - rewrite Hlv, (tr_blocks _ _ _ R), (tr_prefetched _ _ _ R).
    pose proof (Z.div_pos (zlen pre) SHARD_LEAVES). pose proof (Z.div_le_upper_bound (zlen pre) SHARD_LEAVES (2 ^ 32)).
    rewrite zlen_nodes by (geometry; lia). unfold zlen at 2. rewrite length_fmap. fold (zlen bs).
    geometry. lia.
Qed.

(** C35: whatever appends, rollbacks and builds made it, a tree that holds a window
    of the chain is restored from its snapshot exactly: the leaves, the blocks, the
    offset with the roots fetched before it, and every cached sub-shard root. *)
Theorem snapshot_restores_tree pre bs t :
  tree_repr pre bs t -> Forall (fun b => u64 (tb_height b) /\ zlen (tb_hash b) = 32) bs -> zlen bs < 2 ^ 40 ->
  from_snapshot (to_snapshot t) = Ok t.
Proof. intros R Hb Hn. apply from_to_snapshot. by apply (repr_wf pre bs). Qed.

(** Saving is atomic: after an I/O error or a crash at any point of
    [save_snapshot], also inside a write, with unsynced bytes lost or garbled and
    unsynced renames undone, the directory loads as some tree that was saved
    before, or as the tree being saved, and never as part of a file; an
    uninterrupted save loads as the tree saved and leaves only synced files. *)
Theorem snapshot_crash_safe pre bs t d d' :
  tree_repr pre bs t -> Forall (fun b => u64 (tb_height b) /\ zlen (tb_hash b) = 32) bs -> zlen bs < 2 ^ 40 ->
  settled d ->
  (interrupted d (to_snapshot t) d' ->
   load_snapshot d' = Ok t \/ exists f, f ∈ versions d /\ load_snapshot d' = load_version f) /\
  load_snapshot (save_file d (to_snapshot t)) = Ok t /\ settled (save_file d (to_snapshot t)).
Proof.
  intros R Hb Hn Hs. pose proof (from_to_snapshot t (repr_wf pre bs t R Hb Hn)) as E.
  unfold load_version, load_snapshot.
  split_and!; [|by rewrite read_saved; cbn [map_err]; rewrite E|by apply settled_save].
  intros [Hf|(f & Hv & Hf)]%interrupted_read; [left|right|done]; rewrite Hf; [by cbn [map_err]; rewrite E|].
  by exists f.
Qed.

End roundtrip.

(** ** Witnesses *)

#[local] Existing Instance parity_hash.
#[local] Existing Instance parity_laws.
#[local] Instance byte_sum : XxHash64 := fun data => wrap64 (foldr Z.add 0 data).
#[local] Instance byte_sum_laws : XxHash64Laws.
Proof. intros data. unfold u64, xxh64, byte_sum, wrap64. by apply Z.mod_pos_bound. Qed.

Lemma snapshot_restores_tree_witness :
  exists t, tree_repr [] sample_blocks t /\ from_snapshot (to_snapshot t) = Ok t.
Proof.
  destruct sample_repr as (t & _ & R). exists t. split; [exact R|].
  apply (snapshot_restores_tree [] sample_blocks t R).
  - repeat constructor; vm_compute; congruence.
  - vm_compute. reflexivity.
Defined.

Lemma snapshot_crash_safe_witness :
  exists t, tree_repr [] sample_blocks t /\
    load_snapshot (save_file SnapshotDir_empty (to_snapshot t)) = Ok t.
Proof.
  destruct sample_repr as (t & _ & R). exists t. split; [exact R|].
  apply (snapshot_crash_safe [] sample_blocks t SnapshotDir_empty SnapshotDir_empty R).
  - repeat constructor; vm_compute; congruence.
  - vm_compute. reflexivity.
  - exact settled_empty.
Defined.
