(* ===== verification/TableSnapshot.v ===== *)
(** * Snapshots of the nullifier table

    Models [demos/legacy-spendability/nullifier/hashtable-pir/src/snapshot.rs]:
    [to_snapshot] and [from_snapshot] of [HashTableDb].  The format holds the block
    index in the order of heights and every slot of every bucket; the map from
    hashes to heights and the high-water marks of the buckets are recomputed when a
    snapshot is read.  The theorem: reading a table's snapshot gives a table that
    holds the same blocks and answers the same. *)

From Stdlib Require Import ZArith Lia.
From stdpp Require Import base numbers list strings gmap sorting.
From S2P Require Import Prelude Cursor CommitmentTree ChainFollow NullifierTable TreeSnapshot.

Definition SNAPSHOT_MAGIC : Z := 0x5350454E44504952.
Definition SNAPSHOT_VERSION : Z := 3.

Section snapshot.
Context `{XxHash64}.

(** [BTreeMap<u64, _>] iteration. *)
Definition height_le (a b : Z * NfBlockRecord) : Prop := fst a <= fst b.
#[local] Instance height_le_dec : RelDecision height_le.
Proof. intros a b. unfold height_le. apply _. Defined.
Definition index_iter (index : gmap Z NfBlockRecord) : list (Z * NfBlockRecord) :=
  merge_sort height_le (map_to_list index).

(** ** Writing *)

Definition slot_bytes (slot : Z * Z) : list Z := le_bytes 4 (fst slot) ++ [snd slot; 0].
Definition index_entry_bytes (entry : Z * NfBlockRecord) : list Z :=
  le_bytes 8 (fst entry) ++ nr_block_hash (snd entry) ++ le_bytes 4 (wrap32 (zlen (nr_slots (snd entry)))) ++
  concat (slot_bytes <$> nr_slots (snd entry)).

Definition table_payload (db : HashTableDb) : list Z :=
  le_bytes 8 SNAPSHOT_MAGIC ++ le_bytes 4 SNAPSHOT_VERSION ++
  le_bytes 8 (default 0 (nf_latest_height db)) ++ le_bytes 8 (default 0 (nf_latest_height db)) ++
  default (replicate 32 0) (nf_latest_block_hash db) ++
  le_bytes 8 (ht_num_entries db) ++ le_bytes 8 (Z.of_nat (size (ht_block_index db))) ++
  concat (index_entry_bytes <$> index_iter (ht_block_index db)) ++
  concat (bucket_bytes <$> ht_buckets db).

Definition table_to_snapshot (db : HashTableDb) : list Z :=
  let buf := table_payload db in buf ++ le_bytes 8 (xxh64 buf).

(** ** Reading *)

Definition eof : HashTableError := HT_Snapshot "unexpected EOF".
Definition table_u64 : parser HashTableError Z := cursor_le eof eof 8.
Definition table_u32 : parser HashTableError Z := cursor_le eof eof 4.
Definition table_bytes_32 : parser HashTableError Hash := cursor_take eof eof 32.

Definition read_slot : parser HashTableError (Z * Z) :=
  let! bucket_idx := table_u32 in
  let! tail := cursor_take eof eof 2 in
  pret (bucket_idx, default 0 (head tail)).

Definition read_index_entry : parser HashTableError (Z * NfBlockRecord) :=
  let! height := table_u64 in
  let! block_hash := table_bytes_32 in
  let! num_slots := table_u32 in
  let! slots := prepeat (Z.to_nat num_slots) read_slot in
  pret (height, {| nr_block_hash := block_hash; nr_slots := slots |}).

(** The index after the loop: later blocks replace earlier ones of the same key. *)
Definition index_of (blocks : list (Z * NfBlockRecord)) : gmap Z NfBlockRecord :=
  foldl (fun m b => <[fst b := snd b]> m) ∅ blocks.
Definition heights_of (blocks : list (Z * NfBlockRecord)) : gmap Hash Z :=
  foldl (fun m b => <[nr_block_hash (snd b) := fst b]> m) ∅ blocks.

(** The last occupied slot plus one. *)
Fixpoint used_count (entries : list NullifierEntry) : Z :=
  match entries with
  | [] => 0
  | e :: entries =>
      let n := used_count entries in
      if 0 <? n then n + 1 else if entry_is_empty e then 0 else 1
  end.

Definition truncated_buckets : HashTableError := HT_Snapshot "bucket data truncated".
Definition read_entry : parser HashTableError NullifierEntry :=
  let! bytes := cursor_take truncated_buckets truncated_buckets ENTRY_BYTES in pret (entry_from_bytes bytes).
Definition read_bucket : parser HashTableError Bucket :=
  let! entries := prepeat (Z.to_nat BUCKET_CAPACITY) read_entry in
  pret {| bu_entries := entries; bu_count := used_count entries |}.

Definition check_buckets : parser HashTableError unit := fun c =>
  if zlen (cur_bytes c) <? cur_offset c + NUM_BUCKETS * BUCKET_BYTES then Err truncated_buckets else Ok (tt, c).

Definition read_table : parser HashTableError HashTableDb :=
  let! magic := table_u64 in
  if negb (magic =? SNAPSHOT_MAGIC) then pfail (HT_Snapshot "bad magic") else
  let! version := table_u32 in
  if negb (version =? SNAPSHOT_VERSION)
  then pfail (HT_Snapshot "unsupported snapshot version {version} (expected {SNAPSHOT_VERSION}){hint}") else
  let! _ := table_u64 in
  let! _ := table_u64 in
  let! _ := table_bytes_32 in
  let! num_entries := table_u64 in
  let! num_blocks := table_u64 in
  let! blocks := prepeat (Z.to_nat num_blocks) read_index_entry in
  let! _ := check_buckets in
  let! buckets := prepeat (Z.to_nat NUM_BUCKETS) read_bucket in
  pret {| ht_buckets := buckets; ht_block_index := index_of blocks;
          ht_block_hash_to_height := heights_of blocks; ht_num_entries := num_entries |}.

Definition table_from_snapshot (data : list Z) : result HashTableError HashTableDb :=
  if zlen data <? 8 + 4 + 8 + 8 + 32 + 8 + 8 + NUM_BUCKETS * BUCKET_BYTES + 8
  then Err (HT_Snapshot "data too short") else
  let '(payload, stored_checksum) := split_checksum data in
  if negb (stored_checksum =? xxh64 payload) then Err (HT_Snapshot "checksum mismatch") else
  let? (db, _) := read_table (Cursor payload 0) in Ok db.

End snapshot.

(** ** Reading back what was written *)

Section roundtrip.
Context `{XxHash64Laws}.

(** A bucket as it is restored: its entries, the mark recomputed. *)
Definition renew (b : Bucket) : Bucket := {| bu_entries := bu_entries b; bu_count := used_count (bu_entries b) |}.

Lemma reads_entry e : entry_wf e -> reads read_entry (entry_to_bytes e) e.
Proof.
  intros He. unfold read_entry. eapply reads_bind_nil.
  - apply reads_take. unfold zlen. by rewrite length_nf_entry_bytes.
  - rewrite entry_roundtrip by done. apply reads_ret.
Qed.

Lemma reads_bucket b :
  zlen (bu_entries b) = BUCKET_CAPACITY -> Forall entry_wf (bu_entries b) ->
  reads read_bucket (bucket_bytes (renew b)) (renew b).
Proof.
  intros Hl Hw. unfold read_bucket, bucket_bytes. cbn [renew bu_entries]. eapply reads_bind_nil.
  - apply reads_repeat; [rewrite <- Hl; unfold zlen; lia|]. eapply Forall_impl; [exact Hw|]. apply reads_entry.
  - apply reads_ret.
Qed.

Lemma reads_buckets buckets F :
  holds buckets F -> reads (prepeat (Z.to_nat NUM_BUCKETS) read_bucket) (concat (bucket_bytes <$> buckets)) (renew <$> buckets).
Proof.
  intros Hh. assert (E : bucket_bytes <$> buckets = bucket_bytes <$> (renew <$> buckets)).
  { rewrite <- list_fmap_compose. by apply list_fmap_ext. }
  rewrite E. apply reads_repeat.
  - rewrite length_fmap, <- (ho_len _ _ Hh). unfold zlen. lia.
  - apply Forall_fmap, Forall_lookup. intros i b Hb. apply reads_bucket.
    + exact (ho_cap _ _ Hh i b Hb).
    + exact (bucket_wf _ _ _ _ Hh Hb).
Qed.

Lemma reads_check_buckets {A} (p : parser HashTableError A) bs v :
  NUM_BUCKETS * BUCKET_BYTES <= zlen bs -> reads p bs v -> reads (pbind check_buckets (fun _ => p)) bs v.
Proof.
  intros Hb Hp pre rest Hf. specialize (Hp pre rest Hf). unfold pbind, check_buckets.
  cbn [at_ cur_bytes cur_offset]. rewrite !zlen_app. pose proof (zlen_nonneg rest).
  rewrite (proj2 (Z.ltb_ge _ _)) by lia. exact Hp.
Qed.

(** A record of the index whose fields have their widths. *)
Definition index_wf (entry : Z * NfBlockRecord) : Prop :=
  u64 (fst entry) /\ zlen (nr_block_hash (snd entry)) = 32 /\ zlen (nr_slots (snd entry)) < 2 ^ 32 /\
  Forall (fun s => 0 <= fst s < 2 ^ 32) (nr_slots (snd entry)).

Lemma reads_slot s : 0 <= fst s < 2 ^ 32 -> reads read_slot (slot_bytes s) s.
Proof.
  intros Hs. unfold read_slot, slot_bytes. eapply reads_bind; [by apply reads_le|].
  eapply reads_bind_nil; [by apply reads_take|]. destruct s. apply reads_ret.
Qed.

Lemma reads_index_entry e : index_wf e -> reads read_index_entry (index_entry_bytes e) e.
Proof.
  destruct e as [h [hash slots]]. intros (Hh & Hl & Hn & Hs).
  cbn [fst snd nr_block_hash nr_slots] in *. unfold read_index_entry, index_entry_bytes. cbn [fst snd nr_block_hash nr_slots].
  pose proof (zlen_nonneg slots). unfold wrap32. rewrite Z.mod_small by lia.
  eapply reads_bind; [by apply reads_le|]. eapply reads_bind; [by apply reads_take|].
  eapply reads_bind; [apply reads_le; change (256 ^ Z.of_nat 4) with (2 ^ 32); lia|].
  eapply reads_bind_nil.
  - apply reads_repeat; [unfold zlen; lia|]. eapply Forall_impl; [exact Hs|]. apply reads_slot.
  - apply reads_ret.
Qed.

Lemma index_iter_perm index : Permutation (index_iter index) (map_to_list index).
Proof. apply merge_sort_Permutation. Qed.

Lemma foldl_insert_map {K A} `{Countable K} (l : list (K * A)) (m : gmap K A) k :
  NoDup l.*1 ->
  foldl (fun m b => <[fst b := snd b]> m) m l !! k =
  match (list_to_map l : gmap K A) !! k with Some a => Some a | None => m !! k end.
Proof.
  revert m. induction l as [|[k' a] l IH]; intros m Hnd; [by rewrite list_to_map_nil, lookup_empty|].
  rewrite fmap_cons, NoDup_cons in Hnd. destruct Hnd as [Hk Hnd]. cbn [foldl fst snd]. rewrite IH by done.
  rewrite list_to_map_cons. destruct (decide (k = k')) as [->|Hne].
  - rewrite (not_elem_of_list_to_map_1 l k') by done. by rewrite !lookup_insert_eq.
  - by rewrite !lookup_insert_ne.
Qed.

Lemma index_of_iter index : index_of (index_iter index) = index.
Proof.
  apply map_eq. intros k. unfold index_of. rewrite foldl_insert_map.
  - rewrite (list_to_map_proper _ (map_to_list index)), list_to_map_to_list.
    + rewrite lookup_empty. by destruct (index !! k).
    + rewrite index_iter_perm. apply NoDup_fst_map_to_list.
    + apply index_iter_perm.
  - rewrite index_iter_perm. apply NoDup_fst_map_to_list.
Qed.

(** The hashes of different blocks differ. *)
Definition hashes_distinct (index : gmap Z NfBlockRecord) : Prop :=
  forall h h' r r', index !! h = Some r -> index !! h' = Some r' -> nr_block_hash r = nr_block_hash r' -> h = h'.

Lemma heights_of_foldl (l : list (Z * NfBlockRecord)) (m : gmap Hash Z) :
  foldl (fun m b => <[nr_block_hash (snd b) := fst b]> m) m l =
  foldl (fun m b => <[fst b := snd b]> m) m ((fun b : Z * NfBlockRecord => (nr_block_hash (snd b), fst b)) <$> l).
Proof. revert m; induction l as [|b l IH]; intros m; [done|]. cbn [foldl fmap list_fmap fst snd]. apply IH. Qed.

Lemma NoDup_hashes index :
  hashes_distinct index -> NoDup ((fun b : Z * NfBlockRecord => nr_block_hash (snd b)) <$> index_iter index).
Proof.
  intros Hd. rewrite index_iter_perm. apply NoDup_fmap_2_strong; [|apply NoDup_map_to_list].
  intros [h r] [h' r'] H1%elem_of_map_to_list H2%elem_of_map_to_list E. cbn in E.
  assert (h = h') as <- by (by apply (Hd h h' r r')). congruence.
Qed.

Lemma heights_of_iter index hash h :
  hashes_distinct index ->
  heights_of (index_iter index) !! hash = Some h <-> exists r, index !! h = Some r /\ nr_block_hash r = hash.
Proof.
  intros Hd. unfold heights_of. rewrite heights_of_foldl, foldl_insert_map, lookup_empty.
  2: { rewrite <- list_fmap_compose. by apply NoDup_hashes. }
  set (l := _ <$> index_iter index).
  assert (Hl : (list_to_map l : gmap Hash Z) !! hash = Some h <-> (hash, h) ∈ l).
  { symmetry. apply elem_of_list_to_map. unfold l. rewrite <- list_fmap_compose. by apply NoDup_hashes. }
  transitivity ((list_to_map l : gmap Hash Z) !! hash = Some h); [by destruct (_ !! hash)|]. rewrite Hl.
  unfold l. rewrite list_elem_of_fmap. split.
  - intros ([h' r] & [= -> ->] & Hin). exists r. split; [|done].
    rewrite index_iter_perm in Hin. by apply elem_of_map_to_list in Hin.
  - intros (r & Hr & <-). exists (h, r). split; [done|]. rewrite index_iter_perm. by apply elem_of_map_to_list.
Qed.

Lemma holds_renew buckets F : holds buckets F -> holds (renew <$> buckets) F.
Proof.
  intros [H1 H2 H3 H4]. constructor.
  - unfold zlen. by rewrite length_fmap.
  - intros i b Hb. rewrite list_lookup_fmap in Hb. destruct (buckets !! i) as [b'|] eqn:E; [|done].
    injection Hb as <-. exact (H2 i b' E).
  - intros s Hs. rewrite <- (H3 s Hs). unfold slot_at. rewrite list_lookup_fmap. by destruct (buckets !! _).
  - exact H4.
Qed.

(** The restored table. *)
Definition restored (db : HashTableDb) : HashTableDb :=
  {| ht_buckets := renew <$> ht_buckets db; ht_block_index := ht_block_index db;
     ht_block_hash_to_height := heights_of (index_iter (ht_block_index db)); ht_num_entries := ht_num_entries db |}.

Lemma repr_hashes B db : table_repr B db -> hashes_distinct (ht_block_index db).
Proof.
  intros R h h' r r'. rewrite (tp_index _ _ R), !lookup_fmap, !fmap_Some.
  intros (x & Hx & ->) (x' & Hx' & ->) E. cbn in E.
  assert (H1 : ht_block_hash_to_height db !! xb_hash x = Some h) by (apply (tp_hashes _ _ R); by exists x).
  assert (H2 : ht_block_hash_to_height db !! xb_hash x = Some h') by (apply (tp_hashes _ _ R); by exists x').
  congruence.
Qed.

Lemma restored_repr B db : table_repr B db -> table_repr B (restored db).
Proof.
  intros R. pose proof (repr_hashes B db R) as Hd. destruct R as [(F & Hh & Hp) Hi Hn Hdj Hs Hc Hb].
  constructor; cbn [restored ht_buckets ht_block_index ht_block_hash_to_height ht_num_entries]; try done.
  - exists F. split; [by apply holds_renew|done].
  - intros hash h. rewrite heights_of_iter by done. rewrite Hi. setoid_rewrite lookup_fmap. split.
    + intros (r & Hr & <-). apply fmap_Some in Hr as (x & Hx & ->). by exists x.
    + intros (x & Hx & <-). exists (record_of_block x). by rewrite Hx.
Qed.

(** ** Sizes *)

Definition slots_total (l : list (Z * NfBlockRecord)) : Z := foldr (fun e n => zlen (nr_slots (snd e)) + n) 0 l.

Lemma slots_total_perm l k : Permutation l k -> slots_total l = slots_total k.
Proof. induction 1; cbn [slots_total foldr] in *; unfold slots_total in *; lia. Qed.

Lemma slots_total_stored B : slots_total (map_to_list (record_of_block <$> B)) = stored B.
Proof.
  unfold stored. rewrite map_fold_foldr, map_to_list_fmap.
  induction (map_to_list B) as [|[h x] l IH]; [done|]. cbn. unfold slots_total in IH. rewrite IH. cbn.
  unfold zlen. by rewrite length_fmap.
Qed.

Lemma slots_total_elem l e : e ∈ l -> zlen (nr_slots (snd e)) <= slots_total l.
Proof.
  assert (Hpos : forall k, 0 <= slots_total k).
  { intros k. induction k as [|x k IH]; [done|]. cbn. pose proof (zlen_nonneg (nr_slots (snd x))). unfold slots_total in IH. lia. }
  induction l as [|x l IH]; [by intros Hx%elem_of_nil|]. intros [->|Hin]%elem_of_cons; cbn.
  - pose proof (Hpos l). unfold slots_total in *. lia.
  - specialize (IH Hin). pose proof (zlen_nonneg (nr_slots (snd x))). unfold slots_total in *. lia.
Qed.

Lemma zlen_index l :
  Forall index_wf l -> zlen (concat (index_entry_bytes <$> l)) = 44 * zlen l + 6 * slots_total l.
Proof.
  induction 1 as [|e l He _ IH]; [done|]. destruct He as (_ & Hh & _).
  cbn [fmap list_fmap concat slots_total foldr]. rewrite zlen_app, zlen_cons, IH. unfold index_entry_bytes.
  rewrite !zlen_app, !zlen_le_bytes, (zlen_concat_const slot_bytes 6).
  - rewrite Hh. unfold slots_total. lia.
  - apply Forall_true. intros s. unfold slot_bytes. rewrite zlen_app, zlen_le_bytes. done.
Qed.

(** What the code's types guarantee of the blocks, and that the table is not
    larger than memory. *)
Record table_small (B : gmap Z NfBlock) (db : HashTableDb) : Prop := {
  tm_blocks h x : B !! h = Some x -> u64 h /\ zlen (xb_hash x) = 32;
  tm_entries : ht_num_entries db < 2 ^ 32;
  tm_size : Z.of_nat (size (ht_block_index db)) < 2 ^ 32 }.

Lemma index_entries_wf B db :
  table_repr B db -> table_small B db -> Forall index_wf (index_iter (ht_block_index db)).
Proof.
  intros R Hs. apply Forall_forall. intros [h r] Hin. rewrite index_iter_perm in Hin.
  pose proof (slots_total_elem _ _ Hin) as Htot. rewrite (tp_index _ _ R), slots_total_stored, <- (tp_count _ _ R) in Htot.
  apply elem_of_map_to_list in Hin. rewrite (tp_index _ _ R), lookup_fmap, fmap_Some in Hin.
  destruct Hin as (x & Hx & ->). destruct (tm_blocks _ _ Hs h x Hx) as [Hu Hl].
  pose proof (tm_entries _ _ Hs). destruct (tp_slots _ _ R) as (F & Hh & Hp).
  unfold index_wf. cbn [fst snd record_of_block nr_block_hash nr_slots] in *. split_and!; [done|done|lia|].
  apply Forall_fmap, Forall_forall. intros [s e] Hse. unfold compose. cbn [fst].
  assert (HF : F !! s = Some e) by (apply Hp; right; by exists h, x).
  destruct (ho_entry _ _ Hh s e HF) as [[Hb _] _]. change NUM_BUCKETS with 16384 in Hb. lia.
Qed.

Lemma table_latest_hash B db :
  table_repr B db -> table_small B db -> zlen (default (replicate 32 0) (nf_latest_block_hash db)) = 32.
Proof.
  intros R Hs. unfold nf_latest_block_hash. destruct (nf_latest_height db) as [h|]; [|done]. cbn [mbind option_bind].
  rewrite (tp_index _ _ R), lookup_fmap. destruct (B !! h) as [x|] eqn:E; [|done]. cbn.
  apply (tm_blocks _ _ Hs h x E).
Qed.

Lemma greatest_elem l h : greatest l = Some h -> h ∈ l.
Proof.
  revert h; induction l as [|k l IH]; intros h; [done|]. cbn [greatest foldr]. intros [= <-].
  destruct (foldr _ None l) as [m|] eqn:E; [|apply list_elem_of_here].
  destruct (Z.max_spec k m) as [[_ ->]|[_ ->]]; [|apply list_elem_of_here].
  apply list_elem_of_further. by apply IH.
Qed.

Lemma table_latest_height B db :
  table_repr B db -> table_small B db -> 0 <= default 0 (nf_latest_height db) < u64_bound.
Proof.
  intros R Hs. unfold nf_latest_height. destruct (greatest _) as [h|] eqn:E; [|done]. cbn.
  apply greatest_elem, elem_of_elements, elem_of_dom in E as [r Hr].
  rewrite (tp_index _ _ R), lookup_fmap, fmap_Some in Hr. destruct Hr as (x & Hx & _).
  apply (tm_blocks _ _ Hs h x Hx).
Qed.

Lemma zlen_buckets buckets F :
  holds buckets F -> zlen (concat (bucket_bytes <$> buckets)) = NUM_BUCKETS * BUCKET_BYTES.
Proof.
  intros Hh. rewrite (zlen_concat_const bucket_bytes BUCKET_BYTES), (ho_len _ _ Hh); [lia|].
  apply Forall_lookup. intros i b Hb. by eapply bucket_bytes_length.
Qed.

Lemma zlen_payload B db :
  table_repr B db -> table_small B db ->
  76 + NUM_BUCKETS * BUCKET_BYTES <= zlen (table_payload db) < u64_bound.
Proof.
  intros R Hs. pose proof (table_latest_hash B db R Hs) as Hl. pose proof (index_entries_wf B db R Hs) as Hw.
  destruct (tp_slots _ _ R) as (F & Hh & _). unfold table_payload.
  rewrite !zlen_app, !zlen_le_bytes, Hl, (zlen_index _ Hw), (zlen_buckets _ F Hh).
  assert (Ht : slots_total (index_iter (ht_block_index db)) = ht_num_entries db).
  { rewrite (slots_total_perm _ _ (index_iter_perm _)), (tp_index _ _ R), slots_total_stored. by rewrite (tp_count _ _ R). }
  rewrite Ht. pose proof (tm_entries _ _ Hs). pose proof (tm_size _ _ Hs).
  assert (Hi : zlen (index_iter (ht_block_index db)) = Z.of_nat (size (ht_block_index db))).
  { unfold zlen. by rewrite index_iter_perm, length_map_to_list. }
  rewrite Hi. pose proof (stored_nonneg B). pose proof (tp_count _ _ R).
  change (NUM_BUCKETS * BUCKET_BYTES) with 75235328. change u64_bound with 18446744073709551616.
  change (2 ^ 32) with 4294967296 in *. lia.
Qed.

Lemma reads_table B db : table_repr B db -> table_small B db -> reads read_table (table_payload db) (restored db).
Proof.
  intros R Hs. pose proof (table_latest_hash B db R Hs) as Hl. pose proof (table_latest_height B db R Hs) as Hh.
  pose proof (index_entries_wf B db R Hs) as Hw. pose proof (tm_entries _ _ Hs). pose proof (tm_size _ _ Hs).
  pose proof (stored_nonneg B). pose proof (tp_count _ _ R).
  destruct (tp_slots _ _ R) as (F & HF & _). unfold read_table, table_payload.
  assert (Hb : 2 ^ 32 < u64_bound) by done.
  eapply reads_bind; [by apply reads_le|]. apply reads_guard; [done|].
  eapply reads_bind; [by apply reads_le|]. apply reads_guard; [done|].
  eapply reads_bind; [by apply reads_le|]. eapply reads_bind; [by apply reads_le|].
  eapply reads_bind; [by apply reads_take|].
  eapply reads_bind; [apply reads_le; change (256 ^ Z.of_nat 8) with u64_bound; lia|].
  eapply reads_bind; [apply reads_le; change (256 ^ Z.of_nat 8) with u64_bound; lia|].
  eapply reads_bind.
  { apply reads_repeat; [|eapply Forall_impl; [exact Hw|]; apply reads_index_entry].
    by rewrite index_iter_perm, length_map_to_list, Nat2Z.id. }
  apply reads_check_buckets; [rewrite (zlen_buckets _ F HF); lia|].
  eapply reads_bind_nil; [exact (reads_buckets _ F HF)|]. rewrite index_of_iter. apply reads_ret.
Qed.

Lemma from_to_table B db :
  table_repr B db -> table_small B db -> table_from_snapshot (table_to_snapshot db) = Ok (restored db).
Proof.
  intros R Hs. pose proof (zlen_payload B db R Hs) as [Hlo Hhi]. unfold table_from_snapshot, table_to_snapshot. cbv zeta.
  rewrite zlen_app, zlen_le_bytes. rewrite (proj2 (Z.ltb_ge _ _)) by lia.
  rewrite split_checksum_app by apply xxh64_u64. rewrite Z.eqb_refl. cbn [negb].
  pose proof (reads_table B db R Hs [] []) as Hr. unfold at_ in Hr. rewrite app_nil_r in Hr. cbn [app] in Hr.
  change (zlen []) with 0 in Hr. rewrite Hr; [done|].
  unfold fits. change (zlen []) with 0. lia.
Qed.

Lemma view_small B db M :
  table_repr B db -> M = view B -> (forall h x, M !! h = Some x -> u64 h /\ zlen (fst x) = 32) ->
  total M < 2 ^ 32 -> Z.of_nat (size M) < 2 ^ 32 -> table_small B db.
Proof.
  intros R -> Hb Ht Hn. constructor.
  - intros h x Hx. apply (Hb h (xb_hash x, snd <$> xb_fills x)), view_lookup. by exists x.
  - rewrite (tp_count _ _ R). by rewrite total_view in Ht.
  - rewrite (tp_index _ _ R), map_size_fmap. unfold view in Hn. by rewrite map_size_fmap in Hn.
Qed.

(** The snapshot of a nullifier table restores it: for a table reached by any
    inserts, rollbacks and evictions and holding the blocks [M], reading back what it
    wrote succeeds and gives a table that holds exactly [M], with the same index of
    blocks and hashes (so rollbacks and evictions work as before), the same bytes for
    the PIR database and the same answer for every nullifier. *)
Theorem table_snapshot_restores db M :
  table_run db M -> (forall h x, M !! h = Some x -> u64 h /\ zlen (fst x) = 32) ->
  total M < 2 ^ 32 -> Z.of_nat (size M) < 2 ^ 32 ->
  exists db', table_from_snapshot (table_to_snapshot db) = Ok db' /\ table_of M db' /\
    ht_block_index db' = ht_block_index db /\ ht_block_hash_to_height db' = ht_block_hash_to_height db /\
    to_pir_bytes db' = to_pir_bytes db /\ forall nf, contains db' nf = contains db nf.
Proof.
  intros Hrun Hb Ht Hn. destruct (table_run_repr db M Hrun) as (B & HM & R).
  pose proof (view_small B db M R HM Hb Ht Hn) as Hs.
  exists (restored db). pose proof (repr_hashes B db R) as Hd. split_and!.
  - by apply (from_to_table B).
  - exists B. split; [done|by apply restored_repr].
  - done.
  - apply map_eq. intros hash. apply option_eq. intros h. cbn [restored ht_block_hash_to_height].
    rewrite heights_of_iter by done. rewrite (tp_hashes _ _ R), (tp_index _ _ R). setoid_rewrite lookup_fmap. split.
    + intros (r & Hr & <-). apply fmap_Some in Hr as (x & Hx & ->). by exists x.
    + intros (x & Hx & <-). exists (record_of_block x). by rewrite Hx.
  - unfold to_pir_bytes. cbn [restored ht_buckets]. f_equal. rewrite <- list_fmap_compose. by apply list_fmap_ext.
  - intros nf. unfold contains. cbn [restored ht_buckets]. rewrite list_lookup_fmap. by destruct (_ !! _).
Qed.

End roundtrip.

(** ** Witness *)

#[local] Existing Instance byte_sum.
#[local] Existing Instance byte_sum_laws.

Lemma table_snapshot_restores_witness :
  exists db', table_from_snapshot (table_to_snapshot sample_table) = Ok db' /\ contains db' (replicate 32 7) = true.
Proof.
  destruct (table_snapshot_restores sample_table sample_map sample_run) as (db' & H1 & _ & _ & _ & _ & H2).
  - intros h x Hx. unfold sample_map in Hx. apply lookup_insert_Some in Hx as [[<- <-]|[_ Hx]].
    + split; [by split|done].
    + by rewrite lookup_empty in Hx.
  - reflexivity.
  - reflexivity.
  - exists db'. split; [exact H1|]. rewrite H2.
    apply (contains_spends sample_map); [exact (table_run_repr _ _ sample_run)|discriminate|].
    exact sample_spends.
Defined.
