(* ===== verification/NullifierServer.v ===== *)
(** * The nullifier server and its client

    Models [demos/legacy-spendability/nullifier/spend-server/src/server.rs] (the
    synchronization with its backfill, the start of serving, the follow loop),
    [state.rs], [routes.rs] and [snapshot_io.rs] beside it,
    [nullifier/spend-client/src/lib.rs] (the client with its retry when the server's
    public parameters rotate, built with the [ipir] feature), and
    [detect_ironwood_network] of [shared/chain-ingest/src/client.rs].  Lightwalletd is
    the class [Lwd], with [LwdStart] for connecting and for the tree state; the PIR
    engine is [PirEngine] with its law [EngineRetrieval].  The listening socket and
    I/O errors while a snapshot is saved are not modelled.  The theorems: without a
    snapshot the table is filled back from the tip until it has enough nullifiers or
    reaches the first block, with one it resumes where the snapshot ended; and a
    client that asks a server for a nullifier is told exactly what the table the
    server now serves says, also when that table changed since it connected. *)

From Stdlib Require Import ZArith Lia.
From stdpp Require Import base numbers list strings gmap sorting.
From S2P Require Import Prelude EnhanceTypes RecordJournal CommitmentTree ChainFollow Witness WitnessServer NullifierTable SnapshotDir TreeSnapshot TableSnapshot.

Open Scope Z_scope.

(** ** Data *)

Definition BACKFILL_BATCH : Z := 50000.
Definition POOL : string := "ironwood".

Record SpendabilityMetadata := {
  md_earliest_height : Z; md_latest_height : Z; md_num_nullifiers : Z; md_num_buckets : Z;
  md_phase : ServerPhase; md_pool : string }.

Definition is_expected_pool (m : SpendabilityMetadata) : bool := bool_decide (md_pool m = POOL).

Inductive ClientError :=
| CE_Client (m : string)
| CE_MissingIronwoodTree (network : string) (height activation : Z).

Inductive SpendServerError :=
| SS_Ingest (e : ClientError)
| SS_HashTable (e : HashTableError)
| SS_PirSetup (m : string).

Record ServerConfig := { cf_target_size : Z; cf_confirmation_depth : Z; cf_snapshot_interval : Z }.

(** ** Lightwalletd *)

(** [ts_ironwood_tree]: the serialized tree, a hex string. *)
Record TreeState := { ts_network : string; ts_height : Z; ts_ironwood_tree : string }.

Inductive TreeStateError :=
| TS_Unimplemented
| TS_Other (m : string).

Class LwdStart (M : Type) := {
  lw_connect : M -> result string unit * M;
  lw_latest_tree_state : M -> result TreeStateError TreeState * M }.

Definition from_lwd_name (name : string) : option ZcashNetwork :=
  if bool_decide (name = "main"%string) then Some NetMain
  else if bool_decide (name = "test"%string) then Some NetTest else None.
Definition as_lwd_name (n : ZcashNetwork) : string :=
  match n with NetMain => "main" | NetTest => "test" end.

Definition detect_network (reply : result TreeStateError TreeState) : result ClientError (option ZcashNetwork) :=
  match reply with
  | Err TS_Unimplemented => Ok None
  | Err (TS_Other m) => Err (CE_Client m)
  | Ok state =>
      match from_lwd_name (ts_network state) with
      | None => Ok None
      | Some network =>
          if (activation_height network <=? ts_height state) && bool_decide (ts_ironwood_tree state = ""%string)
          then Err (CE_MissingIronwoodTree (as_lwd_name network) (ts_height state) (activation_height network))
          else Ok (Some network)
      end
  end.

Definition detect_ironwood_network `{LwdStart M} (n : M) : result ClientError (option ZcashNetwork) * M :=
  let '(reply, n) := lw_latest_tree_state n in (detect_network reply, n).

(** ** Synchronization *)

Section sync.
Context {M : Type} `{Lwd M} `{LwdStart M}.

(** The receiving loop of [sync_range]; every thousandth block moves the phase. *)
Fixpoint spend_sync_events (to : Z) (db : HashTableDb) (phase : ServerPhase) (events : list ChainEvent) :
    result SpendServerError HashTableDb * ServerPhase :=
  match events with
  | [] => (Ok db, phase)
  | N_NewBlock b :: events =>
      match insert_block db (nb_height b) (nb_hash b) (nb_nullifiers b) with
      | (Err e, _) => (Err (SS_HashTable e), phase)
      | (Ok _, db) =>
          let phase := if nb_height b mod 1000 =? 0 then ServerSyncing (nb_height b) to else phase in
          spend_sync_events to db phase events
      end
  | N_Reorg _ _ :: events => spend_sync_events to db phase events
  end.

(** A failure of the ingest task ends the range early and is not reported. *)
Definition spend_sync_range (from to : Z) (db : HashTableDb) (initial_tree_size : option Z)
    (phase : ServerPhase) (n : M) : result SpendServerError HashTableDb * ServerPhase * M :=
  if to <? from then (Ok db, phase, n) else
  match lw_connect n with
  | (Err m, n) => (Err (SS_Ingest (CE_Client m)), phase, n)
  | (Ok _, n) =>
      let '(events, _, n) := nf_sync (Z.to_nat (to - from + 1)) from to initial_tree_size n in
      (spend_sync_events to db phase events, n)
  end.

(** The backfill; each pass moves [backfill_end] down a batch, so the number of
    batches below it is fuel enough. *)
Fixpoint backfill_loop (fuel : nat) (target_size floor backfill_end : Z) (db : HashTableDb)
    (phase : ServerPhase) (n : M) : result SpendServerError HashTableDb * ServerPhase * M :=
  match fuel with
  | O => (Ok db, phase, n)
  | S fuel =>
      if (ht_num_entries db <? target_size) && (floor <=? backfill_end) then
        let backfill_start := Z.max (saturating_sub backfill_end (BACKFILL_BATCH - 1)) floor in
        match spend_sync_range backfill_start backfill_end db None phase n with
        | (Err e, phase, n) => (Err e, phase, n)
        | (Ok db, phase, n) =>
            if backfill_start =? floor then (Ok db, phase, n)
            else backfill_loop fuel target_size floor (saturating_sub backfill_start 1) db phase n
        end
      else (Ok db, phase, n)
  end.

Definition backfill_fuel (backfill_end : Z) : nat := S (Z.to_nat (backfill_end / BACKFILL_BATCH)).

(** From the loaded snapshot, if there is one, to a table at the tip: the forward
    synchronization and the backfill of [run] and [run_sync_only]. *)
Definition fill_table (target_size : Z) (network : option ZcashNetwork) (tip_height : Z)
    (snapshot : option HashTableDb) (phase : ServerPhase) (n : M) :
    result SpendServerError HashTableDb * ServerPhase * M :=
  let db := default HashTableDb_new snapshot in
  let floor := min_sync_height network tip_height in
  let forward_start :=
    match snapshot with
    | Some db => default tip_height ((fun h => wrap64 (h + 1)) <$> nf_latest_height db)
    | None => Z.max (saturating_sub tip_height BACKFILL_BATCH) floor
    end in
  let forward :=
    if forward_start <=? tip_height
    then spend_sync_range forward_start tip_height db None (ServerSyncing forward_start tip_height) n
    else (Ok db, phase, n) in
  match forward with
  | (Err e, phase, n) => (Err e, phase, n)
  | (Ok db, phase, n) =>
      match snapshot with
      | Some _ => (Ok db, phase, n)
      | None =>
          let backfill_end := saturating_sub forward_start 1 in
          backfill_loop (backfill_fuel backfill_end) target_size floor backfill_end db phase n
      end
  end.

End sync.

(** ** Serving *)

Section server.
Context `{XxHash64} `{PirEngine}.

Record SpendPirState := { np_engine_state : pe_state; np_metadata : SpendabilityMetadata }.

Record SpendAppState := {
  na_live_pir : option SpendPirState; na_phase : ServerPhase; na_scenario : YpirScenario }.

Definition spend_scenario : YpirScenario :=
  {| sc_num_items := NUM_BUCKETS; sc_item_size_bits := BUCKET_BYTES * 8 |}.

Definition SpendAppState_new : SpendAppState :=
  {| na_live_pir := None; na_phase := ServerSyncing 0 0; na_scenario := spend_scenario |}.

Definition spend_metadata (db : HashTableDb) : SpendabilityMetadata :=
  {| md_earliest_height := default 0 (earliest_height db); md_latest_height := default 0 (nf_latest_height db);
     md_num_nullifiers := ht_num_entries db; md_num_buckets := NUM_BUCKETS;
     md_phase := ServerServing; md_pool := POOL |}.

Definition spend_rebuild_pir (db : HashTableDb) (scenario : YpirScenario) :
    result SpendServerError SpendPirState :=
  let db_bytes := to_pir_bytes db in
  let? engine_state := map_err SS_PirSetup (pe_setup db_bytes scenario) in
  Ok {| np_engine_state := engine_state; np_metadata := spend_metadata db |}.

(** The handlers: a status and, on success, the body. *)
Record HealthResponse := {
  hr_phase : ServerPhase; hr_height : option Z; hr_nullifier_count : Z; hr_num_blocks : Z }.

Definition spend_health (a : SpendAppState) : HealthResponse :=
  match na_live_pir a with
  | Some p =>
      {| hr_phase := na_phase a; hr_height := Some (md_latest_height (np_metadata p));
         hr_nullifier_count := md_num_nullifiers (np_metadata p);
         hr_num_blocks := md_num_buckets (np_metadata p) |}
  | None => {| hr_phase := na_phase a; hr_height := None; hr_nullifier_count := 0; hr_num_blocks := 0 |}
  end.

Definition spend_route_metadata (a : SpendAppState) : Z * option SpendabilityMetadata :=
  match na_live_pir a with Some p => (200, Some (np_metadata p)) | None => (503, None) end.
Definition spend_route_params (a : SpendAppState) : Z * option YpirScenario := (200, Some (na_scenario a)).
Definition spend_route_public_params (a : SpendAppState) : Z * option (list Z) :=
  match na_live_pir a with
  | Some p => (200, Some (pe_public_params (np_engine_state p)))
  | None => (503, None)
  end.
Definition spend_route_query (a : SpendAppState) (body : list Z) : Z * option (list Z) :=
  match na_live_pir a with
  | None => (503, None)
  | Some p =>
      match pe_answer_query (np_engine_state p) body with
      | Ok response_bytes => (200, Some response_bytes)
      | Err _ => (500, None)
      end
  end.

(** [snapshot_io]; why a snapshot does not load is only logged. *)
Definition save_table (db : HashTableDb) (dir : SnapshotDir) : SnapshotDir := save_file dir (table_to_snapshot db).
Definition load_table (dir : SnapshotDir) : option HashTableDb :=
  match read_final dir with
  | Err _ => None
  | Ok data => match table_from_snapshot data with Ok db => Some db | Err _ => None end
  end.

(** What [run] keeps while it serves. *)
Record SpendServer := {
  ss_table : HashTableDb; ss_app : SpendAppState; ss_dir : SnapshotDir; ss_blocks_since_snapshot : Z }.

(** The rebuild and the store of the live state. *)
Definition publish_table (db : HashTableDb) (app : SpendAppState) (phase : ServerPhase) :
    result SpendServerError SpendAppState :=
  let? pir_state := spend_rebuild_pir db (na_scenario app) in
  Ok {| na_live_pir := Some pir_state; na_phase := phase; na_scenario := na_scenario app |}.

Section start.
Context {M : Type} `{Lwd M} `{LwdStart M}.

(** [run] until it follows: the table is saved before it is evicted. *)
Definition start_server (config : ServerConfig) (dir : SnapshotDir) (n : M) :
    result SpendServerError SpendServer * M :=
  let app := SpendAppState_new in
  match lw_connect n with
  | (Err m, n) => (Err (SS_Ingest (CE_Client m)), n)
  | (Ok _, n) =>
  match lw_latest_block n with
  | (Err m, n) => (Err (SS_Ingest (CE_Client m)), n)
  | (Ok tip_height, n) =>
  match detect_ironwood_network n with
  | (Err e, n) => (Err (SS_Ingest e), n)
  | (Ok network, n) =>
  match fill_table (cf_target_size config) network tip_height (load_table dir) (na_phase app) n with
  | (Err e, _, n) => (Err e, n)
  | (Ok db, _, n) =>
      let dir := save_table db dir in
      let db := evict_to_target db in
      (let? app := publish_table db app ServerServing in
       Ok {| ss_table := db; ss_app := app; ss_dir := dir; ss_blocks_since_snapshot := 0 |}, n)
  end end end end.

(** [run_sync_only]: the table is saved after it is evicted. *)
Definition run_sync_only (config : ServerConfig) (dir : SnapshotDir) (n : M) :
    result SpendServerError (SpendAppState * HashTableDb * SnapshotDir) * M :=
  let app := SpendAppState_new in
  match lw_connect n with
  | (Err m, n) => (Err (SS_Ingest (CE_Client m)), n)
  | (Ok _, n) =>
  match lw_latest_block n with
  | (Err m, n) => (Err (SS_Ingest (CE_Client m)), n)
  | (Ok tip_height, n) =>
  match detect_ironwood_network n with
  | (Err e, n) => (Err (SS_Ingest e), n)
  | (Ok network, n) =>
  match fill_table (cf_target_size config) network tip_height (load_table dir) (na_phase app) n with
  | (Err e, _, n) => (Err e, n)
  | (Ok db, _, n) =>
      let db := evict_to_target db in
      let dir := save_table db dir in
      (let? app := publish_table db app ServerServing in Ok (app, db, dir), n)
  end end end end.

End start.

(** The follow state that [run] gives to [follow]. *)
Definition spend_follow_from (db : HashTableDb) : FollowState :=
  follow_start (default 0 (nf_latest_height db)) (default (replicate 32 0) (nf_latest_block_hash db)) None.

(** One event of the follow channel. *)
Definition spend_follow_event (config : ServerConfig) (s : SpendServer) (event : ChainEvent) :
    result SpendServerError SpendServer :=
  match nf_follow_event (ss_table s) event with
  | (Err e, _) => Err (SS_HashTable e)
  | (Ok _, db) =>
      let blocks_since_snapshot := wrap64 (ss_blocks_since_snapshot s + 1) in
      let? app := publish_table db (ss_app s) (na_phase (ss_app s)) in
      Ok (if cf_snapshot_interval config <=? blocks_since_snapshot
          then {| ss_table := db; ss_app := app; ss_dir := save_table db (ss_dir s);
                  ss_blocks_since_snapshot := 0 |}
          else {| ss_table := db; ss_app := app; ss_dir := ss_dir s;
                  ss_blocks_since_snapshot := blocks_since_snapshot |})
  end.

End server.

(** ** The client *)

Inductive SpendClientError :=
| SC_Http (m : string)
| SC_ServerUnavailable
| SC_InvalidParams (m : string)
| SC_QueryFailed (m : string)
| SC_PublicParamsUnstable
| SC_MalformedResponse (n : Z)
| SC_PoolMismatch (expected actual : string).

(** The metadata as it comes over the wire: an old server leaves the pool out. *)
Record MetadataBody := {
  mb_earliest_height : Z; mb_latest_height : Z; mb_num_nullifiers : Z; mb_num_buckets : Z;
  mb_phase : ServerPhase; mb_pool : option string }.

Definition metadata_of_body (b : MetadataBody) : SpendabilityMetadata :=
  {| md_earliest_height := mb_earliest_height b; md_latest_height := mb_latest_height b;
     md_num_nullifiers := mb_num_nullifiers b; md_num_buckets := mb_num_buckets b;
     md_phase := mb_phase b; md_pool := default legacy_pool (mb_pool b) |}.

(** The network between client and server, which may do anything and may move the
    server on between two requests. *)
Class SpendHttp (S : Type) := {
  sh_params : S -> Reply YpirScenario * S;
  sh_metadata : S -> Reply MetadataBody * S;
  sh_public_params : S -> Reply (list Z) * S;
  sh_query : list Z -> S -> Reply (list Z) * S }.

(** [error_for_status], then the body; and the same after the check for 503. *)
Definition spend_reply {A} (r : Reply A) : result SpendClientError A :=
  match r with
  | Err m => Err (SC_Http m)
  | Ok (status, body) =>
      if (400 <=? status) && (status <? 600) then Err (SC_Http "status")
      else ok_or body (SC_Http "body")
  end.
Definition spend_available {A} (r : Reply A) : result SpendClientError A :=
  match r with
  | Ok (status, _) => if status =? 503 then Err SC_ServerUnavailable else spend_reply r
  | Err _ => spend_reply r
  end.

Section client.
Context `{Ipir} {S : Type} `{!SpendHttp S}.

Record SpendParams := { sp_c1 : list (list Z); sp_epoch : list Z }.

Record SpendClient := {
  sl_scenario : YpirScenario; sl_metadata : SpendabilityMetadata;
  sl_rlwe : RlweParams; sl_ypir : YpirSchemeParams;
  sl_offline_query_polys : list (list Z); sl_published : SpendParams }.

Definition with_published (c : SpendClient) (published : SpendParams) : SpendClient :=
  {| sl_scenario := sl_scenario c; sl_metadata := sl_metadata c; sl_rlwe := sl_rlwe c; sl_ypir := sl_ypir c;
     sl_offline_query_polys := sl_offline_query_polys c; sl_published := published |}.

Definition spend_fetch_public_params (rlwe : RlweParams) (ypir : YpirSchemeParams) (net : S) :
    result SpendClientError SpendParams * S :=
  let '(resp, net) := sh_public_params net in
  (let? bytes := spend_available resp in
   let blocks := db_cols ypir / rlwe_d rlwe in
   let expected := wrap64 (blocks * published_c1_len (rlwe_d rlwe) (rlwe_q rlwe)) in
   if negb (zlen bytes =? expected)
   then Err (SC_InvalidParams "/public-params returned {} bytes, expected {} for {} output blocks")
   else Ok {| sp_c1 := recover_published_c1 bytes (rlwe_d rlwe) blocks (rlwe_q rlwe);
              sp_epoch := public_params_epoch bytes |}, net).

(** The metadata of [connect] and [refresh_metadata]. *)
Definition check_metadata (r : Reply MetadataBody) : result SpendClientError SpendabilityMetadata :=
  let? body := spend_available r in
  let metadata := metadata_of_body body in
  if negb (is_expected_pool metadata) then Err (SC_PoolMismatch POOL (md_pool metadata)) else Ok metadata.

Definition SpendClient_connect (net : S) : result SpendClientError SpendClient * S :=
  match sh_params net with (r, net) =>
  match spend_reply r with
  | Err e => (Err e, net)
  | Ok scenario =>
  match sh_metadata net with (r, net) =>
  match check_metadata r with
  | Err e => (Err e, net)
  | Ok metadata =>
  if sc_item_size_bits scenario <? 2048 * 14
  then (Err (SC_InvalidParams "item_size_bits {} below SimplePIR minimum 28672"), net) else
  match params_for_simplepir (sc_num_items scenario) (sc_item_size_bits scenario) with
  | Err e => (Err (SC_InvalidParams e), net)
  | Ok (rlwe, ypir) =>
  match spend_fetch_public_params rlwe ypir net with
  | (Err e, net) => (Err e, net)
  | (Ok published, net) =>
      (Ok {| sl_scenario := scenario; sl_metadata := metadata; sl_rlwe := rlwe; sl_ypir := ypir;
             sl_offline_query_polys := generate_setup ypir IPIR_SETUP_SEED;
             sl_published := published |}, net)
  end end end end end end.

Definition spend_post_query (query_bytes : list Z) (net : S) : result SpendClientError (list Z) * S :=
  let '(resp, net) := sh_query query_bytes net in
  (match resp with
   | Err m => Err (SC_Http m)
   | Ok (status, body) =>
       if status =? 503 then Err SC_ServerUnavailable
       else if (400 <=? status) && (status <? 600) then Err (SC_QueryFailed "status")
       else ok_or body (SC_Http "body")
   end, net).

Definition spend_generate_query (c : SpendClient) (bucket_idx : Z) (rng : ipir_rng) :
    result SpendClientError (list Z * ipir_seed) :=
  let '(query, packing_keys, seed) := fresh_query (sl_ypir c) (sl_offline_query_polys c) bucket_idx rng in
  let? query_bytes := map_err SC_QueryFailed (serialize_packing_keys packing_keys) in
  Ok (query_bytes ++ to_switched_bytes query (rlwe_q (sl_rlwe c)) (query_bits (sl_ypir c)), seed).

Definition spend_refresh_params (c : SpendClient) (net : S) : result SpendClientError SpendClient * S :=
  let '(r, net) := spend_fetch_public_params (sl_rlwe c) (sl_ypir c) net in
  (let? refreshed := r in Ok (with_published c refreshed), net).

(** One pass of the loop of [ipir_round_trip]: the decoded row, or [None] when the
    response names other parameters than the client holds. *)
Definition spend_attempt (c : SpendClient) (row_idx : Z) (rng : ipir_rng) (net : S) :
    result SpendClientError (option (list Z)) * S :=
  match spend_generate_query c row_idx rng with
  | Err e => (Err e, net)
  | Ok (query_bytes, seed) =>
  let '(r, net) := spend_post_query query_bytes net in
  (let? response_bytes := r in
   let? (epoch, body) := ok_or (split_epoch response_bytes) (SC_MalformedResponse (zlen response_bytes)) in
   Ok (if bool_decide (sp_epoch (sl_published c) = epoch)
       then Some (decode_response seed (sp_c1 (sl_published c)) body) else None), net)
  end.

(** Two attempts, with a refresh of the parameters between them. *)
Definition spend_round_trip (c : SpendClient) (row_idx : Z) (rng rng' : ipir_rng) (net : S) :
    result SpendClientError (list Z) * SpendClient * S :=
  match spend_attempt c row_idx rng net with
  | (Err e, net) => (Err e, c, net)
  | (Ok (Some row), net) => (Ok row, c, net)
  | (Ok None, net) =>
  match spend_refresh_params c net with
  | (Err e, net) => (Err e, c, net)
  | (Ok c, net) =>
  match spend_attempt c row_idx rng' net with
  | (Err e, net) => (Err e, c, net)
  | (Ok (Some row), net) => (Ok row, c, net)
  | (Ok None, net) => (Err SC_PublicParamsUnstable, c, net)
  end end end.

Definition is_spent (c : SpendClient) (nf : Hash) (rng rng' : ipir_rng) (net : S) :
    result SpendClientError (option SpendMetadata) * SpendClient * S :=
  let bucket_idx := hash_to_bucket nf in
  let '(decoded, c, net) := spend_round_trip c bucket_idx rng rng' net in
  (let? decoded := decoded in Ok (scan_bucket_for_nf decoded nf), c, net).

Definition refresh_metadata (c : SpendClient) (net : S) : result SpendClientError SpendClient * S :=
  let '(resp, net) := sh_metadata net in
  (let? metadata := check_metadata resp in
   Ok {| sl_scenario := sl_scenario c; sl_metadata := metadata; sl_rlwe := sl_rlwe c; sl_ypir := sl_ypir c;
         sl_offline_query_polys := sl_offline_query_polys c; sl_published := sl_published c |}, net).

(** [SpendClientBlocking::check_nullifiers], without the progress callback: the
    first failure ends the batch. *)
Fixpoint check_nullifiers (c : SpendClient) (nullifiers : list (Hash * ipir_rng * ipir_rng)) (net : S) :
    result SpendClientError (list (option SpendMetadata)) * SpendClient * S :=
  match nullifiers with
  | [] => (Ok [], c, net)
  | (nf, rng, rng') :: nullifiers =>
      match is_spent c nf rng rng' net with
      | (Err e, c, net) => (Err e, c, net)
      | (Ok meta, c, net) =>
          match check_nullifiers c nullifiers net with
          | (Ok results, c, net) => (Ok (meta :: results), c, net)
          | (Err e, c, net) => (Err e, c, net)
          end
      end
  end.

End client.

(** ** A client and the server it talks to *)

Definition body_of_metadata (m : SpendabilityMetadata) : MetadataBody :=
  {| mb_earliest_height := md_earliest_height m; mb_latest_height := md_latest_height m;
     mb_num_nullifiers := md_num_nullifiers m; mb_num_buckets := md_num_buckets m;
     mb_phase := md_phase m; mb_pool := Some (md_pool m) |}.

(** The network that delivers each request to the server. *)
Definition spend_direct_net `{PirEngine} : SpendHttp SpendAppState := {|
  sh_params a := (Ok (spend_route_params a), a);
  sh_metadata a := (Ok (fst (spend_route_metadata a), body_of_metadata <$> snd (spend_route_metadata a)), a);
  sh_public_params a := (Ok (spend_route_public_params a), a);
  sh_query body a := (Ok (spend_route_query a body), a) |}.

(** The server serves a table that holds the blocks [M]. *)
Definition serves_table `{PirEngine} (M : Blocks) (a : SpendAppState) (ps : SpendPirState) : Prop :=
  exists db, table_of M db /\ spend_rebuild_pir db spend_scenario = Ok ps /\
    na_live_pir a = Some ps /\ na_scenario a = spend_scenario.

(** What a client should be told of a nullifier when the blocks are [M]. *)
Definition tells (M : Blocks) (nf : Hash) (r : option SpendMetadata) : Prop :=
  match r with
  | Some meta => exists h x e, M !! h = Some x /\ e ∈ snd x /\ ne_nullifier e = nf /\ meta = metadata_of e
  | None => ~ spends M nf
  end.

Section end_to_end.
Context `{Ipir} `{PirEngine} `{!EngineRetrieval spend_scenario}.
#[local] Existing Instance spend_direct_net.

Context (rlwe : RlweParams) (ypir : YpirSchemeParams).
Hypothesis Hparams : params_for_simplepir NUM_BUCKETS (BUCKET_BYTES * 8) = Ok (rlwe, ypir).

Definition params_of (st : pe_state) : SpendParams :=
  {| sp_c1 := recover_published_c1 (pe_public_params st) (rlwe_d rlwe) (db_cols ypir / rlwe_d rlwe) (rlwe_q rlwe);
     sp_epoch := public_params_epoch (pe_public_params st) |}.

Definition spend_client_of (metadata : SpendabilityMetadata) (published : SpendParams) : SpendClient :=
  {| sl_scenario := spend_scenario; sl_metadata := metadata; sl_rlwe := rlwe; sl_ypir := ypir;
     sl_offline_query_polys := generate_setup ypir IPIR_SETUP_SEED; sl_published := published |}.

(** What the engine gives for a served table: the size of the parameters, and the
    row of every bucket. *)
Lemma table_engine M a ps :
  serves_table M a ps ->
  zlen (pe_public_params (np_engine_state ps)) =
    wrap64 (db_cols ypir / rlwe_d rlwe * published_c1_len (rlwe_d rlwe) (rlwe_q rlwe)) /\
  forall nf rng query keys seed, nf <> zero_nullifier ->
    fresh_query ypir (generate_setup ypir IPIR_SETUP_SEED) (hash_to_bucket nf) rng = (query, keys, seed) ->
    exists key_bytes body, serialize_packing_keys keys = Ok key_bytes /\
      pe_answer_query (np_engine_state ps)
        (key_bytes ++ to_switched_bytes query (rlwe_q rlwe) (query_bits ypir)) =
        Ok (sp_epoch (params_of (np_engine_state ps)) ++ body) /\
      tells M nf (scan_bucket_for_nf (decode_response seed (sp_c1 (params_of (np_engine_state ps))) body) nf).
Proof.
  intros (db & Ht & Hb & _). unfold spend_rebuild_pir in Hb.
  destruct (pe_setup (to_pir_bytes db) spend_scenario) as [st|m] eqn:Est; [|done]. injection Hb as <-.
  cbn [np_engine_state]. pose proof Ht as (B & _ & Hr). destruct (tp_slots _ _ Hr) as (F & Hh & _).
  destruct (engine_retrieval (scenario := spend_scenario) rlwe ypir (to_pir_bytes db) st BUCKET_BYTES Hparams eq_refl
    (buckets_bytes_ok _ _ Hh) (zlen_buckets _ _ Hh) Est) as [Hlen Hrows]. split; [exact Hlen|].
  intros nf rng query keys seed Hnf Hq.
  destruct (Hrows _ _ _ _ _ (hash_to_bucket_range nf) Hq) as (kb & body & E1 & E2 & E3).
  exists kb, body. split_and!; [done|done|]. apply get_range_Some in E3 as (_ & _ & Hd); [|done].
  cbn [params_of sp_c1]. rewrite Hd.
  exact (spent_scan_exact db M nf _ Ht Hnf).
Qed.

Lemma spend_fetch_serving M a ps :
  serves_table M a ps ->
  spend_fetch_public_params rlwe ypir a = (Ok (params_of (np_engine_state ps)), a).
Proof.
  intros Hs. destruct (table_engine _ _ _ Hs) as [Hl _]. destruct Hs as (db & _ & _ & Hlive & _).
  unfold spend_fetch_public_params. cbn [sh_public_params spend_direct_net].
  unfold spend_route_public_params. rewrite Hlive. cbn. by rewrite Hl, Z.eqb_refl.
Qed.

Lemma spend_connect_serving M a ps :
  serves_table M a ps ->
  SpendClient_connect a = (Ok (spend_client_of (np_metadata ps) (params_of (np_engine_state ps))), a).
Proof.
  intros Hs. pose proof (spend_fetch_serving _ _ _ Hs) as Hf. destruct Hs as (db & _ & Hb & Hlive & Hsc).
  assert (Hm : np_metadata ps = spend_metadata db).
  { unfold spend_rebuild_pir in Hb. by destruct (pe_setup _ _); [injection Hb as <-|]. }
  unfold SpendClient_connect. cbn [sh_params sh_metadata spend_direct_net].
  unfold spend_route_params, spend_route_metadata. rewrite Hlive, Hsc. cbn [spend_reply].
  change ((400 <=? 200) && (200 <? 600)) with false. cbn [ok_or fst snd fmap option_fmap option_map].
  assert (check_metadata (Ok (200, Some (body_of_metadata (np_metadata ps)))) = Ok (np_metadata ps)) as ->.
  { rewrite Hm. reflexivity. }
  change (sc_item_size_bits spend_scenario <? 2048 * 14) with false.
  change (sc_num_items spend_scenario) with NUM_BUCKETS.
  change (sc_item_size_bits spend_scenario) with (BUCKET_BYTES * 8). rewrite Hparams, Hf. reflexivity.
Qed.

(** One attempt against the server: an answer from its table under its own
    parameters. *)
Lemma spend_attempt_serving M a ps metadata published nf rng :
  serves_table M a ps -> nf <> zero_nullifier ->
  exists decoded, spend_attempt (spend_client_of metadata published) (hash_to_bucket nf) rng a =
    (Ok (if bool_decide (sp_epoch published = sp_epoch (params_of (np_engine_state ps)))
         then Some decoded else None), a) /\
    (published = params_of (np_engine_state ps) -> tells M nf (scan_bucket_for_nf decoded nf)).
Proof.
  intros Hs Hnf. destruct (table_engine _ _ _ Hs) as [_ Hrows]. destruct Hs as (db & _ & _ & Hlive & _).
  unfold spend_attempt, spend_generate_query.
  cbn [spend_client_of sl_ypir sl_offline_query_polys sl_rlwe sl_published].
  destruct (fresh_query ypir (generate_setup ypir IPIR_SETUP_SEED) (hash_to_bucket nf) rng)
    as [[query keys] seed] eqn:Eq.
  destruct (Hrows nf rng query keys seed Hnf Eq) as (kb & body & E1 & E2 & E3).
  rewrite E1. cbn [map_err]. unfold spend_post_query. cbn [sh_query spend_direct_net].
  unfold spend_route_query. rewrite Hlive, E2. change (200 =? 503) with false.
  change ((400 <=? 200) && (200 <? 600)) with false. cbn [ok_or]. unfold split_epoch.
  assert (Hl : length (sp_epoch (params_of (np_engine_state ps))) = 8%nat) by apply length_le_bytes.
  rewrite zlen_app. pose proof (zlen_nonneg body). unfold zlen at 1. rewrite Hl.
  change PIR_EPOCH_BYTES with 8. guards. cbn [ok_or].
  rewrite take_app_length', drop_app_length' by (by rewrite Hl).
  eexists. split; [reflexivity|]. intros ->. exact E3.
Qed.

(** With the server's parameters, or after one refresh, the client has the answer. *)
Lemma is_spent_serving M a ps metadata published nf rng rng' :
  serves_table M a ps -> nf <> zero_nullifier ->
  published = params_of (np_engine_state ps) \/ sp_epoch published <> sp_epoch (params_of (np_engine_state ps)) ->
  exists r, is_spent (spend_client_of metadata published) nf rng rng' a =
    (Ok r, spend_client_of metadata (params_of (np_engine_state ps)), a) /\ tells M nf r.
Proof.
  intros Hs Hnf Hpub. unfold is_spent, spend_round_trip.
  destruct (spend_attempt_serving M a ps metadata published nf rng Hs Hnf) as (d & -> & Hd).
  destruct Hpub as [->|Hne].
  - rewrite bool_decide_true by done. eexists. split; [reflexivity|]. by apply Hd.
  - rewrite bool_decide_false by done. unfold spend_refresh_params.
    cbn [spend_client_of sl_rlwe sl_ypir]. rewrite (spend_fetch_serving _ _ _ Hs).
    change (with_published _ ?p) with (spend_client_of metadata p).
    destruct (spend_attempt_serving M a ps metadata (params_of (np_engine_state ps)) nf rng' Hs Hnf)
      as (d' & -> & Hd'). rewrite bool_decide_true by done. eexists. split; [reflexivity|]. by apply Hd'.
Qed.

Lemma check_nullifiers_serving M a ps metadata nfs : forall published,
  serves_table M a ps -> Forall (fun q => fst (fst q) <> zero_nullifier) nfs ->
  published = params_of (np_engine_state ps) \/ sp_epoch published <> sp_epoch (params_of (np_engine_state ps)) ->
  exists rs c, check_nullifiers (spend_client_of metadata published) nfs a = (Ok rs, c, a) /\
    Forall2 (fun q r => tells M (fst (fst q)) r) nfs rs.
Proof.
  induction nfs as [|[[nf rng] rng'] nfs IH]; intros published Hs Hnf Hpub; cbn [check_nullifiers].
  - do 2 eexists. split; [reflexivity|constructor].
  - apply Forall_cons in Hnf as [Hz Hnf].
    destruct (is_spent_serving M a ps metadata published nf rng rng' Hs Hz Hpub) as (r & -> & Ht).
    destruct (IH (params_of (np_engine_state ps)) Hs Hnf (or_introl eq_refl)) as (rs & c & -> & Hall).
    do 2 eexists. split; [reflexivity|]. by constructor.
Qed.

(** C30: the private check of nullifiers is exact.  A client can connect to any server
    that serves a table; whatever table the server has moved on to by the time of
    the queries, so long as changed public parameters have another epoch, every
    batch of (non-zero) nullifiers is answered without an error, and each answer is
    what the blocks of the table the server now serves say: not spent when no block
    spends the nullifier, else the height, first output position and action count
    of an entry that spends it. *)
Theorem spent_check_exact M a ps M' a' ps' nfs :
  serves_table M a ps -> serves_table M' a' ps' ->
  pe_public_params (np_engine_state ps) = pe_public_params (np_engine_state ps') \/
    public_params_epoch (pe_public_params (np_engine_state ps)) <>
    public_params_epoch (pe_public_params (np_engine_state ps')) ->
  Forall (fun q => fst (fst q) <> zero_nullifier) nfs ->
  exists c, SpendClient_connect a = (Ok c, a) /\
    exists rs c', check_nullifiers c nfs a' = (Ok rs, c', a') /\
      Forall2 (fun q r => tells M' (fst (fst q)) r) nfs rs.
Proof.
  intros Hs Hs' Hpub Hnf. eexists. split; [by eapply spend_connect_serving|].
  eapply check_nullifiers_serving; [done|done|]. destruct Hpub as [He|Hne]; [left|by right].
  unfold params_of. by rewrite He.
Qed.

End end_to_end.

(** ** The blocks of a chain as the table holds them *)

Definition block_actions (b : CompactBlock) : Z := zlen (concat (ctx_ironwood_actions <$> kb_vtx b)).

(** The block says how large the note tree is after it. *)
Definition sized (b : CompactBlock) : Prop :=
  exists size, kb_tree_size b = Some size /\ block_actions b <= size < 2 ^ 32.

(** The nullifiers of a block with their positions. *)
Definition block_meta (b : CompactBlock) : list NullifierWithMeta := fst (extract_nullifiers_with_meta b None).

Lemma sum_actions vtx : forall acc,
  0 <= acc -> acc + zlen (concat (ctx_ironwood_actions <$> vtx)) < 2 ^ 32 ->
  foldl (fun sum tx => wrap32 (sum + wrap32 (zlen (ctx_ironwood_actions tx)))) acc vtx =
  acc + zlen (concat (ctx_ironwood_actions <$> vtx)).
Proof.
  induction vtx as [|tx vtx IH]; intros acc Ha Hlt; cbn [foldl fmap list_fmap concat] in *; [unfold zlen; cbn; lia|].
  rewrite zlen_app in *. pose proof (zlen_nonneg (ctx_ironwood_actions tx)).
  pose proof (zlen_nonneg (concat (ctx_ironwood_actions <$> vtx))).
  assert (wrap32 (acc + wrap32 (zlen (ctx_ironwood_actions tx))) = acc + zlen (ctx_ironwood_actions tx)) as ->.
  { unfold wrap32. rewrite (Z.mod_small (zlen _)), Z.mod_small by (unfold fmap in *; lia). done. }
  unfold fmap in *. rewrite IH by lia. lia.
Qed.

Lemma no_actions vtx pos : concat (ctx_ironwood_actions <$> vtx) = [] -> block_nullifiers pos vtx = [].
Proof.
  revert pos. induction vtx as [|tx vtx IH]; intros pos; cbn [fmap list_fmap concat block_nullifiers]; [done|].
  intros [Ht Hv]%app_eq_nil. unfold transaction_nullifiers. rewrite Ht. cbn [fmap list_fmap concat app].
  by apply IH.
Qed.

(** A block that says its tree size yields the same nullifiers wherever the
    synchronization started. *)
Lemma sized_meta b prev : sized b -> extract_nullifiers_with_meta b prev = (block_meta b, ironwood_tree_size b).
Proof.
  intros (size & Hsz & Hle). unfold block_meta, extract_nullifiers_with_meta. cbn [fst]. f_equal.
  unfold block_actions in Hle. pose proof (zlen_nonneg (concat (ctx_ironwood_actions <$> kb_vtx b))).
  rewrite sum_actions, Z.add_0_l by lia. unfold ironwood_tree_size. rewrite Hsz.
  destruct (0 <? size) eqn:E; bool_prop; cbn [mbind option_bind].
  - unfold checked_sub64. rewrite (proj2 (Z.leb_le _ _)) by lia. done.
  - rewrite !no_actions; [done| |]; apply nil_length_inv; unfold zlen in *; lia.
Qed.

(** The blocks added to those a table holds. *)
Definition add_block (M : Blocks) (b : CompactBlock) : Blocks :=
  <[kb_height b := (to_hash_array (kb_hash b), entry_of (wrap32 (kb_height b)) <$> block_meta b)]> M.
Definition add_blocks (M : Blocks) (bs : list CompactBlock) : Blocks := foldl add_block M bs.
Definition chain_table (bs : list CompactBlock) : Blocks := add_blocks ∅ bs.
Definition count_nullifiers (bs : list CompactBlock) : Z := foldr (fun b n => zlen (block_meta b) + n) 0 bs.

Lemma count_nullifiers_app xs ys : count_nullifiers (xs ++ ys) = count_nullifiers xs + count_nullifiers ys.
Proof. unfold count_nullifiers. induction xs as [|b xs IH]; [done|]. cbn [app foldr]. lia. Qed.

Lemma count_nullifiers_nonneg bs : 0 <= count_nullifiers bs.
Proof.
  unfold count_nullifiers. induction bs as [|b bs IH]; [done|]. cbn [foldr].
  pose proof (zlen_nonneg (block_meta b)). lia.
Qed.

Definition entry_at (b : CompactBlock) : Hash * list NullifierEntry :=
  (to_hash_array (kb_hash b), entry_of (wrap32 (kb_height b)) <$> block_meta b).

Lemma lookup_add_blocks bs : forall M h x,
  NoDup (kb_height <$> bs) ->
  add_blocks M bs !! h = Some x <->
  (exists b, b ∈ bs /\ kb_height b = h /\ x = entry_at b) \/ (M !! h = Some x /\ h ∉ kb_height <$> bs).
Proof.
  induction bs as [|b bs IH]; intros M h x; cbn [add_blocks foldl fmap list_fmap].
  - intros _. split; [intros; right; split; [done|apply not_elem_of_nil]|].
    intros [(b & []%elem_of_nil & _)|[? _]]; done.
  - intros [Hn Hd]%NoDup_cons. change (foldl add_block (add_block M b) bs) with (add_blocks (add_block M b) bs).
    rewrite IH by done. unfold add_block. rewrite lookup_insert_Some, not_elem_of_cons. split.
    + intros [(b' & Hb & Hh & Hx)|[[[Hh Hx]|[Hh Hx]] Hno]].
      * left. exists b'. by rewrite elem_of_cons; auto.
      * left. exists b. by rewrite elem_of_cons; auto.
      * right. by auto.
    + intros [(b' & [->|Hb]%elem_of_cons & Hh & Hx)|[Hx [Hh Hno]]].
      * right. split; [by left|]. by rewrite <- Hh.
      * left. by exists b'.
      * right. split; [right; by auto|done].
Qed.

(** The blocks [bs] are new to [M] and to each other. *)
Record new_blocks (M : Blocks) (bs : list CompactBlock) : Prop := {
  nw_heights : NoDup (kb_height <$> bs);
  nw_hashes : NoDup ((fun b => to_hash_array (kb_hash b)) <$> bs);
  nw_fresh b : b ∈ bs -> fresh_block M (kb_height b) (to_hash_array (kb_hash b)) }.

Lemma new_blocks_cons M b bs : new_blocks M (b :: bs) ->
  fresh_block M (kb_height b) (to_hash_array (kb_hash b)) /\ new_blocks (add_block M b) bs.
Proof.
  intros [H1 H2 H3]. rewrite !fmap_cons in *. apply NoDup_cons in H1 as [Hn1 H1]. apply NoDup_cons in H2 as [Hn2 H2].
  split; [apply H3, list_elem_of_here|]. constructor; [done|done|]. intros c Hc. destruct (H3 c) as [Hf1 Hf2]; [by right|].
  unfold add_block. split.
  - rewrite lookup_insert_ne; [done|]. intros E. apply Hn1. rewrite E. apply list_elem_of_fmap. by exists c.
  - intros h x [[_ <-]|[_ Hx]]%lookup_insert_Some; [|by eapply Hf2]. cbn [fst]. intros E. apply Hn2. rewrite E.
    apply list_elem_of_fmap. by exists c.
Qed.

Lemma total_add_block M b : M !! kb_height b = None -> total (add_block M b) = total M + zlen (block_meta b).
Proof.
  intros Hn. unfold total, add_block. rewrite map_fold_insert_L; [|intros; lia|done]. cbn [snd].
  unfold zlen. rewrite length_fmap. lia.
Qed.

Lemma total_add_blocks bs : forall M, new_blocks M bs -> total (add_blocks M bs) = total M + count_nullifiers bs.
Proof.
  induction bs as [|b bs IH]; intros M Hn; cbn [add_blocks foldl count_nullifiers foldr]; [lia|].
  destruct (new_blocks_cons _ _ _ Hn) as [[Hf _] Hn']. specialize (IH _ Hn').
  unfold add_blocks, count_nullifiers in IH. rewrite IH, total_add_block by done. lia.
Qed.

(** Blocks of a chain in two parts, the later ones added first. *)
Lemma add_earlier xs ys :
  NoDup (kb_height <$> xs ++ ys) -> add_blocks (chain_table ys) xs = chain_table (xs ++ ys).
Proof.
  intros Hd. rewrite fmap_app in Hd. apply NoDup_app in Hd as (Hx & Hxy & Hy). apply map_eq. intros h. apply option_eq. intros x.
  unfold chain_table. rewrite !lookup_add_blocks; [|rewrite fmap_app; by apply NoDup_app|done|done].
  rewrite lookup_empty, fmap_app. split.
  - intros [(b & Hb & He)|[[(b & Hb & He)|[? _]] _]]; [left; exists b; split; [apply elem_of_app; by left|done]
      |left; exists b; split; [apply elem_of_app; by right|done]|done].
  - intros [(b & [Hb|Hb]%elem_of_app & Hh & He)|[? _]]; [left; by exists b| |done].
    right. split; [left; by exists b|]. intros Hin. apply (Hxy h Hin). subst h. apply list_elem_of_fmap. by exists b.
Qed.

Lemma new_earlier xs ys :
  NoDup (kb_height <$> xs ++ ys) -> NoDup ((fun b => to_hash_array (kb_hash b)) <$> xs ++ ys) ->
  new_blocks (chain_table ys) xs.
Proof.
  rewrite !fmap_app. intros (Hx & Hxy & Hy)%NoDup_app (Gx & Gxy & Gy)%NoDup_app. constructor; [done|done|].
  intros b Hb. unfold chain_table. split.
  - apply eq_None_not_Some. intros [x Hl]. apply lookup_add_blocks in Hl as [(c & Hc & Hh & _)|[? _]]; [|done|done].
    apply (Hxy (kb_height b)); [apply list_elem_of_fmap; by exists b|]. rewrite <- Hh. apply list_elem_of_fmap. by exists c.
  - intros h x [(c & Hc & Hh & ->)|[? _]]%lookup_add_blocks; [|done|done]. cbn [entry_at fst]. intros E.
    apply (Gxy (to_hash_array (kb_hash b))); [apply list_elem_of_fmap; by exists b|]. rewrite <- E.
    apply list_elem_of_fmap. by exists c.
Qed.

(** ** Filling the table *)

(** The one way filling a table can fail: a bucket without a free slot. *)
Definition filled {A} (r : result SpendServerError A) (P : A -> Prop) : Prop :=
  match r with
  | Err e => exists b, e = SS_HashTable (BucketOverflow b)
  | Ok a => P a
  end.

Lemma sync_events_fill to bs : forall T db phase prev,
  table_of T db -> new_blocks T bs -> Forall sized bs ->
  Forall (fun b => Forall valid_nullifier (block_meta b)) bs -> total T + count_nullifiers bs < u64_bound ->
  filled (fst (spend_sync_events to db phase (fst (nf_sync_blocks prev bs)))) (table_of (add_blocks T bs)).
Proof.
  induction bs as [|b bs IH]; intros T db phase prev Ht Hn Hs Hv Hc; [done|].
  apply Forall_cons in Hs as [Hs1 Hs]. apply Forall_cons in Hv as [Hv1 Hv].
  destruct (new_blocks_cons _ _ _ Hn) as [Hf Hn']. cbn [count_nullifiers foldr] in Hc.
  change (foldr (fun b n => zlen (block_meta b) + n) 0 bs) with (count_nullifiers bs) in Hc.
  pose proof (count_nullifiers_nonneg bs). pose proof (zlen_nonneg (block_meta b)).
  cbn [nf_sync_blocks]. rewrite (sized_meta b prev Hs1).
  destruct (nf_sync_blocks (ironwood_tree_size b) bs) as [events last] eqn:Ee.
  cbn [fst spend_sync_events nb_height nb_hash nb_nullifiers].
  destruct (insert_block db (kb_height b) (to_hash_array (kb_hash b)) (block_meta b)) as [[[]|e] db'] eqn:Ei.
  - pose proof (table_of_insert _ _ _ _ _ _ Ht Hf Hv1 ltac:(lia) Ei) as Ht'.
    change (add_blocks T (b :: bs)) with (add_blocks (add_block T b) bs).
    specialize (IH (add_block T b) db' (if kb_height b mod 1000 =? 0 then ServerSyncing (kb_height b) to else phase)
      (ironwood_tree_size b) Ht' Hn' Hs Hv). rewrite Ee in IH. apply IH.
    rewrite total_add_block by apply Hf. lia.
  - cbn [fst filled]. apply insert_block_error in Ei as [bk ->]. by exists bk.
Qed.

Section fill.
Context {M : Type} `{Lwd M} `{LwdStart M}.

(** The node answers, and serves [blocks] from height [first] on: each says its tree
    size, and their hashes and (non-zero) nullifiers have their widths. *)
Record nf_chain (n : M) (first : Z) (blocks : list CompactBlock) : Prop := {
  nc_connect : lw_connect n = (Ok tt, n);
  nc_serves : serves_blocks n first blocks;
  nc_first : 1 <= first;
  nc_last : first + zlen blocks < u64_bound - SYNC_BATCH_SIZE;
  nc_sized : Forall sized blocks;
  nc_valid : Forall (fun b => Forall valid_nullifier (block_meta b)) blocks;
  nc_hashes : NoDup ((fun b => to_hash_array (kb_hash b)) <$> blocks);
  nc_small : count_nullifiers blocks < u64_bound }.

Lemma chain_heights n first blocks : nf_chain n first blocks -> kb_height <$> blocks = seqZ first (zlen blocks).
Proof.
  intros Hc. destruct (nc_serves _ _ _ Hc) as [Hh _]. apply list_eq. intros i. rewrite list_lookup_fmap.
  destruct (blocks !! i) as [b|] eqn:E; cbn [fmap option_fmap option_map].
  - rewrite lookup_seqZ_lt; [by rewrite (Hh _ _ E)|]. apply lookup_lt_Some in E. unfold zlen. lia.
  - symmetry. apply lookup_seqZ_ge. apply lookup_ge_None in E. unfold zlen. lia.
Qed.

Lemma chain_heights_NoDup n first blocks k :
  nf_chain n first blocks -> NoDup (kb_height <$> drop k blocks).
Proof.
  intros Hc. rewrite fmap_drop, (chain_heights _ _ _ Hc).
  apply sublist_NoDup with (seqZ first (zlen blocks)); [apply NoDup_seqZ|apply sublist_drop].
Qed.

Lemma chain_hashes_NoDup n first blocks k :
  nf_chain n first blocks -> NoDup ((fun b => to_hash_array (kb_hash b)) <$> drop k blocks).
Proof. intros Hc. rewrite fmap_drop. eapply sublist_NoDup; [exact (nc_hashes _ _ _ Hc)|apply sublist_drop]. Qed.

(** One range of heights: its blocks are added to the table. *)
Lemma sync_range_fill n first blocks i j T db phase :
  nf_chain n first blocks -> (i <= j <= length blocks)%nat -> table_of T db ->
  new_blocks T (take (j - i) (drop i blocks)) ->
  total T + count_nullifiers (take (j - i) (drop i blocks)) < u64_bound ->
  exists r phase', spend_sync_range (first + Z.of_nat i) (first + Z.of_nat j - 1) db None phase n = (r, phase', n) /\
    filled r (table_of (add_blocks T (take (j - i) (drop i blocks)))).
Proof.
  intros Hc Hij Ht Hn Hb. unfold spend_sync_range. destruct (_ <? _) eqn:E; bool_prop.
  - replace (j - i)%nat with 0%nat by lia. rewrite take_0. do 2 eexists. split; [reflexivity|done].
  - rewrite (nc_connect _ _ _ Hc). unfold nf_sync.
    pose proof (nc_first _ _ _ Hc). pose proof (nc_last _ _ _ Hc).
    rewrite (sync_with_exact _ _ _ first blocks)
      by (apply nf_sync_blocks_in_order || apply (nc_serves _ _ _ Hc) || (unfold zlen in *; lia)).
    replace (Z.to_nat (first + Z.of_nat j - 1 - (first + Z.of_nat i) + 1)) with (j - i)%nat by lia.
    replace (Z.to_nat (first + Z.of_nat i - first)) with i by lia.
    destruct (spend_sync_events _ _ _ _) as [r phase'] eqn:Er. do 2 eexists. split; [reflexivity|].
    pose proof (sync_events_fill (first + Z.of_nat j - 1) (take (j - i) (drop i blocks)) T db phase None Ht Hn) as Hf.
    rewrite Er in Hf. apply Hf; [| |done]; apply Forall_take, Forall_drop; apply Hc.
Qed.

(** The blocks from [i] on, once those from [j] on are there. *)
Lemma drop_split (blocks : list CompactBlock) i j :
  (i <= j)%nat -> take (j - i) (drop i blocks) ++ drop j blocks = drop i blocks.
Proof.
  intros Hij. replace j with (i + (j - i))%nat at 2 by lia. rewrite <- drop_drop. apply take_drop.
Qed.

Lemma count_drop (blocks : list CompactBlock) k : count_nullifiers (drop k blocks) <= count_nullifiers blocks.
Proof.
  rewrite <- (take_drop k blocks) at 2. rewrite count_nullifiers_app.
  pose proof (count_nullifiers_nonneg (take k blocks)). lia.
Qed.

Lemma chain_table_total n first blocks k :
  nf_chain n first blocks -> total (chain_table (drop k blocks)) = count_nullifiers (drop k blocks).
Proof.
  intros Hc. unfold chain_table. rewrite total_add_blocks; [done|]. apply (new_earlier (drop k blocks) []).
  - rewrite app_nil_r. by eapply chain_heights_NoDup.
  - rewrite app_nil_r. by eapply chain_hashes_NoDup.
Qed.

Lemma earlier_fill n first blocks i j db phase :
  nf_chain n first blocks -> (i <= j <= length blocks)%nat -> table_of (chain_table (drop j blocks)) db ->
  exists r phase', spend_sync_range (first + Z.of_nat i) (first + Z.of_nat j - 1) db None phase n = (r, phase', n) /\
    filled r (table_of (chain_table (drop i blocks))).
Proof.
  intros Hc Hij Ht. pose proof (drop_split blocks i j ltac:(lia)) as Hd.
  pose proof (chain_heights_NoDup _ _ _ i Hc) as H1. pose proof (chain_hashes_NoDup _ _ _ i Hc) as H2.
  rewrite <- Hd in H1, H2.
  destruct (sync_range_fill n first blocks i j _ db phase Hc Hij Ht) as (r & phase' & E & Hf).
  - by apply new_earlier.
  - rewrite (chain_table_total _ _ _ _ Hc), Z.add_comm, <- count_nullifiers_app, Hd.
    pose proof (count_drop blocks i). pose proof (nc_small _ _ _ Hc). lia.
  - rewrite add_earlier, Hd in Hf by done. by exists r, phase'.
Qed.

(** What a fill without a snapshot ends with: the blocks from some height to the
    tip, and either the first height was reached or there are enough nullifiers. *)
Definition deep_enough (target_size : Z) (blocks : list CompactBlock) (k : nat) (db : HashTableDb) : Prop :=
  (k <= length blocks)%nat /\ table_of (chain_table (drop k blocks)) db /\
  (k = 0%nat \/ target_size <= ht_num_entries db).

Lemma backfill_fills n first blocks target fuel : forall k db phase,
  nf_chain n first blocks -> (k <= length blocks)%nat -> table_of (chain_table (drop k blocks)) db ->
  (first + Z.of_nat k - 1) / BACKFILL_BATCH < Z.of_nat fuel ->
  exists r phase', backfill_loop fuel target first (first + Z.of_nat k - 1) db phase n = (r, phase', n) /\
    filled r (fun db => exists k', deep_enough target blocks k' db).
Proof.
  change BACKFILL_BATCH with 50000. induction fuel as [|fuel IH]; intros k db phase Hc Hk Ht Hfuel;
    pose proof (nc_first _ _ _ Hc) as Hfirst.
  { pose proof (Z.div_pos (first + Z.of_nat k - 1) 50000). lia. }
  cbn [backfill_loop]. destruct ((ht_num_entries db <? target) && (first <=? first + Z.of_nat k - 1)) eqn:E.
  2:{ do 2 eexists. split; [reflexivity|]. exists k. split_and!; [done|done|].
      apply andb_false_iff in E as [E|E]; bool_prop; [right; lia|left; lia]. }
  apply andb_true_iff in E as [_ E]. bool_prop. change BACKFILL_BATCH with 50000.
  set (start := Z.max (saturating_sub (first + Z.of_nat k - 1) (50000 - 1)) first).
  assert (Hst : first <= start <= first + Z.of_nat k - 1) by (unfold start, saturating_sub; lia).
  set (i := Z.to_nat (start - first)).
  assert (Hi : first + Z.of_nat i = start) by lia.
  destruct (earlier_fill n first blocks i k db phase Hc ltac:(lia) Ht) as (r & phase' & Er & Hf).
  rewrite Hi in Er. rewrite Er.
  destruct r as [db'|e]; [|do 2 eexists; split; [reflexivity|exact Hf]]. cbn [filled] in Hf.
  destruct (start =? first) eqn:Es; bool_prop.
  - do 2 eexists. split; [reflexivity|]. exists i. split_and!; [lia|done|left; lia].
  - replace (saturating_sub start 1) with (first + Z.of_nat i - 1) by (unfold saturating_sub; lia).
    apply IH; [done|lia|done|].
    assert (start = first + Z.of_nat k - 1 - 49999) as Hs by (unfold start, saturating_sub in *; lia).
    replace (first + Z.of_nat k - 1) with (first + Z.of_nat i - 1 + 1 * 50000) in Hfuel by lia.
    rewrite Z.div_add in Hfuel by lia. lia.
Qed.

Lemma fill_from_tip n network tip blocks target phase :
  let first := min_sync_height network tip in
  nf_chain n first blocks -> tip = first + zlen blocks - 1 ->
  exists r phase', fill_table target network tip None phase n = (r, phase', n) /\
    filled r (fun db => exists k, deep_enough target blocks k db).
Proof.
  intros first Hc Htip. pose proof (nc_first _ _ _ Hc) as Hfirst. unfold fill_table. fold first. cbn [default from_option id].
  change BACKFILL_BATCH with 50000. set (start := Z.max (saturating_sub tip 50000) first).
  assert (Hst : first <= start <= Z.max tip first) by (unfold start, saturating_sub; unfold zlen in *; lia).
  set (i := Z.to_nat (start - first)). assert (Hi : start = first + Z.of_nat i) by lia.
  assert (Hil : (i <= length blocks)%nat) by (unfold zlen in *; lia).
  assert (Hback : saturating_sub start 1 = first + Z.of_nat i - 1) by (unfold saturating_sub; lia).
  rewrite Hback. assert (Hfuel : (first + Z.of_nat i - 1) / BACKFILL_BATCH <
    Z.of_nat (backfill_fuel (first + Z.of_nat i - 1))).
  { unfold backfill_fuel. pose proof (Z.div_pos (first + Z.of_nat i - 1) BACKFILL_BATCH). lia. }
  assert (Hnil : table_of (chain_table (drop (length blocks) blocks)) HashTableDb_new)
    by (rewrite drop_all; apply table_of_new).
  destruct (start <=? tip) eqn:E; bool_prop.
  - destruct (earlier_fill n first blocks i (length blocks) HashTableDb_new (ServerSyncing start tip) Hc
      ltac:(lia) Hnil) as (r & phase' & Er & Hf).
    change (Z.of_nat (length blocks)) with (zlen blocks) in Er. rewrite <- Hi, <- Htip in Er. rewrite Er.
    destruct r as [db|e]; [|do 2 eexists; split; [reflexivity|exact Hf]].
    by apply (backfill_fills n first blocks target _ i).
  - assert (i = length blocks) as Hl by (unfold zlen in *; lia). rewrite <- Hl in Hnil.
    by apply (backfill_fills n first blocks target _ i).
Qed.

(** C32: without a snapshot the table is filled as far back as needed.  When the node
    serves the chain from the first height to its tip, filling an empty table ends,
    and unless some bucket has no free slot it ends with a table that holds exactly
    the nullifiers of the blocks from some height to the tip; either that height is
    the lowest there is, or the table has the target number of nullifiers. *)
Theorem startup_fills_table n network tip blocks target phase :
  let first := min_sync_height network tip in
  nf_chain n first blocks -> tip = first + zlen blocks - 1 ->
  exists r phase', fill_table target network tip None phase n = (r, phase', n) /\
    filled r (fun db => exists k, deep_enough target blocks k db).
Proof. apply fill_from_tip. Qed.

(** ** Resuming from a snapshot *)

Lemma greatest_max keys k m : k ∈ keys -> greatest keys = Some m -> k <= m.
Proof.
  revert m. induction keys as [|a keys IH]; intros m; [by intros []%elem_of_nil|].
  cbn [greatest foldr]. fold (greatest keys). intros [->|Hk]%elem_of_cons.
  - destruct (greatest keys); intros [= <-]; lia.
  - destruct (greatest keys) as [m'|] eqn:E; intros [= <-]; [specialize (IH m' Hk eq_refl); lia|].
    destruct keys; [by apply elem_of_nil in Hk|]. cbn in E. done.
Qed.

Lemma greatest_is keys m : m ∈ keys -> (forall k, k ∈ keys -> k <= m) -> greatest keys = Some m.
Proof.
  intros Hm Hle. destruct (greatest keys) as [m'|] eqn:E.
  - pose proof (greatest_max _ _ _ Hm E). apply greatest_elem in E. specialize (Hle _ E). f_equal. lia.
  - destruct keys; [by apply elem_of_nil in Hm|]. cbn in E. done.
Qed.

Lemma table_of_latest T db h x :
  table_of T db -> T !! h = Some x -> (forall h', is_Some (T !! h') -> h' <= h) -> nf_latest_height db = Some h.
Proof.
  intros (B & -> & Hr) Hx Hle. unfold nf_latest_height.
  assert (Hd : forall h, h ∈ elements (dom (ht_block_index db)) <-> is_Some (view B !! h)).
  { intros h'. rewrite elem_of_elements, elem_of_dom, (tp_index _ _ Hr). unfold view. rewrite !lookup_fmap, !fmap_is_Some. done. }
  apply greatest_is; [apply Hd; by eexists|]. intros h' Hh'. apply Hle. by apply Hd.
Qed.

(** A saved table loads as a table of the same blocks. *)
Lemma load_saved `{XxHash64Laws} T db dir :
  table_of T db -> (forall h x, T !! h = Some x -> u64 h /\ zlen (fst x) = 32) ->
  total T < 2 ^ 32 -> Z.of_nat (size T) < 2 ^ 32 ->
  exists db', load_table (save_table db dir) = Some db' /\ table_of T db'.
Proof.
  intros (B & HT & Hr) Hb Ht Hs. exists (restored db). split.
  - unfold load_table, save_table. rewrite read_saved.
    rewrite (from_to_table B db Hr); [done|]. by eapply view_small.
  - exists B. split; [done|by apply restored_repr].
Qed.

Lemma chain_part_lookup n first blocks k j h x :
  nf_chain n first blocks ->
  chain_table (take (j - k) (drop k blocks)) !! h = Some x ->
  first + Z.of_nat k <= h < first + Z.of_nat j /\ h < first + zlen blocks /\ zlen (fst x) = 32.
Proof.
  intros Hc Hx. destruct (nc_serves _ _ _ Hc) as [Hh _].
  apply lookup_add_blocks in Hx as [(b & Hb & <- & ->)|[Hx _]]; [|by rewrite lookup_empty in Hx|].
  - apply list_elem_of_lookup in Hb as [i Hi]. apply lookup_take_Some in Hi as [Hi Hij].
    rewrite lookup_drop in Hi. rewrite (Hh _ _ Hi). apply lookup_lt_Some in Hi.
    split_and!; [lia|lia|unfold zlen; lia|]. unfold entry_at, to_hash_array, into_array, zlen. cbn [fst].
    by rewrite length_resize.
  - rewrite fmap_take. eapply sublist_NoDup; [by eapply chain_heights_NoDup|apply sublist_take].
Qed.

Lemma size_add_blocks bs : forall T, (size (add_blocks T bs) <= size T + length bs)%nat.
Proof.
  induction bs as [|b bs IH]; intros T; cbn [add_blocks foldl length]; [lia|].
  specialize (IH (add_block T b)). unfold add_blocks in IH.
  assert (size (add_block T b) <= S (size T))%nat; [|lia].
  unfold add_block. rewrite map_size_insert. destruct (T !! _); cbn; lia.
Qed.

(** A restart resumes.  When a table of the blocks from one height to another was
    saved, a server that starts with the snapshot fetches exactly the blocks after
    it: unless some bucket has no free slot, its table then holds the nullifiers of
    all blocks from the snapshot's first to the tip, each once. *)
Theorem restart_resumes `{XxHash64Laws} n network first tip blocks k j db dir target phase :
  nf_chain n first blocks -> (k < j <= length blocks)%nat -> tip = first + zlen blocks - 1 ->
  table_of (chain_table (take (j - k) (drop k blocks))) db ->
  count_nullifiers blocks < 2 ^ 32 -> zlen blocks < 2 ^ 32 ->
  exists r phase', fill_table target network tip (load_table (save_table db dir)) phase n = (r, phase', n) /\
    filled r (table_of (chain_table (drop k blocks))).
Proof.
  intros Hc Hkj Htip Ht Hcount Hlen. pose proof (nc_first _ _ _ Hc) as Hfirst. pose proof (nc_last _ _ _ Hc) as Hlast.
  set (xs := take (j - k) (drop k blocks)) in *. pose proof (drop_split blocks k j ltac:(lia)) as Hd. fold xs in Hd.
  assert (Hperm : drop j blocks ++ xs ≡ₚ drop k blocks) by (rewrite <- Hd; apply Permutation_app_comm).
  assert (Hnew : new_blocks (chain_table xs) (drop j blocks)).
  { apply new_earlier; rewrite Hperm; [by eapply chain_heights_NoDup|by eapply chain_hashes_NoDup]. }
  assert (Hnx : new_blocks ∅ xs).
  { apply (new_earlier xs []); rewrite app_nil_r; unfold xs; rewrite fmap_take;
      (eapply sublist_NoDup; [|apply sublist_take]); [by eapply chain_heights_NoDup|by eapply chain_hashes_NoDup]. }
  assert (Hxs : total (chain_table xs) = count_nullifiers xs) by (unfold chain_table; by rewrite total_add_blocks).
  pose proof (count_drop blocks k) as Hck. rewrite <- Hd, count_nullifiers_app in Hck.
  pose proof (count_nullifiers_nonneg xs). pose proof (count_nullifiers_nonneg (drop j blocks)).
  destruct (load_saved (chain_table xs) db dir Ht) as (db' & -> & Ht').
  { intros h x Hx. apply (chain_part_lookup n first) in Hx; [|done]. unfold u64. split; [|apply Hx].
    unfold u64_bound in *. change SYNC_BATCH_SIZE with 10000 in *. lia. }
  { rewrite Hxs. lia. }
  { pose proof (size_add_blocks xs ∅) as Hsz. rewrite map_size_empty in Hsz. unfold chain_table.
    assert (length xs <= length blocks)%nat by (unfold xs; rewrite length_take, length_drop; lia). unfold zlen in *. lia. }
  destruct (lookup_lt_is_Some_2 blocks (j - 1)) as [b Hb]; [lia|].
  assert (Hlatest : nf_latest_height db' = Some (first + Z.of_nat j - 1)).
  { eapply table_of_latest; [exact Ht'| |].
    - apply lookup_add_blocks; [apply Hnx|]. left. exists b. split_and!; [| |reflexivity].
      + apply list_elem_of_lookup. exists (j - 1 - k)%nat. unfold xs. rewrite lookup_take_lt, lookup_drop by lia.
        by replace (k + (j - 1 - k))%nat with (j - 1)%nat by lia.
      + destruct (nc_serves _ _ _ Hc) as [Hh _]. rewrite (Hh _ _ Hb). lia.
    - intros h' [x Hx]. apply (chain_part_lookup n first) in Hx; [lia|done]. }
  unfold fill_table. rewrite Hlatest. cbn [default from_option id fmap option_fmap option_map].
  rewrite wrap64_small by (unfold u64_bound in *; change SYNC_BATCH_SIZE with 10000 in *; unfold zlen in *; lia).
  replace (first + Z.of_nat j - 1 + 1) with (first + Z.of_nat j) by lia.
  assert (Hall : add_blocks (chain_table xs) (drop j blocks) = chain_table (drop k blocks)).
  { unfold chain_table. unfold add_blocks. by rewrite <- foldl_app, Hd. }
  destruct (_ <=? tip) eqn:E; bool_prop.
  - destruct (sync_range_fill n first blocks j (length blocks) (chain_table xs) db'
      (ServerSyncing (first + Z.of_nat j) tip) Hc ltac:(lia) Ht') as (r & phase' & Er & Hf);
      rewrite ?(take_ge (drop j blocks)) in * by (rewrite length_drop; lia); [done|unfold u64_bound; lia|].
    change (Z.of_nat (length blocks)) with (zlen blocks) in Er. rewrite <- Htip in Er. rewrite Er, Hall in *.
    destruct r; (do 2 eexists; split; [reflexivity|exact Hf]).
  - assert (j = length blocks) as -> by (unfold zlen in *; lia). rewrite drop_all in Hall. cbn in Hall.
    rewrite Hall in Ht'. do 2 eexists. split; [reflexivity|exact Ht'].
Qed.

End fill.

(** ** The server serves its table *)

Section serving.
Context `{XxHash64} `{PirEngine} {Node : Type} `{Lwd Node} `{LwdStart Node} (config : ServerConfig).

(** The servers a start and new blocks lead to, with the blocks they should hold. *)
Inductive server_run : SpendServer -> Blocks -> Prop :=
| run_started dir n s n' M db :
    settled dir -> start_server config dir n = (Ok s, n') ->
    ss_table s = evict_to_target db -> table_of M db ->
    server_run s (keep_recent M)
| run_new_block s M b s' :
    server_run s M -> fresh_block M (nb_height b) (nb_hash b) -> Forall valid_nullifier (nb_nullifiers b) ->
    total M + zlen (nb_nullifiers b) < u64_bound ->
    spend_follow_event config s (N_NewBlock b) = Ok s' ->
    server_run s' (keep_recent (<[nb_height b := (nb_hash b, entry_of (wrap32 (nb_height b)) <$> nb_nullifiers b)]> M)).

(** A started server has published its table. *)
Lemma start_server_published dir n s n' :
  start_server config dir n = (Ok s, n') ->
  publish_table (ss_table s) SpendAppState_new ServerServing = Ok (ss_app s) /\
  (exists db, ss_dir s = save_table db dir) /\ ss_blocks_since_snapshot s = 0.
Proof.
  unfold start_server.
  destruct (lw_connect n) as [[[]|] n1]; [|done]. destruct (lw_latest_block n1) as [[tip|] n2]; [|done].
  destruct (detect_ironwood_network n2) as [[network|] n3]; [|done].
  destruct (fill_table _ _ _ _ _ n3) as [[[db|] phase] n4]; [|done].
  destruct (publish_table (evict_to_target db) SpendAppState_new ServerServing) as [app|] eqn:E; [|done].
  intros [= <- <-]. cbn. split_and!; [done|by eexists|done].
Qed.

Lemma published_serves M db app phase app' :
  table_of M db -> na_scenario app = spend_scenario -> publish_table db app phase = Ok app' ->
  (exists ps, serves_table M app' ps) /\ na_phase app' = phase /\ na_scenario app' = spend_scenario.
Proof.
  intros Ht Hs. unfold publish_table. rewrite Hs.
  destruct (spend_rebuild_pir db spend_scenario) as [ps|] eqn:E; [|done]. intros [= <-]. cbn.
  split_and!; [|done|done]. exists ps, db. by split_and!.
Qed.

Lemma keep_recent_small M : total (keep_recent M) <= TARGET_SIZE.
Proof. apply (rc_target M), drop_oldest_recent. lia. Qed.

(** The server serves what its table holds.  After a start and any new blocks, the
    published state answers from a table of exactly the blocks that should remain,
    with at most the target number of nullifiers; the phase is serving; every
    version of the snapshot file is complete, and fewer blocks than the snapshot
    interval have come since the last one was saved. *)
Theorem server_serves_its_table s M :
  server_run s M -> 0 < cf_snapshot_interval config < u64_bound ->
  (exists ps, serves_table M (ss_app s) ps) /\ table_of M (ss_table s) /\ total M <= TARGET_SIZE /\
  na_phase (ss_app s) = ServerServing /\ settled (ss_dir s) /\
  0 <= ss_blocks_since_snapshot s < cf_snapshot_interval config.
Proof.
  intros Hrun Hi. enough ((exists ps, serves_table M (ss_app s) ps) /\ table_of M (ss_table s) /\
    total M <= TARGET_SIZE /\ na_phase (ss_app s) = ServerServing /\ na_scenario (ss_app s) = spend_scenario /\
    settled (ss_dir s) /\ 0 <= ss_blocks_since_snapshot s < cf_snapshot_interval config) by tauto.
  induction Hrun as [dir n s n' M db Hd Hst Hev Ht|s M b s' Hrun IH Hf Hv Hb Hev].
  - destruct (start_server_published _ _ _ _ Hst) as (Hp & (db' & ->) & ->). rewrite Hev in *.
    apply table_of_evict in Ht. destruct (published_serves _ _ SpendAppState_new _ _ Ht eq_refl Hp) as (Hsv & Hph & Hsc).
    split_and!; try done; [apply keep_recent_small|by apply settled_save|lia].
  - destruct IH as (_ & Ht & _ & Hph & Hsc & Hset & Hsince). unfold spend_follow_event, nf_follow_event in Hev.
    destruct (insert_block _ _ _ _) as [[[]|e] db] eqn:Ei; [|done].
    pose proof (table_of_evict _ _ (table_of_insert _ _ _ _ _ _ Ht Hf Hv Hb Ei)) as Ht'.
    destruct (publish_table _ _ _) as [app|] eqn:Ep; [|done].
    destruct (published_serves _ _ _ _ _ Ht' Hsc Ep) as (Hsv & Hph' & Hsc').
    rewrite wrap64_small in Hev by lia. rewrite Hph in Hph'.
    destruct (_ <=? _) eqn:E in Hev; injection Hev as <-; bool_prop; cbn;
      (split_and!; try done; [apply keep_recent_small|..]); try lia. by apply settled_save.
Qed.

End serving.

(** ** Witnesses *)

#[local] Existing Instance plain_ipir.
#[local] Existing Instance plain_engine.
#[local] Existing Instance plain_retrieval.
#[local] Instance sum_hash : XxHash64 := fun data => wrap64 (foldr Z.add 0 data).
#[local] Instance sum_hash_laws : XxHash64Laws.
Proof. intros data. unfold u64, xxh64, sum_hash, wrap64. by apply Z.mod_pos_bound. Qed.
#[local] Existing Instance spend_direct_net.

Definition sample_app (db : HashTableDb) : SpendAppState :=
  {| na_live_pir := Some {| np_engine_state := (to_pir_bytes db, BUCKET_BYTES); np_metadata := spend_metadata db |};
     na_phase := ServerServing; na_scenario := spend_scenario |}.

Lemma sample_serves M db : table_of M db ->
  serves_table M (sample_app db) {| np_engine_state := (to_pir_bytes db, BUCKET_BYTES); np_metadata := spend_metadata db |}.
Proof.
  intros Ht. exists db. split_and!; [done| |done|done]. unfold spend_rebuild_pir. cbn [pe_setup plain_engine map_err].
  change (sc_item_size_bits spend_scenario / 8) with BUCKET_BYTES. reflexivity.
Qed.

Lemma spent_check_exact_witness :
  exists c, SpendClient_connect (sample_app sample_table) = (Ok c, sample_app sample_table) /\
    exists r c', check_nullifiers c [(replicate 32 7, tt, tt)] (sample_app sample_table) =
      (Ok [Some r], c', sample_app sample_table).
Proof.
  pose proof (sample_serves sample_map sample_table (table_run_repr _ _ sample_run)) as Hs.
  destruct (@spent_check_exact plain_ipir plain_engine (plain_retrieval _) {| rlwe_d := 1; rlwe_q := 257 |} plain_ypir eq_refl _ _ _ _ _ _
    [(replicate 32 7, tt, tt)] Hs Hs) as (c & Hc & rs & c' & Hr & Hall).
  - left. reflexivity.
  - constructor; [discriminate|constructor].
  - exists c. split; [exact Hc|]. inversion Hall as [|q r qs rs' Hq Hrest]; subst.
    inversion Hrest; subst. destruct r as [meta|].
    + exists meta, c'. exact Hr.
    + exfalso. apply Hq. exact sample_spends.
Defined.

(** Two blocks with one nullifier each. *)
Definition nf_action (tag : Z) : CompactAction :=
  {| ca_nullifier := replicate 32 tag; ca_cmx := []; ca_ephemeral_key := []; ca_ciphertext := [] |}.
Definition nf_block (height tag size : Z) : CompactBlock :=
  {| kb_height := height; kb_hash := replicate 32 tag; kb_prev_hash := replicate 32 0;
     kb_vtx := [{| ctx_ironwood_actions := [nf_action tag] |}]; kb_tree_size := Some size |}.
Definition two_blocks : list CompactBlock := [nf_block 1 7 1; nf_block 2 9 2].

#[local] Instance two_block_node : Lwd unit := fixed_node 1 two_blocks [].
#[local] Instance ready_node : LwdStart unit :=
  {| lw_connect n := (Ok tt, n); lw_latest_tree_state n := (Err TS_Unimplemented, n) |}.

Lemma two_block_chain : nf_chain tt 1 two_blocks.
Proof.
  constructor; try done.
  - split; [|done]. intros i b Hi. by do 2 (destruct i as [|i]; [by injection Hi as <-|]).
  - repeat constructor; (eexists; split; [reflexivity|done]).
  - repeat constructor; done.
  - apply (bool_decide_unpack _). vm_compute. exact I.
Qed.

Lemma startup_fills_table_witness :
  exists r phase, fill_table 1 None 2 None (ServerSyncing 0 0) tt = (r, phase, tt) /\
    filled r (fun db => exists k, deep_enough 1 two_blocks k db).
Proof.
  apply (startup_fills_table tt None 2 two_blocks 1 (ServerSyncing 0 0)).
  - exact two_block_chain.
  - reflexivity.
Defined.

(** The table after the first of the two blocks. *)
Definition one_block_table : HashTableDb :=
  snd (insert_block HashTableDb_new 1 (replicate 32 7) (block_meta (nf_block 1 7 1))).

Lemma one_block_holds : table_of (chain_table (take 1 (drop 0 two_blocks))) one_block_table.
Proof.
  apply (table_of_insert ∅ HashTableDb_new 1 (replicate 32 7) (block_meta (nf_block 1 7 1))).
  - apply table_of_new.
  - split; [apply lookup_empty|]. intros h x Hx. by rewrite lookup_empty in Hx.
  - repeat constructor; done.
  - reflexivity.
  - rewrite (surjective_pairing (insert_block _ _ _ _)). by unfold one_block_table; f_equal.
Qed.

Lemma restart_resumes_witness :
  exists r phase, fill_table 1 None 2 (load_table (save_table one_block_table SnapshotDir_empty))
      (ServerSyncing 0 0) tt = (r, phase, tt) /\
    filled r (table_of (chain_table two_blocks)).
Proof.
  apply (restart_resumes tt None 1 2 two_blocks 0 1 one_block_table SnapshotDir_empty 1 (ServerSyncing 0 0)).
  - exact two_block_chain.
  - split; repeat constructor.
  - reflexivity.
  - exact one_block_holds.
  - reflexivity.
  - reflexivity.
Defined.

Definition small_config : ServerConfig :=
  {| cf_target_size := 1; cf_confirmation_depth := 10; cf_snapshot_interval := 100 |}.

Definition is_ok {E A} (r : result E A) : bool := match r with Ok _ => true | Err _ => false end.

Lemma small_start : exists s M, server_run small_config s M.
Proof.
  destruct (fill_from_tip tt None 2 two_blocks 1 (ServerSyncing 0 0) two_block_chain eq_refl)
    as (r & phase & E & Hf).
  assert (Hok : is_ok (fst (fst (fill_table 1 None 2 None (ServerSyncing 0 0) tt))) = true) by (by vm_compute).
  rewrite E in Hok. cbn [fst] in Hok. destruct r as [db|]; [|done]. destruct Hf as (k & _ & Ht & _).
  assert (Hst : exists s n', start_server small_config SnapshotDir_empty tt = (Ok s, n') /\
    ss_table s = evict_to_target db).
  { unfold start_server. cbn [lw_connect ready_node lw_latest_block two_block_node fixed_node].
    change (1 + zlen two_blocks - 1) with 2.
    change (detect_ironwood_network tt) with (@Ok ClientError (option ZcashNetwork) None, tt).
    change (load_table SnapshotDir_empty) with (@None HashTableDb).
    change (cf_target_size small_config) with 1. change (na_phase SpendAppState_new) with (ServerSyncing 0 0).
    cbv beta iota. rewrite E. do 2 eexists. split; reflexivity. }
  destruct Hst as (s & n' & Hst & Htab). do 2 eexists.
  exact (run_started small_config SnapshotDir_empty tt s n' _ db settled_empty Hst Htab Ht).
Qed.

Lemma server_serves_its_table_witness :
  exists s M, server_run small_config s M /\ table_of M (ss_table s) /\ na_phase (ss_app s) = ServerServing.
Proof.
  destruct small_start as (s & M & Hrun). exists s, M. split; [exact Hrun|].
  destruct (server_serves_its_table small_config s M Hrun) as (_ & Ht & _ & Hp & _).
  - split; reflexivity.
  - split; [exact Ht|exact Hp].
Defined.
