(* ===== verification/CombinedServer.v ===== *)
(** * The combined server of the demonstrations

    Models [demos/legacy-spendability/combined-server/src/server.rs] built with both
    features: one process that synchronizes the nullifier table and the commitment
    tree, brings the one that is behind to the other's tip, and then follows the
    chain for both with one tracker.  [run_sync_only] of the two servers runs one
    after the other here; the code runs them concurrently on separate databases.
    A pass of the follow loop is one function.  The theorems: when every block of a
    pass has its parent in the tracker, also when it replaces the end of the chain,
    both databases hold exactly the blocks of the node's chain afterwards and what
    is published was built from them; but a nullifier whose bucket is full is
    dropped without an error. *)

From Stdlib Require Import ZArith Lia.
From stdpp Require Import base numbers list strings pretty gmap sorting.
From S2P Require Import Prelude EnhanceTypes RecordJournal CommitmentTree ChainFollow Witness WitnessServer NullifierTable SnapshotDir TreeSnapshot TableSnapshot NullifierServer.

Open Scope Z_scope.

Inductive CombinedError :=
| CB_Nullifier (e : SpendServerError)
| CB_Witness (e : ServerError)
| CB_Client (m : string).

Record CombinedConfig := { cc_target_size : Z; cc_snapshot_interval : Z }.

(** ** Health *)

Record SubsystemHealth := {
  sbh_phase : string; sbh_current_height : option Z; sbh_target_height : option Z }.

Definition phase_to_health (phase : ServerPhase) : SubsystemHealth :=
  match phase with
  | ServerServing => {| sbh_phase := "serving"; sbh_current_height := None; sbh_target_height := None |}
  | ServerSyncing current_height target_height =>
      {| sbh_phase := "syncing"; sbh_current_height := Some current_height;
         sbh_target_height := Some target_height |}
  end.

Definition is_serving (phase : ServerPhase) : bool :=
  match phase with ServerServing => true | ServerSyncing _ _ => false end.

Definition combined_health (nf_phase wit_phase : ServerPhase) : Z * (SubsystemHealth * SubsystemHealth) :=
  let all_serving := is_serving nf_phase && is_serving wit_phase in
  (if all_serving then 200 else 503, (phase_to_health nf_phase, phase_to_health wit_phase)).

(** ** One block for both databases *)

(** The rollback loop; each step removes a block, so their number is fuel enough. *)
Fixpoint rollback_above (fuel : nat) (rollback_to : Z) (db : HashTableDb) : HashTableDb :=
  match fuel with
  | O => db
  | S fuel =>
      match nf_latest_height db with
      | Some h =>
          if rollback_to <? h then
            match nf_latest_block_hash db with
            | None => db
            | Some bh =>
                match rollback_block db bh with
                | (Err _, db) => db
                | (Ok _, db) => rollback_above fuel rollback_to db
                end
            end
          else db
      | None => db
      end
  end.

Section combined.
Context `{MerkleHash} `{XxHash64} (NfP WitP : PirEngine).

(** What [run] keeps while it follows. *)
Record CombinedState := {
  cb_table : HashTableDb;
  cb_tree : CommitmentTreeDb;
  cb_nf_app : @SpendAppState NfP;
  cb_wit_app : @AppState WitP;
  cb_nf_dir : SnapshotDir;
  cb_wit_dir : SnapshotDir;
  cb_tracker : ChainTracker;
  cb_current_height : Z;
  cb_blocks_since_snapshot : Z;
  cb_nf_prev_tree_size : option Z }.

(** What the tracker says of a block. *)
Definition block_action (s : CombinedState) (block : CompactBlock) : ChainAction * ChainTracker :=
  push_block (cb_tracker s) (kb_height block) (to_hash_array (kb_hash block)) (to_hash_array (kb_prev_hash block)).

(** The nullifiers of a block inserted, after the rollback of a reorganisation. *)
Definition combined_insert (s : CombinedState) (block : CompactBlock) : result HashTableError unit * HashTableDb :=
  let nullifiers := fst (extract_nullifiers_with_meta block (cb_nf_prev_tree_size s)) in
  let table :=
    match fst (block_action s block) with
    | Extend => cb_table s
    | Reorg r => rollback_above (S (size (ht_block_index (cb_table s)))) r (cb_table s)
    end in
  insert_block table (kb_height block) (to_hash_array (kb_hash block)) nullifiers.

(** A failed insert is logged, and the table stays as it was left. *)
Definition combined_block (s : CombinedState) (block : CompactBlock) : CombinedState :=
  let height := kb_height block in
  let hash := to_hash_array (kb_hash block) in
  let commitments := extract_commitments block in
  let '(action, tracker) := block_action s block in
  let '(_, table) := combined_insert s block in
  {| cb_table := match action with Extend => evict_to_target table | Reorg _ => table end;
     cb_tree :=
       match action with
       | Extend => append_commitments (cb_tree s) height hash commitments
       | Reorg r => append_commitments (rollback_to (cb_tree s) r) height hash commitments
       end;
     cb_nf_app := cb_nf_app s; cb_wit_app := cb_wit_app s;
     cb_nf_dir := cb_nf_dir s; cb_wit_dir := cb_wit_dir s; cb_tracker := tracker;
     cb_current_height := height; cb_blocks_since_snapshot := wrap64 (cb_blocks_since_snapshot s + 1);
     cb_nf_prev_tree_size := snd (extract_nullifiers_with_meta block (cb_nf_prev_tree_size s)) |}.

(** The rebuild of both databases; [None] is a panic of the tree. *)
Definition combined_publish (s : CombinedState) : option (result CombinedError CombinedState) :=
  match @publish_table NfP (cb_table s) (cb_nf_app s) (na_phase (cb_nf_app s)) with
  | Err e => Some (Err (CB_Nullifier e))
  | Ok nf_app =>
      r ← @publish_pir _ WitP (cb_tree s) (cb_wit_app s);
      Some (let? w := map_err CB_Witness r in
        Ok {| cb_table := cb_table s; cb_tree := sv_tree w; cb_nf_app := nf_app; cb_wit_app := sv_app w;
              cb_nf_dir := cb_nf_dir s; cb_wit_dir := cb_wit_dir s; cb_tracker := cb_tracker s;
              cb_current_height := cb_current_height s;
              cb_blocks_since_snapshot := cb_blocks_since_snapshot s;
              cb_nf_prev_tree_size := cb_nf_prev_tree_size s |})
  end.

Definition combined_snapshot (config : CombinedConfig) (s : CombinedState) : CombinedState :=
  if cc_snapshot_interval config <=? cb_blocks_since_snapshot s then
    {| cb_table := cb_table s; cb_tree := cb_tree s; cb_nf_app := cb_nf_app s; cb_wit_app := cb_wit_app s;
       cb_nf_dir := save_table (cb_table s) (cb_nf_dir s);
       cb_wit_dir := save_file (cb_wit_dir s) (to_snapshot (cb_tree s)); cb_tracker := cb_tracker s;
       cb_current_height := cb_current_height s; cb_blocks_since_snapshot := 0;
       cb_nf_prev_tree_size := cb_nf_prev_tree_size s |}
  else s.

Section pass.
Context {M : Type} `{Lwd M} `{LwdStart M}.

(** One iteration of the follow loop. *)
Definition combined_pass (config : CombinedConfig) (s : CombinedState) (n : M) :
    option (result CombinedError CombinedState) * M :=
  match lw_latest_block n with
  | (Err m, n) => (Some (Err (CB_Client m)), n)
  | (Ok tip_height, n) =>
      if tip_height <=? cb_current_height s then (Some (Ok s), n) else
      match lw_block_range (wrap64 (cb_current_height s + 1)) tip_height n with
      | (Err m, n) => (Some (Err (CB_Client m)), n)
      | (Ok blocks, n) =>
          (r ← combined_publish (foldl combined_block s blocks);
           Some (let? s := r in Ok (combined_snapshot config s)), n)
      end
  end.

(** ** The start *)

(** The text of an error of the lightwalletd client. *)
Definition client_error_text (e : ClientError) : string :=
  match e with
  | CE_Client m => m
  | CE_MissingIronwoodTree network height activation =>
      ("lightwalletd omitted the Ironwood commitment tree at height " +:+ pretty height +:+ " on " +:+ network +:+
       ", which is past NU6.3 activation (" +:+ pretty activation +:+ "); use a post-NU6.3 endpoint")%string
  end.

Definition DEFAULT_WINDOW_SHARD_LIMIT : Z := L0_MAX_SHARDS.

(** [run_sync_only] of the witness server; the snapshot is taken as saved. *)
Definition wit_run_sync_only (window_shard_limit : Z) (dir : SnapshotDir) (n : M) :
    option (result ServerError (@AppState WitP * CommitmentTreeDb * SnapshotDir)) * M :=
  match lw_connect n with
  | (Err m, n) => (Some (Err (SE_Ingest m)), n)
  | (Ok _, n) =>
  match lw_latest_block n with
  | (Err m, n) => (Some (Err (SE_Ingest m)), n)
  | (Ok tip_height, n) =>
  match detect_ironwood_network n with
  | (Err e, n) => (Some (Err (SE_Ingest (client_error_text e))), n)
  | (Ok network, n) =>
  let snapshot := match load_snapshot dir with Ok t => Some t | Err _ => None end in
  match bootstrap snapshot network tip_height window_shard_limit n with
  | (Err e, n) => (Some (Err e), n)
  | (Ok tree, n) =>
      let dir := save_file dir (to_snapshot tree) in
      (r ← @start_serving _ WitP tree (@AppState_new WitP);
       Some (let? s := r in Ok (sv_app s, sv_tree s, dir)), n)
  end end end end.

(** [catch_up_nullifier] and [catch_up_witness]. *)
Definition catch_up_nullifier (from to : Z) (db : HashTableDb) (n : M) :
    result CombinedError HashTableDb * M :=
  let '(r, _, n) := spend_sync_range from to db None ServerServing n in
  (let? db := map_err CB_Nullifier r in Ok (evict_to_target db), n).

Definition catch_up_witness (from to : Z) (tree : CommitmentTreeDb) (initial_tree_size : option Z) (n : M) :
    result CombinedError CommitmentTreeDb * M :=
  let '(r, n) := sync_range from to tree initial_tree_size n in (map_err CB_Witness r, n).

(** The database that is behind is brought to the other's latest height. *)
Definition catch_up_databases (db : HashTableDb) (tree : CommitmentTreeDb) (n : M) :
    result CombinedError (HashTableDb * CommitmentTreeDb) * M :=
  let nf_latest := default 0 (nf_latest_height db) in
  let wit_latest := default 0 (latest_height tree) in
  match nf_latest ?= wit_latest with
  | Lt =>
      let '(r, n) := catch_up_nullifier (wrap64 (nf_latest + 1)) wit_latest db n in
      (let? db := r in Ok (db, tree), n)
  | Gt =>
      let '(r, n) := catch_up_witness (wrap64 (wit_latest + 1)) nf_latest tree (known_tree_size tree) n in
      (let? tree := r in Ok (db, tree), n)
  | Eq => (Ok (db, tree), n)
  end.

(** [run] until its loop. *)
Definition combined_start (config : CombinedConfig) (nf_dir wit_dir : SnapshotDir) (n : M) :
    option (result CombinedError CombinedState) * M :=
  let nf_config := {| cf_target_size := cc_target_size config; cf_confirmation_depth := CONFIRMATION_DEPTH;
                      cf_snapshot_interval := cc_snapshot_interval config |} in
  let '(nf_result, n) := @run_sync_only _ NfP _ _ _ nf_config nf_dir n in
  let '(wit_result, n) := wit_run_sync_only DEFAULT_WINDOW_SHARD_LIMIT wit_dir n in
  match wit_result with
  | None => (None, n)
  | Some wit_result =>
  match nf_result, wit_result with
  | Err e, _ => (Some (Err (CB_Nullifier e)), n)
  | Ok _, Err e => (Some (Err (CB_Witness e)), n)
  | Ok (nf_app, db, nf_dir), Ok (wit_app, tree, wit_dir) =>
  match catch_up_databases db tree n with
  | (Err e, n) => (Some (Err e), n)
  | (Ok (db, tree), n) =>
  match lw_connect n with
  | (Err m, n) => (Some (Err (CB_Client m)), n)
  | (Ok _, n) =>
      let follow_height := default 0 (nf_latest_height db) in
      let follow_hash := default (replicate 32 0) (nf_latest_block_hash db) in
      (Some (Ok {| cb_table := db; cb_tree := tree; cb_nf_app := nf_app; cb_wit_app := wit_app;
                   cb_nf_dir := nf_dir; cb_wit_dir := wit_dir;
                   cb_tracker := ChainTracker_with_tip follow_height follow_hash (CONFIRMATION_DEPTH * 2);
                   cb_current_height := follow_height; cb_blocks_since_snapshot := 0;
                   cb_nf_prev_tree_size := None |}), n)
  end end end end.

End pass.

End combined.

(** ** Rolling the table back *)

(** The blocks up to a height. *)
Definition keep_until (r : Z) (T : Blocks) : Blocks := filter (fun p => fst p <= r) T.

Lemma lookup_keep_until r T h x : keep_until r T !! h = Some x <-> T !! h = Some x /\ h <= r.
Proof. unfold keep_until. by rewrite map_lookup_filter_Some. Qed.

Lemma keep_until_all r T : (forall h x, T !! h = Some x -> h <= r) -> keep_until r T = T.
Proof. intros Hall. apply map_eq. intros h. apply option_eq. intros x. rewrite lookup_keep_until. split; [by intros [? _]|]. intros Hx. by eauto. Qed.

Lemma keep_until_delete r T h : r < h -> keep_until r (delete h T) = keep_until r T.
Proof.
  intros Hr. apply map_eq. intros k. apply option_eq. intros x.
  rewrite !lookup_keep_until, lookup_delete_Some. split; [by intros [[_ ?] ?]|]. intros [Hx Hk]. split; [|done]. split; [lia|done].
Qed.

(** The latest block of a table. *)
Lemma table_latest T db :
  table_of T db ->
  match nf_latest_height db with
  | Some h => exists x, T !! h = Some x /\ nf_latest_block_hash db = Some (fst x) /\
      forall h', is_Some (T !! h') -> h' <= h
  | None => T = ∅
  end.
Proof.
  intros (B & -> & Hr). unfold nf_latest_block_hash, nf_latest_height. rewrite (tp_index _ _ Hr), dom_fmap_L.
  destruct (greatest _) as [h|] eqn:E; cbn [mbind option_bind].
  - pose proof E as Hin. apply greatest_elem, elem_of_elements, elem_of_dom in Hin as [x Hx].
    exists (xb_hash x, snd <$> xb_fills x). split_and!.
    + apply view_lookup. by exists x.
    + by rewrite lookup_fmap, Hx.
    + intros h' [y (z & Hz & _)%view_lookup]. eapply greatest_max; [|exact E].
      apply elem_of_elements, elem_of_dom. by exists z.
  - destruct (elements (dom B)) as [|k l] eqn:El; [|by cbn in E].
    apply elements_empty_inv, leibniz_equiv, dom_empty_inv_L in El. subst B. unfold view. by rewrite fmap_empty.
Qed.

Lemma rollback_above_repr r fuel : forall T db,
  table_of T db -> (size T < fuel)%nat -> table_of (keep_until r T) (rollback_above fuel r db).
Proof.
  induction fuel as [|fuel IH]; intros T db Ht Hf; [lia|]. cbn [rollback_above].
  pose proof (table_latest _ _ Ht) as Hl. destruct (nf_latest_height db) as [h|].
  - destruct Hl as (x & Hx & Hh & Hmax). destruct (r <? h) eqn:E; bool_prop.
    + rewrite Hh. pose proof (table_of_rollback T db h (fst x) (snd x) Ht) as Hrb.
      rewrite <- surjective_pairing in Hrb. specialize (Hrb Hx).
      destruct Ht as (B & -> & Hr). pose proof Hx as (y & Hy & ->)%view_lookup. cbn [fst] in *.
      destruct (rollback_block_repr _ _ _ _ Hr Hy) as (db' & E' & _). rewrite E' in *. cbn [snd] in Hrb.
      rewrite <- (keep_until_delete r _ h) by lia. apply IH; [done|].
      rewrite map_size_delete_Some by done. assert (size (view B) <> 0%nat); [|lia].
      intros H0. apply map_size_empty_inv in H0. by rewrite H0, lookup_empty in Hx.
    + rewrite keep_until_all; [done|]. intros h' x' Hx'. specialize (Hmax h' ltac:(by eexists)). lia.
  - subst T. rewrite keep_until_all; [done|]. intros h x Hx. by rewrite lookup_empty in Hx.
Qed.

(** ** A pass is exact *)

Section pass_proof.
Context `{MerkleHashLaws} `{XxHash64} (NfP WitP : PirEngine).
Context (nf_ready : forall db scenario, exists st, @pe_setup NfP db scenario = Ok st).
Context (wit_ready : forall db scenario, exists st, @pe_setup WitP db scenario = Ok st).

#[local] Abbreviation state := (CombinedState NfP WitP).

(** The combined server seen as the witness server that follows with its tracker. *)
Definition wit_side (s : state) : @ServerState WitP := {| sv_tree := cb_tree _ _ s; sv_app := cb_wit_app _ _ s |}.
Definition follow_of (s : state) : FollowState :=
  {| fo_tracker := cb_tracker _ _ s; fo_current_height := cb_current_height _ _ s; fo_prev_tree_size := None |}.

(** The tree holds the blocks [bs] after [pre], the tracker remembers the last of
    them, and the table holds [T], which has no block above them. *)
Record combined_holds (pre : list mho) (bs : list TreeBlock) (T : Blocks) (s : state) : Prop := {
  ch_following : following pre bs (wit_side s) (follow_of s);
  ch_table : table_of T (cb_table _ _ s);
  ch_top h x : T !! h = Some x -> h <= default 0 (tb_height <$> last bs);
  ch_scenario : na_scenario (cb_nf_app _ _ s) = spend_scenario }.

(** The nullifiers of [b] can be told apart from those of [T]. *)
Record nf_links (T : Blocks) (b : CompactBlock) : Prop := {
  nl_sized : sized b;
  nl_valid : Forall valid_nullifier (block_meta b);
  nl_fresh h x : T !! h = Some x -> fst x <> to_hash_array (kb_hash b);
  nl_total : total T + zlen (block_meta b) < u64_bound }.

(** The table after a block whose parent is at the height before it. *)
Definition table_with (T : Blocks) (action : ChainAction) (b : CompactBlock) : Blocks :=
  let T := <[kb_height b := entry_at b]> (keep_until (kb_height b - 1) T) in
  match action with Extend => keep_recent T | Reorg _ => T end.

Lemma keep_until_sub r T : keep_until r T ⊆ T.
Proof. unfold keep_until. apply map_filter_subseteq. Qed.

Lemma total_keep_until r T : total (keep_until r T) <= total T.
Proof.
  unfold keep_until. induction T as [|h x T Hn IH] using map_ind; [by rewrite map_filter_empty|].
  assert (Hins : total (<[h := x]> T) = zlen (snd x) + total T).
  { unfold total. by rewrite map_fold_insert_L; [|intros; lia|]. }
  pose proof (zlen_nonneg (snd x)). destruct (decide (h <= r)) as [Hr|Hr].
  - rewrite map_filter_insert_True by done.
    assert (filter (fun p : Z * (Hash * list NullifierEntry) => fst p <= r) T !! h = None) as Hf.
    { apply map_lookup_filter_None. by left. }
    unfold total at 1. rewrite map_fold_insert_L; [|intros; lia|done]. fold (total (filter (fun p => fst p <= r) T)). lia.
  - rewrite map_filter_insert_False by done. rewrite delete_id by done. lia.
Qed.

(** The insert of a linked block, when it succeeds. *)
Lemma combined_insert_exact T (s : state) b table :
  table_of T (cb_table _ _ s) -> nf_links T b ->
  (fst (block_action _ _ s b) = Extend -> forall h x, T !! h = Some x -> h <= kb_height b - 1) ->
  (forall r, fst (block_action _ _ s b) = Reorg r -> r = kb_height b - 1) ->
  combined_insert _ _ s b = (Ok tt, table) ->
  table_of (<[kb_height b := entry_at b]> (keep_until (kb_height b - 1) T)) table.
Proof.
  intros Ht [Hs Hv Hf Htot] Hext Hreorg. unfold combined_insert. rewrite (sized_meta b _ Hs). cbn [fst].
  set (r := kb_height b - 1) in *. pose proof (total_keep_until r T).
  assert (Hfresh : fresh_block (keep_until r T) (kb_height b) (to_hash_array (kb_hash b))).
  { split.
    - apply eq_None_not_Some. intros [x [_ Hx]%lookup_keep_until]. unfold r in Hx. lia.
    - intros h x [Hx _]%lookup_keep_until. by eapply Hf. }
  assert (Hroll : table_of (keep_until r T) match fst (block_action _ _ s b) with
    | Extend => cb_table _ _ s
    | Reorg r => rollback_above (S (size (ht_block_index (cb_table _ _ s)))) r (cb_table _ _ s) end).
  { destruct (fst (block_action _ _ s b)) as [|r'] eqn:Ea.
    - rewrite keep_until_all by by apply Hext. exact Ht.
    - rewrite (Hreorg r' eq_refl). apply rollback_above_repr; [done|].
      destruct Ht as (B & -> & Hr). unfold view. rewrite (tp_index _ _ Hr), !map_size_fmap. lia. }
  intros Hi. eapply table_of_insert; [exact Hroll|done|done|lia|exact Hi].
Qed.

(** One linked block, inserted without an error. *)
Lemma combined_block_exact pre bs T (s : state) b x :
  combined_holds pre bs T s -> links pre bs (follow_of s) b x -> nf_links T b ->
  fst (combined_insert _ _ s b) = Ok tt ->
  combined_holds pre (chain_with bs (tree_block b x)) (table_with T (fst (block_action _ _ s b)) b)
    (combined_block _ _ s b).
Proof.
  intros [Hf Ht Htop Hsc] Hl Hn Hok. pose proof (combined_insert_exact T s b) as Hins.
  destruct (linked_parent _ _ _ _ _ _ Hf Hl)
    as (k & j & t' & action & Hj & Hroll & Hk & (parent & Hp & Hph) & Epush & Haction & Hchain).
  cbn [follow_of fo_tracker] in Epush. unfold combined_block. unfold block_action in *. rewrite Epush in *. cbn [fst] in *.
  destruct (combined_insert _ _ s b) as [r table] eqn:Ei. cbn [fst] in Hok. subst r.
  destruct Hf as [Hr _ Hc Hnd _], Hl as [_ Hfresh Hx Hts Hh Hb]. cbn [wit_side sv_tree] in Hr.
  unfold chain_with in *. cbn [tb_height tree_block] in *. rewrite Hroll in *.
  destruct (linked_chain bs b x j parent Hc Hnd Hfresh Hp Hph) as [Hc' Hnd'].
  assert (Hlt : table_of (<[kb_height b := entry_at b]> (keep_until (kb_height b - 1) T)) table).
  { apply Hins; [done|done| | |done].
    - intros ->. destruct Haction as [[_ E]|?]; [|done]. intros h y Hy. specialize (Htop h y Hy).
      rewrite <- E, (take_S_r _ _ _ Hp), last_snoc in Htop. cbn in Htop. lia.
    - intros r ->. by destruct Haction as [[? _]|[= ->]]. }
  assert (Htop' : forall h y, <[kb_height b := entry_at b]> (keep_until (kb_height b - 1) T) !! h = Some y ->
    h <= kb_height b).
  { intros h y [[<- _]|[_ [_ Hy]%lookup_keep_until]]%lookup_insert_Some; lia. }
  constructor.
  - constructor; cbn [wit_side sv_tree follow_of fo_tracker fo_prev_tree_size cb_tree cb_tracker]; [|done|done|done|by left].
    destruct Haction as [[-> E]| ->]; rewrite Hx.
    + rewrite E in *. by apply (append_tree_repr pre bs (tree_block b x)).
    + rewrite <- Hroll in *. apply (append_tree_repr pre _ (tree_block b x)); [by apply rollback_tree_repr|done].
  - cbn [cb_table]. unfold table_with. destruct action; [by apply table_of_evict|done].
  - rewrite last_snoc. cbn [fmap option_fmap option_map default from_option id tree_block tb_height].
    intros h y Hy. apply (Htop' h y). unfold table_with in Hy. destruct action; [|done].
    eapply lookup_weaken; [exact Hy|]. apply (rc_sub _ _ (drop_oldest_recent _ _ (Nat.lt_succ_diag_r _))).
  - exact Hsc.
Qed.

(** The blocks of a pass: each linked to what the server then holds, and inserted. *)
Fixpoint pass_linked (pre : list mho) (bs : list TreeBlock) (T : Blocks) (s : state)
    (blocks : list (CompactBlock * list mho)) : Prop :=
  match blocks with
  | [] => True
  | (b, x) :: blocks =>
      links pre bs (follow_of s) b x /\ nf_links T b /\ fst (combined_insert _ _ s b) = Ok tt /\
      pass_linked pre (chain_with bs (tree_block b x)) (table_with T (fst (block_action _ _ s b)) b)
        (combined_block _ _ s b) blocks
  end.

(** The table after the blocks of a pass. *)
Fixpoint table_after (T : Blocks) (s : state) (blocks : list CompactBlock) : Blocks :=
  match blocks with
  | [] => T
  | b :: blocks => table_after (table_with T (fst (block_action _ _ s b)) b) (combined_block _ _ s b) blocks
  end.

Lemma combined_blocks_exact pre blocks : forall bs T (s : state),
  combined_holds pre bs T s -> pass_linked pre bs T s blocks ->
  combined_holds pre (chain_after bs blocks) (table_after T s (fst <$> blocks))
    (foldl (combined_block NfP WitP) s (fst <$> blocks)).
Proof.
  induction blocks as [|[b x] blocks IH]; intros bs T s Hh Hl; [done|].
  destruct Hl as (Hl & Hn & Hok & Hrest). rewrite fmap_cons. cbn [fst foldl table_after].
  apply IH; [by apply combined_block_exact|done].
Qed.

Lemma combined_publish_exact pre bs T (s : state) :
  combined_holds pre bs T s ->
  exists s', combined_publish NfP WitP s = Some (Ok s') /\ combined_holds pre bs T s' /\
    (exists ps, serves_table T (cb_nf_app _ _ s') ps) /\ live_for bs (wit_side s').
Proof.
  intros [Hf Ht Htop Hsc]. unfold combined_publish, publish_table. rewrite Hsc.
  destruct (spend_rebuild_pir (cb_table _ _ s) spend_scenario) as [ps|e] eqn:Eps.
  2:{ unfold spend_rebuild_pir in Eps. by destruct (nf_ready (to_pir_bytes (cb_table _ _ s)) spend_scenario) as [st Est]; rewrite Est in Eps. }
  destruct Hf as [Hr Hk Hc Hnd Hsz]. cbn [wit_side sv_tree] in Hr.
  destruct (publish_exact wit_ready pre bs _ (cb_wit_app _ _ s) Hr) as (w & -> & Hr' & Hlive).
  cbn [mbind option_bind map_err]. eexists. split; [reflexivity|]. destruct w as [tree app]. split_and!.
  - constructor; [|exact Ht|exact Htop|done].
    constructor; cbn [wit_side sv_tree follow_of fo_tracker fo_prev_tree_size cb_tree cb_tracker]; [done|done|done|done|by left].
  - exists ps, (cb_table _ _ s). by split_and!.
  - exact Hlive.
Qed.

Section pass.
Context {M : Type} `{Lwd M}.


(** A block whose one nullifier finds its bucket full leaves the table as it was. *)
Lemma full_bucket_insert T (s : state) b nwm bucket :
  table_of T (cb_table _ _ s) -> sized b -> block_meta b = [nwm] ->
  fst (block_action _ _ s b) = Extend ->
  ht_buckets (cb_table _ _ s) !! Z.to_nat (hash_to_bucket (nm_nullifier nwm)) = Some bucket ->
  find_free_slot bucket = None ->
  snd (combined_insert _ _ s b) = cb_table _ _ s.
Proof.
  intros Ht Hs Hm Ha Hb Hfull. unfold combined_insert. rewrite (sized_meta b _ Hs), Ha, Hm. cbn [fst].
  unfold insert_block. cbn [insert_nullifiers]. rewrite Hb. cbn [default from_option id].
  by rewrite Hfull.
Qed.

(** A full bucket loses a spend.  When a block extends the chain and the bucket of
    its one nullifier has no free slot, the pass still ends without an error: the
    tree gets the block, but the table that is published holds exactly the blocks
    it held before, so a client that asks for the nullifier is told that it is not
    spent. *)
Theorem full_bucket_drops_nullifier config n n' n'' pre bs T (s : state) tip b x nwm bucket :
  combined_holds pre bs T s -> links pre bs (follow_of s) b x -> sized b -> block_meta b = [nwm] ->
  fst (block_action _ _ s b) = Extend -> total T <= TARGET_SIZE -> ~ spends T (nm_nullifier nwm) ->
  ht_buckets (cb_table _ _ s) !! Z.to_nat (hash_to_bucket (nm_nullifier nwm)) = Some bucket ->
  find_free_slot bucket = None ->
  lw_latest_block n = (Ok tip, n') -> cb_current_height _ _ s < tip ->
  lw_block_range (wrap64 (cb_current_height _ _ s + 1)) tip n' = (Ok [b], n'') ->
  exists s', combined_pass NfP WitP config s n = (Some (Ok s'), n'') /\
    tree_root (cb_tree _ _ s') = Some (merkle_root (pre ++ window_leaves (chain_with bs (tree_block b x)))) /\
    (exists ps, serves_table T (cb_nf_app _ _ s') ps) /\ tells T (nm_nullifier nwm) None.
Proof.
  intros Hh Hl Hs Hm Ha Htot Hno Hb Hfull Hn Htip Hrange.
  pose proof (full_bucket_insert T s b nwm bucket (ch_table _ _ _ _ Hh) Hs Hm Ha Hb Hfull) as Hins.
  assert (Hh' : combined_holds pre (chain_with bs (tree_block b x)) T (combined_block _ _ s b)).
  { destruct Hh as [Hf Ht Htop Hsc]. destruct (linked_parent _ _ _ _ _ _ Hf Hl)
      as (k & j & t' & action & Hj & Hroll & Hk & (parent & Hp & Hph) & Epush & Haction & Hchain).
    cbn [follow_of fo_tracker] in Epush. unfold combined_block. unfold block_action in *. rewrite Epush in *.
    cbn [fst] in Ha. subst action. destruct Haction as [[_ E]|?]; [|done].
    destruct (combined_insert _ _ s b) as [r table]. cbn [snd] in Hins. subst table.
    destruct Hf as [Hr _ Hc Hnd _], Hl as [_ Hfresh Hx Hts Hhb Hbd]. cbn [wit_side sv_tree] in Hr.
    unfold chain_with in *. cbn [tb_height tree_block] in *. rewrite Hroll in *.
    destruct (linked_chain bs b x j parent Hc Hnd Hfresh Hp Hph) as [Hc' Hnd']. rewrite E in *.
    constructor; [constructor|..];
      cbn [wit_side sv_tree follow_of fo_tracker fo_prev_tree_size cb_tree cb_tracker cb_table cb_nf_app]; try done.
    - rewrite Hx. by apply (append_tree_repr pre bs (tree_block b x)).
    - by left.
    - rewrite evict_below_target; [done|]. by rewrite (table_of_num_entries _ _ Ht).
    - rewrite last_snoc. cbn. intros h y Hy. specialize (Htop h y Hy).
      rewrite <- E, (take_S_r _ _ _ Hp), last_snoc in Htop. cbn in Htop. lia. }
  unfold combined_pass. rewrite Hn. guards. rewrite Hrange. cbn [foldl].
  destruct (combined_publish_exact _ _ _ _ Hh') as (s' & -> & Hh2 & Hsv & _).
  cbn [mbind option_bind]. exists (combined_snapshot _ _ config s'). split; [done|].
  assert (cb_tree _ _ (combined_snapshot _ _ config s') = cb_tree _ _ s' /\
    cb_nf_app _ _ (combined_snapshot _ _ config s') = cb_nf_app _ _ s') as [-> ->]
    by (unfold combined_snapshot; by destruct (_ <=? _)).
  pose proof (fl_tree _ _ _ _ (ch_following _ _ _ _ Hh2)) as Hr. cbn [wit_side sv_tree] in Hr.
  split_and!; [by apply tree_root_merkle|done|exact Hno].
Qed.

End pass.

End pass_proof.

(** ** Witnesses *)

#[local] Existing Instance parity_hash.
#[local] Existing Instance parity_laws.
#[local] Instance length_hash : XxHash64 := fun data => wrap64 (zlen data).

(** A block of one transaction with one action. *)
Definition spend_block (height tag prev : Z) (nf : Hash) (x : bool) (size : Z) : CompactBlock :=
  {| kb_height := height; kb_hash := replicate 32 tag; kb_prev_hash := replicate 32 prev;
     kb_vtx := [{| ctx_ironwood_actions :=
       [{| ca_nullifier := nf; ca_cmx := @mho_to_bytes parity_hash x; ca_ephemeral_key := []; ca_ciphertext := [] |}] |}];
     kb_tree_size := Some size |}.

(** A server that stands on block 10, with the nullifiers [nfs] in its table. *)
Definition standing_tree : CommitmentTreeDb :=
  append_commitments (CommitmentTreeDb_with_offset 0 (nodes (leaf_at []) 16 0 0)) 10 (replicate 32 10)
    (mho_to_bytes <$> tb_commitments start_block).
Definition standing_table (nfs : list NullifierWithMeta) : HashTableDb :=
  snd (insert_block HashTableDb_new 10 (replicate 32 10) nfs).
Definition standing_blocks (nfs : list NullifierWithMeta) : Blocks :=
  <[10 := (replicate 32 10, entry_of 10 <$> nfs)]> ∅.
Definition standing (nfs : list NullifierWithMeta) : CombinedState plain_engine plain_engine :=
  {| cb_table := standing_table nfs; cb_tree := standing_tree;
     cb_nf_app := @SpendAppState_new plain_engine; cb_wit_app := @AppState_new plain_engine;
     cb_nf_dir := SnapshotDir_empty; cb_wit_dir := SnapshotDir_empty;
     cb_tracker := ChainTracker_with_tip 10 (replicate 32 10) (CONFIRMATION_DEPTH * 2);
     cb_current_height := 10; cb_blocks_since_snapshot := 0; cb_nf_prev_tree_size := None |}.

Lemma standing_lookup nfs h x :
  standing_blocks nfs !! h = Some x -> h = 10 /\ x = (replicate 32 10, entry_of 10 <$> nfs).
Proof. unfold standing_blocks. intros [[<- <-]|[_ Hx]]%lookup_insert_Some; [done|by rewrite lookup_empty in Hx]. Qed.

Lemma standing_holds nfs :
  Forall valid_nullifier nfs -> zlen nfs < u64_bound ->
  is_ok (fst (insert_block HashTableDb_new 10 (replicate 32 10) nfs)) = true ->
  combined_holds plain_engine plain_engine [] [start_block] (standing_blocks nfs) (standing nfs).
Proof.
  intros Hv Hz Hok. constructor.
  - constructor; [|by exists 0%nat| |apply NoDup_singleton|by left].
    + apply (append_tree_repr [] [] start_block); [by apply (new_repr [])|done].
    + intros i h z h' z' Hi Hi'. by destruct i.
  - unfold standing_blocks. apply (table_of_insert ∅ HashTableDb_new 10 (replicate 32 10) nfs).
    + apply table_of_new.
    + split; [apply lookup_empty|]. intros h x Hx. by rewrite lookup_empty in Hx.
    + done.
    + change (total ∅) with 0. lia.
    + cbn [standing cb_table]. unfold standing_table. destruct (insert_block _ _ _ nfs) as [[[]|] db]; done.
  - intros h x Hx. by apply standing_lookup in Hx as [-> _].
  - done.
Qed.

Definition block_11 : CompactBlock := spend_block 11 11 10 (replicate 32 9) true 3.

Lemma spend_links nf size :
  size = 3 -> links [] [start_block] (follow_of plain_engine plain_engine (standing []))
    (spend_block 11 11 10 nf true size) [true].
Proof.
  intros ->. constructor.
  - by exists 0%nat.
  - intros Hin%list_elem_of_singleton. discriminate Hin.
  - reflexivity.
  - reflexivity.
  - split; reflexivity || discriminate.
  - reflexivity.
Qed.


(** 112 nullifiers of one bucket, and one more. *)
Definition crowd_nf (i : Z) : Hash := [1; 0; 0; 0; i] ++ replicate 27 0.
Definition crowd : list NullifierWithMeta :=
  (fun i => {| nm_nullifier := crowd_nf i; nm_first_output_position := 0; nm_action_count := 1 |}) <$> seqZ 1 112.
Definition late_block : CompactBlock := spend_block 11 11 10 (crowd_nf 200) true 3.

Lemma crowd_valid : Forall valid_nullifier crowd.
Proof.
  apply Forall_fmap, Forall_forall. intros i Hi%elem_of_seqZ. constructor; [done|done| |done|done].
  cbn [nm_nullifier]. unfold crowd_nf. apply bytes_ok_app. split; [|by apply Forall_replicate].
  repeat constructor; (done || lia).
Qed.

Lemma crowd_full : exists bucket,
  ht_buckets (standing_table crowd) !! Z.to_nat (hash_to_bucket (crowd_nf 200)) = Some bucket /\
  find_free_slot bucket = None.
Proof.
  assert (E : find_free_slot <$> (ht_buckets (standing_table crowd) !! Z.to_nat (hash_to_bucket (crowd_nf 200))) =
    Some None) by (by vm_compute).
  destruct (_ !! _) as [bucket|]; [|done]. exists bucket. split; [done|]. by injection E.
Qed.

Lemma crowd_misses : ~ spends (standing_blocks crowd) (crowd_nf 200).
Proof.
  intros (h & x & e & Hx & He & Hn). apply standing_lookup in Hx as [_ ->].
  apply list_elem_of_fmap in He as (nwm & -> & Hin). apply list_elem_of_fmap in Hin as (i & -> & Hi).
  apply elem_of_seqZ in Hi. cbn in Hn. injection Hn. lia.
Qed.

Lemma full_bucket_drops_nullifier_witness :
  exists s' ps, @combined_pass parity_hash length_hash plain_engine plain_engine unit
      (fixed_node 10 [late_block; late_block] []) {| cc_target_size := 1; cc_snapshot_interval := 100 |}
      (standing crowd) tt = (Some (Ok s'), tt) /\
    serves_table (standing_blocks crowd) (cb_nf_app _ _ s') ps /\ tells (standing_blocks crowd) (crowd_nf 200) None.
Proof.
  destruct crowd_full as (bucket & Hb & Hfull).
  destruct (@full_bucket_drops_nullifier parity_hash parity_laws length_hash plain_engine plain_engine plain_ready
    plain_ready unit (fixed_node 10 [late_block; late_block] []) {| cc_target_size := 1; cc_snapshot_interval := 100 |}
    tt tt tt [] [start_block] (standing_blocks crowd) (standing crowd) 11 late_block [true]
    {| nm_nullifier := crowd_nf 200; nm_first_output_position := 2; nm_action_count := 1 |} bucket)
    as (s' & E & _ & (ps & Hs) & Ht).
  - apply standing_holds.
    + exact crowd_valid.
    + reflexivity.
    + vm_compute. reflexivity.
  - exact (spend_links (crowd_nf 200) 3 eq_refl).
  - exists 3. split; [reflexivity|split; [discriminate|reflexivity]].
  - reflexivity.
  - reflexivity.
  - vm_compute. discriminate.
  - exact crowd_misses.
  - exact Hb.
  - exact Hfull.
  - reflexivity.
  - reflexivity.
  - reflexivity.
  - exists s', ps. split; [exact E|]. split; [exact Hs|exact Ht].
Defined.
