(* ===== verification/ServerMetrics.v ===== *)
(** * The metrics of the coordinator

    Models [server/enhance-pir-server/src/metrics.rs]: the metric families and
    their labels, the allowlist of endpoints, the middleware that counts requests,
    the guards and timers that keep the in-flight gauges, and the recording of an
    observation.  Of a histogram only the number of samples is kept.  The text
    rendering belongs to the [prometheus] crate.  Tasks run concurrently; a run is
    any sequence of their metric operations, and a task that is cancelled drops its
    guards.  The theorems: whatever the interleaving, the in-flight gauges are the
    numbers of tasks in flight, the counters are the numbers of finished ones, and
    no label of a request comes from its path. *)

From Stdlib Require Import ZArith Lia.
From stdpp Require Import base numbers countable strings gmap list.
From S2P Require Import Prelude EnhanceTypes Worker Coordinator.

Open Scope Z_scope.

(** ** Families *)

Inductive Family :=
| http_requests | http_request_duration | http_request_processing_duration
| http_in_flight | http_processing_in_flight
| snapshot_phase_code | snapshot_sync_current_height | snapshot_sync_target_height
| snapshot_anchor_height | snapshot_generation | snapshot_ironwood_tree_size
| snapshot_retained_generations
| table_registered | table_record_bytes | table_records_per_row | table_shard_rows
| table_shard_positions | table_shards_per_worker | table_pool_workers
| table_query_slots_available | table_positions | table_used_rows | table_logical_rows
| table_shards | table_sealed_shards
| worker_up | worker_generation | worker_table_index | worker_table_assigned_shards
| worker_table_populated_positions | worker_table_active_shards | worker_index
| worker_total_memory_bytes | worker_available_memory_bytes | worker_process_rss_bytes
| worker_group_configured_replicas | worker_group_ready_replicas
| worker_replica_requests | worker_replica_request_duration | worker_replica_in_flight
| layout_confirmations | layout_activation_height.

#[export] Instance Family_eq_dec : EqDecision Family.
Proof. solve_decision. Defined.

Definition family_name (f : Family) : string :=
  match f with
  | http_requests => "enhance_http_requests_total"
  | http_request_duration => "enhance_http_request_duration_seconds"
  | http_request_processing_duration => "enhance_http_request_processing_duration_seconds"
  | http_in_flight => "enhance_http_in_flight"
  | http_processing_in_flight => "enhance_http_processing_in_flight"
  | snapshot_phase_code => "enhance_snapshot_phase_code"
  | snapshot_sync_current_height => "enhance_snapshot_sync_current_height"
  | snapshot_sync_target_height => "enhance_snapshot_sync_target_height"
  | snapshot_anchor_height => "enhance_snapshot_anchor_height"
  | snapshot_generation => "enhance_snapshot_generation"
  | snapshot_ironwood_tree_size => "enhance_snapshot_ironwood_tree_size"
  | snapshot_retained_generations => "enhance_snapshot_retained_generations"
  | table_registered => "enhance_table_registered"
  | table_record_bytes => "enhance_table_record_bytes"
  | table_records_per_row => "enhance_table_records_per_row"
  | table_shard_rows => "enhance_table_shard_rows"
  | table_shard_positions => "enhance_table_shard_positions"
  | table_shards_per_worker => "enhance_table_shards_per_worker"
  | table_pool_workers => "enhance_table_pool_workers"
  | table_query_slots_available => "enhance_table_query_slots_available"
  | table_positions => "enhance_table_positions"
  | table_used_rows => "enhance_table_used_rows"
  | table_logical_rows => "enhance_table_logical_rows"
  | table_shards => "enhance_table_shards"
  | table_sealed_shards => "enhance_table_sealed_shards"
  | worker_up => "enhance_worker_up"
  | worker_generation => "enhance_worker_generation"
  | worker_table_index => "enhance_worker_table_index"
  | worker_table_assigned_shards => "enhance_worker_table_assigned_shards"
  | worker_table_populated_positions => "enhance_worker_table_populated_positions"
  | worker_table_active_shards => "enhance_worker_table_active_shards"
  | worker_index => "enhance_worker_index"
  | worker_total_memory_bytes => "enhance_worker_total_memory_bytes"
  | worker_available_memory_bytes => "enhance_worker_available_memory_bytes"
  | worker_process_rss_bytes => "enhance_worker_process_rss_bytes"
  | worker_group_configured_replicas => "enhance_worker_group_configured_replicas"
  | worker_group_ready_replicas => "enhance_worker_group_ready_replicas"
  | worker_replica_requests => "enhance_worker_replica_requests_total"
  | worker_replica_request_duration => "enhance_worker_replica_request_duration_seconds"
  | worker_replica_in_flight => "enhance_worker_replica_in_flight"
  | layout_confirmations => "enhance_layout_confirmations"
  | layout_activation_height => "enhance_layout_activation_height"
  end.

(** The label names of a family. *)
Definition family_labels (f : Family) : list string :=
  match f with
  | http_requests => ["endpoint"; "method"; "status"]
  | http_request_duration | http_request_processing_duration
  | http_in_flight | http_processing_in_flight => ["endpoint"]
  | table_registered | table_record_bytes | table_records_per_row | table_shard_rows
  | table_shard_positions | table_shards_per_worker | table_pool_workers
  | table_query_slots_available | table_positions | table_used_rows | table_logical_rows
  | table_shards | table_sealed_shards => ["table"]
  | worker_up | worker_generation | worker_index | worker_total_memory_bytes
  | worker_available_memory_bytes | worker_process_rss_bytes => ["worker"]
  | worker_table_index | worker_table_assigned_shards | worker_table_populated_positions
  | worker_table_active_shards => ["worker"; "table"]
  | worker_group_configured_replicas | worker_group_ready_replicas => ["table"; "group"]
  | worker_replica_requests | worker_replica_request_duration => ["group"; "replica"; "outcome"]
  | worker_replica_in_flight => ["group"; "replica"]
  | snapshot_phase_code | snapshot_sync_current_height | snapshot_sync_target_height
  | snapshot_anchor_height | snapshot_generation | snapshot_ironwood_tree_size
  | snapshot_retained_generations | layout_confirmations | layout_activation_height => []
  end%string.

(** ** The registry *)

(** A child of a family: the family's name and the values of its labels. *)
Abbreviation MetricKey := (string * list string)%type.

(** The values of the gauges ([i64]) and counters ([u64]), and the sample counts
    of the histograms; a child that was never touched is 0. *)
Record Registry := {
  rg_gauges : gmap MetricKey Z; rg_counters : gmap MetricKey Z; rg_samples : gmap MetricKey Z }.

Definition Registry_new : Registry := {| rg_gauges := ∅; rg_counters := ∅; rg_samples := ∅ |}.

Definition wrap_i64 (z : Z) : Z := (z + 2 ^ 63) mod 2 ^ 64 - 2 ^ 63.

(** [with_label_values] panics when the number of values is not that of the
    labels. *)
Definition with_label_values (f : Family) (values : list string) : option MetricKey :=
  if (length values =? length (family_labels f))%nat then Some (family_name f, values) else None.

Definition gauge_at (m : Registry) (key : MetricKey) : Z := default 0 (rg_gauges m !! key).
Definition counter_at (m : Registry) (key : MetricKey) : Z := default 0 (rg_counters m !! key).
Definition samples_at (m : Registry) (key : MetricKey) : Z := default 0 (rg_samples m !! key).

Definition set_gauge (f : Family) (values : list string) (v : Z) (m : Registry) : option Registry :=
  key ← with_label_values f values;
  Some {| rg_gauges := <[key := v]> (rg_gauges m); rg_counters := rg_counters m; rg_samples := rg_samples m |}.

(** [inc] and [dec]. *)
Definition add_gauge (f : Family) (values : list string) (d : Z) (m : Registry) : option Registry :=
  key ← with_label_values f values;
  Some {| rg_gauges := <[key := wrap_i64 (gauge_at m key + d)]> (rg_gauges m);
          rg_counters := rg_counters m; rg_samples := rg_samples m |}.

Definition inc_counter (f : Family) (values : list string) (m : Registry) : option Registry :=
  key ← with_label_values f values;
  Some {| rg_gauges := rg_gauges m; rg_counters := <[key := wrap64 (counter_at m key + 1)]> (rg_counters m);
          rg_samples := rg_samples m |}.

Definition observe_sample (f : Family) (values : list string) (m : Registry) : option Registry :=
  key ← with_label_values f values;
  Some {| rg_gauges := rg_gauges m; rg_counters := rg_counters m;
          rg_samples := <[key := wrap64 (samples_at m key + 1)]> (rg_samples m) |}.

(** ** Endpoints *)

Definition query_endpoint (_ : DatabaseId) : string := "query".

Definition table_endpoint (table : DatabaseId) (endpoint : string) : option string :=
  if negb (bool_decide (endpoint = "query"%string)) then None else
  Some (match table with
        | Enhance => "query"
        | TransparentSpendCold => "spend_cold_query"
        | TransparentSpendWarm => "spend_warm_query"
        end)%string.

(** The literal arms of [allowlisted_endpoint]. *)
Definition fixed_endpoint (method path : string) : option string :=
  let matches m p := bool_decide (method = m) && bool_decide (path = p) in
  (if matches "GET" "/v1/health" then Some "health"
  else if matches "GET" "/v1/enhance/init" then Some "init"
  else if matches "POST" "/v1/enhance/query" then Some "query"
  else if matches "GET" "/v1/transparent-spend/init" then Some "spend_init"
  else if matches "POST" "/v1/transparent-spend/cold/query" then Some "spend_cold_query"
  else if matches "POST" "/v1/transparent-spend/warm/query" then Some "spend_warm_query"
  else None)%string.

Definition allowlisted_endpoint (method path : string) : option string :=
  match fixed_endpoint method path with
  | Some endpoint => Some endpoint
  | None =>
      rest ← strip_prefix "/v1/" path;
      '(table, endpoint) ← split_once 47 (string_bytes rest) [];
      let endpoint := bytes_string endpoint in
      match DatabaseId_from_str (bytes_string table) with
      | Err _ => None
      | Ok table =>
          let expected := if bool_decide (endpoint = "query"%string) then "POST"%string else "GET"%string in
          if negb (bool_decide (method = expected)) then None else table_endpoint table endpoint
      end
  end.

(** ** Observations *)

Record TableObservation := {
  to_table : DatabaseId; to_registered : bool; to_pool_workers : Z; to_query_slots_available : Z;
  to_positions : Z; to_used_rows : Z; to_logical_rows : Z; to_shards : Z; to_sealed_shards : Z }.

Record WorkerTableObservation := {
  wt_table : DatabaseId; wt_index : Z; wt_assigned_shards : Z; wt_populated_positions : Z;
  wt_active_shards : Z }.

Record WorkerObservation := {
  wo_name : string; wo_index : Z; wo_up : bool; wo_generation : Z; wo_total_memory_bytes : Z;
  wo_available_memory_bytes : Z; wo_process_rss_bytes : Z; wo_tables : list WorkerTableObservation }.

Record WorkerGroupObservation := {
  go_table : DatabaseId; go_name : string; go_configured_replicas : Z; go_ready_replicas : Z }.

Record Observation := {
  ob_phase : option CoordinatorPhase; ob_anchor_height : Z; ob_generation : Z;
  ob_ironwood_tree_size : Z; ob_retained_generations : Z; ob_tables : list TableObservation;
  ob_worker_details : list WorkerObservation; ob_worker_groups : list WorkerGroupObservation }.

Definition clamp (value : Z) : Z := Z.min value (2 ^ 63 - 1).

Definition SHARDS_PER_WORKER : Z := SHARDS_PER_GROUP.

(** One [set] of [record_observation]. *)
Abbreviation GaugeWrite := (Family * list string * Z)%type.

Definition phase_writes (phase : option CoordinatorPhase) : list GaugeWrite :=
  let '(code, current, target) :=
    match phase with
    | None => (0, 0, 0)
    | Some (Syncing current_height target_height) => (0, current_height, target_height)
    | Some (Building _) => (1, 0, 0)
    | Some Serving => (2, 0, 0)
    | Some (Failed _) => (3, 0, 0)
    end in
  [(snapshot_phase_code, [], code); (snapshot_sync_current_height, [], clamp current);
   (snapshot_sync_target_height, [], clamp target)].

Definition snapshot_writes (o : Observation) : list GaugeWrite :=
  phase_writes (ob_phase o) ++
  [(snapshot_anchor_height, [], clamp (ob_anchor_height o));
   (snapshot_generation, [], clamp (ob_generation o));
   (snapshot_ironwood_tree_size, [], clamp (ob_ironwood_tree_size o));
   (snapshot_retained_generations, [], clamp (ob_retained_generations o))].

Definition table_writes {layouts : Layouts} (t : TableObservation) : list GaugeWrite :=
  let layout := layout_of (to_table t) in
  (fun '(f, v) => (f, [DatabaseId_as_str (to_table t)], v)) <$>
  [(table_registered, Z.b2z (to_registered t)); (table_record_bytes, clamp (record_bytes layout));
   (table_records_per_row, clamp (records_per_row layout)); (table_shard_rows, clamp (shard_rows layout));
   (table_shard_positions, clamp (DatabaseLayout_shard_positions layout));
   (table_shards_per_worker, clamp SHARDS_PER_WORKER); (table_pool_workers, clamp (to_pool_workers t));
   (table_query_slots_available, clamp (to_query_slots_available t));
   (table_positions, clamp (to_positions t)); (table_used_rows, clamp (to_used_rows t));
   (table_logical_rows, clamp (to_logical_rows t)); (table_shards, clamp (to_shards t));
   (table_sealed_shards, clamp (to_sealed_shards t))].

Definition share_writes (worker : string) (s : WorkerTableObservation) : list GaugeWrite :=
  (fun '(f, v) => (f, [worker; DatabaseId_as_str (wt_table s)], v)) <$>
  [(worker_table_index, clamp (wt_index s)); (worker_table_assigned_shards, clamp (wt_assigned_shards s));
   (worker_table_populated_positions, clamp (wt_populated_positions s));
   (worker_table_active_shards, clamp (wt_active_shards s))].

Definition worker_writes (w : WorkerObservation) : list GaugeWrite :=
  ((fun '(f, v) => (f, [wo_name w], v)) <$>
   [(worker_up, Z.b2z (wo_up w)); (worker_generation, clamp (wo_generation w));
    (worker_index, clamp (wo_index w)); (worker_total_memory_bytes, clamp (wo_total_memory_bytes w));
    (worker_available_memory_bytes, clamp (wo_available_memory_bytes w));
    (worker_process_rss_bytes, clamp (wo_process_rss_bytes w))]) ++
  (wo_tables w ≫= share_writes (wo_name w)).

Definition group_writes (g : WorkerGroupObservation) : list GaugeWrite :=
  (fun '(f, v) => (f, [DatabaseId_as_str (go_table g); go_name g], v)) <$>
  [(worker_group_configured_replicas, clamp (go_configured_replicas g));
   (worker_group_ready_replicas, clamp (go_ready_replicas g))].

Definition layout_writes : list GaugeWrite :=
  [(layout_confirmations, [], 0); (layout_activation_height, [], clamp ACTIVATION_HEIGHT)].

(** The sets in program order. *)
Definition observation_writes {layouts : Layouts} (o : Observation) : list GaugeWrite :=
  snapshot_writes o ++ (ob_tables o ≫= table_writes) ++ (ob_worker_details o ≫= worker_writes) ++
  (ob_worker_groups o ≫= group_writes) ++ layout_writes.

Fixpoint write_gauges (writes : list GaugeWrite) (m : Registry) : option Registry :=
  match writes with
  | [] => Some m
  | (f, values, v) :: writes => m ← set_gauge f values v m; write_gauges writes m
  end.

Definition record_observation {layouts : Layouts} (o : Observation) (m : Registry) : option Registry :=
  write_gauges (observation_writes o) m.

(** ** Guards and timers *)

(** A live [GaugeGuard], with what its owner needs when it finishes: the
    middleware of a request, a [ProcessingTimer], a [WorkerReplicaTimer]. *)
Inductive Guard :=
| RequestGuard (endpoint method : string)
| ProcessingTimer (endpoint : string)
| WorkerReplicaTimer (group replica : string).

(** The gauge a guard holds up. *)
Definition guard_gauge (g : Guard) : Family * list string :=
  match g with
  | RequestGuard endpoint _ => (http_in_flight, [endpoint])
  | ProcessingTimer endpoint => (http_processing_in_flight, [endpoint])
  | WorkerReplicaTimer group replica => (worker_replica_in_flight, [group; replica])
  end.

Definition GaugeGuard_new (g : Guard) (m : Registry) : option Registry :=
  let '(f, values) := guard_gauge g in add_gauge f values 1 m.
Definition GaugeGuard_drop (g : Guard) (m : Registry) : option Registry :=
  let '(f, values) := guard_gauge g in add_gauge f values (-1) m.

(** [track_request] when the inner service has answered. *)
Definition request_finish (endpoint method status : string) (m : Registry) : option Registry :=
  m ← observe_sample http_request_duration [endpoint] m;
  m ← inc_counter http_requests [endpoint; method; status] m;
  GaugeGuard_drop (RequestGuard endpoint method) m.

(** [drop] of the timer observes, then its fields are dropped. *)
Definition ProcessingTimer_drop (endpoint : string) (m : Registry) : option Registry :=
  m ← observe_sample http_request_processing_duration [endpoint] m;
  GaugeGuard_drop (ProcessingTimer endpoint) m.

Definition record_replica_request (group replica outcome : string) (m : Registry) : option Registry :=
  inc_counter worker_replica_requests [group; replica; outcome] m.

Definition WorkerReplicaTimer_finish (group replica outcome : string) (m : Registry) : option Registry :=
  m ← observe_sample worker_replica_request_duration [group; replica; outcome] m;
  m ← inc_counter worker_replica_requests [group; replica; outcome] m;
  GaugeGuard_drop (WorkerReplicaTimer group replica) m.

(** ** Runs *)

(** The metric operations of concurrent tasks; a task is known by a number. *)
Inductive MetricsEvent :=
| RequestArrives (id : Z) (method path : string)
| RequestAnswered (id : Z) (status : string)
| ProcessingStarts (id : Z) (table : DatabaseId)
| ProcessingEnds (id : Z)
| ReplicaSelected (group replica outcome : string)
| ReplicaStarts (id : Z) (group replica : string)
| ReplicaSucceeds (id : Z)
| ReplicaFails (id : Z)
| TaskCancelled (id : Z)
| Scraped (o : Observation).

Record MetricsState := { ms_registry : Registry; ms_guards : gmap Z Guard }.

Definition MetricsState_new : MetricsState := {| ms_registry := Registry_new; ms_guards := ∅ |}.

(** A task takes a guard; a number that is taken names no new task. *)
Definition take_guard (id : Z) (g : Guard) (s : MetricsState) : option MetricsState :=
  match ms_guards s !! id with
  | Some _ => Some s
  | None =>
      m ← GaugeGuard_new g (ms_registry s);
      Some {| ms_registry := m; ms_guards := <[id := g]> (ms_guards s) |}
  end.

(** A task gives its guard up with the given operation. *)
Definition release_guard (id : Z) (finish : Guard -> option (Registry -> option Registry)) (s : MetricsState) :
    option MetricsState :=
  match g ← ms_guards s !! id; finish g with
  | None => Some s
  | Some op =>
      m ← op (ms_registry s);
      Some {| ms_registry := m; ms_guards := delete id (ms_guards s) |}
  end.

Definition on_registry (op : Registry -> option Registry) (s : MetricsState) : option MetricsState :=
  m ← op (ms_registry s); Some {| ms_registry := m; ms_guards := ms_guards s |}.

Definition replica_finish (outcome : string) (g : Guard) : option (Registry -> option Registry) :=
  match g with
  | WorkerReplicaTimer group replica => Some (WorkerReplicaTimer_finish group replica outcome)
  | _ => None
  end.

Definition metrics_step {layouts : Layouts} (s : MetricsState) (e : MetricsEvent) : option MetricsState :=
  match e with
  | RequestArrives id method path =>
      match allowlisted_endpoint method path with
      | None => Some s
      | Some endpoint => take_guard id (RequestGuard endpoint method) s
      end
  | RequestAnswered id status =>
      release_guard id (fun g =>
        match g with
        | RequestGuard endpoint method => Some (request_finish endpoint method status)
        | _ => None
        end) s
  | ProcessingStarts id table => take_guard id (ProcessingTimer (query_endpoint table)) s
  | ProcessingEnds id =>
      release_guard id (fun g =>
        match g with ProcessingTimer endpoint => Some (ProcessingTimer_drop endpoint) | _ => None end) s
  | ReplicaSelected group replica outcome => on_registry (record_replica_request group replica outcome) s
  | ReplicaStarts id group replica => take_guard id (WorkerReplicaTimer group replica) s
  | ReplicaSucceeds id => release_guard id (replica_finish "succeeded") s
  | ReplicaFails id => release_guard id (replica_finish "failed") s
  | TaskCancelled id =>
      release_guard id (fun g =>
        match g with
        | ProcessingTimer endpoint => Some (ProcessingTimer_drop endpoint)
        | g => Some (GaugeGuard_drop g)
        end) s
  | Scraped o => on_registry (record_observation o) s
  end.

Fixpoint metrics_run {layouts : Layouts} (s : MetricsState) (events : list MetricsEvent) : option MetricsState :=
  match events with
  | [] => Some s
  | e :: events => s ← metrics_step s e; metrics_run s events
  end.

(** ** The tally: what a run amounts to *)

(** The tasks in flight, and the counts and samples of the finished ones. *)
Record Tally := { ty_live : gmap Z Guard; ty_counted : list MetricKey; ty_sampled : list MetricKey }.

Definition Tally_new : Tally := {| ty_live := ∅; ty_counted := []; ty_sampled := [] |}.

Definition join_task (id : Z) (g : Guard) (t : Tally) : Tally :=
  match ty_live t !! id with
  | Some _ => t
  | None => {| ty_live := <[id := g]> (ty_live t); ty_counted := ty_counted t; ty_sampled := ty_sampled t |}
  end.

(** [finish] gives what the end of a task counts and samples. *)
Definition leave_task (id : Z) (finish : Guard -> option (list MetricKey * list MetricKey)) (t : Tally) : Tally :=
  match g ← ty_live t !! id; finish g with
  | None => t
  | Some (counted, sampled) =>
      {| ty_live := delete id (ty_live t); ty_counted := counted ++ ty_counted t;
         ty_sampled := sampled ++ ty_sampled t |}
  end.

Definition replica_key (f : Family) (group replica outcome : string) : MetricKey :=
  (family_name f, [group; replica; outcome]).

Definition replica_done (outcome : string) (g : Guard) : option (list MetricKey * list MetricKey) :=
  match g with
  | WorkerReplicaTimer group replica =>
      Some ([replica_key worker_replica_requests group replica outcome],
            [replica_key worker_replica_request_duration group replica outcome])
  | _ => None
  end.

Definition tally_step (t : Tally) (e : MetricsEvent) : Tally :=
  match e with
  | RequestArrives id method path =>
      match allowlisted_endpoint method path with
      | None => t
      | Some endpoint => join_task id (RequestGuard endpoint method) t
      end
  | RequestAnswered id status =>
      leave_task id (fun g =>
        match g with
        | RequestGuard endpoint method =>
            Some ([(family_name http_requests, [endpoint; method; status])],
                  [(family_name http_request_duration, [endpoint])])
        | _ => None
        end) t
  | ProcessingStarts id _ => join_task id (ProcessingTimer "query") t
  | ProcessingEnds id =>
      leave_task id (fun g =>
        match g with
        | ProcessingTimer endpoint => Some ([], [(family_name http_request_processing_duration, [endpoint])])
        | _ => None
        end) t
  | ReplicaSelected group replica outcome =>
      {| ty_live := ty_live t;
         ty_counted := replica_key worker_replica_requests group replica outcome :: ty_counted t;
         ty_sampled := ty_sampled t |}
  | ReplicaStarts id group replica => join_task id (WorkerReplicaTimer group replica) t
  | ReplicaSucceeds id => leave_task id (replica_done "succeeded") t
  | ReplicaFails id => leave_task id (replica_done "failed") t
  | TaskCancelled id =>
      leave_task id (fun g =>
        match g with
        | ProcessingTimer endpoint => Some ([], [(family_name http_request_processing_duration, [endpoint])])
        | _ => Some ([], [])
        end) t
  | Scraped _ => t
  end.

Definition tally (events : list MetricsEvent) : Tally := foldl tally_step Tally_new events.

(** How many live tasks hold a gauge up, and how often a key was counted. *)
Definition live_on (k : Family * list string) (live : gmap Z Guard) : Z :=
  Z.of_nat (size (filter (fun p => guard_gauge (snd p) = k) live)).
Definition times (k : MetricKey) (keys : list MetricKey) : Z := zlen (filter (fun k' => k' = k) keys).

(** The gauges that guards hold up. *)
Definition in_flight (f : Family) : bool :=
  match f with
  | http_in_flight | http_processing_in_flight | worker_replica_in_flight => true
  | _ => false
  end.

Record tallies (s : MetricsState) (t : Tally) : Prop := {
  tl_live : ms_guards s = ty_live t;
  tl_gauges f values : in_flight f = true ->
    gauge_at (ms_registry s) (family_name f, values) = wrap_i64 (live_on (f, values) (ty_live t));
  tl_counters k : counter_at (ms_registry s) k = wrap64 (times k (ty_counted t));
  tl_samples k : samples_at (ms_registry s) k = wrap64 (times k (ty_sampled t)) }.

(** ** Lemmas *)

Lemma family_name_inj f g : family_name f = family_name g -> f = g.
Proof. destruct f, g; done. Qed.

Lemma wrap_i64_add a d : wrap_i64 (wrap_i64 a + d) = wrap_i64 (a + d).
Proof.
  unfold wrap_i64. f_equal. replace ((a + 2 ^ 63) mod 2 ^ 64 - 2 ^ 63 + d + 2 ^ 63) with ((a + 2 ^ 63) mod 2 ^ 64 + d) by lia.
  rewrite Zplus_mod_idemp_l. f_equal. lia.
Qed.

Lemma wrap64_add a d : wrap64 (wrap64 a + d) = wrap64 (a + d).
Proof. unfold wrap64. apply Zplus_mod_idemp_l. Qed.

Lemma live_on_insert k id g live :
  live !! id = None ->
  live_on k (<[id := g]> live) = live_on k live + (if decide (guard_gauge g = k) then 1 else 0).
Proof.
  intros Hid. unfold live_on. destruct (decide (guard_gauge g = k)) as [Hk|Hk].
  - rewrite map_filter_insert_True by done. rewrite map_size_insert_None; [lia|].
    apply map_lookup_filter_None. by left.
  - rewrite map_filter_insert_False by done. rewrite delete_id by done. lia.
Qed.

Lemma live_on_delete k id g live :
  live !! id = Some g ->
  live_on k (delete id live) = live_on k live + (if decide (guard_gauge g = k) then -1 else 0).
Proof.
  intros Hid. assert (live = <[id := g]> (delete id live)) as E by (by rewrite insert_delete_id).
  rewrite E at 2. rewrite live_on_insert by apply lookup_delete_eq. destruct (decide _); lia.
Qed.

Lemma times_cons k k' keys : times k (k' :: keys) = times k keys + (if decide (k' = k) then 1 else 0).
Proof. unfold times. rewrite filter_cons. destruct (decide (k' = k)); autorewrite with zlen; lia. Qed.

Lemma times_app k a b : times k (a ++ b) = times k a + times k b.
Proof. unfold times. rewrite filter_app. by autorewrite with zlen. Qed.

(** An operation that moves the gauges by [d], and counts and samples keys. *)
Definition moves (d : MetricKey -> Z) (counted sampled : list MetricKey) (op : Registry -> option Registry) : Prop :=
  forall m, exists m', op m = Some m' /\
    (forall k n, gauge_at m k = wrap_i64 n -> gauge_at m' k = wrap_i64 (n + d k)) /\
    (forall k n, counter_at m k = wrap64 n -> counter_at m' k = wrap64 (n + times k counted)) /\
    (forall k n, samples_at m k = wrap64 n -> samples_at m' k = wrap64 (n + times k sampled)).

Definition still : MetricKey -> Z := fun _ => 0.
Definition at_key (key : MetricKey) (d : Z) : MetricKey -> Z := fun k => if decide (key = k) then d else 0.

Lemma moves_bind d1 c1 s1 op1 d2 c2 s2 op2 :
  moves d1 c1 s1 op1 -> moves d2 c2 s2 op2 ->
  moves (fun k => d1 k + d2 k) (c1 ++ c2) (s1 ++ s2) (fun m => m ← op1 m; op2 m).
Proof.
  intros H1 H2 m. destruct (H1 m) as (m1 & -> & Hg1 & Hc1 & Hs1). destruct (H2 m1) as (m2 & E2 & Hg2 & Hc2 & Hs2).
  exists m2. split; [done|]. split_and!; intros k n Hn.
  - rewrite Z.add_assoc. by apply Hg2, Hg1.
  - rewrite times_app, Z.add_assoc. by apply Hc2, Hc1.
  - rewrite times_app, Z.add_assoc. by apply Hs2, Hs1.
Qed.

Lemma with_labels_ok f values :
  length values = length (family_labels f) -> with_label_values f values = Some (family_name f, values).
Proof. intros E. unfold with_label_values. by rewrite E, Nat.eqb_refl. Qed.

Lemma add_gauge_moves f values d :
  length values = length (family_labels f) -> moves (at_key (family_name f, values) d) [] [] (add_gauge f values d).
Proof.
  intros E m. unfold add_gauge. rewrite with_labels_ok by done. eexists. split; [reflexivity|].
  split_and!; intros k n Hn; [|by rewrite Z.add_0_r..].
  unfold gauge_at, at_key in *. cbn [rg_gauges]. destruct (decide (_ = k)) as [<-|Hk].
  - rewrite lookup_insert_eq. cbn. by rewrite Hn, wrap_i64_add.
  - by rewrite lookup_insert_ne, Z.add_0_r.
Qed.

Lemma inc_counter_moves f values :
  length values = length (family_labels f) -> moves still [(family_name f, values)] [] (inc_counter f values).
Proof.
  intros E m. unfold inc_counter. rewrite with_labels_ok by done. eexists. split; [reflexivity|].
  split_and!; intros k n Hn; [by unfold still; rewrite Z.add_0_r| |by rewrite Z.add_0_r].
  unfold counter_at in *. cbn [rg_counters]. rewrite times_cons. destruct (decide (_ = k)) as [<-|Hk].
  - rewrite lookup_insert_eq. cbn. by rewrite Hn, wrap64_add.
  - by rewrite lookup_insert_ne, Z.add_0_r.
Qed.

Lemma observe_moves f values :
  length values = length (family_labels f) -> moves still [] [(family_name f, values)] (observe_sample f values).
Proof.
  intros E m. unfold observe_sample. rewrite with_labels_ok by done. eexists. split; [reflexivity|].
  split_and!; intros k n Hn; [by unfold still; rewrite Z.add_0_r|by rewrite Z.add_0_r|].
  unfold samples_at in *. cbn [rg_samples]. rewrite times_cons. destruct (decide (_ = k)) as [<-|Hk].
  - rewrite lookup_insert_eq. cbn. by rewrite Hn, wrap64_add.
  - by rewrite lookup_insert_ne, Z.add_0_r.
Qed.

(** The key of the gauge a guard holds up. *)
Definition guard_key (g : Guard) : MetricKey := (family_name (fst (guard_gauge g)), snd (guard_gauge g)).

Lemma guard_new_moves g : moves (at_key (guard_key g) 1) [] [] (GaugeGuard_new g).
Proof. destruct g; by apply add_gauge_moves. Qed.
Lemma guard_drop_moves g : moves (at_key (guard_key g) (-1)) [] [] (GaugeGuard_drop g).
Proof. destruct g; by apply add_gauge_moves. Qed.

Lemma request_finish_moves endpoint method status :
  moves (at_key (guard_key (RequestGuard endpoint method)) (-1))
    [(family_name http_requests, [endpoint; method; status])] [(family_name http_request_duration, [endpoint])]
    (request_finish endpoint method status).
Proof.
  exact (moves_bind _ _ _ _ _ _ _ _ (observe_moves http_request_duration [endpoint] eq_refl)
    (moves_bind _ _ _ _ _ _ _ _ (inc_counter_moves http_requests [endpoint; method; status] eq_refl)
      (guard_drop_moves (RequestGuard endpoint method)))).
Qed.

Lemma processing_drop_moves endpoint :
  moves (at_key (guard_key (ProcessingTimer endpoint)) (-1)) []
    [(family_name http_request_processing_duration, [endpoint])] (ProcessingTimer_drop endpoint).
Proof.
  exact (moves_bind _ _ _ _ _ _ _ _ (observe_moves http_request_processing_duration [endpoint] eq_refl)
    (guard_drop_moves (ProcessingTimer endpoint))).
Qed.

Lemma replica_finish_moves group replica outcome :
  moves (at_key (guard_key (WorkerReplicaTimer group replica)) (-1))
    [replica_key worker_replica_requests group replica outcome]
    [replica_key worker_replica_request_duration group replica outcome]
    (WorkerReplicaTimer_finish group replica outcome).
Proof.
  exact (moves_bind _ _ _ _ _ _ _ _ (observe_moves worker_replica_request_duration [group; replica; outcome] eq_refl)
    (moves_bind _ _ _ _ _ _ _ _ (inc_counter_moves worker_replica_requests [group; replica; outcome] eq_refl)
      (guard_drop_moves (WorkerReplicaTimer group replica)))).
Qed.

(** ** A step keeps the tally *)

Lemma at_guard g f values d :
  at_key (guard_key g) d (family_name f, values) = if decide (guard_gauge g = (f, values)) then d else 0.
Proof.
  unfold at_key, guard_key. destruct (guard_gauge g) as [f' values']. cbn [fst snd].
  destruct (decide ((f', values') = (f, values))) as [E|Hn].
  - injection E as -> ->. by rewrite decide_True.
  - rewrite decide_False; [done|]. intros [= E ->]. apply family_name_inj in E. congruence.
Qed.

Lemma take_guard_tallies id g s t :
  tallies s t -> exists s', take_guard id g s = Some s' /\ tallies s' (join_task id g t).
Proof.
  intros [Hl Hg Hc Hs]. unfold take_guard, join_task. rewrite Hl. destruct (ty_live t !! id) eqn:Eid; [by exists s|].
  destruct (guard_new_moves g (ms_registry s)) as (m' & -> & Hg' & Hc' & Hs'). eexists. split; [reflexivity|].
  constructor; cbn [ms_guards ms_registry ty_live ty_counted ty_sampled].
  - done.
  - intros f values Hf. rewrite live_on_insert, <- at_guard by done. by apply Hg', Hg.
  - intros k. rewrite (Hc' k _ (Hc k)). by rewrite Z.add_0_r.
  - intros k. rewrite (Hs' k _ (Hs k)). by rewrite Z.add_0_r.
Qed.

Lemma release_guard_tallies id finish done_ s t :
  (forall g, match finish g, done_ g with
             | Some op, Some (counted, sampled) => moves (at_key (guard_key g) (-1)) counted sampled op
             | None, None => True
             | _, _ => False
             end) ->
  tallies s t -> exists s', release_guard id finish s = Some s' /\ tallies s' (leave_task id done_ t).
Proof.
  intros Hf [Hl Hg Hc Hs]. unfold release_guard, leave_task. rewrite Hl.
  destruct (ty_live t !! id) as [g|] eqn:Eid; cbn [mbind option_bind]; [|by exists s].
  specialize (Hf g). destruct (finish g) as [op|], (done_ g) as [[counted sampled]|]; try done; [|by exists s].
  destruct (Hf (ms_registry s)) as (m' & -> & Hg' & Hc' & Hs'). eexists. split; [reflexivity|].
  constructor; cbn [ms_guards ms_registry ty_live ty_counted ty_sampled].
  - done.
  - intros f values Hfl. rewrite (live_on_delete _ _ g), <- at_guard by done. by apply Hg', Hg.
  - intros k. rewrite (Hc' k _ (Hc k)), times_app. f_equal. lia.
  - intros k. rewrite (Hs' k _ (Hs k)), times_app. f_equal. lia.
Qed.

(** ** Recording an observation *)

Definition write_key (w : GaugeWrite) : MetricKey := (family_name (fst (fst w)), snd (fst w)).

(** The write has the labels of its family, which is not one that guards hold up. *)
Definition write_ok (w : GaugeWrite) : Prop :=
  length (snd (fst w)) = length (family_labels (fst (fst w))) /\ in_flight (fst (fst w)) = false.

Lemma write_gauges_exact writes : forall m,
  Forall write_ok writes ->
  exists m', write_gauges writes m = Some m' /\ rg_counters m' = rg_counters m /\ rg_samples m' = rg_samples m /\
    (forall k, k ∉ (write_key <$> writes) -> gauge_at m' k = gauge_at m k) /\
    (NoDup (write_key <$> writes) -> forall w, w ∈ writes -> gauge_at m' (write_key w) = snd w).
Proof.
  induction writes as [|[[f values] v] writes IH]; intros m Hok.
  { exists m. split_and!; try done. intros _ w Hw%elem_of_nil. done. }
  inversion Hok as [|? ? [Hlen _] Hoks]; subst. cbn [fst snd] in Hlen. cbn [write_gauges].
  unfold set_gauge. rewrite with_labels_ok by done. cbn [mbind option_bind].
  destruct (IH {| rg_gauges := <[(family_name f, values) := v]> (rg_gauges m); rg_counters := rg_counters m;
                  rg_samples := rg_samples m |} Hoks) as (m' & E & Hc & Hs & Hout & Hin).
  exists m'. split_and!; [done|done|done|..].
  - intros k Hk. rewrite fmap_cons in Hk. apply not_elem_of_cons in Hk as [Hk Hk']. rewrite Hout by done. unfold gauge_at. cbn [rg_gauges].
    by rewrite lookup_insert_ne.
  - rewrite fmap_cons, NoDup_cons. intros [Hnew Hnd] w [->|Hw]%elem_of_cons; [|by apply Hin].
    rewrite Hout by done. unfold gauge_at. cbn [rg_gauges write_key fst snd]. by rewrite lookup_insert_eq.
Qed.

Lemma observation_writes_ok {layouts : Layouts} o : Forall write_ok (observation_writes o).
Proof.
  unfold observation_writes, snapshot_writes, phase_writes. rewrite !Forall_app. split_and!.
  - destruct (ob_phase o) as [[]|]; repeat constructor.
  - repeat constructor.
  - apply Forall_bind, Forall_true. intros t. repeat constructor.
  - apply Forall_bind, Forall_true. intros w. unfold worker_writes. apply Forall_app. split; [repeat constructor|].
    apply Forall_bind, Forall_true. intros share. repeat constructor.
  - apply Forall_bind, Forall_true. intros g. repeat constructor.
  - repeat constructor.
Qed.

Lemma record_tallies {layouts : Layouts} o s t :
  tallies s t -> exists s', on_registry (record_observation o) s = Some s' /\ tallies s' t.
Proof.
  intros [Hl Hg Hc Hs]. unfold on_registry, record_observation.
  pose proof (observation_writes_ok o) as Hok.
  destruct (write_gauges_exact _ (ms_registry s) Hok) as (m' & -> & Hc' & Hs' & Hout & _).
  eexists. split; [reflexivity|]. constructor; cbn [ms_guards ms_registry]; [done|..].
  - intros f values Hf. rewrite Hout; [by apply Hg|]. intros ([[f' values'] v] & E & Hw)%list_elem_of_fmap.
    rewrite Forall_forall in Hok. destruct (Hok _ Hw) as [_ Hfl]. injection E as E _. apply family_name_inj in E.
    cbn [fst] in Hfl. congruence.
  - intros k. rewrite <- Hc. unfold counter_at. by rewrite Hc'.
  - intros k. rewrite <- Hs. unfold samples_at. by rewrite Hs'.
Qed.

Lemma metrics_step_tallies {layouts : Layouts} s t e :
  tallies s t -> exists s', metrics_step s e = Some s' /\ tallies s' (tally_step t e).
Proof.
  intros H. destruct e; cbn [metrics_step tally_step].
  - destruct (allowlisted_endpoint method path); [by apply take_guard_tallies|by exists s].
  - apply release_guard_tallies; [|done]. intros []; [apply request_finish_moves|done|done].
  - by apply take_guard_tallies.
  - apply release_guard_tallies; [|done]. intros []; [done|apply processing_drop_moves|done].
  - destruct H as [Hl Hg Hc Hs]. unfold on_registry, record_replica_request.
    destruct (inc_counter_moves worker_replica_requests [group; replica; outcome] eq_refl (ms_registry s))
      as (m' & -> & Hg' & Hc' & Hs').
    eexists. split; [reflexivity|]. constructor; cbn [ms_guards ms_registry ty_live ty_counted ty_sampled]; [done|..].
    + intros f values Hf. rewrite (Hg' _ _ (Hg f values Hf)). by rewrite Z.add_0_r.
    + intros k. rewrite (Hc' k _ (Hc k)), times_cons, times_cons. done.
    + intros k. rewrite (Hs' k _ (Hs k)). by rewrite Z.add_0_r.
  - by apply take_guard_tallies.
  - apply release_guard_tallies; [|done]. intros []; [done|done|apply replica_finish_moves].
  - apply release_guard_tallies; [|done]. intros []; [done|done|apply replica_finish_moves].
  - apply release_guard_tallies; [|done].
    intros []; [apply guard_drop_moves|apply processing_drop_moves|apply guard_drop_moves].
  - by apply record_tallies.
Qed.

Lemma metrics_run_tallies {layouts : Layouts} events : forall s t,
  tallies s t -> exists s', metrics_run s events = Some s' /\ tallies s' (foldl tally_step t events).
Proof.
  induction events as [|e events IH]; intros s t H; [by exists s|]. cbn [metrics_run foldl].
  destruct (metrics_step_tallies s t e H) as (s' & -> & H'). by apply IH.
Qed.

Lemma new_tallies : tallies MetricsState_new Tally_new.
Proof. constructor; [done|intros f values _|done|done]. by destruct f. Qed.

(** C22: the metrics tell the truth about the tasks.  In every interleaving of requests,
    queries and calls to workers, cancelled or not, and of scrapes, no metric
    operation panics; the in-flight gauges are the numbers of requests, queries
    and calls in flight, and the counters and sample counts are those of the
    requests answered and the calls finished, on 64 bits. *)
Theorem metrics_tally_tasks {layouts : Layouts} events :
  exists s, metrics_run MetricsState_new events = Some s /\
    (forall f values, in_flight f = true ->
      gauge_at (ms_registry s) (family_name f, values) = wrap_i64 (live_on (f, values) (ty_live (tally events)))) /\
    (forall k, counter_at (ms_registry s) k = wrap64 (times k (ty_counted (tally events)))) /\
    (forall k, samples_at (ms_registry s) k = wrap64 (times k (ty_sampled (tally events)))).
Proof.
  destruct (metrics_run_tallies events _ _ new_tallies) as (s & E & [_ Hg Hc Hs]). exists s. by split_and!.
Qed.

(** ** Labels *)

(** The requests that are tracked, with their endpoint label. *)
Definition allowlist : list (string * string * string) :=
  [("GET", "/v1/health", "health"); ("GET", "/v1/enhance/init", "init");
   ("POST", "/v1/enhance/query", "query"); ("GET", "/v1/transparent-spend/init", "spend_init");
   ("POST", "/v1/transparent-spend/cold/query", "spend_cold_query");
   ("POST", "/v1/transparent-spend/warm/query", "spend_warm_query");
   ("POST", "/v1/transparent-spend-cold/query", "spend_cold_query");
   ("POST", "/v1/transparent-spend-warm/query", "spend_warm_query")]%string.

Lemma table_path path rest table endpoint :
  strip_prefix "/v1/" path = Some rest -> split_once 47 (string_bytes rest) [] = Some (table, endpoint) ->
  path = bytes_string (string_bytes "/v1/" ++ string_bytes (bytes_string table) ++ 47 :: string_bytes (bytes_string endpoint)).
Proof.
  intros Hs Hp. unfold strip_prefix in Hs. apply fmap_Some in Hs as (l & Hl & ->).
  pose proof (bytes_ok_string path) as Hok. apply strip_bytes_Some in Hl. rewrite Hl in Hok.
  apply bytes_ok_app in Hok as [_ Hok]. rewrite bytes_of_string in Hp by done.
  apply split_once_Some in Hp. cbn in Hp. rewrite Hp in Hok. apply bytes_ok_app in Hok as [Ht He].
  apply Forall_cons in He as [_ He]. rewrite !bytes_of_string by done. rewrite <- Hp, <- Hl. by rewrite string_of_bytes.
Qed.

Lemma fixed_endpoint_listed method path endpoint :
  fixed_endpoint method path = Some endpoint -> (method, path, endpoint) ∈ allowlist.
Proof.
  unfold fixed_endpoint. intros E. unfold allowlist.
  repeat match type of E with
  | (if ?c then _ else _) = _ =>
      destruct c eqn:Ec;
      [apply andb_true_iff in Ec as [->%bool_decide_eq_true ->%bool_decide_eq_true]; injection E as <-; set_solver|clear Ec]
  end. done.
Qed.

Lemma allowlisted_listed method path endpoint :
  allowlisted_endpoint method path = Some endpoint -> (method, path, endpoint) ∈ allowlist.
Proof.
  unfold allowlisted_endpoint. destruct (fixed_endpoint method path) as [e|] eqn:Ef.
  { intros [= <-]. by apply fixed_endpoint_listed. }
  destruct (strip_prefix "/v1/" path) as [rest|] eqn:Es; [|done]. cbn [mbind option_bind].
  destruct (split_once 47 (string_bytes rest) []) as [[table name]|] eqn:Ep; [|done].
  cbn [mbind option_bind]. cbv zeta. pose proof (table_path _ _ _ _ Es Ep) as Hpath.
  destruct (DatabaseId_from_str (bytes_string table)) as [t|] eqn:Et; [|done].
  assert (bytes_string table = DatabaseId_as_str t) as Ht.
  { unfold DatabaseId_from_str in Et. repeat case_bool_decide; by simplify_eq. }
  rewrite Ht in Hpath. unfold table_endpoint. case_bool_decide as Hm; cbn [negb]; [|done].
  case_bool_decide as Hq; cbn [negb]; [|done]. cbn in Hm. rewrite Hq in Hpath.
  subst method. intros [= <-].
  destruct t; vm_compute in Hpath; subst path; unfold allowlist; set_solver.
Qed.

(** Exactly these requests are tracked: a request gets an endpoint label exactly
    when its method and path are one of eight fixed pairs, and the label is the
    fixed one of that pair. *)
Theorem allowlisted_endpoint_exact method path endpoint :
  allowlisted_endpoint method path = Some endpoint <-> (method, path, endpoint) ∈ allowlist.
Proof.
  split; [apply allowlisted_listed|]. unfold allowlist. intros H.
  repeat (apply elem_of_cons in H as [[= -> -> ->]|H]; [by vm_compute|]). by apply elem_of_nil in H.
Qed.

(** What the labels of a tally may be. *)
Definition guard_listed (g : Guard) : Prop :=
  match g with RequestGuard endpoint method => exists path, (method, path, endpoint) ∈ allowlist | _ => True end.
Definition key_listed (k : MetricKey) : Prop :=
  fst k = family_name http_requests ->
  exists endpoint method path status, snd k = [endpoint; method; status] /\ (method, path, endpoint) ∈ allowlist.
Definition tally_listed (t : Tally) : Prop :=
  map_Forall (fun _ g => guard_listed g) (ty_live t) /\ Forall key_listed (ty_counted t).

Lemma join_listed id g t : guard_listed g -> tally_listed t -> tally_listed (join_task id g t).
Proof.
  intros Hg [Hl Hc]. unfold join_task. destruct (ty_live t !! id); [done|]. split; [|done].
  by apply map_Forall_insert_2.
Qed.

Lemma leave_listed id finish t :
  (forall g counted sampled, guard_listed g -> finish g = Some (counted, sampled) -> Forall key_listed counted) ->
  tally_listed t -> tally_listed (leave_task id finish t).
Proof.
  intros Hf [Hl Hc]. unfold leave_task. destruct (ty_live t !! id) as [g|] eqn:E; cbn [mbind option_bind]; [|done].
  destruct (finish g) as [[counted sampled]|] eqn:Ef; [|done]. split; cbn [ty_live ty_counted].
  - by apply map_Forall_delete.
  - apply Forall_app. split; [|done]. eapply Hf; [|exact Ef]. exact (Hl id g E).
Qed.

Lemma tally_step_listed t e : tally_listed t -> tally_listed (tally_step t e).
Proof.
  intros H. destruct e; cbn [tally_step]; try (by apply join_listed);
    try (apply leave_listed; [|done]; intros [] counted sampled Hg [= <- <-]; repeat constructor; done).
  - destruct (allowlisted_endpoint method path) as [endpoint|] eqn:E; [|done]. apply join_listed; [|done].
    exists path. by apply allowlisted_listed.
  - apply leave_listed; [|done]. intros [] counted sampled Hg [= <- <-]. repeat constructor.
    intros _. destruct Hg as [path Hp]. by exists endpoint, method, path, status.
  - destruct H as [Hl Hc]. split; [done|]. by constructor.
  - done.
Qed.

Lemma times_elem k keys : times k keys <> 0 -> k ∈ keys.
Proof.
  unfold times. intros H. destruct (filter (fun k' => k' = k) keys) as [|k' l] eqn:E; [done|].
  assert (k' ∈ filter (fun k' => k' = k) keys) as [<- Hk]%list_elem_of_filter by (rewrite E; left). done.
Qed.

(** Nothing of a request becomes a label.  In every run, a request counter that is
    not zero has three labels, and its method and endpoint are those of one of the
    eight fixed entries of the allowlist: no path, and no other method, is ever
    exported. *)
Theorem request_labels_fixed {layouts : Layouts} events s labels :
  metrics_run MetricsState_new events = Some s ->
  counter_at (ms_registry s) (family_name http_requests, labels) <> 0 ->
  exists endpoint method path status,
    labels = [endpoint; method; status] /\ (method, path, endpoint) ∈ allowlist.
Proof.
  intros E Hne. destruct (metrics_run_tallies events _ _ new_tallies) as (s' & E' & [_ _ Hc _]).
  rewrite E in E'. injection E' as <-. rewrite Hc in Hne.
  assert (tally_listed (foldl tally_step Tally_new events)) as [_ Hl].
  { clear. assert (tally_listed Tally_new) as H by (split; [apply map_Forall_empty|constructor]). revert H.
    generalize Tally_new. induction events as [|e events IH]; intros t H; [done|]. by apply IH, tally_step_listed. }
  rewrite Forall_forall in Hl. apply (Hl (family_name http_requests, labels)); [|done].
  apply times_elem. intros E0. by rewrite E0 in Hne.
Qed.

Lemma request_labels_fixed_witness :
  exists endpoint method path status,
    ["init"; "GET"; "200"]%string = [endpoint; method; status] /\ (method, path, endpoint) ∈ allowlist.
Proof.
  apply (@request_labels_fixed protocol_layouts
    [RequestArrives 1 "GET" "/v1/enhance/init"; RequestArrives 2 "GET" "/secret"; RequestAnswered 1 "200"]
    (default MetricsState_new (@metrics_run protocol_layouts MetricsState_new
      [RequestArrives 1 "GET" "/v1/enhance/init"; RequestArrives 2 "GET" "/secret"; RequestAnswered 1 "200"]))
    ["init"; "GET"; "200"]%string).
  - vm_compute. reflexivity.
  - vm_compute. discriminate.
Defined.
