(* ===== verification/Observe.v ===== *)
(** * What the coordinator reports of itself and its workers

    Models the views of [server/enhance-pir-server/src/coordinator.rs] that change
    nothing: [manifest], [transparent_spend_session], [workers], [observe] with
    [probe_worker_health], the [/v1/health] and [/metrics] handlers, and the
    [/internal/health] handler of [worker.rs] that the probe reads.  A worker's
    health crosses the network as JSON, which the probe takes apart field by field,
    so JSON values are modelled here.  Memory figures come from [sysinfo] and are
    arguments.  The theorem: after a scrape the exported gauges are what the workers
    and the newest generation say. *)

From Stdlib Require Import ZArith Lia.
From stdpp Require Import base numbers sorting countable strings gmap list.
From S2P Require Import Prelude Cursor FilterTypes Instances EnhanceTypes RecordJournal Wire Ipir Worker Fleet Coordinator Publish SpendTypes ServerMetrics.

Open Scope Z_scope.

(** ** JSON values *)

(** [serde_json::Value]; a number is an integer, or a real that no code reads. *)
Inductive Json :=
| JNull
| JBool (b : bool)
| JInteger (n : Z)
| JReal (text : string)
| JString (s : string)
| JArray (items : list Json)
| JObject (fields : list (string * Json)).

Definition json_get (name : string) (v : Json) : option Json :=
  match v with
  | JObject fields => snd <$> List.find (fun field => bool_decide (fst field = name)) fields
  | _ => None
  end.
Definition as_u64 (v : Json) : option Z :=
  match v with JInteger n => if (0 <=? n) && (n <? u64_bound) then Some n else None | _ => None end.
Definition as_str (v : Json) : option string := match v with JString s => Some s | _ => None end.

(** ** Worker health *)

Record WorkerHealth := {
  wh_status : string; wh_generation : option Z; wh_active_shards : table_map Z; wh_cached_shards : Z;
  wh_total_memory_bytes : Z; wh_available_memory_bytes : Z; wh_process_rss_bytes : Z }.

(** [active.last_key_value()]. *)
Definition newest_active (active : gmap Z ActiveGeneration) : option ActiveGeneration :=
  match (map_to_list active).*1 with
  | [] => None
  | k :: ks => active !! foldr Z.max k ks
  end.

(** [memory] is what [host_memory] returns: total, available, resident. *)
Definition worker_health `{IpirServer} (w : WorkerState) (memory : Z * Z * Z) : WorkerHealth :=
  let newest := newest_active (ws_active w) in
  let '(total_memory_bytes, available_memory_bytes, process_rss_bytes) := memory in
  {| wh_status := "ok"; wh_generation := ag_generation <$> newest;
     wh_active_shards :=
       match newest with None => ∅ | Some generation => zlen <$> ag_tables generation end;
     wh_cached_shards := Z.of_nat (size (ws_shards w));
     wh_total_memory_bytes := total_memory_bytes; wh_available_memory_bytes := available_memory_bytes;
     wh_process_rss_bytes := process_rss_bytes |}.

(** The derived serialization. *)
Definition health_json (h : WorkerHealth) : Json :=
  JObject [("status", JString (wh_status h));
           ("generation", match wh_generation h with None => JNull | Some g => JInteger g end);
           ("active_shards", JObject ((fun '(table, n) => (DatabaseId_as_str table, JInteger n)) <$>
                                      table_iter (wh_active_shards h)));
           ("cached_shards", JInteger (wh_cached_shards h));
           ("total_memory_bytes", JInteger (wh_total_memory_bytes h));
           ("available_memory_bytes", JInteger (wh_available_memory_bytes h));
           ("process_rss_bytes", JInteger (wh_process_rss_bytes h))]%string.

(** ** Probing a worker *)

Record WorkerProbe := {
  wp_up : bool; wp_generation : Z; wp_active_shards : gmap string Z; wp_total_memory_bytes : Z;
  wp_available_memory_bytes : Z; wp_process_rss_bytes : Z }.

Definition WorkerProbe_default : WorkerProbe :=
  {| wp_up := false; wp_generation := 0; wp_active_shards := ∅; wp_total_memory_bytes := 0;
     wp_available_memory_bytes := 0; wp_process_rss_bytes := 0 |}.

(** The reply to a probe: none, or a status with the JSON of the body if it is
    JSON. *)
Definition ProbeReply : Type := option (Z * option Json).

Definition probed_shards (body : Json) : gmap string Z :=
  match json_get "active_shards" body with
  | Some (JObject per_table) =>
      list_to_map (reverse (omap (fun '(table, v) => (fun count => (table, count)) <$> as_u64 v) per_table))
  | Some value =>
      match as_u64 value with Some count => {[DatabaseId_as_str Enhance := count]} | None => ∅ end
  | None => ∅
  end.

Definition probe_worker_health (reply : ProbeReply) : WorkerProbe :=
  match reply with
  | None => WorkerProbe_default
  | Some (status, body) =>
      if negb (is_success status) then WorkerProbe_default else
      match body with
      | None => WorkerProbe_default
      | Some body =>
          let field name := default 0 (json_get name body ≫= as_u64) in
          {| wp_up := bool_decide (json_get "status" body ≫= as_str = Some "ok"%string);
             wp_generation := field "generation"%string; wp_active_shards := probed_shards body;
             wp_total_memory_bytes := field "total_memory_bytes"%string;
             wp_available_memory_bytes := field "available_memory_bytes"%string;
             wp_process_rss_bytes := field "process_rss_bytes"%string |}
      end
  end.

(** The network as probes see it. *)
Class Probe (N : Type) := probe_send : N -> string -> ProbeReply.

(** Every probe reaches the worker behind the URL. *)
Definition direct_probe `{IpirServer} (memory : string -> Z * Z * Z) : Probe (gmap string WorkerState) :=
  fun net base_url => (fun w => (200, Some (health_json (worker_health w (memory base_url))))) <$> net !! base_url.

(** ** The coordinator's views *)

Definition QUERY_BODY_LIMIT : Z := 64 * 1024 * 1024.

Fixpoint first_seen (seen : gset string) (workers : list WorkerTarget) : list WorkerTarget :=
  match workers with
  | [] => []
  | worker :: workers =>
      if bool_decide (WorkerTarget_name worker ∈ seen) then first_seen seen workers
      else worker :: first_seen ({[WorkerTarget_name worker]} ∪ seen) workers
  end.

Definition sum (l : list Z) : Z := foldr Z.add 0 l.

Record TableHealth := { th_shards : Z; th_workers : Z }.
Record CoordinatorHealth := {
  ch_phase : CoordinatorPhase; ch_generation : option Z; ch_retained_generations : Z;
  ch_anchor_height : option Z; ch_ironwood_tree_size : option Z; ch_tables : table_map TableHealth }.

Section views.
Context {layouts : Layouts} `{IpirPack} `{Schedule} `{Base64} {N : Type} `{!Probe N}.

Definition coordinator_manifest (c : CoordinatorState) : option GenerationManifest := gs_manifest <$> newest c.

(** The session of one tier, from the snapshot of both. *)
Definition tier_session (snapshot : GenerationSnapshot) (cold_end_height : Z) (database : DatabaseId) :
    option TransparentSpendTableSession :=
  table ← gs_tables snapshot !! database;
  let anchor := gs_manifest snapshot in
  let manifest := sn_manifest table in
  Some {| sts_generation := {|
            sg_schema_version := SPEND_SCHEMA_VERSION; sg_protocol_revision := SPEND_PROTOCOL_REVISION;
            sg_network := SPEND_NETWORK; sg_tip_height := gm_anchor_height anchor;
            sg_tip_block_hash := gm_anchor_block_hash anchor;
            sg_ironwood_tree_size := gm_ironwood_tree_size anchor; sg_generation := gm_generation anchor;
            sg_cold_end_height := cold_end_height; sg_buckets := tm_positions manifest;
            sg_row_bytes := tm_row_bytes manifest; sg_shard_rows := tm_shard_rows manifest;
            sg_logical_rows := tm_logical_rows manifest; sg_parameter_id := tm_parameter_id manifest;
            sg_setup_seed := tm_setup_seed manifest;
            sg_public_params_epoch := tm_public_params_epoch manifest;
            sg_public_params_sha256 := tm_public_params_sha256 manifest; sg_shards := tm_shards manifest |};
          sts_params := sn_ypir table;
          sts_public_params_base64 := base64_encode (sn_public_params table) |}.

Definition transparent_spend_session (c : CoordinatorState) : option TransparentSpendSession :=
  snapshot ← newest c;
  let anchor := gs_manifest snapshot in
  let cold_end_height := saturating_sub (gm_anchor_height anchor) WARM_BLOCKS in
  cold ← tier_session snapshot cold_end_height TransparentSpendCold;
  warm ← tier_session snapshot cold_end_height TransparentSpendWarm;
  Some {| ss_tip_height := gm_anchor_height anchor; ss_tip_block_hash := gm_anchor_block_hash anchor;
          ss_ironwood_tree_size := gm_ironwood_tree_size anchor; ss_generation := gm_generation anchor;
          ss_cold_end_height := cold_end_height; ss_cold := cold; ss_warm := warm |}.

Definition table_groups (c : CoordinatorState) : list (DatabaseId * WorkerGroup) :=
  '(table, state) ← table_iter (co_tables c); pair table <$> su_groups (tb_setup state).

Definition workers (c : CoordinatorState) : list WorkerTarget :=
  first_seen ∅ (table_groups c ≫= fun tg => wg_replicas (snd tg)).

(** ** Observing *)

(** [slots] are the permits left of each table's semaphore. *)
Definition observe_table (c : CoordinatorState) (slots : DatabaseId -> Z) (table : DatabaseId) : TableObservation :=
  let state := co_tables c !! table in
  let published := m ← coordinator_manifest c; gm_tables m !! table in
  let of_published {A} (f : TableManifest -> A) (d : A) := from_option f d published in
  {| to_table := table; to_registered := bool_decide (is_Some state);
     to_pool_workers := from_option (fun t => zlen (su_groups (tb_setup t))) 0 state;
     to_query_slots_available := from_option (fun _ => slots table) 0 state;
     to_positions := of_published tm_positions 0; to_used_rows := of_published tm_used_rows 0;
     to_logical_rows := of_published tm_logical_rows 0;
     to_shards := of_published (fun t => zlen (tm_shards t)) 0;
     to_sealed_shards :=
       of_published (fun t => zlen (base.filter (fun s => sd_sealed s = true) (tm_shards t))) 0 |}.

(** A worker's share of a table: the first group it is a replica of, with the
    shards assigned to that group. *)
Definition has_replica (name : string) (group : WorkerGroup) : bool :=
  existsb (fun candidate => bool_decide (WorkerTarget_name candidate = name)) (wg_replicas group).

Definition worker_share (c : CoordinatorState) (name : string) (table : DatabaseId) (state : TableState) :
    option (DatabaseId * Z * Z * Z) :=
  '(pool_index, group) ← list_find (fun group => has_replica name group = true) (su_groups (tb_setup state));
  let assigned :=
    from_option (fun t => base.filter (fun s => sd_worker s = wg_name group) (tm_shards t)) []
      (m ← coordinator_manifest c; gm_tables m !! table) in
  Some (table, Z.of_nat pool_index, zlen assigned, wrap64 (sum (sd_populated_positions <$> assigned))).

Definition worker_shares (c : CoordinatorState) (name : string) : list (DatabaseId * Z * Z * Z) :=
  omap (fun '(table, state) => worker_share c name table state) (table_iter (co_tables c)).

(** The probe of one worker; an embedded one is up. *)
Definition probe_worker (net : N) (memory : Z * Z * Z) (worker : WorkerTarget) : WorkerProbe :=
  match worker with
  | Embedded _ =>
      let '(total, available, rss) := memory in
      {| wp_up := true; wp_generation := 0; wp_active_shards := ∅; wp_total_memory_bytes := total;
         wp_available_memory_bytes := available; wp_process_rss_bytes := rss |}
  | Remote _ base_url => probe_worker_health (probe_send net base_url)
  end.

Definition observe_worker (c : CoordinatorState) (net : N) (memory : Z * Z * Z) (index : nat)
    (worker : WorkerTarget) : WorkerObservation :=
  let name := WorkerTarget_name worker in
  let probe := probe_worker net memory worker in
  {| wo_name := name; wo_index := Z.of_nat index; wo_up := wp_up probe; wo_generation := wp_generation probe;
     wo_total_memory_bytes := wp_total_memory_bytes probe;
     wo_available_memory_bytes := wp_available_memory_bytes probe;
     wo_process_rss_bytes := wp_process_rss_bytes probe;
     wo_tables :=
       (fun '(table, pool_index, assigned_shards, populated_positions) =>
          {| wt_table := table; wt_index := pool_index; wt_assigned_shards := assigned_shards;
             wt_populated_positions := populated_positions;
             wt_active_shards := default 0 (wp_active_shards probe !! DatabaseId_as_str table) |}) <$>
       worker_shares c name |}.

Definition index_le (a b : nat * WorkerObservation) : Prop := (fst a <= fst b)%nat.
#[local] Instance index_le_dec : RelDecision index_le.
Proof. intros a b. unfold index_le. apply _. Defined.

(** The probes finish in any order and are sorted by index. *)
Definition observe_workers (c : CoordinatorState) (net : N) (memory : Z * Z * Z) : list WorkerObservation :=
  snd <$> merge_sort index_le (join_order _
    (imap (fun index worker => (index, observe_worker c net memory index worker)) (workers c))).

Definition observe_group (c : CoordinatorState) (table : DatabaseId) (group : WorkerGroup) : WorkerGroupObservation :=
  {| go_table := table; go_name := wg_name group; go_configured_replicas := zlen (wg_replicas group);
     go_ready_replicas :=
       from_option (fun ready => zlen (rg_replicas ready)) 0
         (snapshot ← newest c; t ← gs_tables snapshot !! table; sn_ready_groups t !! wg_name group) |}.

Definition observe (c : CoordinatorState) (net : N) (memory : Z * Z * Z) (slots : DatabaseId -> Z) : Observation :=
  let manifest := coordinator_manifest c in
  {| ob_phase := Some (cs_phase (co_status c));
     ob_anchor_height := from_option gm_anchor_height 0 manifest;
     ob_generation := from_option gm_generation 0 manifest;
     ob_ironwood_tree_size := from_option gm_ironwood_tree_size 0 manifest;
     ob_retained_generations := zlen (co_live c);
     ob_tables := observe_table c slots <$> DatabaseId_ALL;
     ob_worker_details := observe_workers c net memory;
     ob_worker_groups := (fun '(table, group) => observe_group c table group) <$> table_groups c |}.

(** ** Handlers *)

(** [/metrics], up to the text rendering. *)
Definition handle_metrics (c : CoordinatorState) (net : N) (memory : Z * Z * Z) (slots : DatabaseId -> Z)
    (m : Registry) : option Registry :=
  record_observation (observe c net memory slots) m.

(** [/v1/health]: status and body. *)
Definition coordinator_health (c : CoordinatorState) (now : Z) : Z * CoordinatorHealth :=
  let manifest := coordinator_manifest c in
  (health_handler c now,
   {| ch_phase := cs_phase (co_status c); ch_generation := gm_generation <$> manifest;
      ch_retained_generations := zlen (co_live c); ch_anchor_height := gm_anchor_height <$> manifest;
      ch_ironwood_tree_size := gm_ironwood_tree_size <$> manifest;
      ch_tables := map_imap (fun table state => Some
        {| th_shards := from_option (fun t => zlen (tm_shards t)) 0 (m ← manifest; gm_tables m !! table);
           th_workers := sum ((fun group => zlen (wg_replicas group)) <$> su_groups (tb_setup state)) |})
        (co_tables c) |}).

(** [/v1/enhance/query]: a body above the limit is refused before the handler runs;
    [admitted] as in [answer]. *)
Definition query_handler `{!Hex} `{!Sha256} `{!Ipir} `{!IpirServer} {W : Type} `{!Http W} (c : CoordinatorState)
    (wd : World W) (body : list Z) (admitted : bool) : Z * list Z * CoordinatorState * World W :=
  if QUERY_BODY_LIMIT <? zlen body then (413, [], c, wd) else answer_handler c wd Enhance body admitted.
End views.

(** ** Distinct names *)

(** The group names of each table are distinct. *)
Definition distinct_groups `{IpirPack} (c : CoordinatorState) : Prop :=
  forall table state, co_tables c !! table = Some state -> NoDup (wg_name <$> su_groups (tb_setup state)).

Lemma first_seen_NoDup l : forall seen,
  NoDup (WorkerTarget_name <$> first_seen seen l) /\ (forall w, w ∈ first_seen seen l -> WorkerTarget_name w ∉ seen).
Proof.
  induction l as [|w l IH]; intros seen; cbn [first_seen].
  { split; [constructor|]. intros w Hw%elem_of_nil. done. }
  case_bool_decide as Hin; [apply IH|].
  destruct (IH ({[WorkerTarget_name w]} ∪ seen)) as [Hnd Hout]. split.
  - rewrite fmap_cons. constructor; [|done]. intros (w' & E & Hw')%list_elem_of_fmap. specialize (Hout w' Hw'). set_solver.
  - intros w' [->|Hw']%elem_of_cons; [done|]. specialize (Hout w' Hw'). set_solver.
Qed.

Lemma adjacent_NoDup l :
  Sorted name_le l -> has_adjacent_duplicates l = false -> NoDup l.
Proof.
  intros Hs Ha. apply Sorted_StronglySorted in Hs.
  2:{ intros x y z Hx Hy. unfold name_le in *. apply Is_true_true. apply Is_true_true in Hx, Hy. by transitivity y. }
  induction Hs as [|a l Hs IH Hall]; [constructor|]. constructor.
  - destruct l as [|b l]; [intros Hn%elem_of_nil; done|]. cbn [has_adjacent_duplicates] in Ha. bool_prop.
    intros [->|Hin]%elem_of_cons; [done|]. inversion Hs as [|? ? _ Hb]; subst. rewrite Forall_forall in Hb, Hall.
    assert (a = b); [|done]. apply String.leb_antisym; [apply Hall; left|by apply Hb].
  - apply IH. destruct l as [|b l]; [done|]. cbn [has_adjacent_duplicates] in Ha. by bool_prop.
Qed.

#[local] Instance name_le_total : Total name_le.
Proof. intros a b. apply String.leb_total. Qed.

Section distinct.
Context {layouts : Layouts} `{Hex} `{Sha256} `{Ipir} `{IpirServer} `{IpirPack} `{Schedule} {N : Type} `{!Http N}.

Lemma build_tables_distinct setups slots : forall tables tables',
  build_tables setups slots tables = Ok tables' ->
  (forall t st, tables !! t = Some st -> NoDup (wg_name <$> su_groups (tb_setup st))) ->
  forall t st, tables' !! t = Some st -> NoDup (wg_name <$> su_groups (tb_setup st)).
Proof.
  induction setups as [|setup setups IH]; intros tables tables' E Hall; cbn [build_tables] in E; [by injection E as <-|].
  destruct (su_groups setup) as [|g gs] eqn:Eg; [done|]. rewrite <- Eg in *.
  destruct (has_adjacent_duplicates _) eqn:Ead; [done|].
  destruct (check_groups (su_groups setup) ∅); [|done]. destruct (tables !! su_table setup); [done|].
  destruct (shard_parameters _) as [[rlwe q]|]; [|done]. apply (IH _ _ E).
  intros t st [[<- <-]|[_ Hst]]%lookup_insert_Some; [|by eapply Hall].
  cbn [tb_setup]. apply adjacent_NoDup in Ead; [|apply Sorted_merge_sort, _].
  by rewrite (merge_sort_Permutation name_le) in Ead.
Qed.

Lemma new_distinct setups slots now c :
  CoordinatorState_with_query_slots setups slots now = Ok c -> distinct_groups c.
Proof.
  unfold CoordinatorState_with_query_slots. destruct setups as [|s setups]; [done|].
  destruct (build_tables (s :: setups) slots ∅) as [tables|] eqn:E; [|done]. intros [= <-].
  exact (build_tables_distinct _ _ _ _ E ltac:(intros t st Hst; by rewrite lookup_empty in Hst)).
Qed.

(** Publishing changes only the hint caches of the tables. *)
Definition setups `{IpirPack} (c : CoordinatorState) : table_map TableSetup := tb_setup <$> co_tables c.

Lemma hint_cache_setups c table cache : setups (set_hint_cache c table cache) = setups c.
Proof.
  unfold setups, set_hint_cache. cbn [co_tables]. apply map_eq. intros t.
  rewrite !lookup_fmap. destruct (decide (table = t)) as [->|Hne].
  - rewrite lookup_alter_eq. by destruct (co_tables c !! t).
  - by rewrite lookup_alter_ne.
Qed.

Lemma build_table_setups c wd source g : setups (snd (fst (build_table c wd source g))) = setups c.
Proof.
  unfold build_table.
  repeat match goal with
  | |- context [match ?x with _ => _ end] =>
      match x with
      | build_shards _ _ _ _ _ _ _ => destruct x as [bs r']
      | _ => destruct x; try done
      end
  end; cbn [fst snd]; by rewrite ?hint_cache_setups.
Qed.

Lemma publish_tables_setups sources g : forall c wd,
  setups (snd (fst (publish_tables c wd sources g))) = setups c.
Proof.
  induction sources as [|source sources IH]; intros c wd; cbn [publish_tables]; [done|].
  pose proof (build_table_setups c wd source g) as Hb.
  destruct (build_table c wd source g) as [[[snapshot|] c1] wd1]; cbn [fst snd] in *; [|done].
  specialize (IH c1 wd1). destruct (publish_tables c1 wd1 sources g) as [[r c2] wd2]. cbn [fst snd] in *. congruence.
Qed.

Lemma publish_setups c wd sources anchor now : setups (snd (fst (publish c wd sources anchor now))) = setups c.
Proof.
  unfold publish. destruct (base.filter _ sources) as [|source rest]; [done|].
  match goal with |- context [publish_tables ?c1 wd ?l ?g] => pose proof (publish_tables_setups l g c1 wd) as Hp;
    destruct (publish_tables c1 wd l g) as [[[snapshots|] c2] wd2] end; exact Hp.
Qed.

Lemma distinct_setups c c' : setups c' = setups c -> distinct_groups c -> distinct_groups c'.
Proof.
  intros E Hd t st Hst. assert (setups c !! t = Some (tb_setup st)) as Hs.
  { rewrite <- E. unfold setups. by rewrite lookup_fmap, Hst. }
  unfold setups in Hs. rewrite lookup_fmap in Hs. destruct (co_tables c !! t) as [st'|] eqn:Est; [|done].
  injection Hs as <-. by apply (Hd t).
Qed.
End distinct.

(** ** The gauges of a scrape are all different *)

(** The groups of families [record_observation] writes with the same labels. *)
Definition family_group (f : Family) : nat :=
  match f with
  | table_registered | table_record_bytes | table_records_per_row | table_shard_rows
  | table_shard_positions | table_shards_per_worker | table_pool_workers
  | table_query_slots_available | table_positions | table_used_rows | table_logical_rows
  | table_shards | table_sealed_shards => 1
  | worker_up | worker_generation | worker_index | worker_total_memory_bytes
  | worker_available_memory_bytes | worker_process_rss_bytes
  | worker_table_index | worker_table_assigned_shards | worker_table_populated_positions
  | worker_table_active_shards => 2
  | worker_group_configured_replicas | worker_group_ready_replicas => 3
  | layout_confirmations | layout_activation_height => 4
  | _ => 0
  end.

Definition in_group (n : nat) (w : GaugeWrite) : Prop := family_group (fst (fst w)) = n.

Lemma NoDup_write_app n a b :
  Forall (in_group n) a -> Forall (fun w => family_group (fst (fst w)) <> n) b ->
  NoDup (write_key <$> a) -> NoDup (write_key <$> b) -> NoDup (write_key <$> (a ++ b)).
Proof.
  intros Ha Hb Hna Hnb. rewrite fmap_app. apply NoDup_app. split; [done|]. split; [|done].
  intros k (w & -> & Hw)%list_elem_of_fmap (w' & E & Hw')%list_elem_of_fmap.
  rewrite Forall_forall in Ha, Hb. specialize (Ha w Hw). specialize (Hb w' Hw').
  unfold write_key in E. injection E as E _. apply family_name_inj in E. unfold in_group in Ha. congruence.
Qed.

Lemma NoDup_labelled (fvs : list (Family * Z)) labels :
  NoDup (fst <$> fvs) -> NoDup (write_key <$> ((fun '(f, v) => (f, labels, v)) <$> fvs)).
Proof.
  intros Hnd. rewrite <- list_fmap_compose.
  rewrite (list_fmap_ext _ ((fun f => (family_name f, labels)) ∘ fst) fvs).
  - rewrite list_fmap_compose. apply NoDup_fmap_2; [|done]. intros f g [= E]. by apply family_name_inj.
  - intros i [f v] _. done.
Qed.

(** One batch of writes per item, told apart by a part of the labels. *)
Lemma NoDup_batches {A B} (writes : A -> list GaugeWrite) (name : A -> B) (of_labels : list string -> B) l :
  NoDup (name <$> l) -> (forall x, x ∈ l -> NoDup (write_key <$> writes x)) ->
  (forall x, x ∈ l -> Forall (fun w => of_labels (snd (fst w)) = name x) (writes x)) ->
  NoDup (write_key <$> (l ≫= writes)).
Proof.
  induction l as [|x l IH]; intros Hnd Hx Hn; [constructor|]. rewrite fmap_cons, NoDup_cons in Hnd.
  destruct Hnd as [Hnew Hnd]. rewrite bind_cons, fmap_app. apply NoDup_app. split_and!.
  - apply Hx. left.
  - intros k (w & -> & Hw)%list_elem_of_fmap (w' & E & Hw')%list_elem_of_fmap.
    apply list_elem_of_bind in Hw' as (y & Hw' & Hy). apply Hnew.
    pose proof (Hn x ltac:(left)) as Hnx. pose proof (Hn y ltac:(by right)) as Hny. rewrite Forall_forall in Hnx, Hny.
    rewrite <- (Hnx w Hw). injection E as _ E. rewrite E, (Hny w' Hw'). by apply list_elem_of_fmap_2.
  - apply IH; [done|..]; intros y Hy; [apply Hx|apply Hn]; by right.
Qed.

Lemma as_str_group_inj t t' (n n' : string) :
  [DatabaseId_as_str t; n] = [DatabaseId_as_str t'; n'] -> t = t' /\ n = n'.
Proof. intros [= E ->]. split; [by apply as_str_inj|done]. Qed.

Ltac groups := rewrite ?Forall_app; repeat split; try (apply Forall_bind, Forall_true; intros);
  unfold table_writes, share_writes, group_writes, layout_writes, in_group; repeat constructor; done.

Lemma worker_writes_group w : Forall (in_group 2) (worker_writes w).
Proof. unfold worker_writes. groups. Qed.

Lemma worker_writes_NoDup w : NoDup (wt_table <$> wo_tables w) -> NoDup (write_key <$> worker_writes w).
Proof.
  intros Hnd. unfold worker_writes. rewrite fmap_app. apply NoDup_app. split_and!.
  - apply NoDup_labelled. apply (bool_decide_unpack _). by vm_compute.
  - intros k (x & -> & Hx)%list_elem_of_fmap (y & E & Hy)%list_elem_of_fmap.
    apply list_elem_of_fmap in Hx as ([f v] & -> & _). apply list_elem_of_bind in Hy as (s & Hy & _).
    apply list_elem_of_fmap in Hy as ([f' v'] & -> & _). unfold write_key in E. cbn [fst snd] in E. injection E. done.
  - apply (NoDup_batches (share_writes (wo_name w)) wt_table
      (fun labels => match labels with [_; t] => match DatabaseId_from_str t with Ok t => t | Err _ => Enhance end
                     | _ => Enhance end)); [done|..].
    + intros s _. apply NoDup_labelled. apply (bool_decide_unpack _). by vm_compute.
    + intros s _. destruct (wt_table s) eqn:Et; unfold share_writes; rewrite Et; repeat constructor.
Qed.

Lemma observation_NoDup {layouts : Layouts} o :
  NoDup (to_table <$> ob_tables o) -> NoDup (wo_name <$> ob_worker_details o) ->
  Forall (fun w => NoDup (wt_table <$> wo_tables w)) (ob_worker_details o) ->
  NoDup ((fun g => (go_table g, go_name g)) <$> ob_worker_groups o) ->
  NoDup (write_key <$> observation_writes o).
Proof.
  intros Ht Hw Hwt Hg. unfold observation_writes.
  apply (NoDup_write_app 0).
  { unfold snapshot_writes, phase_writes. destruct (ob_phase o) as [[]|]; repeat constructor. }
  { rewrite !Forall_app. split_and!; [groups| |groups|groups].
    apply Forall_bind, Forall_true. intros w. eapply Forall_impl; [apply worker_writes_group|]. intros x ->. done. }
  { unfold snapshot_writes, phase_writes. destruct (ob_phase o) as [[]|];
      apply (bool_decide_unpack _); by vm_compute. }
  apply (NoDup_write_app 1); [groups| | |].
  { rewrite !Forall_app. split_and!; [|groups|groups].
    apply Forall_bind, Forall_true. intros w. eapply Forall_impl; [apply worker_writes_group|]. intros x ->. done. }
  { apply (NoDup_batches table_writes to_table
      (fun labels => match labels with [t] => match DatabaseId_from_str t with Ok t => t | Err _ => Enhance end
                     | _ => Enhance end)); [done|..].
    - intros t _. apply NoDup_labelled. apply (bool_decide_unpack _). by vm_compute.
    - intros t _. destruct (to_table t) eqn:Et; unfold table_writes; rewrite Et; repeat constructor. }
  apply (NoDup_write_app 2); [apply Forall_bind, Forall_true; intros; apply worker_writes_group|groups| |].
  { apply (NoDup_batches worker_writes (fun w => Some (wo_name w)) head).
    - rewrite (list_fmap_compose wo_name Some). apply NoDup_fmap_2; [by intros ?? [=]|done].
    - intros w Hin. apply worker_writes_NoDup. rewrite Forall_forall in Hwt. by apply Hwt.
    - intros w _. unfold worker_writes. groups. }
  apply (NoDup_write_app 3); [groups|groups| |].
  { apply (NoDup_batches group_writes (fun g => [DatabaseId_as_str (go_table g); go_name g]) id).
    - rewrite (list_fmap_compose (fun g => (go_table g, go_name g)) (fun p => [DatabaseId_as_str (fst p); snd p])).
      apply NoDup_fmap_2; [|done]. intros [t n] [t' n'] [Et En]%as_str_group_inj. cbn [fst snd] in *. congruence.
    - intros g _. apply NoDup_labelled. apply (bool_decide_unpack _). by vm_compute.
    - intros g _. groups. }
  apply (bool_decide_unpack _). by vm_compute.
Qed.

(** ** What a probe learns *)

(** What a worker has active, as numbers of 64 bits. *)
Definition active_generation `{IpirServer} (w : WorkerState) : Z :=
  from_option ag_generation 0 (newest_active (ws_active w)).
Definition active_shards `{IpirServer} (w : WorkerState) (table : DatabaseId) : Z :=
  from_option zlen 0 (g ← newest_active (ws_active w); ag_tables g !! table).
Definition reportable `{IpirServer} (w : WorkerState) : Prop :=
  0 <= active_generation w < u64_bound /\ forall table, active_shards w table < u64_bound.

Lemma as_u64_ok n : 0 <= n < u64_bound -> as_u64 (JInteger n) = Some n.
Proof. intros Hn. cbn. destruct (0 <=? n) eqn:E1, (n <? u64_bound) eqn:E2; bool_prop; try lia; done. Qed.

Lemma probed_shards_json h table :
  (forall t n, wh_active_shards h !! t = Some n -> 0 <= n < u64_bound) ->
  probed_shards (health_json h) !! DatabaseId_as_str table = wh_active_shards h !! table.
Proof.
  intros Hr. unfold probed_shards, health_json. cbn [json_get List.find bool_decide fst snd].
  repeat (rewrite bool_decide_eq_false_2 by done; cbn [List.find fst snd]).
  rewrite bool_decide_eq_true_2 by done. cbn [fmap option_fmap option_map snd].
  unfold table_iter. cbn [omap list_omap].
  destruct (wh_active_shards h !! Enhance) as [n1|] eqn:E1; destruct (wh_active_shards h !! TransparentSpendCold) as [n2|] eqn:E2;
    destruct (wh_active_shards h !! TransparentSpendWarm) as [n3|] eqn:E3;
    cbn [fmap option_fmap option_map list_fmap omap list_omap];
    repeat (rewrite as_u64_ok by eauto; cbn [fmap option_fmap option_map omap list_omap]);
    destruct table; rewrite ?E1, ?E2, ?E3; by vm_compute.
Qed.

Lemma probe_health `{IpirServer} w memory :
  reportable w ->
  let probe := probe_worker_health (Some (200, Some (health_json (worker_health w memory)))) in
  wp_up probe = true /\ wp_generation probe = active_generation w /\
  forall table, default 0 (wp_active_shards probe !! DatabaseId_as_str table) = active_shards w table.
Proof.
  intros [Hg Hs] probe. destruct memory as [[total available] rss]. split_and!.
  - done.
  - change (wp_generation probe) with (default 0 (as_u64
      match ag_generation <$> newest_active (ws_active w) with None => JNull | Some g => JInteger g end)).
    unfold active_generation in *. destruct (newest_active (ws_active w)) as [g|]; [|done].
    cbn [fmap option_fmap option_map from_option] in *. by rewrite as_u64_ok.
  - intros table. change (wp_active_shards probe) with
      (probed_shards (health_json (worker_health w (total, available, rss)))). rewrite probed_shards_json.
    + unfold active_shards. cbn [worker_health wh_active_shards]. destruct (newest_active (ws_active w)) as [g|]; [|done].
      cbn [mbind option_bind]. rewrite lookup_fmap. by destruct (ag_tables g !! table).
    + intros t n. cbn [worker_health wh_active_shards]. specialize (Hs t). unfold active_shards in Hs.
      destruct (newest_active (ws_active w)) as [g|]; [|by rewrite lookup_empty]. cbn [mbind option_bind] in Hs.
      rewrite lookup_fmap. destruct (ag_tables g !! t) as [l|]; [|done]. cbn in Hs |- *. intros [= <-].
      split; [apply zlen_nonneg|done].
Qed.

(** ** A scrape *)

Section scrape.
Context {layouts : Layouts} `{IpirServer} `{IpirPack} `{Schedule} {N : Type} `{!Probe N}.

#[local] Existing Instance index_le_dec.
#[local] Instance index_le_total : Total index_le.
Proof. intros a b. unfold index_le. lia. Qed.

Lemma imap_sorted {A} (f : nat -> A -> WorkerObservation) l : forall n,
  StronglySorted index_le (imap (fun i x => (n + i, f (n + i) x)%nat) l).
Proof.
  induction l as [|x l IH]; intros n; [constructor|]. rewrite imap_cons. constructor.
  - rewrite (imap_ext _ (fun i y => (S n + i, f (S n + i) y)%nat)); [apply IH|]. intros i y _. cbn. by rewrite Nat.add_succ_r.
  - apply Forall_lookup. intros i [k o] Hi. rewrite list_lookup_imap in Hi. destruct (l !! i); [|done].
    injection Hi as <- _. unfold index_le. cbn. lia.
Qed.

(** The probes come back in any order; the observations are in the workers' order. *)
Lemma observe_workers_order (c : CoordinatorState) (net : N) memory :
  observe_workers c net memory = imap (observe_worker c net memory) (workers c).
Proof.
  unfold observe_workers. set (l := imap (fun index worker => (index, observe_worker c net memory index worker)) (workers c)).
  assert (merge_sort index_le (join_order _ l) = l) as ->.
  { apply (StronglySorted_unique_strong index_le).
    - intros [i x] [j y] Hx Hy Hij Hji. unfold index_le in *. cbn [fst] in *. assert (i = j) as <- by lia.
      rewrite (merge_sort_Permutation index_le), join_order_perm in Hx.
      apply list_elem_of_lookup in Hx as [a Ha]. apply list_elem_of_lookup in Hy as [b Hb]. subst l.
      rewrite list_lookup_imap in Ha, Hb. destruct (workers c !! a) eqn:Ea; [|done]. destruct (workers c !! b) eqn:Eb; [|done].
      cbn in Ha, Hb. injection Ha as -> <-. injection Hb as -> <-. congruence.
    - apply StronglySorted_merge_sort; [intros ? ? ?; unfold index_le; lia|apply _].
    - exact (imap_sorted (observe_worker c net memory) (workers c) 0).
    - by rewrite (merge_sort_Permutation index_le), join_order_perm. }
  subst l. rewrite fmap_imap. done.
Qed.

Lemma imap_names (c : CoordinatorState) (net : N) memory l :
  wo_name <$> imap (observe_worker c net memory) l = WorkerTarget_name <$> l.
Proof. rewrite fmap_imap. apply list_eq. intros i. rewrite list_lookup_imap, list_lookup_fmap. by destruct (l !! i). Qed.

Lemma table_iter_keys {A} (m : table_map A) : NoDup (table_iter m).*1.
Proof.
  unfold table_iter. cbn [omap list_omap]. destruct (m !! Enhance), (m !! TransparentSpendCold), (m !! TransparentSpendWarm);
    cbn; apply (bool_decide_unpack _); by vm_compute.
Qed.

Lemma omap_keys {A B} (f : DatabaseId * A -> option B) (key : B -> DatabaseId) l :
  (forall x y, f x = Some y -> key y = fst x) -> NoDup l.*1 -> NoDup (key <$> omap f l).
Proof.
  intros Hk. induction l as [|x l IH]; intros Hnd; [constructor|]. rewrite fmap_cons, NoDup_cons in Hnd. destruct Hnd as [Hx Hnd].
  cbn [omap list_omap]. destruct (f x) as [y|] eqn:E; [|by apply IH]. rewrite fmap_cons. constructor; [|by apply IH].
  rewrite (Hk _ _ E). intros (z & Ez & Hz)%list_elem_of_fmap. apply list_elem_of_omap in Hz as (x' & Hx' & Ex').
  apply Hx. rewrite Ez, (Hk _ _ Ex'). by apply list_elem_of_fmap_2.
Qed.

Lemma observe_worker_tables (c : CoordinatorState) (net : N) memory index worker :
  wt_table <$> wo_tables (observe_worker c net memory index worker) =
  (fun share => fst (fst (fst share))) <$> worker_shares c (WorkerTarget_name worker).
Proof. cbn [observe_worker wo_tables]. rewrite <- list_fmap_compose. apply list_fmap_ext. by intros i [[[t p] a] q] _. Qed.

Lemma worker_share_table (c : CoordinatorState) name table state share :
  worker_share c name table state = Some share -> fst (fst (fst share)) = table.
Proof.
  unfold worker_share. destruct (list_find _ _) as [[i g]|]; [|done]. cbn [mbind option_bind]. by intros [= <-].
Qed.

Lemma observe_distinct (c : CoordinatorState) (net : N) memory slots :
  distinct_groups c -> NoDup (write_key <$> observation_writes (observe c net memory slots)).
Proof.
  intros Hd. apply observation_NoDup; cbn [observe ob_tables ob_worker_details ob_worker_groups].
  - apply (bool_decide_unpack _). by vm_compute.
  - rewrite observe_workers_order, imap_names. apply first_seen_NoDup.
  - rewrite observe_workers_order. apply Forall_lookup. intros i o Hi. rewrite list_lookup_imap in Hi.
    destruct (workers c !! i) as [w|]; [|done]. cbn in Hi. injection Hi as <-. rewrite observe_worker_tables.
    apply (omap_keys _ (fun share => fst (fst (fst share)))); [|apply table_iter_keys].
    intros [t st] share E. by apply worker_share_table in E.
  - rewrite <- list_fmap_compose.
    rewrite (list_fmap_ext _ (fun tg : DatabaseId * WorkerGroup => (fst tg, wg_name (snd tg)))); [|by intros i [t g] _].
    unfold table_groups. pose proof (table_iter_keys (co_tables c)) as Hk.
    assert (forall t st, (t, st) ∈ table_iter (co_tables c) -> NoDup (wg_name <$> su_groups (tb_setup st))) as Hd'.
    { intros t st Hin%table_iter_elem. by apply (Hd t). }
    clear Hd. induction (table_iter (co_tables c)) as [|[t st] l IH]; [constructor|].
    rewrite fmap_cons, NoDup_cons in Hk. destruct Hk as [Hnew Hk]. rewrite bind_cons, fmap_app. apply NoDup_app. split_and!.
    + rewrite <- list_fmap_compose.
      rewrite (list_fmap_ext _ (pair t ∘ wg_name)); [|done]. rewrite list_fmap_compose.
      apply NoDup_fmap_2; [by intros ? ? [=]|]. apply (Hd' t). left.
    + intros k (tg & -> & Htg)%list_elem_of_fmap (tg' & E & Htg')%list_elem_of_fmap.
      apply list_elem_of_fmap in Htg as (g & -> & _). apply list_elem_of_bind in Htg' as ([t' st'] & Htg' & Hin).
      apply list_elem_of_fmap in Htg' as (g' & -> & _). cbn in E. injection E as -> _. apply Hnew.
      by apply (list_elem_of_fmap_2 fst _ (t', st')).
    + apply IH; [done|]. intros t' st' Hin. apply (Hd' t'). by right.
Qed.

(** The exported value of a family with the given labels. *)
Definition exported (m : Registry) (f : Family) (labels : list string) : Z := gauge_at m (family_name f, labels).

Lemma scrape_exported (c : CoordinatorState) (net : N) memory slots m :
  distinct_groups c ->
  exists m', handle_metrics c net memory slots m = Some m' /\
    forall f labels v, (f, labels, v) ∈ observation_writes (observe c net memory slots) -> exported m' f labels = v.
Proof.
  intros Hd. unfold handle_metrics, record_observation.
  destruct (write_gauges_exact _ m (observation_writes_ok (observe c net memory slots))) as (m' & -> & _ & _ & _ & Hin).
  exists m'. split; [done|]. intros f labels v Hw. by apply (Hin (observe_distinct c net memory slots Hd) _ Hw).
Qed.

(** The writes for one worker and for one group are among those of a scrape. *)
Lemma worker_written (c : CoordinatorState) (net : N) memory slots worker :
  worker ∈ workers c ->
  exists index, forall w, w ∈ worker_writes (observe_worker c net memory index worker) ->
    w ∈ observation_writes (observe c net memory slots).
Proof.
  intros Hw. apply list_elem_of_lookup in Hw as [i Hi]. exists i. intros w Hin. unfold observation_writes.
  rewrite !elem_of_app. right. right. left. apply list_elem_of_bind. eexists. split; [exact Hin|].
  cbn [observe ob_worker_details]. rewrite observe_workers_order. apply list_elem_of_lookup. exists i.
  by rewrite list_lookup_imap, Hi.
Qed.

Lemma group_written (c : CoordinatorState) (net : N) memory slots table state group :
  co_tables c !! table = Some state -> group ∈ su_groups (tb_setup state) ->
  forall w, w ∈ group_writes (observe_group c table group) -> w ∈ observation_writes (observe c net memory slots).
Proof.
  intros Hst Hg w Hin. unfold observation_writes. rewrite !elem_of_app. right. right. right. left.
  apply list_elem_of_bind. eexists. split; [exact Hin|]. cbn [observe ob_worker_groups].
  apply list_elem_of_fmap. exists (table, group). split; [done|]. unfold table_groups.
  apply list_elem_of_bind. exists (table, state). split; [by apply list_elem_of_fmap_2|by apply table_iter_elem].
Qed.

Lemma share_written (c : CoordinatorState) (net : N) memory index worker table state :
  co_tables c !! table = Some state ->
  existsb (has_replica (WorkerTarget_name worker)) (su_groups (tb_setup state)) = true ->
  (worker_table_active_shards, [WorkerTarget_name worker; DatabaseId_as_str table],
    clamp (default 0 (wp_active_shards (probe_worker net memory worker) !! DatabaseId_as_str table)))
  ∈ worker_writes (observe_worker c net memory index worker).
Proof.
  intros Hst (g & Hg & Hr)%existsb_exists. unfold worker_writes. apply elem_of_app. right.
  assert (exists share, share ∈ worker_shares c (WorkerTarget_name worker) /\ fst (fst (fst share)) = table)
    as ([[[t p] a] q] & Hs & Et).
  { destruct (worker_share c (WorkerTarget_name worker) table state) as [share|] eqn:E.
    - exists share. split; [|by apply worker_share_table in E]. unfold worker_shares. apply list_elem_of_omap.
      exists (table, state). by split; [apply table_iter_elem|].
    - exfalso. unfold worker_share in E. destruct (list_find _ _) as [[i g']|] eqn:Ef; [done|].
      apply list_find_None in Ef. rewrite Forall_forall in Ef. apply (Ef g); [by apply list_elem_of_In|done]. }
  cbn [fst] in Et. subst t. cbn [observe_worker wo_tables wo_name].
  apply list_elem_of_bind. eexists. split; [|apply list_elem_of_fmap; exists (table, p, a, q); split; [reflexivity|exact Hs]].
  unfold share_writes. cbn [wt_table wt_active_shards]. cbn. by repeat constructor.
Qed.

(** C21: a scrape shows the fleet.  After [/metrics], whatever order the probes come
    back in: a remote worker that answers its probe is exported as up, with the
    generation it has active and, for each table it serves, the number of shards it
    has active; one that does not answer is exported as down; and each worker group
    of each table is exported with the number of replicas it is configured with and
    the number of replicas ready in the newest live generation: the length of the
    list of ready replicas recorded there for the group, and zero if nothing is
    published, the newest generation lacks the table, or none of the group is ready
    in it.  The group names of each table are distinct, as the constructor checks,
    and the reporting worker's numbers are 64-bit ones. *)
Theorem scrape_shows_fleet (c : CoordinatorState) (net : N) memory slots m :
  distinct_groups c ->
  exists m', handle_metrics c net memory slots m = Some m' /\
    (forall name url w worker_memory, Remote name url ∈ workers c ->
      probe_send net url = Some (200, Some (health_json (worker_health w worker_memory))) -> reportable w ->
      exported m' worker_up [name] = 1 /\ exported m' worker_generation [name] = clamp (active_generation w) /\
      forall table state, co_tables c !! table = Some state ->
        existsb (has_replica name) (su_groups (tb_setup state)) = true ->
        exported m' worker_table_active_shards [name; DatabaseId_as_str table] = clamp (active_shards w table)) /\
    (forall name url, Remote name url ∈ workers c -> probe_send net url = None ->
      exported m' worker_up [name] = 0) /\
    (forall table state group, co_tables c !! table = Some state -> group ∈ su_groups (tb_setup state) ->
      exported m' worker_group_configured_replicas [DatabaseId_as_str table; wg_name group] =
        clamp (zlen (wg_replicas group)) /\
      let ready := exported m' worker_group_ready_replicas [DatabaseId_as_str table; wg_name group] in
      match co_live c with
      | [] => ready = 0
      | snapshot :: _ =>
          (gs_tables snapshot !! table = None -> ready = 0) /\
          forall live, gs_tables snapshot !! table = Some live ->
            (sn_ready_groups live !! wg_name group = None -> ready = 0) /\
            forall replicas, sn_ready_groups live !! wg_name group = Some replicas ->
              ready = clamp (zlen (rg_replicas replicas))
      end).
Proof.
  intros Hd. destruct (scrape_exported c net memory slots m Hd) as (m' & E & Hx). exists m'. split; [done|]. split_and!.
  - intros name url w wm Hw Hp Hr. destruct (probe_health w wm Hr) as (Hup & Hgen & Hact).
    destruct (worker_written c net memory slots _ Hw) as [index Hin].
    rewrite <- Hp in Hup, Hgen, Hact. change (probe_worker_health (probe_send net url)) with
      (probe_worker net memory (Remote name url)) in Hup, Hgen, Hact. split_and!.
    + apply (Hx worker_up). apply Hin. unfold worker_writes. apply elem_of_app. left.
      cbn [observe_worker wo_up]. rewrite Hup. left.
    + rewrite <- Hgen. apply (Hx worker_generation). apply Hin. unfold worker_writes. apply elem_of_app. left. right. left.
    + intros table state Hst Hrep. rewrite <- Hact. apply (Hx worker_table_active_shards). apply Hin.
      by apply (share_written c net memory index (Remote name url) table state).
  - intros name url Hw Hp. destruct (worker_written c net memory slots _ Hw) as [index Hin].
    apply (Hx worker_up). apply Hin. unfold worker_writes. apply elem_of_app. left.
    cbn [observe_worker wo_up probe_worker]. rewrite Hp. left.
  - intros table state group Hst Hg.
    pose proof (group_written c net memory slots table state group Hst Hg) as Hin. split.
    { apply (Hx worker_group_configured_replicas), Hin. left. }
    rewrite (Hx worker_group_ready_replicas _ (clamp (go_ready_replicas (observe_group c table group))));
      [|apply Hin; right; left].
    cbn [observe_group go_ready_replicas]. unfold newest.
    destruct (co_live c) as [|snapshot older]; [done|]. cbn [head mbind option_bind].
    split; [by intros ->|]. intros live ->. cbn [mbind option_bind].
    split; [by intros ->|]. by intros replicas ->.
Qed.
End scrape.

(** The two tiers of a spend session come from one snapshot, so a client never
    refuses them as tiers of different tips. *)
Lemma spend_tiers_agree `{IpirPack} `{Base64} (c : CoordinatorState) s :
  transparent_spend_session c = Some s ->
  existsb (identity_mismatch s) [sts_generation (ss_cold s); sts_generation (ss_warm s)] = false.
Proof.
  unfold transparent_spend_session. destruct (newest c) as [snapshot|]; [|done]. cbn [mbind option_bind].
  unfold tier_session. destruct (gs_tables snapshot !! TransparentSpendCold); [|done].
  destruct (gs_tables snapshot !! TransparentSpendWarm); [|done]. cbn [mbind option_bind]. intros [= <-].
  cbn [existsb]. unfold identity_mismatch. cbn. by rewrite !Z.eqb_refl, !bool_decide_eq_true_2.
Qed.

(** ** A scrape of two remote workers, one of them down *)

Definition probed_net : gmap string (@WorkerState small_server) := {["http://w"%string := sample_worker]}.

(** Group "g" has two replicas of which the newest generation has one ready; of group
    "spare" it has none. *)
Definition fleet_table : TableState :=
  {| tb_setup := {| su_table := Enhance; su_groups :=
       [{| wg_name := "g"; wg_replicas := [Remote "w" "http://w"; Remote "v" "http://v"] |};
        {| wg_name := "spare"; wg_replicas := [Remote "v" "http://v"] |}] |};
     tb_rlwe := small_rlwe; tb_hint_cache := ∅; tb_query_slots := 2 |}.

Definition fleet_live : @TableSnapshot small_pack :=
  {| sn_manifest := sn_manifest sample_live; sn_ypir := sn_ypir sample_live;
     sn_preprocessed := sn_preprocessed sample_live; sn_top_key_images := sn_top_key_images sample_live;
     sn_public_params := sn_public_params sample_live;
     sn_public_params_epoch := sn_public_params_epoch sample_live;
     sn_ready_groups := {["g"%string := {| rg_replicas := [Remote "w" "http://w"]; rg_next := 0 |}]} |}.

Definition fleet_state : @CoordinatorState small_pack :=
  {| co_tables := {[Enhance := fleet_table]};
     co_live := [{| gs_manifest := gs_manifest sample_snapshot; gs_tables := {[Enhance := fleet_live]} |}];
     co_status := {| cs_phase := Syncing 0 0; cs_non_serving_since := Some 0 |} |}.

Lemma fleet_distinct : distinct_groups fleet_state.
Proof.
  intros t st Hst. unfold fleet_state in Hst. cbn [co_tables] in Hst.
  apply lookup_singleton_Some in Hst as [<- <-]. apply (bool_decide_unpack _). by vm_compute.
Qed.

Lemma scrape_shows_fleet_witness :
  exists m', @handle_metrics protocol_layouts small_pack in_order _ (@direct_probe small_server (fun _ => (8, 4, 1)))
      fleet_state probed_net (0, 0, 0) (fun _ => 2) Registry_new = Some m' /\
    exported m' worker_up ["w"%string] = 1 /\ exported m' worker_generation ["w"%string] = 10 /\
    exported m' worker_table_active_shards ["w"; "enhance"]%string = 1 /\
    exported m' worker_up ["v"%string] = 0 /\
    exported m' worker_group_configured_replicas ["enhance"; "g"]%string = 2 /\
    exported m' worker_group_ready_replicas ["enhance"; "g"]%string = 1 /\
    exported m' worker_group_ready_replicas ["enhance"; "spare"]%string = 0.
Proof.
  destruct (@scrape_shows_fleet protocol_layouts small_server small_pack in_order _
    (@direct_probe small_server (fun _ => (8, 4, 1))) fleet_state probed_net (0, 0, 0) (fun _ => 2) Registry_new)
    as (m' & E & Hup & Hdown & Hgroups); [exact fleet_distinct|].
  exists m'. split; [exact E|].
  assert (Ht : co_tables fleet_state !! Enhance = Some fleet_table) by (vm_compute; reflexivity).
  destruct (Hup "w"%string "http://w"%string sample_worker (8, 4, 1)) as (H1 & H2 & H3).
  - vm_compute. left.
  - vm_compute. reflexivity.
  - split; [vm_compute; split; [discriminate|reflexivity]|]. intros []; vm_compute; reflexivity.
  - split; [exact H1|]. split; [rewrite H2; vm_compute; reflexivity|].
    split. { etransitivity; [exact (H3 Enhance fleet_table Ht ltac:(vm_compute; reflexivity))|].
             vm_compute. reflexivity. }
    split. { apply (Hdown "v"%string "http://v"%string); [vm_compute; right; left|vm_compute; reflexivity]. }
    destruct (Hgroups Enhance fleet_table _ Ht ltac:(left)) as [Hc [_ Hr]].
    destruct (Hr fleet_live ltac:(vm_compute; reflexivity)) as [_ Hready].
    split; [exact Hc|]. split; [exact (Hready _ ltac:(vm_compute; reflexivity))|].
    destruct (Hgroups Enhance fleet_table _ Ht ltac:(right; left)) as [_ [_ Hr']].
    destruct (Hr' fleet_live ltac:(vm_compute; reflexivity)) as [Hnone _].
    apply Hnone. vm_compute. reflexivity.
Defined.
