(* ===== verification/PirEngines.v ===== *)
(** * The PIR engines of the demo servers

    Models [pir_ipir.rs], [pir_ypir.rs] and [pir_stub.rs] of
    [demos/legacy-spendability/nullifier/spend-server/src] and of
    [demos/legacy-spendability/witness/witness-server/src]: the three
    implementations of the trait [PirEngine] the servers are built with.  The two
    servers' files differ in the bytes of a row (and in one guard of the stub), so
    the engines take the row length as an argument.  The kernel, the
    precomputation and the online computation belong to the PIR libraries; the
    online computation may unwind, which [catch_unwind] turns into a query error.
    The theorems: the IPIR engine keeps the promise [EngineRetrieval] that the
    clients of [Witness] and [NullifierServer] rely on, for both servers'
    scenarios; and the stub engine returns exactly the row it is asked for. *)

From Stdlib Require Import ZArith Lia.
From stdpp Require Import base numbers list strings gmap pretty.
From S2P Require Import Prelude EnhanceTypes Wire Ipir Coordinator Publish Retrieval CommitmentTree Witness NullifierTable WitnessServer TableSnapshot NullifierServer.

Open Scope Z_scope.

(** ** Unwinding *)

(** The payload of a panic: an owned string, a string literal or anything else. *)
Inductive panic_payload := PanicString (s : string) | PanicStr (s : string) | PanicOther.

Inductive unwound (A : Type) := Returns (a : A) | Unwinds (p : panic_payload).
Arguments Returns {_} _.
Arguments Unwinds {_} _.

(** The [map_err] after [catch_unwind]. *)
Definition panic_message (p : panic_payload) : string :=
  match p with PanicString s | PanicStr s => s | PanicOther => "unknown panic" end.

(** ** IPIR *)

Inductive IpirError := IE_Setup (m : string) | IE_Query (m : string).

Definition IpirError_to_string (e : IpirError) : string :=
  match e with
  | IE_Setup m => "IPIR setup failed: " +:+ m
  | IE_Query m => "IPIR query failed: " +:+ m
  end.

(** The single-process online computation of the PIR library. *)
Class IpirOnline `{IpirServer} `{IpirPack} :=
  perform_full_online_computation_simplepir : ipir_server -> RlweParams -> list Z -> packing_keys ->
    top_key_images -> preprocessed_blocks -> unwound (result string (list Z)).

Record IpirServerState `{IpirServer} `{IpirPack} := {
  iss_rlwe : RlweParams; iss_server : ipir_server; iss_pack_preprocessed : preprocessed_blocks;
  iss_top_key_images : top_key_images; iss_published_c1 : list Z; iss_epoch : list Z }.

Record IpirPirEngine := {
  ipe_rlwe : RlweParams; ipe_ypir : YpirSchemeParams; ipe_offline_query_polys : list (list Z) }.

Record RowPtIter := {
  pt_data : list Z; pt_row_bytes : Z; pt_db_cols : Z; pt_pt_bits : Z; pt_pos : Z; pt_total : Z }.

Definition RowPtIter_new (data : list Z) (row_bytes db_rows db_cols pt_bits : Z) : RowPtIter :=
  {| pt_data := data; pt_row_bytes := row_bytes; pt_db_cols := db_cols; pt_pt_bits := pt_bits;
     pt_pos := 0; pt_total := wrap64 (db_rows * db_cols) |}.

Definition RowPtIter_next `{IpirServer} (it : RowPtIter) : option (Z * RowPtIter) :=
  if pt_total it <=? pt_pos it then None else
  let row := pt_pos it / pt_db_cols it in
  let col := pt_pos it mod pt_db_cols it in
  let row_start := wrap64 (row * pt_row_bytes it) in
  let row_end := Z.min (saturating_add64 row_start (pt_row_bytes it)) (zlen (pt_data it)) in
  let row_bytes := default [] (get_range (pt_data it) row_start row_end) in
  Some (wrap16 (read_bits row_bytes (wrap64 (col * pt_pt_bits it)) (pt_pt_bits it)),
        {| pt_data := pt_data it; pt_row_bytes := pt_row_bytes it; pt_db_cols := pt_db_cols it;
           pt_pt_bits := pt_pt_bits it; pt_pos := pt_pos it + 1; pt_total := pt_total it |}).

Fixpoint RowPtIter_collect `{IpirServer} (fuel : nat) (it : RowPtIter) : list Z :=
  match fuel with
  | O => []
  | S fuel =>
      match RowPtIter_next it with
      | None => []
      | Some (c, it) => c :: RowPtIter_collect fuel it
      end
  end.

Section ipir.
Context `{Ipir} `{IpirServer} `{IpirPack} `{!IpirOnline}.

Definition IpirPirEngine_new (scenario : YpirScenario) : result IpirError IpirPirEngine :=
  let? (rlwe, ypir) :=
    map_err IE_Setup (params_for_simplepir (sc_num_items scenario) (sc_item_size_bits scenario)) in
  Ok {| ipe_rlwe := rlwe; ipe_ypir := ypir;
        ipe_offline_query_polys := generate_setup ypir IPIR_SETUP_SEED |}.

Definition IpirPirEngine_setup (row_bytes : Z) (self : IpirPirEngine) (db_bytes : list Z) :
    result IpirError IpirServerState :=
  let coeffs := RowPtIter_new db_bytes row_bytes (db_rows (ipe_ypir self)) (db_cols (ipe_ypir self))
    (trailing_zeros (ypir_p (ipe_ypir self))) in
  let server := new_auto_kernel (ipe_ypir self)
    (RowPtIter_collect (Z.to_nat (pt_total coeffs)) coeffs) false true in
  let crs_blocks := perform_offline_precomputation_simplepir server (ipe_rlwe self)
    (ipe_offline_query_polys self) in
  let? pack_preprocessed := map_err IE_Setup (build_pack_preprocessed_blocks (ipe_rlwe self) crs_blocks) in
  let published_c1 := published_c1_rows pack_preprocessed (rlwe_q (ipe_rlwe self)) in
  Ok {| iss_rlwe := ipe_rlwe self; iss_server := server; iss_pack_preprocessed := pack_preprocessed;
        iss_top_key_images := TopKeyImages_build (ipe_rlwe self); iss_published_c1 := published_c1;
        iss_epoch := public_params_epoch published_c1 |}.

(** The closure given to [catch_unwind]. *)
Definition answer_closure (state : IpirServerState) (query_bytes : list Z) :
    unwound (result IpirError (list Z)) :=
  let packing_keys_len := serialized_packing_keys_len (iss_rlwe state) in
  if zlen query_bytes <? packing_keys_len
  then Returns (Err (IE_Query ("query must include " +:+ pretty packing_keys_len +:+
         " bytes of packing keys, got " +:+ pretty (zlen query_bytes)))) else
  match deserialize_packing_keys (iss_rlwe state) (take (Z.to_nat packing_keys_len) query_bytes) with
  | Err e => Returns (Err (IE_Query e))
  | Ok packing_keys =>
      let online_query := drop (Z.to_nat packing_keys_len) query_bytes in
      match perform_full_online_computation_simplepir (iss_server state) (iss_rlwe state) online_query
        packing_keys (iss_top_key_images state) (iss_pack_preprocessed state) with
      | Unwinds p => Unwinds p
      | Returns (Err e) => Returns (Err (IE_Query e))
      | Returns (Ok response) => Returns (Ok (iss_epoch state ++ response))
      end
  end.

Definition IpirPirEngine_answer_query (state : IpirServerState) (query_bytes : list Z) :
    result IpirError (list Z) :=
  match answer_closure state query_bytes with
  | Returns r => r
  | Unwinds p => Err (IE_Query (panic_message p))
  end.

Definition IpirPirEngine_public_params (state : IpirServerState) : list Z := iss_published_c1 state.

(** The engine as the servers see it. *)
Definition ipir_engine (row_bytes : Z) (self : IpirPirEngine) : PirEngine := {|
  pe_state := IpirServerState;
  pe_setup db_bytes _ := map_err IpirError_to_string (IpirPirEngine_setup row_bytes self db_bytes);
  pe_answer_query state query_bytes :=
    map_err IpirError_to_string (IpirPirEngine_answer_query state query_bytes);
  pe_public_params := IpirPirEngine_public_params |}.
End ipir.

(** ** The stub *)

Inductive NfStub_StubPirError := NfStub_InvalidQuery (len : Z) | NfStub_OutOfRange (idx : Z).

Record NfStub_StubServerState := { ns_buckets : list Z; ns_num_items : Z }.

Definition NfStub_setup (db_bytes : list Z) (scenario : YpirScenario) : NfStub_StubServerState :=
  {| ns_buckets := db_bytes; ns_num_items := sc_num_items scenario |}.

(** [None] is the panic of the slice. *)
Definition NfStub_answer_query (state : NfStub_StubServerState) (query_bytes : list Z) :
    option (result NfStub_StubPirError (list Z)) :=
  if zlen query_bytes <? 4 then Some (Err (NfStub_InvalidQuery (zlen query_bytes))) else
  let idx := le_val (take 4 query_bytes) in
  if ns_num_items state <=? idx then Some (Err (NfStub_OutOfRange idx)) else
  let start := wrap64 (idx * BUCKET_BYTES) in
  let end_ := wrap64 (start + BUCKET_BYTES) in
  bucket ← get_range (ns_buckets state) start end_;
  Some (Ok bucket).

Inductive WitStub_StubPirError := WitStub_InvalidQuery (len : Z) | WitStub_OutOfRange (idx max : Z).

Record WitStub_StubServerState := { ws_db : list Z; ws_num_items : Z }.

Definition WitStub_setup (db_bytes : list Z) (scenario : YpirScenario) : WitStub_StubServerState :=
  {| ws_db := db_bytes; ws_num_items := sc_num_items scenario |}.

Definition WitStub_answer_query (state : WitStub_StubServerState) (query_bytes : list Z) :
    option (result WitStub_StubPirError (list Z)) :=
  if zlen query_bytes <? 4 then Some (Err (WitStub_InvalidQuery (zlen query_bytes))) else
  let idx := le_val (take 4 query_bytes) in
  if ws_num_items state <=? idx then Some (Err (WitStub_OutOfRange idx (ws_num_items state))) else
  let start := wrap64 (idx * SUBSHARD_ROW_BYTES) in
  let end_ := wrap64 (start + SUBSHARD_ROW_BYTES) in
  if zlen (ws_db state) <? end_ then Some (Err (WitStub_OutOfRange idx (ws_num_items state))) else
  row ← get_range (ws_db state) start end_;
  Some (Ok row).

(** ** YPIR *)

Inductive YpirError := YE_Setup (m : string) | YE_Query (m : string).

(** The YPIR library: parameters, the kernel read from a byte cursor, the offline
    values, and the online computation, which may unwind. *)
Class Ypir := {
  ypir_params : Type; ypir_server : Type; ypir_offline : Type;
  params_for_scenario_simplepir : Z -> Z -> ypir_params;
  db_cols_simplepir : ypir_params -> Z;
  pt_modulus_bits : ypir_params -> Z;
  FilePtIter_collect : list Z -> Z -> Z -> Z -> list Z;
  YServer_new : ypir_params -> list Z -> ypir_server;
  ypir_offline_precomputation : ypir_server -> ypir_offline;
  ypir_full_online_computation : ypir_server -> ypir_offline -> list Z -> unwound (list Z) }.

Section ypir.
Context `{Ypir}.

Record YpirServerState := { yss_server : ypir_server; yss_offline_vals : ypir_offline }.

Definition YpirPirEngine_new (scenario : YpirScenario) : ypir_params :=
  params_for_scenario_simplepir (sc_num_items scenario) (sc_item_size_bits scenario).

Definition YpirPirEngine_setup (row_bytes : Z) (self : ypir_params) (db_bytes : list Z) :
    result YpirError YpirServerState :=
  let pt_iter := FilePtIter_collect db_bytes row_bytes (db_cols_simplepir self) (pt_modulus_bits self) in
  let server := YServer_new self pt_iter in
  Ok {| yss_server := server; yss_offline_vals := ypir_offline_precomputation server |}.

Definition YpirPirEngine_answer_query (state : YpirServerState) (query_bytes : list Z) :
    result YpirError (list Z) :=
  match ypir_full_online_computation (yss_server state) (yss_offline_vals state) query_bytes with
  | Returns response => Ok response
  | Unwinds p => Err (YE_Query (panic_message p))
  end.

Definition ypir_engine (row_bytes : Z) (self : ypir_params) : PirEngine := {|
  pe_state := YpirServerState;
  pe_setup db_bytes _ := map_err
    (fun e => match e with YE_Setup m => "YPIR setup failed: " +:+ m | YE_Query m => "YPIR query failed: " +:+ m end)
    (YpirPirEngine_setup row_bytes self db_bytes);
  pe_answer_query state query_bytes := map_err
    (fun e => match e with YE_Setup m => "YPIR setup failed: " +:+ m | YE_Query m => "YPIR query failed: " +:+ m end)
    (YpirPirEngine_answer_query state query_bytes);
  pe_public_params _ := [] |}.
End ypir.

(** ** What the engines rely on *)

Class IpirOnlineLaws `{Ipir} `{IpirServer} `{IpirPack} `{!IpirOnline} := {
  (** One setup polynomial per [d] rows. *)
  setup_polys rows bits rlwe ypir seed :
    params_for_simplepir rows bits = Ok (rlwe, ypir) -> 0 < rows ->
    zlen (generate_setup ypir seed) * rlwe_d rlwe = db_rows ypir;
  (** The online computation is the library's public steps one after the other:
      read the query, multiply, pack, serialize. *)
  full_online_steps server rlwe query first_dim keys images pre packed :
    from_switched_bytes query (db_rows (server_params server)) (rlwe_q rlwe)
      (query_bits (server_params server)) = Ok first_dim ->
    zlen first_dim = db_rows (server_params server) -> reduced (rlwe_q rlwe) first_dim ->
    pack_intermediate_blocks (multiply_query server rlwe first_dim) keys images pre = Ok packed ->
    perform_full_online_computation_simplepir server rlwe query keys images pre =
      Returns (Ok (serialize_rlwe_response_bodies packed (q_prime_1 (server_params server)))) }.

(** ** Rows *)

Section iterator.
Context `{IpirServer}.

(** The demo's iterator yields what the shard runtime's does. *)
Lemma RowPtIter_collect_eq n data row_bytes cols bits pos total :
  RowPtIter_collect n {| pt_data := data; pt_row_bytes := row_bytes; pt_db_cols := cols;
    pt_pt_bits := bits; pt_pos := pos; pt_total := total |} =
  RowPlaintextIter_collect n {| rpi_data := data; rpi_row_bytes := row_bytes; rpi_db_cols := cols;
    rpi_plaintext_bits := bits; rpi_position := pos; rpi_total := total |}.
Proof.
  revert pos. induction n as [|n IH]; intros pos; [done|].
  cbn [RowPtIter_collect RowPlaintextIter_collect]. unfold RowPtIter_next, RowPlaintextIter_next.
  cbn. destruct (total <=? pos); [done|]. by rewrite IH.
Qed.
End iterator.

Section engine.
Context `{IpirParamsLaws} `{IpirServerLaws} `{!IpirPack} `{!IpirPackLaws} `{!IpirRetrieval}
  `{!IpirOnline} `{!IpirOnlineLaws}.
Context (scenario : YpirScenario) (self : IpirPirEngine) (row_bytes : Z).
Hypothesis Hnew : IpirPirEngine_new scenario = Ok self.
Hypothesis Hrow : 0 < row_bytes.
Hypothesis Hbits : sc_item_size_bits scenario = row_bytes * 8.
Hypothesis Hitems : 0 < sc_num_items scenario.
Hypothesis Hpoly : (rlwe_d (ipe_rlwe self) | sc_num_items scenario).
Hypothesis Hfit : (sc_num_items scenario + 1) * 2 ^ 32 * row_bytes < u64_bound.

Lemma new_params :
  params_for_simplepir (sc_num_items scenario) (sc_item_size_bits scenario) =
    Ok (ipe_rlwe self, ipe_ypir self) /\
  ipe_offline_query_polys self = generate_setup (ipe_ypir self) IPIR_SETUP_SEED.
Proof.
  unfold IpirPirEngine_new in Hnew. destruct (params_for_simplepir _ _) as [[rlwe ypir]|]; [|done].
  by injection Hnew as <-.
Qed.

Lemma engine_facts :
  db_rows (ipe_ypir self) = sc_num_items scenario /\ 0 < db_cols (ipe_ypir self) < 2 ^ 32 /\
  0 < rlwe_d (ipe_rlwe self) /\ 2 <= rlwe_q (ipe_rlwe self) < u64_bound /\
  0 <= trailing_zeros (ypir_p (ipe_ypir self)) <= 16.
Proof.
  destruct new_params as [Hp _]. destruct (params_sane _ _ _ _ Hp) as (? & ? & ? & _ & Hpp & _).
  rewrite (params_rows _ _ _ _ Hp Hitems Hpoly). pose proof (trailing_zeros_range _ Hpp).
  split_and!; (done || lia).
Qed.

(** The table a database holds, one row of coefficients per item. *)
Definition engine_matrix (db : list Z) : list (list Z) :=
  plaintext_rows db row_bytes (sc_num_items scenario) (db_cols (ipe_ypir self))
    (trailing_zeros (ypir_p (ipe_ypir self))).

Lemma engine_coeffs db :
  let it := RowPtIter_new db row_bytes (db_rows (ipe_ypir self)) (db_cols (ipe_ypir self))
    (trailing_zeros (ypir_p (ipe_ypir self))) in
  RowPtIter_collect (Z.to_nat (pt_total it)) it = concat (engine_matrix db).
Proof.
  destruct engine_facts as (Hr & Hc & _ & _ & Ht). intros it. unfold it, RowPtIter_new. rewrite Hr.
  cbn [pt_total]. rewrite RowPtIter_collect_eq. unfold u64_bound in *. change (2 ^ 32) with 4294967296 in *.
  apply (collect_rows db row_bytes (sc_num_items scenario) (db_cols (ipe_ypir self))); unfold u64_bound; nia.
Qed.

Lemma zlen_engine_matrix db :
  zlen (concat (engine_matrix db)) = db_rows (ipe_ypir self) * db_cols (ipe_ypir self) /\
  zlen (engine_matrix db) = sc_num_items scenario /\
  Forall (fun row => length row = Z.to_nat (db_cols (ipe_ypir self))) (engine_matrix db).
Proof.
  destruct engine_facts as (Hr & Hc & _). 
  destruct (plaintext_rows_shape db row_bytes (sc_num_items scenario) (db_cols (ipe_ypir self))
    (trailing_zeros (ypir_p (ipe_ypir self)))) as [Hl Hall]; [lia|]. fold (engine_matrix db) in *.
  split_and!; [|done|done]. rewrite (zlen_concat _ (db_cols (ipe_ypir self))), Hl, Hr; [lia|].
  eapply Forall_impl; [exact Hall|]. intros row E. unfold zlen. cbv beta in E. lia.
Qed.

(** What [setup] prepares: the kernel of the table, and its own hint. *)
Lemma setup_state db st :
  IpirPirEngine_setup row_bytes self db = Ok st ->
  iss_rlwe st = ipe_rlwe self /\
  iss_server st = new_auto_kernel (ipe_ypir self) (concat (engine_matrix db)) false true /\
  iss_top_key_images st = TopKeyImages_build (ipe_rlwe self) /\
  build_pack_preprocessed_blocks (ipe_rlwe self)
    (table_hint (ipe_rlwe self) (ipe_ypir self) IPIR_SETUP_SEED (engine_matrix db)) =
    Ok (iss_pack_preprocessed st) /\
  iss_published_c1 st = published_c1_rows (iss_pack_preprocessed st) (rlwe_q (ipe_rlwe self)) /\
  iss_epoch st = public_params_epoch (iss_published_c1 st).
Proof.
  unfold IpirPirEngine_setup. cbv zeta. rewrite engine_coeffs. destruct new_params as [_ ->].
  destruct (zlen_engine_matrix db) as (Hz & _). unfold table_hint.
  replace (Z.to_nat (db_rows (ipe_ypir self) * db_cols (ipe_ypir self)) - length (concat (engine_matrix db)))%nat
    with 0%nat by (unfold zlen in Hz; lia). cbn [replicate]. rewrite app_nil_r.
  destruct (build_pack_preprocessed_blocks _ _) as [pre|] eqn:E; [|done]. cbn [map_err].
  intros [= <-]. cbn. by split_and!.
Qed.

(** The published parameters have the length a client checks. *)
Lemma setup_public_len db st :
  IpirPirEngine_setup row_bytes self db = Ok st ->
  zlen (iss_published_c1 st) =
    wrap64 (db_cols (ipe_ypir self) / rlwe_d (ipe_rlwe self) *
            published_c1_len (rlwe_d (ipe_rlwe self)) (rlwe_q (ipe_rlwe self))).
Proof.
  intros Hst. destruct (setup_state db st Hst) as (_ & _ & _ & Hpre & -> & _).
  destruct engine_facts as (Hr & Hc & Hd & Hq & _). destruct new_params as [Hp _].
  set (crs := table_hint _ _ _ _) in Hpre.
  assert (zlen crs = db_cols (ipe_ypir self) / rlwe_d (ipe_rlwe self)) as Hcrs.
  { destruct (offline_shape (ipe_ypir self) (concat (engine_matrix db) ++
      replicate (Z.to_nat (db_rows (ipe_ypir self) * db_cols (ipe_ypir self)) - length (concat (engine_matrix db))) 0)
      (ipe_rlwe self) (generate_setup (ipe_ypir self) IPIR_SETUP_SEED)) as [[Hl _] _];
      [lia|lia|lia|by eapply setup_polys; [exact Hp|]|exact Hl]. }
  assert (0 <= db_cols (ipe_ypir self) / rlwe_d (ipe_rlwe self) <= db_cols (ipe_ypir self)) as Hq1.
  { split; [apply Z.div_pos; lia|apply Z.div_le_upper_bound; nia]. }
  destruct (published_len _ _ _ Hpre) as [Hlen Hsmall]; [lia|]. rewrite Hcrs in Hlen.
  rewrite Hlen in *. symmetry. apply wrap64_small. unfold u64_bound.
  pose proof (zlen_nonneg (published_c1_rows (iss_pack_preprocessed st) (rlwe_q (ipe_rlwe self)))). lia.
Qed.

(** The kernel multiplies with the table. *)
Lemma setup_multiply db st query :
  IpirPirEngine_setup row_bytes self db = Ok st -> zlen query = db_rows (ipe_ypir self) ->
  server_params (iss_server st) = ipe_ypir self /\
  multiply_query (iss_server st) (iss_rlwe st) query =
  matvec (rlwe_q (ipe_rlwe self)) (Z.to_nat (db_cols (ipe_ypir self))) (engine_matrix db) query.
Proof.
  intros Hst Hq. destruct (setup_state db st Hst) as (-> & -> & _). rewrite params_new. split; [done|].
  destruct engine_facts as (Hr & Hc & _). destruct (zlen_engine_matrix db) as (Hz & _ & Hall).
  rewrite multiply_new by (done || lia). rewrite chunks_exact_concat; [done|lia|done|done].
Qed.

(** C31: the IPIR engine keeps the promise its clients rely on.  Made for a scenario of
    whole polynomials, and set up over any database of that scenario's size, it
    publishes parameters of the length a client checks, answers every well-formed
    query for a row without an error, under the epoch of those very parameters, and
    the answer decodes to the bytes of that row. *)
Theorem ipir_engine_retrieval : @EngineRetrieval _ (ipir_engine row_bytes self) scenario.
Proof.
  intros rlwe ypir db st rb Hp Hrb Hok Hdb Hst. destruct new_params as [Hp' _].
  rewrite Hp in Hp'. injection Hp' as -> ->. assert (rb = row_bytes) as -> by lia.
  change (map_err IpirError_to_string (IpirPirEngine_setup row_bytes self db) = Ok st) in Hst.
  destruct (IpirPirEngine_setup row_bytes self db) as [st'|] eqn:Est; [|done]. injection Hst as ->.
  destruct (setup_state db st Est) as (Hrlwe & _ & Htop & Hpre & Hpub & Hep).
  destruct engine_facts as (Hr & Hc & Hd & Hq & _).
  cbn [pe_public_params pe_answer_query ipir_engine]. unfold IpirPirEngine_public_params.
  split; [by apply (setup_public_len db)|].
  intros row rng query keys seed Hrange Hf. rewrite Hrb in Hp.
  destruct (retrieval (sc_num_items scenario) (row_bytes * 8) row_bytes (ipe_rlwe self) (ipe_ypir self)
    IPIR_SETUP_SEED db (sc_num_items scenario) row rng query keys seed (iss_pack_preprocessed st)
    Hp eq_refl Hrow Hdb Hok ltac:(lia) Hrange Hf Hpre)
    as (kb & keys' & query' & packed & E1 & E2 & E3 & _ & E4 & E5 & E6 & E7 & _ & E8).
  destruct (setup_multiply db st query' Est E5) as [Hsp Hmul].
  rewrite take_ge in E7 by (unfold zlen in E5; lia). fold (engine_matrix db) in E7.
  exists kb, (serialize_rlwe_response_bodies packed (q_prime_1 (ipe_ypir self))). split; [done|].
  rewrite Hpub in *. rewrite <- Hep. split; [|exact E8].
  unfold IpirPirEngine_answer_query, answer_closure. rewrite Hrlwe in *.
  rewrite zlen_app, E2. pose proof (zlen_nonneg (to_switched_bytes query (rlwe_q (ipe_rlwe self)) (query_bits (ipe_ypir self)))).
  guards. rewrite <- E2. unfold zlen at 1 2. rewrite Nat2Z.id.
  rewrite take_app_length, drop_app_length, E3.
  erewrite full_online_steps; [|rewrite Hsp; exact E4|by rewrite Hsp|done|rewrite Hmul, Htop; exact E7].
  by rewrite Hsp.
Qed.

(** Whatever bytes a request holds, [answer_query] returns: a request shorter than
    the packing keys is refused by its length, and a panic of the library is an
    error of this query that leaves the state as it was. *)
Lemma ipir_answer_errors st query_bytes :
  (zlen query_bytes < serialized_packing_keys_len (iss_rlwe st) ->
   exists m, IpirPirEngine_answer_query st query_bytes = Err (IE_Query m)) /\
  (forall e, IpirPirEngine_answer_query st query_bytes = Err e -> exists m, e = IE_Query m) /\
  (forall body, IpirPirEngine_answer_query st query_bytes = Ok body -> exists response, body = iss_epoch st ++ response).
Proof.
  unfold IpirPirEngine_answer_query, answer_closure. split_and!.
  - intros Hl. guards. eauto.
  - intros e. destruct (_ <? _); [intros [= <-]; eauto|].
    destruct (deserialize_packing_keys _ _) as [k|]; [|intros [= <-]; eauto].
    destruct (perform_full_online_computation_simplepir _ _ _ _ _ _) as [[r|]|]; intros [= <-]; eauto.
  - intros body. destruct (_ <? _); [done|]. destruct (deserialize_packing_keys _ _) as [k|]; [|done].
    destruct (perform_full_online_computation_simplepir _ _ _ _ _ _) as [[r|]|]; intros [= <-]. eauto.
Qed.
End engine.

(** ** The stubs *)

(** A stub set up over a database of its scenario's size answers the four bytes of
    a row number with that row, and any other number with an error. *)
Lemma nf_stub_exact db idx rest :
  0 <= idx < 2 ^ 32 -> zlen db = NUM_BUCKETS * BUCKET_BYTES ->
  NfStub_answer_query (NfStub_setup db spend_scenario) (le_bytes 4 idx ++ rest) =
  if idx <? NUM_BUCKETS then Some (Ok (slice db (idx * BUCKET_BYTES) (idx * BUCKET_BYTES + BUCKET_BYTES)))
  else Some (Err (NfStub_OutOfRange idx)).
Proof.
  intros Hi Hz. unfold NfStub_answer_query. rewrite zlen_app. pose proof (zlen_nonneg rest).
  unfold zlen at 1. rewrite length_le_bytes. guards.
  rewrite take_app_length', le_val_le_bytes by (rewrite ?length_le_bytes; done).
  cbn [ns_num_items ns_buckets NfStub_setup spend_scenario sc_num_items].
  change NUM_BUCKETS with 16384 in *. change BUCKET_BYTES with 4592 in *.
  destruct (idx <? 16384) eqn:E; bool_prop; guards; [|done].
  rewrite (wrap64_small (idx * _)), wrap64_small by (unfold u64_bound; lia).
  unfold get_range. guards. cbn [andb mbind option_bind]. unfold slice. do 4 f_equal; lia.
Qed.

Lemma wit_stub_exact db idx rest :
  0 <= idx < 2 ^ 32 -> zlen db <= L0_DB_ROWS * SUBSHARD_ROW_BYTES ->
  WitStub_answer_query (WitStub_setup db (as_scenario (@AppState_new plain_engine))) (le_bytes 4 idx ++ rest) =
  if (idx + 1) * SUBSHARD_ROW_BYTES <=? zlen db
  then Some (Ok (slice db (idx * SUBSHARD_ROW_BYTES) (idx * SUBSHARD_ROW_BYTES + SUBSHARD_ROW_BYTES)))
  else Some (Err (WitStub_OutOfRange idx L0_DB_ROWS)).
Proof.
  intros Hi Hz. unfold WitStub_answer_query. rewrite zlen_app. pose proof (zlen_nonneg rest).
  unfold zlen at 1. rewrite length_le_bytes. guards.
  rewrite take_app_length', le_val_le_bytes by (rewrite ?length_le_bytes; done).
  cbn [ws_num_items ws_db WitStub_setup as_scenario AppState_new sc_num_items].
  change L0_DB_ROWS with 8192 in *. change SUBSHARD_ROW_BYTES with 8192 in *.
  destruct (8192 <=? idx) eqn:E; bool_prop.
  { destruct ((idx + 1) * 8192 <=? zlen db) eqn:E2; [bool_prop; lia|done]. }
  rewrite (wrap64_small (idx * _)), wrap64_small by (unfold u64_bound; lia).
  destruct ((idx + 1) * 8192 <=? zlen db) eqn:E2; bool_prop.
  - guards. unfold get_range. guards. cbn [andb mbind option_bind]. unfold slice. do 4 f_equal; lia.
  - guards. done.
Qed.

(** The nullifier stub has no guard for a short database: the slice panics. *)
Example nf_stub_short_database :
  NfStub_answer_query (NfStub_setup [] spend_scenario) [0; 0; 0; 0] = None.
Proof. reflexivity. Qed.

(** ** The engine in the clear *)

Definition clear_online : @IpirOnline clear_server clear_pack := fun server rlwe query keys images pre =>
  match @from_switched_bytes clear_server query (db_rows (fst server)) (rlwe_q rlwe) (query_bits (fst server)) with
  | Ok first_dim =>
      match @pack_intermediate_blocks clear_pack (@multiply_query clear_server server rlwe first_dim) keys images pre with
      | Ok packed => Returns (Ok (@serialize_rlwe_response_bodies clear_pack packed (q_prime_1 (fst server))))
      | Err e => Returns (Err e)
      end
  | Err e => Returns (Err (InspiringError_to_string e))
  end.

Lemma clear_online_laws : @IpirOnlineLaws clear_ipir clear_server clear_pack clear_online.
Proof.
  split.
  - intros rows bits rlwe ypir seed. cbn [params_for_simplepir clear_ipir].
    destruct (_ && _); [|done]. intros [= <- <-] Hr. cbn. unfold zlen. rewrite length_replicate. lia.
  - intros server rlwe query fd keys images pre packed E1 _ _ E2.
    unfold perform_full_online_computation_simplepir, clear_online.
    change (@server_params clear_server server) with (fst server) in E1 |- *. by rewrite E1, E2.
Qed.

Definition clear_engine (scenario : YpirScenario) : IpirPirEngine :=
  {| ipe_rlwe := clear_rlwe; ipe_ypir := clear_params (sc_num_items scenario) (sc_item_size_bits scenario);
     ipe_offline_query_polys :=
       @generate_setup clear_ipir (clear_params (sc_num_items scenario) (sc_item_size_bits scenario)) IPIR_SETUP_SEED |}.

(** Both servers' scenarios: 16,384 buckets of 4,592 bytes, and 8,192 rows of
    8,192 bytes. *)
Lemma ipir_engine_retrieval_witness :
  @EngineRetrieval clear_ipir
    (@ipir_engine clear_server clear_pack clear_online BUCKET_BYTES (clear_engine spend_scenario)) spend_scenario /\
  let scenario := {| sc_num_items := L0_DB_ROWS; sc_item_size_bits := SUBSHARD_ROW_BYTES * 8 |} in
  @EngineRetrieval clear_ipir
    (@ipir_engine clear_server clear_pack clear_online SUBSHARD_ROW_BYTES (clear_engine scenario)) scenario.
Proof.
  split.
  - refine (@ipir_engine_retrieval clear_ipir clear_params_laws clear_server clear_server_laws clear_pack clear_pack_laws
      clear_retrieval clear_online clear_online_laws spend_scenario (clear_engine spend_scenario) BUCKET_BYTES
      _ _ _ _ _ _); [reflexivity..| |reflexivity]. apply Z.divide_1_l.
  - intros scenario. refine (@ipir_engine_retrieval clear_ipir clear_params_laws clear_server clear_server_laws clear_pack
      clear_pack_laws clear_retrieval clear_online clear_online_laws scenario (clear_engine scenario) SUBSHARD_ROW_BYTES
      _ _ _ _ _ _); [reflexivity..| |reflexivity]. apply Z.divide_1_l.
Defined.
