(* ===== verification/LoadTest.v ===== *)
(** * The load test

    Models [pir/load-test/src/load.rs] (with [Args] of [main.rs]) and
    [query_position_with_timing] of [pir/enhance/src/client.rs].  A phase of load is a
    step relation: every worker task is a little program over the shared request
    index, the shared count of requests in flight and the channel of samples, and
    the clock ticks in between, so a run of the relation is one interleaving.  The
    HDR histogram is the class [HdrHistogram], the random generator the class
    [StdRng]; [Instant]s are nanoseconds.  The theorems: under every interleaving a
    phase that ends has one sample for each request index it handed out and nothing
    in flight, so the report counts exactly the requests made, split exactly into
    successes and error classes; and after the deadline a phase ends, also when the
    server never answers, because the client gives up on a request after its
    timeout. *)

From Stdlib Require Import ZArith Lia Permutation.
From Stdlib Require Import Floats.SpecFloat.
From stdpp Require Import base numbers list strings gmap pretty relations sorting.
From S2P Require Import Prelude Cursor FilterTypes EnhanceTypes Ipir Fleet SpendTypes Retrieval Float64.

Open Scope Z_scope.

(** ** One timed query *)

Record QueryTiming := { qt_prepare : Z; qt_http : Z; qt_decode : Z; qt_total : Z }.

(** [clock] gives the readings of [Instant::now] and [elapsed] in their order;
    [elapsed] saturates at zero. *)
Definition elapsed (started now : Z) : Z := Z.max 0 (now - started).

Definition EnhancePirClient_query_position_with_timing `{Ipir} (c : EnhancePirClient)
    (post : string -> list Z -> result string HttpReply) (position : Z) (rng : ipir_rng)
    (clock : nat -> Z) : result ClientError (EnhanceRecord * QueryTiming) :=
  let total_started := clock 0%nat in
  let prepare_started := clock 1%nat in
  let? (query, slot) := QuerySession_prepare_position (ec_session c) position rng in
  let prepare := elapsed prepare_started (clock 2%nat) in
  let http_started := clock 3%nat in
  let? response := EnhancePirClient_request c post query in
  let http := elapsed http_started (clock 4%nat) in
  let decode_started := clock 5%nat in
  let? row := QuerySession_decode (ec_session c) query response in
  let record := record_in_row row slot in
  let decode := elapsed decode_started (clock 6%nat) in
  Ok (record, {| qt_prepare := prepare; qt_http := http; qt_decode := decode;
                 qt_total := elapsed total_started (clock 7%nat) |}).

(** The timed query is the plain query with timings that fit into the total. *)
Lemma timed_query_exact `{Ipir} c post position rng clock :
  match EnhancePirClient_query_position_with_timing c post position rng clock with
  | Ok (record, timing) =>
      EnhancePirClient_query_position c post position rng = Ok record /\
      ((forall i j, (i <= j)%nat -> clock i <= clock j) ->
       qt_prepare timing + qt_http timing + qt_decode timing <= qt_total timing)
  | Err e => EnhancePirClient_query_position c post position rng = Err e
  end.
Proof.
  unfold EnhancePirClient_query_position_with_timing, EnhancePirClient_query_position, EnhancePirClient_send.
  destruct (QuerySession_prepare_position _ _ _) as [[query slot]|]; [|done].
  destruct (EnhancePirClient_request _ _ _) as [response|]; [|done].
  destruct (QuerySession_decode _ _ _) as [row|]; [|done]. cbn. split; [done|]. intros Hm.
  pose proof (Hm 0 1)%nat. pose proof (Hm 1 2)%nat. pose proof (Hm 2 3)%nat. pose proof (Hm 3 4)%nat.
  pose proof (Hm 4 5)%nat. pose proof (Hm 5 6)%nat. pose proof (Hm 6 7)%nat. unfold elapsed. lia.
Qed.

(** ** A request and its timeout *)

(** The [timeout] of the client's builder, in nanoseconds: it runs from the start of
    a request until its reply has been read. *)
Definition REQUEST_TIMEOUT : Z := 120 * 10 ^ 9.

(** What becomes of a request: a reply (or a failed connection) that the client sees
    in full [delay] after it started, or nothing, ever. *)
Inductive Fate :=
| Delivered (delay : Z) (reply : result string HttpReply)
| NeverDelivered.

(** How long the client awaits a request and what it has then; [timed_out] is
    reqwest's error. *)
Definition request_ends (timed_out : string) (fate : Fate) : Z * result string HttpReply :=
  match fate with
  | Delivered delay reply =>
      if delay <? REQUEST_TIMEOUT then (delay, reply) else (REQUEST_TIMEOUT, Err timed_out)
  | NeverDelivered => (REQUEST_TIMEOUT, Err timed_out)
  end.

(** A timed query around its request: what is computed before the request of index
    [i] is sent, and after its reply is there. *)
Record QueryClient := {
  qc_prepared : Type;
  qc_prepare : Z -> Z -> result ClientError qc_prepared;
  qc_finish : Z -> qc_prepared -> result string HttpReply -> result ClientError QueryTiming }.

Definition query_outcome (client : QueryClient) (index position : Z) (reply : result string HttpReply) :
    result ClientError QueryTiming :=
  let? query := qc_prepare client index position in qc_finish client index query reply.

(** [EnhancePirClient], with the random bits and the clock of each request. *)
Definition enhance_query_client `{Ipir} (c : EnhancePirClient) (rng : Z -> ipir_rng)
    (clock : Z -> nat -> Z) : QueryClient := {|
  qc_prepared := PreparedQuery * Z;
  qc_prepare i position := QuerySession_prepare_position (ec_session c) position (rng i);
  qc_finish i query reply :=
    let? response := EnhancePirClient_request c (fun _ _ => reply) query.1 in
    let? row := QuerySession_decode (ec_session c) query.1 response in
    Ok {| qt_prepare := elapsed (clock i 1%nat) (clock i 2%nat);
          qt_http := elapsed (clock i 3%nat) (clock i 4%nat);
          qt_decode := elapsed (clock i 5%nat) (clock i 6%nat);
          qt_total := elapsed (clock i 0%nat) (clock i 7%nat) |} |}.

(** The parts make up the timed query. *)
Lemma enhance_query_outcome `{Ipir} c rng clock index position reply :
  query_outcome (enhance_query_client c rng clock) index position reply =
  let? (_, timing) := EnhancePirClient_query_position_with_timing c (fun _ _ => reply) position
    (rng index) (clock index) in Ok timing.
Proof.
  unfold query_outcome, EnhancePirClient_query_position_with_timing. cbn.
  destruct (QuerySession_prepare_position _ _ _) as [[query slot]|]; [|done]. cbn.
  destruct (EnhancePirClient_request _ _ _) as [response|]; [|done].
  by destruct (QuerySession_decode _ _ _) as [row|].
Qed.

(** ** Arguments and samples *)

(** Durations are nanoseconds. *)
Record Args := {
  ar_server : string; ar_parallelism : Z; ar_duration : Z; ar_warmup : Z; ar_seed : option Z;
  ar_json_out : option string; ar_max_error_rate : f64; ar_slo_p99_ms : option f64 }.

Definition QUERY_POOL_SIZE : nat := 1024.

Record Sample := {
  sa_total : Z; sa_timing : option QueryTiming; sa_error_class : option string }.

(** [range] is [(0.0..=1.0).contains(&x)]. *)
Definition validate (args : Args) : result string unit :=
  if negb (0 <? ar_parallelism args) then Err "--parallelism must be greater than zero"%string else
  if ar_duration args =? 0 then Err "--duration must be greater than zero"%string else
  if negb (is_finite (ar_max_error_rate args) &&
           (fle fzero (ar_max_error_rate args) && fle (ar_max_error_rate args) (f64_of_Z 1)))
  then Err "--max-error-rate must be between 0 and 1"%string else
  match ar_slo_p99_ms args with
  | Some p99 =>
      if negb (is_finite p99 && flt fzero p99) then Err "--slo-p99-ms must be greater than zero"%string
      else Ok tt
  | None => Ok tt
  end.

(** [is_timeout] is [reqwest::Error::is_timeout]. *)
Definition classify_error (is_timeout : string -> bool) (error : ClientError) : string :=
  match error with
  | CE_Http e => if is_timeout e then "timeout" else "http"
  | CE_HttpStatus status =>
      if status =? 429 then "http_429" else if status =? 503 then "http_503" else "http_status"
  | CE_Response _ => "response"
  | CE_Pir _ => "pir"
  | CE_Json | CE_PublicParamsBase64 | CE_Generation _ | CE_OutsideCoverage _ => "client"
  end.

(** [outcome] is what the query returned, [waited] the time until it did. *)
Definition do_request (is_timeout : string -> bool) (outcome : result ClientError QueryTiming)
    (waited : Z) : Sample :=
  match outcome with
  | Ok timing => {| sa_total := qt_total timing; sa_timing := Some timing; sa_error_class := None |}
  | Err error => {| sa_total := waited; sa_timing := None;
                    sa_error_class := Some (classify_error is_timeout error) |}
  end.

(** The generator: seeded, or from the system's entropy. *)
Class StdRng := {
  std_rng : Type;
  seed_from_u64 : Z -> std_rng;
  from_entropy : std_rng;
  gen_range : std_rng -> Z -> Z * std_rng }.

Class StdRngLaws `{StdRng} := gen_range_bound r n : 0 < n -> 0 <= fst (gen_range r n) < n.

Fixpoint draw_positions `{StdRng} (size : nat) (tree_size : Z) (rng : std_rng) : list Z :=
  match size with
  | O => []
  | S size => let '(position, rng) := gen_range rng tree_size in position :: draw_positions size tree_size rng
  end.

Definition build_query_pool `{StdRng} (tree_size : Z) (size : nat) (seed : option Z) : list Z :=
  let rng := match seed with Some seed => seed_from_u64 seed | None => from_entropy end in
  draw_positions size tree_size rng.

(** ** The collector *)

(** [hdrhistogram::Histogram<u64>]; [hist_record] gives [None] for a value it
    cannot hold. *)
Class HdrHistogram := {
  histogram : Type;
  hist_new : Z -> histogram;
  hist_record : histogram -> Z -> option histogram;
  hist_len : histogram -> Z;
  value_at_quantile : histogram -> f64 -> Z;
  hist_max : histogram -> Z }.

(** A new histogram is empty, resizes for every [u64] and counts what it is given. *)
Class HdrHistogramLaws `{HdrHistogram} := {
  hist_len_new n : hist_len (hist_new n) = 0;
  hist_record_u64 h v : 0 < v < u64_bound ->
    exists h', hist_record h v = Some h' /\ hist_len h' = hist_len h + 1 }.

(** The order a [HashMap] is iterated in. *)
Class MapOrder := map_order : gmap string Z -> list (string * Z).
Class MapOrderLaws `{MapOrder} := map_order_perm m : map_order m ≡ₚ map_to_list m.

Record StageSummary := {
  sg_name : string; sg_samples : Z; sg_p50_ms : f64; sg_p90_ms : f64; sg_p95_ms : f64;
  sg_p99_ms : f64; sg_p999_ms : f64; sg_max_ms : f64 }.

Record ErrorClassCount := { ec_class : string; ec_count : Z }.

Record LoadSummary := {
  ls_server : string; ls_generation : Z; ls_anchor_height : Z; ls_ironwood_tree_size : Z;
  ls_duration_s : f64; ls_parallelism : Z; ls_completed : Z; ls_succeeded : Z; ls_errors : Z;
  ls_error_rate : f64; ls_requests_per_second : f64; ls_stages : list StageSummary;
  ls_error_classes : list ErrorClassCount }.

(** [Duration::as_secs_f64]. *)
Definition as_secs_f64 (nanos : Z) : f64 :=
  fadd (f64_of_Z (nanos / 10 ^ 9)) (fdiv (f64_of_Z (nanos mod 10 ^ 9)) (f64_of_Z (10 ^ 9))).

(** The stable [sort_by_key(Reverse(count))]: an entry goes behind those that have
    at least its count. *)
Fixpoint insert_count (e : ErrorClassCount) (l : list ErrorClassCount) : list ErrorClassCount :=
  match l with
  | [] => [e]
  | x :: l => if ec_count x <? ec_count e then e :: x :: l else x :: insert_count e l
  end.
Definition sort_counts (l : list ErrorClassCount) : list ErrorClassCount :=
  foldl (fun acc e => insert_count e acc) [] l.

Section collector.
Context `{HdrHistogram} `{MapOrder}.

Record StatsCollector := {
  sc_end_to_end : histogram; sc_prepare : histogram; sc_http : histogram; sc_decode : histogram;
  sc_succeeded : Z; sc_errors : Z; sc_error_counts : gmap string Z }.

Definition StatsCollector_new : StatsCollector := {|
  sc_end_to_end := hist_new 3; sc_prepare := hist_new 3; sc_http := hist_new 3; sc_decode := hist_new 3;
  sc_succeeded := 0; sc_errors := 0; sc_error_counts := ∅ |}.

(** [None] is the panic of [expect]. *)
Definition record_duration (h : histogram) (duration : Z) : option histogram :=
  let micros := Z.min (Z.max (duration / 1000) 1) (u64_bound - 1) in
  hist_record h micros.

Definition StatsCollector_record (s : StatsCollector) (sample : Sample) : option StatsCollector :=
  end_to_end ← record_duration (sc_end_to_end s) (sa_total sample);
  match sa_timing sample with
  | Some timing =>
      prepare ← record_duration (sc_prepare s) (qt_prepare timing);
      http ← record_duration (sc_http s) (qt_http timing);
      decode ← record_duration (sc_decode s) (qt_decode timing);
      Some {| sc_end_to_end := end_to_end; sc_prepare := prepare; sc_http := http; sc_decode := decode;
              sc_succeeded := wrap64 (sc_succeeded s + 1); sc_errors := sc_errors s;
              sc_error_counts := sc_error_counts s |}
  | None =>
      Some {| sc_end_to_end := end_to_end; sc_prepare := sc_prepare s; sc_http := sc_http s;
              sc_decode := sc_decode s; sc_succeeded := sc_succeeded s;
              sc_errors := wrap64 (sc_errors s + 1);
              sc_error_counts :=
                match sa_error_class sample with
                | Some class =>
                    <[class := wrap64 (default 0 (sc_error_counts s !! class) + 1)]> (sc_error_counts s)
                | None => sc_error_counts s
                end |}
  end.

(** The loop over the receiver. *)
Fixpoint collect_samples (s : StatsCollector) (samples : list Sample) : option StatsCollector :=
  match samples with
  | [] => Some s
  | sample :: samples => s ← StatsCollector_record s sample; collect_samples s samples
  end.

Definition stage_summary (name : string) (h : histogram) : StageSummary :=
  let millis (micros : Z) := fdiv (f64_of_Z micros) (f64_of_Z 1000) in
  {| sg_name := name; sg_samples := hist_len h;
     sg_p50_ms := millis (value_at_quantile h (f64_decimal 50 2));
     sg_p90_ms := millis (value_at_quantile h (f64_decimal 90 2));
     sg_p95_ms := millis (value_at_quantile h (f64_decimal 95 2));
     sg_p99_ms := millis (value_at_quantile h (f64_decimal 99 2));
     sg_p999_ms := millis (value_at_quantile h (f64_decimal 999 3));
     sg_max_ms := millis (hist_max h) |}.

Definition StatsCollector_into_summary (s : StatsCollector) (args : Args)
    (generation anchor_height ironwood_tree_size : Z) : LoadSummary :=
  let completed := wrap64 (sc_succeeded s + sc_errors s) in
  let duration_s := as_secs_f64 (ar_duration args) in
  let error_classes := sort_counts
    ((fun '(class, count) => {| ec_class := class; ec_count := count |}) <$> map_order (sc_error_counts s)) in
  {| ls_server := ar_server args; ls_generation := generation; ls_anchor_height := anchor_height;
     ls_ironwood_tree_size := ironwood_tree_size; ls_duration_s := duration_s;
     ls_parallelism := ar_parallelism args; ls_completed := completed; ls_succeeded := sc_succeeded s;
     ls_errors := sc_errors s;
     ls_error_rate := if completed =? 0 then fzero else fdiv (f64_of_Z (sc_errors s)) (f64_of_Z completed);
     ls_requests_per_second := fdiv (f64_of_Z completed) duration_s;
     ls_stages := [stage_summary "end-to-end" (sc_end_to_end s); stage_summary "prepare" (sc_prepare s);
                   stage_summary "http" (sc_http s); stage_summary "decode" (sc_decode s)];
     ls_error_classes := error_classes |}.
End collector.

(** ** The report *)

Definition threshold_failures (summary : LoadSummary) (args : Args) : list string :=
  (if ls_completed summary =? 0 then ["no requests completed"%string] else []) ++
  (if flt (ar_max_error_rate args) (ls_error_rate summary)
   then [("error rate " +:+ fmt_fixed 2 (fmul (ls_error_rate summary) (f64_of_Z 100)) +:+ "% exceeds " +:+
          fmt_fixed 2 (fmul (ar_max_error_rate args) (f64_of_Z 100)) +:+ "%")%string] else []) ++
  match ar_slo_p99_ms args, ls_stages summary with
  | Some limit, stage :: _ =>
      if flt limit (sg_p99_ms stage)
      then [("end-to-end p99 " +:+ fmt_fixed 1 (sg_p99_ms stage) +:+ "ms exceeds " +:+
             fmt_fixed 1 limit +:+ "ms")%string] else []
  | _, _ => []
  end.

Definition format_ms (ms : f64) : string :=
  if fle (f64_of_Z 1000) ms then (fmt_fixed 2 (fdiv ms (f64_of_Z 1000)) +:+ "s")%string
  else (fmt_fixed 1 ms +:+ "ms")%string.

(** [{:>n}]. *)
Fixpoint spaces (n : nat) : string := match n with O => "" | S n => " " +:+ spaces n end.
Definition align_right (n : nat) (s : string) : string := (spaces (n - String.length s) +:+ s)%string.

Definition stage_row (name p50 p90 p95 p99 p999 max n : string) : string :=
  (align_right 14 name +:+ " " +:+ align_right 10 p50 +:+ " " +:+ align_right 10 p90 +:+ " " +:+
   align_right 10 p95 +:+ " " +:+ align_right 10 p99 +:+ " " +:+ align_right 10 p999 +:+ " " +:+
   align_right 10 max +:+ " " +:+ align_right 8 n)%string.

(** The lines printed to standard error. *)
Definition print_summary (s : LoadSummary) : list string :=
  ([""; "=== Load-test report ===";
    "server=" +:+ ls_server s +:+ " generation=" +:+ pretty (ls_generation s) +:+
    " anchor_height=" +:+ pretty (ls_anchor_height s) +:+ " positions=" +:+ pretty (ls_ironwood_tree_size s);
    "duration=" +:+ fmt_fixed 1 (ls_duration_s s) +:+ "s parallelism=" +:+ pretty (ls_parallelism s) +:+
    " completed=" +:+ pretty (ls_completed s) +:+ " succeeded=" +:+ pretty (ls_succeeded s) +:+
    " errors=" +:+ pretty (ls_errors s) +:+ " (" +:+
    fmt_fixed 2 (fmul (ls_error_rate s) (f64_of_Z 100)) +:+ "%) throughput=" +:+
    fmt_fixed 2 (ls_requests_per_second s) +:+ " req/s";
    stage_row "stage" "p50" "p90" "p95" "p99" "p99.9" "max" "n"]%string ++
   ((fun g => stage_row (sg_name g) (format_ms (sg_p50_ms g)) (format_ms (sg_p90_ms g))
       (format_ms (sg_p95_ms g)) (format_ms (sg_p99_ms g)) (format_ms (sg_p999_ms g))
       (format_ms (sg_max_ms g)) (pretty (sg_samples g))) <$> ls_stages s) ++
   match ls_error_classes s with
   | [] => []
   | classes => [("errors by class: " +:+
       String.concat " " ((fun e => ec_class e +:+ "=" +:+ pretty (ec_count e)) <$> classes))%string]
   end).

(** ** A phase of load *)

(** A worker task between two of its operations. *)
Inductive Worker :=
| AtDeadlineCheck
| DeadlineAhead
| IndexTaken (index : Z)
| CountedInFlight (index : Z)
| PreparingQuery (index started : Z)
| AwaitingReply (index started sent : Z)
| QueryReturned (index : Z) (sample : Sample)
| SendingSample (index : Z) (sample : Sample)
| WorkerEnded
| WorkerPanicked.

(** What the tasks share; [sh_channel] is what was sent, oldest first. *)
Record Shared := { sh_now : Z; sh_index : Z; sh_in_flight : Z; sh_channel : list Sample }.

Record Phase := { ph_shared : Shared; ph_workers : list Worker }.

Definition set_index (sh : Shared) (i : Z) : Shared :=
  {| sh_now := sh_now sh; sh_index := i; sh_in_flight := sh_in_flight sh; sh_channel := sh_channel sh |}.
Definition set_in_flight (sh : Shared) (n : Z) : Shared :=
  {| sh_now := sh_now sh; sh_index := sh_index sh; sh_in_flight := n; sh_channel := sh_channel sh |}.
Definition send_sample (sh : Shared) (sample : Sample) : Shared :=
  {| sh_now := sh_now sh; sh_index := sh_index sh; sh_in_flight := sh_in_flight sh;
     sh_channel := sh_channel sh ++ [sample] |}.
Definition set_now (sh : Shared) (t : Z) : Shared :=
  {| sh_now := t; sh_index := sh_index sh; sh_in_flight := sh_in_flight sh; sh_channel := sh_channel sh |}.

Section phase.
(** [net i] is what becomes of request [i]. *)
Context (is_timeout : string -> bool) (timed_out : string) (net : Z -> Fate) (client : QueryClient)
  (pool : list Z) (deadline : Z).

Definition pool_position (index : Z) : option Z :=
  if zlen pool =? 0 then None else pool !! Z.to_nat (index mod zlen pool).

(** The answer to request [i]. *)
Definition outcome_of (i : Z) : result ClientError QueryTiming :=
  query_outcome client i (default 0 (pool_position i)) (request_ends timed_out (net i)).2.

(** One operation of a worker, [None] while it has to wait; the receiver outlives the
    workers, so [send] never fails. *)
Definition worker_step (sh : Shared) (w : Worker) : option (Worker * Shared) :=
  match w with
  | AtDeadlineCheck => Some (if sh_now sh <? deadline then DeadlineAhead else WorkerEnded, sh)
  | DeadlineAhead => Some (IndexTaken (sh_index sh), set_index sh (wrap64 (sh_index sh + 1)))
  | IndexTaken index =>
      match pool_position index with
      | Some _ => Some (CountedInFlight index, set_in_flight sh (wrap64 (sh_in_flight sh + 1)))
      | None => Some (WorkerPanicked, sh)
      end
  | CountedInFlight index => Some (PreparingQuery index (sh_now sh), sh)
  | PreparingQuery index started =>
      match qc_prepare client index (default 0 (pool_position index)) with
      | Ok _ => Some (AwaitingReply index started (sh_now sh), sh)
      | Err error =>
          Some (QueryReturned index (do_request is_timeout (Err error) (elapsed started (sh_now sh))), sh)
      end
  | AwaitingReply index started sent =>
      if sh_now sh <? sent + (request_ends timed_out (net index)).1 then None
      else Some (QueryReturned index
             (do_request is_timeout (outcome_of index) (elapsed started (sh_now sh))), sh)
  | QueryReturned index sample =>
      Some (SendingSample index sample, set_in_flight sh (wrap64 (sh_in_flight sh - 1)))
  | SendingSample index sample => Some (AtDeadlineCheck, send_sample sh sample)
  | WorkerEnded | WorkerPanicked => None
  end.

Inductive phase_step : Phase -> Phase -> Prop :=
| step_tick p t : sh_now (ph_shared p) <= t ->
    phase_step p {| ph_shared := set_now (ph_shared p) t; ph_workers := ph_workers p |}
| step_worker p i w w' sh :
    ph_workers p !! i = Some w -> worker_step (ph_shared p) w = Some (w', sh) ->
    phase_step p {| ph_shared := sh; ph_workers := <[i := w']> (ph_workers p) |}.

Definition phase_start (parallelism now : Z) : Phase :=
  {| ph_shared := {| sh_now := now; sh_index := 0; sh_in_flight := 0; sh_channel := [] |};
     ph_workers := replicate (Z.to_nat parallelism) AtDeadlineCheck |}.

Definition worker_joined (w : Worker) : bool :=
  match w with WorkerEnded | WorkerPanicked => true | _ => false end.

(** After every worker was joined: the first panic is an error, else the samples
    are drained; [None] is the collector's panic. *)
Definition run_phase_result `{HdrHistogram} (collect : bool) (p : Phase) :
    option (result string StatsCollector) :=
  if existsb (fun w => match w with WorkerPanicked => true | _ => false end) (ph_workers p)
  then Some (Err "load-test worker panicked"%string) else
  if collect then Ok <$> collect_samples StatsCollector_new (sh_channel (ph_shared p))
  else Some (Ok StatsCollector_new).
End phase.

(** ** The program *)

(** [run] with what its calls return: the connection, the preflight query, the two
    phases, and the writing of the report. *)
Definition run `{HdrHistogram} `{MapOrder} `{StdRng} (args : Args)
    (connect : result string EnhanceGeneration)
    (preflight : Z -> result ClientError QueryTiming)
    (phase : list Z -> Z -> Z -> bool -> result string StatsCollector)
    (write : string -> LoadSummary -> result string unit) : result string LoadSummary :=
  let? _ := validate args in
  let? generation := connect in
  let tree_size := eg_ironwood_tree_size generation in
  if negb (0 <? tree_size) then Err "server advertises an empty Ironwood tree"%string else
  let pool := build_query_pool tree_size QUERY_POOL_SIZE (ar_seed args) in
  let? _ := map_err (fun _ => "preflight query failed"%string) (preflight (default 0 (head pool))) in
  let? _ := if ar_warmup args =? 0 then Ok tt
            else (let? _ := phase pool (ar_parallelism args) (ar_warmup args) false in Ok tt) in
  let? collector := phase pool (ar_parallelism args) (ar_duration args) true in
  let summary := StatsCollector_into_summary collector args (eg_generation generation)
    (eg_anchor_height generation) tree_size in
  let? _ := match ar_json_out args with Some path => write path summary | None => Ok tt end in
  match threshold_failures summary args with
  | [] => Ok summary
  | _ => Err "load-test thresholds failed"%string
  end.

(** ** Sorting the error classes *)

Lemma insert_count_perm e l : insert_count e l ≡ₚ e :: l.
Proof.
  induction l as [|x l IH]; cbn; [done|]. destruct (_ <? _); [done|]. rewrite IH. apply Permutation_swap.
Qed.

Lemma sort_counts_perm l : sort_counts l ≡ₚ l.
Proof.
  enough (forall acc, foldl (fun acc e => insert_count e acc) acc l ≡ₚ acc ++ l) as Hk by apply (Hk []).
  induction l as [|e l IH]; intros acc; cbn; [by rewrite app_nil_r|].
  rewrite IH, insert_count_perm. apply Permutation_middle.
Qed.

Definition count_ge (x y : ErrorClassCount) : Prop := ec_count y <= ec_count x.

Lemma insert_count_sorted e l : StronglySorted count_ge l -> StronglySorted count_ge (insert_count e l).
Proof.
  induction 1 as [|x l Hs IH Hall]; cbn; [repeat constructor|]. destruct (_ <? _) eqn:E; bool_prop.
  - constructor; [by constructor|]. constructor; [unfold count_ge; lia|].
    eapply Forall_impl; [exact Hall|]. unfold count_ge. intros y Hy. cbv beta in Hy. lia.
  - constructor; [done|]. rewrite insert_count_perm. constructor; [unfold count_ge; lia|done].
Qed.

Lemma sort_counts_sorted l : StronglySorted count_ge (sort_counts l).
Proof.
  enough (forall acc, StronglySorted count_ge acc -> StronglySorted count_ge (foldl (fun acc e => insert_count e acc) acc l))
    as Hk by (apply Hk; constructor).
  induction l as [|e l IH]; intros acc Ha; cbn; [done|]. by apply IH, insert_count_sorted.
Qed.

(** ** What the collector counts *)

Definition count {A} (f : A -> bool) (l : list A) : Z := zlen (List.filter f l).

Lemma count_cons {A} (f : A -> bool) x l : count f (x :: l) = Z.b2z (f x) + count f l.
Proof. unfold count. cbn. destruct (f x); autorewrite with zlen; cbn; lia. Qed.

Lemma count_nonneg {A} (f : A -> bool) l : 0 <= count f l <= zlen l.
Proof. induction l as [|x l IH]; [done|]. rewrite count_cons, zlen_cons. destruct (f x); cbn; lia. Qed.

Lemma count_perm {A} (f : A -> bool) l l' : l ≡ₚ l' -> count f l = count f l'.
Proof. induction 1; rewrite ?count_cons in *; lia. Qed.

Lemma count_fmap {A B} (f : B -> bool) (g : A -> B) l : count f (g <$> l) = count (fun x => f (g x)) l.
Proof. induction l as [|x l IH]; [done|]. rewrite fmap_cons, !count_cons. by rewrite IH. Qed.

Lemma count_ext {A} (f g : A -> bool) l : (forall x, f x = g x) -> count f l = count g l.
Proof. intros E. induction l as [|x l IH]; [done|]. by rewrite !count_cons, E, IH. Qed.

Lemma count_split {A} (f : A -> bool) l : count f l + count (fun x => negb (f x)) l = zlen l.
Proof. induction l as [|x l IH]; [done|]. rewrite !count_cons, zlen_cons. destruct (f x); cbn; lia. Qed.

Definition sample_ok (s : Sample) : bool := match sa_timing s with Some _ => true | None => false end.
Definition sample_class (c : string) (s : Sample) : bool :=
  match sa_timing s with Some _ => false | None => bool_decide (sa_error_class s = Some c) end.

Section collected.
Context `{HdrHistogramLaws}.

Lemma record_duration_ok h d :
  exists h', record_duration h d = Some h' /\ hist_len h' = hist_len h + 1.
Proof. unfold record_duration. apply hist_record_u64. unfold u64_bound. lia. Qed.

(** Every sample is counted once: in the end-to-end histogram, and either as a
    success with its three stages or as an error of its class. *)
Lemma collect_exact samples : forall s,
  0 <= sc_succeeded s -> 0 <= sc_errors s ->
  sc_succeeded s + sc_errors s + zlen samples < u64_bound ->
  (forall c, 0 <= default 0 (sc_error_counts s !! c) <= sc_errors s) ->
  exists s', collect_samples s samples = Some s' /\
    sc_succeeded s' = sc_succeeded s + count sample_ok samples /\
    sc_errors s' = sc_errors s + count (fun x => negb (sample_ok x)) samples /\
    (forall c, default 0 (sc_error_counts s' !! c) =
       default 0 (sc_error_counts s !! c) + count (sample_class c) samples) /\
    hist_len (sc_end_to_end s') = hist_len (sc_end_to_end s) + zlen samples /\
    hist_len (sc_prepare s') = hist_len (sc_prepare s) + count sample_ok samples /\
    hist_len (sc_http s') = hist_len (sc_http s) + count sample_ok samples /\
    hist_len (sc_decode s') = hist_len (sc_decode s) + count sample_ok samples /\
    (forall c v, sc_error_counts s' !! c = Some v -> v <> 0 \/ sc_error_counts s !! c = Some v).
Proof.
  induction samples as [|x l IH]; intros s H1 H2 Hb Hc.
  { exists s. unfold count. cbn [List.filter]. rewrite !zlen_nil. split_and!; intros; rewrite ?zlen_nil; auto; lia. }
  rewrite zlen_cons in *. pose proof (zlen_nonneg l). cbn [collect_samples]. unfold StatsCollector_record.
  destruct (record_duration_ok (sc_end_to_end s) (sa_total x)) as (he & -> & Hhe). cbn [mbind option_bind].
  destruct (sa_timing x) as [t|] eqn:Et.
  - destruct (record_duration_ok (sc_prepare s) (qt_prepare t)) as (hp & -> & Hhp).
    destruct (record_duration_ok (sc_http s) (qt_http t)) as (hh & -> & Hhh).
    destruct (record_duration_ok (sc_decode s) (qt_decode t)) as (hd & -> & Hhd). cbn [mbind option_bind].
    rewrite wrap64_small by lia.
    match goal with |- context [collect_samples ?s1 l] => destruct (IH s1) as (s' & E & R) end; cbn in *; try lia; [done|].
    exists s'. rewrite !count_cons. unfold sample_ok at 1 3 5 7 9. rewrite Et. cbn [Z.b2z negb].
    destruct R as (R1 & R2 & R3 & R4 & R5 & R6 & R7 & R8). split_and!; try done; try lia.
    intros c. rewrite R3, count_cons. unfold sample_class at 2. rewrite Et. cbn. lia.
  - cbn [mbind option_bind]. rewrite (wrap64_small (sc_errors s + 1)) by lia.
    match goal with |- context [collect_samples ?s1 l] => destruct (IH s1) as (s' & E & R) end; cbn in *; try lia.
    { intros c. destruct (sa_error_class x) as [cl|]; [|specialize (Hc c); lia].
      destruct (decide (cl = c)) as [->|Hne]; [rewrite lookup_insert_eq|rewrite lookup_insert_ne by done];
        specialize (Hc c); cbn; [rewrite wrap64_small|]; lia. }
    exists s'. rewrite !count_cons. unfold sample_ok at 1 3 5 7 9. rewrite Et. cbn [Z.b2z negb].
    destruct R as (R1 & R2 & R3 & R4 & R5 & R6 & R7 & R8). split_and!; try done; try lia.
    + intros c. rewrite R3, count_cons. unfold sample_class at 2. rewrite Et.
      destruct (sa_error_class x) as [cl|]; [|rewrite bool_decide_false by done; cbn; lia].
      destruct (decide (cl = c)) as [->|Hne].
      * rewrite lookup_insert_eq, bool_decide_true by done. specialize (Hc c). cbn. rewrite wrap64_small; lia.
      * rewrite lookup_insert_ne, bool_decide_false by congruence. cbn. lia.
    + intros c v Hv. destruct (R8 c v Hv) as [?|Hold]; [by left|].
      destruct (sa_error_class x) as [cl|]; [|by right].
      destruct (decide (cl = c)) as [->|Hne]; [rewrite lookup_insert_eq in Hold|rewrite lookup_insert_ne in Hold by done; by right].
      left. injection Hold as <-. specialize (Hc c). rewrite wrap64_small; lia.
Qed.
End collected.

(** ** Every interleaving *)

Section interleavings.
Context (is_timeout : string -> bool) (timed_out : string) (net : Z -> Fate) (client : QueryClient)
  (pool : list Z) (deadline : Z).

#[local] Abbreviation step := (phase_step is_timeout timed_out net client pool deadline).
#[local] Abbreviation wstep := (worker_step is_timeout timed_out net client pool deadline).
#[local] Abbreviation answer := (outcome_of timed_out net client pool).

(** The sample request [i] makes after [waited]. *)
Definition sample_of (i waited : Z) : Sample := do_request is_timeout (answer i) waited.

(** The request a worker has taken and not yet sent. *)
Definition worker_index (w : Worker) : option Z :=
  match w with
  | IndexTaken i | CountedInFlight i | PreparingQuery i _ | AwaitingReply i _ _
  | QueryReturned i _ | SendingSample i _ => Some i
  | _ => None
  end.

Definition worker_flying (w : Worker) : bool :=
  match w with
  | CountedInFlight _ | PreparingQuery _ _ | AwaitingReply _ _ _ | QueryReturned _ _ => true
  | _ => false
  end.

Definition worker_sane (w : Worker) : Prop :=
  match w with
  | QueryReturned i s | SendingSample i s => exists waited, s = sample_of i waited
  | WorkerPanicked => False
  | _ => True
  end.

Record phase_inv (parallelism : Z) (p : Phase) (sent : list (Z * Z)) : Prop := {
  pi_channel : sh_channel (ph_shared p) = (fun s => sample_of s.1 s.2) <$> sent;
  pi_index : 0 <= sh_index (ph_shared p);
  pi_requests : sent.*1 ++ omap worker_index (ph_workers p) ≡ₚ seqZ 0 (sh_index (ph_shared p));
  pi_flying : sh_in_flight (ph_shared p) = count worker_flying (ph_workers p);
  pi_sane : Forall worker_sane (ph_workers p);
  pi_workers : zlen (ph_workers p) = parallelism }.

Lemma count_app {A} (f : A -> bool) l l' : count f (l ++ l') = count f l + count f l'.
Proof. unfold count. rewrite List.filter_app. by autorewrite with zlen. Qed.

Lemma pool_position_some i : pool <> [] -> 0 <= i -> exists x, pool_position pool i = Some x /\ x ∈ pool.
Proof.
  intros Hp Hi. unfold pool_position. destruct pool as [|a l] eqn:E; [done|]. rewrite <- E. clear Hp.
  assert (0 < zlen pool) by (rewrite E, zlen_cons; pose proof (zlen_nonneg l); lia). guards.
  pose proof (Z.mod_pos_bound i (zlen pool) ltac:(lia)).
  destruct (lookup_lt_is_Some_2 pool (Z.to_nat (i mod zlen pool))) as [x Hx]; [unfold zlen in *; lia|].
  exists x. split; [done|by eapply list_elem_of_lookup_2].
Qed.

Lemma start_inv parallelism now : 0 <= parallelism -> phase_inv parallelism (phase_start parallelism now) [].
Proof.
  intros Hp. constructor; cbn; try done.
  - induction (Z.to_nat parallelism); cbn; done.
  - unfold count. induction (Z.to_nat parallelism); cbn; done.
  - by apply Forall_replicate.
  - unfold zlen. rewrite length_replicate. lia.
Qed.

(** One worker's operation, with the rest of the workers as they are. *)
Lemma worker_step_inv parallelism a w b sh w' sh' sent :
  pool <> [] -> sh_index sh + 1 < u64_bound -> parallelism < u64_bound ->
  phase_inv parallelism {| ph_shared := sh; ph_workers := a ++ w :: b |} sent ->
  wstep sh w = Some (w', sh') ->
  exists sent', phase_inv parallelism {| ph_shared := sh'; ph_workers := a ++ w' :: b |} sent'.
Proof.
  intros Hpool Hb Hpar [Hc Hi Hr Hf Hs Hw] Hstep. cbn [ph_shared ph_workers] in *.
  rewrite count_app, count_cons in Hf. rewrite omap_app in Hr. apply Forall_app in Hs as [Ha [Hwx Hbx]%Forall_cons].
  pose proof (count_nonneg worker_flying a) as Hca. pose proof (count_nonneg worker_flying b) as Hcb.
  rewrite zlen_app, zlen_cons in Hw. pose proof (zlen_nonneg a). pose proof (zlen_nonneg b).
  assert (Hkeep : forall w2 sh2 sent2, worker_sane w2 ->
    sh_channel sh2 = (fun s => sample_of s.1 s.2) <$> sent2 -> 0 <= sh_index sh2 ->
    sent2.*1 ++ omap worker_index a ++ omap worker_index (w2 :: b) ≡ₚ seqZ 0 (sh_index sh2) ->
    sh_in_flight sh2 = count worker_flying a + (Z.b2z (worker_flying w2) + count worker_flying b) ->
    phase_inv parallelism {| ph_shared := sh2; ph_workers := a ++ w2 :: b |} sent2).
  { intros w2 sh2 sent2 K1 K2 K3 K4 K5. constructor; cbn [ph_shared ph_workers]; try done.
    - by rewrite omap_app.
    - by rewrite count_app, count_cons.
    - apply Forall_app. split; [done|]. by constructor.
    - rewrite zlen_app, zlen_cons. lia. }
  destruct w as [| |i|i|i st|i st se|i s|i s| |]; cbn [worker_step] in Hstep; try done.
  - injection Hstep as <- <-. exists sent. destruct (_ <? _); by apply Hkeep.
  - injection Hstep as <- <-. exists sent. rewrite wrap64_small by lia. apply Hkeep; cbn; try done; try lia.
    rewrite seqZ_app by lia. change (seqZ (0 + sh_index sh) 1) with [0 + sh_index sh]. rewrite <- Hr.
    cbn. rewrite <- !app_assoc, Z.add_0_l. do 2 apply Permutation_app_head. apply Permutation_cons_append.
  - assert (i ∈ seqZ 0 (sh_index sh)) as Hin%elem_of_seqZ
      by (rewrite <- Hr, !elem_of_app; right; right; cbn; by left).
    destruct (pool_position_some i Hpool) as (x & Hx & _); [lia|]. rewrite Hx in Hstep. injection Hstep as <- <-.
    exists sent. cbn in Hf. apply Hkeep; cbn; try done. rewrite wrap64_small; lia.
  - injection Hstep as <- <-. exists sent. by apply Hkeep.
  - exists sent. destruct (qc_prepare _ _ _) as [q|e] eqn:Eq; injection Hstep as <- <-; apply Hkeep; try done.
    eexists. unfold sample_of, outcome_of, query_outcome. rewrite Eq. reflexivity.
  - destruct (_ <? _); [done|]. injection Hstep as <- <-. exists sent. apply Hkeep; try done. eexists. reflexivity.
  - injection Hstep as <- <-. exists sent. cbn in Hf. apply Hkeep; cbn; try done. rewrite wrap64_small; lia.
  - injection Hstep as <- <-. destruct Hwx as (waited & ->). exists (sent ++ [(i, waited)]).
    apply Hkeep; cbn; try done.
    + rewrite fmap_app, Hc. done.
    + rewrite <- Hr, fmap_app, <- app_assoc. cbn. apply Permutation_app_head, Permutation_middle.
Qed.

Lemma phase_steps_inv parallelism now n p :
  pool <> [] -> 0 <= parallelism < u64_bound -> Z.of_nat n < u64_bound ->
  nsteps step n (phase_start parallelism now) p ->
  exists sent, phase_inv parallelism p sent /\ sh_index (ph_shared p) <= Z.of_nat n.
Proof.
  intros Hpool Hpar Hn Hrun. revert p Hn Hrun. induction n as [|n IH]; intros p Hn Hrun.
  - inversion Hrun; subst. exists []. split; [apply start_inv; lia|done].
  - apply nsteps_inv_r in Hrun as (p1 & Hrun & Hst).
    destruct (IH p1) as (sent & Hinv & Hle); [lia|done|]. destruct Hst as [p1 t Ht|p1 i w w' sh Hw Hst].
    + exists sent. split; [|cbn; lia]. by destruct Hinv.
    + apply list_elem_of_split_length in Hw as (a & b & Hab & ->).
      assert (<[length a := w']> (ph_workers p1) = a ++ w' :: b) as ->.
      { rewrite Hab. rewrite <- (Nat.add_0_r (length a)) at 1. by rewrite insert_app_r. }
      destruct p1 as [sh1 ws]. cbn [ph_shared ph_workers] in *. subst ws.
      destruct (worker_step_inv parallelism a w b sh1 w' sh sent Hpool ltac:(lia) ltac:(lia) Hinv Hst) as (sent' & Hinv').
      exists sent'. split; [done|]. cbn [ph_shared].
      assert (sh_index sh <= sh_index sh1 + 1) as Hs; [|lia]. pose proof (pi_index _ _ _ Hinv) as H0. cbn in H0.
      destruct w; cbn in Hst; try (injection Hst as <- <-; cbn; lia); try done.
      * injection Hst as <- <-. cbn. rewrite wrap64_small; lia.
      * destruct (pool_position pool index); injection Hst as <- <-; cbn; lia.
      * destruct (qc_prepare _ _ _); injection Hst as <- <-; cbn; lia.
      * destruct (_ <? _); [done|]. injection Hst as <- <-. cbn. lia.
Qed.

(** Never more requests in flight than workers; the count never underflows. *)
Lemma in_flight_bounded parallelism now n p :
  pool <> [] -> 0 <= parallelism < u64_bound -> Z.of_nat n < u64_bound ->
  nsteps step n (phase_start parallelism now) p -> 0 <= sh_in_flight (ph_shared p) <= parallelism.
Proof.
  intros Hpool Hpar Hn Hrun. destruct (phase_steps_inv _ _ _ _ Hpool Hpar Hn Hrun) as (sent & Hi & _).
  rewrite (pi_flying _ _ _ Hi), <- (pi_workers _ _ _ Hi). apply count_nonneg.
Qed.

Definition all_joined (p : Phase) : Prop := forallb worker_joined (ph_workers p) = true.

Lemma joined_idle ws : forallb worker_joined ws = true -> omap worker_index ws = [] /\ count worker_flying ws = 0.
Proof.
  induction ws as [|w ws IH]; cbn; [done|]. intros [Hw Hws]%andb_prop. destruct (IH Hws) as [E1 E2].
  rewrite count_cons. destruct w; cbn in *; try done; by rewrite E1, E2.
Qed.

(** A phase that ended: one sample for each request handed out. *)
Lemma ended_phase parallelism now n p :
  pool <> [] -> 0 <= parallelism < u64_bound -> Z.of_nat n < u64_bound ->
  nsteps step n (phase_start parallelism now) p -> all_joined p ->
  sh_in_flight (ph_shared p) = 0 /\ 0 <= sh_index (ph_shared p) < u64_bound /\
  existsb (fun w => match w with WorkerPanicked => true | _ => false end) (ph_workers p) = false /\
  exists sent, sh_channel (ph_shared p) = (fun s => sample_of s.1 s.2) <$> sent /\
    sent.*1 ≡ₚ seqZ 0 (sh_index (ph_shared p)).
Proof.
  intros Hpool Hpar Hn Hrun Hj. destruct (phase_steps_inv _ _ _ _ Hpool Hpar Hn Hrun) as (sent & [Hc H0 Hr Hf Hs _] & Hle).
  destruct (joined_idle _ Hj) as [E1 E2]. rewrite E1, app_nil_r in Hr. split_and!; [by rewrite Hf|lia|lia| |by exists sent].
  clear -Hs. induction Hs as [|w ws Hw _ IH]; [done|]. cbn. rewrite IH. by destruct w.
Qed.

Definition answered_ok (i : Z) : bool := match answer i with Ok _ => true | Err _ => false end.
Definition answered_class (c : string) (i : Z) : bool :=
  match answer i with Ok _ => false | Err e => bool_decide (classify_error is_timeout e = c) end.

Lemma count_samples (f : Sample -> bool) (g : Z -> bool) sent n :
  sent.*1 ≡ₚ seqZ 0 n -> (forall i waited, f (sample_of i waited) = g i) ->
  count f ((fun s => sample_of s.1 s.2) <$> sent) = count g (seqZ 0 n).
Proof.
  intros Hp Hfg. rewrite <- (count_perm g _ _ Hp), !count_fmap. apply count_ext. intros [i w]. apply Hfg.
Qed.

Lemma sample_of_ok i waited : sample_ok (sample_of i waited) = answered_ok i.
Proof. unfold sample_of, answered_ok, sample_ok, do_request. by destruct (answer i). Qed.

Lemma sample_of_class c i waited : sample_class c (sample_of i waited) = answered_class c i.
Proof.
  unfold sample_of, answered_class, sample_class, do_request. destruct (answer i); cbn; [done|].
  apply bool_decide_ext. split; [by intros [= ->]|by intros ->].
Qed.

Context `{HdrHistogramLaws} `{MapOrderLaws}.

(** What a measured phase collects. *)
Lemma phase_collects parallelism now n p :
  pool <> [] -> 0 <= parallelism < u64_bound -> Z.of_nat n < u64_bound ->
  nsteps step n (phase_start parallelism now) p -> all_joined p ->
  let made := seqZ 0 (sh_index (ph_shared p)) in
  exists s, run_phase_result true p = Some (Ok s) /\
    sc_succeeded s = count answered_ok made /\ sc_errors s = count (fun i => negb (answered_ok i)) made /\
    sc_succeeded s + sc_errors s = sh_index (ph_shared p) /\
    (forall c k, sc_error_counts s !! c = Some k <-> 0 < k /\ k = count (answered_class c) made) /\
    hist_len <$> [sc_end_to_end s; sc_prepare s; sc_http s; sc_decode s] =
      [sh_index (ph_shared p); sc_succeeded s; sc_succeeded s; sc_succeeded s].
Proof.
  intros Hpool Hpar Hn Hrun Hj made.
  destruct (ended_phase _ _ _ _ Hpool Hpar Hn Hrun Hj) as (_ & Hb & Hnp & sent & Hc & Hp).
  assert (zlen (sh_channel (ph_shared p)) = sh_index (ph_shared p)) as Hz.
  { rewrite Hc. unfold zlen. rewrite length_fmap, <- (length_fmap fst sent), Hp, length_seqZ. lia. }
  destruct (collect_exact (sh_channel (ph_shared p)) StatsCollector_new) as
    (s & E & R1 & R2 & R3 & R4 & R5 & R6 & R7 & R8); cbn in *; try lia; [by intros c; rewrite lookup_empty|].
  exists s. unfold run_phase_result. rewrite Hnp, E.
  assert (Hok : count sample_ok (sh_channel (ph_shared p)) = count answered_ok made).
  { rewrite Hc. apply count_samples; [done|apply sample_of_ok]. }
  assert (Herr : count (fun x => negb (sample_ok x)) (sh_channel (ph_shared p)) = count (fun i => negb (answered_ok i)) made).
  { rewrite Hc. apply count_samples; [done|]. intros. by rewrite sample_of_ok. }
  rewrite !hist_len_new in *. rewrite Hok, Herr, Hz in *.
  pose proof (count_split answered_ok made) as Hsp. assert (zlen made = sh_index (ph_shared p)) as Hzm
    by (unfold made, zlen; rewrite length_seqZ; lia).
  split_and!; try lia; [done| |by rewrite R4, R5, R6, R7, R1].
  intros c k. specialize (R3 c). rewrite lookup_empty in R3. cbn in R3.
  rewrite Hc, (count_samples (sample_class c) (answered_class c) sent (sh_index (ph_shared p)) Hp) in R3
    by apply sample_of_class. pose proof (count_nonneg (answered_class c) made). fold made in R3. split.
  - intros Hk. pose proof (R8 c k Hk) as [?|Hx]; [|by rewrite lookup_empty in Hx]. rewrite Hk in R3. cbn in R3. lia.
  - intros [Hk ->]. destruct (sc_error_counts s !! c) as [v|]; cbn in R3; [by f_equal|lia].
Qed.

(** C23: the load report is exact under every interleaving.  However the workers'
    operations and the clock interleave, when all workers of a measured phase have
    ended nothing is in flight, every request taken from the shared index was for a
    position of the pool, and the report counts exactly the requests made: those the
    client answered, those it did not, and for each error class with at least one
    failure how many fell into it, the most frequent first; each stage's histogram
    has one value per request it applies to. *)
Theorem load_report_exact parallelism now n p args generation height tree_size :
  pool <> [] -> 0 <= parallelism < u64_bound -> Z.of_nat n < u64_bound ->
  nsteps step n (phase_start parallelism now) p -> all_joined p ->
  let made := seqZ 0 (sh_index (ph_shared p)) in
  sh_in_flight (ph_shared p) = 0 /\
  Forall (fun i => exists position, pool_position pool i = Some position /\ position ∈ pool) made /\
  exists s, run_phase_result true p = Some (Ok s) /\
    let summary := StatsCollector_into_summary s args generation height tree_size in
    ls_completed summary = zlen made /\ ls_succeeded summary = count answered_ok made /\
    ls_errors summary = count (fun i => negb (answered_ok i)) made /\
    (forall c k, {| ec_class := c; ec_count := k |} ∈ ls_error_classes summary <->
       0 < k /\ k = count (answered_class c) made) /\
    StronglySorted count_ge (ls_error_classes summary) /\
    sg_samples <$> ls_stages summary =
      [ls_completed summary; ls_succeeded summary; ls_succeeded summary; ls_succeeded summary].
Proof.
  intros Hpool Hpar Hn Hrun Hj made.
  destruct (ended_phase _ _ _ _ Hpool Hpar Hn Hrun Hj) as (Hf & Hb & _).
  destruct (phase_collects _ _ _ _ Hpool Hpar Hn Hrun Hj) as (s & E & R1 & R2 & R3 & R4 & R5). fold made in R1, R2, R4.
  assert (zlen made = sh_index (ph_shared p)) as Hz by (unfold made, zlen; rewrite length_seqZ; lia).
  split; [done|]. split.
  { apply Forall_forall. intros i Hi%elem_of_seqZ. apply pool_position_some; [done|lia]. }
  exists s. split; [done|]. cbn. rewrite wrap64_small, R3 by lia. injection R5 as R5a R5b R5c R5d.
  split_and!; try done.
  - intros c k. rewrite sort_counts_perm, list_elem_of_fmap, <- R4. split.
    + intros ((c' & k') & [= -> ->] & Hin). rewrite map_order_perm in Hin. by apply elem_of_map_to_list.
    + intros Hk. exists (c, k). split; [done|]. rewrite map_order_perm. by apply elem_of_map_to_list.
  - apply sort_counts_sorted.
  - by rewrite R5a, R5b, R5c, R5d.
Qed.
End interleavings.

(** ** The end of a phase *)

Section ending.
Context (is_timeout : string -> bool) (timed_out : string) (net : Z -> Fate) (client : QueryClient)
  (pool : list Z) (deadline : Z).

#[local] Abbreviation wstep := (worker_step is_timeout timed_out net client pool deadline).

(** A run with [k] operations of workers in it, and any ticks in between. *)
Inductive phase_run : nat -> Phase -> Phase -> Prop :=
| phase_run_nil p : phase_run 0 p p
| phase_run_tick k p p' t : phase_run k p p' -> sh_now (ph_shared p') <= t ->
    phase_run k p {| ph_shared := set_now (ph_shared p') t; ph_workers := ph_workers p' |}
| phase_run_move k p p' i w w' sh : phase_run k p p' -> ph_workers p' !! i = Some w ->
    wstep (ph_shared p') w = Some (w', sh) ->
    phase_run (S k) p {| ph_shared := sh; ph_workers := <[i := w']> (ph_workers p') |}.

Lemma phase_run_trans k k' p p' p'' : phase_run k p p' -> phase_run k' p' p'' -> phase_run (k' + k) p p''.
Proof. intros Hr. induction 1; cbn [Nat.add]; eauto using phase_run_tick, phase_run_move. Qed.

(** The operations a worker has left once the deadline has passed. *)
Definition work_left (w : Worker) : nat :=
  match w with
  | DeadlineAhead => 8 | IndexTaken _ => 7 | CountedInFlight _ => 6 | PreparingQuery _ _ => 5
  | AwaitingReply _ _ _ => 4 | QueryReturned _ _ => 3 | SendingSample _ _ => 2 | AtDeadlineCheck => 1
  | WorkerEnded | WorkerPanicked => 0
  end.

Lemma step_now sh w w' sh' : wstep sh w = Some (w', sh') -> sh_now sh' = sh_now sh.
Proof.
  intros Hs. destruct w; cbn in Hs; try done; repeat (case_match; try done); by injection Hs as <- <-.
Qed.

Lemma move_work sh w w' sh' :
  deadline <= sh_now sh -> wstep sh w = Some (w', sh') ->
  (work_left w' < work_left w)%nat /\ sh_now sh' = sh_now sh.
Proof.
  intros Hd Hs. split; [|by eapply step_now]. destruct w; cbn in Hs; try done.
  1: rewrite (proj2 (Z.ltb_ge _ _)) in Hs by done.
  all: repeat (case_match; try done); injection Hs as <- <-; cbn; lia.
Qed.

Lemma sum_insert ws i w w' :
  ws !! i = Some w -> (work_left w' < work_left w)%nat ->
  (sum_list_with work_left (<[i := w']> ws) < sum_list_with work_left ws)%nat.
Proof.
  revert i. induction ws as [|x ws IH]; intros [|i]; try done.
  - intros [= ->] Hl. cbn [sum_list_with]. change (<[0%nat := w']> (w :: ws)) with (w' :: ws). cbn [sum_list_with]. lia.
  - intros Hi Hl. specialize (IH i Hi Hl). change (<[S i := w']> (x :: ws)) with (x :: <[i := w']> ws).
    cbn [sum_list_with]. lia.
Qed.

Lemma run_work k p p' :
  deadline <= sh_now (ph_shared p) -> phase_run k p p' ->
  deadline <= sh_now (ph_shared p') /\
  (k + sum_list_with work_left (ph_workers p') <= sum_list_with work_left (ph_workers p))%nat.
Proof.
  intros Hd Hr. induction Hr as [p|k p p' t Hr IH Ht|k p p' i w w' sh Hr IH Hw Hs]; [done|..];
    destruct (IH Hd) as [Hd' Hl]; cbn [ph_shared ph_workers set_now sh_now]; [split; [lia|done]|].
  destruct (move_work _ _ _ _ Hd' Hs) as [Hlt Hnow]. pose proof (sum_insert _ _ _ _ Hw Hlt). rewrite Hnow. split; [done|lia].
Qed.

Lemma work_bound ws : (sum_list_with work_left ws <= 8 * length ws)%nat.
Proof. induction ws as [|[] ws IH]; cbn [sum_list_with work_left length]; lia. Qed.

(** A worker waits only for a request it has sent, and for at most the timeout. *)
Definition sent_past (now : Z) (w : Worker) : Prop :=
  match w with AwaitingReply _ _ sent => sent <= now | _ => True end.

Definition awaiting (w : Worker) : bool := match w with AwaitingReply _ _ _ => true | _ => false end.

Lemma request_ends_timeout fate : (request_ends timed_out fate).1 <= REQUEST_TIMEOUT.
Proof. destruct fate as [delay reply|]; cbn; [destruct (_ <? _) eqn:E; cbn; bool_prop; lia|lia]. Qed.

Lemma step_sent_past sh w w' sh' : wstep sh w = Some (w', sh') -> sent_past (sh_now sh) w'.
Proof.
  intros Hs. destruct w; cbn in Hs; try done; repeat (case_match; try done); injection Hs as <- <-; cbn; done || lia.
Qed.

Lemma run_sent_past k p p' :
  Forall (sent_past (sh_now (ph_shared p))) (ph_workers p) -> phase_run k p p' ->
  Forall (sent_past (sh_now (ph_shared p'))) (ph_workers p').
Proof.
  intros H0 Hr. induction Hr as [p|k p p' t Hr IH Ht|k p p' i w w' sh Hr IH Hw Hs]; [done|..].
  - eapply Forall_impl; [by apply IH|]. intros [] Hs; cbn in *; done || lia.
  - cbn [ph_shared ph_workers]. rewrite (step_now _ _ _ _ Hs).
    apply Forall_insert; [by apply IH|by eapply step_sent_past].
Qed.

Lemma free_step sh w : worker_joined w = false -> awaiting w = false -> exists w' sh', wstep sh w = Some (w', sh').
Proof. intros Hj Ha. destruct w; try done; cbn; repeat case_match; eauto. Qed.

Lemma due_step sh i started sent : sent + REQUEST_TIMEOUT <= sh_now sh ->
  exists w', wstep sh (AwaitingReply i started sent) = Some (w', sh) /\ worker_index w' = Some i /\ awaiting w' = false.
Proof.
  intros Hd. pose proof (request_ends_timeout (net i)). cbn. rewrite (proj2 (Z.ltb_ge _ _)) by lia. eauto.
Qed.

(** Moving every worker until it stops, at one instant. *)
Lemma run_until (stop : Worker -> bool) (P : Worker -> Prop) now :
  deadline <= now ->
  (forall sh w, sh_now sh = now -> P w -> stop w = false ->
     exists w' sh', wstep sh w = Some (w', sh') /\ P w') ->
  forall p, sh_now (ph_shared p) = now -> Forall P (ph_workers p) ->
  exists k p', phase_run k p p' /\ sh_now (ph_shared p') = now /\
    Forall P (ph_workers p') /\ forallb stop (ph_workers p') = true.
Proof.
  intros Hd Hstep p. remember (sum_list_with work_left (ph_workers p)) as n eqn:En.
  revert p En. induction n as [n IH] using lt_wf_ind; intros p En Hn HP.
  destruct (forallb stop (ph_workers p)) eqn:E; [exists 0%nat, p; eauto using phase_run_nil|].
  apply not_true_iff_false in E. rewrite forallb_forall in E.
  assert (exists i w, ph_workers p !! i = Some w /\ stop w = false) as (i & w & Hi & Hw).
  { destruct (list_find (fun w => stop w = false) (ph_workers p)) as [[i w]|] eqn:Ef.
    - apply list_find_Some in Ef as (? & ? & _). eauto.
    - destruct E. intros w Hw%list_elem_of_In. apply list_find_None in Ef.
      rewrite Forall_forall in Ef. by apply not_false_iff_true, Ef. }
  destruct (Hstep (ph_shared p) w Hn) as (w' & sh & Hs & HP'); [by eapply Forall_lookup_1|done|].
  rewrite <- Hn in Hd. destruct (move_work _ _ _ _ Hd Hs) as [Hlt Hnow].
  pose proof (sum_insert _ _ _ _ Hi Hlt) as Hsum. rewrite Hn in Hd.
  destruct (IH _ ltac:(rewrite En; exact Hsum) {| ph_shared := sh; ph_workers := <[i := w']> (ph_workers p) |})
    as (k & p' & Hr & Hend); [done|cbn; lia|by apply Forall_insert|].
  exists (k + 1)%nat, p'. split; [|done]. eapply phase_run_trans; [|exact Hr].
  eapply phase_run_move; [constructor|exact Hi|exact Hs].
Qed.

(** A worker that no longer sends a request before it ends, and waits for none. *)
Definition due (now : Z) (w : Worker) : Prop :=
  match w with
  | AwaitingReply _ _ sent => sent + REQUEST_TIMEOUT <= now
  | DeadlineAhead | IndexTaken _ | CountedInFlight _ | PreparingQuery _ _ => False
  | _ => True
  end.

Lemma due_progress sh w : deadline <= sh_now sh -> due (sh_now sh) w -> worker_joined w = false ->
  exists w' sh', wstep sh w = Some (w', sh') /\ due (sh_now sh) w'.
Proof.
  intros Hd Hw Hj. destruct w; try done; cbn in Hw |- *.
  - rewrite (proj2 (Z.ltb_ge _ _)) by done. by do 2 eexists.
  - pose proof (request_ends_timeout (net index)). rewrite (proj2 (Z.ltb_ge _ _)) by lia. by do 2 eexists.
  - by do 2 eexists.
  - by do 2 eexists.
Qed.

(** From the deadline on the workers can be run to their end within one timeout. *)
Lemma run_to_end p :
  deadline <= sh_now (ph_shared p) -> Forall (sent_past (sh_now (ph_shared p))) (ph_workers p) ->
  exists k p', phase_run k p p' /\ all_joined p' /\
    sh_now (ph_shared p') = sh_now (ph_shared p) + REQUEST_TIMEOUT.
Proof.
  intros Hd HP. set (now := sh_now (ph_shared p)) in *.
  destruct (run_until (fun w => worker_joined w || awaiting w) (sent_past now) now Hd) with (p := p)
    as (k1 & p1 & Hr1 & Hn1 & HP1 & Hs1); [|done|done|].
  { intros sh w Hn _ [Hj Ha]%orb_false_elim. destruct (free_step sh w Hj Ha) as (w' & sh' & Hs).
    exists w', sh'. split; [done|]. rewrite <- Hn. by eapply step_sent_past. }
  set (p2 := {| ph_shared := set_now (ph_shared p1) (now + REQUEST_TIMEOUT); ph_workers := ph_workers p1 |}).
  assert (0 <= REQUEST_TIMEOUT) as Ht by done.
  destruct (run_until worker_joined (due (now + REQUEST_TIMEOUT)) (now + REQUEST_TIMEOUT) ltac:(lia)) with (p := p2)
    as (k2 & p3 & Hr2 & Hn2 & _ & Hs2); [|done| |].
  { intros sh w Hn Hw Hj. rewrite <- Hn in *. apply due_progress; [lia|done|done]. }
  { cbn [ph_workers p2]. rewrite Forall_forall in HP1 |- *. intros w Hw. specialize (HP1 w Hw).
    rewrite forallb_forall in Hs1. specialize (Hs1 w (proj1 (list_elem_of_In _ _) Hw)).
    destruct w; try done. cbn in *. lia. }
  exists (k2 + k1)%nat, p3. split; [|by split]. eapply phase_run_trans; [|exact Hr2].
  apply phase_run_tick; [exact Hr1|]. rewrite Hn1. lia.
Qed.

End ending.

(** ** The whole program *)

Section program.
Context `{HdrHistogram} `{MapOrder} `{StdRngLaws}.

(** Every drawn position is one the server covers. *)
Lemma pool_positions tree_size seed : 0 < tree_size ->
  Forall (fun position => 0 <= position < tree_size) (build_query_pool tree_size QUERY_POOL_SIZE seed) /\
  length (build_query_pool tree_size QUERY_POOL_SIZE seed) = QUERY_POOL_SIZE.
Proof.
  intros Ht. unfold build_query_pool. generalize (match seed with Some s => seed_from_u64 s | None => from_entropy end).
  induction QUERY_POOL_SIZE as [|n IH]; intros r; cbn [draw_positions]; [done|].
  pose proof (gen_range_bound r tree_size Ht) as Hg. destruct (gen_range r tree_size) as [position r']. cbn in Hg.
  destruct (IH r') as [Hall Hlen]. split; [by constructor|cbn; by rewrite Hlen].
Qed.

Lemma threshold_passes summary args :
  threshold_failures summary args = [] <->
  ls_completed summary <> 0 /\ flt (ar_max_error_rate args) (ls_error_rate summary) = false /\
  forall limit stage, ar_slo_p99_ms args = Some limit -> head (ls_stages summary) = Some stage ->
    flt limit (sg_p99_ms stage) = false.
Proof.
  unfold threshold_failures. destruct (ls_completed summary =? 0) eqn:E1; bool_prop;
    [split; [done|intros (? & _); done]|]. cbn [app].
  destruct (flt (ar_max_error_rate args) (ls_error_rate summary)); [split; [done|intros (_ & ? & _); done]|]. cbn [app].
  destruct (ar_slo_p99_ms args) as [limit|], (ls_stages summary) as [|stage rest]; cbn; try by split.
  destruct (flt limit (sg_p99_ms stage)) eqn:E3.
  - split; [done|]. intros (_ & _ & Hk). by rewrite (Hk limit stage eq_refl eq_refl) in E3.
  - split; [|done]. intros _. split_and!; try done. by intros ? ? [= ->] [= ->].
Qed.

(** The program succeeds only with valid arguments, a non-empty tree, a preflight
    query that was answered and a measured phase within every threshold; the summary
    it prints is that of the measured phase. *)
Lemma run_success args connect preflight phase write summary :
  run args connect preflight phase write = Ok summary ->
  validate args = Ok tt /\ threshold_failures summary args = [] /\
  exists generation collector, connect = Ok generation /\ 0 < eg_ironwood_tree_size generation /\
    (exists timing, preflight (default 0 (head (build_query_pool (eg_ironwood_tree_size generation)
      QUERY_POOL_SIZE (ar_seed args)))) = Ok timing) /\
    phase (build_query_pool (eg_ironwood_tree_size generation) QUERY_POOL_SIZE (ar_seed args))
      (ar_parallelism args) (ar_duration args) true = Ok collector /\
    summary = StatsCollector_into_summary collector args (eg_generation generation)
      (eg_anchor_height generation) (eg_ironwood_tree_size generation).
Proof.
  unfold run. destruct (validate args) as [[]|]; [|done]. destruct connect as [g|]; [|done].
  destruct (0 <? eg_ironwood_tree_size g) eqn:Et; [|done]. cbn [negb]. cbv zeta. bool_prop.
  destruct (preflight _) as [timing|] eqn:Ep; [|done]. cbn [map_err].
  destruct (if ar_warmup args =? 0 then _ else _) as [[]|]; [|done].
  destruct (phase _ _ (ar_duration args) true) as [c|] eqn:Ec; [|done].
  destruct (match ar_json_out args with Some _ => _ | None => _ end) as [[]|]; [|done].
  destruct (threshold_failures _ args) eqn:Eth; [|done]. intros [= <-]. split_and!; [done|done|].
  exists g, c. split_and!; try done. by exists timing.
Qed.
End program.

(** ** A run *)

Definition list_histogram : HdrHistogram := {|
  histogram := list Z; hist_new _ := []; hist_record h v := Some (v :: h); hist_len := zlen;
  value_at_quantile h _ := default 0 (head h); hist_max h := foldr Z.max 0 h |}.

Lemma list_histogram_laws : @HdrHistogramLaws list_histogram.
Proof. split; [done|]. intros h v _. eexists. split; [reflexivity|]. cbn. autorewrite with zlen. lia. Qed.

Definition key_order : MapOrder := fun m => map_to_list m.
Lemma key_order_laws : @MapOrderLaws key_order.
Proof. intros m. reflexivity. Qed.

(** Drive a phase by a schedule: a tick to an instant, or one worker's operation. *)
Fixpoint drive is_timeout timed_out net client pool deadline (p : Phase) (schedule : list (Z + nat)) :
    option Phase :=
  match schedule with
  | [] => Some p
  | inl t :: schedule =>
      if sh_now (ph_shared p) <=? t
      then drive is_timeout timed_out net client pool deadline
        {| ph_shared := set_now (ph_shared p) t; ph_workers := ph_workers p |} schedule
      else None
  | inr i :: schedule =>
      w ← ph_workers p !! i;
      '(w', sh) ← worker_step is_timeout timed_out net client pool deadline (ph_shared p) w;
      drive is_timeout timed_out net client pool deadline
        {| ph_shared := sh; ph_workers := <[i := w']> (ph_workers p) |} schedule
  end.

Lemma drive_steps is_timeout timed_out net client pool deadline schedule : forall p p',
  drive is_timeout timed_out net client pool deadline p schedule = Some p' ->
  nsteps (phase_step is_timeout timed_out net client pool deadline) (length schedule) p p'.
Proof.
  induction schedule as [|[t|i] l IH]; intros p p'; cbn [drive length].
  - intros [= ->]. constructor.
  - destruct (_ <=? t) eqn:E; [|done]. bool_prop. intros Hd. econstructor; [by apply step_tick|by apply IH].
  - destruct (ph_workers p !! i) as [w|] eqn:Ew; [|done]. cbn [mbind option_bind].
    destruct (worker_step _ _ _ _ _ _ _ w) as [[w' sh]|] eqn:Es; [|done]. cbn [mbind option_bind]. intros Hd.
    econstructor; [by eapply step_worker|by apply IH].
Qed.

Fixpoint moves (schedule : list (Z + nat)) : nat :=
  match schedule with [] => 0 | inl _ :: l => moves l | inr _ :: l => S (moves l) end%nat.

Lemma drive_run is_timeout timed_out net client pool deadline schedule : forall k p0 p p',
  phase_run is_timeout timed_out net client pool deadline k p0 p ->
  drive is_timeout timed_out net client pool deadline p schedule = Some p' ->
  phase_run is_timeout timed_out net client pool deadline (moves schedule + k) p0 p'.
Proof.
  induction schedule as [|[t|i] l IH]; intros k p0 p p' Hr; cbn [drive moves].
  - by intros [= <-].
  - destruct (_ <=? t) eqn:E; [|done]. bool_prop. apply IH. by apply phase_run_tick.
  - destruct (ph_workers p !! i) as [w|] eqn:Ew; [|done]. cbn [mbind option_bind].
    destruct (worker_step _ _ _ _ _ _ _ w) as [[w' sh]|] eqn:Es; [|done]. cbn [mbind option_bind]. intros Hd.
    replace (S (moves l) + k)%nat with (moves l + S k)%nat by lia.
    eapply IH; [by eapply phase_run_move|exact Hd].
Qed.

(** Two workers, a pool of two positions, and a server that answers the even requests
    and never the odd ones. *)
Definition busy_net (i : Z) : Fate :=
  if Z.even i then Delivered 1 (Ok {| hp_status := 200; hp_content_length := None; hp_chunks := [] |})
  else NeverDelivered.
Definition busy_client : QueryClient := {|
  qc_prepared := unit;
  qc_prepare _ _ := Ok tt;
  qc_finish _ _ reply :=
    match reply with
    | Ok _ => Ok {| qt_prepare := 1000; qt_http := 2000; qt_decode := 3000; qt_total := 6000 |}
    | Err e => Err (CE_Http e)
    end |}.
Definition busy_drive : Phase -> list (Z + nat) -> option Phase :=
  drive (String.eqb "timed out") "timed out" busy_net busy_client [5; 9] 10.

(** The second worker takes its index first and is answered; the first worker's
    request is given up two minutes after it was sent, long after the deadline. *)
Definition busy_schedule : list (Z + nat) :=
  [inr 1; inr 0; inr 1; inr 0; inr 0; inr 0; inr 0; inl 4%Z; inr 1; inr 1; inr 1; inl 5%Z; inr 1;
   inl 12%Z; inr 1; inr 1; inr 1; inl (120 * 10 ^ 9)%Z; inr 0; inr 0; inr 0; inr 0]%nat.

Definition busy_end : Phase := default (phase_start 0 0) (busy_drive (phase_start 2 0) busy_schedule).

Definition busy_args : Args :=
  {| ar_server := "http://c"; ar_parallelism := 2; ar_duration := 10; ar_warmup := 0; ar_seed := None;
     ar_json_out := None; ar_max_error_rate := f64_decimal 1 2; ar_slo_p99_ms := None |}.

Lemma load_report_exact_witness :
  all_joined busy_end /\
  exists s, @run_phase_result list_histogram true busy_end = Some (Ok s) /\
    let summary := @StatsCollector_into_summary list_histogram key_order s busy_args 1 2 3 in
    ls_completed summary = 2 /\ ls_succeeded summary = 1 /\ ls_errors summary = 1 /\
    {| ec_class := "timeout"; ec_count := 1 |} ∈ ls_error_classes summary.
Proof.
  assert (Hj : all_joined busy_end) by (vm_compute; reflexivity). split; [exact Hj|].
  destruct (@load_report_exact (String.eqb "timed out") "timed out" busy_net busy_client [5; 9] 10 list_histogram
    list_histogram_laws key_order key_order_laws 2 0 22 busy_end busy_args 1 2 3) as (_ & _ & s & E & Hc & Hs & He & Hcl & _).
  - discriminate.
  - unfold u64_bound. lia.
  - unfold u64_bound. lia.
  - apply (drive_steps (String.eqb "timed out") "timed out" busy_net busy_client [5; 9] 10 busy_schedule).
    vm_compute. reflexivity.
  - exact Hj.
  - exists s. split; [exact E|]. split; [exact Hc|]. split; [exact Hs|]. split; [exact He|].
    apply Hcl. vm_compute. split; reflexivity.
Defined.

(** The phase at its deadline, and after the answered worker has ended. *)
Definition busy_late : Phase :=
  default (phase_start 0 0) (busy_drive (phase_start 2 0) (take 14 busy_schedule)).
Definition busy_waiting : Phase := default (phase_start 0 0) (busy_drive busy_late [inr 1; inr 1; inr 1]%nat).

