(* ===== verification/FilterCli.v ===== *)
(** * The reference filter client

    Models [pir/transparent-filter/src/bin/cli.rs], the command-line client of the
    filter service, with the JSON calls of [HttpTransport] in
    [pir/transparent-filter/src/http.rs] it uses.  The arguments are parsed values,
    the scripts file and standard input are given as text, and standard output is
    the list of JSON values printed, one per line; reading JSON text is the class
    [JsonText], and a JSON response of the service is the value it was made from.
    The theorems: a synchronization that takes the chain from an honest service
    covers exactly the heights asked for, and what [BatchBuild] prints for a block
    makes [BatchMatch] report every script of that block. *)

From Stdlib Require Import ZArith Lia.
From stdpp Require Import base numbers list strings gmap sorting.
From S2P Require Import Prelude Cursor FilterTypes Instances BitStream Validate Matching Envelope FilterClient FilterStore FilterService Float64 ApmSchema EnhanceTypes Fleet ServerMetrics Observe.

Open Scope Z_scope.

(** ** The service's JSON routes *)

Inductive ApiPath := PathInfo | PathHealth | PathChain (start_height count : Z).

(** One GET: the status, and the body [serde_json] reads. *)
Class JsonApi (S : Type) := api_get : S -> ApiPath -> result string (Z * Body).

Section http.
Context {S : Type} `{JsonApi S}.

Definition HttpTransport_new (base_url : string) (client : result string S) :
    result FilterError (HttpTransport S) :=
  let? client := map_err FE_Response client in
  Ok {| ht_base_url := trim_end_slashes base_url; ht_client := client |}.

Definition HttpTransport_get (t : HttpTransport S) (path : ApiPath) : result FilterError Body :=
  let? (status, body) := map_err (fun _ => FE_Response "{url}: {error}") (api_get (ht_client S t) path) in
  if negb ((200 <=? status) && (status <? 300)) then Err (FE_Response "{url}: HTTP {status}: {}")
  else Ok body.

Definition HttpTransport_info (t : HttpTransport S) : result FilterError FilterServiceInfo :=
  let? body := HttpTransport_get t PathInfo in
  match body with BInfo i => Ok i | _ => Err (FE_Response "info: {error}") end.

Definition HttpTransport_health (t : HttpTransport S) : result FilterError FilterServiceHealth :=
  let? body := HttpTransport_get t PathHealth in
  match body with BHealth h => Ok h | _ => Err (FE_Response "health: {error}") end.

Definition HttpTransport_chain (t : HttpTransport S) (start_height count : Z) :
    result FilterError (list ChainEntry) :=
  let? body := HttpTransport_get t (PathChain start_height count) in
  match body with BChain l => Ok l | _ => Err (FE_Response "chain: {error}") end.
End http.

(** ** Commands *)

Inductive Command :=
| CmdSync (server : string) (scripts : result string string) (start_height stop_height : option Z)
    (accept_server_chain : bool)
| CmdInfo (server : string)
| CmdBatchBuild
| CmdBatchMatch.

(** [serde_json::from_str]. *)
Class JsonText := json_from_str : string -> result string Json.

(** [input[name]]: [Null] when there is no such field. *)
Definition json_index (name : string) (v : Json) : Json := default JNull (json_get name v).
Definition as_array (v : Json) : option (list Json) := match v with JArray l => Some l | _ => None end.

Fixpoint collect_results {E A B} (f : A -> result E B) (l : list A) : result E (list B) :=
  match l with
  | [] => Ok []
  | x :: l => let? y := f x in let? ys := collect_results f l in Ok (y :: ys)
  end.

(** [str::lines]: newline-separated, a final newline ends the last line, and a
    carriage return before a newline is dropped. *)
Definition drop_cr (l : list Z) : list Z :=
  match reverse l with b :: rest => if b =? 13 then reverse rest else l | [] => l end.
Definition lines (text : list Z) : list (list Z) :=
  let parts := split_on 10 text [] in
  match reverse parts with
  | [] :: rest => drop_cr <$> reverse rest
  | last :: rest => (drop_cr <$> reverse rest) ++ [last]
  | [] => []
  end.

Section cli.
Context `{Hex} `{Sha256} `{SipHash24} `{GcsWriter} `{JsonText}.

(** [text] is the result of [read_to_string]. *)
Definition read_scripts (text : result string string) : result string (list ScriptBytes) :=
  let? text := text in
  collect_results (fun line => ok_or (hex_decode (bytes_string line)) "bad script hex {line:?}: {error}"%string)
    (base.filter (fun line => line <> [] /\ head line <> Some 35) (trim <$> lines (string_bytes text))).

Context {S : Type} `{HttpServer S} `{JsonApi S} (path_bytes : Z -> string -> Z).
#[local] Instance cli_transport : FilterTransport (HttpTransport S) := HttpTransport_fetch_range path_bytes.

(** The entries of one response into the chain. *)
Fixpoint insert_entries (chain : ChainMap) (entries : list ChainEntry) : result string ChainMap :=
  match entries with
  | [] => Ok chain
  | entry :: entries =>
      let? hash := map_err FilterError_string (BlockHash_from_display_hex (ce_block_hash entry)) in
      insert_entries (ChainMap_insert chain (ce_height entry) hash) entries
  end.

(** The [while at <= stop] loop; [None] is out of fuel. *)
Fixpoint fetch_chain (fuel : nat) (t : HttpTransport S) (at_ stop : Z) (chain : ChainMap) :
    option (result string ChainMap) :=
  if at_ <=? stop then
    match fuel with
    | O => None
    | Datatypes.S fuel =>
        let count := Z.min (wrap64 (stop - at_ + 1)) 10000 in
        match (let? entries := map_err FilterError_string (HttpTransport_chain t at_ count) in
               insert_entries chain entries) with
        | Err e => Some (Err e)
        | Ok chain => fetch_chain fuel t (wrap64 (at_ + count)) stop chain
        end
    end
  else Some (Ok chain).

Definition match_json (m : BlockMatch) : Json := JObject [
  ("height", JInteger (bm_height m));
  ("block_hash", JString (BlockHash_to_display_hex (bm_block_hash m)));
  ("script_indices", JArray ((fun i : nat => JInteger (Z.of_nat i)) <$> bm_script_indices m))]%string.

Definition sync_json (start : Z) (outcome : SyncOutcome) (wallet_scripts : list ScriptBytes)
    (elapsed_ms : Z) : Json := JObject [
  ("start_height", JInteger start);
  ("covered_through", JInteger (so_covered_through outcome));
  ("covered_block_hash", JString (BlockHash_to_display_hex (so_covered_block_hash outcome)));
  ("filters_checked", JInteger (so_filters_checked outcome));
  ("wallet_scripts", JInteger (zlen wallet_scripts));
  ("matched_blocks", JInteger (zlen (so_matches outcome)));
  ("matches", JArray (match_json <$> so_matches outcome));
  ("bytes_received", JInteger (bc_received (so_charges outcome)));
  ("bytes_sent", JInteger (bc_sent (so_charges outcome)));
  ("requests", JInteger (bc_requests (so_charges outcome)));
  ("elapsed_ms", JInteger elapsed_ms)]%string.

(** The [Sync] arm up to the call of [sync_range]: the request and the chain. *)
Definition sync_request (client : result string S) (server : string) (scripts : result string string)
    (start_height stop_height : option Z) (accept_server_chain : bool) :
    option (result string (list ScriptBytes * HttpTransport S * RangeRequest * ChainMap)) :=
  match (let? wallet_scripts := read_scripts scripts in
         let? transport := map_err FilterError_string (HttpTransport_new server client) in
         let? info := map_err FilterError_string (HttpTransport_info transport) in
         if negb accept_server_chain
         then Err "this reference client has no accepted chain of its own; pass --accept-server-chain to let it use the service's, which a real wallet must not do"%string else
         let start := default (si_start_height info) start_height in
         let? stop := ok_or (match stop_height with Some s => Some s | None => si_covered_through info end)
           "service has no coverage yet and no --stop-height was given"%string in
         if stop <? start then Err "stop height {stop} is below start height {start}"%string else
         Ok (wallet_scripts, transport, info, start, stop)) with
  | Err e => Some (Err e)
  | Ok (wallet_scripts, transport, info, start, stop) =>
      chain ← fetch_chain (Z.to_nat (stop - start + 1)) transport start stop ChainMap_new;
      Some (
        let? chain := chain in
        let? (_, stop_hash) := ok_or (ChainMap_tip chain) "service returned no chain entries"%string in
        let? genesis := map_err FilterError_string (BlockHash_from_display_hex (si_genesis_hash info)) in
        Ok (wallet_scripts, transport,
            {| rr_genesis := genesis; rr_profile := si_profile info; rr_start_height := start;
               rr_stop_block_hash := stop_hash |}, chain))
  end.

Definition cmd_sync (client : result string S) (server : string) (scripts : result string string)
    (start_height stop_height : option Z) (accept_server_chain : bool) (elapsed_ms : Z) :
    option (list Json * result string unit) :=
  prepared ← sync_request client server scripts start_height stop_height accept_server_chain;
  match prepared with
  | Err e => Some ([], Err e)
  | Ok (wallet_scripts, transport, request, chain) =>
      '(outcome, _) ← sync_range request chain wallet_scripts ZCASH_MAINNET transport;
      Some match map_err FilterError_string outcome with
      | Err e => ([], Err e)
      | Ok outcome => ([sync_json (rr_start_height request) outcome wallet_scripts elapsed_ms], Ok tt)
      end
  end.

Definition cmd_info (client : result string S) (server : string)
    (print : FilterServiceInfo -> FilterServiceHealth -> Json) : list Json * result string unit :=
  match (let? transport := map_err FilterError_string (HttpTransport_new server client) in
         let? info := map_err FilterError_string (HttpTransport_info transport) in
         let? health := map_err FilterError_string (HttpTransport_health transport) in
         Ok (print info health)) with
  | Err e => ([], Err e)
  | Ok j => ([j], Ok tt)
  end.

Definition decode_scripts (values : list Json) : result string (list ScriptBytes) :=
  collect_results (fun value => ok_or (hex_decode (default "" (as_str value))%string) "{e}"%string) values.

Definition input_hash (input : Json) : result string BlockHash :=
  let? text := ok_or (as_str (json_index "block_hash_display" input)) "block_hash_display"%string in
  map_err FilterError_string (BlockHash_from_display_hex text).

(** One line of [BatchBuild]. *)
Definition build_line (line : string) : result string Json :=
  let? input := json_from_str line in
  let? hash := input_hash input in
  let? values := ok_or (as_array (json_index "elements" input)) "elements"%string in
  let? elements := decode_scripts values in
  let? filter := map_err FilterError_string (build_filter hash elements) in
  Ok (JObject [("filter", JString (hex_encode filter));
               ("filter_hash", JString (hex_encode (filter_hash filter)));
               ("bytes", JInteger (zlen filter));
               ("elements", JInteger (element_count elements))]%string).

(** One line of [BatchMatch]. *)
Definition match_line (line : string) : result string Json :=
  let? input := json_from_str line in
  let? hash := input_hash input in
  let? text := ok_or (as_str (json_index "filter" input)) "filter"%string in
  let? bytes := ok_or (hex_decode text) "{e}"%string in
  let? values := ok_or (as_array (json_index "scripts" input)) "scripts"%string in
  let? scripts := decode_scripts values in
  let? validated := map_err FilterError_string (validate_filter bytes ZCASH_MAINNET) in
  let? matched := map_err FilterError_string (match_scripts validated hash scripts) in
  Ok (JObject [("indices", JArray ((fun i : nat => JInteger (Z.of_nat i)) <$> matched));
               ("elements", JInteger (zlen (vf_values validated)))]%string).

(** The loop over standard input: what was printed before an error stays printed. *)
Fixpoint batch_lines (f : string -> result string Json) (input : list (result string string)) :
    list Json * result string unit :=
  match input with
  | [] => ([], Ok tt)
  | Err e :: _ => ([], Err e)
  | Ok line :: input =>
      if bool_decide (trim (string_bytes line) = []) then batch_lines f input else
      match f line with
      | Err e => ([], Err e)
      | Ok out => let '(outs, r) := batch_lines f input in (out :: outs, r)
      end
  end.

Definition cli_run (client : result string S) (stdin : list (result string string)) (elapsed_ms : Z)
    (print : FilterServiceInfo -> FilterServiceHealth -> Json) (command : Command) :
    option (list Json * result string unit) :=
  match command with
  | CmdInfo server => Some (cmd_info client server print)
  | CmdSync server scripts start stop accept => cmd_sync client server scripts start stop accept elapsed_ms
  | CmdBatchBuild => Some (batch_lines build_line stdin)
  | CmdBatchMatch => Some (batch_lines match_line stdin)
  end.
End cli.

(** ** The service behind the routes *)

#[export] Instance Served_json `{Hex} : JsonApi Served := fun s path =>
  match (match path with
         | PathInfo => info (sv_inner s)
         | PathHealth => health (sv_inner s)
         | PathChain start count => chain_handler (sv_inner s) start count
         end) with
  | RJson status body => Ok (status, body)
  | RBytes status _ => Ok (status, BError "")
  end.

(** ** The chain of an honest service *)

(** The tip of a chain is the entry of its largest height. *)
Lemma ChainMap_tip_max chain k h :
  by_height chain !! k = Some h -> (forall k' h', by_height chain !! k' = Some h' -> k' <= k) ->
  ChainMap_tip chain = Some (k, h).
Proof.
  intros Hk Hmax. unfold ChainMap_tip. apply elem_of_btree_iter in Hk as Hin.
  destruct (last (btree_iter (by_height chain))) as [[k' h']|] eqn:E.
  2:{ apply last_None in E. rewrite E in Hin. by apply elem_of_nil in Hin. }
  apply last_Some in E as [l E]. assert (Hin' : (k', h') ∈ btree_iter (by_height chain)) by (rewrite E; set_solver).
  apply elem_of_btree_iter in Hin' as Hk'. pose proof (Hmax _ _ Hk').
  assert (StronglySorted key_le (btree_iter (by_height chain))) as Hs by (apply StronglySorted_merge_sort; apply _).
  rewrite E in Hs, Hin. apply elem_of_app in Hin as [Hin|Hin].
  - apply StronglySorted_app in Hs as (Hc & _). specialize (Hc _ _ Hin (list_elem_of_here _ _)).
    unfold key_le in Hc. cbn in Hc. assert (k' = k) as -> by lia. congruence.
  - apply list_elem_of_singleton in Hin. by injection Hin as -> ->.
Qed.

Section honest_cli.
Context `{HexLaws} `{Sha256} `{SipHash24} `{JsonText} (path_bytes : Z -> string -> Z).
Context (i : Inner) (d : files) (es : list (BlockHash * Located)) (a : AbsStore) (genesis : BlockHash).
Context (Hs : serving i d es a genesis ZCASH_MAINNET).
#[local] Abbreviation store := (in_store i).
#[local] Abbreviation start0 := (meta_start_height (fs_meta store)).
#[local] Abbreviation hash_at := (FilterStore_block_hash_at store).
#[local] Abbreviation served := ({| sv_inner := i; sv_files := d |}).

(** The chain holds the service's blocks from [lo] up to but not including [hi]. *)
Definition holds_chain (lo hi : Z) (chain : ChainMap) : Prop :=
  forall k h, by_height chain !! k = Some h <-> lo <= k < hi /\ hash_at k = Some h.

Lemma hash_at_covered k : start0 <= k < start0 + zlen (fs_chain store) -> exists h, hash_at k = Some h /\ hash_ok h.
Proof.
  intros Hk. destruct (lookup_lt_is_Some_2 (fs_chain store) (Z.to_nat (k - start0))) as [h Hl];
    [unfold zlen in Hk; lia|].
  exists h. split; [apply block_hash_at_Some; split; [lia|done]|].
  pose proof (r_hashes _ _ _ (sg_repr _ _ _ _ _ _ Hs)) as Hh. by apply (Forall_lookup_1 _ _ _ _ Hh Hl).
Qed.

Lemma insert_served lo n : forall at_ chain,
  start0 <= lo <= at_ -> at_ + Z.of_nat n <= start0 + zlen (fs_chain store) -> holds_chain lo at_ chain ->
  exists chain', insert_entries chain (chain_entries store at_ n) = Ok chain' /\
    holds_chain lo (at_ + Z.of_nat n) chain'.
Proof.
  induction n as [|n IH]; intros at_ chain Hlo Hn Hc.
  { exists chain. by rewrite Z.add_0_r. }
  cbn [chain_entries]. destruct (hash_at_covered at_) as (h & Hh & Hok); [lia|]. rewrite Hh.
  cbn [insert_entries ce_height ce_block_hash]. rewrite from_to_display_hex by done. cbn [map_err].
  destruct (IH (at_ + 1) (ChainMap_insert chain at_ h)) as (chain' & -> & Hc'); [lia|lia| |].
  - intros k h'. cbn [by_height ChainMap_insert]. rewrite lookup_insert_Some, (Hc k h' : _ <-> _). split.
    + intros [[<- <-]|[Hne [Hk Hk']]]; (split; [lia|done]).
    + intros [Hk Hk']. destruct (decide (at_ = k)) as [->|]; [left; split; congruence|right]. split_and!; (done || lia).
  - exists chain'. split; [done|]. by replace (at_ + Z.of_nat (S n)) with (at_ + 1 + Z.of_nat n) by lia.
Qed.

Lemma fetch_chain_honest base lo stop fuel : forall at_ chain,
  start0 <= lo <= at_ -> at_ <= stop + 1 -> stop < start0 + zlen (fs_chain store) ->
  stop - at_ < Z.of_nat fuel -> holds_chain lo at_ chain ->
  exists chain', fetch_chain fuel {| ht_base_url := base; ht_client := served |} at_ stop chain = Some (Ok chain') /\
    holds_chain lo (stop + 1) chain'.
Proof.
  destruct (sg_range _ _ _ _ _ _ Hs) as [Hs0 Hb].
  induction fuel as [|fuel IH]; intros at_ chain Hlo Hat Hstop Hf Hc; cbn [fetch_chain];
    (destruct (at_ <=? stop) eqn:E; bool_prop; [|exists chain; split; [done|]; by replace (stop + 1) with at_ by lia]); [lia|].
  rewrite (wrap64_small (stop - at_ + 1)) by lia. set (count := Z.min _ _).
  assert (1 <= count <= 10000 /\ count <= stop - at_ + 1) as Hcount by lia.
  unfold HttpTransport_chain, HttpTransport_get, api_get, Served_json. cbn [ht_client sv_inner].
  unfold chain_handler. destruct ((count =? 0) || (10000 <? count)) eqn:E2; [bool_prop; lia|]. clear E2.
  cbn [map_err]. change (negb ((200 <=? 200) && (200 <? 300))) with false. cbv iota. cbn [map_err].
  unfold saturating_add64. rewrite Z.min_l by lia. replace (at_ + count - at_) with count by lia.
  destruct (insert_served lo (Z.to_nat count) at_ chain) as (chain1 & -> & Hc1); [done|lia|done|].
  rewrite wrap64_small by lia. apply IH; [lia|lia|lia|lia|]. by rewrite Z2Nat.id in Hc1 by lia.
Qed.

Lemma served_info base : HttpTransport_info {| ht_base_url := base; ht_client := served |} = Ok {|
  si_genesis_hash := meta_genesis_hash (fs_meta store); si_network := NETWORK;
  si_profile := meta_profile (fs_meta store); si_envelope_version := ENVELOPE_VERSION;
  si_start_height := start0; si_covered_through := FilterStore_covered_through store;
  si_covered_block_hash := BlockHash_to_display_hex <$>
    (FilterStore_covered_through store ≫= FilterStore_block_hash_at store);
  si_max_records_per_batch := MAX_RECORDS_PER_BATCH; si_max_filter_bytes := max_bytes ZCASH_MAINNET |}.
Proof. reflexivity. Qed.

Lemma stop_height_of lo stop h chain :
  holds_chain lo (stop + 1) chain -> lo <= stop -> hash_at stop = Some h -> height_of chain h = Some stop.
Proof.
  intros Hc Hle Hh. assert (by_height chain !! stop = Some h) as Hst by (apply Hc; split; [lia|done]).
  destruct (height_of chain h) as [n|] eqn:E.
  - apply ChainMap_height_of_Some in E. apply Hc in E as [_ E].
    pose proof (height_of_at i d es a genesis ZCASH_MAINNET Hs n h E).
    pose proof (height_of_at i d es a genesis ZCASH_MAINNET Hs stop h Hh). congruence.
  - exfalso. cbn [height_of ChainMap_chain] in E. apply fmap_None, head_None in E.
    assert ((stop, h) ∈ base.filter (fun p => snd p = h) (btree_iter (by_height chain))) as Hin.
    { apply list_elem_of_filter. split; [done|by apply elem_of_btree_iter]. }
    rewrite E in Hin. by apply elem_of_nil in Hin.
Qed.

(** C12: a synchronization from the command line covers what was asked for.  Against an
    honest service with some coverage, when told to take the chain from it, with a
    readable scripts file and a range inside the coverage (by default all of it), the
    client fetches the chain in steps of at most 10,000 heights, synchronizes and
    prints one report, which says that one filter was checked for each height of the
    range, through the stop height. *)
Theorem cli_sync_covers server scripts ws start_height stop_height elapsed_ms :
  read_scripts scripts = Ok ws -> 0 < zlen (fs_chain store) ->
  let start := default start0 start_height in
  let stop := default (start0 + zlen (fs_chain store) - 1) stop_height in
  start0 <= start <= stop -> stop < start0 + zlen (fs_chain store) ->
  exists outcome,
    cmd_sync path_bytes (Ok served) server scripts start_height stop_height true elapsed_ms =
      Some ([sync_json start outcome ws elapsed_ms], Ok tt) /\
    so_covered_through outcome = stop /\ hash_at stop = Some (so_covered_block_hash outcome) /\
    so_filters_checked outcome = stop - start + 1.
Proof.
  intros Hsc Hpos start stop Hst Hstop. destruct (sg_range _ _ _ _ _ _ Hs) as [Hs0 Hb].
  unfold cmd_sync, sync_request. rewrite Hsc. cbn [HttpTransport_new map_err].
  rewrite served_info. cbn [map_err negb si_start_height].
  fold start. assert (FilterStore_covered_through store = Some (start0 + zlen (fs_chain store) - 1)) as Hcov.
  { unfold FilterStore_covered_through. destruct (fs_chain store) eqn:E; [done|]. rewrite wrap64_small; [done|lia]. }
  cbn [si_covered_through]. rewrite Hcov.
  assert ((match stop_height with Some s => Some s | None => Some (start0 + zlen (fs_chain store) - 1) end) = Some stop)
    as -> by (unfold stop; by destruct stop_height).
  cbn [ok_or]. rewrite (proj2 (Z.ltb_ge _ _)) by lia.
  set (t := {| ht_base_url := trim_end_slashes server; ht_client := served |}).
  destruct (fetch_chain_honest (trim_end_slashes server) start stop (Z.to_nat (stop - start + 1)) start ChainMap_new)
    as (chain & Hfetch & Hc); [lia|lia|lia|lia| |].
  { intros k h. cbn. rewrite lookup_empty. split; [done|lia]. }
  fold t in Hfetch. rewrite Hfetch. cbn [mbind option_bind].
  destruct (hash_at_covered stop) as (h & Hh & Hok); [lia|].
  rewrite (ChainMap_tip_max chain stop h).
  2:{ apply Hc. split; [lia|done]. }
  2:{ intros k' h' Hk. apply Hc in Hk. lia. }
  cbn [ok_or si_genesis_hash si_profile]. rewrite (sg_genesis _ _ _ _ _ _ Hs). cbn [map_err].
  set (request := {| rr_genesis := genesis |}).
  pose proof (stop_height_of start stop h chain Hc ltac:(lia) Hh) as Hheight.
  assert (AcceptedChainLaws ChainMap chain) as Hlaws.
  { apply ChainMap_laws. intros k h' Hk. apply Hc in Hk. lia. }
  unfold sync_range. change (rr_stop_block_hash request) with h. rewrite Hheight. cbn [ok_or].
  change (rr_start_height request) with start.
  match goal with |- context [sync_loop ?f _ _ _ _ _ ?n ?acc _] =>
    destruct (sync_loop_spec (H1 := HttpTransport_fetch_range path_bytes)
      f request chain ws ZCASH_MAINNET stop n acc t Hheight) as (r & t' & Hl & Hout);
    [lia|lia|unfold sync_fuel; lia|cbn [so_filters_checked]; lia|cbn [so_filters_checked]; lia|];
    pose proof (sync_loop_honest path_bytes i d es a genesis ZCASH_MAINNET Hs chain
      (trim_end_slashes server) f request start stop n ws acc) as Hno
  end.
  destruct r as [out|e].
  2:{ exfalso. refine (Hno _ _ _ _ _ _ _ e t' Hl); try done; try lia. intros k h' Hk Hk'. apply Hc. split; [lia|done]. }
  unfold cli_transport. rewrite Hl. cbn [mbind option_bind map_err]. exists out. split; [done|].
  destruct (Hout out eq_refl) as (exs & rs & Hsync).
  destruct (covered_through_stop _ _ _ _ _ _ _ _ _ _ _ _ Hsync) as [Hth Hlb]; [lia|].
  destruct Hsync as [_ Rl _ _ _ _ Rf]. cbn [so_filters_checked] in Rf.
  apply Hc in Hlb as [_ Hlb]. split_and!; [done|done|lia].
Qed.
End honest_cli.

(** ** Building and matching *)

Section batch.
Context `{HexLaws} `{Sha256} `{SipHash24Laws} `{!GcsWriter, !GcsWriterLaws gcs_write} `{JsonText}.

(** The objects the two commands read. *)
Definition hex_values (scripts : list ScriptBytes) : Json :=
  JArray ((fun s => JString (hex_encode s)) <$> scripts).
Definition build_input (h : BlockHash) (elements : list ScriptBytes) : Json := JObject [
  ("block_hash_display", JString (BlockHash_to_display_hex h)); ("elements", hex_values elements)]%string.
Definition match_input (h : BlockHash) (filter : Json) (scripts : list ScriptBytes) : Json := JObject [
  ("block_hash_display", JString (BlockHash_to_display_hex h)); ("filter", filter);
  ("scripts", hex_values scripts)]%string.

Lemma decode_hex_values scripts :
  Forall bytes_ok scripts ->
  decode_scripts ((fun s => JString (hex_encode s)) <$> scripts) = Ok scripts.
Proof.
  unfold decode_scripts. induction 1 as [|s l Hs _ IH]; [done|]. rewrite fmap_cons. cbn [collect_results].
  change (default EmptyString (as_str (JString (hex_encode s)))) with (hex_encode s).
  rewrite hex_decode_encode by done. cbn [ok_or]. by rewrite IH.
Qed.

Lemma input_hash_display h rest :
  hash_ok h -> input_hash (JObject (("block_hash_display"%string, JString (BlockHash_to_display_hex h)) :: rest)) = Ok h.
Proof.
  intros Hh. unfold input_hash. change (as_str (json_index _ _)) with (Some (BlockHash_to_display_hex h)).
  cbn [ok_or]. by rewrite from_to_display_hex.
Qed.

Lemma bytes_ok_gcs vs : bytes_ok (gcs_encode vs).
Proof.
  unfold gcs_encode. apply bytes_ok_app. split; [apply compact_size_ok, zlen_nonneg|apply pack_ok].
Qed.

(** What [BatchBuild] prints for a block serves [BatchMatch].  For every block whose
    filter is within the limits, the line printed carries a filter that the matching
    command decodes, validates and answers from, and the indices it prints contain
    every script that is an element of the block. *)
Theorem batch_build_match h elements ws line line' :
  hash_ok h -> Forall bytes_ok elements -> Forall bytes_ok ws ->
  zlen (gcs_encode (gcs_values (fst (BlockHash_filter_keys h))
    (snd (BlockHash_filter_keys h)) (filter_elements elements))) <= max_bytes ZCASH_MAINNET ->
  element_count elements <= max_elements ZCASH_MAINNET -> element_count elements * M < u64_bound ->
  json_from_str line = Ok (build_input h elements) ->
  exists out, build_line line = Ok out /\
    (json_from_str line' = Ok (match_input h (json_index "filter" out) ws) ->
     exists idx, match_line line' = Ok (JObject [
         ("indices", JArray ((fun i : nat => JInteger (Z.of_nat i)) <$> idx));
         ("elements", json_index "elements" out)]%string) /\
       forall i s, ws !! i = Some s -> s ∈ elements -> ScriptBytes_is_filter_element s = true -> i ∈ idx).
Proof.
  intros Hh He Hws Hb Hn Hr Hline.
  destruct (build_validate h elements ZCASH_MAINNET Hb Hn Hr) as (bytes & vf & Hbuild & Hval & Hvs).
  destruct (built_values vf h elements Hr Hvs) as [Hs Hmap].
  destruct (match_scripts_spec vf h ws Hs) as (idx & Hm & _ & _ & Hidx).
  assert (bytes_ok bytes) as Hok.
  { unfold build_filter in Hbuild. destruct (BlockHash_filter_keys h) as [k0 k1].
    rewrite gcs_write_spec in Hbuild by (done || apply filter_elements_spec). injection Hbuild as <-. apply bytes_ok_gcs. }
  eexists. split.
  - unfold build_line. rewrite Hline, (input_hash_display h _ Hh : input_hash (build_input h elements) = Ok h).
    change (as_array (json_index "elements" (build_input h elements))) with
      (Some ((fun s => JString (hex_encode s)) <$> elements)). cbn [ok_or].
    rewrite decode_hex_values, Hbuild by done. reflexivity.
  - intros Hline'. exists idx. split.
    + set (j := json_index "filter" _) in Hline'. unfold match_line. rewrite Hline'.
      rewrite (input_hash_display h _ Hh : input_hash (match_input h j ws) = Ok h).
      change (as_str (json_index "filter" (match_input h j ws))) with (Some (hex_encode bytes)).
      change (as_array (json_index "scripts" (match_input h j ws))) with
        (Some ((fun s => JString (hex_encode s)) <$> ws)).
      cbn [ok_or]. rewrite hex_decode_encode by done. cbn [ok_or]. rewrite decode_hex_values, Hval by done. cbn [map_err].
      rewrite Hm. cbn [map_err]. rewrite Hvs, zlen_gcs_values. reflexivity.
    + intros i s Hi Hin Hel. apply Hidx. exists s. split_and!; [done|by destruct s|by apply Hmap].
Qed.
End batch.

(** ** Witnesses *)

Lemma cli_sync_covers_witness :
  exists outcome,
    @cmd_sync ascii_hex mulhash64 Served (@Served_http ascii_hex) (@Served_json ascii_hex) (fun _ _ => 0)
      (Ok {| sv_inner := sample_inner; sv_files := run_fops (snd one_block) empty_dir |}) "http://localhost/"
      (Ok "51"%string) None None true 7 =
      Some ([@sync_json ascii_hex 100 outcome [[81]] 7], Ok tt) /\
    so_filters_checked outcome = 1.
Proof.
  destruct sample_serving as (es & Hs).
  destruct (@cli_sync_covers ascii_hex ascii_hex_laws checksum32 mulhash64 (fun _ _ => 0)
    sample_inner (run_fops (snd one_block) empty_dir) es (abs_append empty_abs sample_hash [0]) sample_genesis Hs
    "http://localhost/" (Ok "51"%string) [[81]] None None 7) as (outcome & E & _ & _ & Hf).
  - vm_compute. reflexivity.
  - reflexivity.
  - split; vm_compute; discriminate.
  - reflexivity.
  - exists outcome. split; [exact E|exact Hf].
Defined.

(** Standard input holds one of two lines. *)
Definition two_lines (out : Json) : JsonText := fun line =>
  if bool_decide (line = "b"%string) then Ok (@build_input ascii_hex (replicate 32 9) [[81]; [106; 1]; [82; 83]])
  else Ok (@match_input ascii_hex (replicate 32 9) (json_index "filter" out) [[]; [82; 83]; [7]]).

Definition built_line : Json :=
  match @build_line ascii_hex checksum32 (@gcs_reference mulhash64) (two_lines JNull) "b" with
  | Ok out => out | Err _ => JNull
  end.

Lemma built_line_ok :
  @build_line ascii_hex checksum32 (@gcs_reference mulhash64) (two_lines built_line) "b" = Ok built_line.
Proof. vm_compute. reflexivity. Qed.

Lemma batch_build_match_witness :
  exists idx, @match_line ascii_hex mulhash64 (two_lines built_line) "m" = Ok (JObject [
      ("indices", JArray ((fun i : nat => JInteger (Z.of_nat i)) <$> idx));
      ("elements", json_index "elements" built_line)]%string) /\ 1%nat ∈ idx.
Proof.
  destruct (@batch_build_match ascii_hex ascii_hex_laws checksum32 mulhash64 mulhash64_laws
    (@gcs_reference mulhash64) gcs_reference_laws (two_lines built_line) (replicate 32 9) [[81]; [106; 1]; [82; 83]]
    [[]; [82; 83]; [7]] "b" "m") as (out & E & Hm).
  - split; [reflexivity|by apply Forall_replicate].
  - repeat constructor; (discriminate || reflexivity).
  - repeat constructor; (discriminate || reflexivity).
  - vm_compute. discriminate.
  - vm_compute. discriminate.
  - vm_compute. reflexivity.
  - reflexivity.
  - rewrite built_line_ok in E. injection E as <-.
    destruct Hm as (idx & Hmatch & Hin); [unfold json_from_str, two_lines; rewrite bool_decide_false by done; reflexivity|].
    exists idx. split; [exact Hmatch|]. apply (Hin 1%nat [82; 83]); [reflexivity|do 2 apply list_elem_of_further; apply list_elem_of_here|reflexivity].
Defined.
