(* ===== verification/Html.v ===== *)
(** * HTML text

    What [server/pir-apm/src/dashboard.rs] relies on to turn values into a page: its
    [escape], and HTML as a tree with the text it prints to.  A reader of HTML is
    modelled by [tokenize], which takes the printed bytes apart into tags (quoted
    attribute values included) and runs of text.  The lemmas: reading back a printed
    tree whose texts have no [<] and whose attribute values have no quote yields
    exactly its tags and texts, and entity decoding undoes [escape]. *)

From Stdlib Require Import ZArith Lia.
From stdpp Require Import base numbers list strings pretty.
From S2P Require Import Prelude Float64.

Open Scope Z_scope.

(** ** escape *)

(** [str::replace] of one ASCII character. *)
Definition replace_byte (from : Z) (to : list Z) (l : list Z) : list Z :=
  concat ((fun b => if b =? from then to else [b]) <$> l).

Definition escape_bytes (l : list Z) : list Z :=
  replace_byte 39 (string_bytes "&#39;")
    (replace_byte 34 (string_bytes "&quot;")
      (replace_byte 62 (string_bytes "&gt;")
        (replace_byte 60 (string_bytes "&lt;")
          (replace_byte 38 (string_bytes "&amp;") l)))).

Definition escape (input : string) : string := bytes_string (escape_bytes (string_bytes input)).

(** ** Trees *)

Inductive Node :=
| Txt (text : string)
| El (tag : string) (attrs : list (string * string)) (children : list Node)
| Void (tag : string) (attrs : list (string * string)).

(** The inside of an opening tag. *)
Definition attr_bytes (a : string * string) : list Z :=
  [32] ++ string_bytes (fst a) ++ [61; 34] ++ string_bytes (snd a) ++ [34].
Definition tag_bytes (tag : string) (attrs : list (string * string)) : list Z :=
  string_bytes tag ++ concat (attr_bytes <$> attrs).

Fixpoint print_node (n : Node) : list Z :=
  match n with
  | Txt text => string_bytes text
  | El tag attrs children =>
      [60] ++ tag_bytes tag attrs ++ [62] ++ concat (print_node <$> children) ++
      [60; 47] ++ string_bytes tag ++ [62]
  | Void tag attrs => [60] ++ tag_bytes tag attrs ++ [62]
  end.
Definition print_nodes (l : list Node) : list Z := concat (print_node <$> l).

(** ** Reading *)

Inductive token := TagToken (inside : list Z) | TextToken (text : list Z).

Inductive mode := InData | InTag | InQuote.

Definition flush (acc : list Z) : list token := match acc with [] => [] | _ => [TextToken (reverse acc)] end.

(** The data state, the inside of a tag, and a quoted value in it. *)
Fixpoint tokenize (m : mode) (acc : list Z) (l : list Z) : list token :=
  match l with
  | [] => match m with InData => flush acc | _ => [] end
  | b :: l =>
      match m with
      | InData => if b =? 60 then flush acc ++ tokenize InTag [] l else tokenize InData (b :: acc) l
      | InTag =>
          if b =? 62 then TagToken (reverse acc) :: tokenize InData [] l
          else tokenize (if b =? 34 then InQuote else InTag) (b :: acc) l
      | InQuote => tokenize (if b =? 34 then InTag else InQuote) (b :: acc) l
      end
  end.

(** What a tree is meant to be read as. *)
Fixpoint node_tokens (n : Node) : list token :=
  match n with
  | Txt text => [TextToken (string_bytes text)]
  | El tag attrs children =>
      [TagToken (tag_bytes tag attrs)] ++ concat (node_tokens <$> children) ++
      [TagToken (47 :: string_bytes tag)]
  | Void tag attrs => [TagToken (tag_bytes tag attrs)]
  end.
Definition nodes_tokens (l : list Node) : list token := concat (node_tokens <$> l).

(** Adjacent texts are one, and an empty one is none. *)
Fixpoint merge_texts (acc : list Z) (l : list token) : list token :=
  match l with
  | [] => flush acc
  | TextToken t :: l => merge_texts (reverse t ++ acc) l
  | TagToken t :: l => flush acc ++ TagToken t :: merge_texts [] l
  end.

(** ** What may be printed *)

Definition text_ok (s : string) : bool := forallb (fun b => negb (b =? 60)) (string_bytes s).
Definition value_ok (s : string) : bool := forallb (fun b => negb (b =? 34)) (string_bytes s).
Definition name_ok (s : string) : bool :=
  forallb (fun b => negb (b =? 34) && negb (b =? 62)) (string_bytes s).
Definition attr_ok (a : string * string) : bool := name_ok (fst a) && value_ok (snd a).

Fixpoint node_ok (n : Node) : bool :=
  match n with
  | Txt text => text_ok text
  | El tag attrs children => name_ok tag && forallb attr_ok attrs && forallb node_ok children
  | Void tag attrs => name_ok tag && forallb attr_ok attrs
  end.
Definition nodes_ok (l : list Node) : bool := forallb node_ok l.

(** ** Lemmas *)

(** Induction over trees with the children's hypotheses. *)
Lemma node_rect' (P : Node -> Prop)
  (Ht : forall text, P (Txt text)) (Hv : forall tag attrs, P (Void tag attrs))
  (He : forall tag attrs children, Forall P children -> P (El tag attrs children)) : forall n, P n.
Proof.
  fix IH 1. intros [text|tag attrs children|tag attrs]; [apply Ht| |apply Hv].
  apply He. induction children as [|c children IHc]; constructor; [apply IH|exact IHc].
Qed.

Lemma tokenize_text t acc l :
  forallb (fun b => negb (b =? 60)) t = true ->
  tokenize InData acc (t ++ l) = tokenize InData (reverse t ++ acc) l.
Proof.
  revert acc. induction t as [|b t IH]; intros acc Ht; [done|].
  cbn in Ht. apply andb_prop in Ht as [Hb Ht]. cbn [app tokenize].
  destruct (b =? 60); [done|]. rewrite IH by done. by rewrite reverse_cons, <- app_assoc.
Qed.

Lemma tokenize_name t acc l :
  forallb (fun b => negb (b =? 34) && negb (b =? 62)) t = true ->
  tokenize InTag acc (t ++ l) = tokenize InTag (reverse t ++ acc) l.
Proof.
  revert acc. induction t as [|b t IH]; intros acc Ht; [done|].
  cbn in Ht. apply andb_prop in Ht as [[Hb Hc]%andb_prop Ht]. cbn [app tokenize].
  destruct (b =? 62); [done|]. destruct (b =? 34); [done|]. rewrite IH by done.
  by rewrite reverse_cons, <- app_assoc.
Qed.

Lemma tokenize_value t acc l :
  forallb (fun b => negb (b =? 34)) t = true ->
  tokenize InQuote acc (t ++ 34 :: l) = tokenize InTag (34 :: reverse t ++ acc) l.
Proof.
  revert acc. induction t as [|b t IH]; intros acc Ht; [done|].
  cbn in Ht. apply andb_prop in Ht as [Hb Ht]. cbn [app tokenize].
  destruct (b =? 34); [done|]. rewrite IH by done. by rewrite reverse_cons, <- app_assoc.
Qed.

Lemma tokenize_attrs attrs acc l :
  forallb attr_ok attrs = true ->
  tokenize InTag acc (concat (attr_bytes <$> attrs) ++ l) =
  tokenize InTag (reverse (concat (attr_bytes <$> attrs)) ++ acc) l.
Proof.
  revert acc. induction attrs as [|a attrs IH]; intros acc Ha; [done|].
  cbn [forallb] in Ha. apply andb_prop in Ha as [[Hn Hv]%andb_prop Ha]. rewrite fmap_cons. cbn [concat].
  rewrite <- app_assoc. unfold attr_bytes at 1. rewrite <- !app_assoc. cbn [app tokenize Z.eqb Pos.eqb].
  rewrite tokenize_name by exact Hn. cbn [app tokenize Z.eqb Pos.eqb]. rewrite tokenize_value by exact Hv.
  rewrite IH by done. f_equal. rewrite reverse_app, <- app_assoc. f_equal.
  unfold attr_bytes. rewrite !reverse_app. cbn. rewrite <- !app_assoc. reflexivity.
Qed.

Lemma tokenize_tag tag attrs acc l :
  name_ok tag = true -> forallb attr_ok attrs = true ->
  tokenize InData acc ([60] ++ tag_bytes tag attrs ++ [62] ++ l) =
  flush acc ++ TagToken (tag_bytes tag attrs) :: tokenize InData [] l.
Proof.
  intros Ht Ha. cbn [app tokenize Z.eqb Pos.eqb]. f_equal. unfold tag_bytes. rewrite <- app_assoc.
  rewrite tokenize_name by exact Ht. rewrite tokenize_attrs by exact Ha.
  cbn [tokenize Z.eqb Pos.eqb]. rewrite app_nil_r, <- reverse_app, reverse_involutive. done.
Qed.

Lemma tokenize_close tag acc l :
  name_ok tag = true ->
  tokenize InData acc (60 :: 47 :: string_bytes tag ++ 62 :: l) =
  flush acc ++ TagToken (47 :: string_bytes tag) :: tokenize InData [] l.
Proof.
  intros Ht. cbn [app tokenize Z.eqb Pos.eqb]. f_equal.
  rewrite tokenize_name by exact Ht. cbn [tokenize Z.eqb Pos.eqb].
  rewrite reverse_app, reverse_involutive. done.
Qed.

(** A list of tokens as bytes. *)
Definition token_bytes (k : token) : list Z :=
  match k with TagToken t => [60] ++ t ++ [62] | TextToken t => t end.

(** Printing and reading a tree, with anything safe after it. *)
Lemma tokenize_node n : node_ok n = true -> forall acc l rest,
  (forall acc, tokenize InData acc l = merge_texts acc rest) ->
  tokenize InData acc (print_node n ++ l) = merge_texts acc (node_tokens n ++ rest).
Proof.
  induction n as [text|tag attrs|tag attrs children IH] using node_rect'; intros Hok acc l rest Hl;
    cbn [node_ok print_node node_tokens] in *.
  - rewrite tokenize_text by exact Hok. cbn [app merge_texts]. apply Hl.
  - apply andb_prop in Hok as [Ht Ha]. rewrite <- !app_assoc, tokenize_tag by done.
    cbn [app merge_texts]. by rewrite Hl.
  - apply andb_prop in Hok as [[Ht Ha]%andb_prop Hc]. rewrite <- !app_assoc, tokenize_tag by done.
    cbn [app merge_texts]. do 2 f_equal. generalize (@nil Z) as acc'.
    induction IH as [|c children Hcn _ IHc]; intros acc'; cbn [fmap list_fmap concat].
    + cbn [app]. rewrite tokenize_close by done. cbn [app merge_texts]. by rewrite Hl.
    + cbn [forallb] in Hc. apply andb_prop in Hc as [Hc1 Hc2]. rewrite <- !app_assoc.
      apply Hcn; [done|]. intros acc2. apply (IHc Hc2).
Qed.

Lemma tokenize_nodes l : nodes_ok l = true ->
  tokenize InData [] (print_nodes l) = merge_texts [] (nodes_tokens l).
Proof.
  intros Hok. generalize (@nil Z) as acc. unfold print_nodes, nodes_tokens.
  induction l as [|n l IH]; intros acc; [done|]. cbn in Hok. apply andb_prop in Hok as [Hn Hl].
  cbn [fmap list_fmap concat]. apply tokenize_node; [done|]. by apply IH.
Qed.

(** ** Entities *)

(** [escape] in one pass. *)
Definition escape_byte (b : Z) : list Z :=
  if b =? 38 then string_bytes "&amp;" else if b =? 60 then string_bytes "&lt;" else
  if b =? 62 then string_bytes "&gt;" else if b =? 34 then string_bytes "&quot;" else
  if b =? 39 then string_bytes "&#39;" else [b].

Lemma replace_byte_app from to a b : replace_byte from to (a ++ b) = replace_byte from to a ++ replace_byte from to b.
Proof. unfold replace_byte. by rewrite fmap_app, concat_app. Qed.

Lemma escape_bytes_eq l : escape_bytes l = concat (escape_byte <$> l).
Proof.
  unfold escape_bytes. induction l as [|b l IH]; [done|]. rewrite fmap_cons. cbn [concat]. rewrite <- IH.
  change (b :: l) with ([b] ++ l). rewrite !replace_byte_app. f_equal. unfold escape_byte.
  destruct (b =? 38) eqn:E1; bool_prop; [by subst|]. destruct (b =? 60) eqn:E2; bool_prop; [by subst|].
  destruct (b =? 62) eqn:E3; bool_prop; [by subst|]. destruct (b =? 34) eqn:E4; bool_prop; [by subst|].
  destruct (b =? 39) eqn:E5; bool_prop; [by subst|]. unfold replace_byte. cbn.
  repeat (match goal with |- context [b =? ?k] => replace (b =? k) with false by lia end; cbn). done.
Qed.

(** The character reference a text begins with. *)
Definition entity (l : list Z) : option (Z * list Z) :=
  match strip_bytes (string_bytes "&amp;") l with Some r => Some (38, r) | None =>
  match strip_bytes (string_bytes "&lt;") l with Some r => Some (60, r) | None =>
  match strip_bytes (string_bytes "&gt;") l with Some r => Some (62, r) | None =>
  match strip_bytes (string_bytes "&quot;") l with Some r => Some (34, r) | None =>
  match strip_bytes (string_bytes "&#39;") l with Some r => Some (39, r) | None => None end end end end end.

Fixpoint unescape (fuel : nat) (l : list Z) : list Z :=
  match fuel, l with
  | S fuel, b :: rest =>
      match entity l with
      | Some (c, rest) => c :: unescape fuel rest
      | None => b :: unescape fuel rest
      end
  | _, _ => []
  end.

Ltac compute_literals :=
  repeat match goal with |- context [string_bytes ?s] =>
    let v := eval vm_compute in (string_bytes s) in change (string_bytes s) with v end.

Lemma unescape_escape l fuel : (length l <= fuel)%nat -> unescape fuel (escape_bytes l) = l.
Proof.
  rewrite escape_bytes_eq. revert fuel. induction l as [|b l IH]; intros [|fuel] Hf; cbn in Hf; try lia; [done..|].
  specialize (IH fuel ltac:(lia)). rewrite fmap_cons. cbn [concat]. revert IH.
  generalize (concat (escape_byte <$> l)) as r. intros r IH. unfold escape_byte.
  destruct (b =? 38) eqn:E1; bool_prop; [subst b; cbn [unescape]; compute_literals; cbn [app unescape]; unfold entity; compute_literals; cbn; by rewrite IH|].
  destruct (b =? 60) eqn:E2; bool_prop; [subst b; cbn [unescape]; compute_literals; cbn [app unescape]; unfold entity; compute_literals; cbn; by rewrite IH|].
  destruct (b =? 62) eqn:E3; bool_prop; [subst b; cbn [unescape]; compute_literals; cbn [app unescape]; unfold entity; compute_literals; cbn; by rewrite IH|].
  destruct (b =? 34) eqn:E4; bool_prop; [subst b; cbn [unescape]; compute_literals; cbn [app unescape]; unfold entity; compute_literals; cbn; by rewrite IH|].
  destruct (b =? 39) eqn:E5; bool_prop; [subst b; cbn [unescape]; compute_literals; cbn [app unescape]; unfold entity; compute_literals; cbn; by rewrite IH|].
  cbn [app unescape]. unfold entity. compute_literals. cbn [strip_bytes].
  rewrite (proj2 (Z.eqb_neq 38 b)) by lia. by rewrite IH.
Qed.

(** ** Safe strings *)

(** No quote, no angle bracket. *)
Definition clean (s : string) : bool :=
  forallb (fun b => negb (b =? 34) && negb (b =? 60) && negb (b =? 62)) (string_bytes s).

Lemma forallb_weaken {A} (f g : A -> bool) l :
  (forall x, f x = true -> g x = true) -> forallb f l = true -> forallb g l = true.
Proof. intros Hfg. rewrite !forallb_forall. auto. Qed.

Lemma clean_text s : clean s = true -> text_ok s = true.
Proof. apply forallb_weaken. intros b. destruct (b =? 34), (b =? 60); done. Qed.

Lemma clean_value s : clean s = true -> value_ok s = true.
Proof. apply forallb_weaken. intros b. destruct (b =? 34); done. Qed.

Lemma string_bytes_app a b : string_bytes (a +:+ b) = string_bytes a ++ string_bytes b.
Proof.
  induction a as [|c a IH]; [done|]. change (String c a +:+ b) with (String c (a +:+ b)).
  change (string_bytes (String c ?x)) with (Z.of_N (Ascii.N_of_ascii c) :: string_bytes x). by rewrite IH.
Qed.

Lemma clean_app a b : clean (a +:+ b) = clean a && clean b.
Proof. unfold clean. by rewrite string_bytes_app, forallb_app. Qed.

Lemma text_ok_app a b : text_ok (a +:+ b) = text_ok a && text_ok b.
Proof. unfold text_ok. by rewrite string_bytes_app, forallb_app. Qed.

Lemma value_ok_app a b : value_ok (a +:+ b) = value_ok a && value_ok b.
Proof. unfold value_ok. by rewrite string_bytes_app, forallb_app. Qed.

Lemma escape_bytes_ok s : bytes_ok (escape_bytes (string_bytes s)).
Proof.
  rewrite escape_bytes_eq. apply Forall_concat, Forall_fmap. eapply Forall_impl; [apply bytes_ok_string|].
  intros b Hb. cbv beta in Hb. unfold compose, escape_byte.
  repeat (case_match; [apply bytes_ok_string|]). by apply Forall_singleton.
Qed.

Lemma string_bytes_length s : length (string_bytes s) = String.length s.
Proof. induction s as [|c s IH]; [done|]. cbn. by f_equal. Qed.

Lemma clean_escape s : clean (escape s) = true.
Proof.
  unfold clean, escape. rewrite bytes_of_string, escape_bytes_eq.
  - induction (string_bytes s) as [|b l IH]; [done|]. rewrite fmap_cons. cbn [concat]. rewrite forallb_app, IH.
    unfold escape_byte. destruct (b =? 38) eqn:E1; [done|]. destruct (b =? 60) eqn:E2; [done|].
    destruct (b =? 62) eqn:E3; [done|]. destruct (b =? 34) eqn:E4; [done|].
    destruct (b =? 39) eqn:E5; [done|]. cbn. by rewrite E2, E3, E4.
  - apply escape_bytes_ok.
Qed.

Lemma clean_pretty_N_char (x : N) : clean (String (pretty_N_char x) "") = true.
Proof. by destruct x as [|[[[[]|[]|]|[[]|[]|]|]|[[[]|[]|]|[[]|[]|]|]|]]. Qed.

Lemma clean_pretty_N (x : N) : clean (pretty x) = true.
Proof.
  assert (Hgo : forall s, clean s = true -> clean (pretty_N_go x s) = true).
  { induction (N.lt_wf_0 x) as [x _ IH]. intros s Hs. destruct (decide (0 < x)%N) as [Hx|Hx].
    - rewrite pretty_N_go_step by done. apply IH; [by apply N.div_lt|].
      change (String ?c s) with (String c "" +:+ s). by rewrite clean_app, clean_pretty_N_char, Hs.
    - assert (x = 0)%N as -> by lia. by rewrite pretty_N_go_0. }
  unfold pretty, pretty_N. destruct (decide _); [done|]. by apply Hgo.
Qed.

Lemma clean_pretty_Z (x : Z) : clean (pretty x) = true.
Proof.
  unfold pretty, pretty_Z. destruct x as [|p|p]; [apply (clean_pretty_N 0)|apply (clean_pretty_N (N.pos p))|].
  rewrite clean_app. apply (clean_pretty_N (N.pos p)).
Qed.

Lemma clean_pad_zeros n s : clean s = true -> clean (pad_zeros n s) = true.
Proof. intros Hs. induction n as [|n IH]; [done|]. cbn [pad_zeros]. by rewrite clean_app, IH. Qed.

Lemma clean_fixed k x : clean (fmt_fixed k x) = true.
Proof.
  assert (Hd : forall v, clean (digits_fixed k v) = true).
  { intros v. unfold digits_fixed. destruct k; [apply clean_pretty_N|].
    rewrite !clean_app, clean_pretty_N. cbn [andb]. apply clean_pad_zeros, clean_pretty_N. }
  unfold fmt_fixed. destruct x as [s|s| |s m e]; try (destruct s); rewrite ?clean_app, ?Hd; done.
Qed.
