(* ===== verification/Dashboard.v ===== *)
(** * The monitoring dashboard

    Models [server/pir-apm/src/dashboard.rs], the page the sidecar serves, and the
    choice of the disk in [host.rs].  The page is built as a tree ([Html.Node]) whose
    printed bytes are the page: a format string of the source is the node it prints.
    [SystemTime]s are nanoseconds since the epoch, the current time an argument;
    chrono's RFC 3339 text is the class [Rfc3339].  The theorem: for every data the
    page is read back as exactly the tree it was built as, so nothing a scrape
    reports can add markup to it. *)

From Stdlib Require Import ZArith Lia.
From Stdlib Require Import Floats.SpecFloat.
From stdpp Require Import base numbers list strings gmap pretty sorting.
From S2P Require Import Prelude Float64 ApmSchema ApmMetrics ApmAlerts Html.

Open Scope Z_scope.
Open Scope string_scope.

(** ** Floating point *)

(** Magnitude and sign after [trunc], [round] (half away from zero) and [ceil]. *)
Definition trunc_Z (m : positive) (e : Z) : Z := if (0 <=? e)%Z then Zpos m * 2 ^ e else Zpos m / 2 ^ (- e).
Definition round_Z (m : positive) (e : Z) : Z :=
  if (0 <=? e)%Z then Zpos m * 2 ^ e else (2 * Zpos m + 2 ^ (- e)) / (2 * 2 ^ (- e)).
Definition ceil_Z (s : bool) (m : positive) (e : Z) : Z :=
  if (0 <=? e)%Z then Zpos m * 2 ^ e
  else if s then Zpos m / 2 ^ (- e) else - ((- Zpos m) / 2 ^ (- e)).

Definition f64_signed (s : bool) (a : Z) : f64 :=
  if (a =? 0)%Z then S754_zero s else f64_of_Z (if s then - a else a).

Definition fround (x : f64) : f64 :=
  match x with S754_finite s m e => f64_signed s (round_Z m e) | _ => x end.
Definition fceil (x : f64) : f64 :=
  match x with S754_finite s m e => f64_signed s (ceil_Z s m e) | _ => x end.

(** [x.fract() == 0.0]. *)
Definition fract_is_zero (x : f64) : bool :=
  match x with
  | S754_zero _ => true
  | S754_finite _ m e => (0 <=? e)%Z || (Zpos m mod 2 ^ (- e) =? 0)%Z
  | _ => false
  end.

(** [f64::clamp]: a NaN stays. *)
Definition fclamp (lo hi x : f64) : f64 := if flt x lo then lo else if flt hi x then hi else x.

(** [x as u64] and [x as i64] saturate; a NaN is zero. *)
Definition as_u64 (x : f64) : Z :=
  match x with
  | S754_infinity false => u64_bound - 1
  | S754_finite false m e => Z.min (trunc_Z m e) (u64_bound - 1)
  | _ => 0
  end.
Definition as_i64 (x : f64) : Z :=
  match x with
  | S754_infinity false => 2 ^ 63 - 1
  | S754_infinity true => - 2 ^ 63
  | S754_finite false m e => Z.min (trunc_Z m e) (2 ^ 63 - 1)
  | S754_finite true m e => Z.max (- trunc_Z m e) (- 2 ^ 63)
  | _ => 0
  end.

Definition fge (x y : f64) : bool := fle y x.
Definition fgt (x y : f64) : bool := flt y x.
Definition fone : f64 := f64_of_Z 1.
Definition fhundred : f64 := f64_of_Z 100.

(** ** Data *)

Definition EndpointWindow_default : EndpointWindow :=
  let l := {| lw_samples := fzero; lw_p50 := None; lw_p95 := None; lw_p99 := None |} in
  {| ew_qps := fzero; ew_requests := fzero; ew_errors_5xx := fzero; ew_error_ratio := fzero;
     ew_observed := l; ew_processing := l; ew_in_flight := fzero; ew_processing_in_flight := fzero;
     ew_processing_available := false |}.

Definition WorkerQueryWindow_default : WorkerQueryWindow :=
  {| ww_group := ""; ww_qps := fzero; ww_attempts := fzero; ww_failures := fzero;
     ww_failure_ratio := fzero;
     ww_successful_latency := {| lw_samples := fzero; lw_p50 := None; lw_p95 := None; lw_p99 := None |};
     ww_in_flight := fzero |}.

Record DashboardData := {
  dd_title : string; dd_schema : Schema; dd_environment : string; dd_hostname : string;
  dd_last_scrape : option Z; dd_scrape_error : option string; dd_health_status : option Z;
  dd_health_body : option string; dd_ready_status : option Z;
  dd_endpoints : gmap string EndpointWindow; dd_snapshot_gauges : gauges;
  dd_workers : gmap string gauges; dd_worker_queries : gmap string WorkerQueryWindow;
  dd_layout : gauges; dd_tables : gmap string gauges;
  dd_worker_tables : gmap string (gmap string gauges);
  dd_process_resident_memory_bytes : option f64; dd_host : HostHealth;
  dd_active_alerts : list Alert; dd_recent_alerts : list (Z * string) }.

Definition DashboardData_new (title : string) (schema : Schema) (environment hostname : string)
    (host : HostHealth) : DashboardData := {|
  dd_title := title; dd_schema := schema; dd_environment := environment; dd_hostname := hostname;
  dd_last_scrape := None; dd_scrape_error := Some "waiting for first scrape";
  dd_health_status := None; dd_health_body := None; dd_ready_status := None; dd_endpoints := ∅;
  dd_snapshot_gauges := ∅; dd_workers := ∅; dd_worker_queries := ∅; dd_layout := ∅; dd_tables := ∅;
  dd_worker_tables := ∅; dd_process_resident_memory_bytes := None; dd_host := host;
  dd_active_alerts := []; dd_recent_alerts := [] |}.

(** ** The disk of the data directory: [host::collect] *)

(** A mounted disk: the components of its mount point, total and available bytes. *)
Record Disk := { dk_mount : list string; dk_total : Z; dk_available : Z }.

(** [max_by_key]: the last of the largest. *)
Fixpoint deepest (best : option Disk) (disks : list Disk) : option Disk :=
  match disks with
  | [] => best
  | d :: disks =>
      deepest (match best with
               | Some b => if (length (dk_mount b) <=? length (dk_mount d))%nat then Some d else best
               | None => Some d
               end) disks
  end.

Definition collect_host (data_dir : string) (components : list string) (load : f64 * f64 * f64)
    (total_memory available_memory : Z) (disks : list Disk) : HostHealth :=
  let disk := deepest None (base.filter (fun d => dk_mount d `prefix_of` components) disks) in
  let '(disk_total_bytes, disk_available_bytes) :=
    match disk with Some d => (dk_total d, dk_available d) | None => (0, 0)%Z end in
  let disk_used_ratio :=
    if (0 <? disk_total_bytes)%Z
    then fsub fone (fdiv (f64_of_Z disk_available_bytes) (f64_of_Z disk_total_bytes)) else fzero in
  let '(load_one, load_five, load_fifteen) := load in
  {| hh_load_one := load_one; hh_load_five := load_five; hh_load_fifteen := load_fifteen;
     hh_total_memory_bytes := total_memory; hh_available_memory_bytes := available_memory;
     hh_disk_total_bytes := disk_total_bytes; hh_disk_available_bytes := disk_available_bytes;
     hh_disk_used_ratio := disk_used_ratio; hh_data_dir := data_dir |}.

(** ** Pieces of markup *)

Definition cls (c : string) : string * string := ("class", c).
Definition div (c : string) (children : list Node) : Node := El "div" [cls c] children.
Definition span (c : string) (children : list Node) : Node := El "span" [cls c] children.
Definition p (c : string) (children : list Node) : Node := El "p" [cls c] children.
Definition section (c : string) (children : list Node) : Node := El "section" [cls c] children.
Definition b (text : string) : Node := El "b" [] [Txt text].
Definition th (text : string) : Node := El "th" [] [Txt text].
Definition td (text : string) : Node := El "td" [] [Txt text].

(** ** Formatting *)

Definition format_number (value : f64) : string :=
  if fract_is_zero value then fmt_fixed 0 value else fmt_fixed 3 value.

Definition bytes_human (bytes : Z) : string :=
  let GIB := f64_of_Z (1024 * 1024 * 1024) in
  let MIB := f64_of_Z (1024 * 1024) in
  if fge (f64_of_Z bytes) GIB then fmt_fixed 2 (fdiv (f64_of_Z bytes) GIB) +:+ " GiB"
  else fmt_fixed 1 (fdiv (f64_of_Z bytes) MIB) +:+ " MiB".

(** [DateTime::from_timestamp(seconds, 0)] as RFC 3339. *)
Class Rfc3339 := rfc3339 : Z -> option string.
(** Its characters are digits, [-], [:], [T] and [+]. *)
Class Rfc3339Laws `{Rfc3339} := rfc3339_clean s t : rfc3339 s = Some t -> clean t = true.

Definition time `{Rfc3339} (value : Z) : string :=
  let seconds := Z.max 0 value / 10 ^ 9 in
  match rfc3339 seconds with Some text => text | None => pretty seconds end.

Definition relative_time (now value : Z) : string :=
  if (now <? value)%Z then "just now" else
  let seconds := (now - value) / 10 ^ 9 in
  if (seconds <=? 4)%Z then "just now"
  else if (seconds <=? 59)%Z then pretty seconds +:+ "s ago"
  else if (seconds <=? 3599)%Z then pretty (seconds / 60) +:+ "m ago"
  else if (seconds <=? 86399)%Z then pretty (seconds / 3600) +:+ "h ago"
  else pretty (seconds / 86400) +:+ "d ago".

Definition class_suffix (tone : string) : string :=
  if bool_decide (tone = "") then "" else " " +:+ tone.

(** [str::strip_suffix]. *)
Definition strip_suffix (suffix s : string) : option string :=
  (fun l => bytes_string (reverse l)) <$>
    strip_bytes (reverse (string_bytes suffix)) (reverse (string_bytes s)).

(** [get_mut(0..1)] and [make_ascii_uppercase]: only an ASCII first character. *)
Definition uppercase_first (l : list Z) : list Z :=
  match l with
  | c :: l => (if (97 <=? c)%Z && (c <=? 122)%Z then c - 32 else c) :: l
  | [] => []
  end.

Definition strip_unit (stem unit : string) : option (string * option string) :=
  match strip_suffix ("_" +:+ unit) stem with
  | Some rest => if bool_decide (rest = "") then None else Some (rest, Some unit)
  | None => None
  end.

Definition humanize_gauge (name gauge_prefix : string) : string :=
  let stem := default name (strip_prefix gauge_prefix name) in
  let '(stem, unit) :=
    default (stem, None) (head (omap (strip_unit stem) ["seconds"; "bytes"; "ratio"])) in
  let label := bytes_string (uppercase_first (replace_byte 95 [32%Z] (string_bytes stem))) in
  match unit with Some unit => label +:+ " (" +:+ unit +:+ ")" | None => label end.

Definition phase_label (code : f64) : string :=
  let code := as_i64 code in
  if (code =? 0)%Z then "syncing" else if (code =? 1)%Z then "building" else
  if (code =? 2)%Z then "serving" else if (code =? 3)%Z then "failed" else "unknown".

(** ** The page *)

Definition REFRESH_SECONDS : Z := 15.

(** A double quote. *)
Definition dq : string := String (Ascii.ascii_of_nat 34) "".

Definition STYLE : string := (
  "
*,*::before,*::after{box-sizing:border-box}
:root{
color-scheme:dark;
--vellum:#17150f;--ink:#efe5d0;--gold:#c6a15b;--lapis:#3a95dc;
--parchment:188,169,138;
--p85:rgba(var(--parchment),.85);--p62:rgba(var(--parchment),.62);
--p42:rgba(var(--parchment),.42);--p22:rgba(var(--parchment),.22);
--p16:rgba(var(--parchment),.16);--p08:rgba(var(--parchment),.08);
--p05:rgba(var(--parchment),.05);--p02:rgba(var(--parchment),.02);
--ok:#8fb573;--warn:#c6a15b;--bad:#d2694f;
--sans:" +:+
  dq +:+
  "IBM Plex Sans" +:+
  dq +:+
  ",ui-sans-serif,system-ui,-apple-system,sans-serif;
--mono:" +:+
  dq +:+
  "IBM Plex Mono" +:+
  dq +:+
  ",ui-monospace,SFMono-Regular,Menlo,monospace;
}
html{-webkit-text-size-adjust:100%}
body{margin:0;background:var(--vellum);color:var(--p85);font-family:var(--sans);
font-size:15px;line-height:1.55;letter-spacing:-.005em;-webkit-font-smoothing:antialiased}
#app{max-width:1180px;margin:0 auto;padding:clamp(28px,5vh,56px) clamp(16px,4vw,32px) 72px}
h1,h2,h3{color:var(--ink);font-weight:400;margin:0}
code{font-family:var(--mono);color:var(--p62);font-size:.92em}
.num{font-family:var(--mono);font-variant-numeric:tabular-nums;font-feature-settings:" +:+
  dq +:+
  "tnum" +:+
  dq +:+
  " 1}
.ok{color:var(--ok)}.warn{color:var(--warn)}.bad{color:var(--bad)}.muted{color:var(--p42)}
.eyebrow{font-size:10.5px;letter-spacing:.13em;text-transform:uppercase;color:var(--p42);
font-weight:500;margin:0 0 16px}

.masthead{display:flex;flex-wrap:wrap;gap:20px;align-items:flex-end;
justify-content:space-between;padding-bottom:22px;border-bottom:1px solid var(--p16)}
.brand{display:flex;align-items:center;gap:14px}
.mark{width:26px;height:26px;flex:none;border:1px solid var(--gold);
transform:rotate(45deg);position:relative}
.mark::after{content:" +:+
  dq +:+
  dq +:+
  ";position:absolute;inset:5px;background:var(--gold);opacity:.55}
.brand h1{font-size:22px;letter-spacing:.055em;text-transform:uppercase;line-height:1.1}
.brand .sub{margin:2px 0 0;font-size:11px;letter-spacing:.1em;text-transform:uppercase;
color:var(--p42)}
.tags{display:flex;flex-wrap:wrap;gap:8px}
.pill{border:1px solid var(--p22);border-radius:999px;padding:4px 12px;font-size:11px;
letter-spacing:.08em;text-transform:uppercase;color:var(--p62);white-space:nowrap}
.pill.env{border-color:rgba(198,161,91,.45);color:var(--gold)}

.statusbar{display:flex;flex-wrap:wrap;gap:12px 24px;align-items:center;
justify-content:space-between;padding:16px 0 30px;border-bottom:1px solid var(--p08)}
.chips{display:flex;flex-wrap:wrap;gap:8px}
.chip{display:inline-flex;align-items:center;gap:7px;border:1px solid var(--p16);
border-radius:4px;padding:5px 11px;font-size:11.5px;letter-spacing:.06em;
text-transform:uppercase;color:var(--p62);background:var(--p02)}
.chip .dot{width:6px;height:6px;border-radius:50%;flex:none;background:currentColor}
.chip.is-ok{color:var(--ok);border-color:rgba(143,181,115,.3)}
.chip.is-bad{color:var(--bad);border-color:rgba(210,105,79,.35)}
.chip b{font-weight:500;font-family:var(--mono)}
.updated{display:flex;align-items:center;gap:9px;font-size:12px;color:var(--p42)}
.live{width:6px;height:6px;border-radius:50%;background:var(--ok);flex:none;
animation:pulse 2.4s ease-in-out infinite}
@keyframes pulse{0%,100%{opacity:1}50%{opacity:.25}}

.kpis{display:grid;grid-template-columns:repeat(4,1fr);gap:1px;background:var(--p16);
border:1px solid var(--p16);margin:30px 0 34px}
.kpi{background:var(--vellum);padding:20px 22px 22px}
.kpi .figure{font-family:var(--mono);font-variant-numeric:tabular-nums;font-size:30px;
line-height:1.1;color:var(--ink);margin:0;letter-spacing:-.02em}
.kpi .figure.warn{color:var(--warn)}.kpi .figure.bad{color:var(--bad)}
.kpi .unit{margin:7px 0 0;font-size:11.5px;color:var(--p42);letter-spacing:.02em}
.kpi .eyebrow{margin-bottom:12px}

.card{border:1px solid var(--p16);background:var(--p02);padding:22px 24px 24px;
margin-bottom:20px;min-width:0;overflow:hidden}
.grid{display:grid;grid-template-columns:repeat(auto-fit,minmax(420px,1fr));gap:20px}
.grid .card{margin:0}
.card .rows+.note,.card .meter+.rows{margin-top:22px}
.worker-head{display:flex;flex-wrap:wrap;justify-content:space-between;align-items:flex-end;
gap:12px;margin-bottom:18px}
.worker-head .eyebrow{margin-bottom:5px}
.worker-head h2{font-family:var(--mono);font-size:16px}
.worker-meta{font-family:var(--mono);font-size:11.5px;color:var(--p42);margin:0}

table{width:100%;border-collapse:collapse;font-size:13.5px}
thead th{font-size:10.5px;letter-spacing:.11em;text-transform:uppercase;color:var(--p42);
font-weight:500;text-align:right;padding:0 0 12px 16px;border-bottom:1px solid var(--p16);
white-space:nowrap}
thead th:first-child{text-align:left;padding:0 16px 12px 0}
tbody th,tbody td{padding:13px 0;border-bottom:1px solid var(--p08);text-align:right;
font-family:var(--mono);font-variant-numeric:tabular-nums;white-space:nowrap}
tbody th{font-weight:400;text-align:left;color:var(--ink);font-size:13px;padding-right:16px}
tbody td{padding-left:16px}
tbody tr:last-child th,tbody tr:last-child td{border-bottom:0}
.wrap{overflow-x:auto;margin:0 -4px;padding:0 4px}
.errcell{display:flex;flex-direction:column;align-items:flex-end;gap:5px}
.errbar{width:52px;height:2px;background:var(--p08)}
.errbar i{display:block;height:100%;background:var(--bad)}

.rows{list-style:none;margin:0;padding:0}
.rows li{display:flex;justify-content:space-between;gap:18px;padding:11px 0;
border-bottom:1px solid var(--p08);font-size:13.5px}
.rows li:last-child{border-bottom:0}
.rows .k{color:var(--p62)}
.rows .v{font-family:var(--mono);font-variant-numeric:tabular-nums;color:var(--ink);
text-align:right;white-space:nowrap}
.rows .v.wrap-any{white-space:normal;overflow-wrap:anywhere;word-break:break-all;min-width:0}

.meter{margin-top:22px}
.meter:first-of-type{margin-top:0}
.meter-head{display:flex;justify-content:space-between;gap:16px;font-size:12.5px;
align-items:baseline;margin-bottom:9px}
.meter-head .k{color:var(--p62)}
.meter-head .v{font-family:var(--mono);font-variant-numeric:tabular-nums;color:var(--p85);
white-space:nowrap}
.meter-head .v.warn{color:var(--warn)}
.meter-head .v.bad{color:var(--bad)}
.meter-foot{margin:9px 0 0;font-size:11.5px;color:var(--p42);font-family:var(--mono);
font-variant-numeric:tabular-nums}
.bar{height:3px;background:var(--p08);overflow:hidden}
.bar i{display:block;height:100%;background:var(--p42)}
.bar i.warn{background:var(--warn)}
.bar i.bad{background:var(--bad)}

.alerts{list-style:none;margin:0;padding:0}
.alerts li{border-left:2px solid var(--p22);padding:2px 0 2px 14px;margin-bottom:16px;
font-size:13.5px}
.alerts li:last-child{margin-bottom:0}
.alerts li.is-bad{border-left-color:var(--bad)}
.alerts li.is-ok{border-left-color:var(--ok)}
.alerts .name{color:var(--ink);font-family:var(--mono);font-size:13px}
.alerts .detail{margin:3px 0 0;color:var(--p62)}
.alerts .when{margin:3px 0 0;font-size:11.5px;color:var(--p42);font-family:var(--mono)}
.empty{color:var(--p42);font-size:13.5px;margin:0}

.note{border:1px solid var(--p08);background:transparent;padding:20px 24px;
font-size:12.5px;color:var(--p42);line-height:1.7;margin:0}
.note strong{color:var(--p62);font-weight:500}
.note code{display:block;margin-top:8px;white-space:pre-wrap;overflow-wrap:anywhere;
word-break:break-all;line-height:1.5}

.topo{display:flex;flex-direction:column;align-items:center;gap:0;margin:6px 0 22px}
.node{border:1px solid var(--p22);background:var(--p02);padding:12px 18px;min-width:220px;
max-width:340px;text-align:center}
.node .desc{font-size:11.5px;color:var(--p62);margin:7px 0 0;line-height:1.45}
.node .meta.warn{color:var(--warn)}.node .meta.bad{color:var(--bad)}
.tables{width:100%;display:grid;grid-template-columns:repeat(auto-fit,minmax(240px,1fr));
gap:12px;margin-top:26px}
.tables .node{min-width:0;max-width:none;text-align:left;padding:12px 14px}
.tables .node .meter{margin-top:10px}
.tables .node .meter-foot{margin-top:6px}
.node.planned{opacity:.55;border-style:dashed}
.node .kv{font-family:var(--mono);font-size:11.5px;color:var(--p62);margin:4px 0 0;
overflow-wrap:anywhere}
.node .kv b{color:var(--p85);font-weight:500}
.topo .section{width:100%;margin-top:24px;font-size:10.5px;letter-spacing:.13em;
text-transform:uppercase;color:var(--p42);text-align:left}
.explain{margin:0;display:grid;grid-template-columns:minmax(120px,180px) 1fr;gap:14px 22px;
font-size:13.5px}
.explain dt{color:var(--ink);font-family:var(--mono);font-size:12.5px;padding-top:2px}
.explain dd{margin:0;color:var(--p62);line-height:1.6}
.explain dd b{color:var(--p85);font-weight:500;font-family:var(--mono);font-size:.95em}
@media (max-width:720px){.explain{grid-template-columns:1fr;gap:6px 0}.explain dd{margin-bottom:10px}}
.node .role{font-size:10.5px;letter-spacing:.13em;text-transform:uppercase;color:var(--p42);
margin:0 0 4px}
.node .id{font-family:var(--mono);font-size:13px;color:var(--ink);margin:0;
overflow-wrap:anywhere}
.node .meta{font-family:var(--mono);font-size:11.5px;color:var(--p62);margin:5px 0 0;
overflow-wrap:anywhere}
.node.coord{border-color:rgba(198,161,91,.55)}
.node.is-ok{border-color:rgba(143,181,115,.5)}
.node.is-bad{border-color:rgba(210,105,79,.6)}
.node.is-warn{border-color:rgba(198,161,91,.6)}
.trunk{width:1px;height:22px;background:var(--p22)}
.bus{position:relative;width:100%;display:flex;justify-content:center;gap:16px;
flex-wrap:wrap;padding-top:22px}
.bus::before{content:" +:+
  dq +:+
  dq +:+
  ";position:absolute;left:10%;right:10%;top:0;height:1px;
background:var(--p22)}
.bus .leaf{position:relative}
.bus .leaf::before{content:" +:+
  dq +:+
  dq +:+
  ";position:absolute;left:50%;top:-22px;width:1px;height:22px;
background:var(--p22)}
.node .state{display:inline-block;margin-top:7px;font-size:10.5px;letter-spacing:.1em;
text-transform:uppercase}
.node.is-ok .state{color:var(--ok)}.node.is-bad .state{color:var(--bad)}
.node.is-warn .state{color:var(--warn)}
@media (max-width:900px){.kpis{grid-template-columns:repeat(2,1fr)}}
@media (max-width:720px){
#app{padding-bottom:48px}
.kpis{grid-template-columns:1fr}
.grid{grid-template-columns:1fr}
.masthead,.statusbar{align-items:flex-start;flex-direction:column}
.kpi .figure{font-size:26px}
}
@media (prefers-reduced-motion:reduce){*{animation:none!important;transition:none!important}}
")%string.
Definition SCRIPT : string := (
  "
(function () {
  var PERIOD = 15000;
  var timer;
  function schedule() { clearTimeout(timer); timer = setTimeout(run, PERIOD); }
  function run() {
    if (document.hidden) { schedule(); return; }
    fetch(location.href, { cache: 'no-store', credentials: 'same-origin' })
      .then(function (response) { return response.ok ? response.text() : null; })
      .then(function (text) {
        if (!text) return;
        var next = new DOMParser().parseFromString(text, 'text/html').getElementById('app');
        var current = document.getElementById('app');
        if (next && current) current.replaceWith(next);
      })
      .catch(function () {})
      .then(schedule);
  }
  document.addEventListener('visibilitychange', function () {
    if (!document.hidden) { clearTimeout(timer); run(); }
  });
  schedule();
})();
")%string.

Section page.
Context `{Rfc3339} (now : Z).

Definition masthead (data : DashboardData) : Node :=
  El "header" [cls "masthead"] [
    div "brand" [span "mark" [];
      El "div" [] [El "h1" [] [Txt (escape (dd_title data))]; p "sub" [Txt "Valar Group"]]];
    div "tags" [span "pill env" [Txt (escape (dd_environment data))];
                span "pill" [Txt (escape (dd_hostname data))]]].

Definition chip (label value : string) (ok : bool) : Node :=
  let tone := if ok then "is-ok" else "is-bad" in
  span ("chip " +:+ tone) [span "dot" []; Txt (label +:+ " "); b value].

Definition status_chip (label : string) (code : option Z) : Node :=
  match code with
  | Some code => chip label (pretty code) ((200 <=? code)%Z && (code <? 300)%Z)
  | None => chip label "n/a" false
  end.

Definition statusbar (data : DashboardData) : Node :=
  let scrape := match dd_scrape_error data with
                | Some error => chip "scrape" (escape error) false
                | None => chip "scrape" "ok" true
                end in
  let updated := match dd_last_scrape data with
                 | Some at_ => [span "live" [];
                     Txt ("Updated " +:+ relative_time now at_ +:+ " &middot; " +:+ time at_)]
                 | None => [span "live" []; Txt "Awaiting first scrape"]
                 end in
  div "statusbar" [
    div "chips" [scrape; status_chip "health" (dd_health_status data);
                 status_chip "ready" (dd_ready_status data)];
    div "updated" updated].

Definition ordered_endpoints (data : DashboardData) : list (string * EndpointWindow) :=
  ((fun endpoint => (endpoint, default EndpointWindow_default (dd_endpoints data !! endpoint))) <$>
     sc_endpoints (dd_schema data)) ++
  base.filter (fun '(name, _) => knows (dd_schema data) name = false) (sorted_entries (dd_endpoints data)).

Definition uses_processing (data : DashboardData) (endpoint : string) (window : EndpointWindow) : bool :=
  ApmSchema.uses_processing (dd_schema data) endpoint || ew_processing_available window.

Definition kpi (label figure unit tone : string) : Node :=
  div "kpi" [p "eyebrow" [Txt label]; p ("figure" +:+ class_suffix tone) [Txt figure];
             p "unit" [Txt unit]].

Definition fsum (l : list f64) : f64 := foldl fadd fzero l.

Definition kpis (data : DashboardData) : Node :=
  let ordered := ordered_endpoints data in
  let total_qps := fsum ((fun e => ew_qps (snd e)) <$> ordered) in
  let worst_p95 := foldl
    (fun acc value => Some (match acc with None => value | Some current => fmax current value end)) None
    (omap (fun '(endpoint, window) =>
       if is_informational (dd_schema data) endpoint then None
       else lw_p95 (alert_latency window (uses_processing data endpoint window))) ordered) in
  let errors := fround (fsum ((fun e => ew_errors_5xx (snd e)) <$> ordered)) in
  let alerts := zlen (dd_active_alerts data) in
  section "kpis" [
    kpi "Throughput" (fmt_fixed 3 total_qps) "req/s over 5m" "";
    kpi "Worst server p95"
      (match worst_p95 with Some value => fmt_fixed 3 value +:+ "s" | None => "—" end)
      "slowest alert basis" "";
    kpi "5xx responses" (fmt_fixed 0 errors) "across all endpoints" (if fgt errors fzero then "bad" else "");
    kpi "Active alerts" (pretty alerts) (if (alerts =? 1)%Z then "check firing" else "checks firing")
      (if (0 <? alerts)%Z then "bad" else "")].

Definition latency_budget (schema : Schema) (endpoint : string) : option f64 :=
  observed_budget schema endpoint.

Definition latency_cell (value budget : option f64) : Node :=
  match value with
  | None => El "td" [cls "muted"] [Txt "—"]
  | Some seconds =>
      let tone := match budget with
        | Some budget => if fge seconds budget then "bad"
                         else if fge seconds (fmul budget (f64_decimal 6 1)) then "warn" else ""
        | None => ""
        end in
      El "td" [cls tone] [Txt (fmt_fixed 3 seconds +:+ "s")]
  end.

Definition error_cell (values : EndpointWindow) : Node :=
  let count := fround (ew_errors_5xx values) in
  if fle count fzero then span "muted" [Txt "0"] else
  let fill := fclamp (f64_of_Z 4) fhundred (fmul (fdiv (ew_error_ratio values) HTTP_5XX_RATIO) fhundred) in
  span "errcell" [
    span "bad" [Txt (fmt_fixed 0 count +:+ " (" +:+ fmt_fixed 2 (fmul (ew_error_ratio values) fhundred) +:+ "%)")];
    span "errbar" [El "i" [("style", "width:" +:+ fmt_fixed 0 fill +:+ "%")] []]].

Definition endpoint_row (data : DashboardData) (e : string * EndpointWindow) : Node :=
  let '(endpoint, values) := e in
  let budget := if uses_processing data endpoint values then None
                else latency_budget (dd_schema data) endpoint in
  El "tr" [] [
    th (escape endpoint); td (fmt_fixed 3 (ew_qps values)); td (fmt_fixed 0 (ew_in_flight values));
    td (fmt_fixed 0 (ew_requests values)); latency_cell (lw_p50 (ew_observed values)) budget;
    latency_cell (lw_p95 (ew_observed values)) budget; latency_cell (lw_p99 (ew_observed values)) budget;
    El "td" [] [error_cell values]].

Definition table_head (names : list string) : Node := El "thead" [] [El "tr" [] (th <$> names)].

Definition endpoint_table (data : DashboardData) : Node :=
  section "card" [
    p "eyebrow" [Txt "Observed HTTP total &middot; headers received &rarr; response ready &middot; 5 minute window"];
    div "wrap" [El "table" [] [
      table_head ["Endpoint"; "QPS"; "Inflight"; "Requests"; "Total p50"; "Total p95"; "Total p99"; "5xx"];
      El "tbody" [] (endpoint_row data <$> ordered_endpoints data)]];
    p "note" [Txt "Includes request-body receive, post-body server time, and any queueing between them. Excludes response transmission."]].

Definition latency_split_row (label : string) (latency : LatencyWindow) (in_flight : f64)
    (budget : option f64) (policy : string) : Node :=
  El "tr" [] [
    th (escape label); td (fmt_fixed 0 (lw_samples latency)); td (fmt_fixed 0 in_flight);
    latency_cell (lw_p50 latency) budget; latency_cell (lw_p95 latency) budget;
    latency_cell (lw_p99 latency) budget; El "td" [cls "muted"] [Txt (escape policy)]].

(** A line break inside a text. *)
Definition newline : string := String (Ascii.ascii_of_nat 10) "".

Definition processing_latency_split (data : DashboardData) (endpoint : string) : Node :=
  let values := default EndpointWindow_default (dd_endpoints data !! endpoint) in
  let threshold := default DEFAULT_LATENCY_P99_SECONDS (ApmSchema.latency_budget (dd_schema data) endpoint) in
  section "card" [
    p "eyebrow" [Txt (escape endpoint +:+ " latency scopes &middot; 5 minute window")];
    div "wrap" [El "table" [] [
      table_head ["Stage"; "Samples"; "Inflight"; "p50"; "p95"; "p99"; "Alerting"];
      El "tbody" [] [
        latency_split_row "Observed total" (ew_observed values) (ew_in_flight values) None "informational";
        latency_split_row "Post-body server" (ew_processing values) (ew_processing_in_flight values)
          (Some threshold) "pages on p99"]]];
    p "note" [
      El "strong" [] [Txt "Nested timing scopes."];
      Txt " Observed total starts when the coordinator receives request headers. Post-body server starts as soon as the complete body is available and includes admission queueing, coordinator query work, the selected worker RPC, result combination, and response packing. Worker cards below measure only the RPC subset. Each percentile is calculated independently and must not be subtracted from another.";
      El "code" [] [Txt ("Observed total: headers received &rarr; body receive &rarr; post-body server &rarr; response ready" +:+ newline +:+
        "Post-body server: full body available &rarr; queue &rarr; coordinator + worker RPC + packing &rarr; response ready")];
      El "strong" [] [Txt "Alert basis."];
      Txt (" Only post-body server p99 is evaluated against the " +:+ fmt_fixed 3 threshold +:+ "s threshold.")]].

Definition processing_latency_splits (data : DashboardData) : list Node :=
  (fun e => processing_latency_split data (fst e)) <$>
    base.filter (fun '(endpoint, window) => uses_processing data endpoint window = true) (ordered_endpoints data).

(** ** Workers *)

Definition worker_index (g : gauges) : f64 := default INFINITY (g !! "index").

(** [total_cmp] of the indices, then the names. *)
Definition worker_le (x y : string * gauges) : Prop :=
  match total_cmp (worker_index (snd x)) (worker_index (snd y)) with
  | Lt => True
  | Gt => False
  | Eq => String.leb (fst x) (fst y) = true
  end.
#[export] Instance worker_le_dec : RelDecision worker_le.
Proof. intros x y. unfold worker_le. destruct (total_cmp _ _); apply _. Defined.

Definition ordered_workers (data : DashboardData) : list (string * gauges) :=
  merge_sort worker_le (sorted_entries (dd_workers data)).

Definition worker_failure_cell (values : WorkerQueryWindow) : Node :=
  let failures := fround (ww_failures values) in
  if fle failures fzero then span "muted" [Txt "0"]
  else span "bad" [Txt (fmt_fixed 0 failures +:+ " (" +:+
         fmt_fixed 2 (fmul (ww_failure_ratio values) fhundred) +:+ "%)")].

Definition worker_query_card (data : DashboardData) (w : string * gauges) : Node :=
  let '(worker, gauges) := w in
  let values := default WorkerQueryWindow_default (dd_worker_queries data !! worker) in
  let group := if bool_decide (ww_group values = "") then "awaiting first query sample"
               else "group " +:+ escape (ww_group values) in
  let state := match gauges !! "up" with
               | Some value => if fge value fone then "healthy" else "unreachable"
               | None => "unknown"
               end in
  let tone := if bool_decide (state = "unreachable") then " bad" else "" in
  El "section" [cls "card worker-apm"; ("data-worker", escape worker)] [
    El "header" [cls "worker-head"] [
      El "div" [] [p "eyebrow" [Txt "Worker RPC subset of post-body server &middot; 5 minute window"];
                   El "h2" [] [Txt (escape worker)]];
      p ("worker-meta" +:+ tone) [Txt (group +:+ " &middot; " +:+ state)]];
    div "wrap" [El "table" [] [
      table_head ["Operation"; "QPS"; "Inflight"; "Attempts"; "p50 success"; "p95 success"; "p99 success"; "Failures"];
      El "tbody" [] [El "tr" [] [
        th "evaluate"; td (fmt_fixed 3 (ww_qps values)); td (fmt_fixed 0 (ww_in_flight values));
        td (fmt_fixed 0 (ww_attempts values)); latency_cell (lw_p50 (ww_successful_latency values)) None;
        latency_cell (lw_p95 (ww_successful_latency values)) None;
        latency_cell (lw_p99 (ww_successful_latency values)) None;
        El "td" [] [worker_failure_cell values]]]]];
    p "note" [Txt "Measured by the coordinator from replica selection through a validated worker reply. Includes request/response encoding, network time, and worker evaluation; excludes coordinator query decoding and response packing. Latency percentiles include successful attempts only; failures include HTTP, network, and invalid-response errors."]].

Definition worker_query_cards (data : DashboardData) : list Node :=
  worker_query_card data <$> ordered_workers data.

(** ** Fleet and tables *)

Definition TABLE_ORDER : list string := ["enhance"].

Definition table_rank (name : string) : nat :=
  match list_find (eq name) TABLE_ORDER with Some (i, _) => i | None => length TABLE_ORDER end.

Definition table_le {A} (x y : string * A) : Prop :=
  match (table_rank (fst x) ?= table_rank (fst y))%nat with
  | Lt => True
  | Gt => False
  | Eq => String.leb (fst x) (fst y) = true
  end.
#[export] Instance table_le_dec {A} : RelDecision (@table_le A).
Proof. intros x y. unfold table_le. destruct (_ ?= _)%nat; apply _. Defined.

Definition ordered_tables (data : DashboardData) : list (string * gauges) :=
  merge_sort table_le (sorted_entries (dd_tables data)).

Definition owned_shards (index per_worker : option f64) : string :=
  match index, per_worker with
  | Some index, Some per_worker =>
      if fge per_worker fone then
        let first := fmul index per_worker in
        let last := fsub (fadd first per_worker) fone in
        if feq per_worker fone then "shard " +:+ format_number first
        else "shards " +:+ format_number first +:+ "&ndash;" +:+ format_number last
      else ""
  | _, _ => ""
  end.

Definition worker_ram_line (gauges : gauges) : list Node :=
  match gauges !! "total_memory_bytes", gauges !! "available_memory_bytes" with
  | Some total, Some available =>
      if fle total fzero then [] else
      let rss_suffix := match gauges !! "process_rss_bytes" with
        | Some value => if fgt value fzero then " &middot; rss " +:+ bytes_human (as_u64 value) else ""
        | None => ""
        end in
      if fle available fzero
      then [p "meta" [Txt ("RAM " +:+ bytes_human (as_u64 total) +:+ " total" +:+ rss_suffix)]] else
      let used := fmax (fsub total available) fzero in
      let tone := if (as_u64 available <? MEMORY_AVAILABLE_BYTES)%Z then " bad"
                  else if (as_u64 available <? MEMORY_AVAILABLE_BYTES * 2)%Z then " warn" else "" in
      [p ("meta" +:+ tone) [Txt ("RAM " +:+ bytes_human (as_u64 used) +:+ " used of " +:+
         bytes_human (as_u64 total) +:+ rss_suffix)]]
  | _, _ => []
  end.

Definition meter (label detail : string) (ratio : f64) (tone : string) : Node :=
  let percent := fclamp fzero fhundred (fmul ratio fhundred) in
  div "meter" [
    div "meter-head" [span "k" [Txt label];
      span ("v" +:+ class_suffix tone) [Txt (fmt_fixed 0 percent +:+ "% used")]];
    div "bar" [El "i" [cls tone; ("style", "width:" +:+ fmt_fixed 1 percent +:+ "%")] []];
    p "meter-foot" [Txt detail]].

Definition table_capacity_meter (gauges : gauges) : list Node :=
  match gauges !! "pool_workers", gauges !! "shards_per_worker", gauges !! "shard_positions",
        gauges !! "positions" with
  | Some pool, Some per_worker, Some shard_positions, Some positions =>
      if fle pool fzero || fle per_worker fzero || fle shard_positions fzero then [] else
      let shard_capacity := fmul pool per_worker in
      let position_capacity := fmul shard_capacity shard_positions in
      let ratio := fdiv positions position_capacity in
      let shards_used := fceil (fdiv positions shard_positions) in
      let tone := if fgt ratio (f64_decimal 90 2) then "bad"
                  else if fgt ratio (f64_decimal 75 2) then "warn" else "" in
      [meter "Capacity"
        (format_number positions +:+ " of " +:+ format_number position_capacity +:+ " positions &middot; " +:+
         format_number shards_used +:+ " of " +:+ format_number shard_capacity +:+
         " shards &middot; append a worker before this fills") ratio tone]
  | _, _, _, _ => []
  end.

(** The holders of a table, by [total_cmp] of their index, then their name. *)
Definition holder_le (x y : string * f64) : Prop :=
  match total_cmp (snd x) (snd y) with
  | Lt => True
  | Gt => False
  | Eq => String.leb (fst x) (fst y) = true
  end.
#[export] Instance holder_le_dec : RelDecision holder_le.
Proof. intros x y. unfold holder_le. destruct (total_cmp _ _); apply _. Defined.

Definition join (separator : string) (l : list string) : string := String.concat separator l.

Definition table_layout (g : gauges) : list Node :=
  match g !! "records_per_row", g !! "record_bytes", g !! "shard_rows", g !! "shard_positions" with
  | Some rpr, Some rb, Some rows, Some positions =>
      [p "kv" [Txt (format_number rpr +:+ " &times; " +:+ format_number rb +:+ " B per row &middot; " +:+
                    format_number rows +:+ " rows per shard &middot; ");
               b (format_number positions); Txt " positions per shard"]]
  | _, _, _, _ => []
  end.

Definition at_least_one (v : option f64) : bool := match v with Some v => fge v fone | None => false end.

Definition table_card (data : DashboardData) (t : string * gauges) : Node :=
  let '(name, gauges) := t in
  let layout := table_layout gauges in
  if negb (at_least_one (gauges !! "registered")) then
    div "node planned" ([p "role" [Txt "Table"]; p "id" [Txt (escape name)]] ++ layout ++
      [span "state" [Txt "planned &middot; not registered"]]) else
  let g (key : string) := default fzero (gauges !! key) in
  let usage := p "kv" [
    b (format_number (g "shards")); Txt (" shards (" +:+ format_number (g "sealed_shards") +:+ " sealed) &middot; ");
    b (format_number (g "positions"));
    Txt (" positions &middot; " +:+ format_number (g "pool_workers") +:+ " workers &middot; " +:+
         format_number (g "query_slots_available") +:+ " query slots free")] in
  let per_worker := gauges !! "shards_per_worker" in
  let holders := merge_sort holder_le (omap (fun '(worker, tables) =>
    index ← tables !! name ≫= (fun share => share !! "index"); Some (worker, index))
    (sorted_entries (dd_worker_tables data))) in
  let holders := join " &middot; " ((fun '(worker, index) =>
    escape worker +:+ ": " +:+ owned_shards (Some index) per_worker) <$> holders) in
  div "node is-ok" ([p "role" [Txt "Table"]; p "id" [Txt (escape name)]] ++ layout ++ [usage] ++
    (if bool_decide (holders = "") then [] else [p "kv" [Txt holders]]) ++ table_capacity_meter gauges).

Definition tables_section (data : DashboardData) : list Node :=
  match ordered_tables data with
  | [] => []
  | tables => [p "section" [Txt "Tables"]; div "tables" (table_card data <$> tables)]
  end.

Definition share_line (data : DashboardData) (s : string * gauges) : Node :=
  let '(table, share) := s in
  let per_worker := dd_tables data !! table ≫= (fun t => t !! "shards_per_worker") in
  let owned := owned_shards (share !! "index") per_worker in
  let assigned := default fzero (share !! "assigned_shards") in
  let positions := default fzero (share !! "populated_positions") in
  p "kv" [b (escape table);
    Txt (" " +:+ owned +:+ " &middot; " +:+ format_number assigned +:+ " assigned &middot; " +:+
         format_number positions +:+ " positions")].

Definition fleet_leaf (data : DashboardData) (generation : f64) (w : string * gauges) : Node :=
  let '(name, gauges) := w in
  let worker_generation := default fzero (gauges !! "generation") in
  let '(tone, state) := match gauges !! "up" with
    | Some value =>
        if fge value fone then
          if fgt generation fzero && fgt worker_generation fzero && negb (feq worker_generation generation)
          then ("is-warn", "generation lag") else ("is-ok", "healthy")
        else ("is-bad", "unreachable")
    | None => ("", "unknown")
    end in
  let shares := merge_sort table_le
    (match dd_worker_tables data !! name with Some tables => sorted_entries tables | None => [] end) in
  div "leaf" [div ("node " +:+ tone) (
    [p "role" [Txt "Worker"]; p "id" [Txt (escape name)];
     p "desc" [Txt "Holds sealed iPIR artifacts for its shards and evaluates its slice of every query."]] ++
    (share_line data <$> shares) ++ worker_ram_line gauges ++ [span "state" [Txt state]])].

Definition fleet_card (data : DashboardData) : Node :=
  let gauge (name : string) := dd_snapshot_gauges data !! (sc_gauge_prefix (dd_schema data) +:+ name) in
  let phase := match gauge "phase_code" with Some code => phase_label code | None => "unknown" end in
  let generation := default fzero (gauge "generation") in
  let coordinator_meta := phase +:+ " &middot; anchor " +:+
    (match gauge "anchor_height" with Some v => format_number v | None => "—" end) +:+
    " &middot; generation " +:+ format_number generation in
  let coordinator_meta2 := join " &middot; " (omap id [
    (fun v => format_number v +:+ " generations answerable") <$> gauge "retained_generations";
    (fun v => format_number v +:+ " outputs indexed") <$> gauge "ironwood_tree_size"]) in
  let leaves := match ordered_workers data with
    | [] => [div "leaf" [div "node" [p "role" [Txt "Workers"]; p "id muted" [Txt "none reported yet"]]]]
    | workers => fleet_leaf data generation <$> workers
    end in
  section "card" [
    p "eyebrow" [Txt "Fleet topology"];
    div "topo" ([
      div "node" [p "role" [Txt "Chain source"]; p "id" [Txt "zakurad archive node"];
        p "desc" [Txt "Same host, loopback RPC. The only source of finalized blocks and the Ironwood tree size."]];
      div "trunk" [];
      div "node coord" ([p "role" [Txt "Coordinator"]; p "id" [Txt (escape (dd_hostname data))];
        p "desc" [Txt "Ingests finalized outputs into the Enhance journal, publishes one generation per block, and fans each query out to the workers. Clients enter over HTTPS through Caddy."];
        p "meta" [Txt coordinator_meta]] ++
        (if bool_decide (coordinator_meta2 = "") then [] else [p "meta" [Txt coordinator_meta2]]));
      div "trunk" []; div "bus" leaves] ++ tables_section data);
    p "note" [Txt "Workers are probed by the coordinator on each scrape over the private network; only their inventory names are shown. A worker whose generation trails the coordinator's is still serving the previous snapshot."]].

Definition explain_row (t : string * gauges) : Node :=
  let '(name, g) := t in
  let n (key : string) := match g !! key with Some v => format_number v | None => "?" end in
  let state := if at_least_one (g !! "registered") then "serving" else "planned" in
  El "tr" [] [th (escape name); td (n "records_per_row" +:+ " &times; " +:+ n "record_bytes" +:+ " B");
              td (n "shard_rows"); td (n "shard_positions"); El "td" [cls "muted"] [Txt state]].

Definition ownership_text (per_worker : f64) : list Node :=
  if fge per_worker fone then
    let spw := format_number per_worker in
    let last := format_number (fsub per_worker fone) in
    [Txt "Every table is indexed directly by position. Worker "; b "n";
     Txt " of a table's pool owns shards "; b ("n&times;" +:+ spw); Txt " to ";
     b ("n&times;" +:+ spw +:+ "+" +:+ last);
     Txt "; pools are append-only, so adding a worker never moves a shard."]
  else [Txt "Every table is indexed directly by position. Each worker owns a fixed range of shard ids; pools are append-only."].

Definition explainer_card (data : DashboardData) : list Node :=
  match ordered_tables data with
  | [] => []
  | tables =>
      let chain (name : string) := match dd_layout data !! name with Some v => format_number v | None => "?" end in
      let per_worker := default fzero (head (omap (fun t : string * gauges => snd t !! "shards_per_worker") tables)) in
      [section "card" [
        p "eyebrow" [Txt "How this fleet works"];
        El "dl" [cls "explain"] [
          El "dt" [] [Txt "Ingest"];
          El "dd" [] [Txt "The coordinator alone reads the chain. It polls the local archive node, waits ";
            b (chain "confirmations");
            Txt " confirmations, and appends each finalized block to one append-only journal per table, starting at Ironwood activation, height ";
            b (chain "activation_height"); Txt ". Workers never touch the chain."];
          El "dt" [] [Txt "Generations"];
          El "dd" [] [Txt "Every finalized block publishes a new generation, named by its height, whose manifest describes every table at that one anchor. A wallet pins one generation for a whole sync pass. The eight newest generations stay answerable, so a query built just before a publish still succeeds. Only shards whose rows changed are rebuilt; sealed shards are reused from the worker's cache."];
          El "dt" [] [Txt "Layout"];
          El "dd" [] (ownership_text per_worker ++ [div "wrap" [El "table" [] [
            table_head ["Table"; "Row"; "Rows / shard"; "Positions / shard"; ""];
            El "tbody" [] (explain_row <$> tables)]]]);
          El "dt" [] [Txt "Queries"];
          El "dd" [] [Txt "A client fetches a table's public parameters and sends one query for the whole table to ";
            El "code" [] [Txt "/v1/&lt;table&gt;/query"];
            Txt ". The coordinator slices it per shard, fans the slices out to that table's workers in parallel, sums the partial answers, and packs a single response. Admission is per table; excess queries are shed with a 503."]]]]
  end.

(** ** Cards *)

Definition row (k v : list Node) : Node := El "li" [] [span "k" k; span "v" v].

Definition gauge_row (schema : Schema) (g : string * f64) : Node :=
  let '(name, value) := g in
  El "li" [] [El "span" [cls "k"; ("title", escape name)] [Txt (escape (humanize_gauge name (sc_gauge_prefix schema)))];
              span "v" [Txt (format_number value)]].

Definition service_card (data : DashboardData) : Node :=
  let rows := match sorted_entries (dd_snapshot_gauges data) with
    | [] => [El "li" [] [span "k" [Txt "Snapshot metrics"]; span "v muted" [Txt "none yet"]]]
    | gauges => gauge_row (dd_schema data) <$> gauges
    end in
  let memory := match dd_process_resident_memory_bytes data with
    | Some bytes => bytes_human (as_u64 bytes) | None => "unavailable" end in
  let health_body := match dd_health_body data with Some body => escape body | None => "unavailable" end in
  section "card" [
    p "eyebrow" [Txt "Service &amp; snapshot"];
    El "ul" [cls "rows"] (rows ++ [row [Txt "Resident memory"] [Txt memory]]);
    p "note" [El "strong" [] [Txt "/health"]; Txt " "; El "code" [] [Txt health_body]]].

Definition host_card (host : HostHealth) : Node :=
  let memory_used :=
    if (0 <? hh_total_memory_bytes host)%Z
    then fsub fone (fdiv (f64_of_Z (hh_available_memory_bytes host)) (f64_of_Z (hh_total_memory_bytes host)))
    else fzero in
  let memory_tone :=
    if (hh_available_memory_bytes host <? MEMORY_AVAILABLE_BYTES)%Z then "bad"
    else if (hh_available_memory_bytes host <? MEMORY_AVAILABLE_BYTES * 2)%Z then "warn" else "" in
  let disk_tone := if fgt (hh_disk_used_ratio host) DISK_USED_RATIO then "bad"
                   else if fgt (hh_disk_used_ratio host) (f64_decimal 80 2) then "warn" else "" in
  section "card" [
    p "eyebrow" [Txt "Host"];
    meter "Enhancery" (bytes_human (hh_available_memory_bytes host) +:+ " free of " +:+
      bytes_human (hh_total_memory_bytes host)) memory_used memory_tone;
    meter "Disk" (bytes_human (hh_disk_available_bytes host) +:+ " free of " +:+
      bytes_human (hh_disk_total_bytes host)) (hh_disk_used_ratio host) disk_tone;
    El "ul" [cls "rows"] [
      row [Txt "Load 1 / 5 / 15"] [Txt (fmt_fixed 2 (hh_load_one host) +:+ " · " +:+
        fmt_fixed 2 (hh_load_five host) +:+ " · " +:+ fmt_fixed 2 (hh_load_fifteen host))];
      El "li" [] [span "k" [Txt "Data directory"]; span "v wrap-any" [Txt (escape (hh_data_dir host))]]]].

Definition alert_item (alert : Alert) : Node :=
  El "li" [cls "is-bad"] [
    p "name" [Txt (escape (al_check alert))];
    p "detail" [Txt (escape (al_observed alert) +:+ " ");
      span "muted" [Txt ("(threshold " +:+ escape (al_threshold alert) +:+ ")")]];
    p "when" [Txt ("firing " +:+ relative_time now (al_fired_at alert))]].

Definition active_alerts_card (alerts : list Alert) : Node :=
  section "card" [p "eyebrow" [Txt "Active alerts"];
    El "ul" [cls "alerts"] match alerts with
      | [] => [El "li" [cls "is-ok"] [p "name" [Txt "All checks passing"];
                 p "detail" [Txt "No thresholds are currently breached."]]]
      | _ => alert_item <$> alerts
      end].

Definition recent_alerts_card (recent : list (Z * string)) : Node :=
  section "card" [p "eyebrow" [Txt "Alert history"];
    match recent with
    | [] => p "empty" [Txt "Nothing recorded since this sidecar started."]
    | _ => El "ul" [cls "rows"]
        ((fun '(at_, message) => row [Txt (escape message)] [Txt (relative_time now at_)]) <$> recent)
    end].

Definition privacy_note : Node :=
  p "note" [El "strong" [] [Txt "Privacy."];
    Txt (" This sidecar scrapes only aggregate, allowlisted PIR metrics and local host health. It does not collect request bodies, positions, IP addresses, headers, query identifiers, or any other per-user data. Every value on this page is server-rendered; the browser polls this dashboard every " +:+ pretty REFRESH_SECONDS +:+ " seconds and never contacts the PIR server or its ");
    El "code" [] [Txt "/metrics"]; Txt " endpoint."].

Definition doctype : list Z := string_bytes ("<!doctype html>" +:+ newline).

(** What follows the document type. *)
Definition render (data : DashboardData) : Node :=
  El "html" [("lang", "en")] [
    El "head" [] [
      Void "meta" [("charset", "utf-8")];
      Void "meta" [("name", "viewport"); ("content", "width=device-width,initial-scale=1")];
      El "title" [] [Txt (escape (dd_title data))];
      El "noscript" [] [Void "meta" [("http-equiv", "refresh"); ("content", pretty REFRESH_SECONDS)]];
      El "style" [] [Txt STYLE]];
    El "body" [] [
      El "main" [("id", "app")] (
        [masthead data; statusbar data; kpis data; endpoint_table data] ++
        processing_latency_splits data ++ worker_query_cards data ++ [fleet_card data] ++
        explainer_card data ++
        [div "grid" [service_card data; host_card (dd_host data);
           active_alerts_card (dd_active_alerts data); recent_alerts_card (dd_recent_alerts data)];
         privacy_note]);
      El "script" [] [Txt SCRIPT]]].

Definition index (data : DashboardData) : list Z := doctype ++ print_node (render data).
Definition healthz : string := "ok" +:+ newline.
End page.

(** ** Every piece is safe *)

Lemma el_ok tag attrs children :
  name_ok tag = true -> forallb attr_ok attrs = true -> nodes_ok children = true ->
  node_ok (El tag attrs children) = true.
Proof. intros Ht Ha Hc. unfold nodes_ok in Hc. cbn [node_ok]. by rewrite Ht, Ha, Hc. Qed.

Lemma txt_ok s : clean s = true -> node_ok (Txt s) = true.
Proof. apply clean_text. Qed.

Lemma void_ok tag attrs :
  name_ok tag = true -> forallb attr_ok attrs = true -> node_ok (Void tag attrs) = true.
Proof. intros Ht Ha. cbn [node_ok]. by rewrite Ht, Ha. Qed.

Lemma attrs_ok name value attrs :
  name_ok name = true -> value_ok value = true -> forallb attr_ok attrs = true ->
  forallb attr_ok ((name, value) :: attrs) = true.
Proof. intros Hn Hv Ha. cbn [forallb]. unfold attr_ok at 1. cbn [fst snd]. by rewrite Hn, Hv, Ha. Qed.

Lemma nodes_ok_cons n l : node_ok n = true -> nodes_ok l = true -> nodes_ok (n :: l) = true.
Proof. intros Hn Hl. unfold nodes_ok in *. cbn. by rewrite Hn, Hl. Qed.

Lemma nodes_ok_app a l : nodes_ok a = true -> nodes_ok l = true -> nodes_ok (a ++ l) = true.
Proof. intros Ha Hl. unfold nodes_ok in *. by rewrite forallb_app, Ha, Hl. Qed.

Lemma nodes_ok_fmap {A} (f : A -> Node) l : (forall x, node_ok (f x) = true) -> nodes_ok (f <$> l) = true.
Proof. intros Hf. induction l as [|x l IH]; [done|]. rewrite fmap_cons. by apply nodes_ok_cons. Qed.

Lemma clean_join sep l : clean sep = true -> Forall (fun s => clean s = true) l -> clean (join sep l) = true.
Proof.
  intros Hs Hl. unfold join. induction Hl as [|s l Hx Hl IH]; [done|].
  destruct l as [|s' l]; [done|]. change (String.concat sep (s :: s' :: l)) with (s +:+ sep +:+ String.concat sep (s' :: l)).
  by rewrite !clean_app, Hx, Hs, IH.
Qed.

(** The values there are. *)
Lemma Forall_omap_id {A} (P : A -> Prop) (l : list (option A)) :
  Forall (fun o => match o with Some x => P x | None => True end) l -> Forall P (omap id l).
Proof. induction 1 as [|[x|] l Hx Hl IH]; cbn; [constructor|by constructor|done]. Qed.

Lemma clean_format_number v : clean (format_number v) = true.
Proof. unfold format_number. case_match; apply clean_fixed. Qed.

Lemma clean_bytes_human n : clean (bytes_human n) = true.
Proof. unfold bytes_human. case_match; by rewrite clean_app, clean_fixed. Qed.

Lemma clean_relative_time now t : clean (relative_time now t) = true.
Proof. unfold relative_time. repeat case_match; rewrite ?clean_app, ?clean_pretty_Z; done. Qed.

Lemma clean_time `{Rfc3339Laws} t : clean (time t) = true.
Proof. unfold time. case_match; [by eapply rfc3339_clean|apply clean_pretty_Z]. Qed.

Lemma clean_phase_label v : clean (phase_label v) = true.
Proof. unfold phase_label. repeat case_match; done. Qed.

Lemma clean_class_suffix tone : clean tone = true -> clean (class_suffix tone) = true.
Proof. intros Ht. unfold class_suffix. case_match; [done|]. by rewrite clean_app. Qed.

Lemma clean_owned_shards index per_worker : clean (owned_shards index per_worker) = true.
Proof. unfold owned_shards. repeat case_match; rewrite ?clean_app, ?clean_format_number; done. Qed.

Lemma clean_newline : clean newline = true.
Proof. reflexivity. Qed.

Create HintDb clean.
#[export] Hint Resolve clean_escape clean_fixed clean_pretty_Z clean_format_number clean_bytes_human
  clean_relative_time clean_time clean_phase_label clean_class_suffix clean_owned_shards clean_newline : clean.

(** One step of checking a piece: its markup, then the strings in it. *)
Ltac clean_step :=
  match goal with
  | |- clean (_ +:+ _) = true => rewrite clean_app; apply andb_true_intro; split
  | |- clean (String _ _) = true => vm_compute; reflexivity
  | |- clean "" = true => reflexivity
  | |- clean _ = true => solve [eauto with clean nocore]
  end.
(** Case analysis on what a match is on, the innermost first. *)
Ltac drill x :=
  lazymatch x with
  | match ?y with _ => _ end => drill y
  | _ => destruct x; cbv beta iota zeta
  end.
Ltac html_step :=
  match goal with
  | |- node_ok (El _ _ _) = true => apply el_ok
  | |- node_ok (Void _ _) = true => apply void_ok
  | H : node_ok ?n = true |- node_ok ?n = true => exact H
  | |- node_ok (Txt _) = true => apply txt_ok
  | |- node_ok (div _ _) = true => apply el_ok
  | |- node_ok (span _ _) = true => apply el_ok
  | |- node_ok (p _ _) = true => apply el_ok
  | |- node_ok (section _ _) = true => apply el_ok
  | |- node_ok (b _) = true => apply el_ok
  | |- node_ok (th _) = true => apply el_ok
  | |- node_ok (td _) = true => apply el_ok
  | |- node_ok (row _ _) = true => apply el_ok
  | |- node_ok (table_head _) = true => vm_compute; reflexivity
  | |- forallb attr_ok [] = true => reflexivity
  | |- forallb attr_ok (cls _ :: _) = true => apply attrs_ok
  | |- forallb attr_ok ((_, _) :: _) = true => apply attrs_ok
  | |- name_ok _ = true => vm_compute; reflexivity
  | |- value_ok _ = true => apply clean_value
  | |- nodes_ok [] = true => reflexivity
  | |- nodes_ok (_ :: _) = true => apply nodes_ok_cons
  | |- nodes_ok (_ ++ _) = true => apply nodes_ok_app
  | |- nodes_ok (_ <$> _) = true => apply nodes_ok_fmap; intros ?
  | |- nodes_ok (match ?x with _ => _ end) = true => drill x
  | |- node_ok (match ?x with _ => _ end) = true => drill x
  | |- clean (match ?x with _ => _ end) = true => drill x
  | _ => progress eauto with clean nocore
  | _ => clean_step
  end.
Ltac html := cbv zeta; repeat html_step.

Lemma chip_ok label value ok : clean label = true -> clean value = true -> node_ok (chip label value ok) = true.
Proof. intros Hl Hv. unfold chip. html. Qed.

Lemma status_chip_ok label code : clean label = true -> node_ok (status_chip label code) = true.
Proof. intros Hl. unfold status_chip. destruct code; apply chip_ok; html. Qed.

Lemma masthead_ok data : node_ok (masthead data) = true.
Proof. unfold masthead. html. Qed.

Lemma statusbar_ok `{Rfc3339Laws} now data : node_ok (statusbar now data) = true.
Proof.
  unfold statusbar. html; (apply chip_ok || apply status_chip_ok); html.
Qed.

Lemma kpi_ok label figure unit tone :
  clean label = true -> clean figure = true -> clean unit = true -> clean tone = true ->
  node_ok (kpi label figure unit tone) = true.
Proof. intros. unfold kpi. html. Qed.

Lemma kpis_ok data : node_ok (kpis data) = true.
Proof. unfold kpis. html; apply kpi_ok; html. Qed.

Lemma latency_cell_ok value budget : node_ok (latency_cell value budget) = true.
Proof. unfold latency_cell. html. Qed.

Lemma error_cell_ok values : node_ok (error_cell values) = true.
Proof. unfold error_cell. html. Qed.
#[export] Hint Resolve latency_cell_ok error_cell_ok : clean.

Lemma endpoint_table_ok data : node_ok (endpoint_table data) = true.
Proof. unfold endpoint_table, endpoint_row. html. Qed.

Lemma latency_split_row_ok label latency in_flight budget policy :
  node_ok (latency_split_row label latency in_flight budget policy) = true.
Proof. unfold latency_split_row. html. Qed.
#[export] Hint Resolve latency_split_row_ok : clean.

Lemma processing_latency_splits_ok data : nodes_ok (processing_latency_splits data) = true.
Proof. unfold processing_latency_splits, processing_latency_split. html. Qed.

Lemma worker_query_cards_ok data : nodes_ok (worker_query_cards data) = true.
Proof. unfold worker_query_cards, worker_query_card, worker_failure_cell. html. Qed.

Lemma worker_ram_line_ok g : nodes_ok (worker_ram_line g) = true.
Proof. unfold worker_ram_line. html. Qed.

Lemma meter_ok label detail ratio tone :
  clean label = true -> clean detail = true -> clean tone = true -> node_ok (meter label detail ratio tone) = true.
Proof. intros. unfold meter. html. Qed.

Lemma table_capacity_meter_ok g : nodes_ok (table_capacity_meter g) = true.
Proof. unfold table_capacity_meter. html; apply meter_ok; html. Qed.

Lemma table_layout_ok g : nodes_ok (table_layout g) = true.
Proof. unfold table_layout. html. Qed.
#[export] Hint Resolve worker_ram_line_ok table_capacity_meter_ok table_layout_ok : clean.

Lemma clean_holders per_worker (l : list (string * f64)) :
  clean (join " &middot; " ((fun '(worker, index) =>
    escape worker +:+ ": " +:+ owned_shards (Some index) per_worker) <$> l)) = true.
Proof. apply clean_join; [done|]. apply Forall_fmap, Forall_true. intros [worker index]. unfold compose. cbv beta iota. html. Qed.
#[export] Hint Resolve clean_holders : clean.

Lemma table_card_ok data t : node_ok (table_card data t) = true.
Proof. unfold table_card. html. Qed.

Lemma tables_section_ok data : nodes_ok (tables_section data) = true.
Proof. pose proof (table_card_ok data). unfold tables_section. html. Qed.

Lemma fleet_leaf_ok data generation w : node_ok (fleet_leaf data generation w) = true.
Proof. unfold fleet_leaf, share_line. html. Qed.

Lemma fleet_card_ok data : node_ok (fleet_card data) = true.
Proof.
  pose proof (tables_section_ok data). pose proof (fleet_leaf_ok data). unfold fleet_card.
  html. apply clean_join; [done|].
  apply Forall_omap_id. repeat apply Forall_cons_2; try apply Forall_nil_2;
    (destruct (dd_snapshot_gauges data !! _); [|exact I]); cbv [fmap option_fmap option_map]; html.
Qed.

Lemma explainer_card_ok data : nodes_ok (explainer_card data) = true.
Proof. unfold explainer_card, explain_row, ownership_text. html. Qed.

Lemma service_card_ok data : node_ok (service_card data) = true.
Proof. unfold service_card, gauge_row. html. Qed.

Lemma host_card_ok host : node_ok (host_card host) = true.
Proof. unfold host_card. html; apply meter_ok; html. Qed.

Lemma active_alerts_card_ok now alerts : node_ok (active_alerts_card now alerts) = true.
Proof. unfold active_alerts_card, alert_item. html. Qed.

Lemma recent_alerts_card_ok now recent : node_ok (recent_alerts_card now recent) = true.
Proof. unfold recent_alerts_card. html. Qed.

Lemma privacy_note_ok : node_ok privacy_note = true.
Proof. vm_compute. reflexivity. Qed.

#[export] Hint Resolve masthead_ok statusbar_ok kpis_ok endpoint_table_ok processing_latency_splits_ok
  worker_query_cards_ok fleet_card_ok explainer_card_ok service_card_ok host_card_ok
  active_alerts_card_ok recent_alerts_card_ok privacy_note_ok : clean.

Lemma style_ok : node_ok (Txt STYLE) = true.
Proof. vm_compute. reflexivity. Qed.
Lemma script_ok : node_ok (Txt SCRIPT) = true.
Proof. vm_compute. reflexivity. Qed.

Lemma render_ok `{Rfc3339Laws} now data : node_ok (render now data) = true.
Proof. pose proof style_ok. pose proof script_ok. unfold render. html. Qed.

(** C38: the dashboard cannot be injected into.  Whatever a scrape, a schema, an alert or
    the host reports, reading the page served gives the document type and then exactly
    the tags and texts of the tree [render] builds, and decoding the character
    references of an escaped value gives the value back. *)
Theorem dashboard_no_injection `{Rfc3339Laws} now data :
  tokenize InData [] (index now data) =
    TagToken (string_bytes "!doctype html") ::
    merge_texts (string_bytes newline) (node_tokens (render now data)) /\
  (forall value, bytes_string (unescape (String.length value) (string_bytes (escape value))) = value).
Proof.
  split.
  - unfold index, doctype. rewrite string_bytes_app, <- app_assoc.
    change (string_bytes "<!doctype html>") with ([60%Z] ++ tag_bytes "!doctype html" [] ++ [62%Z])%list.
    rewrite <- !app_assoc, tokenize_tag by done. cbn [app flush]. f_equal.
    rewrite tokenize_text by reflexivity. rewrite app_nil_r.
    rewrite <- (app_nil_r (print_node _)), <- (app_nil_r (node_tokens _)).
    apply tokenize_node; [apply render_ok|done].
  - intros value. unfold escape. rewrite bytes_of_string by apply escape_bytes_ok.
    rewrite unescape_escape; [apply string_of_bytes|]. by rewrite string_bytes_length.
Qed.

(** A deployment whose names and health body try to close a tag and open a script. *)
Definition hostile_data : DashboardData :=
  let host := {|
    hh_load_one := fzero; hh_load_five := fzero; hh_load_fifteen := fzero; hh_total_memory_bytes := 0;
    hh_available_memory_bytes := 0; hh_disk_total_bytes := 0; hh_disk_available_bytes := 0;
    hh_disk_used_ratio := fzero; hh_data_dir := "<b>" |} in
  let data := DashboardData_new "</title><script>" sample_schema "prod" "host' onclick='" host in
  {| dd_title := dd_title data; dd_schema := sample_schema; dd_environment := dd_environment data;
     dd_hostname := dd_hostname data; dd_last_scrape := Some 5; dd_scrape_error := Some "</b><script>";
     dd_health_status := Some 200; dd_health_body := Some "</code></p><script>alert(1)</script>";
     dd_ready_status := None; dd_endpoints := {["<script>" := EndpointWindow_default]};
     dd_snapshot_gauges := {["<script>" := fone]}; dd_workers := {[ dq +:+ "><script>" := ∅]};
     dd_worker_queries := ∅; dd_layout := ∅; dd_tables := {["<script>" := ∅]}; dd_worker_tables := ∅;
     dd_process_resident_memory_bytes := None; dd_host := host; dd_active_alerts := [];
     dd_recent_alerts := [(3, "<script>")] |}.

(** The opening tags of a name. *)
Definition tags_named (name : string) (l : list token) : list token :=
  List.filter (fun t => match t with TagToken inside => bool_decide (inside = string_bytes name) | TextToken _ => false end) l.

Lemma dashboard_no_injection_witness :
  let _ : Rfc3339 := fun _ => None in
  let page := tokenize InData [] (index 9 hostile_data) in
  length (tags_named "script" page) = 1%nat /\
  page = TagToken (string_bytes "!doctype html") ::
         merge_texts (string_bytes newline) (node_tokens (render 9 hostile_data)).
Proof.
  intros no_text page. split; [vm_compute; reflexivity|].
  assert (Hlaws : @Rfc3339Laws no_text) by (intros ? ? [=]).
  exact (proj1 (@dashboard_no_injection no_text Hlaws 9 hostile_data)).
Defined.

(** ** What is shown *)

(** The endpoint table has a row for every endpoint of the schema, in its order, and for
    every other endpoint scraped, none twice. *)
Lemma ordered_endpoints_exact data : NoDup (sc_endpoints (dd_schema data)) ->
  sc_endpoints (dd_schema data) `prefix_of` (ordered_endpoints data).*1 /\
  NoDup (ordered_endpoints data).*1 /\
  forall e, e ∈ (ordered_endpoints data).*1 <->
    e ∈ sc_endpoints (dd_schema data) \/ is_Some (dd_endpoints data !! e).
Proof.
  intros Hnd. unfold ordered_endpoints. set (rest := base.filter _ _).
  assert (Hrest : forall e, e ∈ rest.*1 <-> (e ∉ sc_endpoints (dd_schema data)) /\ is_Some (dd_endpoints data !! e)).
  { intros e. unfold rest. rewrite list_elem_of_fmap. split.
    - intros [[e' w] [-> He]]. apply list_elem_of_filter in He as [Hk He]. cbn [fst].
      apply elem_of_sorted_entries in He. split; [|by eexists].
      intros Hin. by apply knows_spec in Hin; congruence.
    - intros [Hn [w Hw]]. exists (e, w). split; [done|]. apply list_elem_of_filter. cbv beta iota.
      rewrite elem_of_sorted_entries. split; [|done]. destruct (knows _ e) eqn:E; [|done].
      by apply knows_spec in E. }
  rewrite fmap_app, <- list_fmap_compose.
  change (fst ∘ _) with (fun endpoint : string => endpoint). rewrite list_fmap_id.
  split_and!.
  - by eexists.
  - apply NoDup_app. split_and!; [done| |].
    + intros e He Hr. by apply Hrest in Hr as [].
    + apply (sublist_NoDup _ (sorted_entries (dd_endpoints data)).*1); [apply NoDup_sorted_entries|]. apply fmap_sublist, sublist_filter.
  - intros e. rewrite elem_of_app, Hrest. destruct (decide (e ∈ sc_endpoints (dd_schema data))); tauto.
Qed.

(** The disk reported is the mounted one closest to the data directory. *)
Lemma deepest_spec best disks d : deepest best disks = Some d ->
  (d ∈ disks \/ best = Some d) /\
  forall d', d' ∈ disks \/ best = Some d' -> (length (dk_mount d') <= length (dk_mount d))%nat.
Proof.
  revert best. induction disks as [|x disks IH]; intros best Hd; cbn in Hd.
  - subst best. split; [by right|]. intros d' [Hin|[= ->]]; [by apply elem_of_nil in Hin|done].
  - apply IH in Hd as [Hin Hmax]. setoid_rewrite elem_of_cons.
    destruct best as [b|]; [destruct (_ <=? _)%nat eqn:E|].
    + apply Nat.leb_le in E. split; [naive_solver|]. intros d' [[->|H']|[= ->]]; [auto|auto|].
      etrans; [exact E|auto].
    + apply Nat.leb_gt in E. split; [naive_solver|]. intros d' [[->|H']|[= ->]]; [|auto|auto].
      pose proof (Hmax b (or_intror eq_refl)). lia.
    + split; [naive_solver|]. intros d' [[->|H']|[=]]; auto.
Qed.
