(* ===== verification/LegacyTables.v ===== *)
(** * The tables of the demo protocol

    Models [demos/legacy-spendability/shared/pir-types/src/tables.rs] (table
    identities, row layouts, setup seeds and the generation manifest) and
    [demos/legacy-spendability/witness/decryption-types/src/lib.rs] (the leaves of
    the decryption table).  The lemmas: every published position of a table has one
    row and slot inside its public capacity, which is a power of two and whole
    shards; a wire name names one table; a leaf is read back from its bytes. *)

From Stdlib Require Import ZArith Lia.
From stdpp Require Import base numbers list strings gmap.
From S2P Require Import Prelude FilterTypes EnhanceTypes CommitmentTree.

Open Scope Z_scope.

(** ** Layouts *)

Definition MANIFEST_SCHEMA_VERSION : Z := 4.
Definition PROTOCOL_REVISION : string := "ipir-sp-e875404".

Record DatabaseLayout := { record_bytes : Z; records_per_row : Z; shard_rows : Z }.

Section layout.
Context (self : DatabaseLayout).

Definition row_bytes : Z := wrap64 (record_bytes self * records_per_row self).
Definition shard_positions : Z := wrap64 (shard_rows self * records_per_row self).
Definition item_size_bits : Z := wrap64 (row_bytes * 8).
Definition shard_bytes : Z := wrap64 (shard_rows self * row_bytes).
Definition used_rows_for (positions : Z) : Z := div_ceil positions (records_per_row self).
Definition logical_rows_for (used_rows : Z) : Z := next_power_of_two (Z.max used_rows (shard_rows self)).
Definition row_for_position (position : Z) : Z * Z :=
  (position / records_per_row self, position mod records_per_row self).
End layout.

(** ** Table identities *)

Inductive DatabaseId := Action | Witness | WitnessRoots | NfCold | NfWarm.
#[export] Instance DatabaseId_eq_dec : EqDecision DatabaseId.
Proof. solve_decision. Defined.

Definition DatabaseId_ALL : list DatabaseId := [Action; Witness; WitnessRoots; NfCold; NfWarm].

Definition as_str (self : DatabaseId) : string :=
  match self with
  | Action => "action"
  | Witness => "witness"
  | WitnessRoots => "witness-roots"
  | NfCold => "nf-cold"
  | NfWarm => "nf-warm"
  end.

Definition ACTION_LAYOUT : DatabaseLayout := {| record_bytes := 824; records_per_row := 8; shard_rows := 8192 |}.
Definition WITNESS_LAYOUT : DatabaseLayout := {| record_bytes := 32; records_per_row := 256; shard_rows := 8192 |}.
Definition NULLIFIER_LAYOUT : DatabaseLayout := {| record_bytes := 4592; records_per_row := 1; shard_rows := 8192 |}.

Definition layout (self : DatabaseId) : DatabaseLayout :=
  match self with
  | Action => ACTION_LAYOUT
  | Witness | WitnessRoots => WITNESS_LAYOUT
  | NfCold | NfWarm => NULLIFIER_LAYOUT
  end.

(** [{name:?}] of a name without characters to escape. *)
Definition quoted (name : string) : string :=
  bytes_string ([34] ++ string_bytes name ++ [34]).

Definition from_str (name : string) : result string DatabaseId :=
  match list_find (fun id => as_str id = name) DatabaseId_ALL with
  | Some (_, id) => Ok id
  | None => Err ("unknown PIR table: " +:+ quoted name)
  end.

(** ** Setup seeds *)

Definition MEMO_SETUP_SEED : Z := 0xaf1ae284ec07131a.

Definition seed_from_domain `{Sha256} (domain : string) : Z := le_val (take 8 (sha256 (string_bytes domain))).

Definition setup_seed `{Sha256} (self : DatabaseId) : Z :=
  match self with
  | Action => MEMO_SETUP_SEED
  | other => seed_from_domain ("zcash/ironwood-pir/" +:+ as_str other +:+ "/setup-seed/v1")
  end.

Definition setup_seed_bytes (seed : Z) : list Z := le_bytes 8 seed ++ replicate 24 0.

(** ** The manifest *)

Record Envelope := { env_protocol_version : Z; env_k_nf : Z; env_k_act : Z; env_k_wit : Z }.
Definition DEFAULT_ENVELOPE : Envelope :=
  {| env_protocol_version := 1; env_k_nf := 8; env_k_act := 4; env_k_wit := 4 |}.
Definition COLD_CHECKPOINT_INTERVAL : Z := 1000.

Record ShardDescriptor := {
  sd_shard_id : Z; sd_global_row_start : Z; sd_populated_positions : Z; sd_rows_sha256 : string;
  sd_sealed : bool; sd_worker : string }.

Record TableManifest := {
  tm_record_bytes : Z; tm_records_per_row : Z; tm_row_bytes : Z; tm_shard_rows : Z; tm_positions : Z;
  tm_used_rows : Z; tm_logical_rows : Z; tm_parameter_id : string; tm_setup_seed : Z;
  tm_public_params_epoch : string; tm_public_params_sha256 : string; tm_shards : list ShardDescriptor }.

Record GenerationManifest := {
  gm_schema_version : Z; gm_protocol_revision : string; gm_network : string; gm_pool : string;
  gm_anchor_height : Z; gm_anchor_block_hash : string; gm_ironwood_tree_size : Z; gm_generation : Z;
  gm_anchor_tree_root : string; gm_cold_checkpoint_height : Z; gm_envelope : Envelope;
  gm_tables : list (DatabaseId * TableManifest) }.

(** ** Decryption leaves *)

Definition DECRYPT_LEAF_BYTES : Z := 32 + 32 + 52.
Definition DECRYPT_ROW_BYTES : Z := SUBSHARD_LEAVES * DECRYPT_LEAF_BYTES.
Definition DECRYPT_DB_ROWS : Z := L0_DB_ROWS.
Definition DECRYPT_DB_BYTES : Z := DECRYPT_DB_ROWS * DECRYPT_ROW_BYTES.

(** Arrays of 32, 32 and 52 bytes. *)
Record DecryptionLeaf := { dl_nf : list Z; dl_ephemeral_key : list Z; dl_ciphertext : list Z }.

Definition DecryptionLeaf_EMPTY : DecryptionLeaf :=
  {| dl_nf := replicate 32 0; dl_ephemeral_key := replicate 32 0; dl_ciphertext := replicate 52 0 |}.

Definition DecryptionLeaf_to_bytes (self : DecryptionLeaf) : list Z :=
  let buf := replicate (Z.to_nat DECRYPT_LEAF_BYTES) 0 in
  let buf := write_at buf 0 (dl_nf self) in
  let buf := write_at buf 32 (dl_ephemeral_key self) in
  write_at buf 64 (dl_ciphertext self).

Definition DecryptionLeaf_from_bytes (bytes : list Z) : option DecryptionLeaf :=
  if zlen bytes <? DECRYPT_LEAF_BYTES then None
  else Some {| dl_nf := take 32 bytes; dl_ephemeral_key := take 32 (drop 32 bytes);
               dl_ciphertext := take 52 (drop 64 bytes) |}.

(** [serialize_bytes], and back through a vector. *)
Definition serialize_ciphertext (ct : list Z) : list Z := ct.
Definition deserialize_ciphertext (v : list Z) : result (Z * string) (list Z) :=
  if zlen v =? 52 then Ok v else Err (zlen v, "52 bytes"%string).

(** ** Lemmas *)

(** What a layout must be for positions to fit: rows of at least one record, and
    shards of a power of two rows. *)
Record layout_ok (l : DatabaseLayout) : Prop := {
  lo_records : 0 < records_per_row l;
  lo_shard : is_power_of_two (shard_rows l) = true /\ shard_rows l <= 2 ^ 62 }.

Lemma layouts_ok id : layout_ok (layout id).
Proof. destruct id; constructor; cbn; (lia || done). Qed.

Lemma power_of_two_divides a b :
  is_power_of_two a = true -> is_power_of_two b = true -> a <= b -> (a | b).
Proof.
  unfold is_power_of_two. intros [Ha0 Ha]%andb_prop [Hb0 Hb]%andb_prop Hab.
  apply Z.eqb_eq in Ha, Hb.
  rewrite <- Ha, <- Hb. pose proof (Z.log2_nonneg a). pose proof (Z.log2_le_mono a b Hab).
  exists (2 ^ (Z.log2 b - Z.log2 a)). rewrite <- Z.pow_add_r by lia. f_equal. lia.
Qed.

(** Every position below the published count has one row and slot, in the rows in use
    and so in the public capacity, which is whole shards. *)
Lemma table_positions_covered id positions position :
  0 <= position < positions -> positions <= 2 ^ 62 ->
  let l := layout id in
  let '(row, slot) := row_for_position l position in
  let used := used_rows_for l positions in
  let logical := logical_rows_for l used in
  position = row * records_per_row l + slot /\ 0 <= slot < records_per_row l /\
  0 <= row < used /\ used <= logical /\ (shard_rows l | logical) /\ is_power_of_two logical = true.
Proof.
  intros Hp Hmax l. destruct (layouts_ok id) as [Hr [Hs Hs62]]. fold l in Hr, Hs, Hs62.
  cbn [row_for_position]. unfold used_rows_for, logical_rows_for.
  pose proof (div_ceil_spec positions (records_per_row l) ltac:(lia) Hr) as Hd.
  pose proof (Z.div_mod position (records_per_row l) ltac:(lia)).
  pose proof (Z.mod_pos_bound position (records_per_row l) Hr).
  assert (0 <= position / records_per_row l) by (apply Z.div_pos; lia).
  set (used := div_ceil positions (records_per_row l)) in *.
  destruct (next_power_of_two_spec (Z.max used (shard_rows l))) as [Hn Hpow]; [nia|].
  split_and!; try nia; [|done]. apply power_of_two_divides; [done..|lia].
Qed.

(** A name is read as the table it names, and no other name is. *)
Lemma from_str_exact name id : from_str name = Ok id <-> as_str id = name.
Proof.
  unfold from_str. split.
  - destruct (list_find _ _) as [[i id']|] eqn:E; [|done]. intros [= <-].
    by apply list_find_Some in E as (_ & ? & _).
  - intros <-. by destruct id.
Qed.

Lemma setup_seed_bytes_exact seed :
  0 <= seed < u64_bound ->
  length (setup_seed_bytes seed) = 32%nat /\ le_val (take 8 (setup_seed_bytes seed)) = seed.
Proof.
  intros Hs. unfold setup_seed_bytes. rewrite length_app, length_replicate, length_le_bytes. split; [done|].
  rewrite take_app_length' by by rewrite length_le_bytes. by apply le_val_le_bytes.
Qed.

Definition leaf_ok (l : DecryptionLeaf) : Prop :=
  length (dl_nf l) = 32%nat /\ length (dl_ephemeral_key l) = 32%nat /\ length (dl_ciphertext l) = 52%nat.

Lemma leaf_to_bytes_eq l : leaf_ok l ->
  DecryptionLeaf_to_bytes l = dl_nf l ++ dl_ephemeral_key l ++ dl_ciphertext l.
Proof.
  intros (Hn & Hk & Hc). destruct l as [nf key ct]. cbn in Hn, Hk, Hc.
  do 32 (destruct nf as [|? nf]; [done|]). destruct nf; [|done].
  do 32 (destruct key as [|? key]; [done|]). destruct key; [|done].
  do 52 (destruct ct as [|? ct]; [done|]). destruct ct; [|done]. reflexivity.
Qed.

(** A leaf is read back from its bytes, whatever follows them; a shorter slice is refused. *)
Lemma leaf_round_trip l rest : leaf_ok l ->
  zlen (DecryptionLeaf_to_bytes l) = DECRYPT_LEAF_BYTES /\
  DecryptionLeaf_from_bytes (DecryptionLeaf_to_bytes l ++ rest) = Some l /\
  deserialize_ciphertext (serialize_ciphertext (dl_ciphertext l)) = Ok (dl_ciphertext l).
Proof.
  intros Hl. pose proof Hl as (Hn & Hk & Hc). rewrite leaf_to_bytes_eq by done.
  assert (Hz : zlen (dl_nf l ++ dl_ephemeral_key l ++ dl_ciphertext l) = DECRYPT_LEAF_BYTES).
  { unfold zlen. rewrite !length_app, Hn, Hk, Hc. done. }
  split_and!; [done| |].
  - unfold DecryptionLeaf_from_bytes. rewrite zlen_app, Hz. pose proof (zlen_nonneg rest).
    destruct (Z.ltb_spec (DECRYPT_LEAF_BYTES + zlen rest) DECRYPT_LEAF_BYTES); [lia|].
    rewrite <- !app_assoc. f_equal. destruct l as [nf key ct]. cbn in *.
    rewrite take_app_length', drop_app_length', take_app_length' by done. f_equal.
    rewrite app_assoc, drop_app_length', take_app_length' by (rewrite ?length_app; lia). done.
  - unfold deserialize_ciphertext, serialize_ciphertext, zlen. by rewrite Hc.
Qed.
