(* ===== verification/FilterMetrics.v ===== *)
(** * Metrics of the filter service

    Models [server/transparent-filter-server/src/metrics.rs] and where the service
    records into it: the successful end of the [range] handler and the [metrics]
    handler of [service.rs].  Counters are atomic 64-bit additions, so what they
    hold after any interleaving is the sum of what was added; the text form belongs
    to the prometheus crate. *)

From Stdlib Require Import ZArith Lia.
From stdpp Require Import base numbers list strings gmap.
From S2P Require Import Prelude FilterTypes Instances Envelope FilterClient FilterStore FilterService.

Open Scope Z_scope.

Record Metrics := {
  mt_covered_through : Z; mt_tip_height : Z; mt_filters_stored : Z; mt_phase : Z;
  mt_blocks_ingested : Z; mt_prevout_rpc_lookups : Z; mt_prevout_cache_hits : Z; mt_rollbacks : Z;
  mt_range_requests : Z; mt_range_records : Z; mt_range_bytes : Z }.

(** Gauges and counters start at zero. *)
Definition Metrics_new : Metrics := {|
  mt_covered_through := 0; mt_tip_height := 0; mt_filters_stored := 0; mt_phase := 0;
  mt_blocks_ingested := 0; mt_prevout_rpc_lookups := 0; mt_prevout_cache_hits := 0; mt_rollbacks := 0;
  mt_range_requests := 0; mt_range_records := 0; mt_range_bytes := 0 |}.

(** The names [new] registers, in its order. *)
Definition metric_names : list string := [
  "transparent_filter_covered_through_height"; "transparent_filter_tip_height";
  "transparent_filter_filters_stored"; "transparent_filter_phase";
  "transparent_filter_blocks_ingested_total"; "transparent_filter_prevout_rpc_lookups_total";
  "transparent_filter_prevout_cache_hits_total"; "transparent_filter_rollbacks_total";
  "transparent_filter_range_requests_total"; "transparent_filter_range_records_total";
  "transparent_filter_range_bytes_total"]%string.

(** The values in the same order. *)
Definition metric_values (m : Metrics) : list Z := [
  mt_covered_through m; mt_tip_height m; mt_filters_stored m; mt_phase m; mt_blocks_ingested m;
  mt_prevout_rpc_lookups m; mt_prevout_cache_hits m; mt_rollbacks m; mt_range_requests m;
  mt_range_records m; mt_range_bytes m].

(** [u64 as i64]. *)
Definition as_signed64 (z : Z) : Z := (z + 2 ^ 63) mod 2 ^ 64 - 2 ^ 63.

Definition observe_block (self : Metrics) (rpc_lookups cache_hits : Z) : Metrics := {|
  mt_covered_through := mt_covered_through self; mt_tip_height := mt_tip_height self;
  mt_filters_stored := mt_filters_stored self; mt_phase := mt_phase self;
  mt_blocks_ingested := wrap64 (mt_blocks_ingested self + 1);
  mt_prevout_rpc_lookups := wrap64 (mt_prevout_rpc_lookups self + rpc_lookups);
  mt_prevout_cache_hits := wrap64 (mt_prevout_cache_hits self + cache_hits);
  mt_rollbacks := mt_rollbacks self; mt_range_requests := mt_range_requests self;
  mt_range_records := mt_range_records self; mt_range_bytes := mt_range_bytes self |}.

Definition observe_rollback (self : Metrics) (blocks : Z) : Metrics := {|
  mt_covered_through := mt_covered_through self; mt_tip_height := mt_tip_height self;
  mt_filters_stored := mt_filters_stored self; mt_phase := mt_phase self;
  mt_blocks_ingested := mt_blocks_ingested self; mt_prevout_rpc_lookups := mt_prevout_rpc_lookups self;
  mt_prevout_cache_hits := mt_prevout_cache_hits self;
  mt_rollbacks := wrap64 (mt_rollbacks self + blocks); mt_range_requests := mt_range_requests self;
  mt_range_records := mt_range_records self; mt_range_bytes := mt_range_bytes self |}.

Definition observe_range (self : Metrics) (records bytes : Z) : Metrics := {|
  mt_covered_through := mt_covered_through self; mt_tip_height := mt_tip_height self;
  mt_filters_stored := mt_filters_stored self; mt_phase := mt_phase self;
  mt_blocks_ingested := mt_blocks_ingested self; mt_prevout_rpc_lookups := mt_prevout_rpc_lookups self;
  mt_prevout_cache_hits := mt_prevout_cache_hits self; mt_rollbacks := mt_rollbacks self;
  mt_range_requests := wrap64 (mt_range_requests self + 1);
  mt_range_records := wrap64 (mt_range_records self + records);
  mt_range_bytes := wrap64 (mt_range_bytes self + bytes) |}.

Definition phase_code (p : Phase) : Z :=
  match p with Syncing _ _ => 0 | Serving => 1 | Failed _ => 2 end.

Definition update (self : Metrics) (inner : Inner) : Metrics := {|
  mt_covered_through := as_signed64 (default 0 (FilterStore_covered_through (in_store inner)));
  mt_tip_height := as_signed64 (default 0 (in_tip_height inner));
  mt_filters_stored := as_signed64 (FilterStore_filters_stored (in_store inner));
  mt_phase := phase_code (in_phase inner);
  mt_blocks_ingested := mt_blocks_ingested self; mt_prevout_rpc_lookups := mt_prevout_rpc_lookups self;
  mt_prevout_cache_hits := mt_prevout_cache_hits self; mt_rollbacks := mt_rollbacks self;
  mt_range_requests := mt_range_requests self; mt_range_records := mt_range_records self;
  mt_range_bytes := mt_range_bytes self |}.

Section service.
Context `{Hex}.

(** [TextEncoder::encode] and the UTF-8 check after it. *)
Context (encode_metrics : list (string * Z) -> result string string).

Definition render (self : Metrics) : result string string :=
  encode_metrics (zip metric_names (metric_values self)).

(** The text of the [metrics] handler, or its error. *)
Definition metrics_handler (i : Inner) (m : Metrics) : (Z * string) * Metrics :=
  let m := update m i in
  (match render m with Ok text => (200, text) | Err error => (500, error) end, m).

(** The [count] of the range handler. *)
Definition range_count (i : Inner) (start_height : Z) (stop_block_hash : string) : Z :=
  match BlockHash_from_display_hex stop_block_hash with
  | Ok stop_block_hash =>
      match FilterStore_height_of (in_store i) stop_block_hash with
      | Some stop_height => Z.min (wrap64 (stop_height - start_height + 1)) MAX_RECORDS_PER_BATCH
      | None => 0
      end
  | Err _ => 0
  end.

(** The range handler with its metrics: only a batch that is sent is recorded. *)
Definition metered_range (i : Inner) (d : files) (m : Metrics) (start_height : Z) (stop_block_hash : string) :
    Response * Metrics :=
  match range i d start_height stop_block_hash with
  | RBytes status bytes =>
      (RBytes status bytes, observe_range m (range_count i start_height stop_block_hash) (zlen bytes))
  | response => (response, m)
  end.

(** ** What the counters hold *)

(** What is recorded, in the order the atomics see it. *)
Inductive recorded :=
| RecBlock (rpc_lookups cache_hits : Z)
| RecRollback (blocks : Z)
| RecRange (records bytes : Z)
| RecScrape (i : Inner).

Definition record_one (m : Metrics) (e : recorded) : Metrics :=
  match e with
  | RecBlock r c => observe_block m r c
  | RecRollback n => observe_rollback m n
  | RecRange r b => observe_range m r b
  | RecScrape i => update m i
  end.

Definition total (f : recorded -> Z) (l : list recorded) : Z := foldr Z.add 0 (f <$> l).

Definition blocks_of (e : recorded) : Z := match e with RecBlock _ _ => 1 | _ => 0 end.
Definition rpc_of (e : recorded) : Z := match e with RecBlock r _ => r | _ => 0 end.
Definition hits_of (e : recorded) : Z := match e with RecBlock _ c => c | _ => 0 end.
Definition rollbacks_of (e : recorded) : Z := match e with RecRollback n => n | _ => 0 end.
Definition requests_of (e : recorded) : Z := match e with RecRange _ _ => 1 | _ => 0 end.
Definition records_of (e : recorded) : Z := match e with RecRange r _ => r | _ => 0 end.
Definition bytes_of (e : recorded) : Z := match e with RecRange _ b => b | _ => 0 end.

(** A counter that adds [f] of each event holds its total. *)
Lemma counter_total (get : Metrics -> Z) (f : recorded -> Z) :
  (forall m, 0 <= get m < u64_bound -> forall e, get (record_one m e) = wrap64 (get m + f e)) ->
  forall l m, 0 <= get m < u64_bound -> get (foldl record_one m l) = wrap64 (get m + total f l).
Proof.
  intros Hstep l. induction l as [|e l IH]; intros m Hm; cbn [foldl].
  - unfold total. cbn. unfold wrap64. rewrite Z.add_0_r. symmetry. by apply Z.mod_small.
  - rewrite IH; rewrite Hstep by done.
    + unfold total. rewrite fmap_cons. cbn [foldr]. unfold wrap64.
      rewrite Z.add_mod_idemp_l by done. f_equal. lia.
    + unfold wrap64. by apply Z.mod_pos_bound.
Qed.

(** Each counter is the sum, modulo 2^64, of what was recorded, whatever the order. *)
Lemma counters_exact l :
  let m := foldl record_one Metrics_new l in
  mt_blocks_ingested m = wrap64 (total blocks_of l) /\
  mt_prevout_rpc_lookups m = wrap64 (total rpc_of l) /\
  mt_prevout_cache_hits m = wrap64 (total hits_of l) /\
  mt_rollbacks m = wrap64 (total rollbacks_of l) /\
  mt_range_requests m = wrap64 (total requests_of l) /\
  mt_range_records m = wrap64 (total records_of l) /\
  mt_range_bytes m = wrap64 (total bytes_of l).
Proof.
  assert (Hidle : forall v, 0 <= v < u64_bound -> v = wrap64 (v + 0)).
  { intros v Hv. unfold wrap64. rewrite Z.add_0_r. symmetry. by apply Z.mod_small. }
  assert (Hc : forall get f, get Metrics_new = 0 ->
    (forall m, 0 <= get m < u64_bound -> forall e, get (record_one m e) = wrap64 (get m + f e)) ->
    get (foldl record_one Metrics_new l) = wrap64 (total f l)).
  { intros get f H0 Hstep. rewrite (counter_total get f Hstep) by (rewrite H0; unfold u64_bound; lia). by rewrite H0. }
  split_and!; apply Hc; try done; intros m Hm []; cbn; auto.
Qed.

Lemma range_records_length store d height n rs :
  range_records store d height n = inr rs -> length rs = n.
Proof.
  revert height rs. induction n as [|n IH]; intros height rs Hr; cbn in Hr; [by injection Hr as <-|].
  repeat case_match; try done. injection Hr as <-. cbn. f_equal. eauto.
Qed.

Lemma range_records_error store d height n r :
  range_records store d height n = inl r -> exists status body, r = RJson status body.
Proof.
  revert height. induction n as [|n IH]; intros height Hr; cbn in Hr; [done|].
  repeat case_match; try done; simplify_eq; eauto; by eexists _, _.
Qed.

(** A recorded request carries the bytes of a batch of exactly the records counted. *)
Lemma metered_range_exact i d m start hex status bytes m' :
  metered_range i d m start hex = (RBytes status bytes, m') ->
  exists batch, bytes = FilterBatch_encode batch /\ zlen (fb_records batch) = range_count i start hex /\
    zlen bytes <= MAX_BATCH_BYTES /\ m' = observe_range m (range_count i start hex) (zlen bytes).
Proof.
  unfold metered_range, range, range_count.
  destruct (BlockHash_from_display_hex hex) as [hash|]; [|done].
  destruct (FilterStore_height_of _ _) as [stop|]; [|done].
  destruct (start <? _); [done|]. destruct (stop <? start) eqn:Hss; [done|].
  set (count := Z.min _ _). assert (0 <= count) as Hcount.
  { unfold count, wrap64, u64_bound. pose proof (Z.mod_pos_bound (stop - start + 1) (2 ^ 64) ltac:(lia)).
    change MAX_RECORDS_PER_BATCH with 1000. lia. }
  destruct (range_records _ _ _ _) as [r|rs] eqn:Hr.
  { by apply range_records_error in Hr as (? & ? & ->). }
  destruct (BlockHash_from_display_hex _) as [genesis|]; [|done].
  destruct (MAX_BATCH_BYTES <? _) eqn:Hmax; [done|]. bool_prop. intros [= <- <- <-].
  apply range_records_length in Hr. eexists. split_and!; [done| |lia|done]. cbn. unfold zlen. lia.
Qed.

(** A scrape shows the store, the tip and the phase of the moment. *)
Lemma scrape_shows_store l i :
  let m := foldl record_one Metrics_new (l ++ [RecScrape i]) in
  mt_covered_through m = as_signed64 (default 0 (FilterStore_covered_through (in_store i))) /\
  mt_tip_height m = as_signed64 (default 0 (in_tip_height i)) /\
  mt_filters_stored m = as_signed64 (FilterStore_filters_stored (in_store i)) /\
  mt_phase m = phase_code (in_phase i).
Proof. intros m. unfold m. rewrite foldl_app. done. Qed.

(** Heights below 2^63 are shown as they are. *)
Lemma as_signed64_small z : 0 <= z < 2 ^ 63 -> as_signed64 z = z.
Proof. intros Hz. unfold as_signed64. rewrite Z.mod_small; lia. Qed.
End service.
