(* ===== verification/Sidecar.v ===== *)
(** * The monitoring sidecar

    Models [server/pir-apm/src/slack.rs] and the loop of
    [server/pir-apm/src/main.rs] that ties the sidecar together: a tick of
    [ApmAlerts] is published to the shared dashboard data and its transitions are
    sent to Slack one after the other.  Slack's webhook is an operation of a network
    that keeps the messages it was sent; a message may fail.  The theorem: over any
    run, Slack is sent exactly one message per transition, in order, failures of
    others notwithstanding, and the dashboard shows the last tick. *)

From Stdlib Require Import ZArith Lia.
From stdpp Require Import base numbers list strings gmap pretty.
From S2P Require Import Prelude Float64 ApmSchema ApmMetrics ApmAlerts Html Dashboard.

Open Scope Z_scope.
Open Scope string_scope.
Open Scope list_scope.

(** ** Slack *)

Record SlackNotifier := { sn_webhook_url : option string; sn_environment : string; sn_hostname : string }.

(** [reqwest] posting [{ "text": text }]: the status, or a request error. *)
Class SlackHook (N : Type) := slack_post : string -> string -> N -> result unit Z * N.

(** A line of a message. *)
Definition line (key value : string) : string := newline +:+ key +:+ ": " +:+ value.

Definition fire_text (self : SlackNotifier) (alert : Alert) : string :=
  "🔥 PIR APM ALERT" +:+ line "Environment" (sn_environment self) +:+ line "Hostname" (sn_hostname self) +:+
  line "Check" (al_check alert) +:+ line "Observed" (al_observed alert) +:+
  line "Threshold" (al_threshold alert) +:+ line "Dashboard" "/apm/".

Definition recover_text (self : SlackNotifier) (alert : Alert) : string :=
  "✅ PIR APM RECOVERY" +:+ line "Environment" (sn_environment self) +:+ line "Hostname" (sn_hostname self) +:+
  line "Check" (al_check alert) +:+ line "Observed" "clear" +:+
  line "Threshold" (al_threshold alert) +:+ line "Dashboard" "/apm/".

Definition test_text (self : SlackNotifier) : string :=
  "🧪 PIR APM TEST ALERT" +:+ line "Environment" (sn_environment self) +:+ line "Hostname" (sn_hostname self) +:+
  line "Check" "test_alert" +:+ line "Observed" "CLI test requested" +:+
  line "Threshold" "n/a" +:+ line "Dashboard" "/apm/".

Section slack.
Context {N : Type} `{SlackHook N} (self : SlackNotifier).

Definition send (text : string) (n : N) : result string unit * N :=
  match sn_webhook_url self with
  | None => (Ok tt, n)
  | Some webhook_url =>
      match slack_post webhook_url text n with
      | (Err _, n) => (Err "Slack notification request failed", n)
      | (Ok status, n) =>
          if negb ((200 <=? status)%Z && (status <? 300)%Z)
          then (Err ("Slack notification returned HTTP " +:+ pretty status), n)
          else (Ok tt, n)
      end
  end.

Definition fire (alert : Alert) (n : N) : result string unit * N := send (fire_text self alert) n.
Definition recover (alert : Alert) (n : N) : result string unit * N := send (recover_text self alert) n.
Definition test (n : N) : result string unit * N := send (test_text self) n.

(** The sleep between the two messages is not modelled. *)
Definition forced_high_latency (wall : Z) (n : N) : result string unit * N :=
  let alert := {| al_check := "high_latency"; al_observed := "synthetic staging verification";
                  al_threshold := "forced by --force-alert"; al_fired_at := wall |} in
  match fire alert n with
  | (Ok _, n) => recover alert n
  | failed => failed
  end.

(** The loop over the transitions of a tick; the errors it logs. *)
Definition notify (transition : AlertTransition) (n : N) : result string unit * N :=
  match transition with Fired alert => fire alert n | Recovered alert => recover alert n end.

Fixpoint notify_all (transitions : list AlertTransition) (n : N) : list string * N :=
  match transitions with
  | [] => ([], n)
  | transition :: transitions =>
      let '(result, n) := notify transition n in
      let '(log, n) := notify_all transitions n in
      (match result with Ok _ => log | Err error => ("Slack notification failed: " +:+ error) :: log end, n)
  end.
End slack.

(** ** The loop *)

(** The write to the shared dashboard; a body is the text of its bytes. *)
Definition publish_view (view : DashboardView) (data : DashboardData) : DashboardData := {|
  dd_title := dd_title data; dd_schema := dd_schema data; dd_environment := dd_environment data;
  dd_hostname := dd_hostname data; dd_last_scrape := Some (dv_last_scrape view);
  dd_scrape_error := dv_scrape_error view; dd_health_status := dv_health_status view;
  dd_health_body := bytes_string <$> dv_health_body view; dd_ready_status := dv_ready_status view;
  dd_endpoints := dv_endpoints view; dd_snapshot_gauges := dv_snapshot_gauges view;
  dd_workers := dv_workers view; dd_worker_queries := dv_worker_queries view;
  dd_layout := dv_layout view; dd_tables := dv_tables view; dd_worker_tables := dv_worker_tables view;
  dd_process_resident_memory_bytes := dv_process_resident_memory_bytes view; dd_host := dv_host view;
  dd_active_alerts := dv_active_alerts view; dd_recent_alerts := dv_recent_alerts view |}.

(** The scrape loop's own state, the shared dashboard, the network and the log. *)
Record Sidecar (N : Type) := {
  sc_scrape : ScrapeState; sc_dashboard : DashboardData; sc_network : N; sc_log : list string }.
Arguments sc_scrape {_}.
Arguments sc_dashboard {_}.
Arguments sc_network {_}.
Arguments sc_log {_}.

Definition Sidecar_new {N} (title : string) (schema : Schema) (environment hostname : string)
    (host : HostHealth) (n : N) : Sidecar N :=
  {| sc_scrape := ScrapeState_new schema;
     sc_dashboard := DashboardData_new title schema environment hostname host;
     sc_network := n; sc_log := [] |}.

Definition sidecar_tick {N} `{SlackHook N} (schema : Schema) (notifier : SlackNotifier)
    (s : Sidecar N) (t : Tick) : Sidecar N :=
  let '(transitions, view, scrape) := run_tick schema t (sc_scrape s) in
  let '(log, n) := notify_all notifier transitions (sc_network s) in
  {| sc_scrape := scrape; sc_dashboard := publish_view view (sc_dashboard s);
     sc_network := n; sc_log := sc_log s ++ log |}.

Definition sidecar_run {N} `{SlackHook N} (schema : Schema) (notifier : SlackNotifier)
    (ticks : list Tick) (s : Sidecar N) : Sidecar N :=
  foldl (sidecar_tick schema notifier) s ticks.

(** ** What Slack is sent *)

Definition message (self : SlackNotifier) (t : AlertTransition) : string :=
  match t with Fired alert => fire_text self alert | Recovered alert => recover_text self alert end.

(** A network that keeps what was posted; its answers are any function of that. *)
Section posted.
Context (answer : list (string * string) -> result unit Z).

#[local] Instance posting : SlackHook (list (string * string)) :=
  fun url text posts => (answer posts, posts ++ [(url, text)]).

Context (self : SlackNotifier) (url : string).
Hypothesis Hurl : sn_webhook_url self = Some url.

Lemma send_posts text posts : (send self text posts).2 = posts ++ [(url, text)].
Proof. unfold send, slack_post, posting. rewrite Hurl. repeat case_match; done. Qed.

Lemma notify_posts t posts : (notify self t posts).2 = posts ++ [(url, message self t)].
Proof. destruct t; apply send_posts. Qed.

Lemma notify_all_posts ts posts :
  (notify_all self ts posts).2 = posts ++ ((fun t => (url, message self t)) <$> ts) /\
  (length (notify_all self ts posts).1 <= length ts)%nat.
Proof.
  revert posts. induction ts as [|t ts IH]; intros posts; cbn [notify_all].
  - by rewrite app_nil_r.
  - pose proof (notify_posts t posts) as Hn. destruct (notify self t posts) as [r n] eqn:E. cbn in Hn. subst n.
    destruct (IH (posts ++ [(url, message self t)])) as [Hp Hl].
    destruct (notify_all self ts _) as [log n]. cbn in Hp, Hl. subst n. rewrite <- app_assoc.
    split; [done|]. destruct r; cbn; lia.
Qed.

(** A tick of the sidecar is the tick of the scrape loop, published and sent. *)
Lemma sidecar_tick_eq schema s t :
  let '(transitions, view, scrape) := run_tick schema t (sc_scrape s) in
  sc_scrape (sidecar_tick schema self s t) = scrape /\
  sc_network (sidecar_tick schema self s t) =
    sc_network s ++ ((fun t => (url, message self t)) <$> transitions) /\
  sc_dashboard (sidecar_tick schema self s t) = publish_view view (sc_dashboard s).
Proof.
  unfold sidecar_tick. destruct (run_tick schema t (sc_scrape s)) as [[transitions view] scrape].
  destruct (notify_all_posts transitions (sc_network s)) as [Hp _].
  destruct (notify_all self transitions (sc_network s)) as [l n]. cbn in Hp. by subst n.
Qed.

(** The sidecar runs the scrape loop and sends every transition of it. *)
Lemma sidecar_run_eq schema ticks s0 :
  sc_scrape s0 = ScrapeState_new schema -> sc_network s0 = [] ->
  let s := sidecar_run schema self ticks s0 in
  sc_scrape s = (run_ticks schema ticks).2 /\
  sc_network s = (fun t => (url, message self t)) <$> (run_ticks schema ticks).1.
Proof.
  intros H0 H1. induction ticks as [|t ticks IH] using rev_ind; [done|].
  unfold sidecar_run in *. rewrite foldl_snoc. destruct IH as [Hs Hn].
  pose proof (sidecar_tick_eq schema (foldl (sidecar_tick schema self) s0 ticks) t) as Ht.
  rewrite Hs in Ht. rewrite run_ticks_snoc. unfold run_step.
  destruct (run_tick schema t (run_ticks schema ticks).2) as [[out view] scrape].
  destruct Ht as (-> & -> & _). cbn [fst snd]. rewrite Hn, fmap_app. done.
Qed.

(** What the dashboard lists as active is what the engine holds. *)
Lemma run_tick_active schema t s :
  let '(_, view, scrape) := run_tick schema t s in
  dv_active_alerts view = active (ss_alerts scrape) /\ dv_recent_alerts view = recent (ss_alerts scrape).
Proof.
  unfold run_tick, scrape_tick. destruct (scrape_metrics _ _ _ _ _ _) as [rolling error].
  destruct (evaluate _ _ _) as [out alerts]. done.
Qed.
End posted.

(** C37: over any run of the sidecar, whatever is scraped and whatever Slack answers,
    Slack is sent exactly one message for every alert that fires and every alert that
    recovers, in that order; for each check the alerts sent are a firing, then the
    recovery of that alert, and so on; and the dashboard lists as active exactly the
    alerts whose firing was sent and whose recovery was not. *)
Theorem sidecar_notifies answer schema notifier url title environment hostname host ticks t :
  sn_webhook_url notifier = Some url ->
  let s := @sidecar_run _ (posting answer) schema notifier (ticks ++ [t])
             (Sidecar_new title schema environment hostname host []) in
  exists transitions active_alerts,
    sc_network s = (fun t => (url, message notifier t)) <$> transitions /\
    (forall check, replay None (transitions_of check transitions) = Some (active_alerts !! check)) /\
    dd_active_alerts (sc_dashboard s) = (sorted_entries active_alerts).*2.
Proof.
  intros Hurl s. set (s0 := Sidecar_new title schema environment hostname host []) in s.
  destruct (sidecar_run_eq answer notifier url Hurl schema (ticks ++ [t]) s0) as [Hs Hn]; [done..|].
  fold s in Hs, Hn. exists (run_ticks schema (ticks ++ [t])).1, (ae_active (ss_alerts (sc_scrape s))).
  split_and!; [done| |].
  - rewrite Hs. apply run_ticks_tracked.
  - unfold s, sidecar_run. rewrite foldl_snoc.
    set (before := foldl _ s0 ticks).
    pose proof (sidecar_tick_eq answer notifier url Hurl schema before t) as Ht.
    pose proof (run_tick_active schema t (sc_scrape before)) as Ha.
    destruct (run_tick schema t (sc_scrape before)) as [[out view] scrape].
    destruct Ht as (-> & _ & ->). destruct Ha as [Ha _]. exact Ha.
Qed.

(** Without a webhook nothing is sent and nothing fails. *)
Lemma no_webhook {N} `{SlackHook N} notifier ts n :
  sn_webhook_url notifier = None -> notify_all notifier ts n = ([], n).
Proof.
  intros Hw. induction ts as [|t ts IH]; [done|]. cbn [notify_all].
  assert (notify notifier t n = (Ok tt, n)) as ->.
  { destruct t; unfold notify, fire, recover, send; by rewrite Hw. }
  by rewrite IH.
Qed.

(** The failing run of [ApmAlerts] and a recovery, to a webhook that answers 500: two
    firings and two recoveries are sent. *)
Definition recovery_tick : Tick := sample_tick 400 (Ok {| fr_status := 200; fr_body := [] |}) 200.

Lemma sidecar_notifies_witness :
  let notifier := {| sn_webhook_url := Some "https://hooks"; sn_environment := "prod"; sn_hostname := "h" |} in
  let s := @sidecar_run _ (posting (fun _ => Ok 500)) sample_schema notifier (failing_ticks ++ [recovery_tick])
             (Sidecar_new "PIR" sample_schema "prod" "h" quiet_host []) in
  length (sc_network s) = 4%nat /\ length (sc_log s) = 4%nat /\
  exists transitions active_alerts,
    sc_network s = (fun t => ("https://hooks", message notifier t)) <$> transitions /\
    (forall check, replay None (transitions_of check transitions) = Some (active_alerts !! check)) /\
    dd_active_alerts (sc_dashboard s) = (sorted_entries active_alerts).*2.
Proof.
  intros notifier s. split; [vm_compute; reflexivity|]. split; [vm_compute; reflexivity|].
  exact (sidecar_notifies (fun _ => Ok 500) sample_schema notifier "https://hooks" "PIR" "prod" "h" quiet_host
    failing_ticks recovery_tick eq_refl).
Defined.
